(* ===== verification/_CoqProject ===== *)
-Q . S2P
Prelude.v
GoStrings.v
GoSort.v
GoDuration.v
Re2.v
Version.v
Values.v
JsonWire.v
NestedMap.v
Sha256.v
ApiKeys.v
ApiKeyTheorems.v
Subscriptions.v
WebhookSecrets.v
LazyResources.v
GoHeap.v
GoList.v
Cache.v
CacheTheorems.v
Sdk.v
Registry.v
QueryPath.v
Executor.v
CelEvaluator.v
ExecutorProps.v
ChainBuild.v
XdsHandlers.v
XdsClient.v
Routes.v
ManagementApi.v
ConfigStore.v
PolicyVersions.v
RestTransform.v
ApiValidator.v
LlmTransform.v
McpTransform.v
ArtifactValidators.v
EventHub.v
TemplateEngine.v
RuntimeSnapshot.v
StateSnapshots.v
ArtifactTables.v
EventListener.v
Mutation.v
ExecContext.v
Translator.v
Handlers.v
ExtProc.v
HandlerProps.v
Samples.v
MutationTheorems.v
TranslatorTheorems.v
ExecutorTheorems.v
ChainTheorems.v
XdsTheorems.v
XdsClientTheorems.v
ConfigStoreTheorems.v
RouteTheorems.v
RestTransformTheorems.v
SnapshotTheorems.v
ChainDelivery.v
StateSnapshotTheorems.v
LlmTheorems.v
LlmRouteTheorems.v
LlmDeterminism.v
ApiValidatorTheorems.v
ArtifactTheorems.v
ArtifactTableTheorems.v
EventHubTheorems.v
EventDelivery.v
EventListenerTheorems.v
StreamTheorems.v
BodyTheorems.v
