(* ===== verification/Prelude.v ===== *)
(** * Verification of the gateway's policy engine and its configuration

    The repository is an API-management platform.  Its data plane is an Envoy
    proxy that asks a Go process, the policy engine, what to do with every
    request: over one gRPC stream per HTTP request Envoy sends the request
    headers, the request body, the response headers and the response body,
    and the engine answers each message with header and body mutations,
    metadata, a processing-mode override, or an immediate response.  What the
    engine decides is computed by the policies of the chain configured for
    the route.  Chains, route metadata, API keys, subscriptions and other
    resources reach the engine over xDS from the gateway controller, which
    also gives Envoy its routes.  This development models the engine, its
    xDS client and stores, and the controller from the definition of an API to
    the resources it sends and the routes of Envoy, and proves what the rest
    relies on.

    ** Parts and how they interact

    Source directories are under
    src/gateway/gateway-runtime/policy-engine/internal/ unless said otherwise.

    - Policies implement the interfaces of src/sdk/core/policy/v1alpha2:
      header, body and streaming callbacks that return actions.
    - The registry (registry/) holds the policy definitions and factories,
      resolves their system parameters against the configuration and creates
      instances.
    - The kernel tables (kernel/mapper.go) map a route to its metadata and its
      policy chain; chains are built by xdsclient/handler.go (from xDS),
      kernel/xds.go (from a file) and kernel/body_mode.go.
    - The executor (executor/chain.go) runs one phase of a chain over the
      context of a request; conditions are evaluated by pkg/cel.
    - The execution context (kernel/execution_context.go) is the state of one
      request; its handlers run the executor and hand the results to the
      translators (kernel/translator.go, kernel/analytics.go), which build the
      answer.
    - The stream server (kernel/extproc.go) creates the context when the
      request headers arrive and dispatches the later messages to it.
    - The xDS client (xdsclient/) keeps one stream to the controller, answers
      every update with an ACK or a NACK and hands it to the handler of its
      type, which replaces a kernel table or one of the stores policies read:
      API keys (src/common/apikey), subscriptions
      (src/sdk/core/policyengine), lazy resources (src/sdk/core/policy).
    - Policies cache through src/sdk/core/utils/cache; webhook secrets live in
      src/common/webhooksecret.
    - The controller (src/gateway/gateway-controller/pkg) validates an
      artifact (config/), keeps it in its store (storage/), turns an LLM
      provider or proxy or an MCP proxy into a REST API
      (utils/llm_transformer.go, utils/mcp_transformer.go) and a REST
      API into a runtime configuration of routes, clusters and policy chains
      (transform/), and sends that to the engine as xDS resources (policyxds/)
      along with the state of API keys, subscriptions and lazy resources
      (apikeyxds/, subscriptionxds/, lazyresourcexds/).
    - From the same runtime configuration it makes Envoy routes (xds/), orders
      them by precedence and groups them by virtual host; the name of a route
      is the key under which the engine finds its chain.
    - Replicas of the controller tell each other of changes through the event
      hub (src/common/eventhub): a table of events and of gateway versions
      that each replica polls for its subscribers.  The event listener
      (eventlistener/) of a replica reads each artifact an event names from
      the database, renders its templates (templateengine/) and brings the
      stores, the runtime configurations and the snapshots in line with it.

    ** Files

    - Prelude: the Go fragment everything is written in.  A call is a function
      from a state to an [Outcome]: a normal return, an error return that
      keeps the mutated state, or a panic.  Counted loops with break and
      continue, map iteration in an arbitrary order (class [MapRange]: every
      theorem holds for every order), weakest preconditions.
    - GoStrings, GoSort, GoDuration, GoHeap, GoList, Sha256, Re2: the standard
      library as far as used: strings, strconv, sort, time.ParseDuration at
      the width of int64, container/heap, container/list, crypto/sha256, and
      the fragment of regular expressions the controller writes.  Values,
      NestedMap: dynamic values with the JSON round trip of deepCopyParams;
      maps of maps.  JsonWire: what both ends rely on when a Go value travels
      as JSON inside a protobuf Struct.
    - Version: src/common/version/version.go.
    - Sdk: headers, actions, contexts and policy interfaces.  Header objects
      are shared by pointer between contexts and mutated in place, so they
      live in a heap ([Store]) and contexts hold locations.  A policy is a
      record of callbacks that read the store and return an action; the state
      policies keep for themselves is a type parameter.
    - Registry, QueryPath: registry/ and utils/request_modification.go.
    - Executor, ExecutorProps, ExecutorTheorems: executor/chain.go.
      CelEvaluator: pkg/cel with its cache of compiled programs.
    - ChainBuild, ChainTheorems: chain builders and tables.
    - Mutation, MutationTheorems: header operations, metadata, analytics.
    - ExecContext, Translator, Handlers, ExtProc: the request's context, the
      translators, the handlers of the four phases and the stream loop.
    - HandlerProps: the invariant of a request in flight and that every
      handler keeps it.
    - StreamTheorems, BodyTheorems, TranslatorTheorems: theorems about whole
      streams, about bodies and modes, and about what is sent.
    - ApiKeys, ApiKeyTheorems, Subscriptions, WebhookSecrets, LazyResources:
      the stores.  API keys are objects shared by pointer with the callers.
    - Cache, CacheTheorems: the in-memory cache; heap items and list elements
      are locations.
    - XdsHandlers, XdsTheorems: decoding and reconciliation of updates.
    - XdsClient, XdsClientTheorems: the stream of responses, the back-off, and
      the life cycle of the goroutine, [Stop] and the transport as a step
      relation on their joint state.
    - Routes, RouteTheorems: the controller's Envoy routes.
    - ManagementApi: the artifacts (api/management/generated.go,
      models/stored_config.go) as records with the fields the code reads.
    - ConfigStore, ConfigStoreTheorems: storage/memory.go and topics.go.
    - PolicyVersions: config/policy_validator.go.  ApiValidator,
      ApiValidatorTheorems: config/api_validator.go.
    - RestTransform, RestTransformTheorems: transform/restapi.go.
    - LlmTransform, LlmTheorems, LlmRouteTheorems, LlmDeterminism:
      utils/llm_transformer.go.  The operations under construction are a map
      iterated while it grows, in any order (class [RegistryRange]).
      LlmRouteTheorems follows the derived operations to the routes of Envoy.
    - McpTransform: utils/mcp_transformer.go and the templates of
      utils/commonutils.go.  ArtifactValidators: config/llm_validator.go,
      mcp_validator.go and secret_validator.go.  ArtifactTheorems: that
      accepted LLM and MCP artifacts deploy.
    - EventHub: src/common/eventhub.  The tables are a list of rows and a map
      of versions; any statement of a call may fail.  EventHubTheorems: the
      channels and the page loop.  EventDelivery: runs of the hub with the
      history of a gateway beside them.
    - TemplateEngine: templateengine/spec.go and src/common/redact.
      EventListener: eventlistener/ with UpdateSnapshot of xds/snapshot.go.  A
      handler is a function from the state of a replica to the state it
      leaves, also when it panics; the database is a class of operations.
      EventListenerTheorems: convergence of the replicas, alone and composed
      with the event hub.
    - ArtifactTables, ArtifactTableTheorems: the artifacts in the database
      (storage/sql_store.go, models/data_version.go).  The tables are maps with
      the keys, the uniqueness, the checks and the references the schema
      declares; a transaction is a function that fails or gives new tables,
      and any statement of it may fail.
    - RuntimeSnapshot, SnapshotTheorems, ChainDelivery: policyxds/, the
      runtime store and the other transformers; the composition of the
      controller with the handlers of the engine.
    - StateSnapshots, StateSnapshotTheorems: the distribution of API keys,
      lazy resources and subscriptions, and storage/loaders.go.
    - Samples: small policies, chains and instances for the witnesses.

    ** What the theorems show

    - A whole stream (StreamTheorems): no panic for any policies and any
      message contents in protocol order; a request keeps its chain while the
      tables change under it; the snapshot of the client's headers stays what
      the client sent; the accumulators stay below 10 MB; every message is
      answered once and in kind; unknown routes fail closed.
    - Bodies (BodyTheorems): streamed bytes of an unencoded request body are
      conserved; termination of a response stream, as the policies themselves
      note it, is visible and final; the mode override fits the chain;
      header modifications take effect once.
    - Answers (MutationTheorems, TranslatorTheorems): the single header
      mutation refines the sequence of operations of the policies, for
      releases of Envoy that read the append action and for those that read
      the append flag; a replaced body has matching length and, for gzip and
      brotli, encoding; routing, analytics and reserved metadata are the
      engine's.
    - The executor (ExecutorTheorems, CelEvaluator): effect, order and
      short-circuit of a phase, every header decided by the last action that
      sets or removes it; policies that do not take part have no
      effect; streaming chunks; the cache of compiled conditions changes no
      result, and every declared variable has a value in every phase.
    - Configuration (ChainTheorems, Registry, Version, Values, XdsTheorems):
      whatever the sequence of snapshots, a chain in the kernel was built from
      the latest configuration of its route, an unchanged snapshot builds
      nothing, an update is applied as a whole or not at all, chain flags mean
      what they say; registration, lookup and parameter resolution.
    - The client (XdsClientTheorems): it refines a subscriber that keeps the
      last accepted version of every type; a rejected update changes nothing;
      the back-off formula and where it overflows; no connection outlives the
      goroutine, and a cancelled client finishes in a bounded number of steps.
    - The stores: the API key store refines a table of keys by name and hash,
      and only live keys are accepted; subscriptions are those of the last
      snapshot; the indexes of lazy resources agree; identifiers round-trip.
    - The cache (CacheTheorems): it stays within its size and never panics,
      the LRU cache refines a list in order of use, LFU evicts an entry used
      least, and a hit is not expired.
    - Routes (RouteTheorems): the first match in a virtual host is the best
      in the documented order, a matcher accepts exactly the paths of its operation, the rewrite
      replaces the context by the base path of the upstream, both translators
      agree, and virtual hosts partition the routes.
    - Deployment (ApiValidatorTheorems, RestTransformTheorems, PolicyVersions):
      an accepted API is deployed, its definitions are reachable, every
      operation has a route on every host with the policies of the API before
      its own, main and sandbox traffic are kept apart, and policy versions
      resolve to loaded ones.
    - LLM artifacts (LlmTheorems, LlmRouteTheorems, LlmDeterminism): a
      provider that denies all serves only its exceptions; for one that allows
      all, the route Envoy takes for a denied request has the deny policy, if
      the paths of the configuration are such that Envoy's order agrees; and the result does not depend on the order of map iteration.
    - Accepted artifacts (ArtifactTheorems): an accepted LLM provider or MCP
      proxy becomes an API that deploys exactly if its upstream definitions
      do, and an accepted LLM proxy becomes an API with an upstream for each
      provider it names.
    - Events (EventHubTheorems, EventDelivery): no sequence of operations
      sends on or closes a closed channel or overfills one, whatever
      statements fail; in runs whose event times increase with the commits
      ([admissible]), subscribers get a contiguous part of the history, once
      and in order, and with enough rounds of reading and polling all of it.
    - Replicas (EventListenerTheorems): once the database rests and the last
      event of an artifact is processed, a replica has the artifact and its
      runtime configuration as the database has it, or no longer has it,
      whatever other events there are; and the last events do arrive.
    - The database (ArtifactTableTheorems): its tables stay consistent
      whatever statements fail, a call takes effect as a whole or not at all,
      what is stored is read back by every key and listed once, and of several
      deployments of an artifact the newest wins in any order.
    - The store of artifacts (ConfigStoreTheorems): it refines a table of
      artifacts, whatever the topic hook answers, and its indexes are exact.
    - Delivery (SnapshotTheorems, ChainDelivery, StateSnapshotTheorems): what
      the engine decodes is what the controller had: chains, routes and their
      upstreams, and the API keys the engine then accepts; the subscription
      snapshot has exactly the active subscriptions.
    - Defects, stated as theorems: the body phase undoes a redirect of the
      header phase, a GET with a body runs body policies twice, a file
      configuration serves no route, a nil streaming action panics the
      response phase, dollar signs in configuration values are expanded, a
      remove followed by an append is dropped, a failed regeneration loses an
      API key, colliding lazy resources make the indexes disagree, the
      back-off overflows, a stopped client can report another state,
      short literal paths are hidden by patterns, a failed update of an
      artifact moves its handle, a reused identifier leaves the indexes
      behind, a deleted template keeps its handle, labels are shared between
      kinds, a policy attached twice runs twice with the same parameters, a
      zero timeout is accepted and then refused, a resource of a template
      escapes a denied wildcard, and so does a path with a parameter, a denied
      short path is hidden by the catch-all, appended values are not shown to
      later policies, a failed topic hook leaves the artifact stored, a
      replaced body of an unknown encoding is sent plain, an attached deny policy shows the order of
      the map, the context of an additional provider is lost, two providers of
      a proxy share a cluster, credentials of an MCP proxy are altered, an
      event that commits late is lost, events of the same time are delivered
      twice, a burst of them blocks its gateway, exchanged names never
      arrive at a replica that lags behind, and an artifact whose kind
      changes is listed twice.

    ** External code

    Code outside the sources is a class or a parameter: [MapRange] (iteration
    order), [NetURL] (net/url), [CEL], [CelGo] and [FmtScalar] (expression
    evaluation, printing of floats), [EnvoyHeaders] (what Envoy does with a
    mutation, by the documented law of the release, which reads the append
    action or the append flag), [Re2Engine] (Envoy's regular
    expressions, by their meaning on the fragment used), [StructPB] and
    [XdsCodec] (protobuf and JSON), [Codecs] (gzip and brotli, with the
    round-trip law of a codec), [UUIDSource], [FloatToInt] (conversion of a
    float that does not fit), [UrlParser] (url.Parse of an upstream),
    [JSONSchema] (validation of parameters), [SnapshotWire], [StateWireLaws]
    and [TimeJSON] (encoding of a resource and of a time), [RegistryRange]
    (iteration over the map of operations), [YamlUnmarshal] (reading of a
    rendered template), [EventOrder] (order of rows with equal times),
    [KindTables] (kinds other modules register), [SourceJSON] (JSON of a
    source), [NewestFirst] (order of rows by creation),
    [Storage] and [StorageLaws] (the database as the event listener uses it, which keeps artifacts when it
    deletes subscriptions), [ConfigJSON] and [TextTemplate] (JSON of a configuration
    and execution of a template), [EnvoySnapshots] (whether Envoy's resources
    could be made and published), [ListenerJSON] (JSON of templates and event
    data).  The database of the LLM transformer is a record of its operations.  Concrete instances satisfy the laws and are
    used by the witnesses.

    ** Fuel

    Most loops are structural or counted by the list they walk.  The string
    functions with fuel ([expand_fuel], [replace_fuel], [ReplaceAll_fuel],
    [find_refs_fuel], [parse_fuel]) consume at least one byte a step and have
    the length of the string; [replacePlaceholders] removes one placeholder a
    step ([replacePlaceholders_spec] shows that its fuel is enough).  The
    loops of container/heap have as fuel the index they start from or the
    size of the heap; running out is a panic, and the specifications of
    [up], [down], [Push], [Pop], [Remove] and [Fix] show there is none.  The
    page loop of the event hub has one step for each row of the table and one
    more ([pollPages_spec] shows that this is enough).

    ** Not modelled

    Tracing, metrics and logging have no effect on the results and are left
    out, as are timings.  The locks of the tables and stores make their
    operations atomic; an interleaving is a sequence of them.  The goroutine
    inside the stream decompressor is an abstract machine fed with chunks.
    Strings are byte strings and case conversion is ASCII.  A policy changes
    a context through its action only.  Dialling and TLS are not modelled, nor
    are the Python bridge and the admin and analytics servers.  Of the
    controller the SQL tables of templates, certificates, plans, applications
    and secrets, the services and the synchronisation with the control plane, listeners, filters and TLS of Envoy, the loading and the
    events of webhook secrets and the dispatch between the caches of
    go-control-plane are not modelled; nor are the event gateway, the platform
    API, the portals and the CLI: they are mostly calls of a database, of HTTP
    services and of generated code.  The goroutine of the event listener is
    the list of the events it reads, and the time is one for all of them, as
    only the snapshots of subscriptions show it.  A poll of the event hub is one step on
    the replica's state; the statements it executes may see versions older
    than the events. *)

From stdpp Require Import base gmap strings list fin_maps pretty.
From Stdlib Require Import Ascii.

(** ** Outcomes

    A Go call returns normally, returns a non-nil [error], or panics.  The
    state is kept on an error return, because the caller may go on with the
    objects the callee has already mutated. *)

Inductive Outcome (S A : Type) : Type :=
| Ok (s : S) (a : A)
| Err (s : S) (e : string)
| Panic.

Arguments Ok {S A} _ _.
Arguments Err {S A} _ _.
Arguments Panic {S A}.

Definition GoM (S A : Type) : Type := S -> Outcome S A.

Declare Scope go_scope.
Delimit Scope go_scope with go.

#[export] Instance GoM_ret {S} : MRet (GoM S) := fun A a s => Ok s a.

#[export] Instance GoM_bind {S} : MBind (GoM S) := fun A B k m s =>
  match m s with
  | Ok s' a => k a s'
  | Err s' e => Err s' e
  | Panic => Panic
  end.

Definition fail {S A} (e : string) : GoM S A := fun s => Err s e.
Definition panic {S A} : GoM S A := fun _ => Panic.
Definition get {S} : GoM S S := fun s => Ok s s.
Definition put {S} (s : S) : GoM S unit := fun _ => Ok s tt.
Definition modify {S} (f : S -> S) : GoM S unit := fun s => Ok (f s) tt.

(** What a sequence of two calls did. *)
Lemma bind_Ok {S A B} (m : GoM S A) (k : A -> GoM S B) s s' a : m s = Ok s' a -> (m ≫= k) s = k a s'.
Proof. intros E. unfold mbind, GoM_bind. by rewrite E. Qed.

Lemma bind_Ok_inv {S A B} (m : GoM S A) (k : A -> GoM S B) s s' b :
  (m ≫= k) s = Ok s' b -> exists s1 a, m s = Ok s1 a /\ k a s1 = Ok s' b.
Proof. unfold mbind, GoM_bind. destruct (m s); [eauto|done..]. Qed.

Lemma bind_Err_inv {S A B} (m : GoM S A) (k : A -> GoM S B) s s' e :
  (m ≫= k) s = Err s' e -> m s = Err s' e \/ exists s1 a, m s = Ok s1 a /\ k a s1 = Err s' e.
Proof. unfold mbind, GoM_bind. destruct (m s) as [s1 a|s1 e1|]; [eauto|intros [= -> ->]; by left|done]. Qed.

Lemma bind_Panic_inv {S A B} (m : GoM S A) (k : A -> GoM S B) s :
  (m ≫= k) s = Panic -> m s = Panic \/ exists s1 a, m s = Ok s1 a /\ k a s1 = Panic.
Proof. unfold mbind, GoM_bind. destruct (m s) as [s1 a|s1 e1|]; [eauto|done|by left]. Qed.

(** [xs[i]] on a slice: out of range panics. *)
Definition index {S A} (xs : list A) (i : nat) : GoM S A := fun s =>
  match xs !! i with Some x => Ok s x | None => Panic end.

(** A call that returns [(v, error)]. *)
Definition lift_err {S A} (r : string + A) : GoM S A :=
  match r with inl e => fail e | inr a => mret a end.

(** [fmt.Errorf] around the error of a call. *)
Definition wrapErr {S A} (wrap : string -> string) (m : GoM S A) : GoM S A := fun s =>
  match m s with Ok s' a => Ok s' a | Err s' e => Err s' (wrap e) | Panic => Panic end.

(** Functions that return [(v, error)] and touch no state: a sum. *)
Definition sum_bind {A B} (r : string + A) (f : A -> string + B) : string + B :=
  match r with inl e => inl e | inr a => f a end.

(** [fmt.Errorf("...: %w", err)] around the error of such a call. *)
Definition orErr {A} (msg : string) (r : string + A) : string + A :=
  match r with inl e => inl (msg +:+ ": " +:+ e)%string | inr a => inr a end.

Notation "'let!' p := e 'in' k" := (sum_bind e (fun p => k)) (at level 200, p pattern, e at level 100, k at level 200) : go_scope.

(** A test that returns the error [e] when it fails. *)
Definition check (b : bool) (e : string) : string + unit := if b then inr tt else inl e.

Lemma sum_bind_inr {A B} (r : string + A) (f : A -> string + B) b :
  sum_bind r f = inr b <-> exists a, r = inr a /\ f a = inr b.
Proof. destruct r as [e|a]; simpl; split; [done|intros (? & ? & ?); done| |intros (? & [= <-] & ?)]; eauto. Qed.

Lemma orErr_inr {A} msg (r : string + A) a : orErr msg r = inr a <-> r = inr a.
Proof. by destruct r. Qed.

(** ** Loops *)

Inductive Ctl (R : Type) : Type :=
| Continue (r : R)
| Break (r : R).

Arguments Continue {R} _.
Arguments Break {R} _.

(** [for i, x := range l { body }], starting at index [i]. *)
Fixpoint for_range {S A R} (body : nat -> A -> R -> GoM S (Ctl R))
    (i : nat) (l : list A) (r : R) : GoM S R :=
  match l with
  | [] => mret r
  | x :: l' => c ← body i x r;
               match c with
               | Continue r' => for_range body (Datatypes.S i) l' r'
               | Break r' => mret r'
               end
  end.

(** [for i := n-1; i >= 0; i-- { body }]. *)
Fixpoint for_down {S R} (body : nat -> R -> GoM S (Ctl R))
    (n : nat) (r : R) : GoM S R :=
  match n with
  | O => mret r
  | Datatypes.S i => c ← body i r;
           match c with
           | Continue r' => for_down body i r'
           | Break r' => mret r'
           end
  end.

(** What a loop that mutates its state in place leaves of it when an
    iteration returns an error: the state that iteration began with. *)
Fixpoint range_state {S A R} (body : nat -> A -> R -> GoM S (Ctl R)) (i : nat) (l : list A) (r : R) (s : S) : R :=
  match l with
  | [] => r
  | x :: l' => match body i x r s with
               | Ok s' (Continue r') => range_state body (Datatypes.S i) l' r' s'
               | Ok _ (Break r') => r'
               | Err _ _ | Panic => r
               end
  end.

Fixpoint down_state {S R} (body : nat -> R -> GoM S (Ctl R)) (n : nat) (r : R) (s : S) : R :=
  match n with
  | O => r
  | Datatypes.S i => match body i r s with
                     | Ok s' (Continue r') => down_state body i r' s'
                     | Ok _ (Break r') => r'
                     | Err _ _ | Panic => r
                     end
  end.

(** A loop over the elements alone; [for_range_loop] and [for_down_loop]
    reduce the indexed loops of the code to it. *)
Fixpoint loop {S A R} (f : A -> R -> GoM S (Ctl R)) (l : list A) (r : R) : GoM S R :=
  match l with
  | [] => mret r
  | x :: l' => c ← f x r;
               match c with
               | Continue r' => loop f l' r'
               | Break r' => mret r'
               end
  end.

(** ** Map iteration

    [for k, v := range m] visits every entry once, in an order the language
    leaves open.  [range] is that order; a theorem proved for every instance
    holds whatever order the runtime picks. *)
Class MapRange := {
  range : forall {A : Type}, gmap string A -> list (string * A);
  range_perm : forall {A : Type} (m : gmap string A), range m ≡ₚ map_to_list m
}.

(** The instance used by concrete evaluations. *)
Definition MapRange_list : MapRange := {|
  range A m := map_to_list m;
  range_perm A m := reflexivity _
|}.

(** [for k, v := range src { dst[k] = v }]: the keys of [src] are distinct,
    so the order does not matter. *)
Definition map_copy_into {A} (dst src : gmap string A) : gmap string A := src ∪ dst.

(** ** Package strings, on bytes

    Lower- and upper-casing act on ASCII letters; header names, HTTP methods
    and media types, the only arguments the code passes, are ASCII. *)

Definition lower_ascii (c : ascii) : ascii :=
  let n := nat_of_ascii c in
  if (65 <=? n) && (n <=? 90) then ascii_of_nat (n + 32) else c.

Definition upper_ascii (c : ascii) : ascii :=
  let n := nat_of_ascii c in
  if (97 <=? n) && (n <=? 122) then ascii_of_nat (n - 32) else c.

Fixpoint string_map (f : ascii -> ascii) (s : string) : string :=
  match s with
  | EmptyString => EmptyString
  | String c s' => String (f c) (string_map f s')
  end.

Definition ToLower : string -> string := string_map lower_ascii.
Definition ToUpper : string -> string := string_map upper_ascii.

Fixpoint HasPrefix (s prefix : string) : bool :=
  match prefix, s with
  | EmptyString, _ => true
  | String p prefix', String c s' => Ascii.eqb c p && HasPrefix s' prefix'
  | String _ _, EmptyString => false
  end.

Fixpoint Contains (s substr : string) : bool :=
  HasPrefix s substr ||
  match s with EmptyString => false | String _ s' => Contains s' substr end.

(** [strings.ReplaceAll(s, old, new)] for one-byte [old] and [new]. *)
Definition ReplaceAllByte (old new : ascii) : string -> string :=
  string_map (fun c => if Ascii.eqb c old then new else c).

Fixpoint String_contains_byte (c : ascii) (s : string) : bool :=
  match s with
  | EmptyString => false
  | String d s' => Ascii.eqb c d || String_contains_byte c s'
  end.

(** ** Weakest preconditions *)

Definition wp {S A} (m : GoM S A) (Q : S -> A -> Prop)
    (E : S -> string -> Prop) (P : Prop) (s : S) : Prop :=
  match m s with Ok s' a => Q s' a | Err s' e => E s' e | Panic => P end.

(** [noPanic m s]: [m] returns, normally or with an error. *)
Definition noPanic {S A} (m : GoM S A) (s : S) : Prop :=
  wp m (fun _ _ => True) (fun _ _ => True) False s.

(** A computation ends in a state, with a result or an error. *)
Definition leads {S A} (m : GoM S A) (s s' : S) : Prop := (exists a, m s = Ok s' a) \/ (exists e, m s = Err s' e).

(** What a computation returns, if it returns a value. *)
Definition returns {S A} (m : GoM S A) (P : A -> Prop) : Prop := forall s s' a, m s = Ok s' a -> P a.

Lemma returns_ret {S A} (a : A) (P : A -> Prop) : P a -> returns (S := S) (mret a) P.
Proof. intros HP s s' a' [= _ <-]. done. Qed.
Lemma returns_fail {S A} e (P : A -> Prop) : returns (S := S) (fail e) P.
Proof. by intros s s' a. Qed.
Lemma returns_bind {S A B} (m : GoM S A) (k : A -> GoM S B) (Q : A -> Prop) P :
  returns m Q -> (forall a, Q a -> returns (k a) P) -> returns (m ≫= k) P.
Proof.
  intros Hm Hk s s' b. unfold mbind, GoM_bind. destruct (m s) as [s1 a| |] eqn:E; [|done|done].
  apply Hk. by eapply Hm.
Qed.
Lemma returns_any {S A} (m : GoM S A) : returns m (fun _ => True).
Proof. done. Qed.

Lemma returns_mono {S A} (m : GoM S A) (P Q : A -> Prop) : returns m P -> (forall a, P a -> Q a) -> returns m Q.
Proof. intros Hm HPQ s s' a E. by eapply HPQ, Hm. Qed.


(** A property of the loop state that every iteration keeps. *)
Lemma range_state_inv {S A R} (J : R -> Prop) (body : nat -> A -> R -> GoM S (Ctl R)) :
  (forall i x r s, J r -> wp (body i x r) (fun _ c => match c with Continue r' | Break r' => J r' end) (fun _ _ => True) True s) ->
  forall l i r s, J r -> J (range_state body i l r s).
Proof.
  intros Hb l. induction l as [|x l IH]; intros i r s Hr; simpl; [done|].
  pose proof (Hb i x r s Hr) as Hx. unfold wp in Hx. destruct (body i x r s) as [s' [r'|r']| |]; auto.
Qed.

Lemma down_state_inv {S R} (J : R -> Prop) (body : nat -> R -> GoM S (Ctl R)) :
  (forall i r s, J r -> wp (body i r) (fun _ c => match c with Continue r' | Break r' => J r' end) (fun _ _ => True) True s) ->
  forall n r s, J r -> J (down_state body n r s).
Proof.
  intros Hb n. induction n as [|n IH]; intros r s Hr; simpl; [done|].
  pose proof (Hb n r s Hr) as Hx. unfold wp in Hx. destruct (body n r s) as [s' [r'|r']| |]; auto.
Qed.

(** A test of an outcome, and what passing it means. *)
Definition succeeds {S A} (o : Outcome S A) (test : S -> A -> bool) : bool :=
  match o with Ok s a => test s a | _ => false end.

Lemma succeeds_inv {S A} (o : Outcome S A) test :
  succeeds o test = true -> exists s a, o = Ok s a /\ test s a = true.
Proof. destruct o as [s a| |]; [eauto|done|done]. Qed.

Create HintDb go discriminated.
Create Rewrite HintDb go.

Section Wp.
Context {S : Type}.

Lemma wp_ret {A} (a : A) Q E P (s : S) : Q s a -> wp (mret a) Q E P s.
Proof. done. Qed.

Lemma wp_bind {A B} (m : GoM S A) (k : A -> GoM S B) Q E P s :
  wp m (fun s' a => wp (k a) Q E P s') E P s -> wp (m ≫= k) Q E P s.
Proof. unfold wp, mbind, GoM_bind. by destruct (m s). Qed.

Lemma wp_mono {A} (m : GoM S A) Q Q' E E' (P P' : Prop) s :
  wp m Q E P s -> (forall s' a, Q s' a -> Q' s' a) ->
  (forall s' e, E s' e -> E' s' e) -> (P -> P') -> wp m Q' E' P' s.
Proof. unfold wp. destruct (m s); eauto. Qed.

Lemma wp_fail {A} e Q E P (s : S) : E s e -> wp (fail (A:=A) e) Q E P s.
Proof. done. Qed.

Lemma wp_get (Q : S -> S -> Prop) E P (s : S) : Q s s -> wp get Q E P s.
Proof. done. Qed.

Lemma wp_modify (f : S -> S) (Q : S -> unit -> Prop) E P (s : S) : Q (f s) tt -> wp (modify f) Q E P s.
Proof. done. Qed.

Lemma wp_index {A} (xs : list A) i x Q E P (s : S) :
  xs !! i = Some x -> Q s x -> wp (index xs i) Q E P s.
Proof. unfold wp, index. by intros ->. Qed.

Lemma wp_index_lt {A} (xs : list A) i Q E P (s : S) :
  i < length xs -> (forall x, xs !! i = Some x -> Q s x) -> wp (index xs i) Q E P s.
Proof.
  intros Hi HQ. destruct (lookup_lt_is_Some_2 xs i Hi) as [x Hx].
  eapply wp_index; eauto.
Qed.

Lemma wp_lift_err {A} (r : string + A) Q E P (s : S) :
  match r with inl e => E s e | inr a => Q s a end -> wp (lift_err r) Q E P s.
Proof. by destruct r. Qed.

Lemma wp_Ok {A} (m : GoM S A) Q E P s s' a :
  wp m Q E P s -> m s = Ok s' a -> Q s' a.
Proof. unfold wp. intros H Hm. by rewrite Hm in H. Qed.

Lemma wp_returns {A} (m : GoM S A) (Q : A -> Prop) s s' a :
  wp m (fun _ a => Q a) (fun _ _ => True) True s -> m s = Ok s' a -> Q a.
Proof. unfold wp. intros H Hm. by rewrite Hm in H. Qed.

Lemma wp_Err {A} (m : GoM S A) Q E P s s' e :
  wp m Q E P s -> m s = Err s' e -> E s' e.
Proof. unfold wp. intros H Hm. by rewrite Hm in H. Qed.

(** The loop rule: [I] holds of the elements still to visit before each
    iteration, a [Continue] re-establishes it, a [Break] gives the
    postcondition. *)
Lemma loop_wp {A R} (f : A -> R -> GoM S (Ctl R)) (I : list A -> S -> R -> Prop) Q E P :
  (forall x l r s, I (x :: l) s r ->
     wp (f x r)
        (fun s' c => match c with Continue r' => I l s' r' | Break r' => Q s' r' end) E P s) ->
  (forall s r, I [] s r -> Q s r) ->
  forall l r s, I l s r -> wp (loop f l r) Q E P s.
Proof.
  intros Hstep Hend. induction l as [|x l IH]; intros r s HI; simpl.
  - by apply wp_ret, Hend.
  - apply wp_bind. eapply wp_mono; [by apply Hstep | | done | done].
    intros s' [r'|r'] Hc; [by apply IH | by apply wp_ret].
Qed.

Lemma loop_ext {A R} (f g : A -> R -> GoM S (Ctl R)) l :
  (forall x r s, x ∈ l -> f x r s = g x r s) ->
  forall r s, loop f l r s = loop g l r s.
Proof.
  induction l as [|x l IH]; intros H r s; [done|]. simpl.
  unfold mbind, GoM_bind. rewrite H by set_solver.
  destruct (g x r s) as [s' [r'|r']|?|]; try done. apply IH. set_solver.
Qed.

(** Indexed loops that agree step by step agree. *)
Lemma for_range_ext {A R} (f g : nat -> A -> R -> GoM S (Ctl R)) :
  (forall i x r s, f i x r s = g i x r s) ->
  forall l i r s, for_range f i l r s = for_range g i l r s.
Proof.
  intros H. induction l as [|x l IH]; intros i r s; [done|]. simpl.
  unfold mbind, GoM_bind. rewrite H. destruct (g i x r s) as [s' [r'|r']|?|]; eauto.
Qed.

Lemma for_down_ext {R} (f g : nat -> R -> GoM S (Ctl R)) :
  (forall i r s, f i r s = g i r s) ->
  forall n r s, for_down f n r s = for_down g n r s.
Proof.
  intros H. induction n as [|n IH]; intros r s; [done|]. simpl.
  unfold mbind, GoM_bind. rewrite H. destruct (g n r s) as [s' [r'|r']|?|]; eauto.
Qed.

Lemma bind_bind_index {A B C} (xs : list A) i x (k : A -> GoM S B) (k' : B -> GoM S C) s :
  xs !! i = Some x -> ((index xs i ≫= k) ≫= k') s = (k x ≫= k') s.
Proof. intros Hx. unfold mbind, GoM_bind, index. by rewrite Hx. Qed.

Lemma for_range_loop {A B R} (f : A -> B -> R -> GoM S (Ctl R)) xs ys :
  length xs <= length ys -> forall r s,
  for_range (fun i x r => y ← index ys i; f x y r) 0 xs r s
    = loop (fun p r => f p.1 p.2 r) (zip xs ys) r s.
Proof.
  intros Hlen.
  cut (forall xs' i r s, xs' = drop i xs ->
    for_range (fun i x r => y ← index ys i; f x y r) i xs' r s
      = loop (fun p r => f p.1 p.2 r) (zip xs' (drop i ys)) r s).
  { intros Hc r s. rewrite (Hc xs) by done. by rewrite drop_0. }
  induction xs' as [|x xs' IH]; intros i r s Hxs; [done|].
  assert (length (drop i xs) = Datatypes.S (length xs')) as Hl by by rewrite <- Hxs.
  rewrite length_drop in Hl.
  destruct (lookup_lt_is_Some_2 ys i) as [y Hy]; [lia|].
  rewrite (drop_S ys y i Hy). simpl.
  erewrite bind_bind_index by done. unfold mbind, GoM_bind.
  destruct (f x y r s) as [s' [r'|r']|?|]; try done.
  apply IH. rewrite <- (Nat.add_1_r i), <- drop_drop, <- Hxs. done.
Qed.

Lemma for_down_loop {A B R} (f : A -> B -> R -> GoM S (Ctl R)) xs ys :
  length xs <= length ys -> forall r s,
  for_down (fun i r => x ← index xs i; y ← index ys i; f x y r) (length xs) r s
    = loop (fun p r => f p.1 p.2 r) (reverse (zip xs ys)) r s.
Proof.
  intros Hlen.
  cut (forall n, n <= length xs -> forall r s,
    for_down (fun i r => x ← index xs i; y ← index ys i; f x y r) n r s
      = loop (fun p r => f p.1 p.2 r) (reverse (take n (zip xs ys))) r s).
  { intros Hc r s. rewrite Hc by done. rewrite take_ge; [done|].
    rewrite length_zip_with. lia. }
  induction n as [|n IH]; intros Hn r s; [done|].
  destruct (lookup_lt_is_Some_2 xs n) as [x Hx]; [lia|].
  destruct (lookup_lt_is_Some_2 ys n) as [y Hy]; [lia|].
  assert (zip xs ys !! n = Some (x, y)) as Hz.
  { apply lookup_zip_with_Some. eauto. }
  rewrite (take_S_r _ _ _ Hz), reverse_snoc. simpl.
  rewrite (bind_bind_index xs n x) by done. rewrite (bind_bind_index ys n y) by done.
  unfold mbind, GoM_bind. destruct (f x y r s) as [s' [r'|r']|?|]; try done.
  apply IH. lia.
Qed.

(** A loop that does not use its index. *)
Lemma for_range_plain {A R} (f : A -> R -> GoM S (Ctl R)) l : forall i r s,
  for_range (fun _ x r => f x r) i l r s = loop f l r s.
Proof.
  induction l as [|x l IH]; intros i r s; [done|]. simpl.
  unfold mbind, GoM_bind. destruct (f x r s) as [s' [r'|r']|?|]; try done.
Qed.

(** A loop whose every iteration computes the next value. *)
Lemma for_range_pure {A R} (body : nat -> A -> R -> GoM S (Ctl R)) (g : R -> A -> R) l s :
  (forall i x r, x ∈ l -> body i x r s = Ok s (Continue (g r x))) ->
  forall i r, for_range body i l r s = Ok s (foldl g r l).
Proof.
  induction l as [|x l IH]; intros Hb i r; [done|]. simpl. unfold mbind, GoM_bind.
  rewrite Hb by set_solver. apply IH. intros ????. apply Hb. set_solver.
Qed.

(** An invariant of the value a loop carries, its state being left alone. *)
Lemma for_range_inv {A R} (body : nat -> A -> R -> GoM S (Ctl R)) (J : R -> Prop) l s :
  (forall i x r, x ∈ l -> J r -> match body i x r s with
                                 | Ok s' (Continue r') | Ok s' (Break r') => s' = s /\ J r'
                                 | Err s' _ => s' = s
                                 | Panic => False
                                 end) ->
  forall i r, J r -> match for_range body i l r s with
                     | Ok s' r' => s' = s /\ J r'
                     | Err s' _ => s' = s
                     | Panic => False
                     end.
Proof.
  induction l as [|x l IH]; intros Hb i r Hr; [done|]. simpl. unfold mbind, GoM_bind.
  pose proof (Hb i x r ltac:(set_solver) Hr) as Hx. destruct (body i x r s) as [s' [r'|r']|s' e|]; [| |done|done].
  - destruct Hx as [-> Hr']. apply IH; [|done]. intros ????. apply Hb. set_solver.
  - done.
Qed.

(** ** Relational reasoning

    Two computations agree up to [R] on the values they return: same state,
    same error, both panic or neither. *)
Definition outcome_rel {A B} (R : A -> B -> Prop) (o1 : Outcome S A) (o2 : Outcome S B) : Prop :=
  match o1, o2 with
  | Ok s1 a, Ok s2 b => s1 = s2 /\ R a b
  | Err s1 e1, Err s2 e2 => s1 = s2 /\ e1 = e2
  | Panic, Panic => True
  | _, _ => False
  end.

Definition ctl_rel {R1 R2} (R : R1 -> R2 -> Prop) (c1 : Ctl R1) (c2 : Ctl R2) : Prop :=
  match c1, c2 with
  | Continue r1, Continue r2 | Break r1, Break r2 => R r1 r2
  | _, _ => False
  end.

Lemma outcome_rel_bind {A B A' B'} (R : A -> A' -> Prop) (R' : B -> B' -> Prop)
    (m : GoM S A) (m' : GoM S A') k k' s :
  outcome_rel R (m s) (m' s) ->
  (forall a a' s, R a a' -> outcome_rel R' (k a s) (k' a' s)) ->
  outcome_rel R' ((m ≫= k) s) ((m' ≫= k') s).
Proof.
  unfold mbind, GoM_bind. destruct (m s), (m' s); simpl; try done.
  intros [-> ?] Hk. by apply Hk.
Qed.

Lemma outcome_rel_eq {A} (o : Outcome S A) : outcome_rel eq o o.
Proof. by destruct o. Qed.

(** An element whose step only moves the state within [R] can be left out of
    the loop. *)
Lemma loop_filter_rel {A R} (keep : A -> bool) (R0 : R -> R -> Prop)
    (f : A -> R -> GoM S (Ctl R)) :
  (forall x r r' s, keep x = true -> R0 r r' -> outcome_rel (ctl_rel R0) (f x r s) (f x r' s)) ->
  (forall x r r' s, keep x = false -> R0 r r' ->
      exists r1, f x r s = Ok s (Continue r1) /\ R0 r1 r') ->
  forall l r r' s, R0 r r' ->
    outcome_rel R0 (loop f l r s) (loop f (filter (fun x => keep x = true) l) r' s).
Proof.
  intros Hkeep Hdrop. induction l as [|x l IH]; intros r r' s HR; [done|].
  rewrite filter_cons. destruct (keep x) eqn:Hx.
  - rewrite decide_True by done. simpl. eapply outcome_rel_bind; [by apply Hkeep|].
    intros [r1|r1] [r2|r2] s1 Hc; simpl in Hc; try done. by apply IH.
  - rewrite decide_False by done. destruct (Hdrop x r r' s Hx HR) as (r1&Hf&HR1).
    simpl. unfold mbind, GoM_bind. rewrite Hf. by apply IH.
Qed.

End Wp.

(** ** Strings *)

Lemma lower_ascii_idem c : lower_ascii (lower_ascii c) = lower_ascii c.
Proof. destruct c as [[] [] [] [] [] [] [] []]; reflexivity. Qed.

Lemma ToLower_idem s : ToLower (ToLower s) = ToLower s.
Proof.
  unfold ToLower. induction s as [|c s IH]; simpl; [done|].
  by rewrite lower_ascii_idem, IH.
Qed.

(** ** Finite maps *)

Lemma range_NoDup `{MapRange} {A} (m : gmap string A) : NoDup (range m).*1.
Proof. rewrite range_perm. apply NoDup_fst_map_to_list. Qed.

Lemma elem_of_range `{MapRange} {A} (m : gmap string A) k v :
  (k, v) ∈ range m <-> m !! k = Some v.
Proof. rewrite range_perm. apply elem_of_map_to_list. Qed.

#[export] Hint Rewrite ToLower_idem : go.

(** A loop over a map that updates, at each key, that key only. *)
Lemma foldl_alter_lookup {A B} (f : string -> A -> option B -> option B) (l : list (string * A)) (acc : gmap string B) k :
  NoDup l.*1 ->
  foldl (fun acc kv => partial_alter (f kv.1 kv.2) kv.1 acc) acc l !! k
    = match (list_to_map l : gmap string A) !! k with Some a => f k a (acc !! k) | None => acc !! k end.
Proof.
  revert acc. induction l as [|[k' a] l IH]; intros acc Hnd; simpl; [by rewrite lookup_empty|].
  apply NoDup_cons in Hnd as [Hnin Hnd]. rewrite IH by done. simpl.
  destruct (decide (k' = k)) as [->|Hne].
  - rewrite lookup_insert_eq, lookup_partial_alter_eq. by rewrite not_elem_of_list_to_map_1.
  - by rewrite lookup_insert_ne, lookup_partial_alter_ne.
Qed.

Lemma range_list_to_map `{MapRange} {A} (m : gmap string A) : list_to_map (range m) = m.
Proof.
  rewrite (list_to_map_proper _ (map_to_list m)); [|apply range_NoDup|apply range_perm].
  apply list_to_map_to_list.
Qed.

Lemma foldl_range_lookup `{MapRange} {A B} (f : string -> A -> option B -> option B) (m : gmap string A) (acc : gmap string B) k :
  foldl (fun acc kv => partial_alter (f kv.1 kv.2) kv.1 acc) acc (range m) !! k
    = match m !! k with Some a => f k a (acc !! k) | None => acc !! k end.
Proof. rewrite foldl_alter_lookup by apply range_NoDup. by rewrite range_list_to_map. Qed.

(** Copying a map entry by entry. *)
Lemma foldl_insert_range `{MapRange} {A} (m : gmap string A) :
  foldl (fun acc kv => <[kv.1 := kv.2]> acc) ∅ (range m) = m.
Proof.
  apply map_eq. intros k.
  rewrite (foldl_range_lookup (fun _ a _ => Some a) m ∅ k : foldl (fun acc kv => <[kv.1 := kv.2]> acc) ∅ (range m) !! k = _).
  rewrite lookup_empty. by destruct (m !! k).
Qed.

(** ** Lists of pairs *)

Lemma NoDup_fst_inj {A B} (l : list (A * B)) a b b' : NoDup l.*1 -> (a, b) ∈ l -> (a, b') ∈ l -> b = b'.
Proof.
  induction l as [|[a0 b0] l IH]; simpl; [intros _ ?%elem_of_nil; done|]. rewrite NoDup_cons, !elem_of_cons.
  intros [Hn Hnd] [E1|H1] [E2|H2]; simplify_eq; [done| | |by apply IH]; exfalso; apply Hn; apply list_elem_of_fmap; by eexists (_, _).
Qed.

Lemma filter_id {A} (P : A -> Prop) `{!forall x, Decision (P x)} (l : list A) : (forall x, x ∈ l -> P x) -> filter P l = l.
Proof.
  induction l as [|x l IH]; intros HP; [done|]. rewrite filter_cons_True by (apply HP; set_solver). f_equal. apply IH. set_solver.
Qed.

Lemma NoDup_fmap_elem_inj {A B} (f : A -> B) (l : list A) x y :
  NoDup (f <$> l) -> x ∈ l -> y ∈ l -> f x = f y -> x = y.
Proof.
  induction l as [|z l IH]; [by intros _ ?%elem_of_nil|]. rewrite fmap_cons, NoDup_cons, !elem_of_cons. intros [Hn Hnd] [->|Hx] [->|Hy] E.
  - done.
  - destruct Hn. rewrite E. by apply list_elem_of_fmap_2.
  - destruct Hn. rewrite <- E. by apply list_elem_of_fmap_2.
  - by apply IH.
Qed.
