(* ===== verification/GoStrings.v ===== *)
(** * GoStrings: the parts of Go's text packages the code calls

    [strings.TrimSpace], [strings.TrimPrefix], [strings.Split],
    [strconv.Atoi], [strconv.Itoa], and the replacement templates of
    [regexp.ReplaceAllString].  All of them work on bytes; the letter classes
    are those of ASCII. *)

From stdpp Require Import base strings list.
From Stdlib Require Import Ascii Decimal DecimalString DecimalZ DecimalPos.
From S2P Require Import Prelude.

#[local] Set Warnings "-register-all".

Fixpoint string_rev_app (s acc : string) : string :=
  match s with EmptyString => acc | String c s' => string_rev_app s' (String c acc) end.
Definition string_rev (s : string) : string := string_rev_app s EmptyString.

(** ASCII white space: tab, newline, vertical tab, form feed, return, space. *)
Definition is_space_byte (c : ascii) : bool :=
  let n := nat_of_ascii c in ((9 <=? n) && (n <=? 13)) || (n =? 32).

Fixpoint TrimLeftSpace (s : string) : string :=
  match s with
  | EmptyString => EmptyString
  | String c s' => if is_space_byte c then TrimLeftSpace s' else s
  end.

Definition TrimSpace (s : string) : string :=
  string_rev (TrimLeftSpace (string_rev (TrimLeftSpace s))).

(** [strings.TrimPrefix(s, "v")] and the like, for a one-byte prefix. *)
Definition TrimPrefixByte (p : ascii) (s : string) : string :=
  match s with
  | String c s' => if Ascii.eqb c p then s' else s
  | EmptyString => EmptyString
  end.

(** [strings.Split(s, sep)] for a one-byte separator: never empty. *)
Fixpoint Split (sep : ascii) (s : string) : list string :=
  match s with
  | EmptyString => [EmptyString]
  | String c s' =>
      if Ascii.eqb c sep then EmptyString :: Split sep s'
      else match Split sep s' with
           | [] => [String c EmptyString]
           | x :: l => String c x :: l
           end
  end.

(** ** Decimal integers *)

Definition int64_min : Z := (- 2 ^ 63)%Z.
Definition int64_max : Z := (2 ^ 63 - 1)%Z.
Definition in_int64 (z : Z) : bool := ((int64_min <=? z) && (z <=? int64_max))%Z.

Definition Itoa (z : Z) : string := NilZero.string_of_int (Z.to_int z).

(** An optional sign, then at least one digit, within the range of [int]. *)
Definition Atoi (s : string) : option Z :=
  let parse sign ds :=
    match NilZero.uint_of_string ds with
    | Some u => let z := (sign * Z.of_uint u)%Z in if in_int64 z then Some z else None
    | None => None
    end in
  match s with
  | String "-" ds => parse (-1)%Z ds
  | String "+" ds => parse 1%Z ds
  | _ => parse 1%Z s
  end.

(** ** Replacement templates

    [regexp.ReplaceAllString] expands [$name], [${name}] and [$$] in the
    replacement text; with a pattern that has no groups, [$0] is the whole
    match and every other reference is empty. *)

Definition is_word_byte (c : ascii) : bool :=
  let n := nat_of_ascii c in
  ((48 <=? n) && (n <=? 57)) || ((65 <=? n) && (n <=? 90)) || ((97 <=? n) && (n <=? 122)) || (n =? 95).

Fixpoint span_word (s : string) : string * string :=
  match s with
  | EmptyString => (EmptyString, EmptyString)
  | String c s' => if is_word_byte c then let '(w, r) := span_word s' in (String c w, r)
                   else (EmptyString, s)
  end.

(** [extract] of package regexp: the name after a [$] and the rest. *)
Definition extract (s : string) : option (string * string) :=
  let '(brace, str) := match s with String "{" s' => (true, s') | _ => (false, s) end in
  let '(name, rest) := span_word str in
  if String.eqb name "" then None
  else if brace then match rest with String "}" r => Some (name, r) | _ => None end
  else Some (name, rest).

(** [expand]; [fuel] bounds the number of bytes of the template. *)
Fixpoint expand_fuel (fuel : nat) (template match_ : string) : string :=
  match fuel with
  | O => template
  | Datatypes.S n =>
      match template with
      | EmptyString => EmptyString
      | String "$" t =>
          match t with
          | String "$" t' => String "$" (expand_fuel n t' match_)
          | _ => match extract t with
                 | None => String "$" (expand_fuel n t match_)
                 | Some (name, rest) =>
                     ((if String.eqb name "0" then match_ else EmptyString)
                        +:+ expand_fuel n rest match_)%string
                 end
          end
      | String c t => String c (expand_fuel n t match_)
      end
  end.
Definition expand (template match_ : string) : string :=
  expand_fuel (String.length template) template match_.

Fixpoint string_drop (n : nat) (s : string) : string :=
  match n, s with
  | O, _ => s
  | Datatypes.S n', String _ s' => string_drop n' s'
  | _, EmptyString => EmptyString
  end.

(** [regexp.MustCompile(regexp.QuoteMeta(lit)).ReplaceAllString(s, repl)] for
    a non-empty [lit]: every occurrence, left to right, is replaced by the
    expansion of [repl]. *)
Fixpoint replace_fuel (fuel : nat) (lit repl s : string) : string :=
  match fuel with
  | O => s
  | Datatypes.S n =>
      match s with
      | EmptyString => EmptyString
      | String c s' =>
          if HasPrefix s lit then
            (expand repl lit +:+ replace_fuel n lit repl (string_drop (String.length lit) s))%string
          else String c (replace_fuel n lit repl s')
      end
  end.
Definition ReplaceAllString (lit repl s : string) : string :=
  replace_fuel (String.length s) lit repl s.

Definition is_digit (c : ascii) : bool := Nat.leb 48 (nat_of_ascii c) && Nat.leb (nat_of_ascii c) 57.

Fixpoint span_digits (s : string) : string :=
  match s with
  | String c s' => if is_digit c then String c (span_digits s') else EmptyString
  | EmptyString => EmptyString
  end.

Definition dquote : string := String "034"%char EmptyString.
Definition hex_digit (n : nat) : ascii := ascii_of_nat (if Nat.ltb n 10 then 48 + n else 87 + n).

(** [%q]: escapes of [strconv.Quote]; bytes of printable non-ASCII text are
    kept. *)
Definition quote_byte (c : ascii) : string :=
  let n := nat_of_ascii c in
  if Nat.eqb n 34 then String "\" dquote
  else if Nat.eqb n 92 then "\\"
  else if Nat.eqb n 7 then "\a" else if Nat.eqb n 8 then "\b" else if Nat.eqb n 12 then "\f"
  else if Nat.eqb n 10 then "\n" else if Nat.eqb n 13 then "\r" else if Nat.eqb n 9 then "\t" else if Nat.eqb n 11 then "\v"
  else if Nat.ltb n 32 || (Nat.eqb n 127) then
    "\x" +:+ String (hex_digit (n / 16)) (String (hex_digit (n mod 16)) EmptyString)
  else String c EmptyString.

Fixpoint quote_bytes (s : string) : string :=
  match s with EmptyString => "" | String c s' => quote_byte c +:+ quote_bytes s' end.
Definition Quote (s : string) : string := dquote +:+ quote_bytes s +:+ dquote.

(** ** Lemmas *)

Lemma append_cons c (s t : string) : (String c s +:+ t)%string = String c (s +:+ t)%string.
Proof. reflexivity. Qed.

Lemma append_empty (t : string) : ("" +:+ t)%string = t.
Proof. reflexivity. Qed.

#[export] Hint Rewrite append_cons append_empty : go.

Lemma append_assoc_s (a b c : string) : ((a +:+ b) +:+ c = a +:+ (b +:+ c))%string.
Proof. induction a as [|x a IH]; [done|]. autorewrite with go. by rewrite IH. Qed.

Lemma append_nil_r (s : string) : (s +:+ "")%string = s.
Proof. induction s as [|c s IH]; [done|]. autorewrite with go. by rewrite IH. Qed.

Lemma string_rev_app_spec s acc : string_rev_app s acc = (string_rev s +:+ acc)%string.
Proof.
  unfold string_rev. revert acc. induction s as [|c s IH]; intros acc; simpl; [done|].
  rewrite (IH (String c acc)), (IH (String c "")). by rewrite append_assoc_s.
Qed.

Lemma string_rev_involutive s : string_rev (string_rev s) = s.
Proof.
  cut (forall acc, string_rev (string_rev_app s acc) = string_rev_app acc s); [intros Hc; exact (Hc ""%string)|].
  induction s as [|c s IH]; intros acc; simpl; [done|]. rewrite IH. done.
Qed.

Lemma TrimLeftSpace_idem s : TrimLeftSpace (TrimLeftSpace s) = TrimLeftSpace s.
Proof. induction s as [|c s IH]; simpl; [done|]. destruct (is_space_byte c) eqn:E; [done|]. simpl. by rewrite E. Qed.

(** The first byte of [s], if any, satisfies [P]. *)
Definition head_ok (P : ascii -> bool) (s : string) : bool :=
  match s with EmptyString => true | String c _ => P c end.

Definition no_space_head : string -> bool := head_ok (fun c => negb (is_space_byte c)).

Lemma TrimLeftSpace_id s : no_space_head s = true -> TrimLeftSpace s = s.
Proof. destruct s as [|c s]; simpl; [done|]. by destruct (is_space_byte c). Qed.

Lemma TrimLeftSpace_head s : no_space_head (TrimLeftSpace s) = true.
Proof. induction s as [|c s IH]; simpl; [done|]. destruct (is_space_byte c) eqn:E; [done|]. simpl. by rewrite E. Qed.

(** Trimming one end keeps the other end trimmed: what is left of [s] is a
    suffix of it. *)
Lemma TrimLeftSpace_suffix s : exists p, s = (p +:+ TrimLeftSpace s)%string.
Proof.
  induction s as [|c s [p IH]]; simpl; [by exists ""%string|].
  destruct (is_space_byte c); [|by exists ""%string]. exists (String c p). autorewrite with go. by rewrite <- IH.
Qed.

Lemma string_rev_app_distr s t : string_rev (s +:+ t)%string = (string_rev t +:+ string_rev s)%string.
Proof.
  unfold string_rev at 1. revert t. induction s as [|c s IH]; intros t; simpl.
  - by rewrite append_nil_r.
  - rewrite string_rev_app_spec. change (string_rev (String c s)) with (string_rev_app s (String c "")).
    rewrite string_rev_app_spec. unfold string_rev at 1. rewrite IH. by rewrite append_assoc_s.
Qed.

Lemma rev_TrimLeftSpace_head s : no_space_head s = true ->
  no_space_head (string_rev (TrimLeftSpace (string_rev s))) = true.
Proof.
  intros Hs. destruct (TrimLeftSpace_suffix (string_rev s)) as [p Hp].
  assert (s = (string_rev (TrimLeftSpace (string_rev s)) +:+ string_rev p)%string) as Hs'.
  { rewrite <- string_rev_app_distr, <- Hp. by rewrite string_rev_involutive. }
  destruct (string_rev (TrimLeftSpace (string_rev s))) as [|c r]; [done|].
  rewrite Hs' in Hs. exact Hs.
Qed.

Lemma TrimSpace_idem s : TrimSpace (TrimSpace s) = TrimSpace s.
Proof.
  unfold TrimSpace at 1 2. set (u := TrimLeftSpace s).
  rewrite (TrimLeftSpace_id (string_rev (TrimLeftSpace (string_rev u)))).
  2: { apply rev_TrimLeftSpace_head, TrimLeftSpace_head. }
  by rewrite string_rev_involutive, TrimLeftSpace_idem.
Qed.

Lemma in_int64_iff z : in_int64 z = true <-> (int64_min <= z <= int64_max)%Z.
Proof. unfold in_int64. rewrite andb_true_iff, !Z.leb_le. done. Qed.

Lemma Itoa_digits u : u <> Nil ->
  exists c t, NilZero.string_of_uint u = String c t /\ is_word_byte c = true /\ c <> "-"%char /\ c <> "+"%char.
Proof. destruct u; [done|..]; intros _; simpl; eexists _, _; split_and!; done. Qed.

Lemma Pos_to_uint_nonnil p : Pos.to_uint p <> Nil.
Proof.
  intros Hn. pose proof (DecimalPos.Unsigned.of_to p) as Ho. by rewrite Hn in Ho.
Qed.

Lemma uint_of_string_Itoa p :
  NilZero.uint_of_string (NilZero.string_of_uint (Pos.to_uint p)) = Some (Pos.to_uint p).
Proof. apply NilZero.usu, Pos_to_uint_nonnil. Qed.

Lemma Z_of_to_uint p : Z.of_uint (Pos.to_uint p) = Z.pos p.
Proof. unfold Z.of_uint. by rewrite DecimalPos.Unsigned.of_to. Qed.

(** Printing and parsing an [int] are inverse. *)
Lemma Atoi_Itoa z : in_int64 z = true -> Atoi (Itoa z) = Some z.
Proof.
  intros Hz. unfold Itoa. destruct z as [|p|p]; [done| |].
  - simpl. destruct (Itoa_digits (Pos.to_uint p)) as (c&t&Hs&_&Hm&Hp); [apply Pos_to_uint_nonnil|].
    unfold Atoi. rewrite Hs.
    replace (match c with _ => _ end) with
      (match NilZero.uint_of_string (String c t) with
       | Some u => let z := (1 * Z.of_uint u)%Z in if in_int64 z then Some z else None
       | None => None end).
    2: { destruct c as [[] [] [] [] [] [] [] []]; done. }
    rewrite <- Hs, uint_of_string_Itoa, Z_of_to_uint. cbv zeta.
    by rewrite Z.mul_1_l, Hz.
  - simpl. rewrite uint_of_string_Itoa, Z_of_to_uint. replace (-1 * Z.pos p)%Z with (Z.neg p) by lia.
    by rewrite Hz.
Qed.

(** ** Strings all of whose bytes satisfy a predicate *)

Fixpoint string_all (P : ascii -> bool) (s : string) : bool :=
  match s with EmptyString => true | String c s' => P c && string_all P s' end.

Lemma string_all_rev_app P s acc :
  string_all P (string_rev_app s acc) = string_all P s && string_all P acc.
Proof.
  revert acc. induction s as [|c s IH]; intros acc; simpl; [done|].
  rewrite IH. simpl. by destruct (P c), (string_all P s).
Qed.

Lemma string_all_mono (P Q : ascii -> bool) s :
  (forall c, P c = true -> Q c = true) -> string_all P s = true -> string_all Q s = true.
Proof.
  intros HPQ. induction s as [|c s IH]; simpl; [done|]. rewrite !andb_true_iff. naive_solver.
Qed.

Lemma string_all_head P s : string_all P s = true -> head_ok P s = true.
Proof. destruct s; simpl; [done|]. by intros [? _]%andb_true_iff. Qed.

Lemma TrimSpace_all s : string_all (fun c => negb (is_space_byte c)) s = true -> TrimSpace s = s.
Proof.
  intros Hs. unfold TrimSpace. rewrite (TrimLeftSpace_id s) by by apply string_all_head.
  rewrite TrimLeftSpace_id, string_rev_involutive; [done|].
  apply string_all_head. unfold string_rev. by rewrite string_all_rev_app, Hs.
Qed.

(** The bytes of a printed integer. *)
Definition is_int_byte (c : ascii) : bool :=
  let n := nat_of_ascii c in ((48 <=? n) && (n <=? 57)) || (n =? 45).

Lemma NilEmpty_int_bytes u : string_all is_int_byte (NilEmpty.string_of_uint u) = true.
Proof. induction u; simpl; try rewrite IHu; done. Qed.

Lemma Itoa_int_bytes z : string_all is_int_byte (Itoa z) = true.
Proof.
  assert (forall u, string_all is_int_byte (NilZero.string_of_uint u) = true) as Hu.
  { intros u. unfold NilZero.string_of_uint. destruct u; [done|..]; apply NilEmpty_int_bytes. }
  unfold Itoa. destruct (Z.to_int z); simpl; apply Hu.
Qed.

Lemma string_all_not_byte P c s :
  P c = false -> string_all P s = true -> String_contains_byte c s = false.
Proof.
  intros Hc. induction s as [|d s IH]; simpl; [done|]. intros [Hd Hs]%andb_true_iff.
  rewrite IH by done. destruct (Ascii.eqb_spec c d); [congruence|done].
Qed.

(** A parsed integer fits in [int]. *)
Lemma Atoi_range s z : Atoi s = Some z -> in_int64 z = true.
Proof.
  unfold Atoi. intros Hz. repeat (case_match; simplify_eq/=; try done).
Qed.

(** ** Prefixes and substitution *)

Lemma length_append (a b : string) : String.length (a +:+ b)%string = String.length a + String.length b.
Proof. induction a as [|c a IH]; [done|]. autorewrite with go. simpl. by rewrite IH. Qed.

(** [strings.LastIndex(s, sep)] for a one-byte separator: what precedes and
    what follows the last occurrence. *)
Fixpoint split_last (c : ascii) (s : string) : option (string * string) :=
  match s with
  | EmptyString => None
  | String d s' =>
      match split_last c s' with
      | Some (l, r) => Some (String d l, r)
      | None => if Ascii.eqb d c then Some ("", s') else None
      end
  end.

Lemma HasPrefix_append (a b : string) : HasPrefix (a +:+ b)%string a = true.
Proof. induction a as [|c a IH]; [by destruct b|]. autorewrite with go. cbn [HasPrefix]. by rewrite Ascii.eqb_refl, IH. Qed.

Lemma string_drop_append (a b : string) : string_drop (String.length a) (a +:+ b)%string = b.
Proof. induction a as [|c a IH]; [done|]. autorewrite with go. exact IH. Qed.

Lemma String_contains_byte_append c (a b : string) :
  String_contains_byte c (a +:+ b)%string = String_contains_byte c a || String_contains_byte c b.
Proof. induction a as [|d a IH]; [done|]. autorewrite with go. cbn [String_contains_byte]. by rewrite IH, orb_assoc. Qed.

Lemma HasPrefix_absent c lit d s : Ascii.eqb c d = false -> HasPrefix (String d s) (String c lit) = false.
Proof. cbn [HasPrefix]. rewrite Ascii.eqb_sym. by intros ->. Qed.

Lemma replace_fuel_absent n c lit repl s :
  String_contains_byte c s = false -> replace_fuel n (String c lit) repl s = s.
Proof.
  revert s. induction n as [|n IH]; intros [|d s]; try done.
  cbn [String_contains_byte replace_fuel]. intros [Hd Hs]%orb_false_iff.
  rewrite HasPrefix_absent by done. by rewrite IH.
Qed.

Lemma replace_fuel_skip n c lit repl pre s :
  String_contains_byte c pre = false ->
  replace_fuel (String.length pre + n) (String c lit) repl (pre +:+ s)%string
    = (pre +:+ replace_fuel n (String c lit) repl s)%string.
Proof.
  induction pre as [|d pre IH]; [done|]. cbn [String_contains_byte]. intros [Hd Hs]%orb_false_iff.
  autorewrite with go. cbn [String.length plus replace_fuel]. rewrite HasPrefix_absent by done. by rewrite IH.
Qed.

(** One occurrence of a literal, whose first byte is nowhere else. *)
Lemma ReplaceAllString_once c lit repl pre post :
  String_contains_byte c pre = false -> String_contains_byte c post = false ->
  ReplaceAllString (String c lit) repl (pre +:+ String c lit +:+ post)%string
    = (pre +:+ expand repl (String c lit) +:+ post)%string.
Proof.
  intros Hpre Hpost. unfold ReplaceAllString. rewrite length_append, replace_fuel_skip by done. f_equal.
  rewrite append_cons. cbn [String.length]. cbn [replace_fuel].
  rewrite <- append_cons, HasPrefix_append. rewrite string_drop_append. by rewrite replace_fuel_absent.
Qed.

(** A replacement without dollar signs is inserted as it is. *)
Lemma expand_plain repl m : String_contains_byte "$" repl = false -> expand repl m = repl.
Proof.
  unfold expand. generalize (String.length repl) as n. intros n. revert repl.
  induction n as [|n IH]; intros [|c s]; try done. cbn [String_contains_byte].
  intros [Hc Hs]%orb_false_iff.
  assert (expand_fuel (S n) (String c s) m = String c (expand_fuel n s m)) as ->; [|by rewrite IH].
  destruct c as [[] [] [] [] [] [] [] []]; done.
Qed.
