(* ===== verification/GoSort.v ===== *)
(** * GoSort: package sort

    [sort.Stable] sorts in ascending order of [Less] and keeps the order of
    elements that are equal under it.  The model is the insertion sort that
    the package runs on short slices; [stableSort_unique] shows that any list
    that is sorted and stable is its result, so the package's merging of
    longer slices gives the same. *)

From stdpp Require Import base list sorting.
From S2P Require Import Prelude.

Section StableSort.
Context {A : Type} (less : A -> A -> bool).

(** The inner loop of [insertionSort] on the part already sorted, last
    element first: [x] moves past the elements greater than it. *)
Fixpoint insertBack (x : A) (racc : list A) : list A :=
  match racc with
  | [] => [x]
  | y :: r => if less x y then y :: insertBack x r else x :: racc
  end.

Definition stableSort (l : list A) : list A := reverse (foldl (fun racc x => insertBack x racc) [] l).

(** Neither comes before the other. *)
Definition tie (x y : A) : bool := negb (less x y) && negb (less y x).

Definition ascending : list A -> Prop := StronglySorted (fun x y => less y x = false).

End StableSort.

(** [Less] is a strict weak order: what [sort] asks of it. *)
Class WeakOrder {A} (less : A -> A -> bool) : Prop := {
  less_asym x y : less x y = true -> less y x = false;
  less_negtrans x y z : less y x = false -> less z y = false -> less z x = false
}.

Section Laws.
Context {A : Type} (less : A -> A -> bool) `{!WeakOrder less}.

Lemma less_irrefl x : less x x = false.
Proof. destruct (less x x) eqn:E; [|done]. by rewrite (less_asym x x E) in E. Qed.

Lemma tie_refl x : tie less x x = true.
Proof. unfold tie. by rewrite less_irrefl. Qed.

Lemma tie_less a x y : tie less a x = true -> less x y = true -> tie less a y = false.
Proof.
  unfold tie. rewrite andb_true_iff, !negb_true_iff. intros [Hax Hxa] Hxy. apply andb_false_iff.
  destruct (less a y) eqn:Ea; [by left|]. destruct (less y a) eqn:Ey; [by right|].
  assert (less x y = false); [|congruence]. apply (less_negtrans y a x); done.
Qed.

Lemma insertBack_perm x r : insertBack less x r ≡ₚ x :: r.
Proof.
  induction r as [|y r IH]; simpl; [done|]. destruct (less x y); [|done]. rewrite IH. apply Permutation_swap.
Qed.

Lemma insertBack_sorted x r :
  StronglySorted (fun a b => less a b = false) r -> StronglySorted (fun a b => less a b = false) (insertBack less x r).
Proof.
  induction 1 as [|y r Hs IH Hf]; simpl; [by repeat constructor|]. destruct (less x y) eqn:E.
  - constructor; [done|]. rewrite insertBack_perm. constructor; [by apply less_asym|done].
  - constructor; [by constructor|]. constructor; [done|]. eapply Forall_impl; [exact Hf|].
    intros z Hz. simpl in Hz. by apply (less_negtrans z y x).
Qed.

Lemma insertBack_filter a x r :
  filter (fun y => tie less a y = true) (insertBack less x r) = filter (fun y => tie less a y = true) (x :: r).
Proof.
  induction r as [|y r IH]; simpl; [done|]. destruct (less x y) eqn:E; [|done].
  rewrite (filter_cons _ y), IH, (filter_cons _ x), (filter_cons _ x), (filter_cons _ y).
  case_decide as Hy; [|done]. case_decide as Hx; [|done]. by rewrite (tie_less _ _ _ Hx E) in Hy.
Qed.

Lemma sortBack_spec l :
  let r := foldl (fun racc x => insertBack less x racc) [] l in
  r ≡ₚ l /\ StronglySorted (fun a b => less a b = false) r /\
  forall a, filter (fun y => tie less a y = true) r = reverse (filter (fun y => tie less a y = true) l).
Proof.
  induction l as [|x l (Hp&Hs&Hf)] using rev_ind; [split; [done|]; split; [constructor|done]|]. rewrite foldl_app. simpl.
  split; [|split].
  - rewrite insertBack_perm, Hp. apply Permutation_cons_append.
  - by apply insertBack_sorted.
  - intros a. rewrite insertBack_filter, filter_app, reverse_app, !filter_cons, Hf. by case_decide.
Qed.

Lemma StronglySorted_reverse (R : A -> A -> Prop) l : StronglySorted R l -> StronglySorted (fun a b => R b a) (reverse l).
Proof.
  induction 1 as [|x l Hs IH Hf]; [constructor|]. rewrite reverse_cons.
  assert (Forall (fun a => R x a) (reverse l)) as Hr by (by rewrite reverse_Permutation).
  clear Hs Hf. induction IH as [|y r Hs IH Hf]; [by repeat constructor|]. apply Forall_cons in Hr as [Hy Hr].
  constructor; [by apply IH|]. apply Forall_app. split; [done|]. by constructor.
Qed.

Lemma stableSort_perm l : stableSort less l ≡ₚ l.
Proof. unfold stableSort. rewrite reverse_Permutation. apply (sortBack_spec l). Qed.

Lemma stableSort_ascending l : ascending less (stableSort less l).
Proof. unfold stableSort, ascending. apply (StronglySorted_reverse (fun a b => less a b = false)), (sortBack_spec l). Qed.

Lemma stableSort_stable l a :
  filter (fun y => tie less a y = true) (stableSort less l) = filter (fun y => tie less a y = true) l.
Proof. unfold stableSort. rewrite filter_reverse. destruct (sortBack_spec l) as (_&_&->). apply reverse_involutive. Qed.

(** Two sorted lists with the same classes of equal elements are the same. *)
Lemma ascending_unique l1 l2 :
  ascending less l1 -> ascending less l2 ->
  (forall a, filter (fun y => tie less a y = true) l1 = filter (fun y => tie less a y = true) l2) -> l1 = l2.
Proof.
  assert (forall (x : A) (l l' : list A), (forall a, filter (fun y => tie less a y = true) l = filter (fun y => tie less a y = true) l') -> x ∈ l -> x ∈ l') as Hin.
  { intros x l l' Hf Hx. specialize (Hf x).
    assert (x ∈ filter (fun y => tie less x y = true) l) as Hx' by (apply list_elem_of_filter; split; [apply tie_refl|done]).
    rewrite Hf in Hx'. by apply list_elem_of_filter in Hx' as [_ ?]. }
  intros H1. revert l2. induction H1 as [|x t1 Hs1 IH Hf1]; intros l2 H2 Hf.
  - destruct l2 as [|y t2]; [done|]. exfalso. eapply not_elem_of_nil, (Hin y (y :: t2) []); [by intros|left].
  - destruct H2 as [|y t2 Hs2 Hf2].
    { exfalso. eapply not_elem_of_nil, (Hin x (x :: t1) []); [done|left]. }
    assert (less x y = false) as Hxy.
    { assert (x ∈ y :: t2) as Hx by (eapply Hin; [exact Hf|left]). apply elem_of_cons in Hx as [->|Hx]; [apply less_irrefl|].
      rewrite Forall_forall in Hf2. by apply Hf2. }
    assert (less y x = false) as Hyx.
    { assert (y ∈ x :: t1) as Hy by (eapply Hin; [symmetry; apply Hf|left]). apply elem_of_cons in Hy as [->|Hy]; [apply less_irrefl|].
      rewrite Forall_forall in Hf1. by apply Hf1. }
    assert (x = y) as <-.
    { specialize (Hf x). rewrite !filter_cons in Hf. rewrite decide_True in Hf by apply tie_refl.
      rewrite decide_True in Hf by (unfold tie; by rewrite Hxy, Hyx). by injection Hf. }
    f_equal. apply IH; [done|]. intros a. specialize (Hf a). rewrite !filter_cons in Hf. case_decide; [by injection Hf|done].
Qed.

(** Any sorted and stable rearrangement is the model's. *)
Lemma stableSort_unique l l' :
  ascending less l' -> (forall a, filter (fun y => tie less a y = true) l' = filter (fun y => tie less a y = true) l) ->
  l' = stableSort less l.
Proof.
  intros Hs Hf. apply ascending_unique; [done|apply stableSort_ascending|]. intros a. by rewrite stableSort_stable.
Qed.

(** Without ties the order of the input does not matter. *)
Lemma stableSort_perm_eq l l' :
  (forall x y, x ∈ l -> y ∈ l -> tie less x y = true -> x = y) -> NoDup l -> l ≡ₚ l' -> stableSort less l = stableSort less l'.
Proof.
  intros Ht Hn Hp. apply stableSort_unique; [apply stableSort_ascending|]. intros a. rewrite stableSort_stable.
  assert (forall x, x ∈ l -> x ∈ l') as Hin by (intros x; by rewrite Hp).
  destruct (filter (fun y => tie less a y = true) l) as [|x [|y r]] eqn:E.
  - symmetry. apply Permutation_nil_r. by rewrite <- E, Hp.
  - symmetry. apply Permutation_singleton_r. by rewrite <- E, Hp.
  - exfalso. assert (NoDup (x :: y :: r)) as Hnd by (rewrite <- E; by apply NoDup_filter).
    assert (x ∈ filter (fun y => tie less a y = true) l /\ y ∈ filter (fun y => tie less a y = true) l) as [Hx Hy] by (rewrite E; split; [left|right; left]).
    apply list_elem_of_filter in Hx as [Hax Hx], Hy as [Hay Hy]. apply NoDup_cons in Hnd as [Hxy _]. apply Hxy.
    rewrite (Ht x y Hx Hy); [left|]. revert Hax Hay. unfold tie. rewrite !andb_true_iff, !negb_true_iff.
    intros [H1 H2] [H3 H4]. split; by eapply less_negtrans.
Qed.

(** The first element of the sorted list with a property: no other element
    with it comes before it, and of those equal to it it was the first. *)
Lemma find_stableSort (P : A -> bool) l x : List.find P (stableSort less l) = Some x ->
  x ∈ l /\ P x = true /\ (forall y, y ∈ l -> P y = true -> less y x = false) /\
  List.find (fun y => P y && tie less x y) l = Some x.
Proof.
  intros Hfind. pose proof (stableSort_ascending l) as Hs. pose proof (stableSort_perm l) as Hp.
  assert (List.find P (filter (fun y => tie less x y = true) (stableSort less l)) = Some x) as Hft.
  { clear Hs Hp. induction (stableSort less l) as [|y r IH]; [done|]. simpl in Hfind. rewrite filter_cons. destruct (P y) eqn:Ey.
    - injection Hfind as ->. rewrite decide_True by apply tie_refl. simpl. by rewrite Ey.
    - case_decide; [simpl; rewrite Ey|]; by apply IH. }
  assert (x ∈ stableSort less l /\ P x = true /\ forall y, y ∈ stableSort less l -> P y = true -> less y x = false) as (Hx&Px&Hmin).
  { clear Hp Hft. induction Hs as [|y r Hs IH Hf]; [done|]. simpl in Hfind. destruct (P y) eqn:Ey.
    - injection Hfind as ->. split; [left|]. split; [done|]. intros z [->|Hz]%elem_of_cons _; [apply less_irrefl|].
      rewrite Forall_forall in Hf. by apply Hf.
    - destruct (IH Hfind) as (?&?&Hm). split; [by right|]. split; [done|]. intros z [->|Hz]%elem_of_cons; [congruence|by apply Hm]. }
  split; [by rewrite <- Hp|]. split; [done|]. split; [intros y Hy; apply Hmin; by rewrite Hp|].
  rewrite stableSort_stable in Hft. clear -Hft. induction l as [|y r IH]; [done|]. rewrite filter_cons in Hft. simpl.
  case_decide as Ht; simpl in Hft.
  - destruct (P y); [|by apply IH]. injection Hft as ->. by rewrite Ht.
  - apply not_true_is_false in Ht. rewrite Ht, andb_false_r. by apply IH.
Qed.

Lemma find_stableSort_None (P : A -> bool) l :
  List.find P (stableSort less l) = None <-> forall y, y ∈ l -> P y = false.
Proof.
  pose proof (stableSort_perm l) as Hp. split.
  - intros Hf y Hy. apply (List.find_none _ _ Hf), list_elem_of_In. by rewrite Hp.
  - intros Hf. destruct (List.find P (stableSort less l)) as [y|] eqn:E; [|done].
    apply List.find_some in E as [Hin%list_elem_of_In Py]. rewrite Hf in Py; [done|by rewrite <- Hp].
Qed.

End Laws.

(** An order by a key is weak when the order of the keys is. *)
Lemma weakOrder_key {A K} (key : A -> K) (less : K -> K -> bool) :
  WeakOrder less -> WeakOrder (fun x y => less (key x) (key y)).
Proof. intros [Ha Hn]. split; intros *; [apply Ha|apply Hn]. Qed.

(** The reverse order. *)
#[export] Instance weakOrder_reverse {A} (less : A -> A -> bool) : WeakOrder less -> WeakOrder (fun x y => less y x).
Proof. intros [Ha Hn]. split; intros *; [apply Ha|intros H1 H2; by apply (Hn z y x)]. Qed.
