(* ===== verification/GoDuration.v ===== *)
(** * GoDuration: durations of the configuration

    [time.ParseDuration] of the Go library, at the widths it computes with
    ([uint64] magnitudes, a [float64] product for the fraction), and the two
    parsers of the gateway controller built on it: the connect timeout of an
    upstream definition (transform/restapi.go) and the route timeouts of a
    resilience block (xds/translator.go). *)

From stdpp Require Import base strings list.
From Stdlib Require Import Ascii SpecFloat.
From S2P Require Import Prelude GoStrings.

#[local] Set Warnings "-register-all".

Open Scope string_scope.

(** ** Package time *)

Definition two63 : Z := (2 ^ 63)%Z.
Definition two64 : Z := (2 ^ 64)%Z.

Definition digit_value (c : ascii) : Z := (Z.of_nat (nat_of_ascii c) - 48)%Z.

(** [quote] of the package: every byte of a control or non-ASCII character
    is written in hexadecimal. *)
Definition time_quote_byte (c : ascii) : string :=
  let n := nat_of_ascii c in
  if Nat.ltb n 32 || Nat.leb 128 n then "\x" +:+ String (hex_digit (n / 16)) (String (hex_digit (n mod 16)) EmptyString)
  else if Nat.eqb n 34 || Nat.eqb n 92 then String "\" (String c EmptyString)
  else String c EmptyString.
Fixpoint time_quote_bytes (s : string) : string :=
  match s with EmptyString => "" | String c s' => time_quote_byte c +:+ time_quote_bytes s' end.
Definition time_quote (s : string) : string := dquote +:+ time_quote_bytes s +:+ dquote.

(** [leadingInt]; [None] is [errLeadingInt]. *)
Fixpoint leadingInt (x : Z) (s : string) : option (Z * string) :=
  match s with
  | EmptyString => Some (x, s)
  | String c s' =>
      if negb (is_digit c) then Some (x, s)
      else if (two63 / 10 <? x)%Z then None
      else let x' := (x * 10 + digit_value c)%Z in
           if (two63 <? x')%Z then None else leadingInt x' s'
  end.

(** [leadingFraction]: the digits read, the power of ten they are divided
    by, and the rest; digits that do not fit are dropped. *)
Fixpoint leadingFraction (x scale : Z) (overflow : bool) (s : string) : Z * Z * string :=
  match s with
  | EmptyString => (x, scale, s)
  | String c s' =>
      if negb (is_digit c) then (x, scale, s)
      else if overflow then leadingFraction x scale true s'
      else if ((two63 - 1) / 10 <? x)%Z then leadingFraction x scale true s'
      else let y := (x * 10 + digit_value c)%Z in
           if (two63 <? y)%Z then leadingFraction x scale true s' else leadingFraction y (scale * 10) false s'
  end.

(** [float64] arithmetic. *)
Definition float64 (z : Z) : spec_float := binary_normalize 53 1024 z 0 false.

(** [uint64(f)] of a non-negative float. *)
Definition uint64_of_float (f : spec_float) : Z :=
  match f with
  | S754_finite false m e => if (0 <=? e)%Z then Z.shiftl (Zpos m) e else Z.shiftr (Zpos m) (- e)
  | _ => 0%Z
  end.

(** [uint64(float64(f) * (float64(unit) / scale))]. *)
Definition fractionOf (f unit scale : Z) : Z :=
  uint64_of_float (SFmul 53 1024 (float64 f) (SFdiv 53 1024 (float64 unit) (float64 scale))).

(** [unitMap], in nanoseconds; the micro sign and the Greek letter mu are
    both accepted. *)
Definition unitMap (u : string) : option Z :=
  if String.eqb u "ns" then Some 1%Z
  else if String.eqb u "us" || String.eqb u (String "194" (String "181" "s")) || String.eqb u (String "206" (String "188" "s")) then Some 1000%Z
  else if String.eqb u "ms" then Some 1000000%Z
  else if String.eqb u "s" then Some 1000000000%Z
  else if String.eqb u "m" then Some 60000000000%Z
  else if String.eqb u "h" then Some 3600000000000%Z
  else None.

(** The bytes of a unit: up to the next digit or period. *)
Fixpoint spanUnit (s : string) : string * string :=
  match s with
  | String c s' => if Ascii.eqb c "." || is_digit c then ("", s) else let '(u, r) := spanUnit s' in (String c u, r)
  | EmptyString => ("", "")
  end.

(** One component, a number and its unit: its length and the rest. *)
Definition durationComponent (orig s : string) : string + (Z * string) :=
  let invalid := "time: invalid duration " +:+ time_quote orig in
  let starts := match s with String c _ => Ascii.eqb c "." || is_digit c | EmptyString => false end in
  if negb starts then inl invalid
  else match leadingInt 0 s with
       | None => inl invalid
       | Some (v, s1) =>
           let pre := negb (String.length s =? String.length s1)%nat in
           let '(f, scale, s2, post) :=
             match s1 with
             | String "." s1' => let '(f, scale, s2) := leadingFraction 0 1 false s1' in
                                 (f, scale, s2, negb (String.length s1' =? String.length s2)%nat)
             | _ => (0%Z, 1%Z, s1, false)
             end in
           if negb pre && negb post then inl invalid
           else let '(u, s3) := spanUnit s2 in
                if String.eqb u "" then inl ("time: missing unit in duration " +:+ time_quote orig)
                else match unitMap u with
                     | None => inl ("time: unknown unit " +:+ time_quote u +:+ " in duration " +:+ time_quote orig)
                     | Some unit =>
                         if (two63 / unit <? v)%Z then inl invalid
                         else let v := (v * unit)%Z in
                              if (0 <? f)%Z then
                                let v := ((v + fractionOf f unit scale) mod two64)%Z in
                                if (two63 <? v)%Z then inl invalid else inr (v, s3)
                              else inr (v, s3)
                     end
       end.

(** The loop over the components; each one shortens the string, whose length
    is enough fuel. *)
Fixpoint durationLoop (fuel : nat) (orig s : string) (d : Z) : string + Z :=
  match s with
  | EmptyString => inr d
  | _ =>
      match fuel with
      | O => inl ("time: invalid duration " +:+ time_quote orig)
      | S n =>
          sum_bind (durationComponent orig s) (fun '(v, s') =>
          let d := ((d + v) mod two64)%Z in
          if (two63 <? d)%Z then inl ("time: invalid duration " +:+ time_quote orig) else durationLoop n orig s' d)
      end
  end.

Definition ParseDuration (orig : string) : string + Z :=
  let '(neg, s) := match orig with
                   | String "-" s => (true, s)
                   | String "+" s => (false, s)
                   | _ => (false, orig)
                   end in
  if String.eqb s "0" then inr 0%Z
  else if String.eqb s "" then inl ("time: invalid duration " +:+ time_quote orig)
  else sum_bind (durationLoop (String.length s) orig s 0) (fun d =>
       if neg then inr (- d)%Z
       else if (two63 - 1 <? d)%Z then inl ("time: invalid duration " +:+ time_quote orig) else inr d).

(** [fmtFrac]: the fraction of [v] on [prec] digits, without the zeros at the
    end, before [acc]; and what is left of [v]. *)
Fixpoint fmtFrac (prec : nat) (v : Z) (print : bool) (acc : string) : string * Z :=
  match prec with
  | O => (if print then "." +:+ acc else acc, v)
  | S n => let digit := (v mod 10)%Z in
           let print := print || negb (digit =? 0)%Z in
           fmtFrac n (v / 10)%Z print (if print then Itoa digit +:+ acc else acc)
  end.

(** [Duration.String]. *)
Definition Duration_String (d : Z) : string :=
  let u := Z.abs d in
  let text :=
    if (u <? 1000000000)%Z then
      if (u =? 0)%Z then "0s"
      else let '(prec, unit) := if (u <? 1000)%Z then (0%nat, "ns")
                                else if (u <? 1000000)%Z then (3%nat, String "194" (String "181" "s")) else (6%nat, "ms") in
           let '(frac, u) := fmtFrac prec u false "" in Itoa u +:+ frac +:+ unit
    else
      let '(frac, u) := fmtFrac 9 u false "" in
      let seconds := Itoa (u mod 60) +:+ frac +:+ "s" in
      let u := (u / 60)%Z in
      if (0 <? u)%Z then
        let minutes := Itoa (u mod 60) +:+ "m" +:+ seconds in
        let u := (u / 60)%Z in
        if (0 <? u)%Z then Itoa u +:+ "h" +:+ minutes else minutes
      else seconds in
  if (d <? 0)%Z then "-" +:+ text else text.

Example Duration_String_samples :
  Duration_String (-5400000000000) = "-1h30m0s" /\ Duration_String 1500000 = "1.5ms" /\ Duration_String 2000000000 = "2s".
Proof. by vm_compute. Qed.

(** ** xds/translator.go *)

(** [ResilienceDurationRegex]: a number, perhaps with a fraction, and one
    unit. *)
Definition isResilienceUnit (s : string) : bool :=
  String.eqb s "ms" || String.eqb s "s" || String.eqb s "m" || String.eqb s "h".

Definition ResilienceDurationRegex (s : string) : bool :=
  let ds := span_digits s in
  let s1 := string_drop (String.length ds) s in
  negb (String.eqb ds "") &&
  match s1 with
  | String "." s2 =>
      let fs := span_digits s2 in
      negb (String.eqb fs "") && isResilienceUnit (string_drop (String.length fs) s2)
  | _ => isResilienceUnit s1
  end.

Definition parseDurationAllowZero (timeoutStr : option string) : string + option Z :=
  match timeoutStr with
  | None => inr None
  | Some timeoutStr =>
      if String.eqb (TrimSpace timeoutStr) "" then inr None
      else
        let s := TrimSpace timeoutStr in
        if negb (ResilienceDurationRegex s) then
          inl ("invalid timeout format " +:+ Quote s +:+ ": expected a single-unit duration like " +:+ Quote "30s" +:+ ", "
               +:+ Quote "500ms" +:+ ", or " +:+ Quote "0s" +:+ " to disable")
        else sum_bind (orErr "invalid timeout format" (ParseDuration s)) (fun d => inr (Some d))
  end.

Record Resilience : Type := mkResilience { rs_IdleTimeout : option string; rs_Timeout : option string }.

(** The route timeout and the idle timeout. *)
Definition ResolveResilience (r : option Resilience) : string + (option Z * option Z) :=
  match r with
  | None => inr (None, None)
  | Some r =>
      sum_bind (orErr "invalid resilience.timeout" (parseDurationAllowZero (rs_Timeout r))) (fun timeout =>
      sum_bind (orErr "invalid resilience.idleTimeout" (parseDurationAllowZero (rs_IdleTimeout r))) (fun idleTimeout =>
      inr (timeout, idleTimeout)))
  end.

(** The value of a string of digits. *)
Fixpoint digits_value (x : Z) (s : string) : Z :=
  match s with EmptyString => x | String c s' => digits_value (x * 10 + digit_value c) s' end.

(** ** Lemmas *)

Lemma digit_value_bounds c : is_digit c = true -> (0 <= digit_value c <= 9)%Z.
Proof. unfold is_digit, digit_value. rewrite andb_true_iff, !Nat.leb_le. lia. Qed.

Lemma digits_value_mono s : string_all is_digit s = true -> forall x, (0 <= x)%Z -> (x <= digits_value x s)%Z.
Proof.
  induction s as [|c s IH]; simpl; intros Hd x Hx; [lia|].
  apply andb_true_iff in Hd as [Hc Hd]. pose proof (digit_value_bounds c Hc).
  specialize (IH Hd (x * 10 + digit_value c)%Z). lia.
Qed.

Lemma leadingInt_digits ds rest x :
  string_all is_digit ds = true -> head_ok (fun c => negb (is_digit c)) rest = true -> (0 <= x <= two63)%Z ->
  leadingInt x (ds +:+ rest) = if (two63 <? digits_value x ds)%Z then None else Some (digits_value x ds, rest).
Proof.
  intros Hd Hr. revert x. induction ds as [|c ds IH]; intros x Hx; simpl in Hd.
  - rewrite append_empty. cbn [digits_value]. rewrite (proj2 (Z.ltb_ge _ _)) by lia.
    destruct rest as [|c r]; [done|]. simpl in Hr |- *. by rewrite Hr.
  - apply andb_true_iff in Hd as [Hc Hd]. pose proof (digit_value_bounds c Hc) as Hb.
    rewrite append_cons. cbn [leadingInt digits_value]. rewrite Hc. simpl negb. cbv iota.
    pose proof (digits_value_mono ds Hd (x * 10 + digit_value c)%Z) as Hm.
    assert (two63 / 10 = 922337203685477580)%Z as -> by done. assert (two63 = 9223372036854775808)%Z as E63 by done.
    destruct (Z.ltb_spec 922337203685477580 x).
    + rewrite (proj2 (Z.ltb_lt two63 _)) by lia. done.
    + destruct (Z.ltb_spec two63 (x * 10 + digit_value c)); [by rewrite (proj2 (Z.ltb_lt _ _)) by lia|].
      apply IH; [done|lia].
Qed.

Lemma durationLoop_range fuel : forall orig s d r,
  (0 <= d <= two63)%Z -> durationLoop fuel orig s d = inr r -> (0 <= r <= two63)%Z.
Proof.
  induction fuel as [|n IH]; intros orig [|c s] d r Hd; cbn [durationLoop]; [by intros [= <-]|done|by intros [= <-]|].
  intros ([v s'] & _ & H)%sum_bind_inr. destruct (Z.ltb_spec two63 ((d + v) mod two64)); [done|].
  eapply IH; [|done]. split; [|done]. by apply Z.mod_pos_bound.
Qed.

Lemma ParseDuration_int64 s d : ParseDuration s = inr d -> in_int64 d = true.
Proof.
  rewrite in_int64_iff. unfold ParseDuration, int64_min, int64_max.
  destruct (match s with String "-" s' => _ | _ => _ end) as [neg s'].
  destruct (String.eqb s' "0"); [intros [= <-]; lia|]. destruct (String.eqb s' ""); [done|].
  intros (r & Hr & H)%sum_bind_inr. apply durationLoop_range in Hr; [|done]. unfold two63 in *.
  destruct neg; [injection H as <-; lia|].
  destruct (Z.ltb_spec (2 ^ 63 - 1) r); simplify_eq. lia.
Qed.

(** A string accepted by the pattern does not begin with a sign. *)
Lemma resilience_head s : ResilienceDurationRegex s = true -> head_ok is_digit s = true.
Proof. destruct s as [|c s]; [done|]. unfold ResilienceDurationRegex. cbn [span_digits head_ok]. by destruct (is_digit c). Qed.

Lemma digit_not_sign c : is_digit c = true -> c <> "-"%char /\ c <> "+"%char.
Proof. intros H. split; intros ->; done. Qed.

(** A duration that begins with a digit is not negative. *)
Lemma ParseDuration_nonneg s d : head_ok is_digit s = true -> ParseDuration s = inr d -> (0 <= d)%Z.
Proof.
  destruct s as [|c s]; [done|]. intros [H1 H2]%digit_not_sign. unfold ParseDuration.
  assert (forall A (a b z : A), match c with "-"%char => a | "+"%char => b | _ => z end = z) as E.
  { intros A a b z. destruct c as [[] [] [] [] [] [] [] []]; done. }
  rewrite E. destruct (String.eqb _ "0"); [by intros [= <-]|]. destruct (String.eqb _ ""); [done|].
  intros (r & Hr & H)%sum_bind_inr. apply durationLoop_range in Hr; [|done].
  destruct (Z.ltb_spec (two63 - 1) r); simplify_eq. lia.
Qed.

Lemma spanUnit_unit u unit : unitMap u = Some unit -> isResilienceUnit u = true ->
  spanUnit u = (u, "") /\ head_ok (fun c => negb (is_digit c)) u = true /\ u <> "" /\
  (match u with String "." _ => False | _ => True end) /\ (0 < unit)%Z.
Proof.
  intros Hu. unfold isResilienceUnit. rewrite !orb_true_iff, !String.eqb_eq.
  intros [[[-> | ->] | ->] | ->]; vm_compute in Hu; injection Hu as <-; by repeat split.
Qed.

Lemma durationComponent_whole orig ds u unit :
  ds <> "" -> string_all is_digit ds = true -> unitMap u = Some unit -> isResilienceUnit u = true ->
  durationComponent orig (ds +:+ u) =
    if (two63 <? digits_value 0 ds * unit)%Z then inl ("time: invalid duration " +:+ time_quote orig)
    else inr ((digits_value 0 ds * unit)%Z, "").
Proof.
  intros Hne Hd Hu Hr. destruct (spanUnit_unit u unit Hu Hr) as (Hsp & Hh & Hu0 & Hdot & Hpos).
  unfold durationComponent. rewrite leadingInt_digits by (done || lia).
  pose proof (digits_value_mono ds Hd 0) as Hv. set (v := digits_value 0 ds) in *.
  destruct ds as [|c ds]; [done|]. assert (is_digit c = true) as Hc by (simpl in Hd; by destruct (is_digit c)).
  rewrite append_cons, Hc, orb_true_r. cbn [negb].
  destruct (Z.ltb_spec two63 v); [by rewrite (proj2 (Z.ltb_lt _ _)) by nia|].
  assert (String.length (String c (ds +:+ u)) =? String.length u = false)%nat as ->.
  { apply Nat.eqb_neq. simpl. rewrite length_append. lia. }
  assert (forall A (k : Z -> Z -> string -> bool -> A),
    (let '(f, scale, s2, post) :=
       match u with
       | String "." s1' => let '(f, scale, s2) := leadingFraction 0 1 false s1' in
                           (f, scale, s2, negb (String.length s1' =? String.length s2)%nat)
       | _ => (0%Z, 1%Z, u, false)
       end in k f scale s2 post) = k 0%Z 1%Z u false) as ->.
  { intros. unfold isResilienceUnit in Hr. rewrite !orb_true_iff, !String.eqb_eq in Hr. by destruct Hr as [[[-> | ->] | ->] | ->]. }
  cbn [negb andb]. rewrite Hsp, Hu, (proj2 (String.eqb_neq u "") Hu0). simpl (0 <? 0)%Z. cbv iota.
  assert (two63 / unit <? v = (two63 <? v * unit))%Z as ->; [|done].
  apply Bool.eq_true_iff_eq. rewrite !Z.ltb_lt. rewrite (Z.mul_comm v). split; intros.
  - pose proof (Z.mul_succ_div_gt two63 unit Hpos). nia.
  - pose proof (Z.mul_div_le two63 unit Hpos). nia.
Qed.

Lemma durationLoop_step n orig s d : String.length s = S n ->
  durationLoop (String.length s) orig s d =
  sum_bind (durationComponent orig s) (fun '(v, s') =>
    let d := ((d + v) mod two64)%Z in
    if (two63 <? d)%Z then inl ("time: invalid duration " +:+ time_quote orig) else durationLoop n orig s' d).
Proof. destruct s as [|c s]; [done|]. intros [= <-]. done. Qed.

(** ** Theorems *)

(** A timeout of a whole number of units (milliseconds, seconds, minutes
    or hours) is that number of nanoseconds, up to the largest [int64]; from
    there on it is an error, never a wrapped value. *)
Theorem whole_durations_are_exact ds u unit :
  ds <> "" -> string_all is_digit ds = true -> unitMap u = Some unit -> isResilienceUnit u = true ->
  ParseDuration (ds +:+ u) =
    if (digits_value 0 ds * unit <=? int64_max)%Z then inr (digits_value 0 ds * unit)%Z
    else inl ("time: invalid duration " +:+ time_quote (ds +:+ u)).
Proof.
  intros Hne Hd Hu Hr. pose proof (digits_value_mono ds Hd 0) as Hv.
  destruct (spanUnit_unit u unit Hu Hr) as (_ & Hh & Hu0 & _ & Hpos).
  destruct ds as [|c ds]; [done|]. assert (is_digit c = true) as Hc by (simpl in Hd; by destruct (is_digit c)).
  destruct (digit_not_sign c Hc) as [H1 H2]. unfold ParseDuration.
  set (w := (String c ds +:+ u)). assert (w = String c (ds +:+ u)) as Ew by done.
  assert (match w with String "-" s => (true, s) | String "+" s => (false, s) | _ => (false, w) end = (false, w)) as ->.
  { rewrite Ew. destruct c as [[] [] [] [] [] [] [] []]; done. }
  assert (String.eqb w "0" = false) as ->.
  { rewrite Ew. apply String.eqb_neq. intros [= _ E]. by destruct ds, u. }
  assert (String.eqb w "" = false) as -> by (by rewrite Ew).
  rewrite (durationLoop_step (String.length (ds +:+ u))) by (by rewrite Ew).
  unfold w at 2. rewrite (durationComponent_whole w (String c ds) u unit) by done.
  set (v := digits_value 0 (String c ds)) in *. assert (0 <= v)%Z as Hv' by lia.
  destruct (Z.ltb_spec two63 (v * unit)); simpl sum_bind.
  - rewrite (proj2 (Z.leb_gt _ _)) by (unfold int64_max, two63 in *; lia). done.
  - assert ((0 + v * unit) mod two64 = v * unit)%Z as ->.
    { rewrite Z.add_0_l. apply Z.mod_small. unfold two63, two64 in *. nia. }
    rewrite (proj2 (Z.ltb_ge _ _)) by lia.
    destruct (String.length (ds +:+ u)); cbn [durationLoop sum_bind];
      (destruct (Z.ltb_spec (two63 - 1) (v * unit)); destruct (Z.leb_spec (v * unit) int64_max);
       unfold int64_max, two63 in *; lia || done).
Qed.

Lemma whole_durations_are_exact_witness :
  ParseDuration "30s" = inr 30000000000%Z /\ ParseDuration "9999999999h" = inl ("time: invalid duration " +:+ time_quote "9999999999h").
Proof.
  split.
  - change "30s" with ("30" +:+ "s"). rewrite (whole_durations_are_exact "30" "s" 1000000000); [|done..]. by vm_compute.
  - change "9999999999h" with ("9999999999" +:+ "h"). rewrite (whole_durations_are_exact "9999999999" "h" 3600000000000); [|done..].
    by vm_compute.
Defined.

(** The timeouts that a resilience block resolves to are durations of
    zero or more nanoseconds within [int64]: a negative or an overflowing
    timeout never reaches a route. *)
Theorem resilience_timeouts_are_nonnegative r timeout idle :
  ResolveResilience r = inr (timeout, idle) ->
  (forall d, timeout = Some d \/ idle = Some d -> (0 <= d <= int64_max)%Z).
Proof.
  assert (forall o d, parseDurationAllowZero o = inr (Some d) -> (0 <= d <= int64_max)%Z) as Hp.
  { intros [o|] d; simpl; [|done]. destruct (String.eqb _ ""); [done|].
    destruct (ResilienceDurationRegex _) eqn:E; simpl; [|done].
    intros (d' & Hd%orErr_inr & [= ->])%sum_bind_inr. split.
    - by eapply ParseDuration_nonneg; [apply resilience_head|].
    - by apply ParseDuration_int64, in_int64_iff in Hd as []. }
  destruct r as [r|]; simpl; [|intros [= <- <-] d [|]; done].
  intros (t & Ht%orErr_inr & (i & Hi%orErr_inr & [= -> ->])%sum_bind_inr)%sum_bind_inr d [-> | ->]; eauto.
Qed.

Lemma resilience_timeouts_are_nonnegative_witness :
  ResolveResilience (Some (mkResilience (Some " 0s ") (Some "1.5m"))) = inr (Some 90000000000%Z, Some 0%Z) /\
  (0 <= 90000000000 <= int64_max)%Z.
Proof.
  split; [by vm_compute|].
  apply (resilience_timeouts_are_nonnegative (Some (mkResilience (Some " 0s ") (Some "1.5m"))) (Some 90000000000%Z) (Some 0%Z));
    [by vm_compute|by left].
Defined.
