(* ===== verification/Re2.v ===== *)
(** * Re2: the regular expressions the controller writes

    The route translator builds anchored expressions from quoted text and five
    constructs.  Envoy matches and rewrites paths with them; that engine is a
    parameter, of which only its meaning on these expressions is assumed.
    [QuoteMeta] is package regexp's. *)

From stdpp Require Import base list strings.
From Stdlib Require Import Ascii.
From S2P Require Import Prelude GoStrings.

Open Scope string_scope.

Definition backslash : ascii := "092"%char.
Definition newline : ascii := "010"%char.

(** The bytes [QuoteMeta] escapes. *)
Definition special (c : ascii) : bool := String_contains_byte c (String backslash ".+*?()|[]{}^$").

Fixpoint QuoteMeta (s : string) : string :=
  match s with
  | EmptyString => EmptyString
  | String c s' => if special c then String backslash (String c (QuoteMeta s')) else String c (QuoteMeta s')
  end.

(** ** Syntax *)

Inductive Tok : Type :=
| Lit (c : ascii)
| Segment (* [^/]+ *)
| OptSlash (* /? *)
| OptRest (* (?:/.* )? *)
| AnyRest. (* (.* ) *)

Definition lits (s : string) : list Tok := Lit <$> String.list_ascii_of_string s.

Fixpoint parse_fuel (fuel : nat) (s : string) : option (list Tok) :=
  match fuel with
  | O => None
  | S n =>
      if String.eqb s "$" then Some []
      else if HasPrefix s "[^/]+" then cons Segment <$> parse_fuel n (string_drop 5 s)
      else if HasPrefix s "(?:/.*)?" then cons OptRest <$> parse_fuel n (string_drop 8 s)
      else if HasPrefix s "(.*)" then cons AnyRest <$> parse_fuel n (string_drop 4 s)
      else if HasPrefix s "/?" then cons OptSlash <$> parse_fuel n (string_drop 2 s)
      else match s with
           | EmptyString => None
           | String c s' =>
               if Ascii.eqb c backslash then
                 match s' with
                 | String d s'' => if special d then cons (Lit d) <$> parse_fuel n s'' else None
                 | EmptyString => None
                 end
               else if special c then None else cons (Lit c) <$> parse_fuel n s'
           end
  end.

Definition parseBody (s : string) : option (list Tok) := parse_fuel (S (String.length s)) s.

(** An anchored expression; [None] when it uses anything else. *)
Definition parseRe (r : string) : option (list Tok) :=
  match r with
  | String c s => if Ascii.eqb c "^"%char then parseBody s else None
  | EmptyString => None
  end.

(** ** Meaning *)

(** [.* ] before [k]. *)
Fixpoint dotStar (k : string -> bool) (s : string) : bool :=
  k s || match s with String d s' => negb (Ascii.eqb d newline) && dotStar k s' | EmptyString => false end.

(** [[^/]+] before [k]. *)
Fixpoint nonSlashes (k : string -> bool) (s : string) : bool :=
  match s with
  | String d s' => negb (Ascii.eqb d "/"%char) && (k s' || nonSlashes k s')
  | EmptyString => false
  end.

Definition afterSlash (k : string -> bool) (s : string) : bool :=
  match s with String d s' => Ascii.eqb d "/"%char && k s' | EmptyString => false end.

Fixpoint matchToks (toks : list Tok) : string -> bool :=
  match toks with
  | [] => fun s => String.eqb s ""
  | Lit c :: t => fun s => match s with String d s' => Ascii.eqb c d && matchToks t s' | EmptyString => false end
  | Segment :: t => nonSlashes (matchToks t)
  | OptSlash :: t => fun s => matchToks t s || afterSlash (matchToks t) s
  | OptRest :: t => fun s => matchToks t s || afterSlash (dotStar (matchToks t)) s
  | AnyRest :: t => dotStar (matchToks t)
  end.

(** The text of the group, the quantifiers being greedy; [None] when there is
    no match.  [OptRest] and [Segment] do not occur in a rewrite. *)
Fixpoint greedy (k : string -> option string) (s : string) : option string :=
  match s with
  | EmptyString => (fun _ => EmptyString) <$> k EmptyString
  | String d s' =>
      match (if Ascii.eqb d newline then None else greedy k s') with
      | Some g => Some (String d g)
      | None => (fun _ => EmptyString) <$> k s
      end
  end.

Fixpoint captureToks (toks : list Tok) (s : string) : option string :=
  match toks with
  | [] => if String.eqb s "" then Some "" else None
  | Lit c :: t => match s with String d s' => if Ascii.eqb c d then captureToks t s' else None | EmptyString => None end
  | OptSlash :: t =>
      match s with
      | String d s' => if Ascii.eqb d "/"%char then
                         match captureToks t s' with Some g => Some g | None => captureToks t s end
                       else captureToks t s
      | EmptyString => captureToks t s
      end
  | AnyRest :: t => greedy (captureToks t) s
  | _ => None
  end.

(** A substitution: [\1] is the group, [\\] a backslash. *)
Fixpoint expandSubst (sub group : string) : string :=
  match sub with
  | EmptyString => EmptyString
  | String c sub' =>
      if Ascii.eqb c backslash then
        match sub' with
        | String d sub'' => (if Ascii.eqb d "1"%char then group else String d EmptyString) +:+ expandSubst sub'' group
        | EmptyString => EmptyString
        end
      else String c (expandSubst sub' group)
  end.

(** Envoy's engine. *)
Class Re2Engine := {
  FullMatch : string -> string -> bool;
  Substitute : string -> string -> string -> string;
  FullMatch_fragment r toks s : parseRe r = Some toks -> FullMatch r s = matchToks toks s;
  Substitute_fragment r toks sub s g :
    parseRe r = Some toks -> captureToks toks s = Some g -> Substitute r sub s = expandSubst sub g
}.

(** The engine used by concrete evaluations. *)
Definition fragmentEngine : Re2Engine.
Proof.
  refine {| FullMatch r s := match parseRe r with Some toks => matchToks toks s | None => false end;
            Substitute r sub s := match parseRe r with
                                  | Some toks => match captureToks toks s with Some g => expandSubst sub g | None => s end
                                  | None => s
                                  end |}.
  - intros r toks s ->. reflexivity.
  - intros r toks sub s g -> ->. reflexivity.
Defined.

(** ** Parsing what was quoted *)

Lemma string_drop_length n s : String.length (string_drop n s) <= String.length s - n.
Proof. revert s. induction n as [|n IH]; intros [|c s]; simpl; try lia. specialize (IH s). lia. Qed.

Lemma parse_fuel_enough n m s : String.length s < n -> String.length s < m -> parse_fuel n s = parse_fuel m s.
Proof.
  revert m s. induction n as [|n IH]; intros [|m] s Hn Hm; try lia. cbn [parse_fuel].
  assert (forall k, 0 < k -> s <> "" -> parse_fuel n (string_drop k s) = parse_fuel m (string_drop k s)) as Hd.
  { intros k Hk Hs. destruct s as [|c s]; [done|]. pose proof (string_drop_length k (String c s)). simpl in *. apply IH; lia. }
  destruct (String.eqb s "$"); [done|].
  destruct s as [|c s]; [done|].
  rewrite !(Hd 5), !(Hd 8), !(Hd 4), !(Hd 2) by (done || lia). simpl in Hn, Hm. repeat (destruct (HasPrefix _ _); [done|]).
  destruct (Ascii.eqb c backslash).
  - destruct s as [|d s]; [done|]. destruct (special d); [|done]. f_equal. simpl in Hn, Hm. apply IH; lia.
  - destruct (special c); [done|]. f_equal. apply IH; lia.
Qed.

Lemma parse_fuel_body n s : String.length s < n -> parse_fuel n s = parseBody s.
Proof. intros Hn. apply parse_fuel_enough; [done|lia]. Qed.

Lemma not_special c : special c = false ->
  Ascii.eqb c "[" = false /\ Ascii.eqb c "(" = false /\ Ascii.eqb c "?" = false /\ Ascii.eqb c "$" = false /\ Ascii.eqb c backslash = false.
Proof. destruct c as [[] [] [] [] [] [] [] []]; vm_compute; intros [=]; auto. Qed.

(** What can follow quoted text. *)
Definition noQuestion (s : string) : bool := match s with String c _ => negb (Ascii.eqb c "?") | EmptyString => true end.

Lemma noQuestion_quote p rest : noQuestion rest = true -> noQuestion (QuoteMeta p +:+ rest) = true.
Proof.
  destruct p as [|c p]; [done|]. intros _. simpl. destruct (special c) eqn:E; [done|]. simpl.
  by destruct (not_special c E) as (_&_&->&_).
Qed.

Lemma parse_literal c rest : special c = false -> noQuestion rest = true -> parseBody (String c rest) = cons (Lit c) <$> parseBody rest.
Proof.
  intros Hc Hr. destruct (not_special c Hc) as (H1&H2&H3&H4&H5). unfold parseBody. cbn [parse_fuel].
  assert (String.eqb (String c rest) "$" = false) as ->.
  { simpl. by rewrite H4. }
  cbn [HasPrefix]. rewrite H1, H2. cbn [andb].
  assert (Ascii.eqb c "/" && HasPrefix rest "?" = false) as ->.
  { apply andb_false_iff. right. destruct rest as [|d rest]; [done|]. simpl. simpl in Hr. apply negb_true_iff in Hr. by rewrite Hr. }
  rewrite H5, Hc. done.
Qed.

Lemma parse_escaped c rest : special c = true -> parseBody (String backslash (String c rest)) = cons (Lit c) <$> parseBody rest.
Proof.
  intros Hc. unfold parseBody. cbn [parse_fuel].
  assert (String.eqb (String backslash (String c rest)) "$" = false) as -> by done.
  change (HasPrefix (String backslash (String c rest)) "[^/]+") with false. change (HasPrefix (String backslash (String c rest)) "(?:/.*)?") with false.
  change (HasPrefix (String backslash (String c rest)) "(.*)") with false. change (HasPrefix (String backslash (String c rest)) "/?") with false.
  cbn [andb]. rewrite Ascii.eqb_refl, Hc. f_equal. apply parse_fuel_body. simpl. lia.
Qed.

(** Quoted text is its bytes. *)
Lemma parse_quote p rest : noQuestion rest = true -> parseBody (QuoteMeta p +:+ rest) = app (lits p) <$> parseBody rest.
Proof.
  intros Hr. induction p as [|c p IH]; [change (QuoteMeta "" +:+ rest)%string with rest; by destruct (parseBody rest)|]. cbn [QuoteMeta].
  assert (forall o : option (list Tok), cons (Lit c) <$> (app (lits p) <$> o) = app (lits (String c p)) <$> o) as Ho by (by intros []).
  destruct (special c) eqn:Ec.
  - change ((String backslash (String c (QuoteMeta p)) +:+ rest)%string) with (String backslash (String c (QuoteMeta p +:+ rest))).
    by rewrite parse_escaped, IH, Ho.
  - change ((String c (QuoteMeta p) +:+ rest)%string) with (String c (QuoteMeta p +:+ rest)).
    rewrite parse_literal by (done || by apply noQuestion_quote). by rewrite IH, Ho.
Qed.

(** The constructs. *)
Lemma parse_segment rest : parseBody ("[^/]+" +:+ rest) = cons Segment <$> parseBody rest.
Proof.
  transitivity (cons Segment <$> parse_fuel (5 + String.length rest) rest); [|by rewrite parse_fuel_body by lia].
  unfold parseBody. set (n := 5 + String.length rest). change (S (String.length ("[^/]+" +:+ rest))) with (S n). clearbody n.
  cbn [parse_fuel]. change (String.eqb ("[^/]+" +:+ rest) "$") with false. rewrite HasPrefix_append.
  by rewrite (string_drop_append "[^/]+").
Qed.

Lemma lits_app p q : lits (p +:+ q) = (lits p ++ lits q)%list.
Proof. induction p as [|c p IH]; [done|]. rewrite append_cons. change (Lit c :: lits (p +:+ q) = Lit c :: (lits p ++ lits q)%list). by rewrite IH. Qed.

(** ** Matching *)

Lemma match_lits p t s : matchToks (lits p ++ t)%list s = true <-> exists s', s = (p +:+ s')%string /\ matchToks t s' = true.
Proof.
  revert s. induction p as [|c p IH]; intros s.
  - change (lits "" ++ t)%list with t. split; [by exists s|]. by intros (s'&->&?).
  - change (lits (String c p) ++ t)%list with (Lit c :: (lits p ++ t))%list. cbn [matchToks]. destruct s as [|d s].
    { split; [done|]. by intros (s'&?&_). }
    rewrite andb_true_iff, IH.
    destruct (Ascii.eqb_spec c d) as [->|Hne]; split.
    + intros (_&s'&->&?). by exists s'.
    + intros (s'&[= ->]&?). split; [done|]. by exists s'.
    + by intros [? _].
    + intros (s'&[= <- _]&_). done.
Qed.

Definition noNewline (s : string) : bool := negb (String_contains_byte newline s).

Lemma dotStar_end s : dotStar (fun s => String.eqb s "") s = noNewline s.
Proof.
  unfold noNewline. induction s as [|d s IH]; [done|]. cbn [dotStar String_contains_byte].
  change (String.eqb (String d s) "") with false. rewrite IH, negb_orb, (Ascii.eqb_sym newline). done.
Qed.

Lemma nonSlashes_spec k s : nonSlashes k s = true <->
  exists seg s', s = (seg +:+ s')%string /\ seg <> "" /\ String_contains_byte "/" seg = false /\ k s' = true.
Proof.
  induction s as [|d s IH]; cbn [nonSlashes].
  { split; [done|]. intros ([|]&?&?&?&_); done. }
  rewrite andb_true_iff, negb_true_iff, orb_true_iff, IH. split.
  - intros (Hd&[Hk|(seg&s'&->&_&Hs&Hk)]).
    + exists (String d ""), s. split_and!; try done. cbn [String_contains_byte]. by rewrite Ascii.eqb_sym, Hd.
    + exists (String d seg), s'. split_and!; try done. cbn [String_contains_byte]. by rewrite Ascii.eqb_sym, Hd.
  - intros ([|c [|c' seg]]&s'&E&?&Hs&Hk); [done| |].
    + injection E as -> ->. cbn [String_contains_byte] in Hs. rewrite orb_false_r, Ascii.eqb_sym in Hs. auto.
    + injection E as -> ->. cbn [String_contains_byte] in Hs. apply orb_false_iff in Hs as [Hc Hs].
      rewrite Ascii.eqb_sym in Hc. split; [done|]. right. exists (String c' seg), s'. by split_and!.
Qed.

Lemma capture_lits p t s : captureToks (lits p ++ t)%list (p +:+ s) = captureToks t s.
Proof.
  induction p as [|c p IH]; [done|]. change (lits (String c p) ++ t)%list with (Lit c :: (lits p ++ t))%list.
  rewrite append_cons. cbn [captureToks]. by rewrite Ascii.eqb_refl.
Qed.

Lemma greedy_end s : noNewline s = true -> greedy (captureToks []) s = Some s.
Proof.
  unfold noNewline. induction s as [|d s IH]; [done|]. cbn [greedy String_contains_byte]. rewrite negb_orb, andb_true_iff, negb_true_iff.
  rewrite Ascii.eqb_sym. intros [-> Hs]. by rewrite (IH Hs).
Qed.

Lemma expandSubst_plain p sub g : String_contains_byte backslash p = false -> expandSubst (p +:+ sub) g = (p +:+ expandSubst sub g)%string.
Proof.
  induction p as [|c p IH]; [done|]. rewrite !append_cons. cbn [String_contains_byte expandSubst]. intros [Hc Hp]%orb_false_iff.
  rewrite Ascii.eqb_sym, Hc. f_equal. by apply IH.
Qed.
