(* ===== verification/Version.v ===== *)
(** * Version: common/version/version.go

    Comparison of semantic versions and extraction of the major version,
    which keys the policy registry. *)

From stdpp Require Import base strings list.
From Stdlib Require Import Ascii.
From S2P Require Import Prelude GoStrings.

#[local] Set Warnings "-register-all".

Open Scope string_scope.

(** ** Definitions *)

Definition parseSemver (v : string) : option (Z * Z * Z) :=
  let raw := TrimPrefixByte "v" v in
  match Split "." raw with
  | [p0; p1; p2] =>
      match Atoi p0 with
      | None => None
      | Some major =>
          match Atoi p1 with
          | None => None
          | Some minor =>
              match Atoi p2 with
              | None => None
              | Some patch => Some (major, minor, patch)
              end
          end
      end
  | _ => None
  end.

(** The loop over the three pairs of components. *)
Fixpoint comparePairs (pairs : list (Z * Z)) : Z :=
  match pairs with
  | [] => 0%Z
  | (x, y) :: pairs' =>
      if negb (x =? y)%Z then (if (y <? x)%Z then 1%Z else (-1)%Z) else comparePairs pairs'
  end.

Definition CompareSemver (a b : string) : Z :=
  match parseSemver a, parseSemver b with
  | Some _, None => 1%Z
  | None, Some _ => (-1)%Z
  | None, None =>
      if String.ltb b a then 1%Z else if String.ltb a b then (-1)%Z else 0%Z
  | Some (aMajor, aMinor, aPatch), Some (bMajor, bMinor, bPatch) =>
      comparePairs [(aMajor, bMajor); (aMinor, bMinor); (aPatch, bPatch)]
  end.

Definition MajorVersion (v : string) : string :=
  let trimmed := TrimSpace v in
  if String.eqb trimmed "" then trimmed
  else
    let raw := TrimPrefixByte "v" trimmed in
    match Split "." raw with
    | [] => trimmed
    | p0 :: _ =>
        match Atoi p0 with
        | None => trimmed
        | Some major => "v" +:+ Itoa major
        end
    end.

(** ** Lemmas *)

Lemma comparePairs_opp l : comparePairs (map (fun p => (p.2, p.1)) l) = (- comparePairs l)%Z.
Proof.
  induction l as [|[x y] l IH]; simpl; [done|]. rewrite IH, (Z.eqb_sym y x).
  destruct (Z.eqb_spec x y); simpl; [done|].
  destruct (Z.ltb_spec x y), (Z.ltb_spec y x); lia.
Qed.

(** Lexicographic order on triples, as an arithmetic condition. *)
Lemma comparePairs_nonneg a1 a2 a3 b1 b2 b3 :
  (0 <= comparePairs [(a1, b1); (a2, b2); (a3, b3)])%Z <->
  (b1 < a1 \/ b1 = a1 /\ (b2 < a2 \/ b2 = a2 /\ b3 <= a3))%Z.
Proof.
  simpl. destruct (Z.eqb_spec a1 b1), (Z.eqb_spec a2 b2), (Z.eqb_spec a3 b3); simpl;
    repeat match goal with |- context [(?x <? ?y)%Z] => destruct (Z.ltb_spec x y) end; lia.
Qed.

(** A string is ordered with itself as neither smaller nor greater. *)
Lemma ltb_asym a b : String.ltb a b = true -> String.ltb b a = false.
Proof.
  unfold String.ltb. rewrite (String.compare_antisym b a). by destruct (String.compare a b).
Qed.

Lemma ltb_leb a b : String.ltb a b = negb (String.leb b a).
Proof. unfold String.ltb, String.leb. rewrite (String.compare_antisym b a). by destruct (String.compare a b). Qed.

Lemma leb_trans a b c : String.leb a b = true -> String.leb b c = true -> String.leb a c = true.
Proof.
  rewrite <- !Is_true_true. exact (transitivity (R := String.le) (x := a) (y := b) (z := c)).
Qed.

Lemma CompareSemver_invalid_nonneg a b :
  parseSemver a = None -> parseSemver b = None ->
  ((0 <= CompareSemver a b)%Z <-> String.leb b a = true).
Proof.
  intros Ha Hb. unfold CompareSemver. rewrite Ha, Hb.
  rewrite (ltb_leb a b). destruct (String.leb b a) eqn:E; simpl.
  - destruct (String.ltb b a); lia.
  - assert (String.ltb b a = false) as ->; [|lia]. apply ltb_asym. by rewrite ltb_leb, E.
Qed.

Lemma ltb_neither a b : String.ltb a b = false -> String.ltb b a = false -> a = b.
Proof.
  unfold String.ltb. rewrite (String.compare_antisym b a).
  destruct (String.compare a b) eqn:E; [|done..]. intros _ _. by apply String.compare_eq_iff.
Qed.

Lemma ltb_irrefl a : String.ltb a a = false.
Proof. destruct (String.ltb a a) eqn:E; [|done]. by rewrite (ltb_asym _ _ E) in E. Qed.

Lemma comparePairs_zero l : comparePairs l = 0%Z <-> Forall (fun p => p.1 = p.2) l.
Proof.
  induction l as [|[x y] l IH]; simpl; [done|]. rewrite Forall_cons, <- IH. simpl.
  destruct (Z.eqb_spec x y); simpl; [naive_solver|]. destruct (y <? x)%Z; naive_solver.
Qed.

Lemma CompareSemver_equal a b :
  CompareSemver a b = 0%Z <-> parseSemver a = parseSemver b /\ (parseSemver a = None -> a = b).
Proof.
  unfold CompareSemver. destruct (parseSemver a) as [[[a1 a2] a3]|], (parseSemver b) as [[[b1 b2] b3]|].
  - rewrite comparePairs_zero, !Forall_cons, Forall_nil. simpl. naive_solver.
  - naive_solver.
  - naive_solver.
  - split; [|intros [_ ->]; [|done]; by rewrite ltb_irrefl].
    destruct (String.ltb b a) eqn:E1; [done|]. destruct (String.ltb a b) eqn:E2; [done|].
    auto using ltb_neither.
Qed.

Lemma Split_nonempty c s : exists x l, Split c s = x :: l.
Proof. destruct s as [|d s]; simpl; [eauto|]. destruct (Ascii.eqb d c); [eauto|]. destruct (Split c s); eauto. Qed.

Lemma Split_no_sep c s : String_contains_byte c s = false -> Split c s = [s].
Proof.
  induction s as [|d s IH]; simpl; [done|]. intros [Hd Hs]%orb_false_iff.
  rewrite Ascii.eqb_sym, Hd, IH by done. done.
Qed.

Lemma int_byte_not_space c : is_int_byte c = true -> negb (is_space_byte c) = true.
Proof. destruct c as [[] [] [] [] [] [] [] []]; done. Qed.

Lemma MajorVersion_printed n : in_int64 n = true -> MajorVersion ("v" +:+ Itoa n) = "v" +:+ Itoa n.
Proof.
  intros Hn. unfold MajorVersion.
  rewrite TrimSpace_all.
  2: { change (string_all (fun c => negb (is_space_byte c)) (Itoa n) = true).
       eapply string_all_mono; [apply int_byte_not_space|apply Itoa_int_bytes]. }
  change (String.eqb ("v" +:+ Itoa n) "") with false.
  change (TrimPrefixByte "v" ("v" +:+ Itoa n)) with (Itoa n). cbv zeta iota.
  rewrite Split_no_sep, Atoi_Itoa by (done || by eapply string_all_not_byte; [|apply Itoa_int_bytes]).
  done.
Qed.

(** ** Theorems *)

(** [CompareSemver] is a total preorder given by its sign: swapping the
    arguments negates the result, it is transitive, and two strings compare
    equal exactly when they are versions with the same three numbers or the
    same non-version string. *)
Theorem CompareSemver_total_preorder a b c :
  CompareSemver b a = (- CompareSemver a b)%Z /\
  ((0 <= CompareSemver a b)%Z -> (0 <= CompareSemver b c)%Z -> (0 <= CompareSemver a c)%Z) /\
  (CompareSemver a b = 0%Z <-> parseSemver a = parseSemver b /\ (parseSemver a = None -> a = b)).
Proof.
  split_and!; [| |apply CompareSemver_equal].
  - unfold CompareSemver.
    destruct (parseSemver a) as [[[a1 a2] a3]|], (parseSemver b) as [[[b1 b2] b3]|]; try done.
    + exact (comparePairs_opp [(a1, b1); (a2, b2); (a3, b3)]).
    + destruct (String.ltb b a) eqn:E; [by rewrite (ltb_asym _ _ E)|]. by destruct (String.ltb a b).
  - destruct (parseSemver a) as [[[a1 a2] a3]|] eqn:Ea, (parseSemver b) as [[[b1 b2] b3]|] eqn:Eb,
      (parseSemver c) as [[[c1 c2] c3]|] eqn:Ec;
      try (rewrite !CompareSemver_invalid_nonneg by done; eauto using leb_trans);
      unfold CompareSemver; rewrite ?Ea, ?Eb, ?Ec; try lia.
    rewrite !comparePairs_nonneg. lia.
Qed.

(** The major version is a canonical form: extracting it twice is the same
    as extracting it once, so a registry key built from a major version is
    found again by looking that version up. *)
Theorem MajorVersion_idempotent v : MajorVersion (MajorVersion v) = MajorVersion v.
Proof.
  unfold MajorVersion at 2 3. destruct (String.eqb (TrimSpace v) "") eqn:E0.
  { apply String.eqb_eq in E0. by rewrite E0. }
  destruct (Split_nonempty "." (TrimPrefixByte "v" (TrimSpace v))) as (x&l&Hs). rewrite Hs.
  destruct (Atoi x) as [n|] eqn:Ea.
  - apply MajorVersion_printed. eapply Atoi_range, Ea.
  - unfold MajorVersion. rewrite TrimSpace_idem, E0, Hs, Ea. done.
Qed.
