(* ===== verification/Values.v ===== *)
(** * Values: dynamically typed Go data

    The [interface{}] values that policies exchange with the engine (policy
    parameters, shared metadata, analytics and dynamic metadata), and what an
    [encoding/json] marshal/unmarshal round trip does to them, which is how
    the executor copies policy parameters. *)

From stdpp Require Import base gmap strings list fin_maps.
From S2P Require Import Prelude.

#[local] Set Warnings "-register-all".

Abbreviation bytes := (list Byte.byte).

(** A Go [interface{}].  A finite [float64] is [m * 2^e]; NaN and the
    infinities, functions, channels and the like are [VOpaque]: no JSON text
    represents them.  [VHeaders] is the typed map [map[string][]string],
    which is not a [map[string]interface{}]. *)
Inductive Value : Type :=
| VNil
| VBool (b : bool)
| VInt (z : Z)
| VFloat (m e : Z)
| VString (s : string)
| VList (l : list Value)
| VMap (m : list (string * Value))
| VHeaders (h : gmap string (list string))
| VOpaque (tag : nat).

Section ValueInd.
Variable P : Value -> Prop.
Hypothesis HNil : P VNil.
Hypothesis HBool : forall b, P (VBool b).
Hypothesis HInt : forall z, P (VInt z).
Hypothesis HFloat : forall m e, P (VFloat m e).
Hypothesis HString : forall s, P (VString s).
Hypothesis HList : forall l, Forall P l -> P (VList l).
Hypothesis HMap : forall m, Forall (fun kv => P kv.2) m -> P (VMap m).
Hypothesis HHeaders : forall h, P (VHeaders h).
Hypothesis HOpaque : forall t, P (VOpaque t).

(** Induction through the nested lists. *)
Fixpoint Value_ind' (v : Value) : P v :=
  match v with
  | VNil => HNil
  | VBool b => HBool b
  | VInt z => HInt z
  | VFloat m e => HFloat m e
  | VString s => HString s
  | VList l => HList l ((fix go (l : list Value) : Forall P l := match l with
                         | [] => Forall_nil_2 P
                         | x :: l' => Forall_cons_2 P x l' (Value_ind' x) (go l')
                         end) l)
  | VMap m => HMap m ((fix go (l : list (string * Value)) : Forall (fun kv => P kv.2) l := match l with
                       | [] => Forall_nil_2 (fun kv : string * Value => P kv.2)
                       | x :: l' => Forall_cons_2 (fun kv : string * Value => P kv.2) x l' (Value_ind' x.2) (go l')
                       end) m)
  | VHeaders h => HHeaders h
  | VOpaque t => HOpaque t
  end.
End ValueInd.

(** Conversion of a Go integer to the [float64] that [json.Unmarshal]
    produces for a number: round to nearest, ties to even, on 53 bits. *)
Definition int_to_float (z : Z) : Z * Z :=
  let a := Z.abs z in
  let n := (Z.log2 a - 52)%Z in
  if (n <=? 0)%Z then (z, 0%Z) else
  let q := Z.shiftr a n in
  let r := (a - Z.shiftl q n)%Z in
  let half := Z.shiftl 1 (n - 1) in
  let up := (half <? r)%Z || ((half =? r)%Z && Z.odd q) in
  ((Z.sgn z * (if up then q + 1 else q))%Z, n).

(** [json.Unmarshal(json.Marshal(v))] into an [interface{}]; [None] is a
    marshalling error. *)
Fixpoint json_copy (v : Value) : option Value :=
  match v with
  | VNil => Some VNil
  | VBool b => Some (VBool b)
  | VInt z => let '(m, e) := int_to_float z in Some (VFloat m e)
  | VFloat m e => Some (VFloat m e)
  | VString s => Some (VString s)
  | VList l => VList <$> mapM json_copy l
  | VMap m => VMap <$> mapM (fun kv => pair kv.1 <$> json_copy kv.2) m
  | VHeaders h => Some (VMap (map (fun kv => (kv.1, VList (map VString kv.2))) (map_to_list h)))
  | VOpaque _ => None
  end.

(** Values on which the round trip is the identity: what JSON itself can
    denote. *)
Fixpoint is_json (v : Value) : bool :=
  match v with
  | VNil | VBool _ | VFloat _ _ | VString _ => true
  | VInt _ | VHeaders _ | VOpaque _ => false
  | VList l => forallb is_json l
  | VMap m => forallb (fun kv => is_json kv.2) m
  end.

Abbreviation Params := (gmap string Value).

(** [deepCopyParams] of executor/chain.go. *)
Definition deepCopyParams (src : Params) : string + Params :=
  if decide (size src = 0) then inr ∅ else
  match mapM (fun kv => pair kv.1 <$> json_copy kv.2) (map_to_list src) with
  | Some l => inr (list_to_map l)
  | None => inl "json: unsupported type"%string
  end.

(** ** Lemmas *)

Lemma mapM_pair_Some_1 {A B} (f : A -> option B) (l : list (string * A)) l' :
  mapM (fun kv => pair kv.1 <$> f kv.2) l = Some l' -> l'.*1 = l.*1.
Proof.
  intros H%mapM_Some_1. induction H as [|[k x] [k' y] l l' Hxy _ IH]; simpl in *; [done|].
  destruct (f x); simplify_eq/=. by f_equal.
Qed.

Lemma is_json_copy v : is_json v = true -> json_copy v = Some v.
Proof.
  induction v as [| | | | |l IH|m IH| |] using Value_ind'; simpl; try done.
  - intros Hl. assert (mapM json_copy l = Some l) as ->; [|done].
    induction IH as [|x l Hx _ IH]; simpl in *; [done|].
    apply andb_true_iff in Hl as [Hx' Hl]. by rewrite Hx, IH.
  - intros Hm. assert (mapM (fun kv => pair kv.1 <$> json_copy kv.2) m = Some m) as ->; [|done].
    induction IH as [|[k x] m Hx _ IH]; simpl in *; [done|].
    apply andb_true_iff in Hm as [Hx' Hm]. by rewrite Hx, IH.
Qed.

Lemma json_copy_is_json v v' : json_copy v = Some v' -> is_json v' = true.
Proof.
  revert v'. induction v as [| |z| | |l IH|m IH|h|] using Value_ind'; simpl; intros v' Hv; simplify_eq/=; try done.
  - destruct (int_to_float z). by simplify_eq.
  - destruct (mapM json_copy l) as [l'|] eqn:E; simplify_eq/=.
    apply mapM_Some_1 in E. revert IH. induction E as [|x y l l' Hxy _ IHE]; intros IH; [done|].
    inversion IH; simplify_eq. simpl. apply andb_true_iff. eauto.
  - destruct (mapM _ m) as [m'|] eqn:E; simplify_eq/=.
    apply mapM_Some_1 in E. revert IH. induction E as [|[k x] [k' y] m m' Hxy _ IHE]; intros IH; [done|].
    inversion IH; simplify_eq. simpl in *. destruct (json_copy x) eqn:Ex; simplify_eq/=.
    apply andb_true_iff. eauto.
  - induction (map_to_list h) as [|[k vs] l IHl]; simpl; [done|].
    rewrite IHl. by induction vs.
Qed.

(** The copied parameters contain JSON data only. *)
Definition json_params (p : Params) : Prop := map_Forall (fun _ v => is_json v = true) p.

Lemma deepCopyParams_json p : json_params p -> deepCopyParams p = inr p.
Proof.
  intros Hp. unfold deepCopyParams. case_decide as Hs.
  { apply map_size_empty_inv in Hs. by subst. }
  assert (mapM (fun kv => pair kv.1 <$> json_copy kv.2) (map_to_list p) = Some (map_to_list p)) as ->.
  { apply mapM_Some_2.
    apply Forall_Forall2_diag, Forall_forall. intros [k v] Hkv%elem_of_map_to_list.
    simpl. by rewrite (is_json_copy v) by by apply (Hp k). }
  by rewrite list_to_map_to_list.
Qed.

Lemma deepCopyParams_sound p p' :
  deepCopyParams p = inr p' ->
  json_params p' /\ forall k, p' !! k = (p !! k) ≫= json_copy.
Proof.
  unfold deepCopyParams. case_decide as Hs; intros H; simplify_eq.
  { apply map_size_empty_inv in Hs as ->. split; [apply map_Forall_empty|done]. }
  destruct (mapM _ _) as [l|] eqn:E; simplify_eq.
  assert (NoDup l.*1) as Hnd.
  { rewrite (mapM_pair_Some_1 _ _ _ E). apply NoDup_fst_map_to_list. }
  assert (forall k v', (k, v') ∈ l <-> exists v, p !! k = Some v /\ json_copy v = Some v') as Hl.
  { intros k v'. apply mapM_Some_1 in E. rewrite list_elem_of_lookup.
    setoid_rewrite <- elem_of_map_to_list. split.
    - intros [i Hi]. destruct (Forall2_lookup_r _ _ _ _ _ E Hi) as ([k0 v]&Hv&Hc).
      simpl in Hc. destruct (json_copy v) eqn:?; simplify_eq/=.
      exists v. split; [|done]. apply list_elem_of_lookup; eauto.
    - intros (v&(i&Hi)%list_elem_of_lookup&Hc).
      destruct (Forall2_lookup_l _ _ _ _ _ E Hi) as ([k0 w]&Hw&Hcw).
      simpl in Hcw. rewrite Hc in Hcw. simplify_eq/=. eauto. }
  split.
  - intros k v' Hk. apply elem_of_list_to_map in Hk; [|done].
    apply Hl in Hk as (v&_&Hc). by eapply json_copy_is_json.
  - intros k. apply option_eq. intros v'. rewrite <- elem_of_list_to_map by done.
    rewrite Hl, bind_Some. naive_solver.
Qed.

(** The parameters a policy is called with are a copy of the configured
    ones that went through JSON once: they are JSON data, have the same
    names, equal the configured parameters if those are JSON data already
    (as parameters from a file or from xDS are), and copying them again gives
    the same parameters. *)
Theorem parameter_clone_is_json_normal_form p p' :
  deepCopyParams p = inr p' ->
  json_params p' /\ (forall k, p' !! k = p !! k ≫= json_copy) /\
  (json_params p -> p' = p) /\ deepCopyParams p' = inr p'.
Proof.
  intros Hc. destruct (deepCopyParams_sound _ _ Hc) as [Hj Hlk]. split_and!; [done|done| |].
  - intros Hp. rewrite (deepCopyParams_json p Hp) in Hc. by injection Hc.
  - by apply deepCopyParams_json.
Qed.

Lemma parameter_clone_is_json_normal_form_witness :
  match deepCopyParams {["n" := VInt 3; "s" := VString "x"]} with
  | inr p' => p' !! "n"%string = Some (VFloat 3 0) /\ deepCopyParams p' = inr p'
  | inl _ => False
  end.
Proof.
  destruct (deepCopyParams {["n" := VInt 3; "s" := VString "x"]}) as [e|p'] eqn:E; [vm_compute in E; discriminate E|].
  apply parameter_clone_is_json_normal_form in E as (_&Hlk&_&Hidem). split; [|exact Hidem].
  rewrite Hlk. vm_compute. reflexivity.
Defined.
