(* ===== verification/JsonWire.v ===== *)
(** * JsonWire: JSON objects and how they are read

    What the controller sends the engine are JSON objects in protobuf
    structs.  Their members arrive in any order, so this file has the
    relation between an object and what arrives of it, the readers of tagged
    members that [json.Unmarshal] applies to a struct, and the lemmas that
    reading does not depend on the order. *)

From stdpp Require Import base gmap strings list fin_maps.
From S2P Require Import Prelude GoStrings Values.

#[local] Set Warnings "-register-all".

Open Scope string_scope.

(** ** JSON objects up to the order of their members *)

Inductive same : Value -> Value -> Prop :=
| same_leaf v : same v v
| same_list l l' : Forall2 same l l' -> same (VList l) (VList l')
| same_object m p m' : NoDup m.*1 -> Forall2 (fun kv kv' => kv.1 = kv'.1 /\ same kv.2 kv'.2) m p -> m' ≡ₚ p -> same (VMap m) (VMap m').

Lemma same_string s v : same (VString s) v -> v = VString s.
Proof. by inversion 1. Qed.

Lemma same_object_inv m v : same (VMap m) v -> exists m', v = VMap m'.
Proof. inversion 1; eauto. Qed.

Abbreviation object := (gmap string Value).

Lemma same_lookup m m' k :
  same (VMap m) (VMap m') ->
  match (list_to_map m : object) !! k with
  | Some v => exists v', (list_to_map m' : object) !! k = Some v' /\ same v v'
  | None => (list_to_map m' : object) !! k = None
  end.
Proof.
  inversion 1 as [?|?|? p ? Hnd Hf Hp]; subst.
  { destruct ((list_to_map m' : object) !! k) as [v|] eqn:E; [|done]. exists v. split; [done|constructor]. }
  assert (p.*1 = m.*1) as Hk. { clear -Hf. induction Hf as [|[k1 v1] [k2 v2] l l' [E _] _ IH]; simpl in *; [done|]. by f_equal. }
  assert (NoDup m'.*1) as Hnd' by (by rewrite Hp, Hk).
  rewrite <- (list_to_map_proper (M := gmap string) p m' ltac:(by rewrite Hk) (symmetry Hp)). clear -Hf.
  induction Hf as [|[k1 v1] [k2 v2] l l' [E Hs] _ IH]; simpl in *; [by rewrite lookup_empty|]. subst k2.
  destruct (decide (k1 = k)) as [->|]; [rewrite !lookup_insert_eq; eauto|by rewrite !lookup_insert_ne].
Qed.

Lemma same_member m m' k o : same (VMap m) (VMap m') -> (list_to_map m : object) !! k = Some (VMap o) ->
  exists o', (list_to_map m' : object) !! k = Some (VMap o') /\ same (VMap o) (VMap o').
Proof.
  intros Hs Hk. pose proof (same_lookup m m' k Hs) as Hl. rewrite Hk in Hl. destruct Hl as (v' & Hv & Hsv).
  destruct (same_object_inv _ _ Hsv) as [o' ->]. eauto.
Qed.

(** ** Reading tagged members

    [json.Unmarshal] into a struct, by the tags of its fields: a missing or
    null member leaves the zero value, a member of another type is an error
    ([None]).  Objects with members that are no tag are left out ([None] too),
    since the package then also tries the tags without regard to case. *)

Definition onlyTags (tags : list string) (m : list (string * Value)) : option object :=
  if decide (Forall (fun kv => kv.1 ∈ tags) m) then Some (list_to_map m) else None.

Definition jsonString (m : object) (k : string) : option string :=
  match m !! k with None | Some VNil => Some "" | Some (VString s) => Some s | _ => None end.
Definition jsonBool (m : object) (k : string) : option bool :=
  match m !! k with None | Some VNil => Some false | Some (VBool b) => Some b | _ => None end.
(** An [int64]: a number without fraction. *)
Definition jsonInt (m : object) (k : string) : option Z :=
  match m !! k with
  | None | Some VNil => Some 0%Z
  | Some (VFloat z e) => if (0 <=? e)%Z && in_int64 (Z.shiftl z e) then Some (Z.shiftl z e) else None
  | _ => None
  end.
Definition jsonStringPtr (m : object) (k : string) : option (option string) :=
  match m !! k with None | Some VNil => Some None | Some (VString s) => Some (Some s) | _ => None end.
Definition jsonParams (m : object) (k : string) : option Params :=
  match m !! k with None | Some VNil => Some ∅ | Some (VMap o) => Some (list_to_map o) | _ => None end.
Definition jsonList {A} (decode : Value -> option A) (m : object) (k : string) : option (list A) :=
  match m !! k with None | Some VNil => Some [] | Some (VList l) => mapM decode l | _ => None end.
Definition jsonElemString (v : Value) : option string := match v with VString s => Some s | VNil => Some "" | _ => None end.

(** [Time.MarshalJSON] and [UnmarshalJSON], on nanoseconds; the first fails
    for years outside of 0 to 9999. *)
Class TimeJSON := {
  time_format : Z -> option string;
  time_parse : string -> option Z
}.

(** A [time.Time], whose member must be there, and a pointer to one. *)
Definition jsonTime `{TimeJSON} (m : object) (k : string) : option Z := match m !! k with Some (VString s) => time_parse s | _ => None end.
Definition jsonTimePtr `{TimeJSON} (m : object) (k : string) : option (option Z) :=
  match m !! k with None | Some VNil => Some None | Some (VString s) => Some <$> time_parse s | _ => None end.

(** A member that is an object; missing, it is empty. *)
Definition jsonObject (m : object) (k : string) : option (list (string * Value)) :=
  match m !! k with None | Some VNil => Some [] | Some (VMap o) => Some o | _ => None end.

(** ** Decoding does not depend on the order of members *)

Lemma same_option m m' k : same (VMap m) (VMap m') ->
  option_Forall2 same ((list_to_map m : object) !! k) ((list_to_map m' : object) !! k).
Proof.
  intros Hs. pose proof (same_lookup m m' k Hs) as Hl. destruct ((list_to_map m : object) !! k) as [v|]; [|rewrite Hl; constructor].
  destruct Hl as (v' & -> & Hv). by constructor.
Qed.

Lemma same_keys m m' : same (VMap m) (VMap m') -> m'.*1 ≡ₚ m.*1.
Proof.
  inversion 1 as [?|?|? p ? _ Hf Hp]; subst; [done|]. rewrite Hp. clear -Hf. assert (p.*1 = m.*1) as ->; [|done].
  induction Hf as [|[k v] [k' v'] l l' [E _] _ IH]; simpl in *; [done|]. by f_equal.
Qed.

Lemma same_onlyTags tags m m' M : same (VMap m) (VMap m') -> onlyTags tags m = Some M ->
  M = list_to_map m /\ onlyTags tags m' = Some (list_to_map m').
Proof.
  intros Hs%same_keys. unfold onlyTags. case_decide as Hd; [|done]. intros [= <-]. split; [done|].
  rewrite decide_True; [done|]. apply Forall_fmap with (P := (.∈ tags)) in Hd. apply Forall_fmap with (P := (.∈ tags)). by rewrite Hs.
Qed.

(** What is read of a member that is a scalar. *)
Lemma same_jsonString m m' k s : same (VMap m) (VMap m') -> jsonString (list_to_map m) k = Some s -> jsonString (list_to_map m') k = Some s.
Proof. intros Hs. unfold jsonString. destruct (same_option m m' k Hs) as [v v' [ | | ]|]; done. Qed.
Lemma same_jsonBool m m' k b : same (VMap m) (VMap m') -> jsonBool (list_to_map m) k = Some b -> jsonBool (list_to_map m') k = Some b.
Proof. intros Hs. unfold jsonBool. destruct (same_option m m' k Hs) as [v v' [ | | ]|]; done. Qed.
Lemma same_jsonInt m m' k z : same (VMap m) (VMap m') -> jsonInt (list_to_map m) k = Some z -> jsonInt (list_to_map m') k = Some z.
Proof. intros Hs. unfold jsonInt. destruct (same_option m m' k Hs) as [v v' [ | | ]|]; done. Qed.
Lemma same_jsonStringPtr m m' k o :
  same (VMap m) (VMap m') -> jsonStringPtr (list_to_map m) k = Some o -> jsonStringPtr (list_to_map m') k = Some o.
Proof. intros Hs. unfold jsonStringPtr. destruct (same_option m m' k Hs) as [v v' [ | | ]|]; done. Qed.

Lemma same_jsonTime `{TimeJSON} m m' k t : same (VMap m) (VMap m') -> jsonTime (list_to_map m) k = Some t -> jsonTime (list_to_map m') k = Some t.
Proof. intros Hs. unfold jsonTime. destruct (same_option m m' k Hs) as [v v' [ | | ]|]; done. Qed.
Lemma same_jsonTimePtr `{TimeJSON} m m' k o :
  same (VMap m) (VMap m') -> jsonTimePtr (list_to_map m) k = Some o -> jsonTimePtr (list_to_map m') k = Some o.
Proof. intros Hs. unfold jsonTimePtr. destruct (same_option m m' k Hs) as [v v' [ | | ]|]; done. Qed.

Lemma same_refl_lookup (m : object) k : option_Forall2 same (m !! k) (m !! k).
Proof. destruct (m !! k); repeat constructor. Qed.

Lemma same_jsonParams m m' k p : same (VMap m) (VMap m') -> jsonParams (list_to_map m) k = Some p ->
  exists p', jsonParams (list_to_map m') k = Some p' /\ forall x, option_Forall2 same (p !! x) (p' !! x).
Proof.
  intros Hs. unfold jsonParams. destruct (same_option m m' k Hs) as [v v' Hv|]; [|intros [= <-]; eauto using same_refl_lookup].
  destruct v; try done.
  - inversion Hv; subst. intros [= <-]. eauto using same_refl_lookup.
  - destruct (same_object_inv _ _ Hv) as [o' ->]. intros [= <-]. eexists. split; [done|]. intros x. by apply same_option.
Qed.

Lemma same_jsonObject m m' k o : same (VMap m) (VMap m') -> jsonObject (list_to_map m) k = Some o ->
  exists o', jsonObject (list_to_map m') k = Some o' /\ same (VMap o) (VMap o').
Proof.
  intros Hs. unfold jsonObject. destruct (same_option m m' k Hs) as [v v' Hv|]; [|intros [= <-]; eauto using same_leaf].
  destruct v; try done.
  - inversion Hv; subst. intros [= <-]. eauto using same_leaf.
  - destruct (same_object_inv _ _ Hv) as [o' ->]. intros [= <-]. eauto.
Qed.

(** Decoders that give related results on values up to the order of
    members. *)
Definition respects {A} (R : relation A) (decode : Value -> option A) : Prop :=
  forall v v' a, same v v' -> decode v = Some a -> exists a', decode v' = Some a' /\ R a a'.

Lemma same_mapM {A} (R : relation A) decode l l' r : respects R decode -> Forall2 same l l' -> mapM decode l = Some r ->
  exists r', mapM decode l' = Some r' /\ Forall2 R r r'.
Proof.
  intros HR Hl. revert r. induction Hl as [|v v' l l' Hv _ IH]; intros r; simpl; [intros [= <-]; eauto|].
  intros (a & Ha & (r0 & Hr0 & [= <-])%bind_Some)%bind_Some. destruct (HR _ _ _ Hv Ha) as (a' & -> & Haa').
  destruct (IH _ Hr0) as (r' & -> & Hrr'). cbn. eauto.
Qed.

Lemma same_jsonList {A} (R : relation A) decode m m' k l : respects R decode -> same (VMap m) (VMap m') ->
  jsonList decode (list_to_map m) k = Some l -> exists l', jsonList decode (list_to_map m') k = Some l' /\ Forall2 R l l'.
Proof.
  intros HR Hs. unfold jsonList. destruct (same_option m m' k Hs) as [v v' Hv|]; [|intros [= <-]; eauto].
  destruct v as [| | | | |l0| | |]; try done.
  - inversion Hv; subst. intros [= <-]. eauto.
  - inversion Hv as [|? l1 Hl|]; subst; [|by apply same_mapM]. apply same_mapM; [done|]. apply Forall_Forall2_diag, Forall_true. constructor.
Qed.

Lemma jsonElemString_respects : respects eq jsonElemString.
Proof. intros v v' s Hv. destruct v; try done; inversion Hv; subst; eauto. Qed.

(** Reads one member after the other. *)
Ltac read_members :=
  repeat match goal with
  | H : _ ≫= _ = Some _ |- _ => apply bind_Some in H as (? & ? & H)
  | H : onlyTags _ ?m = Some _, Hs : same (VMap ?m) (VMap ?m') |- _ =>
      apply (same_onlyTags _ _ _ _ Hs) in H as [-> ->]; cbn [mbind option_bind]
  | H : jsonString _ _ = Some _, Hs : same (VMap _) (VMap _) |- _ => rewrite (same_jsonString _ _ _ _ Hs H); clear H; cbn [mbind option_bind]
  | H : jsonBool _ _ = Some _, Hs : same (VMap _) (VMap _) |- _ => rewrite (same_jsonBool _ _ _ _ Hs H); clear H; cbn [mbind option_bind]
  | H : jsonInt _ _ = Some _, Hs : same (VMap _) (VMap _) |- _ => rewrite (same_jsonInt _ _ _ _ Hs H); clear H; cbn [mbind option_bind]
  | H : jsonTime _ _ = Some _, Hs : same (VMap _) (VMap _) |- _ => rewrite (same_jsonTime _ _ _ _ Hs H); clear H; cbn [mbind option_bind]
  | H : jsonTimePtr _ _ = Some _, Hs : same (VMap _) (VMap _) |- _ => rewrite (same_jsonTimePtr _ _ _ _ Hs H); clear H; cbn [mbind option_bind]
  | H : jsonStringPtr _ _ = Some _, Hs : same (VMap _) (VMap _) |- _ => rewrite (same_jsonStringPtr _ _ _ _ Hs H); clear H; cbn [mbind option_bind]
  end.
