(* ===== verification/NestedMap.v ===== *)
(** * NestedMap: two-level maps

    Several stores index their entries twice, [map[string]map[string]T]: by
    API and key, by type and identifier, by configuration and topic.  The
    inner map is created on first use, and the operations that remove an
    entry drop an inner map that has become empty.  This file holds those
    idioms once, with their look-up laws and the extensionality principle of
    maps without empty inner maps. *)

From stdpp Require Import base gmap strings list fin_maps.
From S2P Require Import Prelude.

#[local] Set Warnings "-register-all".

Abbreviation nmap A := (gmap string (gmap string A)).

Create Rewrite HintDb nmap.

Section NestedMap.
Context {A : Type}.
Implicit Types (m : nmap A) (a b : string) (v : A).

(** [v, ok := m[a][b]]: a missing inner map reads as an empty one. *)
Definition nlookup m a b : option A := m !! a ≫= (.!! b).

(** [if m[a] == nil { m[a] = make(...) }; m[a][b] = v]. *)
Definition ninsert a b v m : nmap A := <[a := <[b := v]> (default ∅ (m !! a))]> m.

(** [delete(m[a], b)], the inner map staying even if it is empty. *)
Definition ndelete_keep a b m : nmap A :=
  match m !! a with Some i => <[a := delete b i]> m | None => m end.

(** [delete(m[a], b); if len(m[a]) == 0 { delete(m, a) }] for a present
    inner map. *)
Definition ndelete a b m : nmap A :=
  match m !! a with
  | Some i => let i' := delete b i in
              if decide (size i' = 0) then delete a m else <[a := i']> m
  | None => m
  end.

(** No inner map is empty. *)
Definition nwf m : Prop := map_Forall (fun _ i => i <> ∅) m.

Lemma nlookup_empty a b : nlookup ∅ a b = None.
Proof. unfold nlookup. by rewrite lookup_empty. Qed.

Lemma nlookup_ninsert a b v m a' b' :
  nlookup (ninsert a b v m) a' b' = if decide (a = a' /\ b = b') then Some v else nlookup m a' b'.
Proof.
  unfold nlookup, ninsert. destruct (decide (a = a')) as [->|Hne].
  - rewrite lookup_insert_eq. simpl. destruct (decide (b = b')) as [->|Hne'].
    + rewrite lookup_insert_eq. by rewrite decide_True.
    + rewrite lookup_insert_ne by done. rewrite decide_False by tauto.
      by destruct (m !! a').
  - rewrite lookup_insert_ne by done. by rewrite decide_False by tauto.
Qed.

Lemma nlookup_ndelete_keep a b m a' b' :
  nlookup (ndelete_keep a b m) a' b' = if decide (a = a' /\ b = b') then None else nlookup m a' b'.
Proof.
  unfold nlookup, ndelete_keep. destruct (m !! a) as [i|] eqn:Ha.
  - destruct (decide (a = a')) as [->|Hne].
    + rewrite lookup_insert_eq, Ha. simpl. destruct (decide (b = b')) as [->|Hne'].
      * rewrite lookup_delete_eq. by rewrite decide_True.
      * rewrite lookup_delete_ne by done. by rewrite decide_False by tauto.
    + rewrite lookup_insert_ne by done. by rewrite decide_False by tauto.
  - destruct (decide _) as [[-> ->]|]; [|done]. by rewrite Ha.
Qed.

Lemma nlookup_ndelete a b m a' b' :
  nlookup (ndelete a b m) a' b' = if decide (a = a' /\ b = b') then None else nlookup m a' b'.
Proof.
  rewrite <- nlookup_ndelete_keep. unfold nlookup, ndelete, ndelete_keep.
  destruct (m !! a) as [i|] eqn:Ha; [|done]. case_decide as Hs; [|done].
  destruct (decide (a = a')) as [->|Hne].
  - rewrite lookup_delete_eq, lookup_insert_eq. apply map_size_empty_inv in Hs. simpl. by rewrite Hs, lookup_empty.
  - by rewrite lookup_delete_ne, lookup_insert_ne by done.
Qed.

Lemma nlookup_delete a m a' b' :
  nlookup (delete a m) a' b' = if decide (a = a') then None else nlookup m a' b'.
Proof.
  unfold nlookup. case_decide as Ha; [by subst; rewrite lookup_delete_eq|by rewrite lookup_delete_ne].
Qed.

Lemma nlookup_insert a i m a' b' :
  nlookup (<[a := i]> m) a' b' = if decide (a = a') then i !! b' else nlookup m a' b'.
Proof.
  unfold nlookup. case_decide as Ha; [by subst; rewrite lookup_insert_eq|by rewrite lookup_insert_ne].
Qed.

Lemma nwf_empty : nwf ∅.
Proof. apply map_Forall_empty. Qed.

Lemma nwf_ninsert a b v m : nwf m -> nwf (ninsert a b v m).
Proof. intros H. apply map_Forall_insert_2; [apply insert_non_empty|done]. Qed.

Lemma nwf_ndelete a b m : nwf m -> nwf (ndelete a b m).
Proof.
  intros H. unfold ndelete. destruct (m !! a) as [i|]; [|done]. case_decide as Hs.
  - by apply map_Forall_delete.
  - apply map_Forall_insert_2; [|done]. intros E. by rewrite E, map_size_empty in Hs.
Qed.

Lemma nwf_delete a m : nwf m -> nwf (delete a m).
Proof. apply map_Forall_delete. Qed.

(** An inner map may be replaced by one with an entry. *)
Lemma nwf_insert a i m b v : nwf m -> i !! b = Some v -> nwf (<[a := i]> m).
Proof. intros H Hb. apply map_Forall_insert_2; [|done]. intros ->. by rewrite lookup_empty in Hb. Qed.

Lemma nwf_ndelete_keep a b m b' v : nwf m -> nlookup (ndelete_keep a b m) a b' = Some v -> nwf (ndelete_keep a b m).
Proof.
  unfold nlookup, ndelete_keep. intros H Hb. destruct (m !! a) as [i|]; [|done].
  rewrite lookup_insert_eq in Hb. by eapply nwf_insert.
Qed.

Lemma nwf_ninsert_keep a b m b' v : nwf m -> nwf (ninsert a b' v (ndelete_keep a b m)).
Proof.
  intros H. unfold ninsert, ndelete_keep. destruct (m !! a) as [i|] eqn:E.
  - rewrite insert_insert_eq. eapply nwf_insert; [done|apply lookup_insert_eq].
  - eapply nwf_insert; [done|apply lookup_insert_eq].
Qed.

(** An inner map of a well-formed map has an entry. *)
Lemma nwf_present m a i : nwf m -> m !! a = Some i -> exists b v, nlookup m a b = Some v.
Proof.
  intros Hwf Ha. destruct (map_choose i) as (b&v&Hb); [by eapply Hwf|].
  exists b, v. unfold nlookup. by rewrite Ha.
Qed.

Lemma nmap_eq m1 m2 : nwf m1 -> nwf m2 -> (forall a b, nlookup m1 a b = nlookup m2 a b) -> m1 = m2.
Proof.
  intros H1 H2 Hext. apply map_eq. intros a. unfold nlookup in Hext.
  destruct (m1 !! a) as [i1|] eqn:E1, (m2 !! a) as [i2|] eqn:E2; [| | |done].
  - f_equal. apply map_eq. intros b. specialize (Hext a b). by rewrite E1, E2 in Hext.
  - destruct (nwf_present _ _ _ H1 E1) as (b&v&Hb). unfold nlookup in Hb. by rewrite Hext, E2 in Hb.
  - destruct (nwf_present _ _ _ H2 E2) as (b&v&Hb). unfold nlookup in Hb. by rewrite <- Hext, E1 in Hb.
Qed.

End NestedMap.

Lemma nlookup_fmap {A B} (f : A -> B) (m : nmap A) a b :
  nlookup (fmap (M := gmap string) (fmap (M := gmap string) f) m) a b = f <$> nlookup m a b.
Proof.
  unfold nlookup. rewrite lookup_fmap. destruct (m !! a) as [i|]; simpl; [|done]. by rewrite lookup_fmap.
Qed.

Lemma nwf_fmap {A B} (f : A -> B) (m : nmap A) :
  nwf m -> nwf (fmap (M := gmap string) (fmap (M := gmap string) f) m).
Proof.
  intros Hwf a i. rewrite lookup_fmap. destruct (m !! a) as [j|] eqn:E; simpl; [|done]. intros [= <-].
  rewrite fmap_empty_iff. by eapply Hwf.
Qed.

#[export] Hint Rewrite @nlookup_empty @nlookup_ninsert @nlookup_ndelete @nlookup_ndelete_keep @nlookup_delete @nlookup_insert @nlookup_fmap : nmap.
#[export] Hint Resolve nwf_empty nwf_ninsert nwf_ndelete nwf_delete nwf_fmap : go.

(** Case analysis on the look-ups of updated two-level maps. *)
Ltac nsolve :=
  autorewrite with nmap in *; repeat case_decide; simplify_eq; try naive_solver.
