(* ===== verification/Sha256.v ===== *)
(** * Sha256: crypto/sha256 and encoding/hex

    The digest the platform uses to index credentials (API keys,
    subscription tokens) and to detect changed route configurations, as the
    standard library computes it: 32-bit words are [Z] with the reduction
    written out.  Theorems about look-ups need only its shape; the concrete
    function makes witnesses run. *)

From stdpp Require Import base list strings.
From Stdlib Require Import Ascii ZArith.
From S2P Require Import Prelude GoStrings Values.

#[local] Set Warnings "-register-all".

Local Open Scope Z_scope.

(** ** Words *)

Definition mask32 : Z := 0xffffffff.
Definition add32 (a b : Z) : Z := Z.land (a + b) mask32.
Definition rotr32 (n x : Z) : Z := Z.lor (Z.shiftr x n) (Z.land (Z.shiftl x (32 - n)) mask32).
Definition not32 (x : Z) : Z := Z.lxor x mask32.

Definition sigma0 (x : Z) : Z := Z.lxor (rotr32 7 x) (Z.lxor (rotr32 18 x) (Z.shiftr x 3)).
Definition sigma1 (x : Z) : Z := Z.lxor (rotr32 17 x) (Z.lxor (rotr32 19 x) (Z.shiftr x 10)).
Definition Sigma0 (x : Z) : Z := Z.lxor (rotr32 2 x) (Z.lxor (rotr32 13 x) (rotr32 22 x)).
Definition Sigma1 (x : Z) : Z := Z.lxor (rotr32 6 x) (Z.lxor (rotr32 11 x) (rotr32 25 x)).
Definition Ch (x y z : Z) : Z := Z.lxor (Z.land x y) (Z.land (not32 x) z).
Definition Maj (x y z : Z) : Z := Z.lxor (Z.land x y) (Z.lxor (Z.land x z) (Z.land y z)).

(** The tables of the package are defined by primes: the first 32 bits of the
    fractional parts of their cube roots, and of their square roots for the
    initial value. *)
Definition primes : list Z :=
  [2; 3; 5; 7; 11; 13; 17; 19; 23; 29; 31; 37; 41; 43; 47; 53; 59; 61; 67; 71; 73; 79; 83; 89; 97; 101; 103; 107; 109; 113; 127; 131;
   137; 139; 149; 151; 157; 163; 167; 173; 179; 181; 191; 193; 197; 199; 211; 223; 227; 229; 233; 239; 241; 251; 257; 263; 269; 271;
   277; 281; 283; 293; 307; 311].

(** The integer cube root, bit by bit from bit [k] down. *)
Fixpoint cube_root (k : nat) (n r : Z) : Z :=
  let r := let r' := r + 2 ^ Z.of_nat k in if r' * r' * r' <=? n then r' else r in
  match k with O => r | S k' => cube_root k' n r end.

Definition round_constants : list Z :=
  Eval vm_compute in map (fun p => Z.land (cube_root 40 (Z.shiftl p 96) 0) mask32) primes.

(** The eight working variables. *)
Record Digest : Type := mkDigest {
  dg_a : Z; dg_b : Z; dg_c : Z; dg_d : Z; dg_e : Z; dg_f : Z; dg_g : Z; dg_h : Z
}.

Definition initial_digest : Digest :=
  Eval vm_compute in
    match map (fun p => Z.land (Z.sqrt (Z.shiftl p 64)) mask32) primes with
    | a :: b :: c :: d :: e :: f :: g :: h :: _ => mkDigest a b c d e f g h
    | _ => mkDigest 0 0 0 0 0 0 0 0
    end.

(** ** One block *)

(** The message schedule, newest word first: [n] more words. *)
Fixpoint extend_schedule (n : nat) (ws : list Z) : list Z :=
  match n with
  | O => ws
  | S n' =>
      let w i := default 0 (ws !! i) in
      extend_schedule n' (add32 (add32 (sigma1 (w 1%nat)) (w 6%nat)) (add32 (sigma0 (w 14%nat)) (w 15%nat)) :: ws)
  end.

Definition round (s : Digest) (kw : Z * Z) : Digest :=
  let '(k, w) := kw in
  let t1 := add32 (dg_h s) (add32 (Sigma1 (dg_e s)) (add32 (Ch (dg_e s) (dg_f s) (dg_g s)) (add32 k w))) in
  let t2 := add32 (Sigma0 (dg_a s)) (Maj (dg_a s) (dg_b s) (dg_c s)) in
  mkDigest (add32 t1 t2) (dg_a s) (dg_b s) (dg_c s) (add32 (dg_d s) t1) (dg_e s) (dg_f s) (dg_g s).

Definition compress (s : Digest) (block : list Z) : Digest :=
  let schedule := rev (extend_schedule 48 (rev block)) in
  let r := foldl round s (zip round_constants schedule) in
  mkDigest (add32 (dg_a s) (dg_a r)) (add32 (dg_b s) (dg_b r)) (add32 (dg_c s) (dg_c r)) (add32 (dg_d s) (dg_d r))
           (add32 (dg_e s) (dg_e r)) (add32 (dg_f s) (dg_f r)) (add32 (dg_g s) (dg_g r)) (add32 (dg_h s) (dg_h r)).

(** ** Padding and blocks *)

Definition Z_of_byte (b : Byte.byte) : Z := Z.of_N (Byte.to_N b).
Definition byte_of_Z (z : Z) : Byte.byte := default Byte.x00 (Byte.of_N (Z.to_N (Z.land z 255))).

(** [n] bytes of [z], most significant first. *)
Fixpoint be_bytes (n : nat) (z : Z) : bytes :=
  match n with
  | O => []
  | S n' => byte_of_Z (Z.shiftr z (8 * Z.of_nat n')) :: be_bytes n' z
  end.

Definition be_word (bs : bytes) : Z := foldl (fun acc b => Z.lor (Z.shiftl acc 8) (Z_of_byte b)) 0 bs.

Definition pad (msg : bytes) : bytes :=
  let len := length msg in
  let zeros := ((119 - Nat.modulo len 64) mod 64)%nat in
  (msg ++ [Byte.x80] ++ replicate zeros Byte.x00 ++ be_bytes 8 (8 * Z.of_nat len))%list.

(** [n] groups of [k] elements. *)
Fixpoint groups {A} (k n : nat) (l : list A) : list (list A) :=
  match n with O => [] | S n' => take k l :: groups k n' (drop k l) end.

(** [sha256.Sum256]. *)
Definition Sum256 (msg : bytes) : bytes :=
  let padded := pad msg in
  let blocks := groups 64 (Nat.div (length padded) 64) padded in
  let d := foldl (fun s block => compress s (map be_word (groups 4 16 block))) initial_digest blocks in
  concat (map (be_bytes 4) [dg_a d; dg_b d; dg_c d; dg_d d; dg_e d; dg_f d; dg_g d; dg_h d]).

(** ** encoding/hex *)

Fixpoint EncodeToString (bs : bytes) : string :=
  match bs with
  | [] => EmptyString
  | b :: bs' => String (hex_digit (Z.to_nat (Z.shiftr (Z_of_byte b) 4)))
                  (String (hex_digit (Z.to_nat (Z.land (Z_of_byte b) 15))) (EncodeToString bs'))
  end.

(** [hex.EncodeToString(sha256.Sum256([]byte(s)))]. *)
Definition sha256_hex (s : string) : string := EncodeToString (Sum256 (String.list_byte_of_string s)).

(** ** Shape of a digest *)

Lemma length_be_bytes n z : length (be_bytes n z) = n.
Proof. induction n as [|n IH]; simpl; congruence. Qed.

Lemma length_Sum256 msg : length (Sum256 msg) = 32%nat.
Proof. unfold Sum256. cbn [map concat]. by rewrite !length_app, !length_be_bytes. Qed.

Lemma length_EncodeToString bs : String.length (EncodeToString bs) = (2 * length bs)%nat.
Proof. induction bs as [|b bs IH]; simpl; [done|]. rewrite IH. lia. Qed.

Lemma length_sha256_hex s : String.length (sha256_hex s) = 64%nat.
Proof. unfold sha256_hex. by rewrite length_EncodeToString, length_Sum256. Qed.

Lemma sha256_hex_nonempty s : sha256_hex s <> ""%string.
Proof. intros E. pose proof (length_sha256_hex s) as H. by rewrite E in H. Qed.

(** The published test vectors: the empty message, one block, two blocks. *)
Example sha256_empty : sha256_hex "" = "e3b0c44298fc1c149afbf4c8996fb92427ae41e4649b934ca495991b7852b855"%string.
Proof. vm_compute. reflexivity. Qed.
Example sha256_abc : sha256_hex "abc" = "ba7816bf8f01cfea414140de5dae2223b00361a396177a9cb410ff61f20015ad"%string.
Proof. vm_compute. reflexivity. Qed.
Example sha256_two_blocks :
  sha256_hex "abcdbcdecdefdefgefghfghighijhijkijkljklmklmnlmnomnopnopq"
    = "248d6a61d20638b8e5c026930c3e6039a33ce45964ff2167f6ecedd419db06c1"%string.
Proof. vm_compute. reflexivity. Qed.
