(* ===== verification/ApiKeys.v ===== *)
(** * ApiKeys: the store of API keys

    src/common/apikey/store.go and entity_id.go: the in-memory table the
    policy engine and the event gateway validate credentials against, indexed
    by API and by the SHA-256 digest of the key; and
    policy-engine/pkg/apikey/xds.go, which decodes a snapshot of it and
    applies it in one step.  The table holds pointers: an object handed to
    [StoreAPIKey] is normalised in place and shared with the caller, and
    revocation writes to it, so the objects live in a heap. *)

From stdpp Require Import base gmap strings list fin_maps functions.
From Stdlib Require Import Ascii.
From S2P Require Import Prelude GoStrings Values NestedMap Sha256.

#[local] Set Warnings "-register-all".

Open Scope string_scope.

(** ** Data *)

Record APIKey : Type := mkAPIKey {
  ak_ID : string;
  ak_Name : string;
  ak_DisplayName : string;
  ak_APIKey : string; (* the digest *)
  ak_APIId : string;
  ak_ApplicationID : string;
  ak_ApplicationName : string;
  ak_Operations : string;
  ak_Status : string;
  ak_CreatedAt : Z;
  ak_CreatedBy : string;
  ak_UpdatedAt : Z;
  ak_ExpiresAt : option Z;
  ak_Source : string;
  ak_Issuer : option string;
  ak_AllowedTargets : string
}.

Definition Active : string := "active".
Definition Expired : string := "expired".
Definition Revoked : string := "revoked".

Definition ErrNotFound : string := "API key not found".
Definition ErrConflict : string := "API key already exists".
Definition ErrInvalidInput : string := "invalid input".

Definition set_APIKey (k : APIKey) (v : string) : APIKey :=
  mkAPIKey (ak_ID k) (ak_Name k) (ak_DisplayName k) v (ak_APIId k) (ak_ApplicationID k) (ak_ApplicationName k)
    (ak_Operations k) (ak_Status k) (ak_CreatedAt k) (ak_CreatedBy k) (ak_UpdatedAt k) (ak_ExpiresAt k)
    (ak_Source k) (ak_Issuer k) (ak_AllowedTargets k).
Definition set_Status (k : APIKey) (v : string) : APIKey :=
  mkAPIKey (ak_ID k) (ak_Name k) (ak_DisplayName k) (ak_APIKey k) (ak_APIId k) (ak_ApplicationID k) (ak_ApplicationName k)
    (ak_Operations k) v (ak_CreatedAt k) (ak_CreatedBy k) (ak_UpdatedAt k) (ak_ExpiresAt k)
    (ak_Source k) (ak_Issuer k) (ak_AllowedTargets k).

(** The objects of type [APIKey]: every pointer denotes one; those from
    [ak_next] on have not been handed out. *)
Record KeyObjects : Type := mkKeyObjects {
  ko_at : positive -> APIKey;
  ko_next : positive
}.

Record APIkeyStore : Type := mkAPIkeyStore {
  aks_objects : KeyObjects;
  apiKeysByAPI : nmap positive
}.

Definition set_keys (s : APIkeyStore) (m : nmap positive) : APIkeyStore := mkAPIkeyStore (aks_objects s) m.
Definition key_at (s : APIkeyStore) (l : positive) : APIKey := ko_at (aks_objects s) l.
Definition write_key (l : positive) (k : APIKey) (s : APIkeyStore) : APIkeyStore :=
  mkAPIkeyStore (mkKeyObjects (<[l := k]> (ko_at (aks_objects s))) (ko_next (aks_objects s))) (apiKeysByAPI s).

(** [&APIKey{...}]. *)
Definition new_key (k : APIKey) : GoM APIkeyStore positive := fun s =>
  let l := ko_next (aks_objects s) in
  Ok (mkAPIkeyStore (mkKeyObjects (<[l := k]> (ko_at (aks_objects s))) (Pos.succ l)) (apiKeysByAPI s)) l.

Definition zeroKey : APIKey := mkAPIKey "" "" "" "" "" "" "" "" "" 0 "" 0 None "" None "".
Definition NewAPIkeyStore : APIkeyStore := mkAPIkeyStore (mkKeyObjects (fun _ => zeroKey) 1%positive) ∅.

(** ** Operations *)

Definition ComputeAPIKeyHash (plainAPIKey : string) : string :=
  let trimmedAPIKey := TrimSpace plainAPIKey in
  if String.eqb trimmedAPIKey "" then "" else sha256_hex trimmedAPIKey.

(** [cloneAPIKey] of a non-nil pointer: a copy of the object. *)
Definition cloneAPIKey (k : APIKey) : APIKey :=
  mkAPIKey (ak_ID k) (ak_Name k) (ak_DisplayName k) (ak_APIKey k) (ak_APIId k) (ak_ApplicationID k) (ak_ApplicationName k)
    (ak_Operations k) (ak_Status k) (ak_CreatedAt k) (ak_CreatedBy k) (ak_UpdatedAt k)
    (match ak_ExpiresAt k with Some e => Some e | None => None end)
    (ak_Source k) (match ak_Issuer k with Some i => Some i | None => None end) (ak_AllowedTargets k).

(** The digest of the first key of the iteration with the given name; empty
    when there is none. *)
Fixpoint hash_with_name (objects : positive -> APIKey) (name : string) (l : list (string * positive)) : string :=
  match l with
  | [] => ""
  | (existingKeyHash, p) :: l' =>
      if String.eqb (ak_Name (objects p)) name then existingKeyHash else hash_with_name objects name l'
  end.

Section Operations.
Context `{MapRange}.

Definition StoreAPIKey (apiId : string) (apiKey : option positive) : GoM APIkeyStore unit :=
  match apiKey with
  | None => fail "API key cannot be nil"
  | Some p =>
      modify (fun s => write_key p (set_APIKey (key_at s p) (TrimSpace (ak_APIKey (key_at s p)))) s);;
      s ← get;
      let hash := ak_APIKey (key_at s p) in
      if String.eqb hash "" then fail (ErrInvalidInput +:+ ": API key hash cannot be empty")
      else
        let existingHash := match apiKeysByAPI s !! apiId with
                            | Some existingKeys =>
                                hash_with_name (key_at s) (ak_Name (key_at s p)) (range existingKeys)
                            | None => ""
                            end in
        modify (fun s => if String.eqb existingHash "" then s
                         else set_keys s (ndelete_keep apiId existingHash (apiKeysByAPI s)));;
        s ← get;
        match nlookup (apiKeysByAPI s) apiId hash with
        | Some _ => fail ErrConflict
        | None => put (set_keys s (ninsert apiId hash p (apiKeysByAPI s)))
        end
  end.

(** [ResolveValidatedAPIKey]; [now] is the clock, [issuer] the variadic
    argument.  [inr None] is the [(nil, nil)] return. *)
Definition ResolveValidatedAPIKey (now : Z) (apiId apiOperation operationMethod providedAPIKey : string)
    (issuer : list string) (s : APIkeyStore) : string + option APIKey :=
  let providedAPIKey := TrimSpace providedAPIKey in
  if String.eqb providedAPIKey "" then inl "API key is empty"
  else
    let hash := ComputeAPIKeyHash providedAPIKey in
    if String.eqb hash "" then inl "failed to compute API key hash"
    else match nlookup (apiKeysByAPI s) apiId hash with
         | None => inl ErrNotFound
         | Some p =>
             let clonedAPIKey := cloneAPIKey (key_at s p) in
             if negb (String.eqb (ak_APIId clonedAPIKey) apiId) then inr None
             else if match issuer with
                     | i :: _ => negb (String.eqb i "") &&
                                 match ak_Issuer clonedAPIKey with Some i' => negb (String.eqb i' i) | None => true end
                     | [] => false
                     end then inr None
             else if negb (String.eqb (ak_Status clonedAPIKey) Active) then inr None
             else if String.eqb (ak_Status clonedAPIKey) Expired ||
                     match ak_ExpiresAt clonedAPIKey with Some e => (e <? now)%Z | None => false end then inr None
             else inr (Some clonedAPIKey)
         end.

(** [GetAPIKeyByID]: the first key of the iteration with this identifier. *)
Definition GetAPIKeyByID (apiId keyID : string) (s : APIkeyStore) : string + APIKey :=
  if String.eqb keyID "" then inl ErrNotFound
  else match apiKeysByAPI s !! apiId with
       | None => inl ErrNotFound
       | Some apiKeysByHash =>
           match list_find (fun kv => ak_ID (key_at s kv.2) = keyID) (range apiKeysByHash) with
           | Some (_, (_, p)) => inr (cloneAPIKey (key_at s p))
           | None => inl ErrNotFound
           end
       end.

(** [removeFromAPIMapping]. *)
Definition removeFromAPIMapping (apiId hash : string) (s : APIkeyStore) : APIkeyStore :=
  set_keys s (ndelete apiId hash (apiKeysByAPI s)).

Definition RevokeAPIKey (apiId providedAPIKey : string) : GoM APIkeyStore unit := fun s =>
  let providedAPIKey := TrimSpace providedAPIKey in
  if String.eqb providedAPIKey "" then Ok s tt
  else
    let hash := ComputeAPIKeyHash providedAPIKey in
    if String.eqb hash "" then Ok s tt
    else match nlookup (apiKeysByAPI s) apiId hash with
         | None => Ok s tt
         | Some p => Ok (removeFromAPIMapping apiId hash (write_key p (set_Status (key_at s p) Revoked) s)) tt
         end.

Definition RemoveAPIKeysByAPI (apiId : string) : GoM APIkeyStore unit := fun s =>
  Ok (set_keys s (delete apiId (apiKeysByAPI s))) tt.

Definition ClearAll : GoM APIkeyStore unit := fun s => Ok (set_keys s ∅) tt.

(** The inner loop of [ReplaceAll]: the clones of one API's keys. *)
Definition replaceKeys (apiKeys : gmap string (option positive)) : GoM APIkeyStore (gmap string positive) :=
  for_range (fun _ '(hash, apiKey) clonedKeys =>
    match apiKey with
    | None => fail "API key cannot be nil"
    | Some p =>
        let normalizedHash := TrimSpace hash in
        s ← get;
        let k := cloneAPIKey (key_at s p) in
        clonedAPIKey ← new_key (set_APIKey k (TrimSpace (ak_APIKey k)));
        let h := TrimSpace (ak_APIKey k) in
        if String.eqb h "" then fail (ErrInvalidInput +:+ ": API key hash cannot be empty")
        else
          let normalizedHash := if String.eqb normalizedHash "" then h else normalizedHash in
          if negb (String.eqb normalizedHash h) then
            fail (ErrInvalidInput +:+ ": API key map hash does not match API key hash")
          else match clonedKeys !! normalizedHash with
               | Some _ => fail ErrConflict
               | None => mret (Continue (<[normalizedHash := clonedAPIKey]> clonedKeys))
               end
    end) 0 (range apiKeys) ∅.

Definition ReplaceAll (newMap : gmap string (gmap string (option positive))) : GoM APIkeyStore unit :=
  replacement ← for_range (fun _ '(apiId, apiKeys) replacement =>
      if decide (size apiKeys = 0) then mret (Continue replacement)
      else clonedKeys ← replaceKeys apiKeys;
           mret (Continue (<[apiId := clonedKeys]> replacement))) 0 (range newMap) ∅;
  modify (fun s => set_keys s replacement).

End Operations.

(** ** entity_id.go *)

Definition BuildAPIKeyEntityID (apiID keyID : string) : string := apiID +:+ "_" +:+ keyID.

Definition ParseAPIKeyEntityID (entityID : string) : string + (string * string) :=
  match split_last "_" entityID with
  | None => inl ("invalid API key entity ID: " +:+ Quote entityID)
  | Some (l, r) =>
      if String.eqb l "" || String.eqb r "" then inl ("invalid API key entity ID: " +:+ Quote entityID)
      else inr (l, r)
  end.

(** ** pkg/apikey/xds.go *)

Record APIKeyData : Type := mkAPIKeyData {
  kd_ID : string;
  kd_Name : string;
  kd_APIKey : string;
  kd_APIId : string;
  kd_ApplicationID : string;
  kd_ApplicationName : string;
  kd_Operations : string;
  kd_Status : string;
  kd_CreatedAt : Z;
  kd_CreatedBy : string;
  kd_UpdatedAt : Z;
  kd_ExpiresAt : option Z;
  kd_Source : string;
  kd_Issuer : option string;
  kd_AllowedTargets : string
}.

(** The object [ApplyToStore] builds: it does not copy the allowed targets. *)
Definition snapshotKey (d : APIKeyData) : APIKey :=
  mkAPIKey (kd_ID d) (kd_Name d) "" (kd_APIKey d) (kd_APIId d) (kd_ApplicationID d) (kd_ApplicationName d)
    (kd_Operations d) (kd_Status d) (kd_CreatedAt d) (kd_CreatedBy d) (kd_UpdatedAt d) (kd_ExpiresAt d)
    (kd_Source d) (kd_Issuer d) "".

Section Snapshot.
Context `{MapRange}.

(** [addToSnapshot] of a fresh object. *)
Definition addToSnapshot (snapshot : nmap positive) (apiID : string) (p : positive) : GoM APIkeyStore (nmap positive) :=
  modify (fun s => write_key p (set_APIKey (key_at s p) (TrimSpace (ak_APIKey (key_at s p)))) s);;
  s ← get;
  let ak := key_at s p in
  if String.eqb (ak_APIKey ak) "" then
    fail (ErrInvalidInput +:+ ": API key hash is empty for key " +:+ Quote (ak_ID ak))
  else
    let inner := default ∅ (snapshot !! apiID) in
    let inner := match list_find (fun kv => ak_Name (key_at s kv.2) = ak_Name ak) (range inner) with
                 | Some (_, (hash, _)) => delete hash inner
                 | None => inner
                 end in
    match inner !! ak_APIKey ak with
    | Some _ => fail ErrConflict
    | None => mret (<[apiID := <[ak_APIKey ak := p]> inner]> snapshot)
    end.

Definition ApplyToStore (keys : list APIKeyData) : GoM APIkeyStore unit :=
  snapshot ← for_range (fun _ d snapshot =>
      p ← new_key (snapshotKey d);
      snapshot' ← wrapErr (fun e => "failed to build snapshot for API key " +:+ Quote (kd_ID d) +:+ " (api "
                                    +:+ Quote (kd_APIId d) +:+ "): " +:+ e)
                    (addToSnapshot snapshot (kd_APIId d) p);
      mret (Continue snapshot')) 0 keys ∅;
  wrapErr (fun e => "failed to replace API key store: " +:+ e)
    (ReplaceAll (fmap (M := gmap string) (fmap (M := gmap string) Some) snapshot)).

End Snapshot.
