(* ===== verification/ApiKeyTheorems.v ===== *)
(** * ApiKeyTheorems: what the API key store guarantees

    The store refines a table of keys by API and digest: every operation has
    the effect of an operation on that table.  From the table follows what a
    gateway relies on: a credential is accepted only if it was issued for the
    API, is active, has not expired and has not been withdrawn since. *)

From stdpp Require Import base gmap strings list fin_maps functions.
From Stdlib Require Import Ascii.
From S2P Require Import Prelude GoStrings Values NestedMap Sha256 ApiKeys.

#[local] Set Warnings "-register-all".

Open Scope string_scope.

(** ** The table *)

Abbreviation KeyTable := (nmap APIKey).

Definition normalKey (k : APIKey) : APIKey := set_APIKey k (TrimSpace (ak_APIKey k)).

(** The keys of an API other than those of a given name. *)
Definition othersOf (t : KeyTable) (api name : string) : gmap string APIKey :=
  filter (fun kv => ak_Name kv.2 <> name) (default ∅ (t !! api)).

(** Issuing a key replaces the API's key of the same name; it fails, without
    putting that key back, if another name has the same digest. *)
Definition tableStore (api : string) (k : APIKey) (t : KeyTable) : KeyTable * option string :=
  let k' := normalKey k in
  let h := ak_APIKey k' in
  if String.eqb h "" then (t, Some (ErrInvalidInput +:+ ": API key hash cannot be empty"))
  else
    let others := othersOf t api (ak_Name k) in
    match others !! h with
    | Some _ => (<[api := others]> t, Some ErrConflict)
    | None => (<[api := <[h := k']> others]> t, None)
    end.

Definition tableRevoke (api plain : string) (t : KeyTable) : KeyTable := ndelete api (ComputeAPIKeyHash plain) t.

(** ** Operations on the store *)

Inductive KeyOp : Type :=
| KOStore (api : string) (k : APIKey) (* of a new object *)
| KORevoke (api plain : string)
| KORemoveByAPI (api : string)
| KOClearAll.

Definition outcomeOf {A} (s : APIkeyStore) (o : Outcome APIkeyStore A) : APIkeyStore * option string :=
  match o with Ok s' _ => (s', None) | Err s' e => (s', Some e) | Panic => (s, Some "panic") end.

Section Theorems.
Context `{MapRange}.

Definition runKeyOp (op : KeyOp) (s : APIkeyStore) : APIkeyStore * option string :=
  outcomeOf s (match op with
               | KOStore api k => p ← new_key k; StoreAPIKey api (Some p)
               | KORevoke api plain => RevokeAPIKey api plain
               | KORemoveByAPI api => RemoveAPIKeysByAPI api
               | KOClearAll => ClearAll
               end s).

Definition tableOp (op : KeyOp) (t : KeyTable) : KeyTable * option string :=
  match op with
  | KOStore api k => tableStore api k t
  | KORevoke api plain => (tableRevoke api plain t, None)
  | KORemoveByAPI api => (delete api t, None)
  | KOClearAll => (∅, None)
  end.

Definition runKeyOps (ops : list KeyOp) (s : APIkeyStore) : APIkeyStore := foldl (fun s op => (runKeyOp op s).1) s ops.
Definition tableOps (ops : list KeyOp) (t : KeyTable) : KeyTable := foldl (fun t op => (tableOp op t).1) t ops.

(** The table a store represents. *)
Definition keyTable (s : APIkeyStore) : KeyTable :=
  fmap (M := gmap string) (fmap (M := gmap string) (key_at s)) (apiKeysByAPI s).

(** What every reachable store satisfies. *)
Record keysOk (s : APIkeyStore) : Prop := {
  ko_wf : nwf (apiKeysByAPI s);
  ko_entry : forall api h p, nlookup (apiKeysByAPI s) api h = Some p ->
    (p < ko_next (aks_objects s))%positive /\ ak_APIKey (key_at s p) = h /\ h <> "";
  ko_inj : forall api h api' h' p, nlookup (apiKeysByAPI s) api h = Some p ->
    nlookup (apiKeysByAPI s) api' h' = Some p -> api = api' /\ h = h';
  ko_names : forall api h h' p p', nlookup (apiKeysByAPI s) api h = Some p ->
    nlookup (apiKeysByAPI s) api h' = Some p' -> ak_Name (key_at s p) = ak_Name (key_at s p') -> h = h'
}.

Lemma keysOk_new : keysOk NewAPIkeyStore.
Proof. split; simpl; [apply nwf_empty|intros *; by rewrite nlookup_empty..]. Qed.

Lemma nlookup_keyTable s a b : nlookup (keyTable s) a b = key_at s <$> nlookup (apiKeysByAPI s) a b.
Proof. apply nlookup_fmap. Qed.

(** The search for a key of the same name finds it if there is one. *)
Lemma hash_with_name_spec (objects : positive -> APIKey) name l :
  (forall h p, (h, p) ∈ l -> h <> "") ->
  match hash_with_name objects name l with
  | "" => forall h p, (h, p) ∈ l -> ak_Name (objects p) <> name
  | h => exists p, (h, p) ∈ l /\ ak_Name (objects p) = name
  end.
Proof.
  induction l as [|[h p] l IH]; intros Hne; simpl; [set_solver|].
  destruct (String.eqb_spec (ak_Name (objects p)) name) as [Hn|Hn].
  - destruct h as [|c h']; [destruct (Hne "" p); set_solver|]. exists p. set_solver.
  - specialize (IH ltac:(set_solver)). destruct (hash_with_name objects name l); set_solver.
Qed.

Lemma lookup_othersOf t api name h :
  othersOf t api name !! h = k ← nlookup t api h; if decide (ak_Name k = name) then None else Some k.
Proof.
  unfold othersOf, nlookup. destruct (t !! api) as [i|]; simpl; [|by rewrite map_filter_empty, lookup_empty].
  rewrite map_lookup_filter. destruct (i !! h) as [k|]; simpl; [|done].
  unfold guard. repeat case_decide; naive_solver.
Qed.

(** ** Storing a new object *)

Section Store.
Context (s : APIkeyStore) (api : string) (k : APIKey) (Hok : keysOk s).

Let p := ko_next (aks_objects s).
Let s0 := mkAPIkeyStore (mkKeyObjects (<[p := k]> (ko_at (aks_objects s))) (Pos.succ p)) (apiKeysByAPI s).
Let s1 := write_key p (normalKey (key_at s0 p)) s0.
Let existing := match apiKeysByAPI s !! api with
                | Some m => hash_with_name (key_at s1) (ak_Name k) (range m)
                | None => ""
                end.
Let keys := if String.eqb existing "" then apiKeysByAPI s else ndelete_keep api existing (apiKeysByAPI s).
Let h := ak_APIKey (normalKey k).

Lemma key_at_new : key_at s1 p = normalKey k.
Proof. unfold key_at, s1, write_key. simpl. rewrite fn_lookup_insert. unfold key_at. simpl. by rewrite fn_lookup_insert. Qed.

Lemma key_at_old a b q : nlookup (apiKeysByAPI s) a b = Some q -> key_at s1 q = key_at s q.
Proof.
  intros [Hq _]%Hok. unfold key_at, s1, write_key. simpl. rewrite !fn_lookup_insert_ne by (unfold p; lia). done.
Qed.

Lemma existing_spec b q : nlookup (apiKeysByAPI s) api b = Some q -> (ak_Name (key_at s q) = ak_Name k <-> b = existing).
Proof.
  intros Hq. unfold existing. destruct (apiKeysByAPI s !! api) as [m|] eqn:Hm; [|unfold nlookup in Hq; by rewrite Hm in Hq].
  assert (forall b q, (b, q) ∈ range m <-> nlookup (apiKeysByAPI s) api b = Some q) as Hin.
  { intros b' q'. rewrite elem_of_range. unfold nlookup. by rewrite Hm. }
  pose proof (hash_with_name_spec (key_at s1) (ak_Name k) (range m)) as Hs.
  destruct (hash_with_name _ _ _) as [|c e'] eqn:He.
  - specialize (Hs ltac:(intros b' q' (_&_&Hne)%Hin%Hok; done)). split.
    + intros Hn. destruct (Hs b q); [by apply Hin|]. by rewrite (key_at_old _ _ _ Hq).
    + intros ->. by destruct (ko_entry _ Hok _ _ _ Hq) as (_&_&?).
  - destruct Hs as (q'&Hq'%Hin&Hn'); [intros b' q'' (_&_&Hne)%Hin%Hok; done|].
    rewrite (key_at_old _ _ _ Hq') in Hn'. split.
    + intros Hn. eapply (ko_names _ Hok); [exact Hq|exact Hq'|congruence].
    + intros ->. congruence.
Qed.

Lemma nlookup_keys a b :
  nlookup keys a b = if decide (a = api /\ b = existing) then None else nlookup (apiKeysByAPI s) a b.
Proof.
  unfold keys. destruct (String.eqb_spec existing "") as [E|E].
  - destruct (decide _) as [[-> ->]|]; [|done]. destruct (nlookup (apiKeysByAPI s) api existing) as [q|] eqn:Hq; [|done].
    by destruct (ko_entry _ Hok _ _ _ Hq) as (_&_&?).
  - rewrite nlookup_ndelete_keep. repeat case_decide; naive_solver.
Qed.

(** The remaining keys are those of the other names. *)
Lemma othersOf_keys b : othersOf (keyTable s) api (ak_Name k) !! b = key_at s <$> nlookup keys api b.
Proof.
  rewrite lookup_othersOf, nlookup_keyTable, nlookup_keys.
  destruct (nlookup (apiKeysByAPI s) api b) as [q|] eqn:Hq; simpl; [|by case_decide].
  pose proof (existing_spec _ _ Hq) as He. repeat case_decide; naive_solver.
Qed.

Lemma store_outcome :
  (p ← new_key k; StoreAPIKey api (Some p)) s =
    if String.eqb h "" then Err s1 (ErrInvalidInput +:+ ": API key hash cannot be empty")
    else match nlookup keys api h with
         | Some _ => Err (set_keys s1 keys) ErrConflict
         | None => Ok (set_keys s1 (ninsert api h p keys)) tt
         end.
Proof.
  unfold StoreAPIKey, mbind, GoM_bind, new_key, modify, get, put, fail. simpl.
  fold p. fold s0. change (set_APIKey (key_at s0 p) (TrimSpace (ak_APIKey (key_at s0 p)))) with (normalKey (key_at s0 p)).
  fold s1. rewrite key_at_new. fold h.
  destruct (String.eqb h ""); [done|]. unfold keys. change (ak_Name (normalKey k)) with (ak_Name k). fold existing.
  destruct (String.eqb existing ""); simpl; by destruct (nlookup _ api h).
Qed.

(** The table after the store: [f] are the entries left of the old ones. *)
Lemma keyTable_kept (m : nmap positive) a b :
  (forall a b q, nlookup m a b = Some q -> q = p \/ nlookup (apiKeysByAPI s) a b = Some q) ->
  nlookup (keyTable (set_keys s1 m)) a b
    = q ← nlookup m a b; Some (if decide (q = p) then normalKey k else key_at s q).
Proof.
  intros Hm. rewrite nlookup_keyTable. simpl. destruct (nlookup m a b) as [q|] eqn:Hq; simpl; [|done].
  f_equal. change (key_at (set_keys s1 m) q) with (key_at s1 q). case_decide as Hp; [by subst; apply key_at_new|].
  destruct (Hm _ _ _ Hq) as [?|Hold]; [done|]. by eapply key_at_old.
Qed.

Lemma old_ne_new a b q : nlookup (apiKeysByAPI s) a b = Some q -> q <> p.
Proof. intros [Hq _]%Hok. unfold p. lia. Qed.

(** An update of the table that keeps the invariant: the entries are old
    ones, or the new object under its own digest with a name of its own. *)
Lemma keysOk_store (m : nmap positive) :
  nwf m ->
  (forall a b q, nlookup m a b = Some q -> nlookup (apiKeysByAPI s) a b = Some q \/ (q = p /\ a = api /\ b = h)) ->
  (nlookup m api h = Some p -> forall q, nlookup m api existing = Some q -> q = p) ->
  (nlookup m api h = Some p -> h <> "") ->
  keysOk (set_keys s1 m).
Proof.
  intros Hwf Hm Hex Hne. split; simpl.
  - done.
  - intros a b q Hq. change (key_at (set_keys s1 m) q) with (key_at s1 q). destruct (Hm _ _ _ Hq) as [Ho|(Eq&Ea&Eb)].
    + rewrite (key_at_old _ _ _ Ho). destruct (ko_entry _ Hok _ _ _ Ho) as (?&?&?). split_and!; try done. fold p. lia.
    + subst a b. rewrite Eq in *. rewrite key_at_new. split_and!; auto. fold p. lia.
  - intros a b a' b' q Hq Hq'. destruct (Hm _ _ _ Hq) as [Ho|(Eq&Ea&Eb)], (Hm _ _ _ Hq') as [Ho'|(Eq'&Ea'&Eb')].
    + by eapply (ko_inj _ Hok).
    + by destruct (old_ne_new _ _ _ Ho).
    + by destruct (old_ne_new _ _ _ Ho').
    + naive_solver.
  - intros a b b' q q' Hq Hq' Hn. change (key_at (set_keys s1 m)) with (key_at s1) in Hn.
    assert (forall b q, nlookup m api h = Some p -> nlookup (apiKeysByAPI s) api b = Some q -> nlookup m api b = Some q ->
              ak_Name (key_at s q) <> ak_Name k) as Hfresh.
    { intros b1 q1 Hp Ho Hb1 Hn1. apply (existing_spec _ _ Ho) in Hn1. rewrite Hn1 in *.
      by apply (old_ne_new _ _ _ Ho), (Hex Hp). }
    destruct (Hm _ _ _ Hq) as [Ho|(Eq&Ea&Eb)], (Hm _ _ _ Hq') as [Ho'|(Eq'&Ea'&Eb')].
    + rewrite (key_at_old _ _ _ Ho), (key_at_old _ _ _ Ho') in Hn. by eapply (ko_names _ Hok).
    + subst a b'. rewrite Eq' in *. rewrite (key_at_old _ _ _ Ho), key_at_new in Hn. by destruct (Hfresh b q).
    + subst a b. rewrite Eq in *. rewrite (key_at_old _ _ _ Ho'), key_at_new in Hn. by destruct (Hfresh b' q').
    + naive_solver.
Qed.

Lemma nwf_keys b q : nlookup keys api b = Some q -> nwf keys.
Proof.
  unfold keys. destruct (String.eqb existing ""); intros Hq; [apply Hok|]. eapply nwf_ndelete_keep; [apply Hok|done].
Qed.

Lemma nwf_keys_new q : nwf (ninsert api h q keys).
Proof.
  unfold keys. destruct (String.eqb existing ""); [apply nwf_ninsert, Hok|apply nwf_ninsert_keep, Hok].
Qed.

Lemma keys_old a b q : nlookup keys a b = Some q -> nlookup (apiKeysByAPI s) a b = Some q.
Proof. rewrite nlookup_keys. by case_decide. Qed.

Lemma store_refines :
  let '(s', e) := runKeyOp (KOStore api k) s in
  (keyTable s', e) = tableStore api k (keyTable s) /\ keysOk s'.
Proof.
  unfold runKeyOp, tableStore. rewrite store_outcome. fold h.
  destruct (String.eqb_spec h "") as [Hh|Hh].
  - cbn [outcomeOf]. change s1 with (set_keys s1 (apiKeysByAPI s)). split.
    + f_equal. apply nmap_eq; [apply nwf_fmap, Hok..|]. intros a b. rewrite keyTable_kept by auto.
      rewrite nlookup_keyTable. destruct (nlookup (apiKeysByAPI s) a b) as [q|] eqn:Hq; simpl; [|done].
      f_equal. by rewrite decide_False by (by eapply old_ne_new).
    + apply keysOk_store; [apply Hok|auto|..]; intros Hp; by destruct (old_ne_new _ _ _ Hp).
  - rewrite othersOf_keys. pose proof nlookup_keys as Hk.
    destruct (nlookup keys api h) as [q|] eqn:Hq; simpl.
    + assert (nwf keys) as Hwf by by eapply nwf_keys. split.
      * f_equal. apply nmap_eq; [by apply nwf_fmap|eapply nwf_insert; [apply nwf_fmap, Hok|by rewrite othersOf_keys, Hq]|].
        intros a b. rewrite keyTable_kept by eauto using keys_old. rewrite nlookup_insert, othersOf_keys, nlookup_keyTable.
        case_decide as Ha; [subst a|rewrite Hk, decide_False by naive_solver];
          destruct (nlookup _ _ b) as [q'|] eqn:Hq'; simpl; try done; f_equal;
          rewrite decide_False; eauto using old_ne_new, keys_old.
      * apply keysOk_store; [done|eauto using keys_old|..]; intros Hp; by destruct (old_ne_new _ _ _ (keys_old _ _ _ Hp)).
    + split.
      * f_equal. apply nmap_eq; [apply nwf_fmap, nwf_keys_new|eapply nwf_insert; [apply nwf_fmap, Hok|apply lookup_insert_eq]|].
        intros a b. rewrite keyTable_kept by (intros a' b' q'; rewrite nlookup_ninsert; case_decide; eauto using keys_old; naive_solver).
        rewrite nlookup_insert, nlookup_keyTable, nlookup_ninsert.
        destruct (decide (api = a)) as [<-|Ha]; [|rewrite decide_False by naive_solver; rewrite Hk, decide_False by naive_solver];
          [destruct (decide (h = b)) as [<-|Hb]|].
        -- rewrite decide_True by done. simpl. by rewrite decide_True, lookup_insert_eq.
        -- rewrite decide_False by naive_solver. rewrite lookup_insert_ne, othersOf_keys by done.
           destruct (nlookup keys api b) as [q'|] eqn:Hq'; simpl; [|done]. f_equal.
           rewrite decide_False; eauto using old_ne_new, keys_old.
        -- destruct (nlookup _ a b) as [q'|] eqn:Hq'; simpl; [|done]. f_equal. rewrite decide_False; eauto using old_ne_new.
      * apply keysOk_store; [apply nwf_keys_new|intros a b q'; rewrite nlookup_ninsert; case_decide; naive_solver eauto using keys_old| |done].
        intros _ q'. rewrite nlookup_ninsert, Hk. repeat case_decide; naive_solver.
Qed.

End Store.

(** ** The other operations *)

Lemma ComputeAPIKeyHash_trim plain : ComputeAPIKeyHash (TrimSpace plain) = ComputeAPIKeyHash plain.
Proof. unfold ComputeAPIKeyHash. by rewrite TrimSpace_idem. Qed.

Lemma ComputeAPIKeyHash_empty plain : ComputeAPIKeyHash plain = "" <-> TrimSpace plain = "".
Proof.
  unfold ComputeAPIKeyHash. destruct (String.eqb_spec (TrimSpace plain) "") as [E|E]; [done|].
  split; [|done]. intros Hs. by apply sha256_hex_nonempty in Hs.
Qed.

Lemma keyTable_no_empty_hash s api : keysOk s -> nlookup (apiKeysByAPI s) api "" = None.
Proof.
  intros Hok. destruct (nlookup _ api "") as [p|] eqn:Hp; [|done]. by destruct (ko_entry _ Hok _ _ _ Hp) as (_&_&?).
Qed.

(** A smaller set of entries with the same objects. *)
Lemma keysOk_subset s s' :
  keysOk s -> nwf (apiKeysByAPI s') -> ko_next (aks_objects s') = ko_next (aks_objects s) ->
  (forall a b q, nlookup (apiKeysByAPI s') a b = Some q ->
     nlookup (apiKeysByAPI s) a b = Some q /\ key_at s' q = key_at s q) -> keysOk s'.
Proof.
  intros Hok Hwf Hnext Hsub. split; [done|..].
  - intros a b q [Hq ->]%Hsub. rewrite Hnext. by apply (ko_entry _ Hok a).
  - intros a b a' b' q [Hq _]%Hsub [Hq' _]%Hsub. by eapply (ko_inj _ Hok).
  - intros a b b' q q' [Hq ->]%Hsub [Hq' ->]%Hsub. by eapply (ko_names _ Hok).
Qed.

Lemma revoke_refines s api plain : keysOk s ->
  exists s', RevokeAPIKey api plain s = Ok s' tt /\ keyTable s' = tableRevoke api plain (keyTable s) /\ keysOk s'.
Proof.
  intros Hok. unfold RevokeAPIKey, tableRevoke. rewrite ComputeAPIKeyHash_trim.
  assert (forall h, nlookup (apiKeysByAPI s) api h = None -> keyTable s = ndelete api h (keyTable s)) as Habsent.
  { intros h Hn. apply nmap_eq; [apply nwf_fmap, Hok|apply nwf_ndelete, nwf_fmap, Hok|].
    intros a b. rewrite nlookup_ndelete. case_decide as Hd; [|done]. destruct Hd as [<- <-].
    by rewrite nlookup_keyTable, Hn. }
  destruct (String.eqb_spec (TrimSpace plain) "") as [E|E].
  { exists s. apply ComputeAPIKeyHash_empty in E. rewrite E. eauto using keyTable_no_empty_hash. }
  destruct (String.eqb_spec (ComputeAPIKeyHash plain) "") as [E'|E'].
  { by apply ComputeAPIKeyHash_empty in E'. }
  set (h := ComputeAPIKeyHash plain) in *. destruct (nlookup (apiKeysByAPI s) api h) as [p|] eqn:Hp; [|by eauto].
  eexists. split; [done|].
  assert (forall a b q, nlookup (ndelete api h (apiKeysByAPI s)) a b = Some q ->
            nlookup (apiKeysByAPI s) a b = Some q /\ <[p := set_Status (key_at s p) Revoked]> (key_at s) q = key_at s q) as Hsub.
  { intros a b q. rewrite nlookup_ndelete. case_decide as Hd; [done|]. intros Hq. split; [done|].
    apply fn_lookup_insert_ne. intros <-. by destruct (ko_inj _ Hok _ _ _ _ _ Hp Hq) as [-> ->]; apply Hd. }
  split.
  - apply nmap_eq; [apply nwf_fmap, nwf_ndelete, Hok|apply nwf_ndelete, nwf_fmap, Hok|].
    intros a b. rewrite nlookup_keyTable, nlookup_ndelete. simpl. specialize (Hsub a b). revert Hsub.
    rewrite nlookup_ndelete. case_decide; [done|]. rewrite nlookup_keyTable.
    destruct (nlookup (apiKeysByAPI s) a b) as [q|]; intros Hsub; [|done]. simpl. f_equal. by apply Hsub.
  - eapply keysOk_subset; [done|apply nwf_ndelete, Hok|done|exact Hsub].
Qed.

(** Every operation refines the operation of the table, errors included. *)
Lemma key_op_refines op s : keysOk s ->
  (keyTable (runKeyOp op s).1, (runKeyOp op s).2) = tableOp op (keyTable s) /\ keysOk (runKeyOp op s).1.
Proof.
  intros Hok. destruct op as [api k|api plain|api|].
  - pose proof (store_refines s api k Hok) as Hs. by destruct (runKeyOp (KOStore api k) s).
  - destruct (revoke_refines s api plain Hok) as (s'&E&Ht&Hok'). unfold runKeyOp. rewrite E. simpl. by rewrite Ht.
  - unfold runKeyOp. simpl. split.
    + unfold keyTable. simpl. by rewrite fmap_delete.
    + eapply keysOk_subset; [done|apply nwf_delete, Hok|done|]. simpl. intros a b q. rewrite nlookup_delete.
      case_decide; [done|]. auto.
  - unfold runKeyOp. simpl. split.
    + unfold keyTable. simpl. by rewrite fmap_empty.
    + eapply keysOk_subset; [done|apply nwf_empty|done|]. intros a b q. simpl. by rewrite nlookup_empty.
Qed.

Lemma key_ops_refine ops s : keysOk s ->
  keyTable (runKeyOps ops s) = tableOps ops (keyTable s) /\ keysOk (runKeyOps ops s).
Proof.
  revert s. induction ops as [|op ops IH]; intros s Hok; [done|]. simpl.
  destruct (key_op_refines op s Hok) as [Ht Hok']. destruct (IH _ Hok') as [Ht' Hok'']. split; [|done].
  rewrite Ht'. f_equal. by rewrite <- Ht.
Qed.

Lemma keyTable_new : keyTable NewAPIkeyStore = ∅.
Proof. apply fmap_empty. Qed.

(** ** Issued keys *)

(** Operations that leave the key of a name and digest of an API alone. *)
Definition keepsKey (api name h : string) (op : KeyOp) : Prop :=
  match op with
  | KOStore api' k' => api' <> api \/ ak_Name k' <> name \/ TrimSpace (ak_APIKey k') = ""
  | KORevoke api' plain => api' <> api \/ ComputeAPIKeyHash plain <> h
  | KORemoveByAPI api' => api' <> api
  | KOClearAll => False
  end.

Lemma tableStore_lookup api k t api' h k' :
  nlookup (tableStore api k t).1 api' h = Some k' <->
    (api' = api /\ k' = normalKey k /\ h = ak_APIKey k' /\ (tableStore api k t).2 = None) \/
    (nlookup t api' h = Some k' /\ keepsKey api' (ak_Name k') h (KOStore api k)).
Proof.
  unfold tableStore, keepsKey. change (ak_APIKey (normalKey k)) with (TrimSpace (ak_APIKey k)).
  destruct (String.eqb_spec (TrimSpace (ak_APIKey k)) "") as [E|E]; simpl; [naive_solver|].
  pose proof (lookup_othersOf t api (ak_Name k)) as Ho.
  destruct (othersOf t api (ak_Name k) !! TrimSpace (ak_APIKey k)) as [k1|] eqn:E1; simpl; rewrite nlookup_insert.
  - case_decide as Ha; [subst|naive_solver]. rewrite Ho. destruct (nlookup t api' h) as [k2|] eqn:E2; simpl; [|naive_solver].
    case_decide; naive_solver.
  - case_decide as Ha; [subst|naive_solver]. rewrite lookup_insert. case_decide as Hh; [subst h|].
    + split; [naive_solver|]. intros [?|[Hl Hk]]; [naive_solver|].
      rewrite Ho, Hl in E1. simpl in E1. case_decide; naive_solver.
    + rewrite Ho. destruct (nlookup t api' h) as [k2|] eqn:E2; simpl; [|naive_solver]. case_decide; naive_solver.
Qed.

Lemma tableOp_lookup op t api h k :
  nlookup (tableOp op t).1 api h = Some k <->
    (exists k0, op = KOStore api k0 /\ k = normalKey k0 /\ h = ak_APIKey k /\ (tableOp op t).2 = None) \/
    (nlookup t api h = Some k /\ keepsKey api (ak_Name k) h op).
Proof.
  destruct op as [api' k'|api' plain|api'|]; cbn [tableOp fst snd].
  - rewrite tableStore_lookup. naive_solver.
  - unfold tableRevoke. rewrite nlookup_ndelete. cbn [keepsKey]. generalize (ComputeAPIKeyHash plain). intros h'.
    destruct (decide _) as [[-> ->]|Hd].
    + split; [done|]. intros [(k0&?&_)|[_ [?|?]]]; done.
    + split; [intros Hk; right; split; [done|]|intros [(k0&?&_)|[? _]]; done].
      destruct (decide (api' = api)) as [->|]; [right|by left]. intros ->. by apply Hd.
  - rewrite nlookup_delete. cbn [keepsKey]. destruct (decide _); split; naive_solver.
  - rewrite nlookup_empty. cbn [keepsKey]. naive_solver.
Qed.

(** The entries of a table: the last successful issue not withdrawn since. *)
Lemma tableOps_lookup ops api h k :
  nlookup (tableOps ops ∅) api h = Some k <->
    exists pre k0 post, ops = (pre ++ KOStore api k0 :: post)%list /\ k = normalKey k0 /\ h = ak_APIKey k /\
      (tableStore api k0 (tableOps pre ∅)).2 = None /\ Forall (keepsKey api (ak_Name k) h) post.
Proof.
  induction ops as [|op ops IH] using rev_ind.
  { simpl. rewrite nlookup_empty. split; [done|]. intros ([]&?&?&?&_); done. }
  unfold tableOps. rewrite foldl_app. cbn [foldl]. fold (tableOps ops ∅). rewrite tableOp_lookup, IH. split.
  - intros [(k0&->&->&->&Hn)|[(pre&k0&post&->&->&->&Hn&Hp) Hk]].
    + exists ops, k0, []. simpl in Hn. eauto.
    + exists pre, k0, (post ++ [op])%list. rewrite <- app_assoc. split_and!; try done.
      apply Forall_app. by rewrite Forall_singleton.
  - intros (pre&k0&post&Hops&->&->&Hn&Hp). destruct post as [|op' post _] using rev_ind.
    + apply app_inj_tail in Hops as [-> ->]. left. eauto.
    + rewrite app_comm_cons, app_assoc in Hops. apply app_inj_tail in Hops as [-> ->].
      rewrite Forall_app, Forall_singleton in Hp. destruct Hp as [Hp Hk]. right. split; [|done]. eauto 10.
Qed.

(** ** Validation *)

Definition accepts (now : Z) (api : string) (issuer : list string) (k : APIKey) : Prop :=
  ak_APIId k = api /\ ak_Status k = Active /\ (forall e, ak_ExpiresAt k = Some e -> (now <= e)%Z) /\
  (forall i, head issuer = Some i -> i <> "" -> ak_Issuer k = Some i).

Lemma cloneAPIKey_eq k : cloneAPIKey k = k.
Proof. destruct k as [? ? ? ? ? ? ? ? ? ? ? ? e ? i ?]. unfold cloneAPIKey. simpl. by destruct e, i. Qed.

Lemma issuer_check (issuer : list string) (k : APIKey) :
  match issuer with
  | i :: _ => negb (String.eqb i "") && match ak_Issuer k with Some i' => negb (String.eqb i' i) | None => true end
  | [] => false
  end = false <-> (forall i, head issuer = Some i -> i <> "" -> ak_Issuer k = Some i).
Proof.
  destruct issuer as [|i l]; simpl; [naive_solver|]. destruct (String.eqb_spec i "") as [E|E]; simpl; [naive_solver|].
  destruct (ak_Issuer k) as [i'|]; [|naive_solver]. destruct (String.eqb_spec i' i); simpl; naive_solver.
Qed.

Lemma expiry_check now (k : APIKey) :
  match ak_ExpiresAt k with Some e => (e <? now)%Z | None => false end = false <->
  (forall e, ak_ExpiresAt k = Some e -> (now <= e)%Z).
Proof. destruct (ak_ExpiresAt k) as [e|]; [|naive_solver]. rewrite Z.ltb_ge. naive_solver. Qed.

(** Case analysis on the test of the outermost conditional. *)
Ltac case_if H := lazymatch goal with |- context [if ?b then _ else _] => destruct b eqn:H end.

Lemma active_not_expired s : s = Active -> String.eqb s Expired = false.
Proof. by intros ->. Qed.

Lemma resolve_accepts now api op meth plain issuer s k :
  ResolveValidatedAPIKey now api op meth plain issuer s = inr (Some k) <->
    TrimSpace plain <> "" /\ nlookup (keyTable s) api (sha256_hex (TrimSpace plain)) = Some k /\ accepts now api issuer k.
Proof.
  unfold ResolveValidatedAPIKey. rewrite ComputeAPIKeyHash_trim. unfold ComputeAPIKeyHash.
  destruct (String.eqb_spec (TrimSpace plain) "") as [E|E]; [naive_solver|].
  destruct (String.eqb_spec (sha256_hex (TrimSpace plain)) "") as [E'|E']; [by apply sha256_hex_nonempty in E'|].
  rewrite nlookup_keyTable. destruct (nlookup (apiKeysByAPI s) api _) as [p|]; cbn [fmap option_fmap option_map]; [|naive_solver].
  cbv zeta. rewrite cloneAPIKey_eq. generalize (key_at s p). intros k'. unfold accepts.
  rewrite <- (issuer_check issuer k), <- (expiry_check now k). split.
  - destruct (String.eqb_spec (ak_APIId k') api); [|done]. cbn [negb]. case_if Hi; [done|].
    destruct (String.eqb_spec (ak_Status k') Active) as [Ha|]; [|done]. cbn [negb].
    rewrite active_not_expired by done. cbn [orb]. case_if He; [done|]. intros [= <-]. done.
  - intros (_&[= ->]&Ha&Hs&He&Hi). rewrite Hi, active_not_expired, He, Ha, Hs, !String.eqb_refl by done. done.
Qed.

(** ** Entity identifiers *)

Lemma split_last_None c s : split_last c s = None -> String_contains_byte c s = false.
Proof.
  induction s as [|d s IH]; simpl; [done|]. destruct (split_last c s) as [[]|]; [done|]. rewrite Ascii.eqb_sym.
  destruct (Ascii.eqb c d); [done|]. intros _. by apply IH.
Qed.

(** The last separator: the text after it has none. *)
Lemma split_last_spec c s l r :
  split_last c s = Some (l, r) <-> s = l +:+ String c r /\ String_contains_byte c r = false.
Proof.
  revert l r. induction s as [|d s IH]; intros l r; simpl.
  { split; [done|]. intros [E _]. by destruct l. }
  destruct (split_last c s) as [[l' r']|] eqn:Es.
  - pose proof (proj1 (IH l' r') eq_refl) as [-> Hr]. split.
    + intros [= <- <-]. done.
    + intros [E Hn]. destruct l as [|d' l].
      * injection E as -> <-. rewrite String_contains_byte_append in Hn. simpl in Hn.
        rewrite Ascii.eqb_refl in Hn. by destruct (String_contains_byte c l').
      * injection E as -> E. pose proof (proj2 (IH l r) (conj E Hn)) as [= -> ->]. done.
  - apply split_last_None in Es as Hs.
    destruct (Ascii.eqb_spec d c) as [->|Hd].
    + split; [by intros [= <- <-]|]. intros [E Hn]. destruct l as [|d' l]; [by injection E as ->|].
      injection E as -> E. pose proof (proj2 (IH l r) (conj E Hn)). done.
    + split; [done|]. intros [E Hn]. destruct l as [|d' l]; [by injection E as Ed _; rewrite Ed in Hd|].
      injection E as -> E. pose proof (proj2 (IH l r) (conj E Hn)). done.
Qed.

(** ** Theorems *)

(** An entity identifier of an API key event parses exactly when it is
    the identifier built from two non-empty parts whose second has no
    underscore, and it parses to those parts. *)
Theorem entity_id_round_trip e api key :
  ParseAPIKeyEntityID e = inr (api, key) <->
    e = BuildAPIKeyEntityID api key /\ api <> "" /\ key <> "" /\ String_contains_byte "_" key = false.
Proof.
  unfold ParseAPIKeyEntityID, BuildAPIKeyEntityID. change ("_" +:+ key) with (String "_" key). split.
  - destruct (split_last "_" e) as [[l r]|] eqn:E; [|done]. apply split_last_spec in E as [-> Hr].
    destruct (String.eqb_spec l ""), (String.eqb_spec r ""); try done. by intros [= <- <-].
  - intros (->&Ha&Hk&Hn). rewrite (proj2 (split_last_spec "_" _ api key) (conj eq_refl Hn)).
    by rewrite (proj2 (String.eqb_neq _ _) Ha), (proj2 (String.eqb_neq _ _) Hk).
Qed.

(** C33: the store of API keys refines a table of keys by API and digest:
    after any sequence of operations it represents the table the same
    operations build, and the next operation has the effect, and the error,
    of the table's. *)
Theorem key_store_refines_table ops op :
  let s := runKeyOps ops NewAPIkeyStore in
  keyTable s = tableOps ops ∅ /\
  (keyTable (runKeyOp op s).1, (runKeyOp op s).2) = tableOp op (tableOps ops ∅).
Proof.
  intros s. destruct (key_ops_refine ops _ keysOk_new) as [Ht Hok]. rewrite keyTable_new in Ht.
  split; [done|]. rewrite <- Ht. by apply key_op_refines.
Qed.

(** A credential is accepted exactly when a key with its SHA-256 digest
    was issued for the API, nothing since has replaced, revoked or removed
    it, it is bound to this API, active, not expired, and, when an issuer is
    required, from that issuer. *)
Theorem accepted_keys_are_live ops now api op meth plain issuer k :
  ResolveValidatedAPIKey now api op meth plain issuer (runKeyOps ops NewAPIkeyStore) = inr (Some k) <->
    accepts now api issuer k /\ TrimSpace plain <> "" /\ ak_APIKey k = sha256_hex (TrimSpace plain) /\
    exists pre k0 post, ops = (pre ++ KOStore api k0 :: post)%list /\ k = normalKey k0 /\
      (runKeyOp (KOStore api k0) (runKeyOps pre NewAPIkeyStore)).2 = None /\
      Forall (keepsKey api (ak_Name k) (ak_APIKey k)) post.
Proof.
  assert (forall pre k0, (runKeyOp (KOStore api k0) (runKeyOps pre NewAPIkeyStore)).2 = (tableStore api k0 (tableOps pre ∅)).2) as Herr.
  { intros pre k0. destruct (key_ops_refine pre _ keysOk_new) as [Ht Hok]. rewrite keyTable_new in Ht.
    destruct (key_op_refines (KOStore api k0) _ Hok) as [Hop _]. rewrite Ht in Hop. cbn [tableOp] in Hop. by rewrite <- Hop. }
  destruct (key_ops_refine ops _ keysOk_new) as [Ht _]. rewrite keyTable_new in Ht.
  rewrite resolve_accepts, Ht, tableOps_lookup. split.
  - intros (Hp&(pre&k0&post&->&->&Hh&Hn&Hf)&Ha). rewrite <- Hh in *. split_and!; try done.
    exists pre, k0, post. by rewrite Herr.
  - intros (Ha&Hp&Hh&pre&k0&post&->&->&Hn&Hf). rewrite <- Hh. split_and!; try done.
    exists pre, k0, post. by rewrite <- Herr.
Qed.

(** Regenerating a key whose new digest belongs to another key of the
    API fails, and the key to be regenerated is lost: it is removed before
    the conflict is detected. *)
Theorem failed_regeneration_loses_key ops api k old other hash :
  let s := runKeyOps ops NewAPIkeyStore in
  nlookup (keyTable s) api hash = Some old -> ak_Name old = ak_Name k ->
  nlookup (keyTable s) api (TrimSpace (ak_APIKey k)) = Some other -> ak_Name other <> ak_Name k ->
  let '(s', e) := runKeyOp (KOStore api k) s in
  e = Some ErrConflict /\ nlookup (keyTable s') api hash = None.
Proof.
  intros s Hold Hn Hoth Hno. destruct (key_ops_refine ops _ keysOk_new) as [_ Hok]. fold s in Hok.
  destruct (key_op_refines (KOStore api k) s Hok) as [Hop _]. destruct (runKeyOp (KOStore api k) s) as [s' e].
  cbn [fst snd tableOp] in Hop. unfold tableStore in Hop. change (ak_APIKey (normalKey k)) with (TrimSpace (ak_APIKey k)) in Hop.
  destruct (String.eqb_spec (TrimSpace (ak_APIKey k)) "") as [E|E].
  { rewrite E in Hoth. by rewrite nlookup_keyTable, keyTable_no_empty_hash in Hoth. }
  rewrite lookup_othersOf, Hoth in Hop. cbn [mbind option_bind] in Hop. rewrite decide_False in Hop by done.
  injection Hop as -> ->. split; [done|]. rewrite nlookup_insert, decide_True, lookup_othersOf by done.
  rewrite Hold. cbn [mbind option_bind]. by rewrite decide_True.
Qed.

End Theorems.

(** ** A concrete store *)

#[local] Existing Instance MapRange_list.

Definition sampleKey (id name digest : string) : APIKey :=
  mkAPIKey id name name digest "orders" "" "" "*" Active 0 "admin" 0 (Some 100%Z) "local" None "ALL".

Definition blueKey : APIKey := sampleKey "1" "blue" "d1".
Definition greenKey : APIKey := sampleKey "2" "green" "d2".
Definition sampleOps : list KeyOp := [KOStore "orders" blueKey; KOStore "orders" greenKey].

Lemma failed_regeneration_loses_key_witness :
  let s := runKeyOps sampleOps NewAPIkeyStore in
  let '(s', e) := runKeyOp (KOStore "orders" (sampleKey "1" "blue" "d2 ")) s in
  e = Some ErrConflict /\ nlookup (keyTable s') "orders" "d1" = None.
Proof.
  apply (failed_regeneration_loses_key sampleOps "orders" (sampleKey "1" "blue" "d2 ") blueKey greenKey "d1").
  - vm_compute. reflexivity.
  - reflexivity.
  - vm_compute. reflexivity.
  - intros [=].
Defined.
