(* ===== verification/Subscriptions.v ===== *)
(** * Subscriptions: the policies' view of API subscriptions

    src/sdk/core/policyengine/subscription_store.go and subscription_xds.go:
    a table from API and subscription token, and from API and application, to
    the subscription, replaced as a whole by every snapshot. *)

From stdpp Require Import base gmap strings list fin_maps.
From S2P Require Import Prelude GoStrings Values NestedMap Sha256.

#[local] Set Warnings "-register-all".

Open Scope string_scope.

Record SubscriptionData : Type := mkSubscriptionData {
  sd_APIId : string;
  sd_ApplicationId : string;
  sd_SubscriptionToken : string;
  sd_Status : string;
  sd_ThrottleLimitCount : Z;
  sd_ThrottleLimitUnit : string;
  sd_StopOnQuotaReach : bool;
  sd_PlanName : string;
  sd_BillingCustomerId : option string;
  sd_BillingSubscriptionId : option string
}.

Record SubscriptionEntry : Type := mkSubscriptionEntry {
  se_Status : string;
  se_ThrottleLimitCount : Z;
  se_ThrottleLimitUnit : string;
  se_StopOnQuotaReach : bool;
  se_PlanName : string;
  se_BillingCustomerID : option string;
  se_BillingSubscriptionID : option string
}.

Record SubscriptionStore : Type := mkSubscriptionStore {
  appData : nmap SubscriptionEntry;
  tokenData : nmap SubscriptionEntry
}.

Definition NewSubscriptionStore : SubscriptionStore := mkSubscriptionStore ∅ ∅.

(** [HashSubscriptionToken]. *)
Definition HashSubscriptionToken (token : string) : string := sha256_hex token.

(** The entry of a subscription. *)
Definition entryOf (sub : SubscriptionData) : SubscriptionEntry :=
  mkSubscriptionEntry (sd_Status sub) (sd_ThrottleLimitCount sub) (sd_ThrottleLimitUnit sub) (sd_StopOnQuotaReach sub)
    (sd_PlanName sub) (sd_BillingCustomerId sub) (sd_BillingSubscriptionId sub).

(** One iteration of the loop of [ReplaceAll]. *)
Definition addSubscription (data : SubscriptionStore) (sub : SubscriptionData) : SubscriptionStore :=
  if String.eqb (sd_APIId sub) "" then data
  else
    let entry := entryOf sub in
    let newTokenData := if String.eqb (sd_SubscriptionToken sub) "" then tokenData data
                        else ninsert (sd_APIId sub) (sd_SubscriptionToken sub) entry (tokenData data) in
    let newAppData := if String.eqb (sd_ApplicationId sub) "" then appData data
                      else ninsert (sd_APIId sub) (sd_ApplicationId sub) entry (appData data) in
    mkSubscriptionStore newAppData newTokenData.

Definition ReplaceAll (subs : list SubscriptionData) (s : SubscriptionStore) : SubscriptionStore :=
  foldl addSubscription NewSubscriptionStore subs.

(** Entries in the maps are never nil: [ReplaceAll] is the only writer. *)
Definition IsActiveByApplication (apiID applicationID : string) (s : SubscriptionStore) : bool * option SubscriptionEntry :=
  if String.eqb apiID "" || String.eqb applicationID "" then (false, None)
  else match appData s !! apiID with
       | None => (false, None)
       | Some apps => match apps !! applicationID with
                      | None => (false, None)
                      | Some entry => (String.eqb (se_Status entry) "ACTIVE", Some entry)
                      end
       end.

Definition IsActive (apiID applicationID : string) (s : SubscriptionStore) : bool :=
  (IsActiveByApplication apiID applicationID s).1.

Definition IsActiveByToken (apiID token : string) (s : SubscriptionStore) : bool * option SubscriptionEntry :=
  if String.eqb apiID "" || String.eqb token "" then (false, None)
  else match tokenData s !! apiID with
       | None => (false, None)
       | Some tokens => match tokens !! token with
                        | None => (false, None)
                        | Some entry => if String.eqb (se_Status entry) "ACTIVE" then (true, Some entry)
                                        else (false, None)
                        end
       end.

(** ** Properties *)

(** The last subscription of a snapshot with a given API and a given value
    of one of its fields. *)
Definition lastWith (field : SubscriptionData -> string) (api v : string) (subs : list SubscriptionData) : option SubscriptionData :=
  last (filter (fun d => sd_APIId d = api /\ field d = v) subs).

Lemma lastWith_snoc field api v subs d :
  lastWith field api v (subs ++ [d])%list =
  if decide (sd_APIId d = api /\ field d = v) then Some d else lastWith field api v subs.
Proof.
  unfold lastWith. rewrite filter_app. case_decide as Hd.
  - rewrite filter_cons_True by done. apply last_snoc.
  - rewrite filter_cons_False by done. by rewrite app_nil_r.
Qed.

(** What [ReplaceAll] builds, index by index. *)
Lemma ReplaceAll_lookup subs s api v : api <> "" -> v <> "" ->
  nlookup (tokenData (ReplaceAll subs s)) api v = entryOf <$> lastWith sd_SubscriptionToken api v subs /\
  nlookup (appData (ReplaceAll subs s)) api v = entryOf <$> lastWith sd_ApplicationId api v subs.
Proof.
  intros Ha Hv. unfold ReplaceAll. induction subs as [|d subs [IHt IHa]] using rev_ind; [done|].
  rewrite foldl_snoc, !lastWith_snoc. unfold addSubscription at 1 3.
  destruct (String.eqb_spec (sd_APIId d) "") as [E|E].
  { rewrite !decide_False by (intros [<- _]; done). done. }
  cbn [tokenData appData]. split.
  - destruct (String.eqb_spec (sd_SubscriptionToken d) "") as [Et|Et].
    + rewrite decide_False by (intros [_ <-]; done). done.
    + rewrite nlookup_ninsert. by case_decide.
  - destruct (String.eqb_spec (sd_ApplicationId d) "") as [Et|Et].
    + rewrite decide_False by (intros [_ <-]; done). done.
    + rewrite nlookup_ninsert. by case_decide.
Qed.

Lemma IsActiveByToken_lookup api v s : api <> "" -> v <> "" ->
  IsActiveByToken api v s = match nlookup (tokenData s) api v with
                            | Some e => if String.eqb (se_Status e) "ACTIVE" then (true, Some e) else (false, None)
                            | None => (false, None)
                            end.
Proof.
  intros Ha Hv. unfold IsActiveByToken, nlookup. rewrite (proj2 (String.eqb_neq _ _) Ha), (proj2 (String.eqb_neq _ _) Hv).
  simpl. by destruct (tokenData s !! api).
Qed.

Lemma IsActiveByApplication_lookup api v s : api <> "" -> v <> "" ->
  IsActiveByApplication api v s = match nlookup (appData s) api v with
                                  | Some e => (String.eqb (se_Status e) "ACTIVE", Some e)
                                  | None => (false, None)
                                  end.
Proof.
  intros Ha Hv. unfold IsActiveByApplication, nlookup.
  rewrite (proj2 (String.eqb_neq _ _) Ha), (proj2 (String.eqb_neq _ _) Hv).
  simpl. by destruct (appData s !! api).
Qed.

(** After a snapshot, a token or an application counts as subscribed to
    an API exactly when the last subscription of the snapshot for it is
    active, whatever the store held before; a token comes with the plan of
    that subscription. *)
Theorem active_subscriptions_are_the_snapshots subs s api v :
  (forall e, IsActiveByToken api v (ReplaceAll subs s) = (true, Some e) <->
     api <> "" /\ v <> "" /\
     exists d, lastWith sd_SubscriptionToken api v subs = Some d /\ sd_Status d = "ACTIVE" /\ e = entryOf d) /\
  (IsActive api v (ReplaceAll subs s) = true <->
     api <> "" /\ v <> "" /\
     exists d, lastWith sd_ApplicationId api v subs = Some d /\ sd_Status d = "ACTIVE").
Proof.
  destruct (decide (api = "" \/ v = "")) as [Hempty|Hne].
  { unfold IsActive, IsActiveByApplication, IsActiveByToken.
    rewrite (proj2 (orb_true_iff _ _)) by (rewrite !String.eqb_eq; done).
    split; [intros e|]; (split; [done|]); intros (Ha&Hv&_); by destruct Hempty. }
  assert (api <> "" /\ v <> "") as [Ha Hv] by tauto.
  destruct (ReplaceAll_lookup subs s api v Ha Hv) as [Ht Hp].
  unfold IsActive. rewrite IsActiveByToken_lookup, IsActiveByApplication_lookup, Ht, Hp by done.
  generalize "ACTIVE". intros active. split; [intros e|].
  - destruct (lastWith _ api v subs) as [d|]; simpl; [|split; [done|intros (_&_&d&[=]&_)]].
    destruct (String.eqb_spec (sd_Status d) active) as [Hd|Hd]; split.
    + intros [= <-]. eauto 6.
    + intros (_&_&d'&[= <-]&_&->). done.
    + done.
    + intros (_&_&d'&[= <-]&?&_). contradiction.
  - destruct (lastWith sd_ApplicationId api v subs) as [d|]; simpl; [|split; [intros [=]|intros (_&_&d&[=]&_)]].
    rewrite String.eqb_eq. split; [eauto 6|]. intros (_&_&d'&[= <-]&?). done.
Qed.

(** An inactive application comes back with its entry. *)
Example inactive_application_entry :
  let d := mkSubscriptionData "orders" "app" "" "INACTIVE" 0 "" false "gold" None None in
  IsActiveByApplication "orders" "app" (ReplaceAll [d] NewSubscriptionStore) = (false, Some (entryOf d)).
Proof. reflexivity. Qed.
