(* ===== verification/WebhookSecrets.v ===== *)
(** * WebhookSecrets: the store of webhook signing secrets

    src/common/webhooksecret/store.go: the plaintext secrets of every API by
    name, several of which may be valid at once while a secret is rotated.
    Names, API identifiers and secrets are trimmed on the way in, so that an
    entry of the store is never blank; a snapshot of a store restores it. *)

From stdpp Require Import base gmap strings list fin_maps.
From Stdlib Require Import Ascii.
From S2P Require Import Prelude GoStrings Values NestedMap ApiKeys.

#[local] Set Warnings "-register-all".

Open Scope string_scope.

Definition SecretNotFound : string := "webhook secret not found".

(** [secretsByAPI]. *)
Abbreviation WebhookSecretStore := (nmap string).

Definition NewWebhookSecretStore : WebhookSecretStore := ∅.

Definition Store (apiId name plaintext : string) : GoM WebhookSecretStore unit :=
  let apiId := TrimSpace apiId in
  let name := TrimSpace name in
  let plaintext := TrimSpace plaintext in
  if String.eqb apiId "" then fail (ErrInvalidInput +:+ ": apiId cannot be empty")
  else if String.eqb name "" then fail (ErrInvalidInput +:+ ": name cannot be empty")
  else if String.eqb plaintext "" then fail (ErrInvalidInput +:+ ": plaintext cannot be empty")
  else modify (ninsert apiId name plaintext).

Definition Remove (apiId name : string) : GoM WebhookSecretStore unit :=
  let apiId := TrimSpace apiId in
  let name := TrimSpace name in
  s ← get;
  match s !! apiId with
  | None => fail SecretNotFound
  | Some m => match m !! name with
              | None => fail SecretNotFound
              | Some _ => put (ndelete apiId name s)
              end
  end.

Definition RemoveAllByAPI (apiId : string) : GoM WebhookSecretStore unit :=
  modify (delete (TrimSpace apiId)).

Definition ClearAll : GoM WebhookSecretStore unit := put ∅.

(** [GetAll]: a copy of both levels. *)
Definition GetAll (s : WebhookSecretStore) : WebhookSecretStore := s.

Section Iteration.
Context `{MapRange}.

Definition GetAllByAPI (apiId : string) (s : WebhookSecretStore) : list string :=
  match s !! TrimSpace apiId with
  | None => []
  | Some m => (range m).*2
  end.

(** The inner loop of [ReplaceAll]. *)
Definition cloneSecrets (secrets : gmap string string) : GoM WebhookSecretStore (gmap string string) :=
  for_range (fun _ '(name, plaintext) clone =>
    let name := TrimSpace name in
    let plaintext := TrimSpace plaintext in
    if String.eqb name "" then fail (ErrInvalidInput +:+ ": secret name cannot be empty")
    else if String.eqb plaintext "" then fail (ErrInvalidInput +:+ ": secret plaintext cannot be empty")
    else mret (Continue (<[name := plaintext]> clone))) 0 (range secrets) ∅.

Definition ReplaceAll (newMap : gmap string (gmap string string)) : GoM WebhookSecretStore unit :=
  replacement ← for_range (fun _ '(apiId, secrets) replacement =>
      let apiId := TrimSpace apiId in
      if String.eqb apiId "" then fail (ErrInvalidInput +:+ ": apiId cannot be empty")
      else if decide (size secrets = 0) then mret (Continue replacement)
      else clone ← cloneSecrets secrets;
           mret (Continue (<[apiId := clone]> replacement))) 0 (range newMap) ∅;
  put replacement.

End Iteration.

Definition BuildWebhookSecretEntityID (artifactUUID secretUUID secretName : string) : string :=
  artifactUUID +:+ "_" +:+ secretUUID +:+ "_" +:+ secretName.

(** What precedes and what follows the first occurrence of a byte: one cut of
    [strings.SplitN]. *)
Fixpoint cutFirst (c : ascii) (s : string) : option (string * string) :=
  match s with
  | EmptyString => None
  | String d s' => if Ascii.eqb d c then Some ("", s')
                   else match cutFirst c s' with Some (l, r) => Some (String d l, r) | None => None end
  end.

(** [strings.SplitN(s, sep, n)] for a one-byte separator. *)
Fixpoint SplitN (c : ascii) (n : nat) (s : string) : list string :=
  match n with
  | O => []
  | 1 => [s]
  | S n' => match cutFirst c s with Some (l, r) => l :: SplitN c n' r | None => [s] end
  end.

Definition ParseWebhookSecretEntityID (entityID : string) : string + (string * string * string) :=
  match SplitN "_" 3 entityID with
  | [a; b; c] => if String.eqb a "" || String.eqb b "" || String.eqb c ""
                 then inl ("invalid webhook secret entity ID: " +:+ Quote entityID)
                 else inr (a, b, c)
  | _ => inl ("invalid webhook secret entity ID: " +:+ Quote entityID)
  end.

(** ** Entity identifiers *)

Lemma cutFirst_spec c s l r :
  cutFirst c s = Some (l, r) <-> s = l +:+ String c r /\ String_contains_byte c l = false.
Proof.
  revert l. induction s as [|d s IH]; intros l; simpl.
  { split; [done|]. intros [E _]. by destruct l. }
  destruct (Ascii.eqb_spec d c) as [->|Hd].
  - split; [by intros [= <- <-]|]. intros [E Hl]. destruct l as [|d l]; [by injection E as ->|].
    injection E as -> _. simpl in Hl. by rewrite Ascii.eqb_refl in Hl.
  - destruct l as [|d' l].
    { split; [by destruct (cutFirst c s) as [[]|]|]. intros [E _]. by injection E as Ed _. }
    rewrite append_cons. simpl. split.
    + destruct (cutFirst c s) as [[l' r']|] eqn:E; [|done]. intros [= <- <- <-].
      destruct (proj1 (IH l') eq_refl) as [-> Hl]. rewrite Hl, orb_false_r. split; [done|].
      apply Ascii.eqb_neq. congruence.
    + intros [E Hl]. injection E as -> E. apply orb_false_iff in Hl as [_ Hl].
      by rewrite (proj2 (IH l) (conj E Hl)).
Qed.

(** An entity identifier of a webhook secret event parses to three parts
    exactly when it was built from them, none is empty and the two UUIDs have
    no underscore; the name may have some. *)
Theorem webhook_entity_id_round_trip e a b c :
  ParseWebhookSecretEntityID e = inr (a, b, c) <->
    e = BuildWebhookSecretEntityID a b c /\ a <> "" /\ b <> "" /\ c <> "" /\
    String_contains_byte "_" a = false /\ String_contains_byte "_" b = false.
Proof.
  unfold ParseWebhookSecretEntityID, BuildWebhookSecretEntityID. cbn [SplitN].
  change ("_" +:+ b +:+ "_" +:+ c) with (String "_" (b +:+ String "_" c)). split.
  - destruct (cutFirst "_" e) as [[l r]|] eqn:E1; [|done].
    destruct (cutFirst "_" r) as [[l' r']|] eqn:E2; [|done].
    apply cutFirst_spec in E1 as [-> H1]. apply cutFirst_spec in E2 as [-> H2].
    destruct (String.eqb_spec l ""), (String.eqb_spec l' ""), (String.eqb_spec r' ""); try done. by intros [= <- <- <-].
  - intros (->&Ha&Hb&Hc&Hna&Hnb). rewrite (proj2 (cutFirst_spec "_" _ a _) (conj eq_refl Hna)).
    rewrite (proj2 (cutFirst_spec "_" _ b c) (conj eq_refl Hnb)).
    by rewrite (proj2 (String.eqb_neq _ _) Ha), (proj2 (String.eqb_neq _ _) Hb), (proj2 (String.eqb_neq _ _) Hc).
Qed.

(** ** The content of a store *)

Definition clean (x : string) : Prop := TrimSpace x = x /\ x <> "".

Definition secretsOk (s : WebhookSecretStore) : Prop :=
  nwf s /\ forall api name p, nlookup s api name = Some p -> clean api /\ clean name /\ clean p.

Lemma TrimSpace_clean x : TrimSpace x <> "" -> clean (TrimSpace x).
Proof. split; [apply TrimSpace_idem|done]. Qed.

Lemma clean_eqb x : clean x -> TrimSpace x = x /\ String.eqb x "" = false.
Proof. intros [Ht Hn]. split; [done|by apply String.eqb_neq]. Qed.

Lemma secretsOk_empty : secretsOk ∅.
Proof. split; [apply nwf_empty|]. intros api name p. by rewrite nlookup_empty. Qed.

Lemma secretsOk_Store api name p s : match Store api name p s with
                                     | Ok s' _ | Err s' _ => secretsOk s -> secretsOk s'
                                     | Panic => False
                                     end.
Proof.
  unfold Store. destruct (String.eqb_spec (TrimSpace api) ""); [exact id|].
  destruct (String.eqb_spec (TrimSpace name) ""); [exact id|]. destruct (String.eqb_spec (TrimSpace p) ""); [exact id|].
  intros [Hwf Hc]. split; [by apply nwf_ninsert|]. intros api' name' p'. rewrite nlookup_ninsert.
  case_decide as E; [|apply Hc]. destruct E as [<- <-]. intros [= <-]. split_and!; by apply TrimSpace_clean.
Qed.

(** Removing entries keeps a store well formed. *)
Lemma secretsOk_incl s s' :
  nwf s' -> (forall api name p, nlookup s' api name = Some p -> nlookup s api name = Some p) -> secretsOk s -> secretsOk s'.
Proof. intros Hwf Hincl [_ Hc]. split; [done|]. eauto. Qed.

Section Reachable.
Context `{MapRange}.

Definition cleanEntries (c : gmap string string) : Prop := map_Forall (fun name p => clean name /\ clean p) c.

(** The clones of [ReplaceAll] hold trimmed entries, and at least one. *)
Lemma cloneSecrets_ok m s : match cloneSecrets m s with
                            | Ok s' c => s' = s /\ cleanEntries c /\ (m <> ∅ -> c <> ∅)
                            | Err s' _ => s' = s
                            | Panic => False
                            end.
Proof.
  unfold cloneSecrets. match goal with |- context [for_range ?b _ _ _ _] => set (body := b) end.
  assert (forall l i r, cleanEntries r -> match for_range body i l r s with
            | Ok s' c => s' = s /\ cleanEntries c /\ (l <> [] \/ r <> ∅ -> c <> ∅)
            | Err s' _ => s' = s
            | Panic => False
            end) as Hl.
  { induction l as [|[name p] l IH]; intros i r Hr.
    { simpl. split; [done|]. split; [done|]. by intros [?|?]. }
    assert (body i (name, p) r s = if String.eqb (TrimSpace name) "" then Err s (ErrInvalidInput +:+ ": secret name cannot be empty")
              else if String.eqb (TrimSpace p) "" then Err s (ErrInvalidInput +:+ ": secret plaintext cannot be empty")
              else Ok s (Continue (<[TrimSpace name := TrimSpace p]> r))) as Hstep
      by (unfold body; by repeat destruct (String.eqb _ _)).
    cbn [for_range]. unfold mbind, GoM_bind. rewrite Hstep. clear Hstep. destruct (String.eqb_spec (TrimSpace name) ""); [done|].
    destruct (String.eqb_spec (TrimSpace p) ""); [done|].
    specialize (IH (S i) (<[TrimSpace name := TrimSpace p]> r)).
    destruct (for_range body (S i) l _ s) as [s' c|s' e|].
    - destruct IH as (->&Hc&Hne); [apply map_Forall_insert_2; [split; by apply TrimSpace_clean|done]|].
      split; [done|]. split; [done|]. intros _. apply Hne. right. apply insert_non_empty.
    - apply IH, map_Forall_insert_2; [split; by apply TrimSpace_clean|done].
    - apply IH, map_Forall_insert_2; [split; by apply TrimSpace_clean|done]. }
  specialize (Hl (range m) 0 ∅ (map_Forall_empty _)). destruct (for_range body _ _ _ _) as [s' c|s' e|]; [|done|done].
  destruct Hl as (->&Hc&Hne). split; [done|]. split; [done|]. intros Hm. apply Hne. left. intros Hr. apply Hm.
  by rewrite <- (range_list_to_map m), Hr.
Qed.

Lemma cloneSecrets_clean m s : cleanEntries m -> cloneSecrets m s = Ok s m.
Proof.
  intros Hc. unfold cloneSecrets. rewrite <- (foldl_insert_range m) at 2. apply for_range_pure.
  intros i [name p] r Hin. apply elem_of_range in Hin. destruct (Hc _ _ Hin) as [Hn Hp].
  apply clean_eqb in Hn as [-> ->], Hp as [-> ->]. done.
Qed.

Lemma secretsOk_inner s api m : secretsOk s -> s !! api = Some m -> clean api /\ cleanEntries m /\ size m <> 0.
Proof.
  intros [Hwf Hc] Hm. assert (forall name p, m !! name = Some p -> clean api /\ clean name /\ clean p) as Hc'.
  { intros name p Hp. apply (Hc api name p). unfold nlookup. by rewrite Hm. }
  split_and!.
  - destruct (map_choose m (Hwf _ _ Hm)) as (name&p&Hp). apply (Hc' _ _ Hp).
  - intros name p Hp. apply (Hc' _ _ Hp).
  - intros E. apply map_size_empty_inv in E. by apply Hwf in Hm.
Qed.

(** A snapshot of a well-formed store restores it, over any store. *)
Lemma ReplaceAll_restores s s0 : secretsOk s -> ReplaceAll (GetAll s) s0 = Ok s tt.
Proof.
  intros Hok. unfold ReplaceAll, GetAll. unfold mbind, GoM_bind.
  rewrite (for_range_pure _ (fun acc kv => <[kv.1 := kv.2]> acc)); [by rewrite foldl_insert_range|].
  intros i [api m] r Hin. apply elem_of_range in Hin. destruct (secretsOk_inner _ _ _ Hok Hin) as (Ha&Hm&Hs).
  apply clean_eqb in Ha as [-> ->]. rewrite decide_False by done. simpl.
  by rewrite cloneSecrets_clean.
Qed.

Lemma secretsOk_outer api c s : clean api -> cleanEntries c -> c <> ∅ -> secretsOk s -> secretsOk (<[api := c]> s).
Proof.
  intros Ha Hc Hne [Hwf Hs]. split; [by apply map_Forall_insert_2|]. intros api' name p. rewrite nlookup_insert.
  case_decide as E; [subst|apply Hs]. intros Hp. split; [done|]. by apply (Hc name p).
Qed.

Lemma secretsOk_ReplaceAll m s : match ReplaceAll m s with
                                 | Ok s' _ => secretsOk s'
                                 | Err s' _ => s' = s
                                 | Panic => False
                                 end.
Proof.
  unfold ReplaceAll. unfold mbind, GoM_bind at 1.
  match goal with |- context [for_range ?b _ _ _ _] => pose proof (for_range_inv b secretsOk (range m) s) as Hinv end.
  match type of Hinv with ?P -> _ => assert P as Hb end.
  { intros i [api secrets] r _ Hr. cbv beta iota zeta. destruct (String.eqb_spec (TrimSpace api) ""); [done|].
    case_decide as Hs; [done|]. unfold mbind, GoM_bind. pose proof (cloneSecrets_ok secrets s) as Hc.
    destruct (cloneSecrets secrets s) as [s' c|s' e|]; [|done|done]. destruct Hc as (->&Hc&Hne). split; [done|].
    apply secretsOk_outer; [by apply TrimSpace_clean|done| |done]. apply Hne. intros ->. by rewrite map_size_empty in Hs. }
  specialize (Hinv Hb 0 ∅ secretsOk_empty). by destruct (for_range _ _ _ _ _) as [s' c|s' e|]; [destruct Hinv|..].
Qed.

(** ** Sequences of operations *)

Inductive SecretOp : Type :=
| SOStore (api name plaintext : string)
| SORemove (api name : string)
| SORemoveAllByAPI (api : string)
| SOReplaceAll (newMap : gmap string (gmap string string))
| SOClearAll.

Definition secretOp (op : SecretOp) : GoM WebhookSecretStore unit :=
  match op with
  | SOStore api name plaintext => Store api name plaintext
  | SORemove api name => Remove api name
  | SORemoveAllByAPI api => RemoveAllByAPI api
  | SOReplaceAll newMap => ReplaceAll newMap
  | SOClearAll => ClearAll
  end.

(** Callers report an error and carry on with the store as it is then. *)
Definition stateAfter {S A} (m : GoM S A) (s : S) : S :=
  match m s with Ok s' _ | Err s' _ => s' | Panic => s end.

Definition runSecretOps (ops : list SecretOp) (s : WebhookSecretStore) : WebhookSecretStore :=
  foldl (fun s op => stateAfter (secretOp op) s) s ops.

Lemma secretsOk_op op s : secretsOk s -> secretsOk (stateAfter (secretOp op) s).
Proof.
  intros Hok. unfold stateAfter. destruct op as [api name p|api name|api|m|]; simpl.
  - pose proof (secretsOk_Store api name p s) as Hs. destruct (Store api name p s); auto.
  - unfold Remove, mbind, GoM_bind, get. simpl. destruct (s !! TrimSpace api) as [m|] eqn:E; [|done].
    destruct (m !! TrimSpace name); [|done]. simpl. destruct Hok as [Hwf Hc].
    eapply (secretsOk_incl s); [by apply nwf_ndelete| |done]. intros api' name' p. rewrite nlookup_ndelete. by case_decide.
  - destruct Hok as [Hwf Hc]. eapply (secretsOk_incl s); [by apply nwf_delete| |done].
    intros api' name' p. rewrite nlookup_delete. by case_decide.
  - pose proof (secretsOk_ReplaceAll m s) as Hs. destruct (ReplaceAll m s); naive_solver.
  - apply secretsOk_empty.
Qed.

Lemma secretsOk_run ops : secretsOk (runSecretOps ops NewWebhookSecretStore).
Proof.
  unfold runSecretOps. induction ops as [|op ops IH] using rev_ind; [apply secretsOk_empty|].
  rewrite foldl_snoc. by apply secretsOk_op.
Qed.

(** A snapshot of a webhook secret store, taken after any sequence of
    operations, is accepted by any other store and makes it equal to the
    first; in particular no reachable store has a blank API, name or secret,
    which the snapshot would be refused for. *)
Theorem webhook_snapshot_restores ops s :
  ReplaceAll (GetAll (runSecretOps ops NewWebhookSecretStore)) s = Ok (runSecretOps ops NewWebhookSecretStore) tt.
Proof. apply ReplaceAll_restores, secretsOk_run. Qed.

(** The secrets a verification of a signature tries: those stored for the
    API and not withdrawn. *)
Lemma GetAllByAPI_spec s api p :
  p ∈ GetAllByAPI api s <-> exists name, nlookup s (TrimSpace api) name = Some p.
Proof.
  unfold GetAllByAPI, nlookup. destruct (s !! TrimSpace api) as [m|]; simpl.
  - rewrite list_elem_of_fmap. split.
    + intros ([name p']&->&Hin). exists name. by apply elem_of_range.
    + intros [name Hp]. exists (name, p). split; [done|]. by apply elem_of_range.
  - split; [by intros ?%elem_of_nil|]. by intros [? ?].
Qed.

(** Rotation: right after a secret is stored it is among the secrets a
    signature is checked against, and every secret stored before under
    another name of the API still is; the name's previous value no longer
    is, unless another name carries it. *)
Theorem rotation_keeps_other_secrets s api name p p' :
  match Store api name p s with
  | Ok s' _ => p' ∈ GetAllByAPI api s' <->
                 p' = TrimSpace p \/
                 exists name', name' <> TrimSpace name /\ nlookup s (TrimSpace api) name' = Some p'
  | Err s' _ => s' = s
  | Panic => False
  end.
Proof.
  unfold Store. destruct (String.eqb_spec (TrimSpace api) ""); [done|].
  destruct (String.eqb_spec (TrimSpace name) ""); [done|]. destruct (String.eqb_spec (TrimSpace p) ""); [done|].
  simpl. rewrite GetAllByAPI_spec. setoid_rewrite nlookup_ninsert. split.
  - intros [name' Hn]. case_decide as E; [left; by injection Hn|]. right. exists name'. split; [|done]. intros ->. by apply E.
  - intros [->|(name'&Hne&Hn)]; [exists (TrimSpace name); by rewrite decide_True|].
    exists name'. rewrite decide_False by (intros [_ E]; by rewrite E in Hne). done.
Qed.

End Reachable.
