(* ===== verification/LazyResources.v ===== *)
(** * LazyResources: the policies' store of lazily loaded resources

    src/sdk/core/policy/v1alpha2/lazy_resource.go: resources such as LLM
    provider templates, held twice: by the composite key [type:id] and by
    type and then identifier.  The two indexes have to describe the same
    resources, although two different pairs may have the same composite key. *)

From stdpp Require Import base gmap strings list fin_maps.
From S2P Require Import Prelude GoStrings Values NestedMap WebhookSecrets.

#[local] Set Warnings "-register-all".

Open Scope string_scope.

Record LazyResource : Type := mkLazyResource {
  lr_ID : string;
  lr_ResourceType : string;
  lr_Resource : gmap string Value
}.

Record LazyResourceStore : Type := mkLazyResourceStore {
  resources : gmap string LazyResource;
  resourcesByType : nmap LazyResource
}.

Definition ErrLazyResourceNotFound : string := "lazy resource not found".

Definition NewLazyResourceStore : LazyResourceStore := mkLazyResourceStore ∅ ∅.

Definition compositeKey (resourceType id : string) : string := resourceType +:+ ":" +:+ id.

Definition addToTypeMapping (r : LazyResource) (s : LazyResourceStore) : LazyResourceStore :=
  mkLazyResourceStore (resources s) (ninsert (lr_ResourceType r) (lr_ID r) r (resourcesByType s)).

Definition removeFromTypeMapping (r : LazyResource) (s : LazyResourceStore) : LazyResourceStore :=
  mkLazyResourceStore (resources s) (ndelete (lr_ResourceType r) (lr_ID r) (resourcesByType s)).

Definition set_resources (m : gmap string LazyResource) (s : LazyResourceStore) : LazyResourceStore :=
  mkLazyResourceStore m (resourcesByType s).

Definition StoreResource (resource : option LazyResource) : GoM LazyResourceStore unit :=
  match resource with
  | None => fail "resource cannot be nil"
  | Some r =>
      if String.eqb (lr_ID r) "" then fail "resource ID cannot be empty"
      else if String.eqb (lr_ResourceType r) "" then fail "resource type cannot be empty"
      else
        let key := compositeKey (lr_ResourceType r) (lr_ID r) in
        modify (fun s => match resources s !! key with
                         | Some existing => removeFromTypeMapping existing s
                         | None => s
                         end);;
        modify (fun s => set_resources (<[key := r]> (resources s)) s);;
        modify (addToTypeMapping r)
  end.

Definition GetResourceByIDAndType (id resourceType : string) (s : LazyResourceStore) : string + LazyResource :=
  match resources s !! compositeKey resourceType id with
  | Some resource => inr resource
  | None => inl ErrLazyResourceNotFound
  end.

Definition GetResourcesByType (resourceType : string) (s : LazyResourceStore) : gmap string LazyResource :=
  match resourcesByType s !! resourceType with
  | None => ∅
  | Some typeMap => map_copy_into ∅ typeMap
  end.

Definition GetAllResources (s : LazyResourceStore) : gmap string LazyResource := map_copy_into ∅ (resources s).

Definition RemoveResourceByIDAndType (id resourceType : string) : GoM LazyResourceStore unit :=
  let key := compositeKey resourceType id in
  s ← get;
  match resources s !! key with
  | None => fail ErrLazyResourceNotFound
  | Some resource => put (removeFromTypeMapping resource (set_resources (delete key (resources s)) s))
  end.

Definition ClearAll : GoM LazyResourceStore unit := put NewLazyResourceStore.

Section Iteration.
Context `{MapRange}.

(** The first resource of the iteration with this identifier. *)
Definition RemoveResource (id : string) : GoM LazyResourceStore unit :=
  s ← get;
  match list_find (fun kv => lr_ID kv.2 = id) (range (resources s)) with
  | None => fail ErrLazyResourceNotFound
  | Some (_, (keyToDelete, resourceToDelete)) =>
      put (removeFromTypeMapping resourceToDelete (set_resources (delete keyToDelete (resources s)) s))
  end.

Definition RemoveResourcesByType (resourceType : string) : GoM LazyResourceStore unit :=
  s ← get;
  match resourcesByType s !! resourceType with
  | None => mret tt
  | Some typeMap =>
      put (mkLazyResourceStore
             (foldl (fun m kv => delete (compositeKey resourceType kv.1) m) (resources s) (range typeMap))
             (delete resourceType (resourcesByType s)))
  end.

End Iteration.

(** One iteration of the loop of [ReplaceAll]. *)
Definition replaceStep (s : LazyResourceStore) (resource : option LazyResource) : LazyResourceStore :=
  match resource with
  | None => s
  | Some r => if String.eqb (lr_ID r) "" || String.eqb (lr_ResourceType r) "" then s
              else addToTypeMapping r
                     (set_resources (<[compositeKey (lr_ResourceType r) (lr_ID r) := r]> (resources s)) s)
  end.

Definition ReplaceAll (rs : list (option LazyResource)) : GoM LazyResourceStore unit := fun _ =>
  Ok (foldl replaceStep NewLazyResourceStore rs) tt.

(** ** The two indexes agree *)

Definition keyOf (r : LazyResource) : string := compositeKey (lr_ResourceType r) (lr_ID r).

(** Every entry of an index is filed under its own key, and the resources of
    the two indexes are the same. *)
Definition indexed (s : LazyResourceStore) : Prop :=
  nwf (resourcesByType s) /\
  (forall k r, resources s !! k = Some r -> k = keyOf r) /\
  (forall t i r, nlookup (resourcesByType s) t i = Some r <->
                 t = lr_ResourceType r /\ i = lr_ID r /\ resources s !! keyOf r = Some r).

Lemma indexed_new : indexed NewLazyResourceStore.
Proof. split; [apply nwf_empty|]. simpl. split; [done|]. intros. rewrite nlookup_empty. naive_solver. Qed.

(** Removing an entry from both indexes. *)
Lemma indexed_remove s k r :
  indexed s -> resources s !! k = Some r ->
  indexed (removeFromTypeMapping r (set_resources (delete k (resources s)) s)).
Proof.
  intros (Hwf&Hk&Ht) Hr. pose proof (Hk _ _ Hr) as ->. split; [by apply nwf_ndelete|]. simpl. split.
  - intros k' r'. rewrite lookup_delete_Some. intros [_ Hr']. by apply Hk.
  - intros t i r'. rewrite nlookup_ndelete, lookup_delete_Some. case_decide as Hd.
    + destruct Hd as [<- <-]. split; [done|]. intros (Et&Ei&Hne&_). exfalso. apply Hne. unfold keyOf. by rewrite Et, Ei.
    + rewrite Ht. split; [intros (->&->&Hr')|naive_solver]. split_and!; try done. intros E.
      rewrite E, Hr' in Hr. injection Hr as ->. by apply Hd.
Qed.

(** Adding an entry whose composite key is free. *)
Lemma indexed_add s r :
  indexed s -> resources s !! keyOf r = None ->
  indexed (addToTypeMapping r (set_resources (<[keyOf r := r]> (resources s)) s)).
Proof.
  intros (Hwf&Hk&Ht) Hr. split; [by apply nwf_ninsert|]. simpl. split.
  - intros k' r'. rewrite lookup_insert_Some. naive_solver.
  - intros t i r'. rewrite nlookup_ninsert, lookup_insert_Some. case_decide as Hd.
    + destruct Hd as [<- <-]. split; [intros [= <-]; auto|]. intros (Et&Ei&[[_ ->]|[Hne _]]); [done|].
      exfalso. apply Hne. unfold keyOf. by rewrite Et, Ei.
    + rewrite Ht. split; [intros (->&->&Hr')|].
      * split_and!; try done. right. split; [|done]. intros E. by rewrite E, Hr' in Hr.
      * intros (->&->&[[_ ->]|[_ Hr']]); [by exfalso; apply Hd|done].
Qed.

Lemma indexed_StoreResource o s : indexed s -> indexed (stateAfter (StoreResource o) s).
Proof.
  intros Hi. unfold stateAfter, StoreResource. destruct o as [r|]; [|done].
  destruct (String.eqb (lr_ID r) ""); [done|]. destruct (String.eqb (lr_ResourceType r) ""); [done|].
  simpl. fold (keyOf r). destruct (resources s !! keyOf r) as [r'|] eqn:E.
  - pose proof (indexed_remove s _ _ Hi E) as Hi'.
    pose proof (indexed_add _ r Hi') as Hadd. simpl in Hadd. rewrite lookup_delete_eq, insert_delete_eq in Hadd.
    by apply Hadd.
  - by apply indexed_add.
Qed.

(** Deleting the composite keys of a type. *)
Lemma lookup_delete_keys {A B} (f : string -> string) (l : list (string * A)) (m : gmap string B) k v :
  foldl (fun m kv => delete (f kv.1) m) m l !! k = Some v <-> m !! k = Some v /\ k ∉ (f ∘ fst) <$> l.
Proof.
  revert m. induction l as [|[i a] l IH]; intros m; simpl; [set_solver|].
  rewrite IH, lookup_delete_Some, not_elem_of_cons. naive_solver.
Qed.

(** [ReplaceAll] does not take an entry out of the type index when another
    one with the same composite key replaces it; when the pair is the same
    there is nothing to take out. *)
Definition distinctKeys (rs : list (option LazyResource)) : Prop :=
  forall r r', Some r ∈ rs -> Some r' ∈ rs -> keyOf r = keyOf r' ->
               lr_ResourceType r = lr_ResourceType r' /\ lr_ID r = lr_ID r'.

Lemma ninsert_ndelete {A} a b (v : A) m : nwf m -> ninsert a b v (ndelete a b m) = ninsert a b v m.
Proof. intros Hwf. apply nmap_eq; [auto with go..|]. intros a' b'. rewrite !nlookup_ninsert, nlookup_ndelete. by case_decide. Qed.

Lemma replaceStep_store s o :
  nwf (resourcesByType s) ->
  (forall r r', o = Some r -> resources s !! keyOf r = Some r' -> lr_ResourceType r' = lr_ResourceType r /\ lr_ID r' = lr_ID r) ->
  replaceStep s o = stateAfter (StoreResource o) s.
Proof.
  intros Hwf Ho. unfold replaceStep, stateAfter, StoreResource. destruct o as [r|]; [|done].
  destruct (String.eqb (lr_ID r) ""); [done|]. destruct (String.eqb (lr_ResourceType r) ""); [done|].
  simpl. fold (keyOf r). destruct (resources s !! keyOf r) as [r'|] eqn:E; [|done].
  destruct (Ho r r' eq_refl E) as [Ht Hi]. unfold addToTypeMapping. simpl. rewrite Ht, Hi. by rewrite ninsert_ndelete.
Qed.

(** Storing the resources of a list one after the other, skipping those that
    are refused. *)
Definition storeEach (rs : list (option LazyResource)) (s : LazyResourceStore) : LazyResourceStore :=
  foldl (fun s o => stateAfter (StoreResource o) s) s rs.

Lemma storeEach_snoc rs o s : storeEach (rs ++ [o])%list s = stateAfter (StoreResource o) (storeEach rs s).
Proof. unfold storeEach. by rewrite foldl_snoc. Qed.

Lemma indexed_storeEach rs s : indexed s -> indexed (storeEach rs s).
Proof.
  intros Hi. induction rs as [|o rs IH] using rev_ind; [done|]. rewrite storeEach_snoc. by apply indexed_StoreResource.
Qed.

Lemma storeEach_elem rs k r : resources (storeEach rs NewLazyResourceStore) !! k = Some r -> Some r ∈ rs.
Proof.
  induction rs as [|o rs IH] using rev_ind; [by simpl; rewrite lookup_empty|].
  rewrite storeEach_snoc, elem_of_app. unfold stateAfter, StoreResource. destruct o as [r'|]; [|auto].
  destruct (String.eqb (lr_ID r') ""); [auto|]. destruct (String.eqb (lr_ResourceType r') ""); [auto|].
  simpl. intros Hr. destruct (resources (storeEach rs NewLazyResourceStore) !! _) in Hr; simpl in Hr;
    apply lookup_insert_Some in Hr as [[_ <-]|[_ Hr]]; set_solver.
Qed.

Lemma ReplaceAll_storeEach rs s : distinctKeys rs -> ReplaceAll rs s = Ok (storeEach rs NewLazyResourceStore) tt.
Proof.
  intros Hd. unfold ReplaceAll. f_equal. induction rs as [|o rs IH] using rev_ind; [done|].
  rewrite foldl_snoc, storeEach_snoc, IH; [|intros r r' ??; apply Hd; set_solver].
  apply replaceStep_store; [apply (indexed_storeEach rs), indexed_new|].
  intros r r' -> Hr. pose proof (indexed_storeEach rs _ indexed_new) as (_&Hk&_).
  pose proof (Hk _ _ Hr) as E. apply storeEach_elem in Hr. apply Hd; [set_solver..|done].
Qed.

Section Sequences.
Context `{MapRange}.

Lemma indexed_RemoveResourcesByType t s : indexed s -> indexed (stateAfter (RemoveResourcesByType t) s).
Proof.
  intros Hi. unfold stateAfter, RemoveResourcesByType, mbind, GoM_bind, get. destruct (resourcesByType s !! t) as [m|] eqn:E; [|exact Hi].
  destruct Hi as (Hwf&Hk&Ht). simpl.
  assert (forall k, k ∈ (compositeKey t ∘ fst) <$> range m <->
                    exists r, resources s !! k = Some r /\ lr_ResourceType r = t) as Hdel.
  { intros k. rewrite list_elem_of_fmap. split.
    - intros ([i r]&->&Hin). apply elem_of_range in Hin. exists r.
      assert (nlookup (resourcesByType s) t i = Some r) as Hn by (unfold nlookup; by rewrite E).
      apply Ht in Hn as (->&->&Hr). done.
    - intros (r&Hr&<-). pose proof (Hk _ _ Hr) as ->. exists (lr_ID r, r). split; [done|]. apply elem_of_range.
      assert (nlookup (resourcesByType s) (lr_ResourceType r) (lr_ID r) = Some r) as Hn by (by apply Ht).
      unfold nlookup in Hn. by rewrite E in Hn. }
  split; [by apply nwf_delete|]. split; simpl.
  - intros k r. rewrite lookup_delete_keys. intros [Hr _]. by apply Hk.
  - intros t' i r. rewrite nlookup_delete, lookup_delete_keys, Hdel. case_decide as Hd.
    + subst t'. split; [done|]. intros (Et&_&Hr&Hn). exfalso. apply Hn. eauto.
    + rewrite Ht. split; [|naive_solver]. intros (Et&Ei&Hr). split_and!; try done. intros (r'&Hr'&Et').
      rewrite Hr in Hr'. injection Hr' as <-. by rewrite Et, Et' in Hd.
Qed.

Inductive ResourceOp : Type :=
| ROStore (r : option LazyResource)
| RORemove (id : string)
| RORemoveByIDAndType (id t : string)
| RORemoveByType (t : string)
| ROReplaceAll (rs : list (option LazyResource))
| ROClearAll.

Definition resourceOp (op : ResourceOp) : GoM LazyResourceStore unit :=
  match op with
  | ROStore r => StoreResource r
  | RORemove id => RemoveResource id
  | RORemoveByIDAndType id t => RemoveResourceByIDAndType id t
  | RORemoveByType t => RemoveResourcesByType t
  | ROReplaceAll rs => ReplaceAll rs
  | ROClearAll => ClearAll
  end.

Definition runResourceOps (ops : list ResourceOp) : LazyResourceStore :=
  foldl (fun s op => stateAfter (resourceOp op) s) NewLazyResourceStore ops.

(** Snapshots in which a composite key determines its resource. *)
Definition opDistinct (op : ResourceOp) : Prop :=
  match op with ROReplaceAll rs => distinctKeys rs | _ => True end.

Lemma indexed_op op s : opDistinct op -> indexed s -> indexed (stateAfter (resourceOp op) s).
Proof.
  intros Hd Hi. destruct op as [o|id|id t|t|rs|]; simpl.
  - by apply indexed_StoreResource.
  - unfold stateAfter, RemoveResource, mbind, GoM_bind, get. destruct (list_find _ _) as [[n [k r]]|] eqn:E; [|done].
    simpl. apply indexed_remove; [done|]. apply list_find_Some in E as (E&_&_).
    by apply elem_of_range, (list_elem_of_lookup_2 _ n).
  - unfold stateAfter, RemoveResourceByIDAndType, mbind, GoM_bind, get.
    destruct (resources s !! compositeKey t id) as [r|] eqn:E; [|done]. by apply indexed_remove.
  - by apply indexed_RemoveResourcesByType.
  - unfold stateAfter. rewrite ReplaceAll_storeEach by done. apply indexed_storeEach, indexed_new.
  - apply indexed_new.
Qed.

Lemma indexed_run ops : Forall opDistinct ops -> indexed (runResourceOps ops).
Proof.
  unfold runResourceOps. induction ops as [|op ops IH] using rev_ind; [intros _; apply indexed_new|].
  rewrite foldl_snoc, Forall_app, Forall_singleton. intros [Hops Hop]. by apply indexed_op; [|apply IH].
Qed.

(** After any sequence of operations the two indexes of the resource
    store list the same resources, each under its own type and identifier;
    the one condition is that no snapshot given to [ReplaceAll] has two
    different resources with the same composite key. *)
Theorem lazy_resource_indexes_agree ops :
  Forall opDistinct ops ->
  let s := runResourceOps ops in
  (forall t i r, GetResourcesByType t s !! i = Some r <->
                 t = lr_ResourceType r /\ i = lr_ID r /\ GetResourceByIDAndType i t s = inr r) /\
  (forall k r, GetAllResources s !! k = Some r -> k = keyOf r /\ GetResourcesByType (lr_ResourceType r) s !! lr_ID r = Some r).
Proof.
  intros Hops s. pose proof (indexed_run ops Hops) as (Hwf&Hk&Ht). fold s in Hwf, Hk, Ht.
  assert (forall t i, GetResourcesByType t s !! i = nlookup (resourcesByType s) t i) as Hby.
  { intros t i. unfold GetResourcesByType, nlookup, map_copy_into.
    destruct (resourcesByType s !! t) as [m|]; simpl; [by rewrite map_union_empty|by rewrite lookup_empty]. }
  split.
  - intros t i r. rewrite Hby, Ht. unfold GetResourceByIDAndType. split.
    + intros (->&->&Hr). fold (keyOf r). by rewrite Hr.
    + intros (->&->&Hr). fold (keyOf r) in Hr. destruct (resources s !! keyOf r); [|done]. by injection Hr as ->.
  - intros k r. unfold GetAllResources, map_copy_into. rewrite map_union_empty. intros Hr.
    pose proof (Hk _ _ Hr) as ->. split; [done|]. by rewrite Hby, Ht.
Qed.

End Sequences.

(** The condition is needed: a snapshot with both [llm:gpt] of type [a] and
    [gpt] of type [a:llm] leaves the first in the type index only. *)
Example colliding_snapshot :
  let r1 := mkLazyResource "llm:gpt" "a" ∅ in let r2 := mkLazyResource "gpt" "a:llm" ∅ in
  let s := stateAfter (ReplaceAll [Some r1; Some r2]) NewLazyResourceStore in
  GetResourcesByType "a" s !! "llm:gpt" = Some r1 /\ GetResourceByIDAndType "llm:gpt" "a" s = inr r2.
Proof. vm_compute. done. Qed.

#[local] Existing Instance MapRange_list.

Lemma lazy_resource_indexes_agree_witness :
  let r := mkLazyResource "gpt" "LlmProviderTemplate" ∅ in
  GetResourcesByType "LlmProviderTemplate" (runResourceOps [ROReplaceAll [Some r]; ROStore (Some r)]) !! "gpt" = Some r.
Proof.
  apply (lazy_resource_indexes_agree [ROReplaceAll [Some (mkLazyResource "gpt" "LlmProviderTemplate" ∅)];
                                      ROStore (Some (mkLazyResource "gpt" "LlmProviderTemplate" ∅))]).
  - repeat constructor; apply list_elem_of_singleton in H, H0; congruence.
  - vm_compute. done.
Defined.
