(* ===== verification/GoHeap.v ===== *)
(** * GoHeap: package container/heap

    The in-memory cache keeps its entries in a binary heap through
    [heap.Interface].  The interface is a type class; what an implementation
    promises is a second class, [HeapLaws], against which the sift loops are
    verified: they keep the heap order, permute the elements, stay in range
    and stop.  [Cache] discharges the laws for its heap of entries. *)

From stdpp Require Import base list sorting numbers.
From S2P Require Import Prelude.

#[local] Set Warnings "-register-all".

(** [heap.Interface], for a heap [H] of elements [X]. *)
Class HeapInterface (H X : Type) := {
  hLen : H -> nat;
  hLess : nat -> nat -> GoM H bool;
  hSwap : nat -> nat -> GoM H unit;
  hPush : X -> GoM H unit;
  hPop : GoM H X
}.

Section Operations.
Context {H X : Type} `{HeapInterface H X}.

(** The sift loops; running out of fuel counts as a panic. *)
Fixpoint up_loop (fuel j : nat) : GoM H unit :=
  match fuel with
  | O => panic
  | S fuel' =>
      let i := (j - 1) / 2 in (* parent *)
      if i =? j then mret tt
      else b ← hLess j i;
           if negb b then mret tt
           else hSwap i j;; up_loop fuel' i
  end.

Definition up (j : nat) : GoM H unit := up_loop (S j) j.

Fixpoint down_loop (fuel i n : nat) : GoM H nat :=
  match fuel with
  | O => panic
  | S fuel' =>
      let j1 := 2 * i + 1 in
      if n <=? j1 then mret i
      else
        let j2 := j1 + 1 in
        right ← (if j2 <? n then hLess j2 j1 else mret false);
        let j := if (right : bool) then j2 else j1 in
        b ← hLess j i;
        if negb b then mret i
        else hSwap i j;; down_loop fuel' j n
  end.

Definition down (i0 n : nat) : GoM H bool :=
  i ← down_loop (S n) i0 n; mret (i0 <? i).

Definition Push (x : X) : GoM H unit :=
  hPush x;; h ← get; up (hLen h - 1).

Definition Pop : GoM H X :=
  h ← get; let n := hLen h - 1 in hSwap 0 n;; down 0 n;; hPop.

(** The elements at index [i] out of the heap. *)
Definition Remove (i : nat) : GoM H X :=
  h ← get;
  let n := hLen h - 1 in
  (if n =? i then mret tt
   else hSwap i n;;
        moved ← down i n;
        if (moved : bool) then mret tt else up i);;
  hPop.

Definition Fix (i : nat) : GoM H unit :=
  h ← get;
  moved ← down i (hLen h);
  if (moved : bool) then mret tt else up i.

End Operations.

(** ** Lists as arrays *)

Definition swapped {A} (i j : nat) (l : list A) : list A :=
  match l !! i, l !! j with
  | Some x, Some y => <[i := y]> (<[j := x]> l)
  | _, _ => l
  end.

Lemma length_swapped {A} i j (l : list A) : length (swapped i j l) = length l.
Proof. unfold swapped. destruct (l !! i), (l !! j); try done. by rewrite !length_insert. Qed.

Lemma lookup_swapped {A} i j (l : list A) k : i < length l -> j < length l ->
  swapped i j l !! k = if decide (k = i) then l !! j else if decide (k = j) then l !! i else l !! k.
Proof.
  intros Hi Hj. unfold swapped.
  destruct (lookup_lt_is_Some_2 l i Hi) as [x Hx], (lookup_lt_is_Some_2 l j Hj) as [y Hy]. rewrite Hx, Hy.
  destruct (decide (k = i)) as [->|Hki].
  - by rewrite list_lookup_insert_eq by (rewrite length_insert; done).
  - rewrite list_lookup_insert_ne by done. destruct (decide (k = j)) as [->|Hkj].
    + by rewrite list_lookup_insert_eq.
    + by rewrite list_lookup_insert_ne.
Qed.

Lemma swapped_perm {A} i j (l : list A) : swapped i j l ≡ₚ l.
Proof.
  unfold swapped. destruct (l !! i) as [x|] eqn:Hx, (l !! j) as [y|] eqn:Hy; try done.
  by apply Permutation_insert_swap.
Qed.

(** ** What an implementation promises *)

(** [view] lists the elements, compared by the strict weak order [lt]; the
    operations act on it as on an array, on states that satisfy [good].
    [pushable h x a] says that [x] may be pushed and stands for [a],
    [popped h x a] that [x] stood for [a] before it was taken out of [h]. *)
Class HeapLaws {H X} `{HeapInterface H X} {A : Type} (lt : A -> A -> bool) := {
  good : H -> Prop;
  view : H -> list A;
  pushable : H -> X -> A -> Prop;
  popped : H -> X -> A -> Prop;
  lt_asym a b : lt a b = true -> lt b a = false;
  lt_ntrans a b c : lt a b = false -> lt b c = false -> lt a c = false;
  law_len h : good h -> hLen h = length (view h);
  law_less h i j a b : good h -> view h !! i = Some a -> view h !! j = Some b -> hLess i j h = Ok h (lt a b);
  law_swap h i j : good h -> i < length (view h) -> j < length (view h) ->
    exists h', hSwap i j h = Ok h' tt /\ good h' /\ view h' = swapped i j (view h);
  law_push h x a : good h -> pushable h x a ->
    exists h', hPush x h = Ok h' tt /\ good h' /\ view h' = (view h ++ [a])%list;
  law_pop h l a : good h -> view h = (l ++ [a])%list ->
    exists h' x, hPop h = Ok h' x /\ good h' /\ view h' = l /\ popped h' x a
}.

Section Heap.
Context {H X A : Type} `{HI : HeapInterface H X} {lt : A -> A -> bool} `{!HeapLaws lt}.
Implicit Types (h : H) (l : list A).

Definition parent (j : nat) : nat := (j - 1) / 2.

(** [y] is not greater than [x], for the elements at [j] and at [i]. *)
Definition notBelow l (j i : nat) : Prop := forall x y, l !! j = Some x -> l !! i = Some y -> lt x y = false.

(** The first [n] elements form a heap, but for what [i] has to do with. *)
Definition heapBut l (n i : nat) : Prop :=
  (forall j, 0 < j < n -> j <> i -> parent j <> i -> notBelow l j (parent j)) /\
  (forall c, 0 < c < n -> parent c = i -> 0 < i -> notBelow l c (parent i)).

Definition isHeap l (n : nat) : Prop := forall j, 0 < j < n -> notBelow l j (parent j).

Lemma parent_lt j : 0 < j -> parent j < j.
Proof. intros Hj. unfold parent. apply Nat.Div0.div_lt_upper_bound. lia. Qed.

Lemma parent_child i j : 0 < j -> parent j = i <-> j = 2 * i + 1 \/ j = 2 * i + 2.
Proof.
  intros Hj. unfold parent. pose proof (Nat.div_mod_eq (j - 1) 2). pose proof (Nat.mod_upper_bound (j - 1) 2). lia.
Qed.

Lemma notBelow_refl l j : notBelow l j j.
Proof.
  intros x y Hx Hy. rewrite Hx in Hy. injection Hy as <-. destruct (lt x x) eqn:E; [|done]. by rewrite (lt_asym _ _ E) in E.
Qed.

Lemma notBelow_trans l i j k : j < length l -> notBelow l i j -> notBelow l j k -> notBelow l i k.
Proof.
  intros Hj H1 H2 x z Hx Hz. destruct (lookup_lt_is_Some_2 l j Hj) as [y Hy]. eapply lt_ntrans; eauto.
Qed.

(** The relation after a swap is the relation of the positions swapped. *)
Definition swapIdx (i j k : nat) : nat := if decide (k = i) then j else if decide (k = j) then i else k.

Lemma notBelow_swapped l i j a b : i < length l -> j < length l ->
  notBelow (swapped i j l) a b <-> notBelow l (swapIdx i j a) (swapIdx i j b).
Proof.
  intros Hi Hj. unfold notBelow, swapIdx. setoid_rewrite lookup_swapped; [|done..].
  by repeat case_decide.
Qed.

(** One step of the loop down: the smaller child [j] goes up to [i]. *)
Lemma heapBut_down l n i j :
  n <= length l -> 0 < j < n -> parent j = i -> heapBut l n i ->
  (forall c, 0 < c < n -> parent c = i -> notBelow l c j) -> notBelow l i j ->
  heapBut (swapped i j l) n j /\ (0 < i -> notBelow (swapped i j l) i (parent i)) /\ notBelow (swapped i j l) j i.
Proof.
  intros Hn Hj Hp [Hok Hgp] Hmin Hij. pose proof (parent_lt j ltac:(lia)) as Hlt.
  assert (forall a, swapIdx i j a = if decide (a = i) then j else if decide (a = j) then i else a) as Hs by done.
  split_and!.
  - split.
    + intros k Hk Hkj Hpk. apply notBelow_swapped; [lia..|]. rewrite !Hs.
      rewrite (decide_False (P := k = j)), (decide_False (P := parent k = j)) by done.
      destruct (decide (k = i)) as [->|Hki].
      * assert (parent i <> i) by (pose proof (parent_lt i); lia). rewrite decide_False by done. apply Hgp; [lia|done|lia].
      * destruct (decide (parent k = i)) as [Hpi|Hpi]; [by apply Hmin|by apply Hok].
    + intros c Hc Hpc _. apply notBelow_swapped; [lia..|]. rewrite !Hs.
      pose proof (parent_lt c ltac:(lia)). rewrite (decide_False (P := c = i)), (decide_False (P := c = j)) by lia.
      rewrite Hp. rewrite decide_True by done. rewrite <- Hpc. apply Hok; lia.
  - intros Hi. apply notBelow_swapped; [lia..|]. rewrite !Hs. rewrite decide_True by done.
    pose proof (parent_lt i ltac:(lia)). rewrite !decide_False by lia. by apply Hgp.
  - apply notBelow_swapped; [lia..|]. rewrite !Hs.
    by rewrite (decide_False (P := j = i)), !decide_True by lia.
Qed.

(** One step of the loop up. *)
Lemma heapBut_up l n j :
  n <= length l -> 0 < j < n -> heapBut l n j -> (forall c, 0 < c < n -> parent c = j -> notBelow l c j) ->
  notBelow l (parent j) j ->
  let l' := swapped (parent j) j l in
  heapBut l' n (parent j) /\ (forall c, 0 < c < n -> parent c = parent j -> notBelow l' c (parent j)).
Proof.
  intros Hn Hj [Hok Hgp] Hch Hpj l'. set (i := parent j) in *. pose proof (parent_lt j ltac:(lia)) as Hlt. fold i in Hlt.
  assert (forall a, swapIdx i j a = if decide (a = i) then j else if decide (a = j) then i else a) as Hs by done.
  split; [split|].
  - intros k Hk Hki Hpk. apply notBelow_swapped; [lia..|]. rewrite !Hs.
    rewrite (decide_False (P := k = i)), (decide_False (P := parent k = i)) by done.
    destruct (decide (k = j)) as [->|Hkj]; [done|].
    destruct (decide (parent k = j)) as [Hpj'|Hpj']; [|by apply Hok].
    by apply Hgp; [| |lia].
  - intros c Hc Hpc Hi. apply notBelow_swapped; [lia..|]. rewrite !Hs.
    pose proof (parent_lt i ltac:(lia)). pose proof (parent_lt c ltac:(lia)).
    rewrite (decide_False (P := c = i)), (decide_False (P := parent i = i)), (decide_False (P := parent i = j)) by lia.
    destruct (decide (c = j)) as [->|Hcj].
    + destruct (decide (i = j)); [lia|]. apply Hok; [lia|lia|lia].
    + apply (notBelow_trans _ _ i); [lia| |apply Hok; lia]. rewrite <- Hpc. apply Hok; lia.
  - intros c Hc Hpc. apply notBelow_swapped; [lia..|]. rewrite !Hs. rewrite (decide_True (P := i = i)) by done.
    pose proof (parent_lt c ltac:(lia)). rewrite (decide_False (P := c = i)) by lia.
    destruct (decide (c = j)) as [->|Hcj]; [done|].
    apply (notBelow_trans _ _ i); [lia| |done]. rewrite <- Hpc. apply Hok; lia.
Qed.

(** The elements below [i]. *)
Definition childrenOk l (n i : nat) : Prop := forall c, 0 < c < n -> parent c = i -> notBelow l c i.

Lemma isHeap_close l n i :
  heapBut l n i -> childrenOk l n i -> (0 < i -> notBelow l i (parent i)) -> isHeap l n.
Proof.
  intros [Hok _] Hch Hi j Hj. destruct (decide (j = i)) as [->|Hji]; [apply Hi; lia|].
  destruct (decide (parent j = i)) as [Hp|Hp]; [rewrite Hp; by apply Hch|by apply Hok].
Qed.

Lemma isHeap_but l n i : n <= length l -> isHeap l n -> heapBut l n i.
Proof.
  intros Hn Hl. split; [auto|]. intros c Hc Hp Hi. pose proof (parent_lt c ltac:(lia)).
  apply (notBelow_trans _ _ i); [lia|rewrite <- Hp; by apply Hl|apply Hl; lia].
Qed.

(** A run of the loops permutes the elements and leaves those from [n] on. *)
Definition sifted l (n : nat) h' : Prop :=
  good h' /\ view h' ≡ₚ l /\ (forall k, n <= k -> view h' !! k = l !! k).

Lemma sifted_swapped l n i j h' :
  i < n -> j < n -> n <= length l -> sifted (swapped i j l) n h' -> sifted l n h'.
Proof.
  intros Hi Hj Hn (Hg&Hp&Hk). split_and!; [done|by rewrite Hp, swapped_perm|]. intros k Hnk.
  rewrite Hk, lookup_swapped by lia. by rewrite !decide_False by lia.
Qed.

Lemma up_spec n fuel : forall j h,
  good h -> j < n -> n <= length (view h) -> j < fuel -> heapBut (view h) n j -> childrenOk (view h) n j ->
  wp (up_loop fuel j) (fun h' _ => sifted (view h) n h' /\ isHeap (view h') n) (fun _ _ => False) False h.
Proof.
  induction fuel as [|fuel IH]; intros j h Hg Hj Hn Hf Hb Hc; [lia|]. cbn [up_loop]. fold (parent j).
  destruct (Nat.eqb_spec (parent j) j) as [E|E].
  { apply wp_ret. split; [done|]. apply (isHeap_close _ _ j); [done..|]. intros Hj0. pose proof (parent_lt j). lia. }
  assert (0 < j) as Hj0 by (destruct j; [done|lia]). pose proof (parent_lt j Hj0) as Hlt.
  destruct (lookup_lt_is_Some_2 (view h) j ltac:(lia)) as [x Hx].
  destruct (lookup_lt_is_Some_2 (view h) (parent j) ltac:(lia)) as [y Hy].
  apply wp_bind. unfold wp at 1. rewrite (law_less h _ _ _ _ Hg Hx Hy). destruct (lt x y) eqn:Exy; cbn [negb].
  - apply wp_bind. unfold wp at 1. destruct (law_swap h (parent j) j Hg ltac:(lia) ltac:(lia)) as (h1&->&Hg1&Hv).
    assert (notBelow (view h) (parent j) j) as Hpj.
    { intros y' x' Hy' Hx'. rewrite Hy in Hy'. rewrite Hx in Hx'. injection Hy' as <-. injection Hx' as <-. by apply lt_asym. }
    destruct (heapBut_up (view h) n j Hn ltac:(lia) Hb Hc Hpj) as [Hb' Hc'].
    assert (length (view h1) = length (view h)) as Hl1 by (by rewrite Hv, length_swapped).
    eapply wp_mono; [apply IH; [done|lia|lia|lia|by rewrite Hv|by rewrite Hv]| |done|done].
    intros h' _ [Hs Hh]. split; [|done]. eapply sifted_swapped; [..|rewrite <- Hv; exact Hs]; lia.
  - apply wp_ret. split; [done|]. apply (isHeap_close _ _ j); [done..|]. intros _ x' y' Hx' Hy'.
    rewrite Hx in Hx'. rewrite Hy in Hy'. by injection Hx' as <-; injection Hy' as <-.
Qed.

(** The child the loop down compares with: none of its siblings is smaller. *)
Lemma smallest_child h n i right (j := if (right : bool) then 2 * i + 1 + 1 else 2 * i + 1) :
  good h -> n <= length (view h) -> 2 * i + 1 < n ->
  (if 2 * i + 1 + 1 <? n then hLess (2 * i + 1 + 1) (2 * i + 1) else mret false) h = Ok h right ->
  0 < j < n /\ parent j = i /\ forall c, 0 < c < n -> parent c = i -> notBelow (view h) c j.
Proof.
  intros Hg Hn Hi. subst j. destruct (Nat.ltb_spec (2 * i + 1 + 1) n) as [Hlt|Hge].
  - destruct (lookup_lt_is_Some_2 (view h) (2 * i + 1 + 1) ltac:(lia)) as [x2 Hx2].
    destruct (lookup_lt_is_Some_2 (view h) (2 * i + 1) ltac:(lia)) as [x1 Hx1].
    rewrite (law_less h _ _ _ _ Hg Hx2 Hx1). intros [= <-]. destruct (lt x2 x1) eqn:E.
    + split_and!; [lia|lia|apply parent_child; lia|]. intros c Hc Hp. apply parent_child in Hp; [|lia]. destruct Hp as [->| ->].
      * intros a b Ha Hb. rewrite Hx1 in Ha. rewrite Hx2 in Hb. injection Ha as <-. injection Hb as <-. by apply lt_asym.
      * replace (2 * i + 2) with (2 * i + 1 + 1) by lia. apply notBelow_refl.
    + split_and!; [lia|lia|apply parent_child; lia|]. intros c Hc Hp. apply parent_child in Hp; [|lia]. destruct Hp as [->| ->].
      * apply notBelow_refl.
      * replace (2 * i + 2) with (2 * i + 1 + 1) by lia. intros a b Ha Hb. rewrite Hx2 in Ha. rewrite Hx1 in Hb.
        by injection Ha as <-; injection Hb as <-.
  - intros [= <-]. split_and!; [lia|lia|apply parent_child; lia|]. intros c Hc Hp.
    apply parent_child in Hp; [|lia]. destruct Hp as [->| ->]; [apply notBelow_refl|lia].
Qed.

Lemma right_child_ok h n i :
  good h -> n <= length (view h) -> 2 * i + 1 < n ->
  exists right, (if 2 * i + 1 + 1 <? n then hLess (2 * i + 1 + 1) (2 * i + 1) else mret false) h = Ok h right.
Proof.
  intros Hg Hn Hi. destruct (Nat.ltb_spec (2 * i + 1 + 1) n) as [Hlt|Hge]; [|by exists false].
  destruct (lookup_lt_is_Some_2 (view h) (2 * i + 1 + 1) ltac:(lia)) as [x2 Hx2].
  destruct (lookup_lt_is_Some_2 (view h) (2 * i + 1) ltac:(lia)) as [x1 Hx1].
  eexists. apply law_less; eauto.
Qed.

(** What the loop down leaves, from position [i] to position [i']. *)
Definition downPost l (n i : nat) h' (i' : nat) : Prop :=
  sifted l n h' /\ i <= i' /\
  (i' = i -> view h' = l /\ childrenOk l n i) /\
  (i < i' \/ (0 < i -> notBelow l i (parent i)) -> isHeap (view h') n).

Lemma downPost_stay h n i : good h -> heapBut (view h) n i -> childrenOk (view h) n i -> downPost (view h) n i h i.
Proof.
  intros Hg Hb Hc. split_and!; try done. intros [?|Hi]; [lia|]. by apply (isHeap_close _ _ i).
Qed.

Lemma down_spec n fuel : forall i h,
  good h -> n <= length (view h) -> n - i < fuel -> heapBut (view h) n i ->
  wp (down_loop fuel i n) (downPost (view h) n i) (fun _ _ => False) False h.
Proof.
  induction fuel as [|fuel IH]; intros i h Hg Hn Hf Hb; [lia|]. cbn [down_loop].
  destruct (Nat.leb_spec n (2 * i + 1)) as [Hle|Hlt].
  { apply wp_ret, downPost_stay; [done..|]. intros c Hc Hp. apply parent_child in Hp; lia. }
  apply wp_bind. destruct (right_child_ok h n i Hg Hn Hlt) as [right Hr].
  pose proof (smallest_child h n i right Hg Hn Hlt Hr) as Hsc. unfold wp at 1. rewrite Hr.
  set (j := if right then 2 * i + 1 + 1 else 2 * i + 1) in *. destruct Hsc as (Hj&Hp&Hmin).
  assert (i < j) as Hij by (rewrite <- Hp; apply parent_lt; lia).
  destruct (lookup_lt_is_Some_2 (view h) j ltac:(lia)) as [x Hx].
  destruct (lookup_lt_is_Some_2 (view h) i ltac:(lia)) as [y Hy].
  apply wp_bind. unfold wp at 1. rewrite (law_less h _ _ _ _ Hg Hx Hy). destruct (lt x y) eqn:Exy; cbn [negb].
  - apply wp_bind. unfold wp at 1. destruct (law_swap h i j Hg ltac:(lia) ltac:(lia)) as (h1&->&Hg1&Hv).
    assert (notBelow (view h) i j) as Hnb.
    { intros y' x' Hy' Hx'. rewrite Hy in Hy'. rewrite Hx in Hx'. injection Hy' as <-. injection Hx' as <-. by apply lt_asym. }
    destruct (heapBut_down (view h) n i j Hn Hj Hp Hb Hmin Hnb) as (Hb'&_&Hji).
    assert (length (view h1) = length (view h)) as Hl1 by (by rewrite Hv, length_swapped).
    eapply wp_mono; [apply IH; [done|lia|lia|by rewrite Hv]| |done|done].
    intros h' i' (Hs&Hi'&Hst&Hh). rewrite Hv in *. split_and!.
    + eapply sifted_swapped; [..|exact Hs]; lia.
    + lia.
    + intros ->. lia.
    + intros _. apply Hh. right. intros _. by rewrite Hp.
  - apply wp_ret, downPost_stay; [done..|]. intros c Hc Hpc. apply (notBelow_trans _ _ j); [lia|by apply Hmin|].
    intros x' y' Hx' Hy'. rewrite Hx in Hx'. rewrite Hy in Hy'. by injection Hx' as <-; injection Hy' as <-.
Qed.

(** ** The operations *)

(** [h] holds a heap. *)
Definition heapOk h : Prop := good h /\ isHeap (view h) (length (view h)).

Lemma sifted_length l n h' : sifted l n h' -> length (view h') = length l.
Proof. intros (_&Hp&_). by rewrite Hp. Qed.

Lemma Push_spec h x a : heapOk h -> pushable h x a ->
  wp (Push x) (fun h' _ => heapOk h' /\ view h' ≡ₚ a :: view h) (fun _ _ => False) False h.
Proof.
  intros [Hg Hh] Ha. unfold Push. apply wp_bind. unfold wp at 1.
  destruct (law_push h x a Hg Ha) as (h1&->&Hg1&Hv). apply wp_bind. unfold wp at 1, get at 1.
  rewrite law_len by done. assert (length (view h1) = S (length (view h))) as Hl by (rewrite Hv, length_app; simpl; lia).
  eapply wp_mono; [apply (up_spec (length (view h1))); [done|lia|lia|lia| |]| |done|done].
  - rewrite Hv. split.
    + intros j Hj Hne _. rewrite length_app in Hj, Hne; simpl in Hj, Hne. pose proof (parent_lt j ltac:(lia)).
      intros u v. rewrite !lookup_app_l by lia. apply Hh. lia.
    + intros c Hc Hp. rewrite length_app in Hc, Hp; simpl in Hc, Hp. pose proof (parent_lt c ltac:(lia)). lia.
  - intros c Hc Hp. pose proof (parent_lt c ltac:(lia)). lia.
  - intros h' _ [Hs Hh']. split.
    + split; [apply Hs|]. by rewrite (sifted_length _ _ _ Hs).
    + destruct Hs as (_&Hp&_). by rewrite Hp, Hv, Permutation_app_comm.
Qed.

(** Position 0 holds a smallest element. *)
Lemma isHeap_root l n : n <= length l -> isHeap l n -> forall j, j < n -> notBelow l j 0.
Proof.
  intros Hn Hh j. induction (lt_wf j) as [j _ IH]. intros Hj. destruct j as [|j]; [apply notBelow_refl|].
  pose proof (parent_lt (S j) ltac:(lia)). apply (notBelow_trans _ _ (parent (S j))); [lia|apply Hh; lia|apply IH; lia].
Qed.

(** Taking out the last element. *)
Lemma hPop_spec h n : good h -> length (view h) = S n -> isHeap (view h) n ->
  wp hPop (fun h' x => heapOk h' /\ exists a, popped h' x a /\ view h !! n = Some a /\ view h ≡ₚ a :: view h')
     (fun _ _ => False) False h.
Proof.
  intros Hg Hl Hh. destruct (exists_last (l := view h)) as (l&a&Hv); [by destruct (view h)|].
  destruct (law_pop h l a Hg Hv) as (h'&x&Hpop&Hg'&Hv'&Hx). unfold wp. rewrite Hpop.
  assert (length l = n) as Hln by (rewrite Hv, length_app in Hl; simpl in Hl; lia).
  split.
  - split; [done|]. rewrite Hv', Hln. intros j Hj. pose proof (parent_lt j ltac:(lia)). intros u v Hu Hv0.
    apply (Hh j Hj); rewrite Hv; by apply lookup_app_l_Some.
  - exists a. split_and!; [done| |].
    + rewrite Hv, lookup_app_r, Hln, Nat.sub_diag by lia. done.
    + by rewrite Hv, Hv', Permutation_app_comm.
Qed.

(** [down] followed by [up] when nothing moved. *)
Lemma down_up_spec h n i :
  good h -> n <= length (view h) -> i < n -> heapBut (view h) n i ->
  wp (moved ← down i n; if (moved : bool) then mret tt else up i)
     (fun h' _ => sifted (view h) n h' /\ isHeap (view h') n) (fun _ _ => False) False h.
Proof.
  intros Hg Hn Hi Hb. unfold down. apply wp_bind, wp_bind.
  eapply wp_mono; [apply down_spec; [done|done|lia|done]| |done|done].
  intros h' i' (Hs&Hi'&Hst&Hh). apply wp_ret. destruct (Nat.ltb_spec i i') as [Hlt|Hge].
  - apply wp_ret. split; [done|]. apply Hh. by left.
  - assert (i' = i) as -> by lia. destruct (Hst eq_refl) as [Hv Hc]. rewrite <- Hv in *.
    apply up_spec; try done; [apply Hs|lia].
Qed.

Lemma Fix_spec h i : good h -> i < length (view h) -> heapBut (view h) (length (view h)) i ->
  wp (Fix i) (fun h' _ => heapOk h' /\ view h' ≡ₚ view h) (fun _ _ => False) False h.
Proof.
  intros Hg Hi Hb. unfold Fix. apply wp_bind. unfold wp at 1, get at 1. rewrite law_len by done.
  eapply wp_mono; [by apply down_up_spec| |done|done]. intros h' _ [Hs Hh]. split; [|apply Hs].
  split; [apply Hs|]. by rewrite (sifted_length _ _ _ Hs).
Qed.

Lemma lookup_swapped_last l n i a :
  length l = S n -> i < S n -> l !! i = Some a -> swapped i n l !! n = Some a.
Proof.
  intros Hl Hi Ha. rewrite lookup_swapped by lia. rewrite (decide_True (P := n = n)) by done.
  destruct (decide (n = i)) as [->|]; done.
Qed.

(** After the swap with the last element, only position [i] is unsettled. *)
Lemma heapBut_swap_last l n i : length l = S n -> i < n -> isHeap l (S n) -> heapBut (swapped i n l) n i.
Proof.
  intros Hl Hi Hh.
  assert (forall a, a <> i -> a <> n -> swapIdx i n a = a) as Hs by (intros; unfold swapIdx; by rewrite !decide_False).
  split.
  - intros j Hj Hji Hpj. pose proof (parent_lt j ltac:(lia)). apply notBelow_swapped; [lia..|]. rewrite !Hs by lia.
    apply Hh. lia.
  - intros c Hc Hp Hi0. pose proof (parent_lt c ltac:(lia)). pose proof (parent_lt i ltac:(lia)).
    apply notBelow_swapped; [lia..|]. rewrite !Hs by lia.
    apply (notBelow_trans _ _ i); [lia| |apply Hh; lia]. rewrite <- Hp. apply Hh. lia.
Qed.

Lemma Remove_spec h i a : heapOk h -> view h !! i = Some a ->
  wp (Remove i) (fun h' x => heapOk h' /\ popped h' x a /\ view h ≡ₚ a :: view h') (fun _ _ => False) False h.
Proof.
  intros [Hg Hh] Ha. pose proof (lookup_lt_Some _ _ _ Ha) as Hi.
  destruct (view h) as [|a0 l0] eqn:Hv0; [done|]. rewrite <- Hv0 in *.
  assert (length (view h) = S (length l0)) as Hl by (by rewrite Hv0). set (n := length l0) in *.
  unfold Remove. apply wp_bind. unfold wp at 1, get at 1. rewrite law_len, Hl by done.
  replace (S n - 1) with n by lia. apply wp_bind. destruct (Nat.eqb_spec n i) as [->|Hne].
  - apply wp_ret. eapply wp_mono; [apply (hPop_spec h i); [done..|]| |done|done].
    + intros j Hj. apply Hh. lia.
    + intros h' x (Hok&a'&Hx&Ha'&Hp). rewrite Ha in Ha'. by injection Ha' as <-.
  - apply wp_bind. unfold wp at 1. destruct (law_swap h i n Hg ltac:(lia) ltac:(lia)) as (h1&->&Hg1&Hv).
    assert (length (view h1) = S n) as Hl1 by (by rewrite Hv, length_swapped).
    eapply wp_mono; [apply (down_up_spec h1 n i); [done|lia|lia|]| |done|done].
    { rewrite Hv. apply heapBut_swap_last; [done|lia|]. by rewrite <- Hl. }
    intros h2 _ [Hs Hh2]. pose proof (sifted_length _ _ _ Hs) as Hl2.
    eapply wp_mono; [apply (hPop_spec h2 n); [apply Hs|lia|done]| |done|done].
    intros h' x (Hok&a'&Hx&Ha'&Hp). destruct Hs as (_&Hp2&Hk). rewrite Hk, Hv, (lookup_swapped_last _ _ _ a) in Ha' by (done || lia).
    injection Ha' as <-. split_and!; [done..|]. rewrite <- Hp, Hp2, Hv. by rewrite swapped_perm.
Qed.

Lemma Pop_spec h : heapOk h -> view h <> [] ->
  wp Pop (fun h' x => heapOk h' /\ exists a, popped h' x a /\ view h ≡ₚ a :: view h' /\ forall b, b ∈ view h -> lt b a = false)
     (fun _ _ => False) False h.
Proof.
  intros [Hg Hh] Hne. destruct (view h) as [|a l0] eqn:Hv0; [done|]. rewrite <- Hv0 in *.
  assert (length (view h) = S (length l0)) as Hl by (by rewrite Hv0). set (n := length l0) in *.
  unfold Pop. apply wp_bind. unfold wp at 1, get at 1. rewrite law_len, Hl by done. replace (S n - 1) with n by lia.
  assert (view h !! 0 = Some a) as Ha by (by rewrite Hv0).
  apply wp_bind. unfold wp at 1. destruct (law_swap h 0 n Hg ltac:(lia) ltac:(lia)) as (h1&->&Hg1&Hv).
  assert (length (view h1) = S n) as Hl1 by (by rewrite Hv, length_swapped).
  apply wp_bind. unfold down. apply wp_bind.
  eapply wp_mono; [apply (down_spec n); [done|lia|lia|]| |done|done].
  { rewrite Hv. destruct (decide (n = 0)) as [Hn0|Hn0]; [split; intros; lia|].
    apply heapBut_swap_last; [done|lia|]. by rewrite <- Hl. }
  intros h2 i' (Hs&_&_&Hh2). apply wp_ret. pose proof (sifted_length _ _ _ Hs) as Hl2.
  eapply wp_mono; [apply (hPop_spec h2 n); [apply Hs|lia|apply Hh2; right; lia]| |done|done].
  intros h' x (Hok&a'&Hx&Ha'&Hp). destruct Hs as (_&Hp2&Hk). rewrite Hk, Hv, (lookup_swapped_last _ _ _ a) in Ha' by (done || lia).
  injection Ha' as <-. split; [done|]. exists a. split_and!; [done|by rewrite <- Hp, Hp2, Hv, swapped_perm|].
  intros b [j Hb]%list_elem_of_lookup. pose proof (lookup_lt_Some _ _ _ Hb).
  apply (isHeap_root (view h) (S n) ltac:(lia) ltac:(by rewrite <- Hl) j ltac:(lia) b a Hb Ha).
Qed.

End Heap.
