(* ===== verification/GoList.v ===== *)
(** * GoList: package container/list

    The doubly linked list both caches keep their entries by recency in.
    Elements are objects, named by their creation; an element carries a
    value, which the code may update in place. *)

From stdpp Require Import base list.
From S2P Require Import Prelude.

#[local] Set Warnings "-register-all".

Record GoList (V : Type) : Type := mkGoList {
  gl_elems : list (positive * V); (* front first *)
  gl_next : positive
}.

Arguments mkGoList {V} _ _.
Arguments gl_elems {V} _.
Arguments gl_next {V} _.

Section GoList.
Context {V : Type}.
Implicit Types (l : GoList V) (e : positive) (v : V).

Definition emptyList (next : positive) : GoList V := mkGoList [] next.

Definition Back l : option (positive * V) := list.last (gl_elems l).

Definition PushFront v : GoM (GoList V) positive := fun l =>
  Ok (mkGoList ((gl_next l, v) :: gl_elems l) (Pos.succ (gl_next l))) (gl_next l).

Definition without e (l : list (positive * V)) : list (positive * V) := filter (fun x => x.1 <> e) l.

(** An element that is not in the list is left alone. *)
Definition listRemove e l : GoList V := mkGoList (without e (gl_elems l)) (gl_next l).

Definition findElem e l : option (positive * V) := snd <$> list_find (fun x => x.1 = e) (gl_elems l).

Definition MoveToFront e l : GoList V :=
  match findElem e l with
  | Some x => mkGoList (x :: without e (gl_elems l)) (gl_next l)
  | None => l
  end.

(** [e.Value = v]. *)
Definition setValue e v l : GoList V :=
  mkGoList (map (fun x => if decide (x.1 = e) then (e, v) else x) (gl_elems l)) (gl_next l).

(** ** Lemmas *)

Definition listOk l : Prop := NoDup (gl_elems l).*1 /\ forall x, x ∈ gl_elems l -> (x.1 < gl_next l)%positive.

Lemma elem_of_without e x (l : list (positive * V)) : x ∈ without e l <-> x ∈ l /\ x.1 <> e.
Proof. unfold without. rewrite list_elem_of_filter. tauto. Qed.

Lemma without_NoDup e (l : list (positive * V)) : NoDup l.*1 -> NoDup (without e l).*1.
Proof.
  induction l as [|[a v] l IH]; [done|]. rewrite fmap_cons, NoDup_cons. intros [Hn Hnd]. unfold without.
  destruct (decide (a = e)) as [->|Ha]; [rewrite filter_cons_False by (simpl; tauto); by apply IH|].
  rewrite filter_cons_True by done. rewrite fmap_cons, NoDup_cons. split; [|by apply IH].
  intros ([a' v']&E&Hin%elem_of_without)%list_elem_of_fmap. apply Hn, list_elem_of_fmap. exists (a', v'). tauto.
Qed.

Lemma findElem_elem l e v : NoDup (gl_elems l).*1 -> (e, v) ∈ gl_elems l -> findElem e l = Some (e, v).
Proof.
  intros Hnd Hin. unfold findElem. destruct (list_find _ _) as [[i [y v']]|] eqn:E; simpl.
  - apply list_find_Some in E as (Hi&Hy&_). simpl in Hy. subst y. apply list_elem_of_lookup_2 in Hi.
    by rewrite (NoDup_fst_inj _ _ _ _ Hnd Hi Hin).
  - apply list_find_None in E. rewrite Forall_forall in E. by apply E in Hin.
Qed.

Lemma MoveToFront_elems l e v : NoDup (gl_elems l).*1 -> (e, v) ∈ gl_elems l ->
  MoveToFront e l = mkGoList ((e, v) :: without e (gl_elems l)) (gl_next l).
Proof. intros Hnd Hin. unfold MoveToFront. by rewrite (findElem_elem l e v). Qed.

Lemma listOk_remove e l : listOk l -> listOk (listRemove e l).
Proof. intros [Hnd Hlt]. split; [by apply without_NoDup|]. intros x [Hx _]%elem_of_without. by apply Hlt. Qed.

Lemma listOk_move e v l : listOk l -> (e, v) ∈ gl_elems l -> listOk (MoveToFront e l).
Proof.
  intros [Hnd Hlt] Hin. rewrite (MoveToFront_elems l e v) by done. split; simpl.
  - constructor; [|by apply without_NoDup]. intros ([z w]&E&[_ Hz]%elem_of_without)%list_elem_of_fmap. by apply Hz.
  - intros z [->|[Hz _]%elem_of_without]%elem_of_cons; [by apply (Hlt (e, v))|by apply Hlt].
Qed.

Lemma listOk_push v l : listOk l -> listOk (mkGoList ((gl_next l, v) :: gl_elems l) (Pos.succ (gl_next l))).
Proof.
  intros [Hnd Hlt]. split; simpl.
  - constructor; [|done]. intros (y&E&Hy%Hlt)%list_elem_of_fmap. rewrite <- E in Hy. lia.
  - intros y [->|Hy%Hlt]%elem_of_cons; simpl; lia.
Qed.

Lemma elem_of_setValue e v l x :
  x ∈ gl_elems (setValue e v l) <->
  (x.1 <> e /\ x ∈ gl_elems l) \/ (x = (e, v) /\ exists v', (e, v') ∈ gl_elems l).
Proof.
  unfold setValue. simpl. rewrite list_elem_of_fmap. split.
  - intros ([e' v']&->&Hin). cbn [fst]. destruct (decide (e' = e)) as [->|Hne]; [right; eauto|by left].
  - intros [[Hne Hin]|[-> [v' Hin]]].
    + exists x. by rewrite decide_False.
    + exists (e, v'). cbn [fst]. by rewrite decide_True.
Qed.

Lemma setValue_ids e v l : (gl_elems (setValue e v l)).*1 = (gl_elems l).*1.
Proof.
  unfold setValue. simpl. induction (gl_elems l) as [|[e' v'] l' IH]; [done|]. cbn. rewrite <- IH. case_decide; [subst|]; done.
Qed.

Lemma listOk_set e v l : listOk l -> listOk (setValue e v l).
Proof.
  intros [Hnd Hlt]. split; [by rewrite setValue_ids|]. intros x [[_ Hin]|[-> [v' Hin]]]%elem_of_setValue; [by apply Hlt|].
  by apply (Hlt (e, v')).
Qed.

End GoList.
