(* ===== verification/Cache.v ===== *)
(** * Cache: the in-memory cache of the policy SDK

    src/sdk/core/utils/cache: a bounded cache with entries that expire, and
    with eviction of the least recently or of the least frequently used one.
    Recency is a [container/list], frequency a [container/heap] of items that
    know their position.  A method holds the cache's lock throughout, so a
    run is a sequence of whole methods. *)

From stdpp Require Import functions base gmap strings list fin_maps.
From S2P Require Import Prelude GoStrings Values GoHeap GoList.

#[local] Set Warnings "-register-all".

Open Scope string_scope.

(** [int64] arithmetic wraps around. *)
Definition wrap64 (z : Z) : Z := ((z + 2 ^ 63) mod 2 ^ 64 - 2 ^ 63)%Z.

(** ** The heap of items *)

Record lfuHeapItem : Type := mkItem {
  hi_key : string;
  hi_accessCount : Z;
  hi_lastAccess : Z;
  hi_index : Z (* -1 when not in the heap *)
}.

Definition set_index (i : lfuHeapItem) (n : Z) : lfuHeapItem :=
  mkItem (hi_key i) (hi_accessCount i) (hi_lastAccess i) n.

(** The items are objects: the heap is a slice of pointers, and swapping two
    of them writes the positions into the objects. *)
Record LfuHeap : Type := mkLfuHeap {
  lh_item : positive -> lfuHeapItem;
  lh_next : positive;
  lh_slots : list positive
}.

Definition write_item (p : positive) (i : lfuHeapItem) (h : LfuHeap) : LfuHeap :=
  mkLfuHeap (<[p := i]> (lh_item h)) (lh_next h) (lh_slots h).

Definition noItem : lfuHeapItem := mkItem "" 0 0 0.
Definition emptyHeap (next : positive) (item : positive -> lfuHeapItem) : LfuHeap := mkLfuHeap item next [].

Definition lfuLen (h : LfuHeap) : nat := length (lh_slots h).

(** The order of [Less]. *)
Definition itemLess (a b : lfuHeapItem) : bool :=
  if negb (hi_accessCount a =? hi_accessCount b)%Z then (hi_accessCount a <? hi_accessCount b)%Z
  else (hi_lastAccess a <? hi_lastAccess b)%Z.

Definition lfuLess (i j : nat) : GoM LfuHeap bool :=
  h ← get;
  p ← index (lh_slots h) i;
  q ← index (lh_slots h) j;
  mret (itemLess (lh_item h p) (lh_item h q)).

Definition lfuSwap (i j : nat) : GoM LfuHeap unit :=
  h ← get;
  p ← index (lh_slots h) i;
  q ← index (lh_slots h) j;
  modify (fun h => mkLfuHeap (lh_item h) (lh_next h) (<[i := q]> (<[j := p]> (lh_slots h))));;
  modify (fun h => write_item q (set_index (lh_item h q) (Z.of_nat i)) h);;
  modify (fun h => write_item p (set_index (lh_item h p) (Z.of_nat j)) h).

Definition lfuPush (x : positive) : GoM LfuHeap unit := modify (fun h =>
  let h := write_item x (set_index (lh_item h x) (Z.of_nat (length (lh_slots h)))) h in
  mkLfuHeap (lh_item h) (lh_next h) (lh_slots h ++ [x])%list).

Definition lfuPop : GoM LfuHeap positive :=
  old ← get;
  let n := length (lh_slots old) in
  item ← index (lh_slots old) (n - 1);
  modify (fun h => write_item item (set_index (lh_item h item) (-1)) h);;
  modify (fun h => mkLfuHeap (lh_item h) (lh_next h) (take (n - 1) (lh_slots h)));;
  mret item.

#[export] Instance lfuHeapInterface : HeapInterface LfuHeap positive := {|
  hLen := lfuLen; hLess := lfuLess; hSwap := lfuSwap; hPush := lfuPush; hPop := lfuPop
|}.

(** [&lfuHeapItem{...}]. *)
Definition new_item (i : lfuHeapItem) : GoM LfuHeap positive := fun h =>
  let p := lh_next h in Ok (mkLfuHeap (<[p := i]> (lh_item h)) (Pos.succ p) (lh_slots h)) p.

(** [heap.Fix] at the position an item records: at a negative one both loops
    stop at once. *)
Definition FixAt (i : Z) : GoM LfuHeap unit := if (i <? 0)%Z then mret tt else Fix (Z.to_nat i).

(** ** The cache *)

Inductive EvictionPolicy : Type := evictionPolicyLRU | evictionPolicyLFU.

#[export] Instance EvictionPolicy_eq_dec : EqDecision EvictionPolicy.
Proof. solve_decision. Defined.

Definition isLRU (p : EvictionPolicy) : bool := match p with evictionPolicyLRU => true | evictionPolicyLFU => false end.

Section Cache.
Context {T : Type}.

(** [ce_ExpiryTime] is [None] for the zero time: no expiry. *)
Record cacheEntry : Type := mkEntry {
  ce_Value : T;
  ce_ExpiryTime : option Z;
  ce_listElement : option positive;
  ce_heapItem : option positive;
  ce_lastAccess : Z;
  ce_accessCount : Z
}.

Record InMemoryCache : Type := mkCache {
  c_enabled : bool;
  c_name : string;
  c_cache : gmap string cacheEntry;
  c_accessOrder : GoList string;
  c_lfuHeap : LfuHeap;
  c_size : Z;
  c_ttl : Z;
  c_policy : EvictionPolicy;
  c_hitCount : Z;
  c_missCount : Z;
  c_evictCount : Z
}.

Definition set_cache (m : gmap string cacheEntry) (c : InMemoryCache) : InMemoryCache :=
  mkCache (c_enabled c) (c_name c) m (c_accessOrder c) (c_lfuHeap c) (c_size c) (c_ttl c) (c_policy c)
    (c_hitCount c) (c_missCount c) (c_evictCount c).
Definition set_order (l : GoList string) (c : InMemoryCache) : InMemoryCache :=
  mkCache (c_enabled c) (c_name c) (c_cache c) l (c_lfuHeap c) (c_size c) (c_ttl c) (c_policy c)
    (c_hitCount c) (c_missCount c) (c_evictCount c).
Definition set_heap (h : LfuHeap) (c : InMemoryCache) : InMemoryCache :=
  mkCache (c_enabled c) (c_name c) (c_cache c) (c_accessOrder c) h (c_size c) (c_ttl c) (c_policy c)
    (c_hitCount c) (c_missCount c) (c_evictCount c).
Definition set_counts (hit miss evict : Z) (c : InMemoryCache) : InMemoryCache :=
  mkCache (c_enabled c) (c_name c) (c_cache c) (c_accessOrder c) (c_lfuHeap c) (c_size c) (c_ttl c) (c_policy c)
    hit miss evict.
Definition addHit (c : InMemoryCache) : InMemoryCache :=
  set_counts (wrap64 (c_hitCount c + 1)) (c_missCount c) (c_evictCount c) c.
Definition addMiss (c : InMemoryCache) : InMemoryCache :=
  set_counts (c_hitCount c) (wrap64 (c_missCount c + 1)) (c_evictCount c) c.
Definition addEvict (c : InMemoryCache) : InMemoryCache :=
  set_counts (c_hitCount c) (c_missCount c) (wrap64 (c_evictCount c + 1)) c.

(** An operation on the list or the heap of a cache. *)
Definition onOrder {A} (m : GoM (GoList string) A) : GoM InMemoryCache A := fun c =>
  match m (c_accessOrder c) with Ok l a => Ok (set_order l c) a | Err l e => Err (set_order l c) e | Panic => Panic end.
Definition onHeap {A} (m : GoM LfuHeap A) : GoM InMemoryCache A := fun c =>
  match m (c_lfuHeap c) with Ok h a => Ok (set_heap h c) a | Err h e => Err (set_heap h c) e | Panic => Panic end.

Definition NewInMemoryCache (name : string) (size ttl : Z) (policy : string) : InMemoryCache :=
  let ep := if String.eqb policy "LFU" then evictionPolicyLFU else evictionPolicyLRU in
  mkCache true name ∅ (emptyList 1) (emptyHeap 1 (fun _ => noItem)) size ttl ep 0 0 0.

Definition deleteEntry (key : string) (entry : cacheEntry) : GoM InMemoryCache unit :=
  modify (fun c => set_cache (delete key (c_cache c)) c);;
  c ← get;
  (match isLRU (c_policy c), ce_listElement entry with
   | true, Some e => onOrder (modify (listRemove e))
   | _, _ => mret tt
   end);;
  match isLRU (c_policy c), ce_heapItem entry with
  | false, Some p =>
      let i := hi_index (lh_item (c_lfuHeap c) p) in
      if (0 <=? i)%Z then onHeap (Remove (Z.to_nat i));; mret tt else mret tt
  | _, _ => mret tt
  end.

Definition evictOldest : GoM InMemoryCache unit :=
  c ← get;
  match Back (c_accessOrder c) with
  | None => mret tt
  | Some (_, key) =>
      match c_cache c !! key with
      | Some entry => deleteEntry key entry;; modify addEvict
      | None => mret tt
      end
  end.

Definition evictLeastFrequent : GoM InMemoryCache unit :=
  c ← get;
  if Nat.eqb (lfuLen (c_lfuHeap c)) 0 then mret tt
  else
    item ← onHeap Pop;
    c ← get;
    let key := hi_key (lh_item (c_lfuHeap c) item) in
    match c_cache c !! key with
    | Some entry => deleteEntry key entry;; modify addEvict
    | None => mret tt
    end.

Definition evict : GoM InMemoryCache unit :=
  c ← get; if isLRU (c_policy c) then evictOldest else evictLeastFrequent.

(** What [Set] and [Get] do with the list or the heap when an entry is used. *)
Definition touch (entry : cacheEntry) : GoM InMemoryCache unit :=
  c ← get;
  if isLRU (c_policy c) then
    match ce_listElement entry with
    | Some e => onOrder (modify (MoveToFront e))
    | None => panic
    end
  else
    match ce_heapItem entry with
    | Some p =>
        onHeap (modify (fun h => write_item p (mkItem (hi_key (lh_item h p)) (ce_accessCount entry) (ce_lastAccess entry)
                                                 (hi_index (lh_item h p))) h));;
        c ← get;
        onHeap (FixAt (hi_index (lh_item (c_lfuHeap c) p)))
    | None => mret tt
    end.

Definition put_entry (key : string) (entry : cacheEntry) : GoM InMemoryCache unit :=
  modify (fun c => set_cache (<[key := entry]> (c_cache c)) c).

(** The end of [Set]: the new entry. *)
Definition addEntry (now : Z) (key : string) (value : T) (expiryTime : option Z) : GoM InMemoryCache unit :=
  c ← get;
  listElement ← (if isLRU (c_policy c) then e ← onOrder (PushFront key); mret (Some e) else mret None);
  heapItem ← (if isLRU (c_policy c) then mret None
              else p ← onHeap (new_item (mkItem key 1 now 0));
                   onHeap (Push p);;
                   mret (Some p));
  put_entry key (mkEntry value expiryTime listElement heapItem now 1).

Definition Set_ (now : Z) (key : string) (value : T) : GoM InMemoryCache unit :=
  c ← get;
  if negb (c_enabled c) then mret tt
  else
    let expiryTime := if (0 <? c_ttl c)%Z then Some (now + c_ttl c)%Z else None in
    match c_cache c !! key with
    | Some existing =>
        let existing := mkEntry value expiryTime (ce_listElement existing) (ce_heapItem existing) now
                          (wrap64 (ce_accessCount existing + 1)) in
        put_entry key existing;;
        touch existing
    | None =>
        if (c_size c <=? 0)%Z then mret tt
        else
          (if (c_size c <=? Z.of_nat (size (c_cache c)))%Z then evict else mret tt);;
          addEntry now key value expiryTime
    end.

(** [now] and [now'] are the two readings of the clock.  [None] is the zero
    value with [false]. *)
Definition Get_ (now now' : Z) (key : string) : GoM InMemoryCache (option T) :=
  c ← get;
  if negb (c_enabled c) then mret None
  else match c_cache c !! key with
       | None => modify addMiss;; mret None
       | Some entry =>
           if match ce_ExpiryTime entry with Some e => (e <? now)%Z | None => false end then
             deleteEntry key entry;; modify addMiss;; mret None
           else
             let entry := mkEntry (ce_Value entry) (ce_ExpiryTime entry) (ce_listElement entry) (ce_heapItem entry) now'
                            (wrap64 (ce_accessCount entry + 1)) in
             put_entry key entry;;
             touch entry;;
             modify addHit;;
             mret (Some (ce_Value entry))
       end.

Definition Delete_ (key : string) : GoM InMemoryCache unit :=
  c ← get;
  if negb (c_enabled c) then mret tt
  else match c_cache c !! key with
       | Some entry => deleteEntry key entry
       | None => mret tt
       end.

Definition Clear : GoM InMemoryCache unit :=
  c ← get;
  if negb (c_enabled c) then mret tt
  else put (set_counts 0 0 0
              (set_heap (emptyHeap (lh_next (c_lfuHeap c)) (lh_item (c_lfuHeap c)))
                 (set_order (emptyList (gl_next (c_accessOrder c))) (set_cache ∅ c)))).

Definition CleanupExpired `{MapRange} (now : Z) : GoM InMemoryCache unit :=
  c ← get;
  if negb (c_enabled c) then mret tt
  else for_range (fun _ '(key, entry) _ =>
         if match ce_ExpiryTime entry with Some e => (e <? now)%Z | None => false end then
           deleteEntry key entry;; mret (Continue tt)
         else mret (Continue tt)) 0 (range (c_cache c)) tt.

(** [HitRate] is the quotient of [HitCount] by the total of the two counts. *)
Record CacheStat : Type := mkCacheStat {
  st_Enabled : bool;
  st_Size : Z;
  st_MaxSize : Z;
  st_HitCount : Z;
  st_MissCount : Z;
  st_HitRate : option (Z * Z);
  st_EvictCount : Z
}.

Definition GetStats (c : InMemoryCache) : CacheStat :=
  if negb (c_enabled c) then mkCacheStat false 0 0 0 0 None 0
  else
    let hits := c_hitCount c in
    let misses := c_missCount c in
    let total := wrap64 (hits + misses) in
    mkCacheStat true (Z.of_nat (size (c_cache c))) (c_size c) hits misses
      (if (0 <? total)%Z then Some (hits, total) else None) (c_evictCount c).

End Cache.

Arguments cacheEntry : clear implicits.
Arguments InMemoryCache : clear implicits.
