(* ===== verification/CacheTheorems.v ===== *)
(** * CacheTheorems: what the in-memory cache guarantees

    The heap of entries satisfies the laws of [GoHeap]; the invariant of a
    cache ties its map to the recency list or to the heap; every method keeps
    it and acts on the entries as on a bounded map.  From this follow the
    bound on the size, the choice of the victim, and that a hit returns what
    was last stored. *)

From stdpp Require Import functions base gmap strings list fin_maps.
From S2P Require Import Prelude GoStrings Values GoHeap GoList Cache.

#[local] Set Warnings "-register-all".

Open Scope string_scope.

(** ** The heap of items satisfies the laws *)

Definition content (i : lfuHeapItem) : string * Z * Z := (hi_key i, hi_accessCount i, hi_lastAccess i).

Definition contentLess (a b : string * Z * Z) : bool :=
  let '(_, c, t) := a in let '(_, c', t') := b in
  if negb (c =? c')%Z then (c <? c')%Z else (t <? t')%Z.

Lemma itemLess_content i j : itemLess i j = contentLess (content i) (content j).
Proof. done. Qed.

(** The pairs of a count and a time, in lexicographic order. *)
Lemma contentLess_spec a b :
  contentLess a b = true <-> (a.1.2 < b.1.2)%Z \/ a.1.2 = b.1.2 /\ (a.2 < b.2)%Z.
Proof. destruct a as [[k c] t], b as [[k' c'] t']. simpl. destruct (Z.eqb_spec c c'); simpl; rewrite Z.ltb_lt; lia. Qed.

Lemma contentLess_false a b :
  contentLess a b = false <-> (b.1.2 < a.1.2)%Z \/ a.1.2 = b.1.2 /\ (b.2 <= a.2)%Z.
Proof. rewrite <- not_true_iff_false, contentLess_spec. lia. Qed.

Section Laws.
Context (K : positive -> string * Z * Z) (N : positive).

(** A heap of items with the contents [K], created before [N], each knowing
    its position. *)
Definition goodHeap (h : LfuHeap) : Prop :=
  lh_next h = N /\ (forall p, content (lh_item h p) = K p) /\ NoDup (lh_slots h) /\
  (forall p, p ∈ lh_slots h -> (p < N)%positive) /\
  (forall i p, lh_slots h !! i = Some p -> hi_index (lh_item h p) = Z.of_nat i).

Definition slotLess (p q : positive) : bool := contentLess (K p) (K q).

Lemma lookup_fn_insert {A} (f : positive -> A) p q a : (<[p := a]> f) q = if decide (p = q) then a else f q.
Proof. unfold insert, fn_insert. by case_decide. Qed.

Lemma goodHeap_swap h i j p q :
  goodHeap h -> lh_slots h !! i = Some p -> lh_slots h !! j = Some q ->
  let h1 := mkLfuHeap (lh_item h) (lh_next h) (<[i := q]> (<[j := p]> (lh_slots h))) in
  let h2 := write_item q (set_index (lh_item h1 q) (Z.of_nat i)) h1 in
  let h3 := write_item p (set_index (lh_item h2 p) (Z.of_nat j)) h2 in
  goodHeap h3 /\ lh_slots h3 = swapped i j (lh_slots h).
Proof.
  intros (Hn&Hc&Hnd&Hlt&Hi) Hp Hq h1 h2 h3.
  assert (lh_slots h3 = swapped i j (lh_slots h)) as Hs by (unfold swapped; by rewrite Hp, Hq).
  split; [|done]. split_and!; [done| | | |].
  - intros r. simpl. rewrite !lookup_fn_insert. repeat case_decide; subst; apply Hc.
  - rewrite Hs, swapped_perm. done.
  - intros r. rewrite Hs, swapped_perm. apply Hlt.
  - intros k r. rewrite Hs, lookup_swapped by (by eapply lookup_lt_Some). simpl. rewrite !lookup_fn_insert.
    assert (forall a b x, lh_slots h !! a = Some x -> lh_slots h !! b = Some x -> a = b) as Hinj
      by (intros a b x Ha Hb; eapply NoDup_lookup; eauto).
    intros Hr. destruct (decide (k = i)) as [->|Hki]; [|destruct (decide (k = j)) as [->|Hkj]].
    + rewrite Hq in Hr. injection Hr as <-. case_decide as E; [|by rewrite decide_True].
      subst q. simpl. f_equal. by apply (Hinj j i p).
    + rewrite Hp in Hr. injection Hr as <-. by rewrite decide_True.
    + rewrite !decide_False; [by apply Hi|intros <-; apply Hkj; by apply (Hinj k j q)|intros <-; apply Hki; by apply (Hinj k i p)].
Qed.

Lemma goodHeap_push h x :
  goodHeap h -> x ∉ lh_slots h -> (x < N)%positive ->
  exists h', lfuPush x h = Ok h' tt /\ goodHeap h' /\ lh_slots h' = (lh_slots h ++ [x])%list.
Proof.
  intros (Hn&Hc&Hnd&Hlt&Hi) Hx HxN. eexists. split; [done|]. split; [|done]. split_and!; simpl; [done| | | |].
  - intros p. rewrite lookup_fn_insert. case_decide; subst; apply Hc.
  - apply NoDup_app. split_and!; [done|set_solver|apply NoDup_singleton].
  - set_solver.
  - intros i p Hp. rewrite lookup_fn_insert. apply lookup_app_Some in Hp as [Hp|[Hle Hp]].
    + rewrite decide_False; [by apply Hi|]. intros <-. apply Hx. by apply list_elem_of_lookup_2 in Hp.
    + destruct (i - length (lh_slots h)) as [|n] eqn:E; [|done]. simpl in Hp. injection Hp as <-.
      rewrite decide_True by done. simpl. f_equal. lia.
Qed.

Lemma goodHeap_pop h l a :
  goodHeap h -> lh_slots h = (l ++ [a])%list ->
  exists h' x, lfuPop h = Ok h' x /\ goodHeap h' /\ lh_slots h' = l /\ (x = a /\ hi_index (lh_item h' x) = (-1)%Z).
Proof.
  intros (Hn&Hc&Hnd&Hlt&Hi) Hs. assert (length (lh_slots h) - 1 = length l) as Hl by (rewrite Hs, length_app; simpl; lia).
  unfold lfuPop, mbind, GoM_bind, get, index. rewrite Hl.
  assert (lh_slots h !! length l = Some a) as -> by (rewrite Hs, lookup_app_r, Nat.sub_diag by lia; done). simpl.
  eexists _, _. split; [done|]. rewrite Hs, take_app_length. rewrite Hs in Hnd, Hlt, Hi. apply NoDup_app in Hnd as (Hnd&Hd&_).
  split; [|simpl; rewrite lookup_fn_insert, decide_True by done; auto]. split_and!; simpl; [done| |done|set_solver|].
  - intros p. rewrite lookup_fn_insert. case_decide; subst; apply Hc.
  - intros i p Hp. rewrite lookup_fn_insert, decide_False; [apply Hi; by apply lookup_app_l_Some|].
    intros <-. apply (Hd a); [by apply list_elem_of_lookup_2 in Hp|set_solver].
Qed.

#[export] Instance lfuLaws : HeapLaws slotLess.
Proof.
  refine {| good := goodHeap; view := lh_slots;
            pushable h x a := x = a /\ x ∉ lh_slots h /\ (x < N)%positive;
            popped h x a := x = a /\ hi_index (lh_item h x) = (-1)%Z |}.
  - intros a b. unfold slotLess. rewrite contentLess_spec, contentLess_false. lia.
  - intros a b c. unfold slotLess. rewrite !contentLess_false. lia.
  - done.
  - intros h i j a b (_&Hc&_) Ha Hb. simpl. unfold lfuLess, mbind, GoM_bind, get, index. rewrite Ha, Hb.
    rewrite itemLess_content, !Hc. done.
  - intros h i j Hg Hi Hj. destruct (lookup_lt_is_Some_2 _ _ Hi) as [p Hp], (lookup_lt_is_Some_2 _ _ Hj) as [q Hq].
    simpl. unfold lfuSwap, mbind, GoM_bind, get, index. rewrite Hp, Hq. eexists. split; [done|]. by apply goodHeap_swap.
  - intros h x a Hg (<-&Hx&HxN). by apply goodHeap_push.
  - intros h l a Hg Hs. by apply goodHeap_pop.
Defined.

End Laws.

(** ** The invariant of a cache *)

Section Invariant.
Context {T : Type}.
Implicit Types (c : InMemoryCache T) (e : cacheEntry T) (m : gmap string (cacheEntry T)).

(** The recency list has one element for every entry, and the entry knows it. *)
Definition lruInv m (l : GoList string) : Prop :=
  NoDup (gl_elems l).*1 /\ (forall x, x ∈ gl_elems l -> (x.1 < gl_next l)%positive) /\
  (forall k e, m !! k = Some e -> exists x, ce_listElement e = Some x /\ (x, k) ∈ gl_elems l) /\
  (forall x k, (x, k) ∈ gl_elems l -> exists e, m !! k = Some e /\ ce_listElement e = Some x).

(** The entries of the map and the items of a slice of a heap of contents
    [K] correspond. *)
Definition matches m (K : positive -> string * Z * Z) (slots : list positive) : Prop :=
  (forall k e, m !! k = Some e ->
     exists p, ce_heapItem e = Some p /\ p ∈ slots /\ K p = (k, ce_accessCount e, ce_lastAccess e)) /\
  (forall p, p ∈ slots -> exists e, m !! (K p).1.1 = Some e /\ ce_heapItem e = Some p).

Definition heapWith (K : positive -> string * Z * Z) (N : positive) (h : LfuHeap) : Prop :=
  heapOk (lt := slotLess K) (HeapLaws0 := lfuLaws K N) h.

Definition lfuInv m (h : LfuHeap) : Prop :=
  exists K N, heapWith K N h /\ matches m K (lh_slots h).

Definition cacheOk c : Prop :=
  c_enabled c = true /\
  if isLRU (c_policy c) then lruInv (c_cache c) (c_accessOrder c) else lfuInv (c_cache c) (c_lfuHeap c).

Definition sameConfig c c' : Prop :=
  c_enabled c' = c_enabled c /\ c_name c' = c_name c /\ c_size c' = c_size c /\ c_ttl c' = c_ttl c /\ c_policy c' = c_policy c.

(** The keys by recency, the latest first. *)
Definition recency c : list string := (gl_elems (c_accessOrder c)).*2.

Lemma sameConfig_refl c : sameConfig c c.
Proof. done. Qed.

Lemma sameConfig_trans c1 c2 c3 : sameConfig c1 c2 -> sameConfig c2 c3 -> sameConfig c1 c3.
Proof. unfold sameConfig. intuition congruence. Qed.

(** *** The recency list *)

Lemma lru_key_unique m l x y k : lruInv m l -> (x, k) ∈ gl_elems l -> (y, k) ∈ gl_elems l -> x = y.
Proof.
  intros (_&_&_&Hl) Hx Hy. apply Hl in Hx as (e&He&Hx), Hy as (e'&He'&Hy). congruence.
Qed.

(** Dropping an element by its identity is dropping it by its key. *)
Lemma without_key m l x k : lruInv m l -> (x, k) ∈ gl_elems l ->
  (without x (gl_elems l)).*2 = filter (fun k' => k' <> k) (gl_elems l).*2.
Proof.
  intros Hinv Hx. destruct Hinv as (Hnd&Hinv).
  assert (forall y k', (y, k') ∈ gl_elems l -> y = x <-> k' = k) as Heq.
  { intros y k' Hy. split; intros ->; [|by eapply lru_key_unique].
    by eapply NoDup_fst_inj. }
  clear Hnd Hinv Hx. unfold without. induction (gl_elems l) as [|[y k'] l' IH]; [done|].
  assert (y = x <-> k' = k) as Hyk by (apply Heq; set_solver).
  rewrite fmap_cons. cbn [snd]. destruct (decide (k' = k)) as [Hk|Hk].
  - rewrite filter_cons_False, (filter_cons_False _ k') by tauto. apply IH. set_solver.
  - rewrite filter_cons_True, (filter_cons_True _ k') by tauto. rewrite fmap_cons. f_equal. apply IH. set_solver.
Qed.

Lemma lruInv_delete m l k e x :
  lruInv m l -> m !! k = Some e -> ce_listElement e = Some x -> lruInv (delete k m) (listRemove x l).
Proof.
  intros Hinv Hk Hx. pose proof Hinv as (Hnd&Hlt&Hm&Hl). destruct (Hm _ _ Hk) as (x'&Hx'&Hin). replace x' with x in * by congruence.
  split_and!; simpl.
  - by apply without_NoDup.
  - intros y [Hy _]%elem_of_without. by apply Hlt.
  - intros k' e' [Hne He']%lookup_delete_Some. destruct (Hm _ _ He') as (y&Hy&Hyin). exists y. split; [done|].
    apply elem_of_without. split; [done|]. simpl. intros ->. apply Hne. by eapply NoDup_fst_inj.
  - intros y k' [Hy Hyx]%elem_of_without. destruct (Hl _ _ Hy) as (e'&He'&Hye). exists e'. split; [|done].
    apply lookup_delete_Some. split; [|done]. intros <-. rewrite Hk in He'. simpl in Hyx. congruence.
Qed.

Lemma lruInv_touch m l k e e' x :
  lruInv m l -> m !! k = Some e -> ce_listElement e = Some x -> ce_listElement e' = Some x ->
  lruInv (<[k := e']> m) (MoveToFront x l) /\ (gl_elems (MoveToFront x l)).*2 = k :: filter (fun k' => k' <> k) (gl_elems l).*2.
Proof.
  intros Hinv Hk Hx Hx'. pose proof Hinv as (Hnd&Hlt&Hm&Hl). destruct (Hm _ _ Hk) as (y&Hy&Hin). replace y with x in * by congruence.
  rewrite (MoveToFront_elems _ _ k) by done. cbn [gl_elems]. rewrite fmap_cons, (without_key m l x k) by done. split; [|done].
  split_and!; simpl.
  - constructor; [|by apply without_NoDup]. intros ([z v]&E&[_ Hz]%elem_of_without)%list_elem_of_fmap. by apply Hz.
  - intros z [->|[Hz _]%elem_of_without]%elem_of_cons; [by apply (Hlt (x, k))|by apply Hlt].
  - intros k' e0. rewrite lookup_insert_Some. intros [[<- <-]|[Hne He0]]; [exists x; set_solver|].
    destruct (Hm _ _ He0) as (z&Hz&Hzin). exists z. split; [done|]. apply elem_of_cons. right. apply elem_of_without.
    split; [done|]. simpl. intros ->. apply Hne. by eapply NoDup_fst_inj.
  - intros z k' [[= -> ->]|[Hz Hzx]%elem_of_without]%elem_of_cons; [exists e'; by rewrite lookup_insert_eq|].
    destruct (Hl _ _ Hz) as (e0&He0&Hze). exists e0. rewrite lookup_insert_ne; [done|]. intros <-. simpl in Hzx. congruence.
Qed.

Lemma lruInv_push m l k e :
  lruInv m l -> m !! k = None -> ce_listElement e = Some (gl_next l) ->
  lruInv (<[k := e]> m) (mkGoList ((gl_next l, k) :: gl_elems l) (Pos.succ (gl_next l))).
Proof.
  intros Hinv Hk Hx. pose proof Hinv as (Hnd&Hlt&Hm&Hl). split_and!; simpl.
  - constructor; [|done]. intros (y&E&Hy%Hlt)%list_elem_of_fmap. rewrite <- E in Hy. lia.
  - intros y [->|Hy%Hlt]%elem_of_cons; simpl; lia.
  - intros k' e0. rewrite lookup_insert_Some. intros [[<- <-]|[Hne He0]]; [exists (gl_next l); set_solver|].
    destruct (Hm _ _ He0) as (z&Hz&Hzin). exists z. set_solver.
  - intros z k' [[= -> ->]|Hz]%elem_of_cons; [exists e; by rewrite lookup_insert_eq|].
    destruct (Hl _ _ Hz) as (e0&He0&Hze). exists e0. rewrite lookup_insert_ne; [done|]. congruence.
Qed.

(** *** The heap *)

Lemma matches_delete m K slots slots' k e p :
  matches m K slots -> NoDup slots -> m !! k = Some e -> ce_heapItem e = Some p -> slots ≡ₚ p :: slots' ->
  matches (delete k m) K slots'.
Proof.
  intros [Hm Hs] Hnd Hk Hp Hperm. destruct (Hm _ _ Hk) as (p'&Hp'&_&HK). replace p' with p in * by congruence.
  rewrite Hperm in Hnd. apply NoDup_cons in Hnd as [Hnin _]. split.
  - intros k' e' [Hne He']%lookup_delete_Some. destruct (Hm _ _ He') as (q&Hq&Hqin&HKq). exists q. split_and!; [done| |done].
    rewrite Hperm in Hqin. apply elem_of_cons in Hqin as [->|?]; [|done]. congruence.
  - intros q Hq. destruct (Hs q) as (e'&He'&Hqe); [rewrite Hperm; set_solver|]. exists e'. split; [|done].
    apply lookup_delete_Some. split; [|done]. intros E. rewrite <- E, Hk in He'. injection He' as <-.
    rewrite Hp in Hqe. by injection Hqe as ->.
Qed.

Lemma matches_perm m K slots slots' : slots ≡ₚ slots' -> matches m K slots -> matches m K slots'.
Proof. intros Hp. unfold matches. by setoid_rewrite Hp. Qed.

(** Updating the item of an entry along with the entry. *)
Lemma matches_update m K slots k e e' p :
  matches m K slots -> m !! k = Some e -> ce_heapItem e = Some p -> ce_heapItem e' = Some p ->
  matches (<[k := e']> m) (<[p := (k, ce_accessCount e', ce_lastAccess e')]> K) slots.
Proof.
  intros [Hm Hs] Hk Hp Hp'. split.
  - intros k' e0. rewrite lookup_insert_Some. intros [[<- <-]|[Hne He0]].
    + exists p. destruct (Hm _ _ Hk) as (p0&Hp0&Hin&_). rewrite lookup_fn_insert, decide_True by done. split_and!; congruence || done.
    + destruct (Hm _ _ He0) as (q&Hq&Hqin&HKq). exists q. split_and!; [done..|]. rewrite lookup_fn_insert, decide_False; [done|].
      intros <-. destruct (Hm _ _ Hk) as (p0&Hp0&_&HK0). congruence.
  - intros q Hq. rewrite lookup_fn_insert. case_decide as E.
    + subst q. exists e'. by rewrite lookup_insert_eq.
    + destruct (Hs q Hq) as (e0&He0&Hqe). exists e0. rewrite lookup_insert_ne; [done|]. intros Ek. rewrite <- Ek, Hk in He0. congruence.
Qed.

Lemma matches_add m K slots slots' k e p :
  matches m K slots -> m !! k = None -> ce_heapItem e = Some p -> p ∉ slots -> slots' ≡ₚ p :: slots ->
  matches (<[k := e]> m) (<[p := (k, ce_accessCount e, ce_lastAccess e)]> K) slots'.
Proof.
  intros [Hm Hs] Hk Hp Hnin Hperm. split.
  - intros k' e0. rewrite lookup_insert_Some. setoid_rewrite Hperm. intros [[<- <-]|[Hne He0]].
    + exists p. rewrite lookup_fn_insert, decide_True by done. set_solver.
    + destruct (Hm _ _ He0) as (q&Hq&Hqin&HKq). exists q. rewrite lookup_fn_insert, decide_False by (intros <-; done). set_solver.
  - intros q. rewrite Hperm, elem_of_cons, lookup_fn_insert. intros [->|Hq].
    + rewrite decide_True by done. exists e. by rewrite lookup_insert_eq.
    + rewrite decide_False by (intros <-; done). destruct (Hs q Hq) as (e0&He0&Hqe). exists e0.
      rewrite lookup_insert_ne; [done|]. intros Ek. by rewrite <- Ek, Hk in He0.
Qed.

(** ** The methods *)

Definition crash : InMemoryCache T -> string -> Prop := fun _ _ => False.

Lemma wp_onHeap {A} (m : GoM LfuHeap A) Q c :
  wp m (fun h a => Q (set_heap h c) a) (fun _ _ => False) False (c_lfuHeap c) -> wp (onHeap m) Q crash False c.
Proof. unfold wp, onHeap. by destruct (m (c_lfuHeap c)). Qed.

Lemma wp_onOrder {A} (m : GoM (GoList string) A) Q c :
  wp m (fun l a => Q (set_order l c) a) (fun _ _ => False) False (c_accessOrder c) -> wp (onOrder m) Q crash False c.
Proof. unfold wp, onOrder. by destruct (m (c_accessOrder c)). Qed.

Lemma heapWith_NoDup K N h : heapWith K N h -> NoDup (lh_slots h).
Proof. by intros [(_&_&Hnd&_) _]. Qed.

(** The position of an entry's item. *)
Lemma lfu_position m K N h k e p :
  heapWith K N h -> matches m K (lh_slots h) -> m !! k = Some e -> ce_heapItem e = Some p ->
  exists i, lh_slots h !! i = Some p /\ hi_index (lh_item h p) = Z.of_nat i.
Proof.
  intros [(_&_&_&_&Hi) _] [Hm _] Hk Hp. destruct (Hm _ _ Hk) as (q&Hq&Hin&_). replace q with p in * by congruence.
  apply list_elem_of_lookup in Hin as [i Hi']. eauto.
Qed.

(** What removing entry [k] leaves. *)
Definition removed c (k : string) c' : Prop :=
  cacheOk c' /\ sameConfig c c' /\ c_cache c' = delete k (c_cache c) /\
  (isLRU (c_policy c) = true -> recency c' = filter (fun k' => k' <> k) (recency c)).

Lemma deleteEntry_spec c k e :
  cacheOk c -> c_cache c !! k = Some e -> wp (deleteEntry k e) (fun c' _ => removed c k c') crash False c.
Proof.
  intros [Hen Hinv] Hk. unfold deleteEntry. apply wp_bind, wp_modify, wp_bind, wp_get, wp_bind. cbn [c_policy set_cache].
  destruct (isLRU (c_policy c)) eqn:Hpol.
  - pose proof Hinv as (_&_&Hm&_). destruct (Hm _ _ Hk) as (x&Hx&Hin). rewrite Hx.
    apply wp_onOrder, wp_modify, wp_ret. split_and!; [|done|done|].
    + split; [done|]. cbn [set_order set_cache c_policy c_cache c_accessOrder]. rewrite Hpol. by eapply lruInv_delete.
    + intros _. unfold recency. cbn. by eapply without_key.
  - destruct Hinv as (K&N&Hh&Hm). destruct (proj1 Hm _ _ Hk) as (p&Hp&Hin&HK). rewrite Hp.
    apply wp_ret. destruct (lfu_position _ _ _ _ _ _ _ Hh Hm Hk Hp) as (i&Hi&Hidx). cbn [c_lfuHeap set_cache].
    rewrite Hidx. destruct (Z.leb_spec 0 (Z.of_nat i)) as [_|]; [|lia]. rewrite Nat2Z.id.
    apply wp_bind, wp_onHeap. cbn [c_lfuHeap set_cache].
    eapply wp_mono; [apply (Remove_spec (HeapLaws0 := lfuLaws K N) (c_lfuHeap c) i p); [done|exact Hi]| |done|done].
    intros h' q (Hok&_&Hperm). apply wp_ret. split_and!; [|done|done|congruence].
    split; [done|]. cbn [set_heap set_cache c_policy c_cache c_lfuHeap]. rewrite Hpol. exists K, N. split; [done|].
    eapply matches_delete; [exact Hm|by eapply heapWith_NoDup|done..].
Qed.

(** A heap in which one item changed, seen from its position. *)
Lemma heapBut_change K K' (l : list positive) n i :
  n <= length l -> (forall j p, l !! j = Some p -> j <> i -> K' p = K p) ->
  isHeap (lt := slotLess K) l n -> heapBut (lt := slotLess K') l n i.
Proof.
  intros Hn Heq Hh. assert (heapBut (lt := slotLess K) l n i) as [H1 H2].
  { apply (isHeap_but (HeapLaws0 := lfuLaws K 1)); done. }
  split.
  - intros j Hj Hji Hpi x y Hx Hy. unfold slotLess. rewrite (Heq _ _ Hx), (Heq _ _ Hy) by done. by apply (H1 j).
  - intros j Hj Hp Hi x y Hx Hy. pose proof (parent_lt j ltac:(lia)). pose proof (parent_lt i ltac:(lia)).
    unfold slotLess. rewrite (Heq _ _ Hx), (Heq _ _ Hy) by lia. by apply (H2 j).
Qed.

Lemma goodHeap_write K N h p k cnt t :
  goodHeap K N h -> (K p).1.1 = k ->
  goodHeap (<[p := (k, cnt, t)]> K) N (write_item p (mkItem (hi_key (lh_item h p)) cnt t (hi_index (lh_item h p))) h).
Proof.
  intros (Hn&Hc&Hnd&Hlt&Hi) Hk. split_and!; simpl; try done.
  - intros q. rewrite !lookup_fn_insert. case_decide; [|apply Hc]. subst q. pose proof (Hc p) as E. unfold content in *.
    simpl. rewrite <- E in Hk. simpl in Hk. by subst.
  - intros i q Hq. rewrite lookup_fn_insert. case_decide; [subst q; simpl|]; by apply Hi.
Qed.

(** What using entry [k], now [e], leaves. *)
Definition used c (k : string) e c' : Prop :=
  cacheOk c' /\ sameConfig c c' /\ c_cache c' = <[k := e]> (c_cache c) /\
  (isLRU (c_policy c) = true -> recency c' = k :: filter (fun k' => k' <> k) (recency c)).

Lemma touch_spec c k e0 e :
  cacheOk c -> c_cache c !! k = Some e0 ->
  ce_listElement e = ce_listElement e0 -> ce_heapItem e = ce_heapItem e0 ->
  wp (touch e) (fun c' _ => used c k e c') crash False (set_cache (<[k := e]> (c_cache c)) c).
Proof.
  intros [Hen Hinv] Hk Hl Hhi. unfold touch. apply wp_bind, wp_get. cbn [c_policy set_cache].
  destruct (isLRU (c_policy c)) eqn:Hpol.
  - pose proof Hinv as (_&_&Hm&_). destruct (Hm _ _ Hk) as (x&Hx&Hin). rewrite Hl, Hx. apply wp_onOrder, wp_modify.
    destruct (lruInv_touch _ _ k e0 e x Hinv Hk Hx) as [Hinv' Hrec]; [congruence|]. split_and!; [|done|done|done].
    split; [done|]. cbn [set_order set_cache c_policy c_cache c_accessOrder]. by rewrite Hpol.
  - destruct Hinv as (K&N&Hh&Hm). destruct (proj1 Hm _ _ Hk) as (p&Hp&Hin&HK). rewrite Hhi, Hp.
    destruct (lfu_position _ _ _ _ _ _ _ Hh Hm Hk Hp) as (i&Hi&Hidx). destruct Hh as [Hg Hh].
    apply wp_bind, wp_onHeap, wp_modify, wp_bind, wp_get. cbn [c_lfuHeap set_heap set_cache].
    set (h1 := write_item _ _ _). set (K1 := <[p := (k, ce_accessCount e, ce_lastAccess e)]> K).
    assert (hi_index (lh_item h1 p) = Z.of_nat i) as ->.
    { subst h1. simpl. rewrite lookup_fn_insert, decide_True by done. done. }
    unfold FixAt. destruct (Z.ltb_spec (Z.of_nat i) 0) as [|_]; [lia|]. rewrite Nat2Z.id. apply wp_onHeap.
    cbn [c_lfuHeap set_heap set_cache].
    assert (goodHeap K1 N h1) as Hg1 by (apply goodHeap_write; [done|by rewrite HK]).
    eapply wp_mono; [apply (Fix_spec (HeapLaws0 := lfuLaws K1 N) h1 i Hg1); [by eapply lookup_lt_Some|]| |done|done].
    + apply (heapBut_change K); [done| |exact Hh]. intros j q Hq Hj. subst K1. rewrite lookup_fn_insert, decide_False; [done|].
      intros <-. apply Hj. destruct Hg as (_&_&Hnd&_). by eapply NoDup_lookup.
    + intros h' _ [Hok Hperm]. split_and!; [|done|done|congruence]. split; [done|].
      cbn [set_heap set_cache c_policy c_cache c_lfuHeap]. rewrite Hpol. exists K1, N. split; [done|].
      eapply matches_perm; [symmetry; exact Hperm|]. apply matches_update with (e := e0); [done..|congruence].
Qed.

(** The keys of the recency list are those of the map, each once. *)
Lemma lru_keys_NoDup m l : lruInv m l -> NoDup (gl_elems l).*2.
Proof.
  intros Hinv. pose proof Hinv as (Hnd&_&_&Hl). apply NoDup_fmap_2_strong.
  - intros [x k] [y k'] Hx Hy E. simpl in E. subst k'. by rewrite (lru_key_unique m l x y k).
  - by eapply NoDup_fmap_1.
Qed.

Lemma lru_keys_map m l k : lruInv m l -> k ∈ (gl_elems l).*2 <-> is_Some (m !! k).
Proof.
  intros (_&_&Hm&Hl). rewrite list_elem_of_fmap. split.
  - intros ([x k']&->&Hin). destruct (Hl _ _ Hin) as (e&He&_). eauto.
  - intros [e He]. destruct (Hm _ _ He) as (x&_&Hin). by exists (x, k).
Qed.

Lemma filter_snoc_last (l : list string) (k : string) :
  NoDup (l ++ [k])%list -> filter (fun k' => k' <> k) (l ++ [k])%list = l.
Proof.
  intros (_&Hn&_)%NoDup_app. rewrite filter_app, (filter_cons_False _ k) by tauto. simpl. rewrite app_nil_r.
  apply filter_id. set_solver.
Qed.

(** [e] is not used more often than [e'], nor more recently if as often. *)
Definition notMoreUsed e e' : Prop :=
  (ce_accessCount e < ce_accessCount e')%Z \/
  ce_accessCount e = ce_accessCount e' /\ (ce_lastAccess e <= ce_lastAccess e')%Z.

(** What eviction of [victim] leaves. *)
Definition evicted c (victim : string) c' : Prop :=
  cacheOk c' /\ sameConfig c c' /\ c_cache c' = delete victim (c_cache c) /\
  (exists e, c_cache c !! victim = Some e /\
     (isLRU (c_policy c) = false -> forall k' e', c_cache c !! k' = Some e' -> notMoreUsed e e')) /\
  (isLRU (c_policy c) = true -> recency c = (recency c' ++ [victim])%list).

Lemma cacheOk_counts c hit miss evict_ : cacheOk (set_counts hit miss evict_ c) <-> cacheOk c.
Proof. done. Qed.

Lemma evictOldest_spec c :
  cacheOk c -> isLRU (c_policy c) = true -> c_cache c <> ∅ ->
  wp evictOldest (fun c' _ => exists victim, evicted c victim c') crash False c.
Proof.
  intros Hok Hpol Hne. pose proof Hok as [_ Hinv]. rewrite Hpol in Hinv.
  destruct (map_choose _ Hne) as (k0&e0&Hk0).
  assert (k0 ∈ recency c) as Hin by (apply (lru_keys_map _ _ _ Hinv); eauto).
  unfold evictOldest. apply wp_bind, wp_get. unfold Back.
  destruct (exists_last (l := gl_elems (c_accessOrder c))) as (l&[x victim]&Hl).
  { intros E. unfold recency in Hin. rewrite E in Hin. by apply elem_of_nil in Hin. }
  rewrite Hl, last_snoc. pose proof Hinv as (_&_&_&Hlm). destruct (Hlm x victim) as (e&He&_); [rewrite Hl; set_solver|].
  rewrite He. apply wp_bind. eapply wp_mono; [by apply deleteEntry_spec| |done|done].
  intros c' _ (Hok'&Hcfg&Hcache&Hrec). apply wp_modify. exists victim. split_and!; [done..| |].
  - exists e. split; [done|]. congruence.
  - intros _. cbn. specialize (Hrec Hpol). unfold recency in *. cbn. rewrite Hrec, Hl, fmap_app. cbn.
    rewrite filter_snoc_last; [done|]. pose proof (lru_keys_NoDup _ _ Hinv) as Hnd. by rewrite Hl, fmap_app in Hnd.
Qed.

Lemma evictLeastFrequent_spec c :
  cacheOk c -> isLRU (c_policy c) = false -> c_cache c <> ∅ ->
  wp evictLeastFrequent (fun c' _ => exists victim, evicted c victim c') crash False c.
Proof.
  intros [Hen Hinv] Hpol Hne. rewrite Hpol in Hinv. destruct Hinv as (K&N&Hh&Hm).
  destruct (map_choose _ Hne) as (k0&e0&Hk0). destruct (proj1 Hm _ _ Hk0) as (p0&_&Hin0&_).
  unfold evictLeastFrequent. apply wp_bind, wp_get. unfold lfuLen.
  assert (lh_slots (c_lfuHeap c) <> []) as Hsl by (intros E; rewrite E in Hin0; by apply elem_of_nil in Hin0).
  destruct (Nat.eqb_spec (length (lh_slots (c_lfuHeap c))) 0) as [E|_]; [by apply length_zero_iff_nil in E|].
  apply wp_bind, wp_onHeap. eapply wp_mono; [apply (Pop_spec (HeapLaws0 := lfuLaws K N) _ Hh Hsl)| |done|done].
  intros h' p (Hh'&a&[-> Hidx]&Hperm&Hmin). cbn [view lfuLaws] in Hperm, Hmin. apply wp_bind, wp_get. cbn [c_cache set_heap c_lfuHeap].
  destruct (proj2 Hm a) as (e&He&Hp); [rewrite Hperm; set_solver|].
  assert (hi_key (lh_item h' a) = (K a).1.1) as ->.
  { destruct Hh' as [(_&Hc&_) _]. specialize (Hc a). by rewrite <- Hc. }
  rewrite He. apply wp_bind. unfold deleteEntry. apply wp_bind, wp_modify, wp_bind, wp_get, wp_bind.
  cbn [c_policy set_cache set_heap c_lfuHeap]. rewrite Hpol, Hp. apply wp_ret. rewrite Hidx. cbn [Z.leb]. apply wp_ret, wp_modify.
  set (c' := set_cache _ _).
  exists (K a).1.1. split_and!; [|done|done| |congruence].
  - split; [done|]. cbn. rewrite Hpol. exists K, N. split; [done|].
    eapply matches_delete; [exact Hm|by eapply heapWith_NoDup|done..].
  - exists e. split; [done|]. intros _ k' e' He'. destruct (proj1 Hm _ _ He') as (q&Hq&Hqin&HKq).
    specialize (Hmin q Hqin). unfold slotLess in Hmin. apply contentLess_false in Hmin. rewrite HKq in Hmin.
    destruct (proj1 Hm _ _ He) as (a'&Ha'&_&HKa). replace a' with a in HKa by congruence. rewrite HKa in Hmin.
    simpl in Hmin. unfold notMoreUsed. lia.
Qed.

Lemma evict_spec c :
  cacheOk c -> c_cache c <> ∅ -> wp evict (fun c' _ => exists victim, evicted c victim c') crash False c.
Proof.
  intros Hok Hne. unfold evict. apply wp_bind, wp_get. destruct (isLRU (c_policy c)) eqn:Hpol.
  - by apply evictOldest_spec.
  - by apply evictLeastFrequent_spec.
Qed.

(** What a new entry for [k] leaves. *)
Definition added c (k : string) (v : T) (expiry : option Z) (now : Z) c' : Prop :=
  cacheOk c' /\ sameConfig c c' /\
  (exists e, c_cache c' = <[k := e]> (c_cache c) /\ ce_Value e = v /\ ce_ExpiryTime e = expiry /\
             ce_lastAccess e = now /\ ce_accessCount e = 1%Z) /\
  (isLRU (c_policy c) = true -> recency c' = k :: recency c).

Lemma goodHeap_new K N h i :
  heapWith K N h -> exists h', new_item i h = Ok h' N /\ lh_slots h' = lh_slots h /\ N ∉ lh_slots h /\
    heapWith (<[N := content i]> K) (Pos.succ N) h'.
Proof.
  intros [(Hn&Hc&Hnd&Hlt&Hi) Hh]. assert (N ∉ lh_slots h) as HN by (intros HN%Hlt; lia).
  unfold new_item. rewrite Hn. eexists. split; [done|]. split; [done|]. split; [done|]. split.
  - split_and!; simpl; [done| |done| |].
    + intros p. rewrite !lookup_fn_insert. case_decide; [done|apply Hc].
    + intros p Hp%Hlt. lia.
    + intros j p Hp. rewrite lookup_fn_insert, decide_False; [by apply Hi|]. intros <-. apply HN. by apply list_elem_of_lookup_2 in Hp.
  - intros j Hj x y Hx Hy. unfold slotLess. rewrite !lookup_fn_insert, !decide_False.
    + by apply (Hh j).
    + intros <-. apply HN. by apply list_elem_of_lookup_2 in Hy.
    + intros <-. apply HN. by apply list_elem_of_lookup_2 in Hx.
Qed.

Lemma addEntry_spec c now k v expiry :
  cacheOk c -> c_cache c !! k = None ->
  wp (addEntry now k v expiry) (fun c' _ => added c k v expiry now c') crash False c.
Proof.
  intros [Hen Hinv] Hk. unfold addEntry. apply wp_bind, wp_get, wp_bind. destruct (isLRU (c_policy c)) eqn:Hpol.
  - apply wp_bind, wp_onOrder. unfold wp at 1, PushFront. apply wp_ret, wp_bind, wp_ret, wp_modify. split_and!; [|done| |done].
    + split; [done|]. cbn. rewrite Hpol. by apply lruInv_push.
    + eexists. by split_and!.
  - apply wp_ret, wp_bind, wp_bind, wp_onHeap. destruct Hinv as (K&N&Hh&Hm).
    destruct (goodHeap_new K N (c_lfuHeap c) (mkItem k 1 now 0) Hh) as (h1&Hnew&Hs1&HN&Hh1). unfold wp at 1. rewrite Hnew.
    apply wp_bind, wp_onHeap. cbn [c_lfuHeap set_heap]. set (K1 := <[N := _]> K) in *.
    eapply wp_mono; [apply (Push_spec (HeapLaws0 := lfuLaws K1 (Pos.succ N)) h1 N N); [done|]| |done|done].
    { split; [done|]. rewrite Hs1. split; [done|lia]. }
    intros h2 _ [Hh2 Hperm]. cbn [view lfuLaws] in Hperm. apply wp_ret, wp_modify. split_and!; [|done| |congruence].
    + split; [done|]. cbn. rewrite Hpol. exists K1, (Pos.succ N). split; [done|].
      rewrite Hs1 in Hperm. subst K1. by apply matches_add with (slots := lh_slots (c_lfuHeap c)).
    + eexists. by split_and!.
Qed.

Definition expiryOf c (now : Z) : option Z := if (0 <? c_ttl c)%Z then Some (now + c_ttl c)%Z else None.

(** What [Set] leaves. *)
Definition setPost c (now : Z) (k : string) (v : T) c' : Prop :=
  match c_cache c !! k with
  | Some e0 => used c k (mkEntry v (expiryOf c now) (ce_listElement e0) (ce_heapItem e0) now (wrap64 (ce_accessCount e0 + 1))) c'
  | None =>
      if (c_size c <=? 0)%Z then c' = c
      else if (c_size c <=? Z.of_nat (size (c_cache c)))%Z then
        exists victim c1, evicted c victim c1 /\ added c1 k v (expiryOf c now) now c'
      else added c k v (expiryOf c now) now c'
  end.

Lemma Set_spec c now k v : cacheOk c -> wp (Set_ now k v) (fun c' _ => setPost c now k v c') crash False c.
Proof.
  intros Hok. pose proof Hok as [Hen _]. unfold Set_. apply wp_bind, wp_get. rewrite Hen. cbn [negb]. fold (expiryOf c now).
  unfold setPost. destruct (c_cache c !! k) as [e0|] eqn:Hk.
  - apply wp_bind, wp_modify. by eapply touch_spec.
  - destruct (Z.leb_spec (c_size c) 0) as [|Hpos]; [done|]. apply wp_bind.
    destruct (Z.leb_spec (c_size c) (Z.of_nat (size (c_cache c)))) as [Hfull|_].
    + eapply wp_mono; [apply evict_spec; [done|]| |done|done].
      { intros E. rewrite E, map_size_empty in Hfull. lia. }
      intros c1 _ [victim Hev]. pose proof Hev as (Hok1&Hcfg&Hc1&_).
      eapply wp_mono; [apply addEntry_spec; [done|]| |done|done]; [|eauto].
      rewrite Hc1. apply lookup_delete_None. by right.
    + apply wp_ret. by apply addEntry_spec.
Qed.

Definition expired (now : Z) e : Prop := exists t, ce_ExpiryTime e = Some t /\ (t < now)%Z.

Lemma expired_test now e : match ce_ExpiryTime e with Some t => (t <? now)%Z | None => false end = true <-> expired now e.
Proof.
  unfold expired. destruct (ce_ExpiryTime e) as [t|].
  - rewrite Z.ltb_lt. split; [eauto|]. by intros (t'&[= <-]&?).
  - split; [done|]. by intros (?&?&_).
Qed.

Definition bumped (now : Z) e : cacheEntry T :=
  mkEntry (ce_Value e) (ce_ExpiryTime e) (ce_listElement e) (ce_heapItem e) now (wrap64 (ce_accessCount e + 1)).

(** What [Get] returns and leaves. *)
Definition getPost c (now now' : Z) (k : string) c' (r : option T) : Prop :=
  match c_cache c !! k with
  | None => r = None /\ c' = addMiss c
  | Some e => (expired now e /\ r = None /\ removed c k c') \/
              (~ expired now e /\ r = Some (ce_Value e) /\ used c k (bumped now' e) c')
  end.

Lemma Get_spec c now now' k : cacheOk c -> wp (Get_ now now' k) (getPost c now now' k) crash False c.
Proof.
  intros Hok. pose proof Hok as [Hen _]. unfold Get_, getPost. apply wp_bind, wp_get. rewrite Hen. cbn [negb].
  destruct (c_cache c !! k) as [e|] eqn:Hk; [|by apply wp_bind, wp_modify, wp_ret].
  destruct (match ce_ExpiryTime e with Some t => (t <? now)%Z | None => false end) eqn:Hexp.
  - apply wp_bind. eapply wp_mono; [by apply deleteEntry_spec| |done|done]. intros c' [] Hr.
    apply wp_bind, wp_modify, wp_ret. left. by rewrite <- expired_test.
  - apply wp_bind, wp_modify, wp_bind. eapply wp_mono; [by eapply (touch_spec c k e (bumped now' e))| |done|done].
    intros c' [] Hu. apply wp_bind, wp_modify, wp_ret. right. rewrite <- expired_test, Hexp. done.
Qed.

Lemma Delete_spec c k : cacheOk c ->
  wp (Delete_ k) (fun c' _ => match c_cache c !! k with Some _ => removed c k c' | None => c' = c end) crash False c.
Proof.
  intros Hok. pose proof Hok as [Hen _]. unfold Delete_. apply wp_bind, wp_get. rewrite Hen. cbn [negb].
  destruct (c_cache c !! k) as [e|] eqn:Hk; [by apply deleteEntry_spec|done].
Qed.

Lemma heapWith_empty (f : positive -> lfuHeapItem) next : heapWith (fun p => content (f p)) next (emptyHeap next f).
Proof.
  split; [split_and!; simpl; try done; [constructor|by intros p ?%elem_of_nil]|]. intros j Hj. simpl in Hj. lia.
Qed.

Lemma cacheOk_empty enabled name order next f size ttl policy hit miss evict_ :
  enabled = true ->
  cacheOk (mkCache enabled name ∅ (emptyList order) (emptyHeap next f) size ttl policy hit miss evict_ : InMemoryCache T).
Proof.
  intros ->. split; [done|]. simpl. destruct (isLRU policy).
  - split_and!; simpl; [constructor|by intros x ?%elem_of_nil| |by intros x k ?%elem_of_nil].
    intros k e. by rewrite lookup_empty.
  - eexists _, _. split; [apply heapWith_empty|]. split; simpl; [|by intros p ?%elem_of_nil].
    intros k e. by rewrite lookup_empty.
Qed.

Lemma Clear_spec c : cacheOk c ->
  wp Clear (fun c' _ => cacheOk c' /\ sameConfig c c' /\ c_cache c' = ∅ /\ recency c' = []) crash False c.
Proof.
  intros [Hen _]. unfold Clear. apply wp_bind, wp_get. rewrite Hen. cbn [negb]. unfold wp, put.
  split_and!; try done. by apply cacheOk_empty.
Qed.

#[global] Instance expired_dec now e : Decision (expired now e).
Proof. refine (cast_if (decide (match ce_ExpiryTime e with Some t => (t <? now)%Z | None => false end = true))); by rewrite <- expired_test. Defined.

Lemma removed_trans c c1 k (ks : list string) c2 :
  removed c k c1 -> cacheOk c2 -> sameConfig c1 c2 ->
  c_cache c2 = filter (fun kv => kv.1 ∉ ks) (c_cache c1) ->
  (isLRU (c_policy c1) = true -> recency c2 = filter (fun k' => k' ∉ ks) (recency c1)) ->
  c_cache c2 = filter (fun kv => kv.1 ∉ k :: ks) (c_cache c) /\ sameConfig c c2 /\
  (isLRU (c_policy c) = true -> recency c2 = filter (fun k' => k' ∉ k :: ks) (recency c)).
Proof.
  intros (_&Hcfg&Hc&Hr) Hok2 Hcfg2 Hc2 Hr2. split_and!.
  - rewrite Hc2, Hc. apply map_eq. intros k'. apply option_eq. intros e. rewrite !map_lookup_filter_Some, lookup_delete_Some. set_solver.
  - by eapply sameConfig_trans.
  - intros Hpol. assert (isLRU (c_policy c1) = true) as Hpol1 by (destruct Hcfg as (_&_&_&_&->); done).
    rewrite Hr2, Hr by done. rewrite list_filter_filter. apply list_filter_iff. set_solver.
Qed.

(** The keys of the expired entries of a list. *)
Definition expiredKeys (now : Z) (l : list (string * cacheEntry T)) : list string := (filter (fun kv => expired now kv.2) l).*1.

Definition cleanupBody (now : Z) : nat -> string * cacheEntry T -> unit -> GoM (InMemoryCache T) (Ctl unit) :=
  fun _ '(key, entry) _ =>
  if match ce_ExpiryTime entry with Some e => (e <? now)%Z | None => false end then
    deleteEntry key entry;; mret (Continue tt)
  else mret (Continue tt).

Definition swept c (ks : list string) c' : Prop :=
  cacheOk c' /\ sameConfig c c' /\ c_cache c' = filter (fun kv => kv.1 ∉ ks) (c_cache c) /\
  (isLRU (c_policy c) = true -> recency c' = filter (fun k' => k' ∉ ks) (recency c)).

Lemma swept_nil c : cacheOk c -> swept c [] c.
Proof.
  intros Hok. split_and!; [done..| |].
  - symmetry. apply map_filter_id. set_solver.
  - intros _. symmetry. apply filter_id. set_solver.
Qed.

Lemma cleanup_loop now l : forall i c,
  cacheOk c -> NoDup l.*1 -> (forall k e, (k, e) ∈ l -> c_cache c !! k = Some e) ->
  wp (for_range (cleanupBody now) i l tt) (fun c' _ => swept c (expiredKeys now l) c') crash False c.
Proof.
  induction l as [|[k e] l IH]; intros i c Hok Hnd Hl; [by apply wp_ret, swept_nil|].
  rewrite fmap_cons in Hnd. apply NoDup_cons in Hnd as [Hk Hnd]. cbn [for_range]. apply wp_bind. unfold cleanupBody at 1.
  destruct (match ce_ExpiryTime e with Some t => (t <? now)%Z | None => false end) eqn:Hexp.
  - apply wp_bind. eapply wp_mono; [apply deleteEntry_spec; [done|apply Hl; set_solver]| |done|done].
    intros c1 [] Hr. apply wp_ret. pose proof Hr as (Hok1&Hcfg&Hc1&_). eapply wp_mono; [apply IH; [done..|]| |done|done].
    { intros k' e' Hin. rewrite Hc1. apply lookup_delete_Some. split; [|apply Hl; set_solver].
      intros <-. apply Hk. apply list_elem_of_fmap. by exists (k, e'). }
    intros c2 [] (Hok2&Hcfg2&Hc2&Hr2). unfold expiredKeys. rewrite filter_cons_True by (by apply expired_test).
    destruct (removed_trans _ _ _ _ _ Hr Hok2 Hcfg2 Hc2 Hr2) as (?&?&?). done.
  - apply wp_ret. eapply wp_mono; [apply IH; [done..|]| |done|done]; [set_solver|].
    intros c2 [] H2. unfold expiredKeys. rewrite filter_cons_False; [done|]. cbn. rewrite <- expired_test, Hexp. done.
Qed.

Lemma Cleanup_spec `{MapRange} c now : cacheOk c ->
  wp (CleanupExpired now) (fun c' _ => swept c (expiredKeys now (range (c_cache c))) c') crash False c.
Proof.
  intros Hok. pose proof Hok as [Hen _]. unfold CleanupExpired. apply wp_bind, wp_get. rewrite Hen. cbn [negb].
  apply (cleanup_loop now (range (c_cache c)) 0 c Hok (range_NoDup _)). intros k e. by rewrite elem_of_range.
Qed.

Lemma elem_of_expiredKeys `{MapRange} c now k :
  k ∈ expiredKeys now (range (c_cache c)) <-> exists e, c_cache c !! k = Some e /\ expired now e.
Proof.
  unfold expiredKeys. rewrite list_elem_of_fmap. split.
  - intros ([k' e]&->&[He Hin]%list_elem_of_filter). apply elem_of_range in Hin. eauto.
  - intros (e&Hk&He). exists (k, e). split; [done|]. apply list_elem_of_filter. by rewrite elem_of_range.
Qed.
End Invariant.

(** ** Runs *)

Section Runs.
Context {T : Type} `{MapRange}.
Implicit Types (c : InMemoryCache T).

(** The calls, with the readings of the clock they make. *)
Inductive CacheOp : Type :=
| COSet (now : Z) (k : string) (v : T)
| COGet (now now' : Z) (k : string)
| CODelete (k : string)
| COClear
| COCleanup (now : Z).

(** The result of a [Get]; the other calls return nothing. *)
Definition cacheOp (op : CacheOp) : GoM (InMemoryCache T) (option T) :=
  match op with
  | COSet now k v => Set_ now k v;; mret None
  | COGet now now' k => Get_ now now' k
  | CODelete k => Delete_ k;; mret None
  | COClear => Clear;; mret None
  | COCleanup now => CleanupExpired now;; mret None
  end.

Fixpoint runCache (ops : list CacheOp) : GoM (InMemoryCache T) (list (option T)) :=
  match ops with
  | [] => mret []
  | op :: ops' => r ← cacheOp op; rs ← runCache ops'; mret (r :: rs)
  end.

(** What a call leaves, and the result of a [Get]. *)
Definition opPost (op : CacheOp) c c' (r : option T) : Prop :=
  match op with
  | COSet now k v => setPost c now k v c' /\ r = None
  | COGet now now' k => getPost c now now' k c' r
  | CODelete k => match c_cache c !! k with Some _ => removed c k c' | None => c' = c end /\ r = None
  | COClear => (cacheOk c' /\ sameConfig c c' /\ c_cache c' = ∅ /\ recency c' = []) /\ r = None
  | COCleanup now => swept c (expiredKeys now (range (c_cache c))) c' /\ r = None
  end.

Lemma cacheOp_spec op c : cacheOk c -> wp (cacheOp op) (opPost op c) crash False c.
Proof.
  intros Hok. destruct op as [now k v|now now' k|k| |now]; cbn [cacheOp opPost].
  - apply wp_bind. eapply wp_mono; [by apply Set_spec| |done|done]. intros c' [] Hp. by apply wp_ret.
  - by apply Get_spec.
  - apply wp_bind. eapply wp_mono; [by apply Delete_spec| |done|done]. intros c' [] Hp. by apply wp_ret.
  - apply wp_bind. eapply wp_mono; [by apply Clear_spec| |done|done]. intros c' [] Hp. by apply wp_ret.
  - apply wp_bind. eapply wp_mono; [by apply Cleanup_spec| |done|done]. intros c' [] Hp. by apply wp_ret.
Qed.

Lemma setPost_ok c now k v c' : cacheOk c -> setPost c now k v c' -> cacheOk c' /\ sameConfig c c'.
Proof.
  intros Hok. unfold setPost. destruct (c_cache c !! k); [by intros (?&?&_)|]. case_match; [by intros ->|].
  case_match; [|by intros (?&?&_)]. intros (victim&c1&(_&Hcfg&_)&(Hok'&Hcfg'&_)). split; [done|]. by eapply sameConfig_trans.
Qed.

Lemma opPost_ok op c c' r : cacheOk c -> opPost op c c' r -> cacheOk c' /\ sameConfig c c'.
Proof.
  intros Hok. destruct op as [now k v|now now' k|k| |now]; cbn [opPost].
  - intros [Hp _]. by eapply setPost_ok.
  - unfold getPost. destruct (c_cache c !! k); [|intros [_ ->]; done].
    intros [(_&_&Hr)|(_&_&Hr)]; destruct Hr as (?&?&_); done.
  - intros [Hp _]. destruct (c_cache c !! k); [|by subst]. by destruct Hp as (?&?&_).
  - intros [(?&?&_) _]. done.
  - intros [(?&?&_) _]. done.
Qed.

(** An invariant of the calls holds after a run, which does not fail. *)
Lemma runCache_inv (J : InMemoryCache T -> Prop) :
  (forall op c c' r, cacheOk c -> J c -> opPost op c c' r -> J c') ->
  forall ops c, cacheOk c -> J c -> exists c' rs, runCache ops c = Ok c' rs /\ cacheOk c' /\ J c' /\ sameConfig c c'.
Proof.
  intros Hstep. induction ops as [|op ops IH]; intros c Hok HJ; [by exists c, []|].
  cbn [runCache]. unfold mbind, GoM_bind. pose proof (cacheOp_spec op c Hok) as Hop. unfold wp in Hop.
  destruct (cacheOp op c) as [c1 r|? ?|]; [|done|done]. destruct (opPost_ok _ _ _ _ Hok Hop) as [Hok1 Hcfg1].
  destruct (IH c1 Hok1) as (c2&rs&->&Hok2&HJ2&Hcfg2); [exact (Hstep _ _ _ _ Hok HJ Hop)|].
  eexists _, _. split_and!; [done..|]. by eapply sameConfig_trans.
Qed.

Lemma cacheOk_new name size ttl policy : cacheOk (NewInMemoryCache name size ttl policy : InMemoryCache T).
Proof. by apply cacheOk_empty. Qed.

Definition bounded c : Prop := (Z.of_nat (size (c_cache c)) <= Z.max 0 (c_size c))%Z.

Lemma bounded_incl c c' : (size (c_cache c') <= size (c_cache c))%nat -> c_size c' = c_size c -> bounded c -> bounded c'.
Proof. unfold bounded. lia. Qed.

Lemma size_filter_le {A} (P : string * A -> Prop) `{!forall x, Decision (P x)} (m : gmap string A) :
  (size (filter P m) <= size m)%nat.
Proof. apply map_subseteq_size, map_filter_subseteq. Qed.

Lemma bounded_added c k v expiry now c' :
  c_cache c !! k = None -> (Z.of_nat (size (c_cache c)) < c_size c)%Z -> added c k v expiry now c' -> bounded c'.
Proof.
  intros Hk Hs (_&(_&_&Hsz&_)&(e&Hc&_)&_). unfold bounded. rewrite Hc, Hsz, map_size_insert_None by done. lia.
Qed.

Lemma bounded_used c k e0 e c' : c_cache c !! k = Some e0 -> used c k e c' -> bounded c -> bounded c'.
Proof.
  intros Hk (_&(_&_&Hsz&_)&Hc&_). apply bounded_incl; [|done]. rewrite Hc, map_size_insert_Some; [done|eauto].
Qed.

Lemma bounded_removed c k c' : removed c k c' -> bounded c -> bounded c'.
Proof.
  intros (_&(_&_&Hsz&_)&Hc&_). apply bounded_incl; [|done]. rewrite Hc. apply map_subseteq_size, delete_subseteq.
Qed.

Lemma bounded_op op c c' r : cacheOk c -> bounded c -> opPost op c c' r -> bounded c'.
Proof.
  intros Hok Hb. destruct op as [now k v|now now' k|k| |now]; cbn [opPost].
  - intros [Hp _]. unfold setPost in Hp. destruct (c_cache c !! k) as [e0|] eqn:Hk; [by eapply bounded_used|].
    destruct (Z.leb_spec (c_size c) 0); [by subst|]. destruct (Z.leb_spec (c_size c) (Z.of_nat (size (c_cache c)))).
    + destruct Hp as (victim&c1&(_&(_&_&Hsz&_)&Hc1&(e&He&_)&_)&Ha). eapply bounded_added; [..|exact Ha].
      * rewrite Hc1. apply lookup_delete_None. by right.
      * rewrite Hc1, map_size_delete_Some by eauto. unfold bounded in Hb. rewrite Hsz. lia.
    + eapply bounded_added; [..|exact Hp]; [done|lia].
  - unfold getPost. destruct (c_cache c !! k) as [e|] eqn:Hk; [|by intros [_ ->]].
    intros [(_&_&Hr)|(_&_&Hr)]; [by eapply bounded_removed|by eapply bounded_used].
  - intros [Hp _]. destruct (c_cache c !! k); [by eapply bounded_removed|by subst].
  - intros [(_&(_&_&Hsz&_)&Hc&_) _]. unfold bounded. rewrite Hc, map_size_empty. lia.
  - intros [(_&(_&_&Hsz&_)&Hc&_) _]. eapply bounded_incl; [|done|done]. rewrite Hc. apply size_filter_le.
Qed.

(** Whatever calls are made, under either eviction policy, the cache
    never panics and never holds more entries than its size allows; a size
    of zero or less means that it stays empty. *)
Theorem cache_stays_within_its_size ops name size_ ttl policy :
  exists c outs, runCache ops (NewInMemoryCache name size_ ttl policy) = Ok c outs /\
                 (Z.of_nat (size (c_cache c)) <= Z.max 0 size_)%Z.
Proof.
  destruct (runCache_inv bounded bounded_op ops _ (cacheOk_new name size_ ttl policy)) as (c&outs&Hr&_&Hb&Hcfg).
  { unfold bounded, NewInMemoryCache. cbn [c_cache c_size]. rewrite map_size_empty. lia. }
  exists c, outs. split; [done|]. unfold bounded in Hb. destruct Hcfg as (_&_&Hs&_). by rewrite Hs in Hb.
Qed.

(** Under the LFU policy, storing a new key in a full cache removes
    exactly one entry, and no entry was used less often than it or, if as
    often, less recently; the other entries and the new one are there. *)
Theorem lfu_evicts_the_least_used ops name size_ ttl c outs now k v :
  runCache ops (NewInMemoryCache name size_ ttl "LFU") = Ok c outs ->
  c_cache c !! k = None -> (0 < size_ <= Z.of_nat (size (c_cache c)))%Z ->
  exists c' victim e, Set_ now k v c = Ok c' tt /\ c_cache c !! victim = Some e /\
    (forall k' e', c_cache c !! k' = Some e' -> notMoreUsed e e') /\
    (forall k', k' <> k -> c_cache c' !! k' = delete victim (c_cache c) !! k') /\
    (ce_Value <$> c_cache c' !! k) = Some v.
Proof.
  intros Hrun Hk Hs. destruct (runCache_inv (fun _ => True) ltac:(done) ops _ (cacheOk_new name size_ ttl "LFU") I) as (c1&o&Hr&Hok&_&Hcfg).
  rewrite Hrun in Hr. injection Hr as <- <-. destruct Hcfg as (_&_&Hsz&_&Hpol). cbn in Hsz, Hpol.
  pose proof (Set_spec c now k v Hok) as Hset. unfold wp in Hset. destruct (Set_ now k v c) as [c' []|? ?|]; [|done|done].
  unfold setPost in Hset. rewrite Hk, Hsz in Hset. destruct (Z.leb_spec size_ 0); [lia|].
  destruct (Z.leb_spec size_ (Z.of_nat (size (c_cache c)))); [|lia].
  destruct Hset as (victim&c1&(_&_&Hc1&(e&He&Hmin)&_)&(_&_&(e'&Hc'&Hv&_)&_)).
  exists c', victim, e. split_and!; [done|done|apply Hmin; by rewrite Hpol| |].
  - intros k' Hne. by rewrite Hc', lookup_insert_ne, Hc1.
  - rewrite Hc', lookup_insert_eq. simpl. by rewrite Hv.
Qed.

(** ** The reference: a list by recency *)

(** A textbook LRU cache: the keys with their values and expiry times, the
    latest used first. *)
Abbreviation RefCache := (list (string * (T * option Z))).

Definition refDrop (k : string) (l : RefCache) : RefCache := filter (fun kd => kd.1 <> k) l.

Fixpoint refFind (k : string) (l : RefCache) : option (T * option Z) :=
  match l with
  | [] => None
  | (k', d) :: l' => if decide (k' = k) then Some d else refFind k l'
  end.

Definition refExpired (now : Z) (d : T * option Z) : bool :=
  match d.2 with Some t => (t <? now)%Z | None => false end.

Definition refOp (size ttl : Z) (op : CacheOp) (l : RefCache) : RefCache * option T :=
  match op with
  | COSet now k v =>
      let d := (v, if (0 <? ttl)%Z then Some (now + ttl)%Z else None) in
      match refFind k l with
      | Some _ => ((k, d) :: refDrop k l, None)
      | None => if (size <=? 0)%Z then (l, None)
                else ((k, d) :: (if (size <=? Z.of_nat (length l))%Z then removelast l else l), None)
      end
  | COGet now _ k =>
      match refFind k l with
      | Some d => if refExpired now d then (refDrop k l, None) else ((k, d) :: refDrop k l, Some d.1)
      | None => (l, None)
      end
  | CODelete k => (refDrop k l, None)
  | COClear => ([], None)
  | COCleanup now => (filter (fun kd => refExpired now kd.2 = false) l, None)
  end.

Fixpoint refRun (size ttl : Z) (ops : list CacheOp) (l : RefCache) : RefCache * list (option T) :=
  match ops with
  | [] => (l, [])
  | op :: ops' => let '(l', r) := refOp size ttl op l in let '(l'', rs) := refRun size ttl ops' l' in (l'', r :: rs)
  end.

Definition dataOf (e : cacheEntry T) : T * option Z := (ce_Value e, ce_ExpiryTime e).

(** The entries of a cache by recency. *)
Definition byRecency c : RefCache := omap (fun k => (fun e => (k, dataOf e)) <$> c_cache c !! k) (recency c).

Definition shows c (l : RefCache) : Prop :=
  cacheOk c /\ isLRU (c_policy c) = true /\ recency c = l.*1 /\
  (forall k d, (k, d) ∈ l -> exists e, c_cache c !! k = Some e /\ dataOf e = d).

Lemma shows_byRecency c l : shows c l -> byRecency c = l.
Proof.
  intros (_&_&Hr&Hd). unfold byRecency. rewrite Hr. clear Hr. induction l as [|[k d] l IH]; [done|].
  destruct (Hd k d) as (e&He&<-); [set_solver|]. simpl. rewrite He. simpl. f_equal. apply IH. set_solver.
Qed.

Lemma refFind_elem k l d : NoDup l.*1 -> refFind k l = Some d <-> (k, d) ∈ l.
Proof.
  induction l as [|[k' d'] l IH]; simpl; [intros _; split; [done|by intros ?%elem_of_nil]|]. rewrite NoDup_cons, elem_of_cons.
  intros [Hn Hnd]. case_decide as E.
  - subst k'. split; [intros [= ->]; by left|]. intros [[= ->]|Hin]; [done|]. exfalso. apply Hn, list_elem_of_fmap. by exists (k, d).
  - rewrite IH by done. split; [by right|]. intros [[= -> ->]|?]; done.
Qed.

Lemma shows_find c l k : shows c l -> refFind k l = dataOf <$> c_cache c !! k.
Proof.
  intros ([_ Hinv]&Hpol&Hr&Hd). rewrite Hpol in Hinv. pose proof (lru_keys_NoDup _ _ Hinv) as Hnd. fold (recency c) in Hnd. rewrite Hr in Hnd.
  apply option_eq. intros d. rewrite refFind_elem by done. split.
  - intros Hin. destruct (Hd _ _ Hin) as (e&->&<-). done.
  - intros (e&He&->)%fmap_Some. assert (k ∈ recency c) as Hk by (apply (lru_keys_map _ _ _ Hinv); eauto).
    rewrite Hr in Hk. apply list_elem_of_fmap in Hk as ([k' d']&->&Hin). destruct (Hd _ _ Hin) as (e'&He'&<-). cbn [fst] in *.
    rewrite He in He'. by injection He' as <-.
Qed.

Lemma shows_length c l : shows c l -> length l = size (c_cache c).
Proof.
  intros ([_ Hinv]&Hpol&Hr&Hd). rewrite Hpol in Hinv. pose proof (lru_keys_NoDup _ _ Hinv) as Hnd.
  rewrite <- (length_fmap fst l), <- Hr, <- size_dom. unfold recency.
  rewrite <- (size_list_to_set (C := gset string)) by done. f_equal. apply set_eq. intros k.
  rewrite elem_of_list_to_set, elem_of_dom. by apply lru_keys_map.
Qed.

Lemma refDrop_keys k l : (refDrop k l).*1 = filter (fun k' => k' <> k) l.*1.
Proof.
  unfold refDrop. induction l as [|[k' d] l IH]; [done|]. rewrite fmap_cons. cbn [fst]. destruct (decide (k' = k)) as [E|E].
  - rewrite !filter_cons_False by (cbn; tauto). done.
  - rewrite !filter_cons_True by done. rewrite fmap_cons. by f_equal.
Qed.

Lemma elem_of_refDrop k l x : x ∈ refDrop k l <-> x ∈ l /\ x.1 <> k.
Proof. unfold refDrop. rewrite list_elem_of_filter. tauto. Qed.

Lemma sameConfig_policy c c' : sameConfig c c' -> isLRU (c_policy c') = isLRU (c_policy c).
Proof. by intros (_&_&_&_&->). Qed.

Lemma shows_removed c l k c' : shows c l -> removed c k c' -> shows c' (refDrop k l).
Proof.
  intros (_&Hpol&Hr&Hd) (Hok&Hcfg&Hc&Hrec). split_and!; [done|by rewrite (sameConfig_policy _ _ Hcfg)| |].
  - by rewrite Hrec, Hr, refDrop_keys.
  - intros k' d [Hin Hne]%elem_of_refDrop. rewrite Hc, lookup_delete_ne by done. by apply Hd.
Qed.

Lemma shows_used c l k e c' : shows c l -> used c k e c' -> shows c' ((k, dataOf e) :: refDrop k l).
Proof.
  intros (_&Hpol&Hr&Hd) (Hok&Hcfg&Hc&Hrec). split_and!; [done|by rewrite (sameConfig_policy _ _ Hcfg)| |].
  - by rewrite Hrec, Hr, fmap_cons, refDrop_keys.
  - intros k' d [[= -> ->]|[Hin Hne]%elem_of_refDrop]%elem_of_cons; rewrite Hc.
    + exists e. by rewrite lookup_insert_eq.
    + rewrite lookup_insert_ne by done. by apply Hd.
Qed.

Lemma shows_added c l k v expiry now c' : shows c l -> c_cache c !! k = None -> added c k v expiry now c' -> shows c' ((k, (v, expiry)) :: l).
Proof.
  intros (_&Hpol&Hr&Hd) Hk (Hok&Hcfg&(e&Hc&Hv&Hx&_)&Hrec). split_and!; [done|by rewrite (sameConfig_policy _ _ Hcfg)| |].
  - by rewrite Hrec, Hr.
  - intros k' d [[= -> ->]|Hin]%elem_of_cons; rewrite Hc.
    + exists e. rewrite lookup_insert_eq. unfold dataOf. by rewrite Hv, Hx.
    + destruct (Hd _ _ Hin) as (e'&He'&<-). exists e'. rewrite lookup_insert_ne; [done|]. intros <-. congruence.
Qed.

Lemma shows_evicted c l victim c' : shows c l -> evicted c victim c' -> shows c' (removelast l).
Proof.
  intros Hsh (Hok&Hcfg&Hc&(e&He&_)&Hrec). pose proof Hsh as ([_ Hinv]&Hpol&Hr&Hd). specialize (Hrec Hpol). rewrite Hpol in Hinv.
  pose proof (lru_keys_NoDup _ _ Hinv) as Hnd. fold (recency c) in Hnd. rewrite Hrec in Hr, Hnd.
  destruct l as [|x0 l0] eqn:El; [by destruct (recency c')|]. rewrite <- El in *.
  destruct (exists_last (l := l)) as (l'&[k d]&->); [by rewrite El|]. rewrite removelast_last. rewrite fmap_app in Hr.
  apply app_inj_tail in Hr as [Hr Hk]. cbn in Hk. subst k. split_and!; [done|by rewrite (sameConfig_policy _ _ Hcfg)|done|].
  intros k' d' Hin. rewrite Hc, lookup_delete_ne; [apply Hd; set_solver|]. intros ->.
  apply NoDup_app in Hnd as (_&Hn&_). apply (Hn k'); [|set_solver]. rewrite Hr. apply list_elem_of_fmap. by exists (k', d').
Qed.

Lemma shows_swept c l now c' : shows c l -> swept c (expiredKeys now (range (c_cache c))) c' ->
  shows c' (filter (fun kd => refExpired now kd.2 = false) l).
Proof.
  intros (_&Hpol&Hr&Hd) (Hok&Hcfg&Hc&Hrec).
  assert (forall k d, (k, d) ∈ l -> refExpired now d = false <-> k ∉ expiredKeys now (range (c_cache c))) as Hexp.
  { intros k d Hin. destruct (Hd _ _ Hin) as (e&He&<-). rewrite elem_of_expiredKeys, <- not_true_iff_false.
    unfold refExpired, dataOf. cbn [snd]. rewrite expired_test. naive_solver. }
  split_and!; [done|by rewrite (sameConfig_policy _ _ Hcfg)| |].
  - rewrite Hrec, Hr by done. clear Hr Hrec Hd. induction l as [|[k d] l IH]; [done|]. rewrite fmap_cons. cbn [fst].
    assert (refExpired now d = false <-> k ∉ expiredKeys now (range (c_cache c))) as Hkd by (apply Hexp; set_solver).
    destruct (decide (refExpired now d = false)) as [E|E].
    + rewrite !filter_cons_True by (cbn; tauto). rewrite fmap_cons. f_equal. apply IH. set_solver.
    + rewrite !filter_cons_False by (cbn; tauto). apply IH. set_solver.
  - intros k d [Hx Hin]%list_elem_of_filter. destruct (Hd _ _ Hin) as (e&He&<-). exists e. split; [|done].
    rewrite Hc. apply map_lookup_filter_Some. split; [done|]. by apply (Hexp k (dataOf e)).
Qed.

Lemma refOp_shows op c c' r l :
  shows c l -> opPost op c c' r -> shows c' (refOp (c_size c) (c_ttl c) op l).1 /\ r = (refOp (c_size c) (c_ttl c) op l).2.
Proof.
  intros Hsh. pose proof (shows_find c l) as Hf. destruct op as [now k v|now now' k|k| |now]; cbn [opPost refOp].
  - intros [Hp ->]. unfold setPost in Hp. rewrite Hf by done. destruct (c_cache c !! k) as [e0|] eqn:Hk; cbn [fmap option_fmap option_map].
    + split; [|done]. by apply (shows_used _ _ _ _ _ Hsh Hp).
    + destruct (Z.leb_spec (c_size c) 0); [by subst|]. rewrite (shows_length _ _ Hsh).
      destruct (Z.leb_spec (c_size c) (Z.of_nat (size (c_cache c)))); (split; [|done]).
      * destruct Hp as (victim&c1&Hev&Ha). eapply shows_added; [by eapply shows_evicted| |exact Ha].
        destruct Hev as (_&_&->&_). apply lookup_delete_None. by right.
      * by eapply shows_added.
  - unfold getPost. rewrite Hf by done. destruct (c_cache c !! k) as [e|] eqn:Hk; cbn [fmap option_fmap option_map]; [|by intros [-> ->]].
    unfold refExpired, dataOf. cbn [snd fst]. rewrite <- (expired_test now e). intros [(->&->&Hr)|(Hx&->&Hr)].
    + split; [|done]. by eapply shows_removed.
    + apply not_true_is_false in Hx. rewrite Hx. split; [|done]. by apply (shows_used _ _ _ _ _ Hsh Hr).
  - intros [Hp ->]. split; [|done]. destruct (c_cache c !! k) as [e|] eqn:Hk; [by eapply shows_removed|]. subst c'. cbn.
    unfold refDrop. rewrite filter_id; [done|]. intros [k' d] Hin. cbn. intros ->. destruct Hsh as (_&_&_&Hd).
    destruct (Hd _ _ Hin) as (e&He&_). congruence.
  - intros [(Hok&Hcfg&Hc&Hr) ->]. split; [|done]. cbn. split_and!; [done| |done|by intros ? ? ?%elem_of_nil].
    rewrite (sameConfig_policy _ _ Hcfg). apply Hsh.
  - intros [Hp ->]. split; [|done]. by apply shows_swept with c.
Qed.

(** C32: the LRU cache behaves as the textbook one: every call gives the
    result, and leaves the entries in the order of recency, that the list of
    keys by recency gives. *)
Theorem lru_cache_refines_reference ops name size_ ttl :
  exists c outs, runCache ops (NewInMemoryCache name size_ ttl "LRU") = Ok c outs /\
                 (byRecency c, outs) = refRun size_ ttl ops [].
Proof.
  cut (forall ops c l, shows c l -> exists c' outs, runCache ops c = Ok c' outs /\ (byRecency c', outs) = refRun (c_size c) (c_ttl c) ops l).
  { intros Hrun. apply (Hrun ops (NewInMemoryCache name size_ ttl "LRU") []).
    split_and!; [apply cacheOk_new|done|done|by intros ? ? ?%elem_of_nil]. }
  clear. induction ops as [|op ops IH]; intros c l Hsh; [exists c, []; by rewrite (shows_byRecency c l)|].
  cbn [runCache refRun]. unfold mbind, GoM_bind. pose proof (cacheOp_spec op c (proj1 Hsh)) as Hop. unfold wp in Hop.
  destruct (cacheOp op c) as [c1 r|? ?|]; [|done|done]. destruct (refOp_shows op c c1 r l Hsh Hop) as [Hsh1 ->].
  destruct (opPost_ok _ _ _ _ (proj1 Hsh) Hop) as [_ (_&_&Hs&Ht&_)].
  destruct (refOp (c_size c) (c_ttl c) op l) as [l1 r1]. destruct (IH c1 l1 Hsh1) as (c2&outs&->&Href).
  rewrite Hs, Ht in Href. eexists _, _. split; [done|]. rewrite <- Href. done.
Qed.

(** ** Freshness *)

(** The calls after which an earlier value of [k] may no longer be returned. *)
Definition overwrites (k : string) (op : CacheOp) : Prop :=
  match op with
  | COSet _ k' _ | CODelete k' => k' = k
  | COClear => True
  | COGet _ _ _ | COCleanup _ => False
  end.

(** An entry after a call is one from before, with its value and its expiry
    time, or the one the call stored. *)
Lemma opPost_entries op c c' r k e' :
  opPost op c c' r -> c_cache c' !! k = Some e' ->
  (exists e, c_cache c !! k = Some e /\ dataOf e' = dataOf e /\ ~ overwrites k op) \/
  (exists now v, op = COSet now k v /\ dataOf e' = (v, expiryOf c now)).
Proof.
  intros Hp He'. destruct op as [now k0 v|now now' k0|k0| |now]; cbn [opPost overwrites] in *.
  - destruct Hp as [Hp _]. unfold setPost in Hp. destruct (c_cache c !! k0) as [e0|] eqn:Hk0.
    + destruct Hp as (_&_&Hc&_). rewrite Hc in He'. apply lookup_insert_Some in He' as [[<- <-]|[Hne He']]; [right; eauto|left; eauto].
    + destruct (Z.leb_spec (c_size c) 0). { subst c'. left. exists e'. split_and!; [done..|congruence]. }
      assert (exists m, (forall k e, m !! k = Some e -> c_cache c !! k = Some e) /\
                        exists e1, c_cache c' = <[k0 := e1]> m /\ dataOf e1 = (v, expiryOf c now)) as (m&Hm&e1&Hc'&He1).
      { case_match.
        - destruct Hp as (victim&c1&(_&_&Hc1&_)&(_&_&(e1&Hc'&Hv&Hx&_)&_)). exists (c_cache c1). split.
          + intros k1 e. rewrite Hc1, lookup_delete_Some. tauto.
          + exists e1. unfold dataOf. by rewrite Hv, Hx.
        - destruct Hp as (_&_&(e1&Hc'&Hv&Hx&_)&_). exists (c_cache c). split; [done|]. exists e1. unfold dataOf. by rewrite Hv, Hx. }
      rewrite Hc' in He'. apply lookup_insert_Some in He' as [[<- <-]|[Hne He']]; [right; eauto|left]. eauto.
  - unfold getPost in Hp. left. destruct (c_cache c !! k0) as [e0|] eqn:Hk0; [|destruct Hp as [_ ->]; eauto].
    destruct Hp as [(_&_&(_&_&Hc&_))|(_&_&(_&_&Hc&_))]; rewrite Hc in He'.
    + apply lookup_delete_Some in He' as [_ He']. eauto.
    + apply lookup_insert_Some in He' as [[<- <-]|[_ He']]; eauto.
  - destruct Hp as [Hp _]. left. destruct (c_cache c !! k0) as [e0|] eqn:Hk0; [|subst c'; exists e'; split_and!; [done..|congruence]].
    destruct Hp as (_&_&Hc&_). rewrite Hc in He'. apply lookup_delete_Some in He' as [Hne He']. eauto.
  - destruct Hp as [(_&_&Hc&_) _]. by rewrite Hc, lookup_empty in He'.
  - destruct Hp as [(_&_&Hc&_) _]. rewrite Hc in He'. apply map_lookup_filter_Some in He' as [He' _]. left. eauto.
Qed.

(** Every entry was stored by a call that no later one overwrites. *)
Definition stored (ttl : Z) (hist : list CacheOp) c : Prop := forall k e, c_cache c !! k = Some e ->
  exists pre now0 post, hist = (pre ++ COSet now0 k (ce_Value e) :: post)%list /\
    Forall (fun op => ~ overwrites k op) post /\
    ce_ExpiryTime e = (if (0 <? ttl)%Z then Some (now0 + ttl)%Z else None).

Lemma stored_op hist op c c' r : stored (c_ttl c) hist c -> opPost op c c' r -> stored (c_ttl c) (hist ++ [op])%list c'.
Proof.
  intros Hst Hp k e' He'. destruct (opPost_entries _ _ _ _ _ _ Hp He') as [(e&He&Hd&Hno)|(now&v&->&Hd)].
  - destruct (Hst _ _ He) as (pre&now0&post&->&Hpost&Hx). exists pre, now0, (post ++ [op])%list.
    unfold dataOf in Hd. injection Hd as -> ->. split_and!; [by rewrite <- app_assoc| |done].
    apply Forall_app. split; [done|]. by apply Forall_singleton.
  - unfold dataOf in Hd. injection Hd as -> ->. exists hist, now, []. by split_and!.
Qed.

Lemma runCache_app ops1 ops2 c c2 outs :
  runCache (ops1 ++ ops2)%list c = Ok c2 outs ->
  exists c1 o1 o2, runCache ops1 c = Ok c1 o1 /\ runCache ops2 c1 = Ok c2 o2.
Proof.
  revert c outs. induction ops1 as [|op ops1 IH]; intros c outs; [intros Hr; by exists c, [], outs|].
  cbn [app runCache]. unfold mbind, GoM_bind. destruct (cacheOp op c) as [c1 r|? ?|]; [|done|done].
  destruct (runCache (ops1 ++ ops2)%list c1) as [c3 rs|? ?|] eqn:E; [|done|done]. intros [= <- <-].
  destruct (IH _ _ E) as (c1'&o1&o2&->&H2). by exists c1', (r :: o1), o2.
Qed.

Lemma runCache_stored name size_ ttl policy ops c outs :
  runCache ops (NewInMemoryCache name size_ ttl policy) = Ok c outs -> cacheOk c /\ c_ttl c = ttl /\ stored ttl ops c.
Proof.
  revert c outs. induction ops as [|op ops IH] using rev_ind; intros c outs.
  { intros [= <- <-]. split_and!; [apply cacheOk_new|done|]. intros k e. cbn. by rewrite lookup_empty. }
  intros (c1&o1&o2&H1&H2)%runCache_app. destruct (IH _ _ H1) as (Hok1&Ht1&Hst1). cbn [runCache] in H2.
  unfold mbind, GoM_bind in H2. pose proof (cacheOp_spec op c1 Hok1) as Hop. unfold wp in Hop.
  destruct (cacheOp op c1) as [c2 r|? ?|]; [|done|done]. injection H2 as <- <-.
  destruct (opPost_ok _ _ _ _ Hok1 Hop) as [Hok2 (_&_&_&Ht2&_)]. split_and!; [done|congruence|].
  rewrite <- Ht1 in Hst1 |- *. by eapply stored_op.
Qed.

(** A hit is fresh: the value a [Get] returns is the one the last [Set]
    of the key stored, no [Delete] or [Clear] came in between, and it has not
    expired. *)
Theorem cache_hits_are_fresh ops name size_ ttl policy c outs now now' k c' v :
  runCache ops (NewInMemoryCache name size_ ttl policy) = Ok c outs ->
  Get_ now now' k c = Ok c' (Some v) ->
  exists pre now0 post, ops = (pre ++ COSet now0 k v :: post)%list /\
    Forall (fun op => ~ overwrites k op) post /\ ((0 < ttl)%Z -> (now <= now0 + ttl)%Z).
Proof.
  intros Hrun Hget. destruct (runCache_stored _ _ _ _ _ _ _ Hrun) as (Hok&Ht&Hst).
  pose proof (wp_Ok _ _ _ _ _ _ _ (Get_spec c now now' k Hok) Hget) as Hp. unfold getPost in Hp.
  destruct (c_cache c !! k) as [e|] eqn:Hk; [|by destruct Hp]. destruct Hp as [(_&?&_)|(Hx&[= ->]&_)]; [done|].
  destruct (Hst _ _ Hk) as (pre&now0&post&->&Hpost&Hexp). exists pre, now0, post. split_and!; [done..|].
  intros Hpos. rewrite (proj2 (Z.ltb_lt 0 ttl) Hpos) in Hexp. destruct (Z.le_gt_cases now (now0 + ttl)); [done|].
  exfalso. apply Hx. exists (now0 + ttl)%Z. split; [done|lia].
Qed.

End Runs.
Arguments CacheOp : clear implicits.

(** ** Concrete runs *)

#[local] Existing Instance MapRange_list.

Definition sampleRun : list (CacheOp nat) :=
  [COSet 0 "a" 1; COSet 1 "b" 2; COGet 2 2 "a"; COSet 3 "c" 3; COGet 4 4 "b"; COGet 5 5 "a"].

Example lru_sample_outputs :
  match runCache sampleRun (NewInMemoryCache "s" 2 100 "LRU") with
  | Ok _ outs => outs = [None; None; Some 1; None; None; Some 1]
  | _ => False
  end.
Proof. vm_compute. reflexivity. Qed.

Definition sampleState (policy : string) : InMemoryCache nat :=
  match runCache sampleRun (NewInMemoryCache "s" 2 100 policy) with
  | Ok c _ => c
  | _ => NewInMemoryCache "s" 2 100 policy
  end.

Lemma lfu_evicts_the_least_used_witness :
  let c := sampleState "LFU" in
  exists c' victim e, Set_ 6 "d" 4 c = Ok c' tt /\ c_cache c !! victim = Some e /\
    (forall k' e', c_cache c !! k' = Some e' -> notMoreUsed e e') /\
    (forall k', k' <> "d" -> c_cache c' !! k' = delete victim (c_cache c) !! k') /\
    (ce_Value <$> c_cache c' !! "d") = Some 4.
Proof.
  refine (lfu_evicts_the_least_used sampleRun "s" 2 100 (sampleState "LFU") [None; None; Some 1; None; None; Some 1] 6 "d" 4 _ _ _).
  - vm_compute. reflexivity.
  - vm_compute. reflexivity.
  - vm_compute. split; [reflexivity|intros [=]].
Defined.

Lemma cache_hits_are_fresh_witness :
  exists pre now0 post, sampleRun = (pre ++ COSet now0 "c" 3 :: post)%list /\
    Forall (fun op => ~ overwrites "c" op) post /\ ((0 < 100)%Z -> (7 <= now0 + 100)%Z).
Proof.
  refine (cache_hits_are_fresh sampleRun "s" 2 100 "LRU" (sampleState "LRU") [None; None; Some 1; None; None; Some 1] 7 7 "c"
            (match Get_ 7 7 "c" (sampleState "LRU") with Ok c' _ => c' | _ => sampleState "LRU" end) 3 _ _).
  - vm_compute. reflexivity.
  - vm_compute. reflexivity.
Defined.
