(* ===== verification/Sdk.v ===== *)
(** * Sdk: the policy SDK (sdk/core/policy/v1alpha2)

    Headers with case-insensitive access, the actions a policy may return,
    the per-phase contexts a policy sees, and the policy interfaces.  A
    policy is a value with the capabilities its Go type implements; a type
    assertion [pol.(I)] is the test for that capability.

    Header maps live in a heap, because the contexts of one request share one
    [*Headers] object: a context holds its location.  The shared context, the
    heap and the policies' own state ([W]) form the [Store] the engine threads
    through every call. *)

From stdpp Require Import base gmap strings list fin_maps.
From S2P Require Import Prelude Values.

#[local] Set Warnings "-register-all".

(** ** headers.go *)

Abbreviation HeaderMap := (gmap string (list string)).

(** [type Headers struct { values map[string][]string }]; [None] is the nil
    map.  A [*Headers] is an [option Headers]. *)
Record Headers : Type := mkHeaders { values : option HeaderMap }.

Definition Headers_Get (h : option Headers) (name : string) : list string :=
  match h with
  | None => []
  | Some h => match values h with
              | None => []
              | Some vs => default [] (vs !! ToLower name)
              end
  end.

Definition Headers_Has (h : option Headers) (name : string) : bool :=
  match h with
  | None => false
  | Some h => match values h with
              | None => false
              | Some vs => bool_decide (is_Some (vs !! ToLower name))
              end
  end.

Definition Headers_GetAll (h : option Headers) : HeaderMap :=
  match h with
  | None => ∅
  | Some h => match values h with None => ∅ | Some vs => vs end
  end.

(** [Iterate]: the arguments of the successive calls to [fn]. *)
Definition Headers_Iterate `{MapRange} (h : option Headers) : list (string * list string) :=
  match h with
  | None => []
  | Some h => match values h with None => [] | Some vs => range vs end
  end.

Definition lower_keys `{MapRange} {A} (m : gmap string A) : gmap string A :=
  foldl (fun acc kv => <[ToLower kv.1 := kv.2]> acc) ∅ (range m).

Definition NewHeaders `{MapRange} (vs : option HeaderMap) : Headers :=
  mkHeaders (Some (lower_keys (default ∅ vs))).

Definition Headers_UnsafeInternalValues (h : option Headers) : option HeaderMap :=
  h ≫= values.

(** ** action.go *)

Record DropHeaderAction : Type := mkDropHeaderAction {
  da_Action : string;
  da_Headers : list string
}.

(** [map[string]map[string]any]: an inner map may be nil. *)
Abbreviation DynMeta := (gmap string (option (gmap string Value))).

Record ImmediateResponse : Type := mkImmediateResponse {
  ir_StatusCode : Z;
  ir_Headers : gmap string string;
  ir_Body : option bytes;
  ir_AnalyticsMetadata : gmap string Value;
  ir_DynamicMetadata : DynMeta;
  ir_AnalyticsHeaderFilter : DropHeaderAction
}.

(** Maps that the code tests against nil ([QueryParametersToAdd],
    [QueryParametersToRemove], [Body]) are options; for the others nil and
    empty behave alike. *)
Record UpstreamRequestHeaderModifications : Type := mkURHM {
  urh_HeadersToSet : gmap string string;
  urh_HeadersToAppend : gmap string (list string);
  urh_HeadersToRemove : list string;
  urh_UpstreamName : option string;
  urh_UpstreamSlot : option string;
  urh_Path : option string;
  urh_Host : option string;
  urh_Method : option string;
  urh_QueryParametersToAdd : option (gmap string (list string));
  urh_QueryParametersToRemove : option (list string);
  urh_AnalyticsMetadata : gmap string Value;
  urh_DynamicMetadata : DynMeta;
  urh_AnalyticsHeaderFilter : DropHeaderAction
}.

Inductive RequestHeaderAction : Type :=
| RHA_Mods (m : UpstreamRequestHeaderModifications)
| RHA_Immediate (r : ImmediateResponse).

Record DownstreamResponseHeaderModifications : Type := mkDRHM {
  drh_HeadersToSet : gmap string string;
  drh_HeadersToAppend : gmap string (list string);
  drh_HeadersToRemove : list string;
  drh_AnalyticsMetadata : gmap string Value;
  drh_DynamicMetadata : DynMeta;
  drh_AnalyticsHeaderFilter : DropHeaderAction
}.

Inductive ResponseHeaderAction : Type :=
| SHA_Mods (m : DownstreamResponseHeaderModifications)
| SHA_Immediate (r : ImmediateResponse).

Record UpstreamRequestModifications : Type := mkURM {
  ur_Body : option bytes;
  ur_HeadersToSet : gmap string string;
  ur_HeadersToAppend : gmap string (list string);
  ur_HeadersToRemove : list string;
  ur_UpstreamName : option string;
  ur_UpstreamSlot : option string;
  ur_Path : option string;
  ur_Host : option string;
  ur_Method : option string;
  ur_QueryParametersToAdd : option (gmap string (list string));
  ur_QueryParametersToRemove : option (list string);
  ur_AnalyticsMetadata : gmap string Value;
  ur_DynamicMetadata : DynMeta;
  ur_AnalyticsHeaderFilter : DropHeaderAction
}.

Inductive RequestAction : Type :=
| RA_Mods (m : UpstreamRequestModifications)
| RA_Immediate (r : ImmediateResponse).

Definition RequestAction_StopExecution (a : RequestAction) : bool :=
  match a with RA_Mods _ => false | RA_Immediate _ => true end.

Record DownstreamResponseModifications : Type := mkDRM {
  dr_Body : option bytes;
  dr_StatusCode : option Z;
  dr_HeadersToSet : gmap string string;
  dr_HeadersToAppend : gmap string (list string);
  dr_HeadersToRemove : list string;
  dr_AnalyticsMetadata : gmap string Value;
  dr_DynamicMetadata : DynMeta;
  dr_AnalyticsHeaderFilter : DropHeaderAction
}.

Inductive ResponseAction : Type :=
| SA_Mods (m : DownstreamResponseModifications)
| SA_Immediate (r : ImmediateResponse).

Definition ResponseAction_StopExecution (a : ResponseAction) : bool :=
  match a with SA_Mods _ => false | SA_Immediate _ => true end.

Record ChunkFields : Type := mkChunkFields {
  cf_Body : option bytes;
  cf_AnalyticsMetadata : gmap string Value;
  cf_DynamicMetadata : DynMeta
}.

(** The only implementation of [StreamingRequestAction]. *)
Inductive StreamingRequestAction : Type :=
| ForwardRequestChunk (f : ChunkFields).

Inductive StreamingResponseAction : Type :=
| ForwardResponseChunk (f : ChunkFields)
| TerminateResponseChunk (f : ChunkFields).

Definition TerminateStream (a : StreamingResponseAction) : bool :=
  match a with ForwardResponseChunk _ => false | TerminateResponseChunk _ => true end.

(** ** interface.go: modes *)

Record ProcessingMode : Type := mkMode {
  RequestHeaderMode : string;
  RequestBodyMode : string;
  ResponseHeaderMode : string;
  ResponseBodyMode : string
}.

Definition HeaderModeSkip : string := "SKIP".
Definition HeaderModeProcess : string := "PROCESS".
Definition BodyModeSkip : string := "SKIP".
Definition BodyModeBuffer : string := "BUFFER".
Definition BodyModeStream : string := "STREAM".

(** ** context.go *)

Abbreviation loc := (positive).

Record Body : Type := mkBody {
  b_Content : option bytes;
  b_EndOfStream : bool;
  b_Present : bool
}.

Record StreamBody : Type := mkStreamBody {
  sb_Chunk : option bytes;
  sb_EndOfStream : bool;
  sb_Index : Z
}.

Inductive AuthContext : Type := mkAuthContext {
  au_Authenticated : bool;
  au_Authorized : bool;
  au_AuthType : string;
  au_Subject : string;
  au_Issuer : string;
  au_Audience : list string;
  au_Scopes : gmap string bool;
  au_CredentialID : string;
  au_Properties : gmap string string;
  au_TypedProperties : gmap string Value;
  au_TokenId : string;
  au_Previous : option AuthContext
}.

Record SharedContext : Type := mkSharedContext {
  sc_ProjectID : string;
  sc_RequestID : string;
  sc_Metadata : gmap string Value;
  sc_APIId : string;
  sc_APIName : string;
  sc_APIVersion : string;
  sc_APIKind : string;
  sc_APIContext : string;
  sc_OperationPath : string;
  sc_AuthContext : option AuthContext
}.

(** policyengine/upstream.go. *)
Record UpstreamInfo : Type := mkUpstreamInfo {
  ui_ClusterName : string;
  ui_URL : string;
  ui_BasePath : string
}.

Definition UpstreamInfo_ToMap (u : UpstreamInfo) : Value :=
  VMap [("cluster_name"%string, VString (ui_ClusterName u));
        ("url"%string, VString (ui_URL u));
        ("base_path"%string, VString (ui_BasePath u))].

Definition value_get (m : list (string * Value)) (k : string) : option Value :=
  (list_to_map m : gmap string Value) !! k.

Definition UpstreamInfoFromMap (m : list (string * Value)) : UpstreamInfo :=
  let get k := match value_get m k with Some (VString s) => s | _ => ""%string end in
  mkUpstreamInfo (get "cluster_name"%string) (get "url"%string) (get "base_path"%string).

Record UpstreamRequestContext : Type := mkUpstreamRequestContext {
  urc_Name : string;
  urc_URL : string;
  urc_BasePath : string
}.

Record UpstreamResponseContext : Type := mkUpstreamResponseContext {
  urs_Name : string;
  urs_URL : string;
  urs_BasePath : string;
  urs_ResponseHeaders : loc
}.

(** The [*SharedContext] every context embeds is the one of the [Store]. *)
Record RequestHeaderContext : Type := mkRequestHeaderContext {
  rh_Headers : loc;
  rh_Path : string;
  rh_Method : string;
  rh_Authority : string;
  rh_Scheme : string;
  rh_Vhost : string;
  rh_Downstream : loc;
  rh_Upstream : option UpstreamRequestContext
}.

Record RequestContext : Type := mkRequestContext {
  rc_Headers : loc;
  rc_Body : option Body;
  rc_Path : string;
  rc_Method : string;
  rc_Authority : string;
  rc_Scheme : string;
  rc_Vhost : string;
  rc_UpstreamInfo : option UpstreamInfo;
  rc_Downstream : loc;
  rc_Upstream : option UpstreamRequestContext
}.

Record RequestStreamContext : Type := mkRequestStreamContext {
  rs_Headers : loc;
  rs_Path : string;
  rs_Method : string;
  rs_Authority : string;
  rs_Scheme : string;
  rs_Vhost : string;
  rs_Downstream : loc;
  rs_Upstream : option UpstreamRequestContext
}.

Record ResponseHeaderContext : Type := mkResponseHeaderContext {
  sh_RequestHeaders : loc;
  sh_RequestBody : option Body;
  sh_RequestPath : string;
  sh_RequestMethod : string;
  sh_ResponseHeaders : loc;
  sh_ResponseStatus : Z;
  sh_Downstream : loc;
  sh_Upstream : UpstreamResponseContext
}.

Record ResponseContext : Type := mkResponseContext {
  rp_RequestHeaders : loc;
  rp_RequestBody : option Body;
  rp_RequestPath : string;
  rp_RequestMethod : string;
  rp_ResponseHeaders : loc;
  rp_ResponseBody : option Body;
  rp_ResponseStatus : Z;
  rp_Downstream : loc;
  rp_Upstream : UpstreamResponseContext
}.

Record ResponseStreamContext : Type := mkResponseStreamContext {
  ss_RequestHeaders : loc;
  ss_RequestBody : option Body;
  ss_RequestPath : string;
  ss_RequestMethod : string;
  ss_ResponseHeaders : loc;
  ss_ResponseStatus : Z;
  ss_Downstream : loc;
  ss_Upstream : UpstreamResponseContext
}.

(** ** The store *)

Record Store (W : Type) : Type := mkStore {
  st_heap : gmap loc Headers;
  st_shared : SharedContext;
  st_world : W;
  st_fresh : nat (* identifiers drawn so far *)
}.

Arguments mkStore {W} _ _ _ _.
Arguments st_heap {W} _.
Arguments st_shared {W} _.
Arguments st_world {W} _.
Arguments st_fresh {W} _.

Definition set_heap {W} (h : gmap loc Headers) (s : Store W) : Store W :=
  mkStore h (st_shared s) (st_world s) (st_fresh s).
Definition set_policy_state {W} (w : W) (sh : SharedContext) (s : Store W) : Store W :=
  mkStore (st_heap s) sh w (st_fresh s).

Definition headers_at {W} (s : Store W) (l : loc) : option Headers := st_heap s !! l.

(** ** interface.go: policies

    A callback reads the store and its context; it may change the shared
    context and its own state, and returns an action, [None] being the nil
    interface value.  Header maps are read-only to policies. *)

Section Policies.
Context {W : Type}.

Definition Callback (Ctx Act : Type) : Type :=
  Store W -> Ctx -> Params -> W * SharedContext * option Act.

Definition ChunkCallback (Ctx Act : Type) : Type :=
  Store W -> Ctx -> StreamBody -> Params -> W * SharedContext * option Act.

(** [StreamingRequestPolicy] embeds [RequestPolicy]. *)
Inductive RequestBodyImpl : Type :=
| NoRequestPolicy
| IsRequestPolicy (OnRequestBody : Callback RequestContext RequestAction)
| IsStreamingRequestPolicy
    (OnRequestBody : Callback RequestContext RequestAction)
    (OnRequestBodyChunk : ChunkCallback RequestStreamContext StreamingRequestAction)
    (NeedsMoreRequestData : W -> bytes -> W * bool).

Inductive ResponseBodyImpl : Type :=
| NoResponsePolicy
| IsResponsePolicy (OnResponseBody : Callback ResponseContext ResponseAction)
| IsStreamingResponsePolicy
    (OnResponseBody : Callback ResponseContext ResponseAction)
    (OnResponseBodyChunk : ChunkCallback ResponseStreamContext StreamingResponseAction)
    (NeedsMoreResponseData : W -> bytes -> W * bool).

Record Policy : Type := mkPolicy {
  Mode : ProcessingMode;
  OnRequestHeaders : option (Callback RequestHeaderContext RequestHeaderAction);
  OnResponseHeaders : option (Callback ResponseHeaderContext ResponseHeaderAction);
  RequestBodyImpl_of : RequestBodyImpl;
  ResponseBodyImpl_of : ResponseBodyImpl
}.

(** Type assertions. *)
Definition asRequestPolicy (p : Policy) : option (Callback RequestContext RequestAction) :=
  match RequestBodyImpl_of p with
  | NoRequestPolicy => None
  | IsRequestPolicy f | IsStreamingRequestPolicy f _ _ => Some f
  end.

Definition asStreamingRequestPolicy (p : Policy) :
    option (ChunkCallback RequestStreamContext StreamingRequestAction * (W -> bytes -> W * bool)) :=
  match RequestBodyImpl_of p with
  | IsStreamingRequestPolicy _ g n => Some (g, n)
  | _ => None
  end.

Definition asResponsePolicy (p : Policy) : option (Callback ResponseContext ResponseAction) :=
  match ResponseBodyImpl_of p with
  | NoResponsePolicy => None
  | IsResponsePolicy f | IsStreamingResponsePolicy f _ _ => Some f
  end.

Definition asStreamingResponsePolicy (p : Policy) :
    option (ChunkCallback ResponseStreamContext StreamingResponseAction * (W -> bytes -> W * bool)) :=
  match ResponseBodyImpl_of p with
  | IsStreamingResponsePolicy _ g n => Some (g, n)
  | _ => None
  end.

End Policies.

Arguments Callback W Ctx Act : clear implicits.
Arguments ChunkCallback W Ctx Act : clear implicits.
Arguments RequestBodyImpl W : clear implicits.
Arguments ResponseBodyImpl W : clear implicits.
Arguments Policy W : clear implicits.

(** ** definition.go *)

Record PolicySpec : Type := mkPolicySpec {
  ps_Name : string;
  ps_Version : string;
  ps_Enabled : bool;
  ps_Raw : Params;
  ps_ExecutionCondition : option string
}.

(** [spec.ExecutionCondition != nil && *spec.ExecutionCondition != ""]. *)
Definition hasCondition (spec : PolicySpec) : bool :=
  match ps_ExecutionCondition spec with
  | Some e => negb (String.eqb e "")
  | None => false
  end.

(** ** Lemmas on headers *)

(** Every key is lower case: the invariant of header maps built by
    [NewHeaders]. *)
Definition lower_map {A} (m : gmap string A) : Prop :=
  map_Forall (fun k _ => ToLower k = k) m.

Lemma foldl_insert_lower_lookup {A} (l : list (string * A)) (acc : gmap string A) k :
  Forall (fun kv => ToLower kv.1 = kv.1) l -> NoDup l.*1 ->
  foldl (fun acc kv => <[ToLower kv.1 := kv.2]> acc) acc l !! k =
    match (list_to_map l : gmap string A) !! k with Some v => Some v | None => acc !! k end.
Proof.
  revert acc. induction l as [|[k' v] l IH]; intros acc Hl Hnd; simpl.
  { by rewrite lookup_empty. }
  apply Forall_cons in Hl as [Hk' Hl]. apply NoDup_cons in Hnd as [Hnin Hnd].
  simpl in *. rewrite IH by done. rewrite Hk', !lookup_insert.
  case_decide as Hd; [subst|done].
  by rewrite not_elem_of_list_to_map_1.
Qed.

Lemma lower_keys_id `{MapRange} {A} (m : gmap string A) : lower_map m -> lower_keys m = m.
Proof.
  intros Hm. apply map_eq. intros k. unfold lower_keys.
  rewrite foldl_insert_lower_lookup; [| |apply range_NoDup].
  - rewrite (list_to_map_proper _ (map_to_list m)); [|apply range_NoDup|apply range_perm].
    rewrite list_to_map_to_list, lookup_empty. by destruct (m !! k).
  - apply Forall_forall. intros [k' v] Hin%elem_of_range. by apply (Hm k' v).
Qed.

Lemma foldl_insert_lower_map {A} (l : list (string * A)) (acc : gmap string A) :
  lower_map acc -> lower_map (foldl (fun acc kv => <[ToLower kv.1 := kv.2]> acc) acc l).
Proof.
  revert acc. induction l as [|[k v] l IH]; intros acc Hacc; simpl; [done|].
  apply IH, map_Forall_insert_2; [apply ToLower_idem|done].
Qed.

Lemma lower_keys_lower `{MapRange} {A} (m : gmap string A) : lower_map (lower_keys m).
Proof. apply foldl_insert_lower_map, map_Forall_empty. Qed.

#[export] Hint Resolve lower_keys_lower : go.
