(* ===== verification/Registry.v ===== *)
(** * Registry: the policy registry and its configuration resolver

    internal/registry/registry.go and config_resolver.go of the policy
    engine.  System parameters may hold [${...}] references into the gateway
    configuration; the resolver evaluates them with CEL, which is an
    interface here ([CEL]: an expression and the configuration give a value
    or an error). *)

From stdpp Require Import base gmap strings list fin_maps sorting.
From Stdlib Require Import Ascii.
From S2P Require Import Prelude GoStrings Version Values Sdk.

#[local] Set Warnings "-register-all".

Open Scope string_scope.

(** ** Text *)

Class CEL := {
  (** Compile, plan and evaluate an expression over the variable [config]. *)
  cel_eval : Params -> string -> string + Value
}.

(** How [fmt] prints a [float64] and values without structure. *)
Class FmtScalar := {
  fmt_float : Z -> Z -> string;
  fmt_opaque : nat -> string
}.

Definition join (sep : string) (l : list string) : string :=
  match l with [] => "" | x :: l' => foldl (fun acc y => acc +:+ sep +:+ y) x l' end.

#[export] Instance string_pair_le_dec {A} :
  RelDecision (fun p q : string * A => String.leb p.1 q.1 = true) := fun p q => decide _.

(** [fmt] prints maps in key order. *)
Definition sort_keys {A} (l : list (string * A)) : list (string * A) :=
  merge_sort (fun p q => String.leb p.1 q.1 = true) l.

(** [fmt.Sprintf("%v", v)]. *)
Fixpoint fmt_v `{FmtScalar} (v : Value) : string :=
  match v with
  | VNil => "<nil>"
  | VBool b => if b then "true" else "false"
  | VInt z => Itoa z
  | VFloat m e => fmt_float m e
  | VString s => s
  | VList l => "[" +:+ join " " (map fmt_v l) +:+ "]"
  | VMap m => "map[" +:+ join " " (map (fun kv => kv.1 +:+ ":" +:+ kv.2)
                 (sort_keys (map (fun kv => (kv.1, fmt_v kv.2)) m))) +:+ "]"
  | VHeaders h => "map[" +:+ join " " (map (fun kv => kv.1 +:+ ":[" +:+ join " " kv.2 +:+ "]")
                 (sort_keys (map_to_list h))) +:+ "]"
  | VOpaque t => fmt_opaque t
  end.

(** ** References: [configRefPattern], a dollar sign and a non-empty
    expression between braces *)

Fixpoint until_brace (s : string) : option (string * string) :=
  match s with
  | EmptyString => None
  | String c s' => if Ascii.eqb c "}" then Some (EmptyString, s')
                   else match until_brace s' with
                        | Some (body, rest) => Some (String c body, rest)
                        | None => None
                        end
  end.

(** The match at the beginning of [s], if any: the expression and the rest. *)
Definition ref_at (s : string) : option (string * string) :=
  match s with
  | String "$" (String "{" s') =>
      match until_brace s' with
      | Some (String c b, rest) => Some (String c b, rest)
      | _ => None
      end
  | _ => None
  end.

Definition placeholder (expr : string) : string := "${" +:+ expr +:+ "}".

(** [FindAllStringSubmatch(s, -1)]: successive leftmost matches, each given by
    its expression; [fuel] bounds the bytes still to scan. *)
Fixpoint find_refs_fuel (fuel : nat) (s : string) : list string :=
  match fuel with
  | O => []
  | Datatypes.S n =>
      match ref_at s with
      | Some (expr, rest) => expr :: find_refs_fuel n rest
      | None => match s with EmptyString => [] | String _ s' => find_refs_fuel n s' end
      end
  end.
Definition find_refs (s : string) : list string := find_refs_fuel (String.length s) s.

(** ** config_resolver.go *)

Record ConfigResolver : Type := mkConfigResolver {
  cr_config : option Params;
  cr_env : bool (* a CEL environment was created *)
}.

Section Resolver.
Context `{CEL} `{FmtScalar} `{MapRange}.

Definition evaluateCEL (r : ConfigResolver) (expression : string) : string + Value :=
  if negb (cr_env r) then inl "CEL environment not initialized"
  else cel_eval (default ∅ (cr_config r)) expression.

(** The loop over the matches of a template, filling [replacements]. *)
Fixpoint collect_replacements (r : ConfigResolver) (strValue : string) (matches : list string)
    (replacements : gmap string string) : string + gmap string string :=
  match matches with
  | [] => inr replacements
  | celExpr :: matches' =>
      let ph := placeholder celExpr in
      match replacements !! ph with
      | Some _ => collect_replacements r strValue matches' replacements
      | None =>
          match evaluateCEL r celExpr with
          | inl err => inl ("config not resolved: failed to evaluate " +:+ Quote ph +:+ " in template "
                              +:+ Quote strValue +:+ ": " +:+ err)
          | inr resolved =>
              collect_replacements r strValue matches' (<[ph := fmt_v resolved]> replacements)
          end
      end
  end.

Definition substitute_template (r : ConfigResolver) (strValue : string) (matches : list string) : string + Value :=
  match collect_replacements r strValue matches ∅ with
  | inl err => inl err
  | inr replacements =>
      inr (VString (foldl (fun result kv => ReplaceAllString kv.1 kv.2 result) strValue (range replacements)))
  end.

(** [resolveValue]; its second argument only selects a log level. *)
Definition resolveValue (r : option ConfigResolver) (value : Value) : string + Value :=
  match r with
  | None => inr value
  | Some r =>
    match cr_config r with
    | None => inr value
    | Some _ =>
      match value with
      | VString strValue =>
        match find_refs strValue with
        | [] => inr value
        | [celExpr] =>
            if String.eqb (placeholder celExpr) strValue then
              match evaluateCEL r celExpr with
              | inl err => inl ("config not resolved: failed to evaluate " +:+ Quote strValue +:+ ": " +:+ err)
              | inr resolved => inr resolved
              end
            else substitute_template r strValue [celExpr]
        | matches => substitute_template r strValue matches
        end
      | _ => inr value
      end
    end
  end.

Definition ResolveValue := resolveValue.

Record systemParamMarker : Type := mkMarker {
  configRef : string;
  defaultValue : option Value; (* [hasDefault] *)
  required : bool
}.

Definition SystemParamConfigRefKey : string := "__wso2_internal_ref".
Definition SystemParamDefaultValueKey : string := "__wso2_internal_default".
Definition systemParamRequiredKey : string := "__wso2_internal_required".

Definition parseSystemParamMarker (value : list (string * Value)) : option systemParamMarker :=
  match value_get value SystemParamConfigRefKey with
  | Some (VString ref_) =>
      if String.eqb ref_ "" then None
      else
        let def_ := value_get value SystemParamDefaultValueKey in
        match value_get value systemParamRequiredKey with
        | None => Some (mkMarker ref_ def_ true)
        | Some (VBool b) => Some (mkMarker ref_ def_ b)
        | Some _ => None
        end
  | _ => None
  end.

Definition isMissingConfigKeyError (err : string) : bool := Contains err "no such key:".

(** A value, left out ([None]), or an error. *)
Definition resolveSystemParamMarker (r : option ConfigResolver) (marker : systemParamMarker) :
    string + option Value :=
  match resolveValue r (VString (configRef marker)) with
  | inr resolved => inr (Some resolved)
  | inl err =>
      if negb (isMissingConfigKeyError err) then inl err
      else match defaultValue marker with
           | Some d => inr (Some d)
           | None => if required marker then inl err else inr None
           end
  end.

Definition keyError (key err : string) : string :=
  "failed to resolve config for key " +:+ Quote key +:+ ": " +:+ err.
Definition indexError (i : nat) (err : string) : string :=
  "failed to resolve config at array index " +:+ Itoa (Z.of_nat i) +:+ ": " +:+ err.

Fixpoint resolveValueRecursive (r : option ConfigResolver) (value : Value) : string + option Value :=
  match value with
  | VString _ => match ResolveValue r value with inl e => inl e | inr v => inr (Some v) end
  | VMap m =>
      match parseSystemParamMarker m with
      | Some marker => resolveSystemParamMarker r marker
      | None =>
          match r ≫= cr_config with
          | None => inr (Some value) (* ResolveMap without a configuration *)
          | Some _ =>
              match (fix go (l : list (string * Value)) : string + list (string * Value) :=
                match l with
                | [] => inr []
                | (key, v) :: l' =>
                    match resolveValueRecursive r v with
                    | inl err => inl (keyError key err)
                    | inr res => match go l' with
                                 | inl e => inl e
                                 | inr rest => inr (match res with Some v' => (key, v') :: rest | None => rest end)
                                 end
                    end
                end) m with
              | inl e => inl e
              | inr m' => inr (Some (VMap m'))
              end
          end
      end
  | VList l =>
      match (fix go (i : nat) (l : list Value) : string + list Value :=
        match l with
        | [] => inr []
        | item :: l' =>
            match resolveValueRecursive r item with
            | inl err => inl (indexError i err)
            | inr res => match go (Datatypes.S i) l' with
                         | inl e => inl e
                         | inr rest => inr (match res with Some v => v :: rest | None => rest end)
                         end
            end
        end) 0 l with
      | inl e => inl e
      | inr l' => inr (Some (VList l'))
      end
  | _ => inr (Some value)
  end.

(** The loop of [ResolveMap] over the entries of a map. *)
Fixpoint resolveEntries (r : option ConfigResolver) (entries : list (string * Value)) (result : Params) :
    string + Params :=
  match entries with
  | [] => inr result
  | (key, value) :: entries' =>
      match resolveValueRecursive r value with
      | inl err => inl (keyError key err)
      | inr (Some resolved) => resolveEntries r entries' (<[key := resolved]> result)
      | inr None => resolveEntries r entries' result
      end
  end.

Definition ResolveMap (r : option ConfigResolver) (m : Params) : string + Params :=
  match r ≫= cr_config with
  | None => inr m
  | Some _ => resolveEntries r (range m) ∅
  end.

End Resolver.

(** ** registry.go *)

Record PolicyMetadata : Type := mkPolicyMetadata {
  pm_RouteName : string;
  pm_APIId : string;
  pm_APIName : string;
  pm_APIVersion : string;
  pm_AttachedTo : string
}.

Record PolicyDefinition : Type := mkPolicyDefinition {
  pd_Name : string;
  pd_Version : string;
  pd_Parameters : Params;
  pd_SystemParameters : Params
}.

(** A factory may keep state of its own (for instance a cache of instances). *)
Definition PolicyFactory (W : Type) : Type :=
  PolicyMetadata -> Params -> W -> W * (string + Policy W).

Record PolicyEntry (W : Type) : Type := mkPolicyEntry {
  Definition_ : PolicyDefinition;
  Factory : PolicyFactory W
}.
Arguments mkPolicyEntry {W} _ _.
Arguments Definition_ {W} _.
Arguments Factory {W} _.

Record PolicyRegistry (W : Type) : Type := mkPolicyRegistry {
  Policies_ : gmap string (PolicyEntry W);
  ConfigResolver_ : option ConfigResolver
}.
Arguments mkPolicyRegistry {W} _ _.
Arguments Policies_ {W} _.
Arguments ConfigResolver_ {W} _.

Definition mergeParams (initParams params : Params) : Params :=
  map_copy_into (map_copy_into ∅ initParams) params.

Definition compositeKey (name version : string) : string := name +:+ ":" +:+ version.

Section Registry.
Context {W : Type} `{CEL} `{FmtScalar} `{MapRange}.

(** [GetRegistry], first call. *)
Definition newRegistry : PolicyRegistry W := mkPolicyRegistry ∅ None.

Definition GetInstance (r : PolicyRegistry W) (name version : string) (metadata : PolicyMetadata)
    (params : Params) : GoM W (Policy W * Params) :=
  let key := compositeKey name version in
  match Policies_ r !! key with
  | None => fail ("policy not found: " +:+ key)
  | Some entry =>
      let initParams := pd_SystemParameters (Definition_ entry) in
      match ConfigResolver_ r with
      | None => fail ("policy " +:+ key +:+ ": ConfigResolver is not initialized")
      | Some cr =>
          match ResolveMap (Some cr) initParams with
          | inl err => fail ("failed to resolve config for policy " +:+ key +:+ ": " +:+ err)
          | inr initParams =>
              let mergedParams := mergeParams initParams params in
              fun w => match Factory entry metadata mergedParams w with
                       | (w', inl err) => Err w' ("failed to create policy instance " +:+ key +:+ ": " +:+ err)
                       | (w', inr instance) => Ok w' (instance, mergedParams)
                       end
          end
      end
  end.

(** [PolicyExists]: the error, if any. *)
Definition PolicyExists (r : PolicyRegistry W) (name version : string) : option string :=
  let key := compositeKey name version in
  match Policies_ r !! key with
  | None => Some ("policy not found: " +:+ key)
  | Some _ => None
  end.

Definition Register (def : PolicyDefinition) (factory : PolicyFactory W) : GoM (PolicyRegistry W) unit := fun r =>
  let majorVer := MajorVersion (pd_Version def) in
  let key := compositeKey (pd_Name def) majorVer in
  match Policies_ r !! key with
  | Some existing =>
      Err r ("duplicate policies for major version " +:+ majorVer +:+ ": attempting to register (name: "
             +:+ pd_Name def +:+ ", version: " +:+ pd_Version def +:+ ") but already registered (name: "
             +:+ pd_Name (Definition_ existing) +:+ ", version: " +:+ pd_Version (Definition_ existing) +:+ ")")
  | None => Ok (mkPolicyRegistry (<[key := mkPolicyEntry def factory]> (Policies_ r)) (ConfigResolver_ r)) tt
  end.

(** [SetConfig], when the CEL environment can be created ([env]). *)
Definition SetConfig (config : option Params) (env : string + unit) : GoM (PolicyRegistry W) unit := fun r =>
  match env with
  | inl err => Err r ("failed to create config resolver: failed to create CEL environment: " +:+ err)
  | inr _ => Ok (mkPolicyRegistry (Policies_ r) (Some (mkConfigResolver config true))) tt
  end.

Definition DumpPolicies (r : PolicyRegistry W) : gmap string PolicyDefinition :=
  Definition_ <$> Policies_ r.

End Registry.

(** ** Lemmas *)

(** Values without references and without markers. *)
Fixpoint refFree (v : Value) : bool :=
  match v with
  | VString s => match find_refs s with [] => true | _ => false end
  | VList l => forallb refFree l
  | VMap m => match parseSystemParamMarker m with
              | Some _ => false
              | None => forallb (fun kv => refFree kv.2) m
              end
  | _ => true
  end.

Section ResolverLemmas.
Context `{CEL} `{FmtScalar} `{MapRange}.

Lemma resolveValue_refFree r s : find_refs s = [] -> resolveValue r (VString s) = inr (VString s).
Proof.
  intros Hs. destruct r as [[[cfg|] env]|]; simpl; [|done|done]. by rewrite Hs.
Qed.

Lemma resolveValueRecursive_refFree r v :
  refFree v = true -> resolveValueRecursive r v = inr (Some v).
Proof.
  induction v as [| | | |s|l IH|m IH| |] using Value_ind'; simpl; try done.
  - intros Hs. unfold ResolveValue. rewrite resolveValue_refFree; [done|]. by destruct (find_refs s).
  - intros Hl. match goal with |- context [?f 0 l] => set (go := f) end.
    assert (forall i, go i l = inr l) as ->; [|done].
    revert Hl. induction IH as [|x l Hx _ IHl]; intros Hl i; simpl in *; [done|].
    apply andb_true_iff in Hl as [Hx' Hl]. rewrite Hx by done. by rewrite IHl.
  - intros Hm. destruct (parseSystemParamMarker m); [done|].
    destruct (r ≫= cr_config); [|done].
    match goal with |- context [?f m] => set (go := f) end.
    assert (go m = inr m) as ->; [|done].
    revert Hm. induction IH as [|[k x] m Hx _ IHm]; intros Hm; simpl in *; [done|].
    apply andb_true_iff in Hm as [Hx' Hm]. rewrite Hx by done. by rewrite IHm.
Qed.

Lemma resolveEntries_refFree r l acc :
  Forall (fun kv => refFree kv.2 = true) l -> NoDup l.*1 ->
  exists m, resolveEntries r l acc = inr m /\
    forall k, m !! k = match (list_to_map l : Params) !! k with Some v => Some v | None => acc !! k end.
Proof.
  intros Hl. revert acc. induction Hl as [|[k v] l Hv _ IH]; intros acc Hnd; simpl.
  { exists acc. split; [done|]. intros k. by rewrite lookup_empty. }
  apply NoDup_cons in Hnd as [Hnin Hnd]. simpl in *. rewrite resolveValueRecursive_refFree by done.
  destruct (IH (<[k:=v]> acc) Hnd) as (m&Hm&Hlk). exists m. split; [done|].
  intros k'. rewrite Hlk, !lookup_insert. case_decide as Hd; [subst|done].
  by rewrite not_elem_of_list_to_map_1.
Qed.

Lemma until_brace_app e rest : String_contains_byte "}" e = false ->
  until_brace (e +:+ String "}" rest) = Some (e, rest).
Proof.
  induction e as [|c e IH]; intros He; [done|]. autorewrite with go.
  cbn [until_brace String_contains_byte] in *.
  apply orb_false_iff in He as [Hc He]. rewrite Ascii.eqb_sym, Hc. by rewrite IH.
Qed.

Lemma find_refs_single e : e <> "" -> String_contains_byte "}" e = false ->
  find_refs (placeholder e) = [e].
Proof.
  intros Hne Hb. unfold find_refs, placeholder.
  change ("${" +:+ e +:+ "}") with (String "$" (String "{" (e +:+ String "}" ""))).
  simpl. rewrite until_brace_app by done. destruct e as [|c e]; [done|]. done.
Qed.

Lemma ref_at_absent s : String_contains_byte "$" s = false -> ref_at s = None.
Proof. destruct s as [|c s]; [done|]. destruct c as [[] [] [] [] [] [] [] []]; done. Qed.

Lemma find_refs_fuel_absent n s : String_contains_byte "$" s = false -> find_refs_fuel n s = [].
Proof.
  revert s. induction n as [|n IH]; intros s Hs; [done|]. cbn [find_refs_fuel].
  rewrite ref_at_absent by done. destruct s as [|c s]; [done|].
  cbn [String_contains_byte] in Hs. apply orb_false_iff in Hs as [_ Hs]. by apply IH.
Qed.

Lemma find_refs_fuel_skip n pre s : String_contains_byte "$" pre = false ->
  find_refs_fuel (String.length pre + n) (pre +:+ s) = find_refs_fuel n s.
Proof.
  induction pre as [|c pre IH]; [done|]. cbn [String_contains_byte]. intros [Hc Hs]%orb_false_iff.
  autorewrite with go. cbn [String.length plus find_refs_fuel].
  assert (ref_at (String c (pre +:+ s)) = None) as ->.
  { destruct c as [[] [] [] [] [] [] [] []]; done. }
  by apply IH.
Qed.

Lemma ref_at_placeholder e post : e <> "" -> String_contains_byte "}" e = false ->
  ref_at (placeholder e +:+ post) = Some (e, post).
Proof.
  intros Hne Hb. unfold placeholder. rewrite !append_assoc_s.
  change ("${" +:+ e +:+ "}" +:+ post) with (String "$" (String "{" (e +:+ String "}" post))).
  cbn [ref_at]. rewrite until_brace_app by done. by destruct e.
Qed.

Lemma find_refs_template pre e post :
  e <> "" -> String_contains_byte "}" e = false ->
  String_contains_byte "$" pre = false -> String_contains_byte "$" post = false ->
  find_refs (pre +:+ placeholder e +:+ post) = [e].
Proof.
  intros Hne Hb Hpre Hpost. unfold find_refs. rewrite length_append, find_refs_fuel_skip by done.
  assert (forall n, find_refs_fuel (S n) (placeholder e +:+ post) = [e]) as Hn.
  { intros n. cbn [find_refs_fuel]. rewrite ref_at_placeholder by done. by rewrite find_refs_fuel_absent. }
  rewrite (length_append (placeholder e)). exact (Hn _).
Qed.

Lemma range_singleton {A} k (v : A) : range {[k := v]} = [(k, v)].
Proof.
  apply Permutation_singleton_r. rewrite range_perm. by rewrite map_to_list_singleton.
Qed.

End ResolverLemmas.

Lemma compositeKey_inj n1 v1 n2 v2 :
  String_contains_byte ":" v1 = false -> String_contains_byte ":" v2 = false ->
  compositeKey n1 v1 = compositeKey n2 v2 -> n1 = n2 /\ v1 = v2.
Proof.
  assert (forall a t, String_contains_byte ":" (a +:+ String ":" t) = true) as Hcol.
  { intros a t. induction a as [|x a IH]; [done|]. autorewrite with go. simpl. rewrite IH. apply orb_true_r. }
  unfold compositeKey. change (":" +:+ v1) with (String ":" v1). change (":" +:+ v2) with (String ":" v2).
  intros H1 H2. revert n2. induction n1 as [|c n1 IH]; intros [|d n2]; autorewrite with go; intros He; simplify_eq; [done| | |].
  - by rewrite Hcol in H1.
  - by rewrite Hcol in H2.
  - destruct (IH n2) as [-> ->]; done.
Qed.

(** ** Theorems *)

Section Theorems.
Context {W : Type} `{CEL} `{FmtScalar} `{MapRange}.

(** Registering a policy succeeds exactly when no policy with the same
    name and major version is registered; it then adds that one entry, which
    every lookup of the name with the major version finds, and leaves all
    other entries alone.  A failed registration changes nothing. *)
Theorem Register_spec (def : PolicyDefinition) (factory : PolicyFactory W) (r : PolicyRegistry W) :
  let key := compositeKey (pd_Name def) (MajorVersion (pd_Version def)) in
  match Register def factory r with
  | Ok r' _ =>
      Policies_ r !! key = None /\
      Policies_ r' !! key = Some (mkPolicyEntry def factory) /\
      PolicyExists r' (pd_Name def) (MajorVersion (pd_Version def)) = None /\
      (forall k, k <> key -> Policies_ r' !! k = Policies_ r !! k) /\
      ConfigResolver_ r' = ConfigResolver_ r
  | Err r' _ => r' = r /\ is_Some (Policies_ r !! key)
  | Panic => False
  end.
Proof.
  intros key. unfold Register. fold key. destruct (Policies_ r !! key) eqn:E; [by eauto|].
  simpl. split_and!; try done.
  - apply lookup_insert_eq.
  - unfold PolicyExists. fold key. simpl. by rewrite lookup_insert_eq.
  - intros k Hk. by rewrite lookup_insert_ne.
Qed.

(** Two policies compete for one registry slot exactly when their names
    and major versions agree, as long as major versions contain no colon. *)
Theorem registry_slots_are_disjoint (d1 d2 : PolicyDefinition) :
  String_contains_byte ":" (MajorVersion (pd_Version d1)) = false ->
  String_contains_byte ":" (MajorVersion (pd_Version d2)) = false ->
  (compositeKey (pd_Name d1) (MajorVersion (pd_Version d1)) =
   compositeKey (pd_Name d2) (MajorVersion (pd_Version d2))
   <-> pd_Name d1 = pd_Name d2 /\ MajorVersion (pd_Version d1) = MajorVersion (pd_Version d2)).
Proof.
  intros H1' H2'. split; [by apply compositeKey_inj|]. by intros [-> ->].
Qed.

(** A policy instance is created from the parameters of the route, which
    win, and the resolved system parameters of the definition for the
    others; the factory receives exactly the parameters that are returned. *)
Theorem GetInstance_params (r : PolicyRegistry W) name version md params w w' pol merged :
  GetInstance r name version md params w = Ok w' (pol, merged) ->
  exists entry cr sys,
    Policies_ r !! compositeKey name version = Some entry /\
    ConfigResolver_ r = Some cr /\
    ResolveMap (Some cr) (pd_SystemParameters (Definition_ entry)) = inr sys /\
    Factory entry md merged w = (w', inr pol) /\
    forall k, merged !! k = match params !! k with Some v => Some v | None => sys !! k end.
Proof.
  unfold GetInstance. intros Hg. destruct (Policies_ r !! _) as [entry|] eqn:He; [|done].
  destruct (ConfigResolver_ r) as [cr|]; [|done].
  destruct (ResolveMap _ _) as [|sys] eqn:Hs; [done|].
  destruct (Factory entry md (mergeParams sys params) w) as [w1 [e|p]] eqn:Hf; simplify_eq.
  exists entry, cr, sys. split_and!; try done.
  intros k. unfold mergeParams, map_copy_into. rewrite !lookup_union, lookup_empty.
  by destruct (params !! k), (sys !! k).
Qed.

(** Resolution leaves a parameter map without references untouched,
    whatever the configuration. *)
Theorem ResolveMap_without_references cr (m : Params) :
  map_Forall (fun _ v => refFree v = true) m -> ResolveMap cr m = inr m.
Proof.
  intros Hm. unfold ResolveMap. destruct (cr ≫= cr_config); [|done].
  destruct (resolveEntries_refFree cr (range m) ∅) as (m'&->&Hlk).
  - apply Forall_forall. intros [k v] Hkv%elem_of_range. by apply (Hm k v).
  - apply range_NoDup.
  - f_equal. apply map_eq. intros k. rewrite Hlk.
    rewrite (list_to_map_proper _ (map_to_list m)); [|apply range_NoDup|apply range_perm].
    rewrite list_to_map_to_list, lookup_empty. by destruct (m !! k).
Qed.

(** A parameter that is one reference takes the value of its expression,
    type included; an evaluation error is reported. *)
Theorem single_reference_keeps_type cfg e :
  e <> "" -> String_contains_byte "}" e = false ->
  let r := Some (mkConfigResolver (Some cfg) true) in
  match cel_eval cfg e with
  | inr v => resolveValueRecursive r (VString (placeholder e)) = inr (Some v)
  | inl err => exists msg, resolveValueRecursive r (VString (placeholder e)) = inl msg
  end.
Proof.
  intros Hne Hb r. unfold resolveValueRecursive, ResolveValue, resolveValue, r. cbn [cr_config].
  rewrite find_refs_single by done. rewrite String.eqb_refl. unfold evaluateCEL. simpl.
  destruct (cel_eval cfg e); eauto.
Qed.

(** A system-parameter marker resolves to the referenced value; when the
    configuration has no such key, to its default if it has one, to an error
    if it is required, and to nothing if it is optional; every other
    evaluation error is an error. *)
Theorem marker_resolution r m marker :
  parseSystemParamMarker m = Some marker ->
  match resolveValue r (VString (configRef marker)) with
  | inr v => resolveValueRecursive r (VMap m) = inr (Some v)
  | inl err =>
      if isMissingConfigKeyError err then
        match defaultValue marker with
        | Some d => resolveValueRecursive r (VMap m) = inr (Some d)
        | None => resolveValueRecursive r (VMap m) = (if required marker then inl err else inr None)
        end
      else resolveValueRecursive r (VMap m) = inl err
  end.
Proof.
  intros Hm. simpl. rewrite Hm. unfold resolveSystemParamMarker.
  destruct (resolveValue r _) as [err|v]; [|done].
  destruct (isMissingConfigKeyError err); simpl; [|done]. by destruct (defaultValue marker).
Qed.

(** A reference inside a longer text is replaced by the printed value of
    its expression after the template expansion of [regexp.ReplaceAllString],
    which is the printed value itself when that contains no dollar sign. *)
Theorem template_substitution cfg pre e post v :
  e <> "" -> String_contains_byte "}" e = false ->
  String_contains_byte "$" pre = false -> String_contains_byte "$" post = false ->
  pre <> "" \/ post <> "" ->
  cel_eval cfg e = inr v ->
  let res := resolveValueRecursive (Some (mkConfigResolver (Some cfg) true))
               (VString (pre +:+ placeholder e +:+ post)) in
  res = inr (Some (VString (pre +:+ expand (fmt_v v) (placeholder e) +:+ post))) /\
  (String_contains_byte "$" (fmt_v v) = false ->
   res = inr (Some (VString (pre +:+ fmt_v v +:+ post)))).
Proof.
  intros Hne Hb Hpre Hpost Hctx Hv res.
  assert (res = inr (Some (VString (pre +:+ expand (fmt_v v) (placeholder e) +:+ post)))) as Hres.
  { unfold res, resolveValueRecursive, ResolveValue, resolveValue. cbn [cr_config].
    rewrite find_refs_template by done.
    assert (String.eqb (placeholder e) (pre +:+ placeholder e +:+ post) = false) as ->.
    { apply String.eqb_neq. intros Heq. apply (f_equal String.length) in Heq. rewrite !length_append in Heq.
      destruct pre, post; simpl in Heq; try lia. by destruct Hctx. }
    unfold substitute_template. cbn [collect_replacements]. rewrite lookup_empty.
    change (evaluateCEL (mkConfigResolver (Some cfg) true) e) with (cel_eval cfg e).
    rewrite Hv. rewrite insert_empty, range_singleton.
    cbn [foldl fst snd]. do 3 f_equal. exact (ReplaceAllString_once _ _ _ _ _ Hpre Hpost). }
  split; [done|]. intros Hd. by rewrite Hres, expand_plain.
Qed.

End Theorems.

(** ** Witnesses *)

(** A configuration language of plain keys: [config.k]. *)
Definition keyCEL : CEL := {|
  cel_eval cfg e :=
    if HasPrefix e "config." then
      match cfg !! string_drop 7 e with
      | Some v => inr v
      | None => inl ("no such key: " +:+ string_drop 7 e)
      end
    else inl "undeclared reference"
|}.
Definition noFloats : FmtScalar := {| fmt_float _ _ := "?"; fmt_opaque _ := "?" |}.
Definition sampleConfig : Params := {["host" := VString "db"; "pw" := VString "a$bc"; "port" := VInt 5432]}.

#[local] Existing Instance keyCEL.
#[local] Existing Instance noFloats.
#[local] Existing Instance MapRange_list.

Definition sampleFactory : PolicyFactory unit := fun _ _ w =>
  (w, inr (mkPolicy (mkMode "SKIP" "SKIP" "SKIP" "SKIP") None None NoRequestPolicy NoResponsePolicy)).
Definition sampleDef : PolicyDefinition :=
  mkPolicyDefinition "jwt" " v1.2.3" ∅ {["url" := VString "http://${config.host}/"; "limit" := VInt 1]}.
Definition sampleRegistry : PolicyRegistry unit :=
  match Register sampleDef sampleFactory newRegistry with
  | Ok r _ => mkPolicyRegistry (Policies_ r) (Some (mkConfigResolver (Some sampleConfig) true))
  | _ => newRegistry
  end.

Lemma registry_slots_are_disjoint_witness :
  compositeKey (pd_Name sampleDef) (MajorVersion (pd_Version sampleDef)) = "jwt:v1" /\
  ~ (compositeKey (pd_Name sampleDef) (MajorVersion (pd_Version sampleDef)) = compositeKey "jwt" (MajorVersion "v2.0.0")).
Proof.
  split; [reflexivity|]. intros He.
  apply (registry_slots_are_disjoint sampleDef (mkPolicyDefinition "jwt" "v2.0.0" ∅ ∅)) in He as [_ Hv];
    [discriminate Hv|reflexivity|reflexivity].
Defined.

Lemma GetInstance_params_witness :
  match GetInstance sampleRegistry "jwt" "v1" (mkPolicyMetadata "r" "" "" "" "") {["limit" := VInt 9]} tt with
  | Ok _ (_, merged) => merged !! "limit" = Some (VInt 9)
  | _ => False
  end.
Proof.
  destruct (GetInstance _ _ _ _ _ _) as [w [pol merged]|w e|] eqn:E; [|vm_compute in E; discriminate E..].
  apply GetInstance_params in E as (entry&cr&sys&_&_&_&_&Hm). rewrite Hm. reflexivity.
Defined.

Lemma ResolveMap_without_references_witness :
  ResolveMap (ConfigResolver_ sampleRegistry) {["a" := VList [VString "$x"; VInt 2]]} = inr {["a" := VList [VString "$x"; VInt 2]]}.
Proof. apply ResolveMap_without_references. apply map_Forall_singleton. reflexivity. Defined.

Lemma single_reference_keeps_type_witness :
  resolveValueRecursive (Some (mkConfigResolver (Some sampleConfig) true)) (VString "${config.port}") = inr (Some (VInt 5432)).
Proof.
  pose proof (single_reference_keeps_type sampleConfig "config.port" ltac:(discriminate) eq_refl) as Hs.
  vm_compute in Hs. vm_compute. exact Hs.
Defined.

Lemma marker_resolution_witness :
  let m := [(SystemParamConfigRefKey, VString "${config.none}"); (systemParamRequiredKey, VBool false)] in
  resolveValueRecursive (Some (mkConfigResolver (Some sampleConfig) true)) (VMap m) = inr None.
Proof.
  intros m.
  pose proof (marker_resolution (Some (mkConfigResolver (Some sampleConfig) true)) m
    (mkMarker "${config.none}" None false) eq_refl) as Hs.
  vm_compute in Hs. vm_compute. exact Hs.
Defined.

(** A configured value with a dollar sign is not inserted as it is. *)
Lemma template_substitution_witness :
  let r := Some (mkConfigResolver (Some sampleConfig) true) in
  resolveValueRecursive r (VString "db=${config.host};") = inr (Some (VString "db=db;")) /\
  resolveValueRecursive r (VString "pw=${config.pw}") = inr (Some (VString "pw=a")).
Proof.
  split.
  - apply (template_substitution sampleConfig "db=" "config.host" ";" (VString "db")); try reflexivity; try discriminate.
    left. discriminate.
  - apply (template_substitution sampleConfig "pw=" "config.pw" "" (VString "a$bc")); try reflexivity; try discriminate.
    left. discriminate.
Defined.
