(* ===== verification/QueryPath.v ===== *)
(** * QueryPath: query-string edits on request paths

    internal/utils/request_modification.go of the policy engine, over the
    operations of Go's [net/url] it calls.  Those operations are an interface
    ([NetURL]): parsing, the query of a URL, its re-encoding and printing. *)

From stdpp Require Import base gmap strings list fin_maps.
From S2P Require Import Prelude.

Class NetURL := {
  URL : Type;
  url_Parse : string -> option URL;             (* [None]: parse error *)
  url_Query : URL -> gmap string (list string);
  url_setRawQuery : string -> URL -> URL;
  url_String : URL -> string;
  Values_Encode : gmap string (list string) -> string;
  QueryEscape : string -> string
}.

(** [url.Values.Add] and [url.Values.Del]. *)
Definition Values_Add (name value : string) (q : gmap string (list string)) :=
  <[name := default [] (q !! name) ++ [value]]> q.
Definition Values_Del (name : string) (q : gmap string (list string)) := delete name q.

Section QueryPath.
Context `{MapRange} `{NetURL}.

(** The parameters to add, one (name, value) pair per loop iteration. *)
Definition query_pairs (parameters : gmap string (list string)) : list (string * string) :=
  concat (map (fun nv => map (pair nv.1) nv.2) (range parameters)).

(** The fallback when the path does not parse: append textually. *)
Definition append_raw (path : string) (parameters : gmap string (list string)) : string :=
  let separator := if Contains path "?" then "&"%string else "?"%string in
  (foldl (fun '(p, sep) nv =>
      (p +:+ sep +:+ QueryEscape nv.1 +:+ "=" +:+ QueryEscape nv.2, "&"%string)%string)
    (path, separator) (query_pairs parameters)).1.

Definition AddQueryParametersToPath (path : string) (parameters : gmap string (list string)) : string :=
  match url_Parse path with
  | None => append_raw path parameters
  | Some parsedURL =>
      let queryParams :=
        foldl (fun q nv => Values_Add nv.1 nv.2 q) (url_Query parsedURL) (query_pairs parameters) in
      url_String (url_setRawQuery (Values_Encode queryParams) parsedURL)
  end.

Definition RemoveQueryParametersFromPath (path : string) (parameters : list string) : string :=
  match url_Parse path with
  | None => path
  | Some parsedURL =>
      let queryParams := foldl (fun q name => Values_Del name q) (url_Query parsedURL) parameters in
      url_String (url_setRawQuery (Values_Encode queryParams) parsedURL)
  end.

End QueryPath.
