(* ===== verification/Executor.v ===== *)
(** * Executor: the policy chain executor

    internal/executor/chain.go of the policy engine: the six phase executors
    (request headers, request body, response headers, response body and the
    two streaming body phases), with their guards, conditions, short circuits
    and in-place mutation of the contexts.  Timing, metrics and tracing are
    left out; everything else a loop body does is kept. *)

From stdpp Require Import base gmap strings list fin_maps.
From S2P Require Import Prelude Values Sdk QueryPath.

(** One entry of [Results].  [pr_Error] is the field only
    [ResponsePolicyResult] has. *)
Record PolicyResult (Act : Type) : Type := mkPolicyResult {
  pr_PolicyName : string;
  pr_PolicyVersion : string;
  pr_Action : option Act;
  pr_Error : option string;
  pr_Skipped : bool
}.

Arguments mkPolicyResult {Act} _ _ _ _ _.
Arguments pr_PolicyName {Act} _.
Arguments pr_PolicyVersion {Act} _.
Arguments pr_Action {Act} _.
Arguments pr_Error {Act} _.
Arguments pr_Skipped {Act} _.

(** The result of a phase: [Results], [ShortCircuited], [FinalAction]. *)
Record ExecutionResult (Act : Type) : Type := mkExecutionResult {
  er_Results : list (PolicyResult Act);
  er_ShortCircuited : bool;
  er_FinalAction : option Act
}.

Arguments mkExecutionResult {Act} _ _ _.
Arguments er_Results {Act} _.
Arguments er_ShortCircuited {Act} _.
Arguments er_FinalAction {Act} _.

Abbreviation RequestHeaderExecutionResult := (ExecutionResult RequestHeaderAction).
Abbreviation ResponseHeaderExecutionResult := (ExecutionResult ResponseHeaderAction).
Abbreviation ResponseExecutionResult := (ExecutionResult ResponseAction).

(** [RequestExecutionResult] also carries the shared metadata. *)
Record RequestExecutionResult : Type := mkRequestExecutionResult {
  re_Result : ExecutionResult RequestAction;
  re_Metadata : gmap string Value
}.

Record StreamingRequestExecutionResult : Type := mkSReqER {
  sq_Results : list (PolicyResult StreamingRequestAction);
  sq_FinalAction : option StreamingRequestAction;
  sq_FinalChunk : option StreamBody
}.

Record StreamingResponseExecutionResult : Type := mkSRespER {
  sr_Results : list (PolicyResult StreamingResponseAction);
  sr_StreamTerminated : bool;
  sr_FinalAction : option StreamingResponseAction;
  sr_FinalChunk : option StreamBody
}.

Definition skippedResult {Act} (spec : PolicySpec) : PolicyResult Act :=
  mkPolicyResult (ps_Name spec) (ps_Version spec) None None true.
Definition executedResult {Act} (spec : PolicySpec) (action : option Act) : PolicyResult Act :=
  mkPolicyResult (ps_Name spec) (ps_Version spec) action None false.

Definition emptyResult {Act} : ExecutionResult Act := mkExecutionResult [] false None.

(** [result.Results = append(result.Results, r)] *)
Definition addResult {Act} (r : PolicyResult Act) (res : ExecutionResult Act) : ExecutionResult Act :=
  mkExecutionResult (er_Results res ++ [r]) (er_ShortCircuited res) (er_FinalAction res).

(** [result.FinalAction = a], with [ShortCircuited] set to [sc]. *)
Definition finish {Act} (sc : bool) (a : option Act) (res : ExecutionResult Act) : ExecutionResult Act :=
  mkExecutionResult (er_Results res) sc a.

(** The [CELEvaluator] interface: an expression and a context give a verdict
    or an error. *)
Record CELEvaluator (W : Type) : Type := mkCELEvaluator {
  EvaluateRequestHeaderCondition : string -> Store W -> RequestHeaderContext -> string + bool;
  EvaluateRequestBodyCondition : string -> Store W -> RequestContext -> string + bool;
  EvaluateResponseHeaderCondition : string -> Store W -> ResponseHeaderContext -> string + bool;
  EvaluateResponseBodyCondition : string -> Store W -> ResponseContext -> string + bool;
  EvaluateStreamingRequestCondition : string -> Store W -> RequestStreamContext -> string + bool;
  EvaluateStreamingResponseCondition : string -> Store W -> ResponseStreamContext -> string + bool
}.

Arguments EvaluateRequestHeaderCondition {W} _ _ _ _.
Arguments EvaluateRequestBodyCondition {W} _ _ _ _.
Arguments EvaluateResponseHeaderCondition {W} _ _ _ _.
Arguments EvaluateResponseBodyCondition {W} _ _ _ _.
Arguments EvaluateStreamingRequestCondition {W} _ _ _ _.
Arguments EvaluateStreamingResponseCondition {W} _ _ _ _.

(** [ChainExecutor]: its registry is unused by the executors and its tracer
    only records. *)
Record ChainExecutor (W : Type) : Type := mkChainExecutor {
  celEvaluator : option (CELEvaluator W)
}.

Arguments mkChainExecutor {W} _.
Arguments celEvaluator {W} _.

(** ** In-place header updates *)

Section HeaderUpdates.
Context `{MapRange}.

(** [for k, v := range toSet { m[norm(k)] = []string{v} }] *)
Definition set_headers (norm : string -> string) (toSet : gmap string string) (m : HeaderMap) : HeaderMap :=
  foldl (fun acc kv => <[norm kv.1 := [kv.2]]> acc) m (range toSet).

(** [for _, k := range toRemove { delete(m, norm(k)) }] *)
Definition remove_headers (norm : string -> string) (toRemove : list string) (m : HeaderMap) : HeaderMap :=
  foldl (fun acc k => delete (norm k) acc) m toRemove.

Definition update_headers norm toSet toRemove (m : HeaderMap) : HeaderMap :=
  remove_headers norm toRemove (set_headers norm toSet m).

(** The same on the object at [l].  Assigning into a nil map panics; deleting
    from one does nothing. *)
Definition updateHeaders {W} (norm : string -> string) (l : loc)
    (toSet : gmap string string) (toRemove : list string) : GoM (Store W) unit := fun s =>
  match Headers_UnsafeInternalValues (headers_at s l) with
  | Some vs =>
      Ok (set_heap (<[l := mkHeaders (Some (update_headers norm toSet toRemove vs))]> (st_heap s)) s) tt
  | None => if decide (toSet = ∅) then Ok s tt else Panic
  end.

End HeaderUpdates.

Section Executor.
Context {W : Type} `{MapRange} `{NetURL}.
Implicit Types (c : ChainExecutor W) (policyList : list (Policy W)) (specs : list PolicySpec).

(** Calling a policy. *)
Definition invoke {Ctx Act} (f : Callback W Ctx Act) (ctx : Ctx) (params : Params) :
    GoM (Store W) (option Act) := fun s =>
  let '(w, sh, a) := f s ctx params in Ok (set_policy_state w sh s) a.

Definition invokeChunk {Ctx Act} (f : ChunkCallback W Ctx Act) (ctx : Ctx) (chunk : StreamBody)
    (params : Params) : GoM (Store W) (option Act) := fun s =>
  let '(w, sh, a) := f s ctx chunk params in Ok (set_policy_state w sh s) a.

(** The condition block every executor has: [true] when the policy is to
    run, an error when the condition cannot be evaluated. *)
Definition conditionMet {Ctx} c
    (evaluate : CELEvaluator W -> string -> Store W -> Ctx -> string + bool)
    (hasExecutionConditions : bool) (spec : PolicySpec) (ctx : Ctx) : GoM (Store W) bool := fun s =>
  if hasExecutionConditions && hasCondition spec then
    match celEvaluator c with
    | None => Ok s true
    | Some cel =>
        match evaluate cel (default ""%string (ps_ExecutionCondition spec)) s ctx with
        | inl err => Err s ("condition evaluation failed for policy " +:+ ps_Name spec +:+ ":"
                             +:+ ps_Version spec +:+ ": " +:+ err)%string
        | inr b => Ok s b
        end
    end
  else Ok s true.

(** Cloning the parameters, with the error the executors wrap. *)
Definition cloneParams (spec : PolicySpec) : GoM (Store W) Params :=
  match deepCopyParams (ps_Raw spec) with
  | inl err => fail ("failed to clone parameters for policy " +:+ ps_Name spec +:+ ":"
                      +:+ ps_Version spec +:+ ": " +:+ err)%string
  | inr p => mret p
  end.

(** ** The block every executor repeats

    A phase is given by the callback it looks for (the type assertion and the
    [Mode()] test), the condition evaluator of its context, what a skipped
    policy leaves in the loop state and what running a policy does. *)
Record Phase (Ctx Cb R : Type) : Type := mkPhase {
  ph_callback : Policy W -> option Cb;
  ph_evaluate : CELEvaluator W -> string -> Store W -> Ctx -> string + bool;
  ph_ctx : R -> Ctx;
  ph_skip : PolicySpec -> R -> R;
  ph_run : Cb -> PolicySpec -> Params -> R -> GoM (Store W) (Ctl R)
}.

Arguments mkPhase {Ctx Cb R} _ _ _ _ _.
Arguments ph_callback {Ctx Cb R} _ _.
Arguments ph_evaluate {Ctx Cb R} _ _ _ _ _.
Arguments ph_ctx {Ctx Cb R} _ _.
Arguments ph_skip {Ctx Cb R} _ _ _.
Arguments ph_run {Ctx Cb R} _ _ _ _ _.

Definition policyBlock {Ctx Cb R} c (ph : Phase Ctx Cb R) (hasExecutionConditions : bool)
    (pol : Policy W) (spec : PolicySpec) (st : R) : GoM (Store W) (Ctl R) :=
  match ph_callback ph pol with
  | None => mret (Continue st)
  | Some callback =>
    if negb (ps_Enabled spec) then mret (Continue (ph_skip ph spec st))
    else
      met ← conditionMet c (ph_evaluate ph) hasExecutionConditions spec (ph_ctx ph st);
      if negb met then mret (Continue (ph_skip ph spec st))
      else params ← cloneParams spec; ph_run ph callback spec params st
  end.

(** [for i, pol := range policyList { spec := specs[i]; ... }] *)
Definition runForward {Ctx Cb R} c (ph : Phase Ctx Cb R) policyList specs
    (hasExecutionConditions : bool) (st : R) : GoM (Store W) R :=
  for_range (fun i pol st =>
      spec ← index specs i;
      policyBlock c ph hasExecutionConditions pol spec st) 0 policyList st.

(** [for i := len(policyList) - 1; i >= 0; i-- { pol := policyList[i]; spec := specs[i]; ... }] *)
Definition runReverse {Ctx Cb R} c (ph : Phase Ctx Cb R) policyList specs
    (hasExecutionConditions : bool) (st : R) : GoM (Store W) R :=
  for_down (fun i st =>
      pol ← index policyList i;
      spec ← index specs i;
      policyBlock c ph hasExecutionConditions pol spec st) (length policyList) st.

(** The loop state when the loops above return an error. *)
Definition forwardState {Ctx Cb R} c (ph : Phase Ctx Cb R) policyList specs
    (hasExecutionConditions : bool) (st : R) : Store W -> R :=
  range_state (fun i pol st =>
      spec ← index specs i;
      policyBlock c ph hasExecutionConditions pol spec st) 0 policyList st.
Definition reverseState {Ctx Cb R} c (ph : Phase Ctx Cb R) policyList specs
    (hasExecutionConditions : bool) (st : R) : Store W -> R :=
  down_state (fun i st =>
      pol ← index policyList i;
      spec ← index specs i;
      policyBlock c ph hasExecutionConditions pol spec st) (length policyList) st.

(** The loop state of the buffered phases: the context being mutated and the
    result being built. *)
Definition skipResult {Ctx Act} (spec : PolicySpec) (st : Ctx * ExecutionResult Act) :
    Ctx * ExecutionResult Act :=
  (st.1, addResult (skippedResult spec) st.2).

(** ** Request header phase *)

Definition requestHeaderCallback (pol : Policy W) :
    option (Callback W RequestHeaderContext RequestHeaderAction) :=
  match OnRequestHeaders pol with
  | None => None
  | Some headerPol =>
      if String.eqb (RequestHeaderMode (Mode pol)) HeaderModeProcess then Some headerPol else None
  end.

(** [if mod, ok := action.(UpstreamRequestHeaderModifications); ok { ... }] *)
Definition applyRequestHeaderAction (action : option RequestHeaderAction)
    (reqCtx : RequestHeaderContext) : GoM (Store W) RequestHeaderContext :=
  match action with
  | Some (RHA_Mods mod_) =>
      updateHeaders ToLower (rh_Headers reqCtx) (urh_HeadersToSet mod_) (urh_HeadersToRemove mod_);;
      mret (mkRequestHeaderContext (rh_Headers reqCtx)
              (default (rh_Path reqCtx) (urh_Path mod_))
              (default (rh_Method reqCtx) (urh_Method mod_))
              (rh_Authority reqCtx) (rh_Scheme reqCtx) (rh_Vhost reqCtx)
              (rh_Downstream reqCtx) (rh_Upstream reqCtx))
  | _ => mret reqCtx
  end.

Definition requestHeaderRun (headerPol : Callback W RequestHeaderContext RequestHeaderAction)
    (spec : PolicySpec) (params : Params) (st : RequestHeaderContext * RequestHeaderExecutionResult) :
    GoM (Store W) (Ctl (RequestHeaderContext * RequestHeaderExecutionResult)) :=
  action ← invoke headerPol st.1 params;
  reqCtx ← applyRequestHeaderAction action st.1;
  let result := addResult (executedResult spec action) st.2 in
  match action with
  | Some (RHA_Immediate _) => mret (Break (reqCtx, finish true action result))
  | _ => mret (Continue (reqCtx, finish (er_ShortCircuited result) action result))
  end.

Definition requestHeaderPhase :
    Phase RequestHeaderContext (Callback W RequestHeaderContext RequestHeaderAction)
      (RequestHeaderContext * RequestHeaderExecutionResult) :=
  mkPhase requestHeaderCallback EvaluateRequestHeaderCondition fst skipResult requestHeaderRun.

Definition ExecuteRequestHeaderPolicies c policyList (reqCtx : RequestHeaderContext) specs
    (hasExecutionConditions : bool) :
    GoM (Store W) (RequestHeaderContext * RequestHeaderExecutionResult) :=
  runForward c requestHeaderPhase policyList specs hasExecutionConditions (reqCtx, emptyResult).

(** The context after an error return: the policies before the failing one
    have changed it in place. *)
Definition requestHeaderCtxAtError c policyList (reqCtx : RequestHeaderContext) specs
    (hasExecutionConditions : bool) (s : Store W) : RequestHeaderContext :=
  (forwardState c requestHeaderPhase policyList specs hasExecutionConditions (reqCtx, emptyResult) s).1.

(** ** Request body phase *)

(** The header names are used here as the policy wrote them. *)
Definition applyRequestModifications (mods : UpstreamRequestModifications) (ctx : RequestContext) :
    GoM (Store W) RequestContext :=
  updateHeaders (fun k => k) (rc_Headers ctx) (ur_HeadersToSet mods) (ur_HeadersToRemove mods);;
  let body := match ur_Body mods with
              | Some b => Some (mkBody (Some b) true true)
              | None => rc_Body ctx
              end in
  let path1 := default (rc_Path ctx) (ur_Path mods) in
  let path2 := match ur_QueryParametersToAdd mods with
               | Some q => AddQueryParametersToPath path1 q | None => path1 end in
  let path3 := match ur_QueryParametersToRemove mods with
               | Some q => RemoveQueryParametersFromPath path2 q | None => path2 end in
  mret (mkRequestContext (rc_Headers ctx) body path3 (default (rc_Method ctx) (ur_Method mods))
          (rc_Authority ctx) (rc_Scheme ctx) (rc_Vhost ctx) (rc_UpstreamInfo ctx)
          (rc_Downstream ctx) (rc_Upstream ctx)).

Definition requestBodyCallback (pol : Policy W) : option (Callback W RequestContext RequestAction) :=
  match asRequestPolicy pol with
  | None => None
  | Some rp => if String.eqb (RequestBodyMode (Mode pol)) BodyModeSkip then None else Some rp
  end.

Definition requestBodyRun (rp : Callback W RequestContext RequestAction)
    (spec : PolicySpec) (params : Params) (st : RequestContext * ExecutionResult RequestAction) :
    GoM (Store W) (Ctl (RequestContext * ExecutionResult RequestAction)) :=
  action ← invoke rp st.1 params;
  let result := addResult (executedResult spec action) st.2 in
  match action with
  | None => mret (Continue (st.1, result))
  | Some a =>
    if RequestAction_StopExecution a then mret (Break (st.1, finish true action result))
    else match a with
         | RA_Mods mods => reqCtx ← applyRequestModifications mods st.1;
                           mret (Continue (reqCtx, result))
         | RA_Immediate _ => mret (Continue (st.1, result))
         end
  end.

Definition requestBodyPhase :
    Phase RequestContext (Callback W RequestContext RequestAction)
      (RequestContext * ExecutionResult RequestAction) :=
  mkPhase requestBodyCallback EvaluateRequestBodyCondition fst skipResult requestBodyRun.

Definition ExecuteRequestPolicies c policyList (reqCtx : RequestContext) specs
    (hasExecutionConditions : bool) : GoM (Store W) (RequestContext * RequestExecutionResult) :=
  st ← runForward c requestBodyPhase policyList specs hasExecutionConditions (reqCtx, emptyResult);
  s ← get;
  mret (st.1, mkRequestExecutionResult st.2 (sc_Metadata (st_shared s))).

Definition requestBodyCtxAtError c policyList (reqCtx : RequestContext) specs
    (hasExecutionConditions : bool) (s : Store W) : RequestContext :=
  (forwardState c requestBodyPhase policyList specs hasExecutionConditions (reqCtx, emptyResult) s).1.

(** ** Response header phase (reverse order) *)

Definition responseHeaderCallback (pol : Policy W) :
    option (Callback W ResponseHeaderContext ResponseHeaderAction) :=
  match OnResponseHeaders pol with
  | None => None
  | Some headerPol =>
      if String.eqb (ResponseHeaderMode (Mode pol)) HeaderModeProcess then Some headerPol else None
  end.

Definition responseHeaderRun (headerPol : Callback W ResponseHeaderContext ResponseHeaderAction)
    (spec : PolicySpec) (params : Params) (st : ResponseHeaderContext * ResponseHeaderExecutionResult) :
    GoM (Store W) (Ctl (ResponseHeaderContext * ResponseHeaderExecutionResult)) :=
  action ← invoke headerPol st.1 params;
  match action with
  | Some (SHA_Mods mod_) =>
      updateHeaders ToLower (sh_ResponseHeaders st.1) (drh_HeadersToSet mod_) (drh_HeadersToRemove mod_)
  | _ => mret tt
  end;;
  let result := addResult (executedResult spec action) st.2 in
  match action with
  | Some (SHA_Immediate _) => mret (Break (st.1, finish true action result))
  | _ => mret (Continue (st.1, finish (er_ShortCircuited result) action result))
  end.

Definition responseHeaderPhase :
    Phase ResponseHeaderContext (Callback W ResponseHeaderContext ResponseHeaderAction)
      (ResponseHeaderContext * ResponseHeaderExecutionResult) :=
  mkPhase responseHeaderCallback EvaluateResponseHeaderCondition fst skipResult responseHeaderRun.

Definition ExecuteResponseHeaderPolicies c policyList (respCtx : ResponseHeaderContext) specs
    (hasExecutionConditions : bool) :
    GoM (Store W) (ResponseHeaderContext * ResponseHeaderExecutionResult) :=
  runReverse c responseHeaderPhase policyList specs hasExecutionConditions (respCtx, emptyResult).

(** ** Response body phase (reverse order) *)

Definition applyResponseModifications (mods : DownstreamResponseModifications) (ctx : ResponseContext) :
    GoM (Store W) ResponseContext :=
  updateHeaders (fun k => k) (rp_ResponseHeaders ctx) (dr_HeadersToSet mods) (dr_HeadersToRemove mods);;
  let body := match dr_Body mods with
              | Some b => Some (mkBody (Some b) true true)
              | None => rp_ResponseBody ctx
              end in
  mret (mkResponseContext (rp_RequestHeaders ctx) (rp_RequestBody ctx) (rp_RequestPath ctx)
          (rp_RequestMethod ctx) (rp_ResponseHeaders ctx) body
          (default (rp_ResponseStatus ctx) (dr_StatusCode mods)) (rp_Downstream ctx) (rp_Upstream ctx)).

Definition responseBodyCallback (pol : Policy W) : option (Callback W ResponseContext ResponseAction) :=
  match asResponsePolicy pol with
  | None => None
  | Some rp => if String.eqb (ResponseBodyMode (Mode pol)) BodyModeSkip then None else Some rp
  end.

Definition responseBodyRun (rp : Callback W ResponseContext ResponseAction)
    (spec : PolicySpec) (params : Params) (st : ResponseContext * ResponseExecutionResult) :
    GoM (Store W) (Ctl (ResponseContext * ResponseExecutionResult)) :=
  action ← invoke rp st.1 params;
  let result := addResult (executedResult spec action) st.2 in
  match action with
  | None => mret (Continue (st.1, result))
  | Some a =>
    if ResponseAction_StopExecution a then mret (Break (st.1, finish true action result))
    else match a with
         | SA_Mods mods => respCtx ← applyResponseModifications mods st.1;
                           mret (Continue (respCtx, result))
         | SA_Immediate _ => mret (Continue (st.1, result))
         end
  end.

Definition responseBodyPhase :
    Phase ResponseContext (Callback W ResponseContext ResponseAction)
      (ResponseContext * ResponseExecutionResult) :=
  mkPhase responseBodyCallback EvaluateResponseBodyCondition fst skipResult responseBodyRun.

Definition ExecuteResponsePolicies c policyList (respCtx : ResponseContext) specs
    (hasExecutionConditions : bool) : GoM (Store W) (ResponseContext * ResponseExecutionResult) :=
  runReverse c responseBodyPhase policyList specs hasExecutionConditions (respCtx, emptyResult).

Definition responseBodyCtxAtError c policyList (respCtx : ResponseContext) specs
    (hasExecutionConditions : bool) (s : Store W) : ResponseContext :=
  (reverseState c responseBodyPhase policyList specs hasExecutionConditions (respCtx, emptyResult) s).1.

(** ** Streaming request body phase *)

(** The loop variables: [currentChunk], [result.Results], [result.FinalAction]. *)
Record SReqLoop : Type := mkSReqLoop {
  sql_chunk : StreamBody;
  sql_results : list (PolicyResult StreamingRequestAction);
  sql_final : option StreamingRequestAction
}.

Definition streamingRequestCallback (pol : Policy W) :
    option (ChunkCallback W RequestStreamContext StreamingRequestAction) :=
  match asStreamingRequestPolicy pol with
  | None => None
  | Some (cb, _) => if String.eqb (RequestBodyMode (Mode pol)) BodyModeStream then Some cb else None
  end.

(** The chunk the next policy sees. *)
Definition nextRequestChunk (action : option StreamingRequestAction) (cur : StreamBody) : StreamBody :=
  match action with
  | Some (ForwardRequestChunk fwd) =>
      match cf_Body fwd with Some b => mkStreamBody (Some b) (sb_EndOfStream cur) 0 | None => cur end
  | None => cur
  end.

Definition streamingRequestRun (reqCtx : RequestStreamContext)
    (cb : ChunkCallback W RequestStreamContext StreamingRequestAction)
    (spec : PolicySpec) (params : Params) (st : SReqLoop) : GoM (Store W) (Ctl SReqLoop) :=
  action ← invokeChunk cb reqCtx (sql_chunk st) params;
  mret (Continue (mkSReqLoop (nextRequestChunk action (sql_chunk st))
                    (sql_results st ++ [executedResult spec action]) action)).

Definition streamingRequestPhase (reqCtx : RequestStreamContext) :
    Phase RequestStreamContext (ChunkCallback W RequestStreamContext StreamingRequestAction) SReqLoop :=
  mkPhase streamingRequestCallback EvaluateStreamingRequestCondition (fun _ => reqCtx)
    (fun spec st => mkSReqLoop (sql_chunk st) (sql_results st ++ [skippedResult spec]) (sql_final st))
    (streamingRequestRun reqCtx).

Definition ExecuteStreamingRequestPolicies c policyList (reqCtx : RequestStreamContext)
    (chunk : StreamBody) specs (hasExecutionConditions : bool) :
    GoM (Store W) StreamingRequestExecutionResult :=
  st ← runForward c (streamingRequestPhase reqCtx) policyList specs hasExecutionConditions
         (mkSReqLoop chunk [] None);
  mret (mkSReqER (sql_results st) (sql_final st) (Some (sql_chunk st))).

(** ** Streaming response body phase (reverse order) *)

Record SRespLoop : Type := mkSRespLoop {
  srl_chunk : StreamBody;
  srl_results : list (PolicyResult StreamingResponseAction);
  srl_final : option StreamingResponseAction;
  srl_terminated : bool
}.

Definition streamingResponseCallback (pol : Policy W) :
    option (ChunkCallback W ResponseStreamContext StreamingResponseAction) :=
  match asStreamingResponsePolicy pol with
  | None => None
  | Some (cb, _) => if String.eqb (ResponseBodyMode (Mode pol)) BodyModeStream then Some cb else None
  end.

Definition nextResponseChunk (action : option StreamingResponseAction) (cur : StreamBody) : StreamBody :=
  match action with
  | Some (ForwardResponseChunk a) =>
      match cf_Body a with Some b => mkStreamBody (Some b) (sb_EndOfStream cur) 0 | None => cur end
  | Some (TerminateResponseChunk a) =>
      match cf_Body a with Some b => mkStreamBody (Some b) true 0 | None => cur end
  | None => cur
  end.

Definition streamingResponseRun (respCtx : ResponseStreamContext)
    (cb : ChunkCallback W ResponseStreamContext StreamingResponseAction)
    (spec : PolicySpec) (params : Params) (st : SRespLoop) : GoM (Store W) (Ctl SRespLoop) :=
  action ← invokeChunk cb respCtx (srl_chunk st) params;
  let chunk := nextResponseChunk action (srl_chunk st) in
  let results := srl_results st ++ [executedResult spec action] in
  match action with
  | None => panic (* action.TerminateStream() on a nil interface *)
  | Some a =>
      if TerminateStream a then mret (Break (mkSRespLoop chunk results action true))
      else mret (Continue (mkSRespLoop chunk results action (srl_terminated st)))
  end.

Definition streamingResponsePhase (respCtx : ResponseStreamContext) :
    Phase ResponseStreamContext (ChunkCallback W ResponseStreamContext StreamingResponseAction) SRespLoop :=
  mkPhase streamingResponseCallback EvaluateStreamingResponseCondition (fun _ => respCtx)
    (fun spec st => mkSRespLoop (srl_chunk st) (srl_results st ++ [skippedResult spec])
                      (srl_final st) (srl_terminated st))
    (streamingResponseRun respCtx).

Definition ExecuteStreamingResponsePolicies c policyList (respCtx : ResponseStreamContext)
    (chunk : StreamBody) specs (hasExecutionConditions : bool) :
    GoM (Store W) StreamingResponseExecutionResult :=
  st ← runReverse c (streamingResponsePhase respCtx) policyList specs hasExecutionConditions
         (mkSRespLoop chunk [] None false);
  mret (mkSRespER (srl_results st) (srl_terminated st) (srl_final st) (Some (srl_chunk st))).

End Executor.

Arguments Phase W Ctx Cb R : clear implicits.
Arguments mkPhase {W Ctx Cb R} _ _ _ _ _.
Arguments ph_callback {W Ctx Cb R} _ _.
Arguments ph_evaluate {W Ctx Cb R} _ _ _ _ _.
Arguments ph_ctx {W Ctx Cb R} _ _.
Arguments ph_skip {W Ctx Cb R} _ _ _.
Arguments ph_run {W Ctx Cb R} _ _ _ _ _.
