(* ===== verification/CelEvaluator.v ===== *)
(** * CelEvaluator: execution conditions and their compiled programs

    internal/pkg/cel of the policy engine: the variables a condition can
    mention in each phase (evaluator.go) and the bounded cache of compiled
    programs (lru.go).  The compiler and the interpreter of expressions are
    an interface, [CelGo].  The executor uses conditions through its own
    interface, [CELEvaluator]; [pureEvaluator] implements it by compiling
    every time, and the theorems show that the cached evaluator gives the
    same verdicts. *)

From stdpp Require Import base gmap strings list fin_maps.
From S2P Require Import Prelude GoStrings Values Sdk QueryPath Executor GoList.

#[local] Set Warnings "-register-all".

Open Scope string_scope.

(** ** lru.go *)

Section Lru.
Context {P : Type}.

Record programLRUCache : Type := mkLru {
  lru_capacity : Z;
  lru_list : GoList (string * P);
  lru_items : gmap string positive
}.

Definition newProgramLRUCache (capacity : Z) : programLRUCache := mkLru capacity (emptyList 1) ∅.

(** [get]: the program of a key that is present, promoted to the front. *)
Definition lru_get (key : string) : GoM programLRUCache (option P) :=
  c ← Prelude.get;
  match lru_items c !! key with
  | None => mret None
  | Some elem =>
      match findElem elem (lru_list c) with
      | None => panic
      | Some (_, (_, program)) =>
          put (mkLru (lru_capacity c) (MoveToFront elem (lru_list c)) (lru_items c));;
          mret (Some program)
      end
  end.

Definition lru_len (c : programLRUCache) : nat := length (gl_elems (lru_list c)).

Definition lru_put (key : string) (program : P) : GoM programLRUCache unit :=
  c ← Prelude.get;
  match lru_items c !! key with
  | Some elem =>
      match findElem elem (lru_list c) with
      | None => panic
      | Some (_, (k, _)) =>
          put (mkLru (lru_capacity c) (MoveToFront elem (setValue elem (k, program) (lru_list c))) (lru_items c))
      end
  | None =>
      (if (lru_capacity c <=? Z.of_nat (lru_len c))%Z then
         match Back (lru_list c) with
         | Some (back, (k, _)) =>
             put (mkLru (lru_capacity c) (listRemove back (lru_list c)) (delete k (lru_items c)))
         | None => mret tt
         end
       else mret tt);;
      c ← Prelude.get;
      put (mkLru (lru_capacity c) (mkGoList ((gl_next (lru_list c), (key, program)) :: gl_elems (lru_list c)) (Pos.succ (gl_next (lru_list c))))
             (<[key := gl_next (lru_list c)]> (lru_items c)))
  end.

End Lru.

Arguments programLRUCache : clear implicits.

(** ** evaluator.go: the variables *)

(** A value bound to a variable. *)
Inductive CelValue : Type :=
| CNil
| CString (s : string)
| CInt (z : Z)
| CBool (b : bool)
| CBytes (b : option bytes)
| CHeaders (h : HeaderMap)
| CMetadata (m : gmap string Value)
| CMap (m : list (string * CelValue)).

Abbreviation EvalCtx := (list (string * CelValue)).

(** The interpreter: compiling and planning an expression, and running a
    program; a result is a boolean or the name of another Go type. *)
Class CelGo := {
  celAst : Type;
  celProgram : Type;
  celCompile : string -> string + celAst;
  celPlan : celAst -> string + celProgram;
  celRun : celProgram -> EvalCtx -> string + (string + bool)
}.

(** The variables [createCELEnv] declares. *)
Definition declaredVariables : list string :=
  ["processing.phase";
   "request"; "request.Headers"; "request.Body"; "request.Path"; "request.Method"; "request.RequestID"; "request.Metadata";
   "response"; "response.RequestHeaders"; "response.RequestBody"; "response.RequestPath"; "response.RequestMethod";
   "response.ResponseHeaders"; "response.ResponseBody"; "response.ResponseStatus"; "response.RequestID"; "response.Metadata"].

Definition bodyToCEL (body : option Body) : CelValue :=
  match body with
  | None => CNil
  | Some b => if negb (b_Present b) then CNil
              else CMap [("Content", CBytes (b_Content b)); ("EndOfStream", CBool (b_EndOfStream b)); ("Present", CBool (b_Present b))]
  end.

(** The map every builder fills, from the values that differ between them. *)
Definition evalCtx (phase : string) (headers body : CelValue) (path method requestID : string) (metadata : gmap string Value)
    (responseHeaders responseBody : CelValue) (status : Z) : EvalCtx :=
  [("processing.phase", CString phase);
   ("request", CMap [("Headers", headers); ("Body", body); ("Path", CString path); ("Method", CString method);
                     ("RequestID", CString requestID); ("Metadata", CMetadata metadata)]);
   ("request.Headers", headers);
   ("request.Body", body);
   ("request.Path", CString path);
   ("request.Method", CString method);
   ("request.RequestID", CString requestID);
   ("request.Metadata", CMetadata metadata);
   ("response", CMap [("RequestHeaders", headers); ("RequestBody", body); ("RequestPath", CString path); ("RequestMethod", CString method);
                      ("ResponseHeaders", responseHeaders); ("ResponseBody", responseBody); ("ResponseStatus", CInt status);
                      ("RequestID", CString requestID); ("Metadata", CMetadata metadata)]);
   ("response.RequestHeaders", headers);
   ("response.RequestBody", body);
   ("response.RequestPath", CString path);
   ("response.RequestMethod", CString method);
   ("response.ResponseHeaders", responseHeaders);
   ("response.ResponseBody", responseBody);
   ("response.ResponseStatus", CInt status);
   ("response.RequestID", CString requestID);
   ("response.Metadata", CMetadata metadata)].

Section Contexts.
Context {W : Type}.
Implicit Types (st : Store W).

Definition celHeaders st (l : loc) : CelValue := CHeaders (Headers_GetAll (headers_at st l)).
Definition requestIDOf st : string := sc_RequestID (st_shared st).
Definition metadataOf st : gmap string Value := sc_Metadata (st_shared st).

Definition buildRequestHeaderEvalCtx st (ctx : RequestHeaderContext) (phase : string) : EvalCtx :=
  evalCtx phase (celHeaders st (rh_Headers ctx)) CNil (rh_Path ctx) (rh_Method ctx) (requestIDOf st) (metadataOf st)
    (CHeaders ∅) CNil 0.

Definition buildRequestBodyEvalCtx st (ctx : RequestContext) (phase : string) : EvalCtx :=
  evalCtx phase (celHeaders st (rc_Headers ctx)) (bodyToCEL (rc_Body ctx)) (rc_Path ctx) (rc_Method ctx) (requestIDOf st)
    (metadataOf st) (CHeaders ∅) CNil 0.

Definition buildResponseHeaderEvalCtx st (ctx : ResponseHeaderContext) (phase : string) : EvalCtx :=
  evalCtx phase (celHeaders st (sh_RequestHeaders ctx)) (bodyToCEL (sh_RequestBody ctx)) (sh_RequestPath ctx)
    (sh_RequestMethod ctx) (requestIDOf st) (metadataOf st) (celHeaders st (sh_ResponseHeaders ctx)) CNil (sh_ResponseStatus ctx).

Definition buildResponseBodyEvalCtx st (ctx : ResponseContext) (phase : string) : EvalCtx :=
  evalCtx phase (celHeaders st (rp_RequestHeaders ctx)) (bodyToCEL (rp_RequestBody ctx)) (rp_RequestPath ctx)
    (rp_RequestMethod ctx) (requestIDOf st) (metadataOf st) (celHeaders st (rp_ResponseHeaders ctx))
    (bodyToCEL (rp_ResponseBody ctx)) (rp_ResponseStatus ctx).

Definition buildStreamingRequestEvalCtx st (ctx : RequestStreamContext) : EvalCtx :=
  evalCtx "request_body" (celHeaders st (rs_Headers ctx)) CNil (rs_Path ctx) (rs_Method ctx) (requestIDOf st) (metadataOf st)
    (CHeaders ∅) CNil 0.

Definition buildStreamingResponseEvalCtx st (ctx : ResponseStreamContext) : EvalCtx :=
  evalCtx "response_body" (celHeaders st (ss_RequestHeaders ctx)) (bodyToCEL (ss_RequestBody ctx)) (ss_RequestPath ctx)
    (ss_RequestMethod ctx) (requestIDOf st) (metadataOf st) (celHeaders st (ss_ResponseHeaders ctx)) CNil (ss_ResponseStatus ctx).

End Contexts.

(** ** evaluator.go: evaluation *)

Section Evaluator.
Context `{CelGo}.

Definition defaultProgramCacheSize : Z := 1024.

(** The evaluator's state is its cache. *)
Definition NewCELEvaluator : programLRUCache celProgram := newProgramLRUCache defaultProgramCacheSize.

Definition getOrCompileProgram (expression : string) : GoM (programLRUCache celProgram) celProgram :=
  cached ← lru_get expression;
  match cached with
  | Some program => mret program
  | None =>
      ast ← wrapErr (fun e => "CEL compilation failed: " +:+ e) (lift_err (celCompile expression));
      program ← wrapErr (fun e => "CEL program creation failed: " +:+ e) (lift_err (celPlan ast));
      lru_put expression program;;
      mret program
  end.

Definition eval (program : celProgram) (ctx : EvalCtx) : string + bool :=
  match celRun program ctx with
  | inl e => inl ("CEL evaluation failed: " +:+ e)
  | inr (inl typeName) => inl ("CEL expression must return boolean, got " +:+ typeName)
  | inr (inr b) => inr b
  end.

Definition evaluateIn (expression : string) (ctx : EvalCtx) : GoM (programLRUCache celProgram) bool :=
  program ← wrapErr (fun e => "failed to compile CEL expression: " +:+ e) (getOrCompileProgram expression);
  lift_err (eval program ctx).

Context {W : Type}.

(** The six methods, as calls. *)
Inductive ConditionCall : Type :=
| OnRequestHeaders (expression : string) (st : Store W) (ctx : RequestHeaderContext)
| OnRequestBody (expression : string) (st : Store W) (ctx : RequestContext)
| OnResponseHeaders (expression : string) (st : Store W) (ctx : ResponseHeaderContext)
| OnResponseBody (expression : string) (st : Store W) (ctx : ResponseContext)
| OnStreamingRequest (expression : string) (st : Store W) (ctx : RequestStreamContext)
| OnStreamingResponse (expression : string) (st : Store W) (ctx : ResponseStreamContext).

Definition evaluateCondition (call : ConditionCall) : GoM (programLRUCache celProgram) bool :=
  match call with
  | OnRequestHeaders e st ctx => evaluateIn e (buildRequestHeaderEvalCtx st ctx "request_headers")
  | OnRequestBody e st ctx => evaluateIn e (buildRequestBodyEvalCtx st ctx "request_body")
  | OnResponseHeaders e st ctx => evaluateIn e (buildResponseHeaderEvalCtx st ctx "response_headers")
  | OnResponseBody e st ctx => evaluateIn e (buildResponseBodyEvalCtx st ctx "response_body")
  | OnStreamingRequest e st ctx => evaluateIn e (buildStreamingRequestEvalCtx st ctx)
  | OnStreamingResponse e st ctx => evaluateIn e (buildStreamingResponseEvalCtx st ctx)
  end.

(** ** The reference: compile every time *)

Definition compileProgram (expression : string) : string + celProgram :=
  match celCompile expression with
  | inl e => inl ("CEL compilation failed: " +:+ e)
  | inr ast => match celPlan ast with
               | inl e => inl ("CEL program creation failed: " +:+ e)
               | inr program => inr program
               end
  end.

Definition pureIn (expression : string) (ctx : EvalCtx) : string + bool :=
  match compileProgram expression with
  | inl e => inl ("failed to compile CEL expression: " +:+ e)
  | inr program => eval program ctx
  end.

(** The interface of the executor. *)
Definition pureEvaluator : CELEvaluator W := mkCELEvaluator _
  (fun e st ctx => pureIn e (buildRequestHeaderEvalCtx st ctx "request_headers"))
  (fun e st ctx => pureIn e (buildRequestBodyEvalCtx st ctx "request_body"))
  (fun e st ctx => pureIn e (buildResponseHeaderEvalCtx st ctx "response_headers"))
  (fun e st ctx => pureIn e (buildResponseBodyEvalCtx st ctx "response_body"))
  (fun e st ctx => pureIn e (buildStreamingRequestEvalCtx st ctx))
  (fun e st ctx => pureIn e (buildStreamingResponseEvalCtx st ctx)).

Definition verdict (ev : CELEvaluator W) (call : ConditionCall) : string + bool :=
  match call with
  | OnRequestHeaders e st ctx => EvaluateRequestHeaderCondition ev e st ctx
  | OnRequestBody e st ctx => EvaluateRequestBodyCondition ev e st ctx
  | OnResponseHeaders e st ctx => EvaluateResponseHeaderCondition ev e st ctx
  | OnResponseBody e st ctx => EvaluateResponseBodyCondition ev e st ctx
  | OnStreamingRequest e st ctx => EvaluateStreamingRequestCondition ev e st ctx
  | OnStreamingResponse e st ctx => EvaluateStreamingResponseCondition ev e st ctx
  end.

(** ** The cache is transparent *)

(** The map and the list have the same keys, and a cached program is the one
    its expression compiles to. *)
Definition lruOk (c : programLRUCache celProgram) : Prop :=
  listOk (lru_list c) /\
  (forall k e, lru_items c !! k = Some e <-> exists p, (e, (k, p)) ∈ gl_elems (lru_list c)) /\
  (forall e k p, (e, (k, p)) ∈ gl_elems (lru_list c) -> compileProgram k = inr p) /\
  (Z.of_nat (lru_len c) <= Z.max 1 (lru_capacity c))%Z.

Lemma lruOk_new capacity : lruOk (newProgramLRUCache capacity).
Proof.
  split_and!; simpl.
  - split; [constructor|]. by intros x ?%elem_of_nil.
  - intros k e. rewrite lookup_empty. split; [done|]. by intros (p&?%elem_of_nil).
  - by intros e k p ?%elem_of_nil.
  - unfold lru_len. simpl. lia.
Qed.

Lemma without_length e v (l : list (positive * (string * celProgram))) :
  NoDup l.*1 -> (e, v) ∈ l -> S (length (without e l)) = length l.
Proof.
  induction l as [|[e' v'] l IH]; [by intros _ ?%elem_of_nil|]. rewrite fmap_cons, NoDup_cons. intros [Hn Hnd] Hin.
  unfold without. destruct (decide (e' = e)) as [->|Hne].
  - rewrite filter_cons_False by (simpl; tauto). simpl. f_equal. f_equal. apply filter_id. intros [x w] Hx E. apply Hn.
    apply list_elem_of_fmap. exists (x, w). simpl in E. by subst.
  - rewrite filter_cons_True by done. simpl. f_equal. apply IH; [done|]. apply elem_of_cons in Hin as [[= -> ->]|?]; done.
Qed.

Lemma lru_get_spec key c : lruOk c ->
  wp (lru_get key) (fun c' r => lruOk c' /\ lru_capacity c' = lru_capacity c /\
                      match r with
                      | Some p => compileProgram key = inr p
                      | None => lru_items c' !! key = None
                      end) (fun _ _ => False) False c.
Proof.
  intros (Hl&Hi&Hc&Hlen). unfold lru_get, wp, mbind, GoM_bind, Prelude.get, put. destruct (lru_items c !! key) as [e|] eqn:Hk; [|done].
  destruct (proj1 (Hi key e) Hk) as [p Hin]. rewrite (findElem_elem _ e (key, p)) by (done || apply Hl).
  split; [|split; [done|by eapply Hc]]. split_and!; simpl.
  - by eapply listOk_move.
  - intros k' e'. rewrite Hi, (MoveToFront_elems _ e (key, p)) by (done || apply Hl). cbn [gl_elems].
    setoid_rewrite elem_of_cons. setoid_rewrite elem_of_without. split.
    + intros [p' Hin']. destruct (decide (e' = e)) as [->|Hne]; [|eauto].
      pose proof (NoDup_fst_inj _ _ _ _ (proj1 Hl) Hin Hin') as [= -> ->]. eauto.
    + intros [p' [[= -> -> ->]|[Hin' _]]]; eauto.
  - intros e' k' p'. rewrite (MoveToFront_elems _ e (key, p)) by (done || apply Hl). cbn [gl_elems].
    rewrite elem_of_cons, elem_of_without. intros [[= -> -> ->]|[Hin' _]]; eauto.
  - unfold lru_len in *. simpl. rewrite (MoveToFront_elems _ e (key, p)) by (done || apply Hl). cbn [gl_elems length].
    by rewrite (without_length _ (key, p)) by (done || apply Hl).
Qed.

(** Adding an absent key, with room for it. *)
Lemma lruOk_push c key p :
  listOk (lru_list c) ->
  (forall k e, lru_items c !! k = Some e <-> exists p, (e, (k, p)) ∈ gl_elems (lru_list c)) ->
  (forall e k p, (e, (k, p)) ∈ gl_elems (lru_list c) -> compileProgram k = inr p) ->
  (Z.of_nat (lru_len c) < Z.max 1 (lru_capacity c))%Z ->
  lru_items c !! key = None -> compileProgram key = inr p ->
  lruOk (mkLru (lru_capacity c) (mkGoList ((gl_next (lru_list c), (key, p)) :: gl_elems (lru_list c)) (Pos.succ (gl_next (lru_list c))))
             (<[key := gl_next (lru_list c)]> (lru_items c))).
Proof.
  intros Hl Hi Hc Hlen Hk Hp. split_and!; simpl.
  - by apply listOk_push.
  - intros k e. rewrite lookup_insert_Some, Hi. setoid_rewrite elem_of_cons. split.
    + intros [[<- <-]|[_ [p' Hin]]]; eauto.
    + intros [p' [[= -> -> ->]|Hin]]; [by left|]. right. split; [|eauto]. intros <-.
      assert (lru_items c !! key = Some e) by (apply Hi; eauto). congruence.
  - intros e k p'. rewrite elem_of_cons. intros [[= -> -> ->]|Hin]; eauto.
  - unfold lru_len in *. simpl. lia.
Qed.

(** Dropping the last element. *)
Lemma lruOk_drop c e k p : lruOk c -> (e, (k, p)) ∈ gl_elems (lru_list c) ->
  let c' := mkLru (lru_capacity c) (listRemove e (lru_list c)) (delete k (lru_items c)) in
  lruOk c' /\ (Z.of_nat (lru_len c') < Z.max 1 (lru_capacity c))%Z.
Proof.
  intros (Hl&Hi&Hc&Hlen) Hin c'.
  assert (Z.of_nat (lru_len c') < Z.max 1 (lru_capacity c))%Z as Hlen'.
  { unfold lru_len in *. subst c'. simpl. pose proof (without_length e (k, p) _ (proj1 Hl) Hin). lia. }
  split; [|done]. split_and!; simpl; [by apply listOk_remove| | |lia].
  - intros k' e'. rewrite lookup_delete_Some, Hi. setoid_rewrite elem_of_without. cbn [fst]. split.
    + intros [Hne [p' Hin']]. exists p'. split; [done|]. intros ->.
      pose proof (NoDup_fst_inj _ _ _ _ (proj1 Hl) Hin Hin') as [= -> ->]. done.
    + intros (p'&Hin'&Hne). split; [|eauto]. intros <-. apply Hne.
      assert (lru_items c !! k = Some e) by (apply Hi; eauto). assert (lru_items c !! k = Some e') by (apply Hi; eauto). congruence.
  - intros e' k' p' [Hin' _]%elem_of_without. eauto.
Qed.

Lemma lru_put_spec key p c : lruOk c -> lru_items c !! key = None -> compileProgram key = inr p ->
  wp (lru_put key p) (fun c' _ => lruOk c' /\ lru_capacity c' = lru_capacity c) (fun _ _ => False) False c.
Proof.
  intros Hok Hk Hp. unfold lru_put, wp, mbind, GoM_bind, Prelude.get, put, mret, GoM_ret. rewrite Hk.
  pose proof Hok as (Hl&Hi&Hc&Hlen).
  destruct (Z.leb_spec (lru_capacity c) (Z.of_nat (lru_len c))) as [Hfull|Hroom].
  - unfold Back. destruct (list.last (gl_elems (lru_list c))) as [[e [k p0]]|] eqn:Hb.
    + apply last_Some in Hb as [l Hb]. assert ((e, (k, p0)) ∈ gl_elems (lru_list c)) as Hin by (rewrite Hb; set_solver).
      destruct (lruOk_drop c e k p0 Hok Hin) as [(Hl'&Hi'&Hc'&_) Hlen']. split; [|done].
      apply (lruOk_push (mkLru _ (listRemove e (lru_list c)) (delete k (lru_items c)))); try done.
      simpl. apply lookup_delete_None. by right.
    + apply last_None in Hb. split; [|done]. apply lruOk_push; try done. unfold lru_len. rewrite Hb. simpl. lia.
  - split; [|done]. apply lruOk_push; try done. lia.
Qed.

Lemma getOrCompileProgram_spec e c : lruOk c ->
  match getOrCompileProgram e c with
  | Ok c' p => lruOk c' /\ lru_capacity c' = lru_capacity c /\ compileProgram e = inr p
  | Err c' err => lruOk c' /\ lru_capacity c' = lru_capacity c /\ compileProgram e = inl err
  | Panic => False
  end.
Proof.
  intros Hok. unfold getOrCompileProgram, mbind, GoM_bind. pose proof (lru_get_spec e c Hok) as Hg. unfold wp in Hg.
  destruct (lru_get e c) as [c1 [p|]|? ?|]; [by destruct Hg as (?&?&?)| |done|done]. destruct Hg as (Hok1&Hcap&Hk).
  unfold wrapErr, lift_err. destruct (celCompile e) as [err|ast] eqn:Ec; simpl.
  { split_and!; [done..|]. unfold compileProgram. by rewrite Ec. }
  destruct (celPlan ast) as [err|p] eqn:Ep; simpl.
  { split_and!; [done..|]. unfold compileProgram. by rewrite Ec, Ep. }
  assert (compileProgram e = inr p) as Hp by (unfold compileProgram; by rewrite Ec, Ep).
  pose proof (lru_put_spec e p c1 Hok1 Hk Hp) as Hput. unfold wp in Hput.
  destruct (lru_put e p c1) as [c2 []|? ?|]; [|done|done]. destruct Hput as [Hok2 Hcap2]. split_and!; [done|congruence|done].
Qed.

Lemma evaluateIn_spec e ctx c : lruOk c ->
  exists c', lruOk c' /\ lru_capacity c' = lru_capacity c /\
    evaluateIn e ctx c = match pureIn e ctx with inl err => Err c' err | inr b => Ok c' b end.
Proof.
  intros Hok. unfold evaluateIn, mbind, GoM_bind, wrapErr, pureIn. pose proof (getOrCompileProgram_spec e c Hok) as Hg.
  destruct (getOrCompileProgram e c) as [c1 p|c1 err|]; [| |done]; destruct Hg as (Hok1&Hcap&->); exists c1; split_and!; try done.
  by destruct (eval p ctx).
Qed.

Lemma evaluateCondition_spec call c : lruOk c ->
  exists c', lruOk c' /\ lru_capacity c' = lru_capacity c /\
    evaluateCondition call c = match verdict pureEvaluator call with inl err => Err c' err | inr b => Ok c' b end.
Proof. destruct call; apply evaluateIn_spec. Qed.

Definition runConditions (calls : list ConditionCall) : programLRUCache celProgram :=
  foldl (fun c call => match evaluateCondition call c with Ok c' _ | Err c' _ => c' | Panic => c end) NewCELEvaluator calls.

Lemma runConditions_ok calls : lruOk (runConditions calls) /\ lru_capacity (runConditions calls) = defaultProgramCacheSize.
Proof.
  induction calls as [|call calls [IH Hcap]] using rev_ind; [split; [apply lruOk_new|done]|].
  unfold runConditions in *. rewrite foldl_snoc. destruct (evaluateCondition_spec call _ IH) as (c'&Hok'&Hcap'&->).
  destruct (verdict pureEvaluator call); split; congruence || done.
Qed.

(** The program cache is transparent: after any sequence of evaluated
    conditions, evaluating one gives the verdict, or the error, of compiling
    and running it from scratch; and the cache never holds more than 1024
    programs. *)
Theorem program_cache_is_transparent calls call :
  let c := runConditions calls in
  (lru_len c <= 1024)%nat /\
  exists c', evaluateCondition call c = match verdict pureEvaluator call with inl err => Err c' err | inr b => Ok c' b end.
Proof.
  intros c. destruct (runConditions_ok calls) as [Hok Hcap]. fold c in Hok, Hcap. split.
  - destruct Hok as (_&_&_&Hlen). rewrite Hcap in Hlen. unfold defaultProgramCacheSize in Hlen. lia.
  - destruct (evaluateCondition_spec call c Hok) as (c'&_&_&E). by exists c'.
Qed.

(** The context in which a call evaluates its condition. *)
Definition contextOf (call : ConditionCall) : EvalCtx :=
  match call with
  | OnRequestHeaders _ st ctx => buildRequestHeaderEvalCtx st ctx "request_headers"
  | OnRequestBody _ st ctx => buildRequestBodyEvalCtx st ctx "request_body"
  | OnResponseHeaders _ st ctx => buildResponseHeaderEvalCtx st ctx "response_headers"
  | OnResponseBody _ st ctx => buildResponseBodyEvalCtx st ctx "response_body"
  | OnStreamingRequest _ st ctx => buildStreamingRequestEvalCtx st ctx
  | OnStreamingResponse _ st ctx => buildStreamingResponseEvalCtx st ctx
  end.

Definition binding (x : string) (ctx : EvalCtx) : option CelValue := (list_to_map ctx : gmap string CelValue) !! x.

(** A qualified variable and the field of the object it abbreviates. *)
Definition fieldOf (obj field : string) (ctx : EvalCtx) : option CelValue :=
  match binding obj ctx with
  | Some (CMap m) => binding field m
  | _ => None
  end.

(** In every phase the condition's context binds exactly the variables
    the environment declares, each once, and a qualified variable has the
    value of the field of the object it names. *)
Theorem conditions_see_all_declared_variables call :
  (contextOf call).*1 = declaredVariables /\ NoDup declaredVariables /\
  Forall (fun f => binding ("request." +:+ f) (contextOf call) = fieldOf "request" f (contextOf call))
    ["Headers"; "Body"; "Path"; "Method"; "RequestID"; "Metadata"] /\
  Forall (fun f => binding ("response." +:+ f) (contextOf call) = fieldOf "response" f (contextOf call))
    ["RequestHeaders"; "RequestBody"; "RequestPath"; "RequestMethod"; "ResponseHeaders"; "ResponseBody"; "ResponseStatus"; "RequestID"; "Metadata"].
Proof.
  split; [by destruct call|]. split; [apply (bool_decide_unpack _); vm_compute; exact I|].
  split; destruct call; repeat (constructor; [reflexivity|]); constructor.
Qed.

End Evaluator.
