(* ===== verification/ExecutorProps.v ===== *)
(** * ExecutorProps: what the chain executor guarantees

    Generic theorems about [policyBlock] and the two loops, proved once
    against interfaces ([ObsPhase], [BufferedPhase]) that each of the phases
    implements, and the phase theorems that follow from them. *)

From stdpp Require Import base gmap strings list fin_maps.
From S2P Require Import Prelude Values Sdk QueryPath Executor.

Section Generic.
Context {W : Type}.
Implicit Types (c : ChainExecutor W) (specs : list PolicySpec) (s : Store W).

(** ** Reduction of the loops to the list of (policy, spec) pairs *)

Lemma runForward_loop {Ctx Cb R} c (ph : Phase W Ctx Cb R) pols specs has st s :
  length pols <= length specs ->
  runForward c ph pols specs has st s
    = loop (fun p st => policyBlock c ph has p.1 p.2 st) (zip pols specs) st s.
Proof. intros Hlen. exact (for_range_loop (policyBlock c ph has) pols specs Hlen st s). Qed.

Lemma runReverse_loop {Ctx Cb R} c (ph : Phase W Ctx Cb R) pols specs has st s :
  length pols <= length specs ->
  runReverse c ph pols specs has st s
    = loop (fun p st => policyBlock c ph has p.1 p.2 st) (reverse (zip pols specs)) st s.
Proof. intros Hlen. exact (for_down_loop (policyBlock c ph has) pols specs Hlen st s). Qed.

(** ** Rules for the steps *)

Lemma wp_conditionMet {Ctx} c ev has spec (ctx : Ctx) Q E P s :
  (forall b, Q s b) -> (forall e, E s e) -> wp (conditionMet c ev has spec ctx) Q E P s.
Proof.
  intros HQ HE. unfold wp, conditionMet. repeat case_match; simplify_eq; eauto.
Qed.

Lemma wp_cloneParams spec Q E P s :
  (forall p, deepCopyParams (ps_Raw spec) = inr p -> Q s p) -> (forall e, E s e) ->
  wp (cloneParams spec) Q E P s.
Proof. intros HQ HE. unfold cloneParams. case_match; [apply wp_fail|apply wp_ret]; eauto. Qed.

Lemma wp_invoke {Ctx Act} (f : Callback W Ctx Act) ctx params Q E P s :
  (forall w sh a, f s ctx params = (w, sh, a) -> Q (set_policy_state w sh s) a) ->
  wp (invoke f ctx params) Q E P s.
Proof. intros HQ. unfold wp, invoke. destruct (f s ctx params) as [[w sh] a] eqn:?. by apply HQ. Qed.

Lemma wp_invokeChunk {Ctx Act} (f : ChunkCallback W Ctx Act) ctx chunk params Q E P s :
  (forall w sh a, f s ctx chunk params = (w, sh, a) -> Q (set_policy_state w sh s) a) ->
  wp (invokeChunk f ctx chunk params) Q E P s.
Proof. intros HQ. unfold wp, invokeChunk. destruct (f _ _ _ _) as [[w sh] a] eqn:?. by apply HQ. Qed.

(** A policy block skips, fails or runs the policy. *)
Lemma wp_policyBlock {Ctx Cb R} c (ph : Phase W Ctx Cb R) has pol spec st Q E P s :
  (ph_callback ph pol = None -> Q s (Continue st)) ->
  (forall f, ph_callback ph pol = Some f -> Q s (Continue (ph_skip ph spec st))) ->
  (forall e, E s e) ->
  (forall f params, ph_callback ph pol = Some f -> ps_Enabled spec = true ->
     deepCopyParams (ps_Raw spec) = inr params -> wp (ph_run ph f spec params st) Q E P s) ->
  wp (policyBlock c ph has pol spec st) Q E P s.
Proof.
  intros Hn Hskip HE Hrun. unfold policyBlock.
  destruct (ph_callback ph pol) as [f|]; [|by apply wp_ret, Hn].
  destruct (ps_Enabled spec) eqn:Hen; simpl; [|by eapply wp_ret, Hskip].
  apply wp_bind, wp_conditionMet; [|done]. intros []; simpl; [|by eapply wp_ret, Hskip].
  apply wp_bind, wp_cloneParams; eauto.
Qed.

(** ** The execution-condition flag

    [HasExecutionConditions] is an optimisation: consulting it gives the
    same execution as evaluating every non-empty condition. *)

Lemma policyBlock_flag {Ctx Cb R} c (ph : Phase W Ctx Cb R) has pol spec st s :
  (hasCondition spec = true -> has = true) ->
  policyBlock c ph has pol spec st s = policyBlock c ph true pol spec st s.
Proof.
  intros Hf. unfold policyBlock. repeat case_match; try done.
  unfold mbind, GoM_bind, conditionMet.
  destruct (hasCondition spec); [by rewrite Hf|]. by rewrite !andb_false_r.
Qed.

Lemma existsb_hasCondition specs i spec :
  specs !! i = Some spec -> hasCondition spec = true -> existsb hasCondition specs = true.
Proof.
  intros Hi Hc. apply existsb_exists. exists spec. split; [|done].
  apply list_elem_of_In, list_elem_of_lookup; eauto.
Qed.

Lemma runForward_flag {Ctx Cb R} c (ph : Phase W Ctx Cb R) pols specs st s :
  runForward c ph pols specs (existsb hasCondition specs) st s
    = runForward c ph pols specs true st s.
Proof.
  apply for_range_ext. intros i pol st' s'. unfold mbind, GoM_bind, index.
  destruct (specs !! i) eqn:Hs; [|done].
  apply policyBlock_flag. by eapply existsb_hasCondition.
Qed.

Lemma runReverse_flag {Ctx Cb R} c (ph : Phase W Ctx Cb R) pols specs st s :
  runReverse c ph pols specs (existsb hasCondition specs) st s
    = runReverse c ph pols specs true st s.
Proof.
  apply for_down_ext. intros i st' s'. unfold mbind, GoM_bind, index.
  destruct (pols !! i); [|done]. destruct (specs !! i) eqn:Hs; [|done].
  apply policyBlock_flag. by eapply existsb_hasCondition.
Qed.

(** ** Policies that take no part in a phase *)

(** A policy takes part in a phase when its type implements the interface,
    its mode opts in and its spec is enabled. *)
Definition participates {Ctx Cb R} (ph : Phase W Ctx Cb R) (p : Policy W * PolicySpec) : bool :=
  bool_decide (is_Some (ph_callback ph p.1)) && ps_Enabled p.2.

(** What a phase shows of its loop state: [obs] relates states that differ in
    the entries of skipped policies only. *)
Class ObsPhase {Ctx Cb R} (ph : Phase W Ctx Cb R) (obs : relation R) := {
  obs_ctx : forall r r', obs r r' -> ph_ctx ph r = ph_ctx ph r';
  obs_skip_l : forall spec r r', obs r r' -> obs (ph_skip ph spec r) r';
  obs_skip_r : forall spec r r', obs r r' -> obs r (ph_skip ph spec r');
  obs_run : forall f spec params r r' s, obs r r' ->
    outcome_rel (ctl_rel obs) (ph_run ph f spec params r s) (ph_run ph f spec params r' s)
}.

Lemma policyBlock_obs `{ObsPhase Ctx Cb R ph obs} c has pol spec r r' s :
  obs r r' ->
  outcome_rel (ctl_rel obs) (policyBlock c ph has pol spec r s) (policyBlock c ph has pol spec r' s).
Proof.
  intros Hr. unfold policyBlock. destruct (ph_callback ph pol) as [f|]; [|by split].
  destruct (negb (ps_Enabled spec)).
  { split; [done|]. by apply obs_skip_l, obs_skip_r. }
  rewrite (obs_ctx r r' Hr).
  eapply outcome_rel_bind; [apply outcome_rel_eq|]. intros b _ s1 <-.
  destruct (negb b). { split; [done|]. by apply obs_skip_l, obs_skip_r. }
  eapply outcome_rel_bind; [apply outcome_rel_eq|]. intros p _ s2 <-. by apply obs_run.
Qed.

Lemma policyBlock_absent `{ObsPhase Ctx Cb R ph obs} c has p r r' s :
  participates ph p = false -> obs r r' ->
  exists r1, policyBlock c ph has p.1 p.2 r s = Ok s (Continue r1) /\ obs r1 r'.
Proof.
  intros Hp Hr. unfold participates in Hp. unfold policyBlock.
  destruct (ph_callback ph p.1) as [f|]; [|by eauto].
  destruct (ps_Enabled p.2); [done|]. simpl. eexists. split; [done|]. by apply obs_skip_l.
Qed.

Lemma loop_participants `{ObsPhase Ctx Cb R ph obs} c has l r r' s :
  obs r r' ->
  outcome_rel obs (loop (fun p st => policyBlock c ph has p.1 p.2 st) l r s)
    (loop (fun p st => policyBlock c ph has p.1 p.2 st)
       (filter (fun p => participates ph p = true) l) r' s).
Proof.
  intros Hr. apply loop_filter_rel; [| |done].
  - intros x r1 r1' s1 _ Hr1. by apply policyBlock_obs.
  - intros x r1 r1' s1 Hx Hr1. by eapply policyBlock_absent.
Qed.

(** ** Invariants of a phase *)

Lemma loop_preserves_err {Ctx Cb R} (ph : Phase W Ctx Cb R) (J : Store W -> R -> Prop)
    (E : Store W -> string -> Prop) (P : Prop) c has l st s :
  (forall f spec params pol st s, ph_callback ph pol = Some f -> pol ∈ l.*1 -> J s st ->
     wp (ph_run ph f spec params st)
        (fun s' ctl => match ctl with Continue st' | Break st' => J s' st' end) E P s) ->
  (forall spec st s, J s st -> J s (ph_skip ph spec st)) ->
  (forall st s e, J s st -> E s e) ->
  J s st ->
  wp (loop (fun p st => policyBlock c ph has p.1 p.2 st) l st) J E P s.
Proof.
  intros Hrun Hskip HE HJ.
  apply loop_wp with (I := fun l' s' st' => l'.*1 ⊆ l.*1 /\ J s' st'); [|by intros ?? []|done].
  intros p l' r s1 [Hsub HI]. simpl in Hsub. apply wp_policyBlock; [| | by eauto |].
  - intros _. split; [set_solver|done].
  - intros f _. split; [set_solver|by apply Hskip].
  - intros f params Hf _ _. eapply wp_mono; [eapply Hrun; [done| |done]| |done|done].
    + set_solver.
    + intros s2 [] ?; [split; [set_solver|done]|done].
Qed.

Lemma loop_preserves {Ctx Cb R} (ph : Phase W Ctx Cb R) (J : Store W -> R -> Prop) (P : Prop) c has l st s :
  (forall f spec params pol st s, ph_callback ph pol = Some f -> pol ∈ l.*1 -> J s st ->
     wp (ph_run ph f spec params st)
        (fun s' ctl => match ctl with Continue st' | Break st' => J s' st' end) (fun _ _ => True) P s) ->
  (forall spec st s, J s st -> J s (ph_skip ph spec st)) ->
  J s st ->
  wp (loop (fun p st => policyBlock c ph has p.1 p.2 st) l st) J (fun _ _ => True) P s.
Proof. intros Hrun Hskip HJ. by apply loop_preserves_err. Qed.

Lemma wp_runForward {Ctx Cb R} c (ph : Phase W Ctx Cb R) pols specs has st Q E P s :
  length pols <= length specs ->
  wp (loop (fun p st => policyBlock c ph has p.1 p.2 st) (zip pols specs) st) Q E P s ->
  wp (runForward c ph pols specs has st) Q E P s.
Proof. intros Hlen. unfold wp. by rewrite runForward_loop. Qed.

Lemma wp_runReverse {Ctx Cb R} c (ph : Phase W Ctx Cb R) pols specs has st Q E P s :
  length pols <= length specs ->
  wp (loop (fun p st => policyBlock c ph has p.1 p.2 st) (reverse (zip pols specs)) st) Q E P s ->
  wp (runReverse c ph pols specs has st) Q E P s.
Proof. intros Hlen. unfold wp. by rewrite runReverse_loop. Qed.

(** ** Buffered phases: shape of the results *)

(** [imm] recognises the short-circuiting action.  Running a policy appends
    one entry; it breaks exactly on a short-circuiting action, which then is
    the final action. *)
Class BufferedPhase {Ctx Cb Act} (ph : Phase W Ctx Cb (Ctx * ExecutionResult Act)) (imm : Act -> bool) := {
  buf_skip : forall spec st, ph_skip ph spec st = skipResult spec st;
  buf_run : forall f spec params st s,
    wp (ph_run ph f spec params st)
       (fun _ ctl => match ctl with
        | Continue st' => exists a,
            er_Results st'.2 = er_Results st.2 ++ [executedResult spec a] /\
            (forall x, a = Some x -> imm x = false) /\
            er_ShortCircuited st'.2 = er_ShortCircuited st.2
        | Break st' => exists a,
            er_Results st'.2 = er_Results st.2 ++ [executedResult spec (Some a)] /\
            imm a = true /\
            er_ShortCircuited st'.2 = true /\ er_FinalAction st'.2 = Some a
        end) (fun _ _ => True) True s
}.

Definition noImmediate {Act} (imm : Act -> bool) (r : PolicyResult Act) : Prop :=
  forall x, pr_Action r = Some x -> imm x = false.

(** The shape of a phase result: [names] lists the (name, version) pairs of
    the chain in the order the phase visits them.  The entries follow that
    order; the phase is short-circuited exactly when its last entry is a
    short-circuiting action, which is then the final action. *)
Definition resultShape {Act} (imm : Act -> bool) (names : list (string * string))
    (res : ExecutionResult Act) : Prop :=
  ((fun r => (pr_PolicyName r, pr_PolicyVersion r)) <$> er_Results res) `sublist_of` names /\
  if er_ShortCircuited res then
    exists pre r a, er_Results res = pre ++ [r] /\ pr_Action r = Some a /\ imm a = true /\
      er_FinalAction res = Some a /\ Forall (noImmediate imm) pre
  else Forall (noImmediate imm) (er_Results res).

Definition specId (p : Policy W * PolicySpec) : string * string := (ps_Name p.2, ps_Version p.2).

(** The invariant of the loop: [done_] has been visited. *)
Definition shapeInv {Ctx Act} (imm : Act -> bool) (l0 : list (Policy W * PolicySpec))
    (l : list (Policy W * PolicySpec)) (_ : Store W) (st : Ctx * ExecutionResult Act) : Prop :=
  exists done_, l0 = done_ ++ l /\ er_ShortCircuited st.2 = false /\
    ((fun r => (pr_PolicyName r, pr_PolicyVersion r)) <$> er_Results st.2) `sublist_of` (specId <$> done_) /\
    Forall (noImmediate imm) (er_Results st.2).

Lemma shapeInv_add {Ctx Act} (imm : Act -> bool) l0 p l s s' (st : Ctx * ExecutionResult Act) st' a sk :
  shapeInv imm l0 (p :: l) s st ->
  er_Results st'.2 = er_Results st.2 ++ [mkPolicyResult (ps_Name p.2) (ps_Version p.2) a None sk] ->
  (forall x, a = Some x -> imm x = false) ->
  er_ShortCircuited st'.2 = er_ShortCircuited st.2 ->
  shapeInv imm l0 l s' (st' : Ctx * ExecutionResult Act).
Proof.
  intros (d&->&Hsc&Hsub&Hall) Hres Himm Hsc'. exists (d ++ [p]).
  rewrite <- app_assoc, Hsc', Hres, !fmap_app. split_and!; try done.
  - by apply sublist_app.
  - by apply Forall_app_2; [|constructor].
Qed.

Lemma loop_shape `{BufferedPhase Ctx Cb Act ph imm} c has l0 st s :
  er_Results st.2 = [] -> er_ShortCircuited st.2 = false ->
  wp (loop (fun p st => policyBlock c ph has p.1 p.2 st) l0 st)
     (fun _ st' => resultShape imm (specId <$> l0) st'.2) (fun _ _ => True) True s.
Proof.
  intros Hres Hsc. apply loop_wp with (I := shapeInv imm l0).
  2: { intros s' st' (d&->&Hsc'&Hsub&Hall). unfold resultShape. by rewrite Hsc', app_nil_r. }
  2: { exists []. rewrite Hres. by split_and!. }
  intros p l r s1 HI. apply wp_policyBlock.
  - intros _. destruct HI as (d&->&?&Hsub&?). exists (d ++ [p]).
    rewrite <- app_assoc, fmap_app. split_and!; try done. by apply sublist_inserts_r.
  - intros f _. rewrite buf_skip. by eapply shapeInv_add.
  - done.
  - intros f params _ _ _. eapply wp_mono; [apply buf_run| |done|done].
    intros s2 [st'|st'] (a&Hr&Himm&Hrest).
    + by eapply shapeInv_add.
    + destruct HI as (d&->&?&Hsub&?), Hrest as [Hsc' Hfin]. split.
      * rewrite Hr, !fmap_app. apply sublist_app; [done|]. simpl.
        apply sublist_skip, sublist_nil_l.
      * rewrite Hsc'. eauto 10.
Qed.

End Generic.

(** ** The phases implement the interfaces *)

Definition executedEntries {Act} (res : ExecutionResult Act) : list (PolicyResult Act) :=
  filter (fun r => pr_Skipped r = false) (er_Results res).

(** Same context and same result, up to the entries of skipped policies. *)
Definition sameExecution {Ctx Act} : relation (Ctx * ExecutionResult Act) := fun a b =>
  a.1 = b.1 /\ executedEntries a.2 = executedEntries b.2 /\
  er_ShortCircuited a.2 = er_ShortCircuited b.2 /\ er_FinalAction a.2 = er_FinalAction b.2.

#[export] Instance sameExecution_equiv {Ctx Act} : Equivalence (@sameExecution Ctx Act).
Proof.
  split; red; unfold sameExecution; [done | naive_solver |].
  intros x y z (?&?&?&?) (?&?&?&?). split_and!; etrans; eauto.
Qed.

Lemma sameExecution_skip {Ctx Act} spec (a b : Ctx * ExecutionResult Act) :
  sameExecution a b -> sameExecution (skipResult spec a) b.
Proof.
  intros (?&?&?&?). split_and!; try done. unfold executedEntries in *. simpl.
  by rewrite filter_app, filter_cons_False, filter_nil, app_nil_r.
Qed.

Lemma sameExecution_add {Ctx Act} spec (act : option Act) (a b : Ctx * ExecutionResult Act) (ctx : Ctx) :
  sameExecution a b ->
  sameExecution (ctx, addResult (executedResult spec act) a.2) (ctx, addResult (executedResult spec act) b.2).
Proof.
  intros (?&He&?&?). split_and!; try done. unfold executedEntries in *. simpl.
  by rewrite !filter_app, He.
Qed.

Lemma sameExecution_finish {Ctx Act} sc (act : option Act) (a b : ExecutionResult Act) (ctx : Ctx) :
  sameExecution (ctx, a) (ctx, b) -> sameExecution (ctx, finish sc act a) (ctx, finish sc act b).
Proof. by intros (?&?&?&?). Qed.

(** Closes the [obs_run] obligation of a buffered phase. *)
Ltac solve_obs_run run :=
  intros f spec params [ctx r] [ctx' r'] s Hobs; pose proof Hobs as (Hctx&_&Hsc&_);
  simpl in Hctx; subst ctx'; unfold run; simpl;
  eapply outcome_rel_bind; [apply outcome_rel_eq|]; intros a _ s1 <-;
  pose proof (sameExecution_add spec a _ _ ctx Hobs) as Hadd; simpl in Hsc.

Section Phases.
Context {W : Type} `{MapRange} `{NetURL}.

Definition immRequestHeader (a : RequestHeaderAction) : bool :=
  match a with RHA_Immediate _ => true | _ => false end.
Definition immResponseHeader (a : ResponseHeaderAction) : bool :=
  match a with SHA_Immediate _ => true | _ => false end.

#[export] Instance requestHeader_obs : ObsPhase (W:=W) requestHeaderPhase sameExecution.
Proof.
  split.
  - by intros [??] [??] (?&_).
  - intros spec r r'. apply sameExecution_skip.
  - intros spec r r' Hr. symmetry. by apply sameExecution_skip.
  - solve_obs_run @requestHeaderRun.
    eapply outcome_rel_bind; [apply outcome_rel_eq|]. intros ctx1 _ s2 <-.
    pose proof (sameExecution_add spec a _ _ ctx1 Hobs) as Hadd'.
    destruct a as [[]|]; (split; [done|]); simpl; rewrite ?Hsc; by apply sameExecution_finish.
Qed.

#[export] Instance requestBody_obs : ObsPhase (W:=W) requestBodyPhase sameExecution.
Proof.
  split.
  - by intros [??] [??] (?&_).
  - intros spec r r'. apply sameExecution_skip.
  - intros spec r r' Hr. symmetry. by apply sameExecution_skip.
  - solve_obs_run @requestBodyRun.
    destruct a as [[m|i]|]; simpl; [|by (split; [done|]); apply sameExecution_finish|done].
    eapply outcome_rel_bind; [apply outcome_rel_eq|]. intros ctx1 _ s2 <-.
    split; [done|]. by apply (sameExecution_add spec (Some (RA_Mods m)) (ctx, r) (ctx, r')).
Qed.

#[export] Instance responseHeader_obs : ObsPhase (W:=W) responseHeaderPhase sameExecution.
Proof.
  split.
  - by intros [??] [??] (?&_).
  - intros spec r r'. apply sameExecution_skip.
  - intros spec r r' Hr. symmetry. by apply sameExecution_skip.
  - solve_obs_run @responseHeaderRun.
    eapply outcome_rel_bind; [apply outcome_rel_eq|]. intros _ _ s2 _.
    destruct a as [[]|]; (split; [done|]); simpl; rewrite ?Hsc; by apply sameExecution_finish.
Qed.

#[export] Instance responseBody_obs : ObsPhase (W:=W) responseBodyPhase sameExecution.
Proof.
  split.
  - by intros [??] [??] (?&_).
  - intros spec r r'. apply sameExecution_skip.
  - intros spec r r' Hr. symmetry. by apply sameExecution_skip.
  - solve_obs_run @responseBodyRun.
    destruct a as [[m|i]|]; simpl; [|by (split; [done|]); apply sameExecution_finish|done].
    eapply outcome_rel_bind; [apply outcome_rel_eq|]. intros ctx1 _ s2 <-.
    split; [done|]. by apply (sameExecution_add spec (Some (SA_Mods m)) (ctx, r) (ctx, r')).
Qed.

Lemma wp_any {A} (m : GoM (Store W) A) (Q : Store W -> A -> Prop) s :
  (forall s' a, Q s' a) -> wp m Q (fun _ _ => True) True s.
Proof. intros HQ. unfold wp. by destruct (m s). Qed.

#[export] Instance requestHeader_buffered : BufferedPhase (W:=W) requestHeaderPhase immRequestHeader.
Proof.
  split; [done|]. intros f spec params [ctx r] s. simpl. unfold requestHeaderRun.
  apply wp_bind, wp_invoke. intros w sh a _. apply wp_bind, wp_any. intros s1 ctx1.
  destruct a as [[m|i]|]; apply wp_ret; simpl; eexists; split_and!; try done; naive_solver.
Qed.

#[export] Instance responseHeader_buffered : BufferedPhase (W:=W) responseHeaderPhase immResponseHeader.
Proof.
  split; [done|]. intros f spec params [ctx r] s. simpl. unfold responseHeaderRun.
  apply wp_bind, wp_invoke. intros w sh a _. apply wp_bind, wp_any. intros s1 _.
  destruct a as [[m|i]|]; apply wp_ret; simpl; eexists; split_and!; try done; naive_solver.
Qed.

#[export] Instance requestBody_buffered : BufferedPhase (W:=W) requestBodyPhase RequestAction_StopExecution.
Proof.
  split; [done|]. intros f spec params [ctx r] s. simpl. unfold requestBodyRun.
  apply wp_bind, wp_invoke. intros w sh [[m|i]|] _; simpl.
  - apply wp_bind, wp_any. intros s1 ctx1. apply wp_ret. eexists; split_and!; try done; naive_solver.
  - apply wp_ret. eexists; split_and!; done.
  - apply wp_ret. eexists; split_and!; try done; naive_solver.
Qed.

#[export] Instance responseBody_buffered : BufferedPhase (W:=W) responseBodyPhase ResponseAction_StopExecution.
Proof.
  split; [done|]. intros f spec params [ctx r] s. simpl. unfold responseBodyRun.
  apply wp_bind, wp_invoke. intros w sh [[m|i]|] _; simpl.
  - apply wp_bind, wp_any. intros s1 ctx1. apply wp_ret. eexists; split_and!; try done; naive_solver.
  - apply wp_ret. eexists; split_and!; done.
  - apply wp_ret. eexists; split_and!; try done; naive_solver.
Qed.

End Phases.

(** ** Effect of the request-header phase on the request *)

(** The specification: the modifications of the results, in order, on the
    header map, the path and the method. *)
Section Replay.
Context `{MapRange}.

Definition replayRequestHeaders (results : list (PolicyResult RequestHeaderAction)) (m : HeaderMap) : HeaderMap :=
  foldl (fun m r => match pr_Action r with
                    | Some (RHA_Mods x) => update_headers ToLower (urh_HeadersToSet x) (urh_HeadersToRemove x) m
                    | _ => m
                    end) m results.

Definition lastSet {Act} (field : Act -> option string) (results : list (PolicyResult Act)) (d : string) : string :=
  foldl (fun d r => default d (pr_Action r ≫= field)) d results.

Definition pathOf (a : RequestHeaderAction) : option string :=
  match a with RHA_Mods x => urh_Path x | RHA_Immediate _ => None end.
Definition methodOf (a : RequestHeaderAction) : option string :=
  match a with RHA_Mods x => urh_Method x | RHA_Immediate _ => None end.

Definition replayResponseHeaders (results : list (PolicyResult ResponseHeaderAction)) (m : HeaderMap) : HeaderMap :=
  foldl (fun m r => match pr_Action r with
                    | Some (SHA_Mods x) => update_headers ToLower (drh_HeadersToSet x) (drh_HeadersToRemove x) m
                    | _ => m
                    end) m results.

End Replay.

Section Effects.
Context {W : Type} `{MapRange} `{NetURL}.
Implicit Types (c : ChainExecutor W) (specs : list PolicySpec) (s : Store W).

Lemma wp_updateHeaders norm l toSet toRemove Q E P s vs :
  headers_at s l = Some (mkHeaders (Some vs)) ->
  Q (set_heap (<[l := mkHeaders (Some (update_headers norm toSet toRemove vs))]> (st_heap s)) s) tt ->
  wp (updateHeaders norm l toSet toRemove) Q E P s.
Proof. intros Hl HQ. unfold wp, updateHeaders. by rewrite Hl. Qed.

(** What holds of the store, the context and the results after some
    iterations started from [s0], [ctx0] with the header map [m0]. *)
Definition headerInv (s0 : Store W) (ctx0 : RequestHeaderContext) (m0 : HeaderMap)
    (s : Store W) (st : RequestHeaderContext * RequestHeaderExecutionResult) : Prop :=
  st_heap s = <[rh_Headers ctx0 := mkHeaders (Some (replayRequestHeaders (er_Results st.2) m0))]> (st_heap s0) /\
  st.1 = mkRequestHeaderContext (rh_Headers ctx0)
           (lastSet pathOf (er_Results st.2) (rh_Path ctx0))
           (lastSet methodOf (er_Results st.2) (rh_Method ctx0))
           (rh_Authority ctx0) (rh_Scheme ctx0) (rh_Vhost ctx0) (rh_Downstream ctx0) (rh_Upstream ctx0).

Lemma headerInv_skip s0 ctx0 m0 s st spec :
  headerInv s0 ctx0 m0 s st -> headerInv s0 ctx0 m0 s (skipResult spec st).
Proof.
  intros [Hh Hc]. unfold headerInv, replayRequestHeaders, lastSet in *. simpl.
  by rewrite !foldl_app.
Qed.

Lemma headerInv_run s0 ctx0 m0 f spec params s st :
  headerInv s0 ctx0 m0 s st ->
  wp (requestHeaderRun f spec params st)
     (fun s' ctl => match ctl with Continue st' | Break st' => headerInv s0 ctx0 m0 s' st' end)
     (fun _ _ => True) False s.
Proof.
  intros [Hh Hc]. unfold requestHeaderRun. apply wp_bind, wp_invoke. intros w sh a _.
  apply wp_bind. destruct a as [[m|i]|]; simpl.
  - apply wp_bind. rewrite Hc. simpl. eapply wp_updateHeaders.
    { unfold headers_at. simpl. rewrite Hh. apply lookup_insert_eq. }
    apply wp_ret, wp_ret. unfold headerInv, replayRequestHeaders, lastSet. simpl.
    rewrite !foldl_app, Hh, insert_insert_eq. done.
  - apply wp_ret, wp_ret. unfold headerInv, replayRequestHeaders, lastSet in *. simpl.
    by rewrite !foldl_app.
  - apply wp_ret, wp_ret. unfold headerInv, replayRequestHeaders, lastSet in *. simpl.
    by rewrite !foldl_app.
Qed.

Lemma requestHeader_wp c pols ctx specs has s m :
  length pols <= length specs ->
  headers_at s (rh_Headers ctx) = Some (mkHeaders (Some m)) ->
  wp (ExecuteRequestHeaderPolicies c pols ctx specs has)
     (fun s' st => headerInv s ctx m s' st) (fun _ _ => True) False s.
Proof.
  intros Hlen Hm. apply wp_runForward; [done|]. apply loop_preserves.
  - intros f spec params pol st s1 _ _. apply headerInv_run.
  - intros. by apply headerInv_skip.
  - split; simpl; [|by destruct ctx]. by rewrite insert_id.
Qed.

(** The same for the response headers. *)
Definition respHeaderInv (s0 : Store W) (ctx0 : ResponseHeaderContext) (m0 : HeaderMap)
    (s : Store W) (st : ResponseHeaderContext * ResponseHeaderExecutionResult) : Prop :=
  st_heap s = <[sh_ResponseHeaders ctx0 := mkHeaders (Some (replayResponseHeaders (er_Results st.2) m0))]> (st_heap s0) /\
  st.1 = ctx0.

Lemma respHeaderInv_run s0 ctx0 m0 f spec params s st :
  respHeaderInv s0 ctx0 m0 s st ->
  wp (responseHeaderRun f spec params st)
     (fun s' ctl => match ctl with Continue st' | Break st' => respHeaderInv s0 ctx0 m0 s' st' end)
     (fun _ _ => True) False s.
Proof.
  intros [Hh Hc]. unfold responseHeaderRun. apply wp_bind, wp_invoke. intros w sh a _.
  apply wp_bind. destruct a as [[m|i]|]; simpl.
  - rewrite Hc. eapply wp_updateHeaders.
    { unfold headers_at. simpl. rewrite Hh. apply lookup_insert_eq. }
    apply wp_ret. unfold respHeaderInv, replayResponseHeaders. simpl.
    by rewrite !foldl_app, Hh, insert_insert_eq.
  - apply wp_ret, wp_ret. unfold respHeaderInv, replayResponseHeaders in *. simpl. by rewrite !foldl_app.
  - apply wp_ret, wp_ret. unfold respHeaderInv, replayResponseHeaders in *. simpl. by rewrite !foldl_app.
Qed.

Lemma responseHeader_wp c pols ctx specs has s m :
  length pols <= length specs ->
  headers_at s (sh_ResponseHeaders ctx) = Some (mkHeaders (Some m)) ->
  wp (ExecuteResponseHeaderPolicies c pols ctx specs has)
     (fun s' st => respHeaderInv s ctx m s' st) (fun _ _ => True) False s.
Proof.
  intros Hlen Hm. apply wp_runReverse; [done|]. apply loop_preserves.
  - intros f spec params pol st s1 _ _. apply respHeaderInv_run.
  - intros spec st s1 [Hh Hc]. unfold respHeaderInv, replayResponseHeaders in *. simpl.
    by rewrite !foldl_app.
  - split; simpl; [|done]. by rewrite insert_id.
Qed.

(** ** Panics *)

(** The object at [l] is a header map one can assign into. *)
Definition allocated (s : Store W) (l : loc) : Prop :=
  exists vs, headers_at s l = Some (mkHeaders (Some vs)).

(** [s'] differs from [s] in the header object at [l] only, which is
    allocated. *)
Definition heapUpd (l : loc) (s s' : Store W) : Prop :=
  exists vs, st_heap s' = <[l := mkHeaders (Some vs)]> (st_heap s).

Lemma heapUpd_refl l s : allocated s l -> heapUpd l s s.
Proof. intros [vs Hvs]. exists vs. symmetry. by apply insert_id. Qed.

Lemma heapUpd_allocated l s s' : heapUpd l s s' -> allocated s' l.
Proof. intros [vs Hvs]. exists vs. unfold headers_at. rewrite Hvs. apply lookup_insert_eq. Qed.

Lemma heapUpd_ne l l' s s' : heapUpd l s s' -> l' <> l -> headers_at s' l' = headers_at s l'.
Proof. intros [vs Hvs] Hne. unfold headers_at. rewrite Hvs. by rewrite lookup_insert_ne. Qed.

Lemma heapUpd_trans l s1 s2 s3 : heapUpd l s1 s2 -> heapUpd l s2 s3 -> heapUpd l s1 s3.
Proof. intros [v1 H1] [v2 H2]. exists v2. by rewrite H2, H1, insert_insert_eq. Qed.

Lemma heapUpd_other l l' s s' : heapUpd l s s' -> allocated s l' -> allocated s' l'.
Proof.
  intros Hu [vs Hvs]. destruct (decide (l' = l)) as [->|Hne]; [by eapply heapUpd_allocated|].
  exists vs. by rewrite (heapUpd_ne _ _ _ _ Hu).
Qed.

Lemma wp_updateHeaders_upd norm l toSet toRemove (Q : Store W -> unit -> Prop) E s0 s :
  heapUpd l s0 s ->
  (forall s', heapUpd l s0 s' -> Q s' tt) ->
  wp (updateHeaders norm l toSet toRemove) Q E False s.
Proof.
  intros Hu HQ. destruct (heapUpd_allocated _ _ _ Hu) as [vs Hvs].
  eapply wp_updateHeaders; [done|]. apply HQ. eapply heapUpd_trans; [done|]. by eexists.
Qed.

(** Each buffered phase changes the header object of its context only, on
    error returns too, and panics on no allocated one. *)
Lemma requestHeader_run_upd l s0 f spec params s st :
  rh_Headers st.1 = l /\ heapUpd l s0 s ->
  wp (requestHeaderRun f spec params st)
     (fun s' ctl => match ctl with Continue st' | Break st' => rh_Headers st'.1 = l /\ heapUpd l s0 s' end)
     (fun s' _ => heapUpd l s0 s') False s.
Proof.
  intros [<- Hu]. unfold requestHeaderRun. apply wp_bind, wp_invoke. intros w sh [[m|i]|] _; simpl;
    [|by apply wp_bind, wp_ret, wp_ret|by apply wp_bind, wp_ret, wp_ret].
  apply wp_bind, wp_bind. eapply wp_updateHeaders_upd; [exact Hu|]. intros s' Hs'. by apply wp_ret, wp_ret.
Qed.

Lemma requestBody_run_upd l s0 f spec params s st :
  rc_Headers st.1 = l /\ heapUpd l s0 s ->
  wp (requestBodyRun f spec params st)
     (fun s' ctl => match ctl with Continue st' | Break st' => rc_Headers st'.1 = l /\ heapUpd l s0 s' end)
     (fun s' _ => heapUpd l s0 s') False s.
Proof.
  intros [<- Hu]. unfold requestBodyRun. apply wp_bind, wp_invoke. intros w sh [[m|i]|] _; simpl;
    [|by apply wp_ret|by apply wp_ret].
  unfold applyRequestModifications. apply wp_bind, wp_bind. eapply wp_updateHeaders_upd; [exact Hu|].
  intros s' Hs'. by apply wp_ret, wp_ret.
Qed.

Lemma responseHeader_run_upd ctx0 s0 f spec params s st :
  st.1 = ctx0 /\ heapUpd (sh_ResponseHeaders ctx0) s0 s ->
  wp (responseHeaderRun f spec params st)
     (fun s' ctl => match ctl with Continue st' | Break st' => st'.1 = ctx0 /\ heapUpd (sh_ResponseHeaders ctx0) s0 s' end)
     (fun s' _ => heapUpd (sh_ResponseHeaders ctx0) s0 s') False s.
Proof.
  intros [<- Hu]. unfold responseHeaderRun. apply wp_bind, wp_invoke. intros w sh [[m|i]|] _; simpl;
    [|by apply wp_bind, wp_ret, wp_ret|by apply wp_bind, wp_ret, wp_ret].
  apply wp_bind. eapply wp_updateHeaders_upd; [exact Hu|]. intros s' Hs'. by apply wp_ret.
Qed.

Lemma responseBody_run_upd l s0 f spec params s st :
  rp_ResponseHeaders st.1 = l /\ heapUpd l s0 s ->
  wp (responseBodyRun f spec params st)
     (fun s' ctl => match ctl with Continue st' | Break st' => rp_ResponseHeaders st'.1 = l /\ heapUpd l s0 s' end)
     (fun s' _ => heapUpd l s0 s') False s.
Proof.
  intros [<- Hu]. unfold responseBodyRun. apply wp_bind, wp_invoke. intros w sh [[m|i]|] _; simpl;
    [|by apply wp_ret|by apply wp_ret].
  unfold applyResponseModifications. apply wp_bind, wp_bind. eapply wp_updateHeaders_upd; [exact Hu|].
  intros s' Hs'. by apply wp_ret, wp_ret.
Qed.

(** The context left by an error return refers to the same header object. *)
Lemma forwardState_inv {Ctx Cb R} c (ph : Phase W Ctx Cb R) pols specs has (J : R -> Prop) st s :
  (forall f spec params st s, J st ->
     wp (ph_run ph f spec params st) (fun _ ctl => match ctl with Continue st' | Break st' => J st' end) (fun _ _ => True) True s) ->
  (forall spec st, J st -> J (ph_skip ph spec st)) -> J st ->
  J (forwardState c ph pols specs has st s) /\ J (reverseState c ph pols specs has st s).
Proof.
  intros Hrun Hskip HJ.
  assert (forall pol spec st s, J st -> wp (policyBlock c ph has pol spec st)
    (fun _ ctl => match ctl with Continue st' | Break st' => J st' end) (fun _ _ => True) True s) as Hblock
    by (intros; apply wp_policyBlock; auto).
  split.
  - apply (range_state_inv J); [|done]. intros i pol r s1 Hr. apply wp_bind. unfold wp at 1, index.
    destruct (specs !! i); [by apply Hblock|done].
  - apply (down_state_inv J); [|done]. intros i r s1 Hr. apply wp_bind. unfold wp at 1, index.
    destruct (pols !! i); [|done]. apply wp_bind. unfold wp at 1. destruct (specs !! i); [by apply Hblock|done].
Qed.

Lemma requestHeaderCtxAtError_headers c pols ctx specs has s :
  rh_Headers (requestHeaderCtxAtError c pols ctx specs has s) = rh_Headers ctx.
Proof.
  apply (forwardState_inv c requestHeaderPhase pols specs has (fun st => rh_Headers st.1 = rh_Headers ctx)); [|done|done].
  intros f spec params st s1 Hst. apply wp_bind, wp_invoke. intros w sh a _. apply wp_bind.
  apply wp_mono with (Q := fun _ ctx' => rh_Headers ctx' = rh_Headers ctx) (E := fun _ _ => True) (P := True); [| |done|done].
  - destruct a as [[m|i]|]; simpl; [apply wp_bind, wp_any; intros; by apply wp_ret|by apply wp_ret..].
  - intros s2 ctx' Hctx. destruct a as [[m|i]|]; by apply wp_ret.
Qed.

Lemma requestBodyCtxAtError_headers c pols ctx specs has s :
  rc_Headers (requestBodyCtxAtError c pols ctx specs has s) = rc_Headers ctx.
Proof.
  apply (forwardState_inv c requestBodyPhase pols specs has (fun st => rc_Headers st.1 = rc_Headers ctx)); [|done|done].
  intros f spec params st s1 Hst. apply wp_bind, wp_invoke. intros w sh [[m|i]|] _; simpl; [|by apply wp_ret..].
  apply wp_bind, wp_bind, wp_any. intros. by apply wp_ret, wp_ret.
Qed.

Lemma responseBodyCtxAtError_headers c pols ctx specs has s :
  rp_ResponseHeaders (responseBodyCtxAtError c pols ctx specs has s) = rp_ResponseHeaders ctx.
Proof.
  apply (forwardState_inv c responseBodyPhase pols specs has (fun st => rp_ResponseHeaders st.1 = rp_ResponseHeaders ctx)); [|done|done].
  intros f spec params st s1 Hst. apply wp_bind, wp_invoke. intros w sh [[m|i]|] _; simpl; [|by apply wp_ret..].
  apply wp_bind, wp_bind, wp_any. intros. by apply wp_ret, wp_ret.
Qed.

Lemma requestHeader_safe c pols ctx specs has s :
  length pols <= length specs -> allocated s (rh_Headers ctx) ->
  wp (ExecuteRequestHeaderPolicies c pols ctx specs has)
     (fun s' r => rh_Headers r.1 = rh_Headers ctx /\ heapUpd (rh_Headers ctx) s s')
     (fun s' _ => heapUpd (rh_Headers ctx) s s') False s.
Proof.
  intros Hlen Hal. apply wp_runForward; [done|].
  apply loop_preserves_err with (J := fun s' st => rh_Headers st.1 = rh_Headers ctx /\ heapUpd (rh_Headers ctx) s s').
  - intros. by apply requestHeader_run_upd.
  - done.
  - by intros ??? [].
  - split; [done|]. by apply heapUpd_refl.
Qed.

Lemma requestBody_wp c pols ctx specs has s :
  length pols <= length specs -> allocated s (rc_Headers ctx) ->
  wp (ExecuteRequestPolicies c pols ctx specs has)
     (fun s' r => rc_Headers r.1 = rc_Headers ctx /\ heapUpd (rc_Headers ctx) s s')
     (fun s' _ => heapUpd (rc_Headers ctx) s s') False s.
Proof.
  intros Hlen Hal. apply wp_bind, wp_runForward; [done|].
  eapply wp_mono; [apply loop_preserves_err with
      (J := fun s' st => rc_Headers st.1 = rc_Headers ctx /\ heapUpd (rc_Headers ctx) s s')
      (E := fun s' _ => heapUpd (rc_Headers ctx) s s')| |done|done].
  - intros. by apply requestBody_run_upd.
  - done.
  - by intros ??? [].
  - split; [done|]. by apply heapUpd_refl.
  - intros s' st Hst. done.
Qed.

Lemma responseHeader_safe c pols ctx specs has s :
  length pols <= length specs -> allocated s (sh_ResponseHeaders ctx) ->
  wp (ExecuteResponseHeaderPolicies c pols ctx specs has)
     (fun s' r => r.1 = ctx /\ heapUpd (sh_ResponseHeaders ctx) s s')
     (fun s' _ => heapUpd (sh_ResponseHeaders ctx) s s') False s.
Proof.
  intros Hlen Hal. apply wp_runReverse; [done|].
  apply loop_preserves_err with (J := fun s' st => st.1 = ctx /\ heapUpd (sh_ResponseHeaders ctx) s s').
  - intros. by apply responseHeader_run_upd.
  - done.
  - by intros ??? [].
  - split; [done|]. by apply heapUpd_refl.
Qed.

Lemma responseBody_wp c pols ctx specs has s :
  length pols <= length specs -> allocated s (rp_ResponseHeaders ctx) ->
  wp (ExecuteResponsePolicies c pols ctx specs has)
     (fun s' r => rp_ResponseHeaders r.1 = rp_ResponseHeaders ctx /\ heapUpd (rp_ResponseHeaders ctx) s s')
     (fun s' _ => heapUpd (rp_ResponseHeaders ctx) s s') False s.
Proof.
  intros Hlen Hal. apply wp_runReverse; [done|].
  apply loop_preserves_err with
      (J := fun s' st => rp_ResponseHeaders st.1 = rp_ResponseHeaders ctx /\ heapUpd (rp_ResponseHeaders ctx) s s').
  - intros. by apply responseBody_run_upd.
  - done.
  - by intros ??? [].
  - split; [done|]. by apply heapUpd_refl.
Qed.

(** ** Streaming phases: the chunk *)

(** The chunk left by the results of a phase, in the order they ran. *)
Definition replayRequestChunk (results : list (PolicyResult StreamingRequestAction)) (ch : StreamBody) : StreamBody :=
  foldl (fun ch r => nextRequestChunk (pr_Action r) ch) ch results.
Definition replayResponseChunk (results : list (PolicyResult StreamingResponseAction)) (ch : StreamBody) : StreamBody :=
  foldl (fun ch r => nextResponseChunk (pr_Action r) ch) ch results.

Lemma streamingRequest_wp c pols ctx chunk specs has s :
  length pols <= length specs ->
  wp (ExecuteStreamingRequestPolicies c pols ctx chunk specs has)
     (fun s' res => st_heap s' = st_heap s /\
        sq_FinalChunk res = Some (replayRequestChunk (sq_Results res) chunk))
     (fun s' _ => st_heap s' = st_heap s) False s.
Proof.
  intros Hlen. apply wp_bind, wp_runForward; [done|].
  eapply wp_mono; [apply loop_preserves_err with
      (J := fun s' st => st_heap s' = st_heap s /\
              sql_chunk st = replayRequestChunk (sql_results st) chunk)
      (E := fun s' _ => st_heap s' = st_heap s)| |done|done].
  - intros f spec params pol st s1 _ _ [Hh Hch]. apply wp_bind, wp_invokeChunk. intros w sh a _.
    apply wp_ret. split; [done|]. unfold replayRequestChunk in *. simpl. by rewrite foldl_app, Hch.
  - intros spec st s1 [Hh Hch]. split; [done|]. unfold replayRequestChunk in *. simpl.
    by rewrite foldl_app, <- Hch.
  - by intros ??? [].
  - done.
  - intros s' st [Hh Hch]. apply wp_ret. simpl. by rewrite Hch.
Qed.

(** Whether the last entry asked to terminate the stream. *)
Definition endsTerminated (results : list (PolicyResult StreamingResponseAction)) : bool :=
  match last results ≫= pr_Action with Some a => TerminateStream a | None => false end.

Definition noTermination (r : PolicyResult StreamingResponseAction) : Prop :=
  forall a, pr_Action r = Some a -> TerminateStream a = false.

Definition sRespInv (chunk : StreamBody) (s0 s : Store W) (st : SRespLoop) : Prop :=
  st_heap s = st_heap s0 /\
  srl_chunk st = replayResponseChunk (srl_results st) chunk /\
  srl_terminated st = endsTerminated (srl_results st) /\
  Forall noTermination (if srl_terminated st then removelast (srl_results st) else srl_results st).

Lemma streamingResponse_wp c pols ctx chunk specs has s (P : Prop) :
  length pols <= length specs ->
  (P \/ forall pol cb need s ch p, pol ∈ pols -> asStreamingResponsePolicy pol = Some (cb, need) ->
         (cb s ctx ch p).2 <> None) ->
  wp (ExecuteStreamingResponsePolicies c pols ctx chunk specs has)
     (fun s' res => st_heap s' = st_heap s /\
        sr_FinalChunk res = Some (replayResponseChunk (sr_Results res) chunk) /\
        sr_StreamTerminated res = endsTerminated (sr_Results res) /\
        Forall noTermination (if sr_StreamTerminated res then removelast (sr_Results res) else sr_Results res))
     (fun s' _ => st_heap s' = st_heap s) P s.
Proof.
  intros Hlen Hnil. apply wp_bind, wp_runReverse; [done|].
  apply wp_mono with (Q := sRespInv chunk s) (E := fun s' _ => st_heap s' = st_heap s) (P := P); [| |done|done].
  2: { intros s' st (Hh&Hch&Ht&Hall). apply wp_ret. simpl. by rewrite Hch. }
  apply loop_wp with (I := fun l s' st => l.*1 ⊆ pols /\ sRespInv chunk s s' st /\ srl_terminated st = false).
  2: { by intros ?? (?&?&?). }
  2: { split_and!; try done. intros x. rewrite list_elem_of_fmap. intros (p&->&Hp). rewrite elem_of_reverse in Hp.
       destruct p. by apply elem_of_zip_l in Hp. }
  intros p l st s1 (Hsub&HI&Hnt). simpl in Hsub. pose proof HI as (Hh&Hch&Ht&Hall). rewrite Hnt in Ht, Hall.
  apply wp_policyBlock; [intros _; split_and!; [set_solver|exact HI|exact Hnt]| |by intros; apply Hh|].
  - intros f _. split; [set_solver|]. unfold sRespInv, replayResponseChunk, endsTerminated. simpl.
    rewrite foldl_app, last_snoc, Hnt. split_and!; try done. by apply Forall_app_2; [|constructor].
  - intros f params Hf _ _. apply wp_bind, wp_invokeChunk. intros w sh a Ha.
    destruct a as [a|].
    + destruct (TerminateStream a) eqn:Ea; apply wp_ret; [|split; [set_solver|]];
        unfold sRespInv, replayResponseChunk, endsTerminated in *; simpl in *;
        rewrite foldl_app, last_snoc; simpl; rewrite <- ?Hch, ?Hnt, ?Ea, ?removelast_last; split_and!; try done.
      apply Forall_app_2; [done|]. constructor; [|done]. by intros ? [= <-].
    + unfold wp, panic. destruct Hnil as [HP|Hnil]; [done|].
      simpl in Hf. unfold streamingResponseCallback in Hf.
      destruct (asStreamingResponsePolicy p.1) as [[cb need]|] eqn:Hp; [|done].
      destruct (String.eqb _ _); simplify_eq. exfalso. eapply (Hnil p.1 _ need s1 (srl_chunk st) params); [set_solver|done|].
      by rewrite Ha.
Qed.

End Effects.
