(* ===== verification/ChainBuild.v ===== *)
(** * ChainBuild: policy chains and the kernel's tables

    registry/chain.go, kernel/body_mode.go, kernel/mapper.go and
    kernel/xds.go of the policy engine: how a chain and its phase flags are
    computed from the configuration, the body mode derived from them, and the
    tables of chains, route configurations and sensitive values that requests
    and configuration updates share.  A method of [Kernel] holds its lock for
    its whole body, so each is one atomic step on the kernel's state. *)

From stdpp Require Import base gmap strings list fin_maps.
From S2P Require Import Prelude GoStrings Version Values Sdk Registry Executor QueryPath.

#[local] Set Warnings "-register-all".

Open Scope string_scope.

(** ** registry/chain.go *)

Record PolicyChain (W : Type) : Type := mkPolicyChain {
  pc_Policies : list (Policy W);
  pc_PolicySpecs : list PolicySpec;
  pc_RequiresRequestBody : bool;
  pc_RequiresResponseBody : bool;
  pc_SupportsRequestStreaming : bool;
  pc_SupportsResponseStreaming : bool;
  pc_HasExecutionConditions : bool;
  pc_RequiresRequestHeader : bool;
  pc_RequiresResponseHeader : bool
}.
Arguments mkPolicyChain {W} _ _ _ _ _ _ _ _ _.
Arguments pc_Policies {W} _.
Arguments pc_PolicySpecs {W} _.
Arguments pc_RequiresRequestBody {W} _.
Arguments pc_RequiresResponseBody {W} _.
Arguments pc_SupportsRequestStreaming {W} _.
Arguments pc_SupportsResponseStreaming {W} _.
Arguments pc_HasExecutionConditions {W} _.
Arguments pc_RequiresRequestHeader {W} _.
Arguments pc_RequiresResponseHeader {W} _.

(** ** kernel/body_mode.go *)

Inductive BodyMode : Type := KBodyModeSkip | KBodyModeBuffered | KBodyModeStreamed.

#[export] Instance BodyMode_eq_dec : EqDecision BodyMode.
Proof. solve_decision. Defined.

Definition determineRequestBodyMode {W} (chain : PolicyChain W) : BodyMode :=
  if negb (pc_RequiresRequestBody chain) then KBodyModeSkip
  else if pc_SupportsRequestStreaming chain then KBodyModeStreamed
  else KBodyModeBuffered.

Definition determineResponseBodyMode {W} (chain : PolicyChain W) : BodyMode :=
  if negb (pc_RequiresResponseBody chain) then KBodyModeSkip
  else if pc_SupportsResponseStreaming chain then KBodyModeStreamed
  else KBodyModeBuffered.

(** policyengine/config.go. *)
Record PolicyInstance : Type := mkPolicyInstance {
  pi_Name : string;
  pi_Version : string;
  pi_Enabled : bool;
  pi_ExecutionCondition : option string;
  pi_Parameters : Params
}.

Record ChainConfig : Type := mkChainConfig {
  cc_RouteKey : string;
  cc_Policies : list PolicyInstance
}.

(** The fields of [policyengine.Metadata] the builder reads. *)
Record ConfigMetadata : Type := mkConfigMetadata {
  cm_APIId : string;
  cm_APIName : string;
  cm_Version : string
}.

Definition implementsStreamingRequest {W} (impl : Policy W) : bool :=
  match asStreamingRequestPolicy impl with Some _ => true | None => false end.
Definition implementsStreamingResponse {W} (impl : Policy W) : bool :=
  match asStreamingResponsePolicy impl with Some _ => true | None => false end.

Section Build.
Context {W : Type} `{CEL} `{FmtScalar} `{MapRange}.

(** The state of [BuildPolicyChain]'s loop: the chain and the two
    [has...BodyPolicy] variables. *)
Definition BuildState : Type := PolicyChain W * bool * bool.

Definition buildStep (routeKey : string) (apiMetadata : PolicyMetadata) (reg : PolicyRegistry W)
    (spec : PolicySpec) (st : BuildState) : GoM W BuildState :=
  let '(chain, hasRequestBodyPolicy, hasResponseBodyPolicy) := st in
  let metadata := mkPolicyMetadata routeKey (pm_APIId apiMetadata) (pm_APIName apiMetadata)
                    (pm_APIVersion apiMetadata) "" in
  fun w =>
  match GetInstance reg (ps_Name spec) (ps_Version spec) metadata (ps_Raw spec) w with
  | Panic => Panic
  | Err w' err => Err w' ("failed to create policy instance " +:+ ps_Name spec +:+ ":" +:+ ps_Version spec
                          +:+ " for route " +:+ routeKey +:+ ": " +:+ err)
  | Ok w' (impl, mergedParams) =>
      let spec := mkPolicySpec (ps_Name spec) (ps_Version spec) (ps_Enabled spec) mergedParams
                    (ps_ExecutionCondition spec) in
      let mode := Mode impl in
      let reqBody := String.eqb (RequestBodyMode mode) BodyModeBuffer || String.eqb (RequestBodyMode mode) BodyModeStream in
      let respBody := String.eqb (ResponseBodyMode mode) BodyModeBuffer || String.eqb (ResponseBodyMode mode) BodyModeStream in
      Ok w'
       (mkPolicyChain (pc_Policies chain ++ [impl]) (pc_PolicySpecs chain ++ [spec])
          (if reqBody then true else pc_RequiresRequestBody chain)
          (if respBody then true else pc_RequiresResponseBody chain)
          (if reqBody then
             if String.eqb (RequestBodyMode mode) BodyModeStream then
               if negb (implementsStreamingRequest impl) then false else pc_SupportsRequestStreaming chain
             else false
           else pc_SupportsRequestStreaming chain)
          (if respBody then
             if String.eqb (ResponseBodyMode mode) BodyModeStream then
               if negb (implementsStreamingResponse impl) then false else pc_SupportsResponseStreaming chain
             else false
           else pc_SupportsResponseStreaming chain)
          (if hasCondition spec then true else pc_HasExecutionConditions chain)
          (if String.eqb (RequestHeaderMode mode) HeaderModeProcess then
             match OnRequestHeaders impl with Some _ => true | None => pc_RequiresRequestHeader chain end
           else pc_RequiresRequestHeader chain)
          (if String.eqb (ResponseHeaderMode mode) HeaderModeProcess then
             match OnResponseHeaders impl with Some _ => true | None => pc_RequiresResponseHeader chain end
           else pc_RequiresResponseHeader chain),
        (if reqBody then true else hasRequestBodyPolicy),
        (if respBody then true else hasResponseBodyPolicy))
  end.

Definition BuildPolicyChain (routeKey : string) (policySpecs : list PolicySpec) (reg : PolicyRegistry W)
    (apiMetadata : PolicyMetadata) : GoM W (PolicyChain W) :=
  let chain := mkPolicyChain [] [] false false true true false false false in
  st ← for_range (fun _ spec st => st' ← buildStep routeKey apiMetadata reg spec st; mret (Continue st'))
         0 policySpecs (chain, false, false);
  let '(chain, hasRequestBodyPolicy, hasResponseBodyPolicy) := st in
  mret (mkPolicyChain (pc_Policies chain) (pc_PolicySpecs chain)
          (pc_RequiresRequestBody chain) (pc_RequiresResponseBody chain)
          (if negb hasRequestBodyPolicy then false else pc_SupportsRequestStreaming chain)
          (if negb hasResponseBodyPolicy then false else pc_SupportsResponseStreaming chain)
          (pc_HasExecutionConditions chain) (pc_RequiresRequestHeader chain) (pc_RequiresResponseHeader chain)).

(** ** kernel/xds.go *)

(** The local variables of [buildPolicyChain]. *)
Record LoaderLocals : Type := mkLoaderLocals {
  ll_policyList : list (Policy W);
  ll_policySpecs : list PolicySpec;
  ll_requiresRequestBody : bool;
  ll_requiresResponseBody : bool;
  ll_hasExecutionConditions : bool;
  ll_requiresRequestHeader : bool;
  ll_requiresResponseHeader : bool;
  ll_supportsRequestStreaming : bool;
  ll_supportsResponseStreaming : bool;
  ll_hasRequestBodyPolicy : bool;
  ll_hasResponseBodyPolicy : bool
}.

(** What an instance of a policy adds to them. *)
Definition addInstance (policyConfig : PolicyInstance) (impl : Policy W) (mergedParams : Params) (l : LoaderLocals) : LoaderLocals :=
  let spec := mkPolicySpec (pi_Name policyConfig) (pi_Version policyConfig) (pi_Enabled policyConfig)
                mergedParams (pi_ExecutionCondition policyConfig) in
  let condition := match pi_ExecutionCondition policyConfig with
                   | Some e => negb (String.eqb e "") | None => false end in
  let mode := Mode impl in
  let reqBody := String.eqb (RequestBodyMode mode) BodyModeBuffer || String.eqb (RequestBodyMode mode) BodyModeStream in
  let respBody := String.eqb (ResponseBodyMode mode) BodyModeBuffer || String.eqb (ResponseBodyMode mode) BodyModeStream in
  let noReqStream := reqBody && (if String.eqb (RequestBodyMode mode) BodyModeStream
                                 then negb (implementsStreamingRequest impl) else true) in
  let noRespStream := respBody && (if String.eqb (ResponseBodyMode mode) BodyModeStream
                                   then negb (implementsStreamingResponse impl) else true) in
  mkLoaderLocals (ll_policyList l ++ [impl]) (ll_policySpecs l ++ [spec])
    (ll_requiresRequestBody l || reqBody)
    (ll_requiresResponseBody l || respBody)
    (ll_hasExecutionConditions l || condition)
    (ll_requiresRequestHeader l ||
       (String.eqb (RequestHeaderMode mode) HeaderModeProcess && bool_decide (is_Some (OnRequestHeaders impl))))
    (ll_requiresResponseHeader l ||
       (String.eqb (ResponseHeaderMode mode) HeaderModeProcess && bool_decide (is_Some (OnResponseHeaders impl))))
    (ll_supportsRequestStreaming l && negb noReqStream)
    (ll_supportsResponseStreaming l && negb noRespStream)
    (ll_hasRequestBodyPolicy l || reqBody)
    (ll_hasResponseBodyPolicy l || respBody).

Definition loaderStep (reg : PolicyRegistry W) (routeKey : string) (apiMetadata : ConfigMetadata)
    (policyConfig : PolicyInstance) (l : LoaderLocals) : GoM W LoaderLocals :=
  let metadata := mkPolicyMetadata routeKey (cm_APIId apiMetadata) (cm_APIName apiMetadata) (cm_Version apiMetadata) "" in
  fun w =>
  match GetInstance reg (pi_Name policyConfig) (pi_Version policyConfig) metadata (pi_Parameters policyConfig) w with
  | Panic => Panic
  | Err w' err => Err w' ("failed to create policy instance " +:+ pi_Name policyConfig +:+ ":" +:+ pi_Version policyConfig
                          +:+ " for route " +:+ routeKey +:+ ": " +:+ err)
  | Ok w' (impl, mergedParams) => Ok w' (addInstance policyConfig impl mergedParams l)
  end.

Definition initialLocals : LoaderLocals := mkLoaderLocals [] [] false false false false false true true false false.

(** The chain the local variables describe after the loop. *)
Definition chainOfLocals (l : LoaderLocals) : PolicyChain W :=
  mkPolicyChain (ll_policyList l) (ll_policySpecs l)
    (ll_requiresRequestBody l) (ll_requiresResponseBody l)
    (if negb (ll_hasRequestBodyPolicy l) then false else ll_supportsRequestStreaming l)
    (if negb (ll_hasResponseBodyPolicy l) then false else ll_supportsResponseStreaming l)
    (ll_hasExecutionConditions l) (ll_requiresRequestHeader l) (ll_requiresResponseHeader l).

Definition buildPolicyChain (reg : PolicyRegistry W) (routeKey : string) (config : ChainConfig)
    (apiMetadata : ConfigMetadata) : GoM W (PolicyChain W) :=
  l ← for_range (fun _ pc l => l' ← loaderStep reg routeKey apiMetadata pc l; mret (Continue l'))
        0 (cc_Policies config) initialLocals;
  mret (chainOfLocals l).

(** [validateConfig]: the error, if any. *)
Definition validateConfig (reg : PolicyRegistry W) (config : ChainConfig) : option string :=
  if String.eqb (cc_RouteKey config) "" then Some "route_key is required"
  else
    (fix go (i : nat) (l : list PolicyInstance) : option string :=
       match l with
       | [] => None
       | policyConfig :: l' =>
           let at_ e := "policy[" +:+ Itoa (Z.of_nat i) +:+ "]: " +:+ e in
           if String.eqb (pi_Name policyConfig) "" then Some (at_ "name is required")
           else if String.eqb (pi_Version policyConfig) "" then Some (at_ "version is required")
           else match PolicyExists reg (pi_Name policyConfig) (pi_Version policyConfig) with
                | Some err => Some (at_ err)
                | None => go (Datatypes.S i) l'
                end
       end) 0 (cc_Policies config).

End Build.

Arguments BuildState W : clear implicits.
Arguments LoaderLocals W : clear implicits.

(** ** kernel/mapper.go *)

Record RouteMetadata : Type := mkRouteMetadata {
  rm_RouteName : string;
  rm_APIId : string;
  rm_APIName : string;
  rm_APIVersion : string;
  rm_Context : string;
  rm_OperationPath : string;
  rm_Vhost : string;
  rm_APIKind : string;
  rm_TemplateHandle : string;
  rm_ProviderName : string;
  rm_ProjectID : string;
  rm_DefaultUpstreamCluster : string;
  rm_UpstreamBasePath : string;
  rm_UpstreamDefinitionPaths : gmap string string;
  rm_DefaultUpstream : option UpstreamInfo
}.

(** [RouteConfig] holds the metadata of a route. *)
Abbreviation RouteConfig := (RouteMetadata).

Record Kernel (W : Type) : Type := mkKernel {
  RouteConfigs : gmap string RouteConfig;
  PolicyChains : gmap string (PolicyChain W);
  sensitiveValues : list string
}.
Arguments mkKernel {W} _ _ _.
Arguments RouteConfigs {W} _.
Arguments PolicyChains {W} _.
Arguments sensitiveValues {W} _.

(** [deduplicateValues]: [seen] is the set of values met so far. *)
Definition deduplicateValues (values : list string) : list string :=
  (foldl (fun '(seen, unique) v =>
            if decide (v ∈ seen) then (seen, unique) else ({[v]} ∪ seen, (unique ++ [v])%list))
     ((∅ : gset string), []) values).2.

Section Kernel.
Context {W : Type}.
Implicit Types k : Kernel W.

Definition NewKernel : Kernel W := mkKernel ∅ ∅ [].

Definition GetRouteConfig (routeKey : string) k : option RouteConfig := RouteConfigs k !! routeKey.
Definition GetPolicyChain (policyChainKey : string) k : option (PolicyChain W) := PolicyChains k !! policyChainKey.
Definition GetPolicyChainForKey (key : string) k : option (PolicyChain W) := PolicyChains k !! key.

Definition RegisterRoute (metadataKey : string) (chain : PolicyChain W) k : Kernel W :=
  mkKernel (RouteConfigs k) (<[metadataKey := chain]> (PolicyChains k)) (sensitiveValues k).
Definition UnregisterRoute (metadataKey : string) k : Kernel W :=
  mkKernel (RouteConfigs k) (delete metadataKey (PolicyChains k)) (sensitiveValues k).
Definition ApplyWholeRouteConfigs (newConfigs : gmap string RouteConfig) k : Kernel W :=
  mkKernel newConfigs (PolicyChains k) (sensitiveValues k).
Definition ApplyWholeRoutes (newRoutes : gmap string (PolicyChain W)) k : Kernel W :=
  mkKernel (RouteConfigs k) newRoutes (sensitiveValues k).
Definition SetSensitiveValues (values : list string) k : Kernel W :=
  mkKernel (RouteConfigs k) (PolicyChains k) (deduplicateValues values).
Definition ApplyWholeRoutesAndSensitiveValues (newRoutes : gmap string (PolicyChain W)) (values : list string) k : Kernel W :=
  mkKernel (RouteConfigs k) newRoutes (deduplicateValues values).

Definition DumpRouteKeys `{MapRange} k : list string := (range (PolicyChains k)).*1.
Definition DumpRoutes k : gmap string (PolicyChain W) := map_copy_into ∅ (PolicyChains k).
Definition DumpRouteConfigs k : gmap string RouteConfig := map_copy_into ∅ (RouteConfigs k).
Definition GetSensitiveValues k : list string := sensitiveValues k.
Definition DumpRoutesAndSensitiveValues k : gmap string (PolicyChain W) * list string :=
  (map_copy_into ∅ (PolicyChains k), sensitiveValues k).

Definition GetRequestBodyMode (routeKey : string) k : BodyMode :=
  match GetPolicyChainForKey routeKey k with
  | None => KBodyModeSkip
  | Some chain => determineRequestBodyMode chain
  end.
Definition GetResponseBodyMode (routeKey : string) k : BodyMode :=
  match GetPolicyChainForKey routeKey k with
  | None => KBodyModeSkip
  | Some chain => determineResponseBodyMode chain
  end.

Context `{CEL} `{FmtScalar} `{MapRange}.

(** [LoadFromFile]; [file] is what reading and parsing the file gave.  The
    state is the kernel and the factories' own state. *)
Definition buildAll (reg : PolicyRegistry W) (configs : list ChainConfig) :
    GoM (Kernel W * W) (gmap string (PolicyChain W)) :=
  for_range (fun _ config chains => fun s =>
      match buildPolicyChain reg (cc_RouteKey config) config (mkConfigMetadata "" "" "") s.2 with
      | Panic => Panic
      | Err w err => Err (s.1, w) ("failed to build policy chain for route " +:+ cc_RouteKey config +:+ ": " +:+ err)
      | Ok w chain => Ok (s.1, w) (Continue (<[cc_RouteKey config := chain]> chains))
      end) 0 configs ∅.

Fixpoint validateAll (reg : PolicyRegistry W) (configs : list ChainConfig) : option string :=
  match configs with
  | [] => None
  | config :: configs' =>
      match validateConfig reg config with
      | Some err => Some ("invalid configuration for route " +:+ cc_RouteKey config +:+ ": " +:+ err)
      | None => validateAll reg configs'
      end
  end.

Definition LoadFromFile (reg : PolicyRegistry W) (file : string + list ChainConfig) :
    GoM (Kernel W * W) unit :=
  configs ← lift_err file;
  match validateAll reg configs with
  | Some err => fail err
  | None =>
      chains ← buildAll reg configs;
      modify (fun s => (mkKernel (RouteConfigs s.1) (map_copy_into (PolicyChains s.1) chains)
                          (sensitiveValues s.1), s.2))
  end.

End Kernel.

(** ** What the flags of a chain mean *)

Definition activeBody (m : string) : bool := String.eqb m BodyModeBuffer || String.eqb m BodyModeStream.

Section ChainLemmas.
Context {W : Type} `{CEL} `{FmtScalar} `{MapRange}.

(** A body policy that can be streamed. *)
Definition streamableRequest (p : Policy W) : bool :=
  negb (activeBody (RequestBodyMode (Mode p))) ||
  (String.eqb (RequestBodyMode (Mode p)) BodyModeStream && implementsStreamingRequest p).
Definition streamableResponse (p : Policy W) : bool :=
  negb (activeBody (ResponseBodyMode (Mode p))) ||
  (String.eqb (ResponseBodyMode (Mode p)) BodyModeStream && implementsStreamingResponse p).

Definition requestBodyPolicy (p : Policy W) : bool := activeBody (RequestBodyMode (Mode p)).
Definition responseBodyPolicy (p : Policy W) : bool := activeBody (ResponseBodyMode (Mode p)).
Definition requestHeaderPolicy (p : Policy W) : bool := bool_decide (is_Some (requestHeaderCallback p)).
Definition responseHeaderPolicy (p : Policy W) : bool := bool_decide (is_Some (responseHeaderCallback p)).

(** The flags of a chain are the facts about its policies that they stand
    for. *)
Record chainFlagsOk (chain : PolicyChain W) : Prop := {
  flag_requestBody : pc_RequiresRequestBody chain = existsb requestBodyPolicy (pc_Policies chain);
  flag_responseBody : pc_RequiresResponseBody chain = existsb responseBodyPolicy (pc_Policies chain);
  flag_requestStreaming : pc_SupportsRequestStreaming chain
    = existsb requestBodyPolicy (pc_Policies chain) && forallb streamableRequest (pc_Policies chain);
  flag_responseStreaming : pc_SupportsResponseStreaming chain
    = existsb responseBodyPolicy (pc_Policies chain) && forallb streamableResponse (pc_Policies chain);
  flag_conditions : pc_HasExecutionConditions chain = existsb hasCondition (pc_PolicySpecs chain);
  flag_requestHeader : pc_RequiresRequestHeader chain = existsb requestHeaderPolicy (pc_Policies chain);
  flag_responseHeader : pc_RequiresResponseHeader chain = existsb responseHeaderPolicy (pc_Policies chain)
}.

(** A built spec is the configured one with merged parameters. *)
Definition sameButParams (a b : PolicySpec) : Prop :=
  ps_Name a = ps_Name b /\ ps_Version a = ps_Version b /\ ps_Enabled a = ps_Enabled b /\
  ps_ExecutionCondition a = ps_ExecutionCondition b.

(** The invariant of [BuildPolicyChain]'s loop after the specs [done_]. *)
Definition buildInv (specs rest : list PolicySpec) (_ : W) (st : BuildState W) : Prop :=
  let '(chain, hasReq, hasResp) := st in
  exists done_, specs = (done_ ++ rest)%list /\
  length (pc_Policies chain) = length (pc_PolicySpecs chain) /\
  Forall2 sameButParams done_ (pc_PolicySpecs chain) /\
  hasReq = existsb requestBodyPolicy (pc_Policies chain) /\
  hasResp = existsb responseBodyPolicy (pc_Policies chain) /\
  pc_RequiresRequestBody chain = existsb requestBodyPolicy (pc_Policies chain) /\
  pc_RequiresResponseBody chain = existsb responseBodyPolicy (pc_Policies chain) /\
  pc_SupportsRequestStreaming chain = forallb streamableRequest (pc_Policies chain) /\
  pc_SupportsResponseStreaming chain = forallb streamableResponse (pc_Policies chain) /\
  pc_HasExecutionConditions chain = existsb hasCondition (pc_PolicySpecs chain) /\
  pc_RequiresRequestHeader chain = existsb requestHeaderPolicy (pc_Policies chain) /\
  pc_RequiresResponseHeader chain = existsb responseHeaderPolicy (pc_Policies chain).

Lemma orb_if (a b : bool) : (if a then true else b) = b || a.
Proof. by destruct a, b. Qed.

Lemma requestHeaderPolicy_eq (p : Policy W) b :
  (if String.eqb (RequestHeaderMode (Mode p)) HeaderModeProcess
   then match OnRequestHeaders p with Some _ => true | None => b end else b) = b || requestHeaderPolicy p.
Proof.
  unfold requestHeaderPolicy, requestHeaderCallback.
  destruct (OnRequestHeaders p), (String.eqb _ _), b; reflexivity.
Qed.

Lemma responseHeaderPolicy_eq (p : Policy W) b :
  (if String.eqb (ResponseHeaderMode (Mode p)) HeaderModeProcess
   then match OnResponseHeaders p with Some _ => true | None => b end else b) = b || responseHeaderPolicy p.
Proof.
  unfold responseHeaderPolicy, responseHeaderCallback.
  destruct (OnResponseHeaders p), (String.eqb _ _), b; reflexivity.
Qed.

Lemma streamable_eq (act stream impl b : bool) :
  (if act then if stream then if negb impl then false else b else false else b)
    = b && (negb act || (stream && impl)).
Proof. by destruct act, stream, impl, b. Qed.

Lemma buildStep_inv specs spec rest routeKey md reg st w :
  buildInv specs (spec :: rest) w st ->
  wp (buildStep routeKey md reg spec st) (fun w' st' => buildInv specs rest w' st') (fun _ _ => True) True w.
Proof.
  destruct st as [[chain hasReq] hasResp].
  intros (d&->&Hlen&Hspecs&->&->&Hf1&Hf2&Hf3&Hf4&Hf5&Hf6&Hf7).
  unfold wp, buildStep. destruct (GetInstance _ _ _ _ _ _) as [w' [impl merged]|?|]; [|done|done].
  exists (d ++ [spec])%list. simpl.
  rewrite !existsb_app, !forallb_app, requestHeaderPolicy_eq, responseHeaderPolicy_eq, !orb_if, !streamable_eq.
  simpl. rewrite Hf1, Hf2, Hf3, Hf4, Hf5, Hf6, Hf7, !orb_false_r, !andb_true_r, !length_app, Hlen.
  split_and!; try done.
  - by rewrite <- app_assoc.
  - apply Forall2_app; [done|]. by constructor.
Qed.

Lemma BuildPolicyChain_wp routeKey specs reg md w :
  wp (BuildPolicyChain routeKey specs reg md)
     (fun _ chain => chainFlagsOk chain /\ length (pc_Policies chain) = length (pc_PolicySpecs chain) /\
        Forall2 sameButParams specs (pc_PolicySpecs chain)) (fun _ _ => True) True w.
Proof.
  apply wp_bind. unfold wp. rewrite for_range_plain.
  apply (wp_mono _ (fun w st => buildInv specs [] w st) _ (fun _ _ => True) _ True); [| |done|done].
  - apply loop_wp with (I := buildInv specs).
    + intros spec l st s HI. apply wp_bind. eapply wp_mono; [by apply buildStep_inv| |done|done].
      intros s' st' HI'. by apply wp_ret.
    + done.
    + exists []. done.
  - intros w' [[chain hasReq] hasResp] (d&->&Hlen&Hspecs&->&->&Hf1&Hf2&Hf3&Hf4&Hf5&Hf6&Hf7).
    apply wp_ret. rewrite app_nil_r. split; [|done].
    split; simpl; try done.
    + rewrite Hf3. by destruct (existsb requestBodyPolicy _).
    + rewrite Hf4. by destruct (existsb responseBodyPolicy _).
Qed.

(** ** The two builders agree *)

Definition specOfInstance (pc : PolicyInstance) : PolicySpec :=
  mkPolicySpec (pi_Name pc) (pi_Version pc) (pi_Enabled pc) (pi_Parameters pc) (pi_ExecutionCondition pc).

(** The loop states correspond. *)
Definition builderRel (l : LoaderLocals W) (st : BuildState W) : Prop :=
  st = (mkPolicyChain (ll_policyList l) (ll_policySpecs l) (ll_requiresRequestBody l) (ll_requiresResponseBody l)
          (ll_supportsRequestStreaming l) (ll_supportsResponseStreaming l) (ll_hasExecutionConditions l)
          (ll_requiresRequestHeader l) (ll_requiresResponseHeader l),
        ll_hasRequestBodyPolicy l, ll_hasResponseBodyPolicy l).

Lemma not_streamable_eq (b act stream impl : bool) :
  b && negb (act && (if stream then negb impl else true)) = b && (negb act || (stream && impl)).
Proof. by destruct b, act, stream, impl. Qed.

Lemma builder_step_rel reg routeKey cm pc l st w :
  builderRel l st ->
  outcome_rel builderRel (loaderStep reg routeKey cm pc l w)
    (buildStep routeKey (mkPolicyMetadata routeKey (cm_APIId cm) (cm_APIName cm) (cm_Version cm) "") reg (specOfInstance pc) st w).
Proof.
  intros ->. unfold loaderStep, buildStep, addInstance. simpl.
  destruct (GetInstance _ _ _ _ _ _) as [w' [impl merged]|?|]; simpl; [|done|done].
  split; [done|]. unfold builderRel. simpl.
  rewrite requestHeaderPolicy_eq, responseHeaderPolicy_eq, !orb_if, !streamable_eq, !not_streamable_eq.
  unfold requestHeaderPolicy, responseHeaderPolicy, requestHeaderCallback, responseHeaderCallback.
  do 3 f_equal; destruct (OnRequestHeaders impl), (OnResponseHeaders impl), (String.eqb _ _); done.
Qed.

End ChainLemmas.
