(* ===== verification/XdsHandlers.v ===== *)
(** * XdsHandlers: configuration updates received over xDS

    internal/xdsclient of the policy engine: handler.go and signature.go turn
    a snapshot of policy chains into the kernel's table, reusing the chain of
    a route whose behavioural configuration is unchanged; the route
    configurations, API keys, subscriptions and lazy resources replace the
    content of their stores.  The stages of decoding (protobuf messages,
    protojson, encoding/json) are an interface, [XdsCodec]. *)

From stdpp Require Import base gmap strings list fin_maps.
From S2P Require Import Prelude GoStrings Values NestedMap Sha256 ApiKeys Subscriptions WebhookSecrets LazyResources Sdk Registry QueryPath Executor ChainBuild.

#[local] Set Warnings "-register-all".

Open Scope string_scope.

(** [anypb.Any]. *)
Record AnyResource : Type := mkAny {
  any_TypeUrl : string;
  any_Value : bytes
}.

Definition PolicyChainTypeURL : string := "api-platform.wso2.org/v1.PolicyChainConfig".
Definition APIKeyStateTypeURL : string := "api-platform.wso2.org/v1.APIKeyState".
Definition LazyResourceTypeURL : string := "api-platform.wso2.org/v1.LazyResources".
Definition SubscriptionStateTypeURL : string := "api-platform.wso2.org/v1.SubscriptionState".
Definition RouteConfigTypeURL : string := "api-platform.wso2.org/v1.RouteConfig".

(** policyengine/config.go. *)
Record XdsMetadata : Type := mkXdsMetadata {
  md_CreatedAt : Z;
  md_UpdatedAt : Z;
  md_ResourceVersion : Z;
  md_APIId : string;
  md_APIName : string;
  md_Version : string;
  md_Context : string
}.

Record StoredPolicyConfig : Type := mkStoredPolicyConfig {
  sp_ID : string;
  sp_Routes : list ChainConfig;
  sp_Metadata : XdsMetadata;
  sp_Version : Z;
  sp_SensitiveValues : option (list string) (* the transport metadata *)
}.

(** signature.go. *)
Record routeSignatureView : Type := mkView {
  v_RouteKey : string;
  v_Policies : list PolicyInstance;
  v_APIId : string;
  v_APIName : string;
  v_APIVersion : string
}.

Record LazyResourceData : Type := mkLazyResourceData {
  ld_ID : string;
  ld_ResourceType : string;
  ld_Resource : gmap string Value
}.

Class XdsCodec := {
  PbStruct : Type;
  unmarshalAny : bytes -> string + AnyResource;
  unmarshalStruct : bytes -> string + PbStruct;
  marshalStruct : PbStruct -> string + bytes; (* protojson *)
  marshalAsMap : PbStruct -> string + bytes; (* encoding/json of the map *)
  jsonStoredConfig : bytes -> string + StoredPolicyConfig;
  jsonRouteConfig : bytes -> string + gmap string Value;
  jsonAPIKeyState : bytes -> string + list APIKeyData;
  jsonSubscriptionState : bytes -> string + list SubscriptionData;
  jsonLazyResourceState : bytes -> string + list LazyResourceData;
  jsonView : routeSignatureView -> string + string
}.

Section Decode.
Context `{XdsCodec}.

(** The stages of decoding a resource that wraps a [Struct] in an [Any]. *)
Definition decodeWrapped {A} (msgAny msgStruct msgMarshal msgJSON : string) (json : bytes -> string + A) (r : AnyResource) : string + A :=
  sum_bind (orErr msgAny (unmarshalAny (any_Value r))) (fun innerAny =>
  sum_bind (orErr msgStruct (unmarshalStruct (any_Value innerAny))) (fun s =>
  sum_bind (orErr msgMarshal (marshalStruct s)) (fun jsonBytes =>
  orErr msgJSON (json jsonBytes)))).

Definition viewOf (config : ChainConfig) (md : XdsMetadata) : routeSignatureView :=
  mkView (cc_RouteKey config) (cc_Policies config) (md_APIId md) (md_APIName md) (md_Version md).

(** [signatureOf] and [routeSignature]. *)
Definition signatureOf (view : routeSignatureView) : string + string :=
  match jsonView view with inl e => inl e | inr b => inr (sha256_hex b) end.

Definition routeSignature (config : ChainConfig) (md : XdsMetadata) : string + string := signatureOf (viewOf config md).

End Decode.

(** ** handler.go *)

Record appliedRoute (W : Type) : Type := mkAppliedRoute {
  ar_signature : string;
  ar_chain : PolicyChain W
}.
Arguments mkAppliedRoute {W} _ _.
Arguments ar_signature {W} _.
Arguments ar_chain {W} _.

(** The kernel, the state of the policy factories, and the routes applied
    last. *)
Record ResourceHandler (W : Type) : Type := mkResourceHandler {
  xh_kernel : Kernel W;
  xh_world : W;
  xh_lastApplied : gmap string (appliedRoute W)
}.
Arguments mkResourceHandler {W} _ _ _.
Arguments xh_kernel {W} _.
Arguments xh_world {W} _.
Arguments xh_lastApplied {W} _.

Definition NewResourceHandler {W} (k : Kernel W) (w : W) : ResourceHandler W := mkResourceHandler k w ∅.

(** [data[key].(string)], [""] otherwise. *)
Definition getStringFromMap (m : gmap string Value) (key : string) : string :=
  match m !! key with Some (VString s) => s | _ => "" end.

Definition objectAt (m : gmap string Value) (key : string) : option (gmap string Value) :=
  match m !! key with Some (VMap o) => Some (list_to_map o) | _ => None end.

(** The body of the loop of [HandleRouteConfigUpdate] for one decoded
    resource. *)
Definition routeConfigOf (routeKey : string) (data : gmap string Value) : RouteConfig :=
  let meta f := match objectAt data "metadata" with Some metaMap => getStringFromMap metaMap f | None => "" end in
  mkRouteMetadata
    (match objectAt data "metadata" with Some _ => routeKey | None => "" end)
    (meta "uuid") (meta "display_name") (meta "version") (meta "api_context") (meta "path") (meta "vhost") (meta "kind")
    (meta "template_handle") (meta "provider_name") (meta "project_id")
    (getStringFromMap data "default_upstream_cluster")
    (getStringFromMap data "upstream_base_path")
    (match objectAt data "upstream_definition_paths" with
     | Some pathsRaw => omap (fun v => match v with VString s => Some s | _ => None end) pathsRaw
     | None => ∅
     end)
    (match data !! "default_upstream" with Some (VMap m) => Some (UpstreamInfoFromMap m) | _ => None end).

Section Handlers.
Context {W : Type} `{CEL} `{FmtScalar} `{MapRange} `{XdsCodec}.

(** [metadata.AttachedTo]: the parameter of that name, if it is a string. *)
Definition attachedTo (policyConfig : PolicyInstance) : string :=
  match pi_Parameters policyConfig !! "attachedTo" with Some (VString s) => s | _ => "" end.

Definition handlerStep (reg : PolicyRegistry W) (routeKey : string) (apiMetadata : XdsMetadata)
    (policyConfig : PolicyInstance) (l : LoaderLocals W) : GoM W (LoaderLocals W) :=
  let metadata := mkPolicyMetadata routeKey (md_APIId apiMetadata) (md_APIName apiMetadata) (md_Version apiMetadata)
                    (attachedTo policyConfig) in
  fun w =>
  match GetInstance reg (pi_Name policyConfig) (pi_Version policyConfig) metadata (pi_Parameters policyConfig) w with
  | Panic => Panic
  | Err w' err => Err w' ("failed to create policy instance " +:+ pi_Name policyConfig +:+ ":" +:+ pi_Version policyConfig
                          +:+ ": " +:+ err)
  | Ok w' (impl, mergedParams) => Ok w' (addInstance policyConfig impl mergedParams l)
  end.

(** [buildPolicyChain] of the handler. *)
Definition xdsBuildPolicyChain (reg : PolicyRegistry W) (routeKey : string) (config : ChainConfig)
    (apiMetadata : XdsMetadata) : GoM W (PolicyChain W) :=
  l ← for_range (fun _ pc l => l' ← handlerStep reg routeKey apiMetadata pc l; mret (Continue l'))
        0 (cc_Policies config) initialLocals;
  mret (chainOfLocals l).

(** The handler has its own copy of the loader's check: the same tests, in
    the same order, with the same messages. *)
Definition validatePolicyChainConfig (reg : PolicyRegistry W) (config : ChainConfig) : option string := validateConfig reg config.

(** The valid routes of a configuration, with its metadata. *)
Definition validRoutes (reg : PolicyRegistry W) (stored : StoredPolicyConfig) : list (ChainConfig * XdsMetadata) :=
  (fun config => (config, sp_Metadata stored)) <$>
    filter (fun config => validatePolicyChainConfig reg config = None) (sp_Routes stored).

(** The parsing phase: the valid routes of all resources and the sensitive
    values. *)
Fixpoint parseResources (reg : PolicyRegistry W) (resources : list AnyResource) :
    string + (list (ChainConfig * XdsMetadata) * list string) :=
  match resources with
  | [] => inr ([], [])
  | r :: rs =>
      if negb (String.eqb (any_TypeUrl r) PolicyChainTypeURL) then parseResources reg rs
      else
        sum_bind (decodeWrapped "failed to unmarshal inner Any from resource" "failed to unmarshal policy struct from inner Any"
                    "failed to marshal policy struct to JSON" "failed to unmarshal stored policy config from JSON"
                    jsonStoredConfig r) (fun stored =>
        sum_bind (parseResources reg rs) (fun '(configs, sensitive) =>
        inr ((validRoutes reg stored ++ configs)%list, (default [] (sp_SensitiveValues stored) ++ sensitive)%list)))
  end.

(** What the reconciliation builds: the chains to apply, and the record of
    them. *)
Record Reconciled : Type := mkReconciled {
  rec_chains : gmap string (PolicyChain W);
  rec_nextApplied : gmap string (appliedRoute W)
}.

(** Building a chain anew; [sig] is its signature, if it has one. *)
Definition rebuildRoute (reg : PolicyRegistry W) (config : ChainConfig) (md : XdsMetadata) (sig : option string)
    (acc : Reconciled) : GoM W (Ctl Reconciled) := fun w =>
  let routeKey := cc_RouteKey config in
  match xdsBuildPolicyChain reg routeKey config md w with
  | Panic => Panic
  | Err w' _ => Ok w' (Continue acc)
  | Ok w' chain =>
      Ok w' (Continue (mkReconciled (<[routeKey := chain]> (rec_chains acc))
                         (match sig with
                          | Some s => <[routeKey := mkAppliedRoute s chain]> (rec_nextApplied acc)
                          | None => rec_nextApplied acc
                          end)))
  end.

Definition reconcileRoute (reg : PolicyRegistry W) (lastApplied : gmap string (appliedRoute W)) (_ : nat)
    (cwm : ChainConfig * XdsMetadata) (acc : Reconciled) : GoM W (Ctl Reconciled) :=
  let '(config, md) := cwm in
  let routeKey := cc_RouteKey config in
  match routeSignature config md with
  | inl _ => rebuildRoute reg config md None acc
  | inr sig =>
      match lastApplied !! routeKey with
      | Some prev =>
          if String.eqb (ar_signature prev) sig then
            mret (Continue (mkReconciled (<[routeKey := ar_chain prev]> (rec_chains acc)) (<[routeKey := prev]> (rec_nextApplied acc))))
          else rebuildRoute reg config md (Some sig) acc
      | None => rebuildRoute reg config md (Some sig) acc
      end
  end.

Definition HandlePolicyChainUpdate (reg : PolicyRegistry W) (resources : list AnyResource) : GoM (ResourceHandler W) unit := fun h =>
  match parseResources reg resources with
  | inl err => Err h err
  | inr (configsWithMetadata, allSensitiveValues) =>
      match for_range (reconcileRoute reg (xh_lastApplied h)) 0 configsWithMetadata (mkReconciled ∅ ∅) (xh_world h) with
      | Ok w acc =>
          Ok (mkResourceHandler (ApplyWholeRoutesAndSensitiveValues (rec_chains acc) allSensitiveValues (xh_kernel h))
                w (rec_nextApplied acc)) tt
      | Err w err => Err (mkResourceHandler (xh_kernel h) w (xh_lastApplied h)) err
      | Panic => Panic
      end
  end.

(** [HandleRouteConfigUpdate]: the table of route configurations. *)
Fixpoint parseRouteConfigs (resources : list AnyResource) (routeConfigs : gmap string RouteConfig) : string + gmap string RouteConfig :=
  match resources with
  | [] => inr routeConfigs
  | r :: rs =>
      if negb (String.eqb (any_TypeUrl r) RouteConfigTypeURL) then parseRouteConfigs rs routeConfigs
      else
        sum_bind (decodeWrapped "failed to unmarshal inner Any from route config resource"
                    "failed to unmarshal route config struct from inner Any" "failed to marshal route config struct to JSON"
                    "failed to unmarshal route config JSON" jsonRouteConfig r) (fun data =>
        let routeKey := getStringFromMap data "route_key" in
        if String.eqb routeKey "" then parseRouteConfigs rs routeConfigs
        else parseRouteConfigs rs (<[routeKey := routeConfigOf routeKey data]> routeConfigs))
  end.

Definition HandleRouteConfigUpdate (resources : list AnyResource) : GoM (ResourceHandler W) unit := fun h =>
  match parseRouteConfigs resources ∅ with
  | inl err => Err h err
  | inr routeConfigs =>
      Ok (mkResourceHandler (ApplyWholeRouteConfigs routeConfigs (xh_kernel h)) (xh_world h) (xh_lastApplied h)) tt
  end.

End Handlers.

Arguments Reconciled W : clear implicits.

(** ** api_key_handler.go *)

Section StoreHandlers.
Context `{MapRange} `{XdsCodec}.

(** The object built from the data of a key. *)
Definition keyOfData (d : APIKeyData) : APIKey :=
  mkAPIKey (kd_ID d) (kd_Name d) "" (kd_APIKey d) (kd_APIId d) (kd_ApplicationID d) (kd_ApplicationName d)
    (kd_Operations d) (kd_Status d) (kd_CreatedAt d) (kd_CreatedBy d) (kd_UpdatedAt d) (kd_ExpiresAt d)
    (kd_Source d) (kd_Issuer d) (kd_AllowedTargets d).

Definition storeData (apiId : string) (d : APIKeyData) : GoM APIkeyStore unit :=
  ak ← new_key (keyOfData d); StoreAPIKey apiId (Some ak).

Definition replaceAllAPIKeys (apiKeyDataList : list APIKeyData) : GoM APIkeyStore unit :=
  ApiKeys.ClearAll;;
  for_range (fun _ d _ =>
      wrapErr (fun e => "failed to store API key " +:+ kd_ID d +:+ ": " +:+ e) (storeData (kd_APIId d) d);;
      mret (Continue tt)) 0 apiKeyDataList tt.

(** pkg/apikey/xds.go. *)
Definition DecodeAPIKeyStateResource (resource : AnyResource) : string + list APIKeyData :=
  sum_bind (orErr "failed to unmarshal inner Any" (unmarshalAny (any_Value resource))) (fun innerAny =>
  sum_bind (orErr "failed to unmarshal api keys struct from inner Any" (unmarshalStruct (any_Value innerAny))) (fun s =>
  sum_bind (orErr "failed to marshal Struct to JSON" (marshalAsMap s)) (fun data =>
  orErr "failed to unmarshal APIKeyStateResource" (jsonAPIKeyState data)))).

(** An error that is logged and dropped. *)
Definition logged {S A} (m : GoM S A) : GoM S unit := fun s =>
  match m s with Ok s' _ | Err s' _ => Ok s' tt | Panic => Panic end.

(** A failed replacement is logged, and the next resource is tried. *)
Definition HandleAPIKeyOperation (resources : gmap string AnyResource) : GoM APIkeyStore unit :=
  for_range (fun _ '(resourceName, resource) _ =>
      if negb (String.eqb (any_TypeUrl resource) APIKeyStateTypeURL) then mret (Continue tt)
      else
        apiKeys ← wrapErr (fun e => "failed to unmarshal inner Any from resource " +:+ resourceName +:+ ": " +:+ e)
                    (lift_err (DecodeAPIKeyStateResource resource));
        logged (replaceAllAPIKeys apiKeys);;
        mret (Continue tt)) 0 (range resources) tt.

Record APIKeyOperation : Type := mkAPIKeyOperation {
  op_Operation : string;
  op_APIKey : option APIKeyData;
  op_APIId : string;
  op_APIKeyValue : string
}.

Definition handleStoreOperation (operation : APIKeyOperation) : GoM APIkeyStore unit :=
  match op_APIKey operation with
  | None => fail "API key data is required for store operation"
  | Some d => wrapErr (fun e => "failed to store API key in store: " +:+ e) (storeData (op_APIId operation) d)
  end.

Definition handleRevokeOperation (operation : APIKeyOperation) : GoM APIkeyStore unit :=
  if String.eqb (op_APIKeyValue operation) "" then fail "API key value is required for revoke operation"
  else wrapErr (fun e => "failed to revoke API key in store: " +:+ e)
         (RevokeAPIKey (op_APIId operation) (op_APIKeyValue operation)).

Definition handleRemoveByAPIOperation (operation : APIKeyOperation) : GoM APIkeyStore unit :=
  wrapErr (fun e => "failed to remove API keys by API in store: " +:+ e) (RemoveAPIKeysByAPI (op_APIId operation)).

Definition processAPIKeyOperation (operation : APIKeyOperation) : GoM APIkeyStore unit :=
  if String.eqb (op_Operation operation) "store" then handleStoreOperation operation
  else if String.eqb (op_Operation operation) "revoke" then handleRevokeOperation operation
  else if String.eqb (op_Operation operation) "remove_by_api" then handleRemoveByAPIOperation operation
  else fail ("unknown API key operation: " +:+ op_Operation operation).

(** ** subscription_handler.go *)

(** The [Struct] of a resource, directly or wrapped in an [Any]. *)
Definition decodeSubscriptionStruct (resource : AnyResource) : string + PbStruct :=
  match unmarshalStruct (any_Value resource) with
  | inr s => inr s
  | inl err =>
      match unmarshalAny (any_Value resource) with
      | inr innerAny => orErr "failed to unmarshal subscription struct from inner Any" (unmarshalStruct (any_Value innerAny))
      | inl _ => inl ("failed to unmarshal subscription struct from resource: " +:+ err)
      end
  end.

Definition decodeSubscriptions (resourceName : string) (resource : option AnyResource) : string + list SubscriptionData :=
  match resource with
  | None => inl ("nil subscription state resource: " +:+ resourceName)
  | Some r =>
      if negb (String.eqb (any_TypeUrl r) SubscriptionStateTypeURL) then
        inl ("unexpected subscription state resource type: got " +:+ any_TypeUrl r +:+ ", want " +:+ SubscriptionStateTypeURL)
      else
        sum_bind (decodeSubscriptionStruct r) (fun s =>
        sum_bind (orErr "failed to marshal subscription struct to JSON" (marshalStruct s)) (fun jsonBytes =>
        orErr ("failed to unmarshal subscription state for resource " +:+ resourceName) (jsonSubscriptionState jsonBytes)))
  end.

Fixpoint allSubscriptionsOf (resources : list (string * option AnyResource)) : string + list SubscriptionData :=
  match resources with
  | [] => inr []
  | (name, r) :: rs =>
      sum_bind (decodeSubscriptions name r) (fun subs =>
      sum_bind (allSubscriptionsOf rs) (fun rest => inr (subs ++ rest)%list))
  end.

(** The state is the handler's store, [None] being a nil pointer. *)
Definition HandleSubscriptionState (resources : gmap string (option AnyResource)) : GoM (option SubscriptionStore) unit := fun store =>
  let noStore := "subscription snapshot received but store is nil (misconfiguration); cannot apply state" in
  if decide (size resources = 0) then
    match store with
    | None => Err store noStore
    | Some s => Ok (Some (Subscriptions.ReplaceAll [] s)) tt
    end
  else match allSubscriptionsOf (range resources) with
       | inl err => Err store err
       | inr allSubscriptions =>
           match store with
           | None => Err store noStore
           | Some s => Ok (Some (Subscriptions.ReplaceAll allSubscriptions s)) tt
           end
       end.

(** ** lazy_resource_handler.go *)

Definition replaceAllLazyResources (resourceDataList : list LazyResourceData) : GoM LazyResourceStore unit :=
  wrapErr (fun e => "failed to replace lazy resources: " +:+ e)
    (LazyResources.ReplaceAll
       ((fun d => Some (mkLazyResource (ld_ID d) (ld_ResourceType d) (ld_Resource d))) <$> resourceDataList)).

Definition HandleLazyResourceUpdate (resources : gmap string AnyResource) : GoM LazyResourceStore unit :=
  for_range (fun _ '(resourceName, resource) _ =>
      if negb (String.eqb (any_TypeUrl resource) LazyResourceTypeURL) then mret (Continue tt)
      else
        state ← lift_err (decodeWrapped "failed to unmarshal inner Any from resource"
                            "failed to unmarshal lazy resource struct from inner Any" "failed to marshal lazy resource struct to JSON"
                            ("failed to unmarshal lazy resource state for " +:+ resourceName) jsonLazyResourceState resource);
        wrapErr (fun e => "failed to replace lazy resources for " +:+ resourceName +:+ ": " +:+ e) (replaceAllLazyResources state);;
        mret (Continue tt)) 0 (range resources) tt.

End StoreHandlers.
