(* ===== verification/XdsClient.v ===== *)
(** * XdsClient: the connection to the control plane

    internal/xdsclient of the policy engine: reconnect.go (the delay between
    attempts), client.go (the stream of discovery responses, each answered
    with an ACK or a NACK, and the life cycle of the client) and config.go.
    The gRPC connection is not modelled: dialling, sending and receiving are
    inputs.  [Start]'s goroutine and [Stop] share the client's fields, so the
    life cycle is a step relation on their joint state. *)

From stdpp Require Import base gmap strings list fin_maps.
From S2P Require Import Prelude GoStrings Values NestedMap Sha256 ApiKeys Subscriptions WebhookSecrets LazyResources Sdk Registry QueryPath Executor ChainBuild XdsHandlers.

#[local] Set Warnings "-register-all".

Open Scope string_scope.

(** ** config.go *)

(** Durations are nanoseconds. *)
Record Config : Type := mkConfig {
  cfg_ServerAddress : string;
  cfg_ConnectTimeout : Z;
  cfg_RequestTimeout : Z;
  cfg_InitialReconnectDelay : Z;
  cfg_MaxReconnectDelay : Z;
  cfg_TLSEnabled : bool;
  cfg_TLSCertPath : string;
  cfg_TLSKeyPath : string;
  cfg_TLSCAPath : string
}.

(** [Validate]: the error, if any. *)
Definition Validate (c : Config) : option string :=
  if String.eqb (cfg_ServerAddress c) "" then Some "server address is required"
  else if (cfg_ConnectTimeout c <=? 0)%Z then Some "connect timeout must be positive"
  else if (cfg_RequestTimeout c <=? 0)%Z then Some "request timeout must be positive"
  else if (cfg_InitialReconnectDelay c <=? 0)%Z then Some "initial reconnect delay must be positive"
  else if (cfg_MaxReconnectDelay c <=? 0)%Z then Some "max reconnect delay must be positive"
  else if cfg_TLSEnabled c then
    if String.eqb (cfg_TLSCertPath c) "" then Some "TLS cert path is required when TLS is enabled"
    else if String.eqb (cfg_TLSKeyPath c) "" then Some "TLS key path is required when TLS is enabled"
    else if String.eqb (cfg_TLSCAPath c) "" then Some "TLS CA path is required when TLS is enabled"
    else None
  else None.

Definition second : Z := 1000000000.
Definition NewDefaultConfig (serverAddress : string) : Config :=
  mkConfig serverAddress (10 * second) (5 * second) (1 * second) (60 * second) false "" "" "".

(** ** reconnect.go *)

(** Converting a [float64] that no [int64] can represent gives a value that
    depends on the implementation. *)
Class FloatToInt := { outOfRange : Z -> Z }.

Record ReconnectManager : Type := mkReconnectManager {
  rm_currentDelay : Z;
  rm_reconnectCount : Z
}.

Section Reconnect.
Context `{FloatToInt} (config : Config).

Definition NewReconnectManager : ReconnectManager := mkReconnectManager (cfg_InitialReconnectDelay config) 0.

(** [time.Duration(float64(initial) * math.Pow(2, float64(count)))]: scaling
    by a power of two is exact, so only the conversion of the initial delay
    rounds. *)
Definition backoff (count : Z) : Z :=
  let '(m, e) := int_to_float (cfg_InitialReconnectDelay config) in
  let d := (m * 2 ^ (e + count))%Z in
  if in_int64 d then d else outOfRange d.

Definition NextDelay (rm : ReconnectManager) : ReconnectManager * Z :=
  let delay := backoff (rm_reconnectCount rm) in
  let delay := if (cfg_MaxReconnectDelay config <? delay)%Z then cfg_MaxReconnectDelay config else delay in
  (mkReconnectManager delay (rm_reconnectCount rm + 1), delay).

Definition Reset (_ : ReconnectManager) : ReconnectManager := mkReconnectManager (cfg_InitialReconnectDelay config) 0.

(** The delay after [n] failures in a row, the first being number 0. *)
Fixpoint delayAfter (n : nat) (rm : ReconnectManager) : Z :=
  match n with
  | O => (NextDelay rm).2
  | S n' => delayAfter n' (NextDelay rm).1
  end.

End Reconnect.

(** ** client.go: the stream *)

Record DiscoveryResponse : Type := mkDiscoveryResponse {
  dr_TypeUrl : string;
  dr_VersionInfo : string;
  dr_Nonce : string;
  dr_Resources : list AnyResource
}.

(** The node is a constant, and no [ErrorDetail] is set. *)
Record DiscoveryRequest : Type := mkDiscoveryRequest {
  dq_TypeUrl : string;
  dq_VersionInfo : string;
  dq_ResponseNonce : string
}.

(** Everything an update can change. *)
Record Engine (W : Type) : Type := mkEngine {
  en_handler : ResourceHandler W;
  en_keys : APIkeyStore;
  en_subs : option SubscriptionStore;
  en_lazy : LazyResourceStore
}.
Arguments mkEngine {W} _ _ _ _.
Arguments en_handler {W} _.
Arguments en_keys {W} _.
Arguments en_subs {W} _.
Arguments en_lazy {W} _.

(** The fields of the client the stream uses; [cl_sent] records the requests
    sent, [cl_stream] whether the stream is set. *)
Record Client (W : Type) : Type := mkClient {
  cl_stream : bool;
  policyChainVersion : string;
  apiKeyVersion : string;
  lazyResourceVersion : string;
  subscriptionStateVersion : string;
  routeConfigVersion : string;
  currentNonce : string;
  cl_engine : Engine W;
  cl_sent : list DiscoveryRequest
}.
Arguments mkClient {W} _ _ _ _ _ _ _ _ _.
Arguments cl_stream {W} _.
Arguments policyChainVersion {W} _.
Arguments apiKeyVersion {W} _.
Arguments lazyResourceVersion {W} _.
Arguments subscriptionStateVersion {W} _.
Arguments routeConfigVersion {W} _.
Arguments currentNonce {W} _.
Arguments cl_engine {W} _.
Arguments cl_sent {W} _.

(** [resourceMap]. *)
Definition resourceMap {A} (f : AnyResource -> A) (resources : list AnyResource) : gmap string A :=
  list_to_map (imap (fun i r => ("resource_" +:+ Itoa (Z.of_nat i), f r)) resources).

Section Client.
Context {W : Type} `{CEL} `{FmtScalar} `{MapRange} `{XdsCodec}.
Implicit Types (c : Client W) (e : Engine W).

Definition IsHealthy c : bool := negb (String.eqb (policyChainVersion c) "").
Definition GetPolicyChainVersion c : string := policyChainVersion c.

(** An update of one part of the engine. *)
Definition onHandler (m : GoM (ResourceHandler W) unit) : GoM (Engine W) unit := fun e =>
  match m (en_handler e) with
  | Ok h _ => Ok (mkEngine h (en_keys e) (en_subs e) (en_lazy e)) tt
  | Err h err => Err (mkEngine h (en_keys e) (en_subs e) (en_lazy e)) err
  | Panic => Panic
  end.
Definition onKeys (m : GoM APIkeyStore unit) : GoM (Engine W) unit := fun e =>
  match m (en_keys e) with
  | Ok k _ => Ok (mkEngine (en_handler e) k (en_subs e) (en_lazy e)) tt
  | Err k err => Err (mkEngine (en_handler e) k (en_subs e) (en_lazy e)) err
  | Panic => Panic
  end.
Definition onSubs (m : GoM (option SubscriptionStore) unit) : GoM (Engine W) unit := fun e =>
  match m (en_subs e) with
  | Ok s _ => Ok (mkEngine (en_handler e) (en_keys e) s (en_lazy e)) tt
  | Err s err => Err (mkEngine (en_handler e) (en_keys e) s (en_lazy e)) err
  | Panic => Panic
  end.
Definition onLazy (m : GoM LazyResourceStore unit) : GoM (Engine W) unit := fun e =>
  match m (en_lazy e) with
  | Ok l _ => Ok (mkEngine (en_handler e) (en_keys e) (en_subs e) l) tt
  | Err l err => Err (mkEngine (en_handler e) (en_keys e) (en_subs e) l) err
  | Panic => Panic
  end.

Definition handleDiscoveryResponse (reg : PolicyRegistry W) (resp : DiscoveryResponse) : GoM (Engine W) unit :=
  if String.eqb (dr_TypeUrl resp) PolicyChainTypeURL then onHandler (HandlePolicyChainUpdate reg (dr_Resources resp))
  else if String.eqb (dr_TypeUrl resp) APIKeyStateTypeURL then onKeys (HandleAPIKeyOperation (resourceMap id (dr_Resources resp)))
  else if String.eqb (dr_TypeUrl resp) LazyResourceTypeURL then onLazy (HandleLazyResourceUpdate (resourceMap id (dr_Resources resp)))
  else if String.eqb (dr_TypeUrl resp) SubscriptionStateTypeURL then onSubs (HandleSubscriptionState (resourceMap Some (dr_Resources resp)))
  else if String.eqb (dr_TypeUrl resp) RouteConfigTypeURL then onHandler (HandleRouteConfigUpdate (dr_Resources resp))
  else fail ("unexpected type URL: " +:+ dr_TypeUrl resp).

(** The version the client has recorded for a type. *)
Definition versionFor (typeUrl : string) c : string :=
  if String.eqb typeUrl PolicyChainTypeURL then policyChainVersion c
  else if String.eqb typeUrl APIKeyStateTypeURL then apiKeyVersion c
  else if String.eqb typeUrl LazyResourceTypeURL then lazyResourceVersion c
  else if String.eqb typeUrl SubscriptionStateTypeURL then subscriptionStateVersion c
  else if String.eqb typeUrl RouteConfigTypeURL then routeConfigVersion c
  else "".

Definition set_engine e c : Client W :=
  mkClient (cl_stream c) (policyChainVersion c) (apiKeyVersion c) (lazyResourceVersion c) (subscriptionStateVersion c)
    (routeConfigVersion c) (currentNonce c) e (cl_sent c).

(** The version and the nonce of an accepted response. *)
Definition recordVersion (resp : DiscoveryResponse) c : Client W :=
  let t := dr_TypeUrl resp in
  let v := dr_VersionInfo resp in
  let upd (url old : string) := if String.eqb t url then v else old in
  mkClient (cl_stream c) (upd PolicyChainTypeURL (policyChainVersion c)) (upd APIKeyStateTypeURL (apiKeyVersion c))
    (upd LazyResourceTypeURL (lazyResourceVersion c)) (upd SubscriptionStateTypeURL (subscriptionStateVersion c))
    (upd RouteConfigTypeURL (routeConfigVersion c)) (dr_Nonce resp) (cl_engine c) (cl_sent c).

(** [stream.Send]: its result depends on the request and on what was sent
    before. *)
Context (send : list DiscoveryRequest -> DiscoveryRequest -> string + unit).

Definition streamSend (req : DiscoveryRequest) : GoM (Client W) unit := fun c =>
  let c' := mkClient (cl_stream c) (policyChainVersion c) (apiKeyVersion c) (lazyResourceVersion c) (subscriptionStateVersion c)
              (routeConfigVersion c) (currentNonce c) (cl_engine c) (cl_sent c ++ [req])%list in
  match send (cl_sent c) req with inl err => Err c err | inr _ => Ok c' tt end.

Definition sendDiscoveryRequestForType (typeURL versionInfo responseNonce : string) : GoM (Client W) unit :=
  c ← get;
  if negb (cl_stream c) then fail "stream is not available"
  else wrapErr (fun err => "failed to send request for " +:+ typeURL +:+ ": " +:+ err)
         (streamSend (mkDiscoveryRequest typeURL versionInfo responseNonce)).

(** [sendDiscoveryRequest]: a subscription to each of the five types; its
    first argument is not used. *)
Definition sendDiscoveryRequest (versionInfo responseNonce : string) : GoM (Client W) unit :=
  c ← get;
  if negb (cl_stream c) then fail "stream is not available"
  else
    wrapErr (fun err => "failed to send policy chain request: " +:+ err)
      (streamSend (mkDiscoveryRequest PolicyChainTypeURL (policyChainVersion c) responseNonce));;
    wrapErr (fun err => "failed to send API key request: " +:+ err)
      (streamSend (mkDiscoveryRequest APIKeyStateTypeURL (apiKeyVersion c) responseNonce));;
    wrapErr (fun err => "failed to send lazy resource request: " +:+ err)
      (streamSend (mkDiscoveryRequest LazyResourceTypeURL (lazyResourceVersion c) responseNonce));;
    wrapErr (fun err => "failed to send subscription state request: " +:+ err)
      (streamSend (mkDiscoveryRequest SubscriptionStateTypeURL (subscriptionStateVersion c) responseNonce));;
    wrapErr (fun err => "failed to send route config request: " +:+ err)
      (streamSend (mkDiscoveryRequest RouteConfigTypeURL "" responseNonce)).

(** One iteration of [processStream] for a response that was received. *)
Definition processResponse (reg : PolicyRegistry W) (resp : DiscoveryResponse) : GoM (Client W) unit := fun c =>
  match handleDiscoveryResponse reg resp (cl_engine c) with
  | Panic => Panic
  | Err e _ =>
      let c := set_engine e c in
      wrapErr (fun err => "failed to send NACK: " +:+ err)
        (sendDiscoveryRequestForType (dr_TypeUrl resp) (versionFor (dr_TypeUrl resp) c) (dr_Nonce resp)) c
  | Ok e _ =>
      let c := recordVersion resp (set_engine e c) in
      wrapErr (fun err => "failed to send ACK: " +:+ err)
        (sendDiscoveryRequestForType (dr_TypeUrl resp) (dr_VersionInfo resp) (dr_Nonce resp)) c
  end.

(** What [Recv] returns, in order; the stream ends with an error. *)
Inductive Received : Type :=
| Response (resp : DiscoveryResponse)
| ReceiveError (err : string).

Fixpoint processStream (reg : PolicyRegistry W) (events : list Received) : GoM (Client W) unit :=
  match events with
  | [] => fail "EOF"
  | Response resp :: events' => processResponse reg resp;; processStream reg events'
  | ReceiveError err :: _ => fail ("error receiving from stream: " +:+ err)
  end.

End Client.

(** ** client.go: the life cycle *)

Inductive ClientState : Type :=
| StateDisconnected | StateConnecting | StateConnected | StateReconnecting | StateStopped.

#[export] Instance ClientState_eq_dec : EqDecision ClientState.
Proof. solve_decision. Defined.

(** Where the goroutine of [run] is: before the named action. *)
Inductive RunPc : Type :=
| RTop (* the first select of the loop *)
| RSetConnecting
| RDial
| RSetConn
| ROpenStream
| RSetConnected
| RSubscribe (* the initial requests *)
| RReceive
| RCloseConn (* the deferred function *)
| RAfter (* connectAndRun has returned *)
| RSelect (* the second select *)
| RSetReconnecting
| RWait
| RDone.

(** Where [Stop] is. *)
Inductive StopPc : Type := SIdle | SSetStopped | SCancel | SCloseConn | SDone.

Record Life : Type := mkLife {
  li_run : RunPc;
  li_stop : StopPc;
  li_state : ClientState;
  li_cancelled : bool; (* the context is done *)
  li_conn : bool; (* [c.conn != nil] *)
  li_failures : nat; (* [reconnectCount] *)
  li_buffered : nat; (* messages the transport holds for the stream *)
  li_broken : bool (* the transport has reported the connection or stream lost *)
}.

Definition startLife : Life := mkLife RTop SIdle StateDisconnected false false 0 0 false.

(** Opening the stream, sending and receiving block on the connection, for as
    long as it is healthy.  They are given [c.ctx]: they fail when it is done,
    when [Stop] has closed the connection, and when the transport reports the
    connection lost.  Dialling has a deadline of its own besides
    ([ConnectTimeout]), so it may fail at any time. *)
Definition unblocked (ca conn br : bool) : bool := ca || negb conn || br.

(** A step of the goroutine.  [Recv] returns a message the transport holds; a
    new stream has none, and a new connection is not lost yet. *)
Inductive runStep : Life -> Life -> Prop :=
| run_top_stop s st conn n b br : runStep (mkLife RTop s st true conn n b br) (mkLife RDone s st true conn n b br)
| run_top s st conn n b br : runStep (mkLife RTop s st false conn n b br) (mkLife RSetConnecting s st false conn n b br)
| run_connecting s st ca conn n b br :
    runStep (mkLife RSetConnecting s st ca conn n b br) (mkLife RDial s StateConnecting ca conn n b br)
| run_dial_err s st ca conn n b br : runStep (mkLife RDial s st ca conn n b br) (mkLife RAfter s st ca conn n b br)
| run_dial s st ca conn n b br : runStep (mkLife RDial s st ca conn n b br) (mkLife RSetConn s st ca conn n b false)
| run_conn s st ca conn n b br : runStep (mkLife RSetConn s st ca conn n b br) (mkLife ROpenStream s st ca true n b br)
| run_stream_err s st ca conn n b br :
    unblocked ca conn br = true -> runStep (mkLife ROpenStream s st ca conn n b br) (mkLife RCloseConn s st ca conn n b br)
| run_stream s st ca conn n b br : runStep (mkLife ROpenStream s st ca conn n b br) (mkLife RSetConnected s st ca conn n 0 br)
| run_connected s st ca conn n b br :
    runStep (mkLife RSetConnected s st ca conn n b br) (mkLife RSubscribe s StateConnected ca conn 0 b br)
| run_subscribe_err s st ca conn n b br :
    unblocked ca conn br = true -> runStep (mkLife RSubscribe s st ca conn n b br) (mkLife RCloseConn s st ca conn n b br)
| run_subscribe s st ca conn n b br : runStep (mkLife RSubscribe s st ca conn n b br) (mkLife RReceive s st ca conn n b br)
| run_receive s st ca conn n b br : runStep (mkLife RReceive s st ca conn n (S b) br) (mkLife RReceive s st ca conn n b br)
| run_receive_err s st ca conn n b br :
    unblocked ca conn br = true -> runStep (mkLife RReceive s st ca conn n b br) (mkLife RCloseConn s st ca conn n b br)
| run_close s st ca conn n b br : runStep (mkLife RCloseConn s st ca conn n b br) (mkLife RAfter s st ca false n b br)
| run_after_stop s st conn n b br : runStep (mkLife RAfter s st true conn n b br) (mkLife RDone s st true conn n b br)
| run_after s st conn n b br : runStep (mkLife RAfter s st false conn n b br) (mkLife RSelect s st false conn n b br)
| run_select_stop s st conn n b br : runStep (mkLife RSelect s st true conn n b br) (mkLife RDone s st true conn n b br)
| run_select s st conn n b br : runStep (mkLife RSelect s st false conn n b br) (mkLife RSetReconnecting s st false conn n b br)
| run_reconnecting s st ca conn n b br :
    runStep (mkLife RSetReconnecting s st ca conn n b br) (mkLife RWait s StateReconnecting ca conn (S n) b br)
| run_wait_stop s st conn n b br : runStep (mkLife RWait s st true conn n b br) (mkLife RDone s st true conn n b br)
| run_wait s st ca conn n b br : runStep (mkLife RWait s st ca conn n b br) (mkLife RTop s st ca conn n b br).

(** A step of [Stop]; [stopOnce] makes it run once. *)
Inductive stopStep : Life -> Life -> Prop :=
| stop_call r st ca conn n b br : stopStep (mkLife r SIdle st ca conn n b br) (mkLife r SSetStopped st ca conn n b br)
| stop_state r st ca conn n b br : stopStep (mkLife r SSetStopped st ca conn n b br) (mkLife r SCancel StateStopped ca conn n b br)
| stop_cancel r st ca conn n b br : stopStep (mkLife r SCancel st ca conn n b br) (mkLife r SCloseConn st true conn n b br)
| stop_close r st ca conn n b br : stopStep (mkLife r SCloseConn st ca conn n b br) (mkLife r SDone st ca false n b br).

(** The transport receives a message, or loses the connection; it does neither
    for a cancelled stream. *)
Inductive netStep : Life -> Life -> Prop :=
| net_message r s st conn n b br : netStep (mkLife r s st false conn n b br) (mkLife r s st false conn n (S b) br)
| net_break r s st conn n b br : netStep (mkLife r s st false conn n b br) (mkLife r s st false conn n b true).

Definition lifeStep (l l' : Life) : Prop := runStep l l' \/ stopStep l l' \/ netStep l l'.
