(* ===== verification/Routes.v ===== *)
(** * Routes: the Envoy routes of an API

    gateway-controller/pkg/xds: translator.go builds a route for every
    operation (its name, the request it matches, the cluster it goes to and
    the rewriting of the path), route_sorter.go orders the routes of a
    virtual host by precedence, and [TranslateConfigs] groups them by host.
    Envoy takes the first route of the list that matches. *)

From stdpp Require Import base gmap strings list fin_maps.
From Stdlib Require Import Ascii.
From S2P Require Import Prelude GoStrings GoSort Re2 Values Sha256 Sdk.

#[local] Set Warnings "-register-all".

Open Scope string_scope.

(** ** Package strings *)

(** [strings.ReplaceAll] for a non-empty [old]. *)
Fixpoint ReplaceAll_fuel (fuel : nat) (s old new : string) : string :=
  match fuel with
  | O => s
  | S n => match s with
           | EmptyString => EmptyString
           | String c s' => if HasPrefix s old then new +:+ ReplaceAll_fuel n (string_drop (String.length old) s) old new
                            else String c (ReplaceAll_fuel n s' old new)
           end
  end.
Definition ReplaceAll (s old new : string) : string := ReplaceAll_fuel (String.length s) s old new.

Definition HasSuffix (s suffix : string) : bool := HasPrefix (string_rev s) (string_rev suffix).
Definition TrimSuffix (s suffix : string) : string :=
  if HasSuffix s suffix then string_rev (string_drop (String.length suffix) (string_rev s)) else s.

Fixpoint string_take (n : nat) (s : string) : string :=
  match n, s with S n', String c s' => String c (string_take n' s') | _, _ => EmptyString end.

(** [strings.Index]; [None] is -1. *)
Fixpoint Index (s sub : string) : option nat :=
  if HasPrefix s sub then Some 0
  else match s with EmptyString => None | String _ s' => S <$> Index s' sub end.

(** [strings.EqualFold] on ASCII. *)
Definition EqualFold (s t : string) : bool := String.eqb (ToLower s) (ToLower t).

Fixpoint Join (l : list string) (sep : string) : string :=
  match l with [] => "" | [s] => s | s :: l' => s +:+ sep +:+ Join l' sep end.

(** The order of [<] on strings: bytes, then length. *)
Fixpoint string_less (s t : string) : bool :=
  match s, t with
  | _, EmptyString => false
  | EmptyString, String _ _ => true
  | String c s', String d t' => if Ascii.eqb c d then string_less s' t' else (nat_of_ascii c <? nat_of_ascii d)%nat
  end.

(** ** models/runtime_deploy_config.go *)

Record RouteHeaderMatch : Type := mkRouteHeaderMatch { rh_Name : string; rh_Value : string; rh_Type : string }.

Record RouteTimeout : Type := mkRouteTimeout { rt_Connect : option Z; rt_Timeout : option Z; rt_IdleTimeout : option Z }.

Record RouteUpstream : Type := mkRouteUpstream {
  ru_ClusterKey : string;
  ru_UseClusterHeader : bool;
  ru_DefaultCluster : string;
  ru_Default : option UpstreamInfo
}.

Record RdcRoute : Type := mkRdcRoute {
  rr_Method : string;
  rr_Path : string;
  rr_OperationPath : string;
  rr_PathMatchType : string;
  rr_MatchHeaders : list RouteHeaderMatch;
  rr_Vhost : string;
  rr_AutoHostRewrite : bool;
  rr_Timeout : option RouteTimeout;
  rr_Upstream : RouteUpstream;
  rr_Order : Z
}.

Record Endpoint : Type := mkEndpoint { ep_Host : string; ep_Port : Z; ep_Weight : option Z }.

(** [uc_TLS] is [None] for a nil pointer. *)
Record UpstreamCluster : Type := mkUpstreamCluster {
  uc_Name : string;
  uc_BasePath : string;
  uc_Endpoints : list Endpoint;
  uc_TLS : option bool;
  uc_ConnectTimeout : option Z
}.

(** ** Envoy's route messages *)

Inductive PathSpecifier : Type :=
| PathExact (path : string)
| PathRegex (regex : option string)
| PathPrefix (prefix : string)
| NoPath.

(** [StringMatch] holds what [GetExact] returns. *)
Inductive HeaderMatchSpecifier : Type :=
| StringMatch (exact : string)
| SafeRegexMatch (regex : string)
| OtherHeaderMatch.

Record HeaderMatcher : Type := mkHeaderMatcher { hm_Name : string; hm_Specifier : HeaderMatchSpecifier }.
Record QueryParameterMatcher : Type := mkQueryParameterMatcher { qm_Name : string; qm_Exact : option string }.

Record RouteMatch : Type := mkRouteMatch {
  m_PathSpecifier : PathSpecifier;
  m_Headers : list (option HeaderMatcher);
  m_QueryParameters : list (option QueryParameterMatcher)
}.

Inductive ClusterSpecifier : Type := ClusterHeader (header : string) | ClusterName (name : string).

Inductive RouteAction : Type :=
| Forward (timeout idleTimeout : Z) (cluster : ClusterSpecifier) (autoHostRewrite : bool) (regexRewrite : string * string)
| DirectResponse (status : Z) (body : string).

Record EnvoyRoute : Type := mkEnvoyRoute {
  er_Name : string;
  er_Match : option RouteMatch;
  er_Action : RouteAction;
  er_RequestHeadersToRemove : list string
}.

(** ** translator.go: names *)

Definition ConstructFullPath (context apiVersion path : string) : string :=
  let contextWithVersion := ReplaceAll context "$version" apiVersion in
  let contextWithVersion := if String.eqb contextWithVersion "/" then "" else contextWithVersion in
  contextWithVersion +:+ path.

Definition GenerateRouteNameWithDiscriminator (method context apiVersion path vhost discriminator : string) : string :=
  let fullPath := ConstructFullPath context apiVersion path in
  if String.eqb discriminator "" then method +:+ "|" +:+ fullPath +:+ "|" +:+ vhost
  else method +:+ "|" +:+ fullPath +:+ "|" +:+ vhost +:+ "|" +:+ discriminator.

Definition GenerateRouteName (method context apiVersion path vhost : string) : string :=
  GenerateRouteNameWithDiscriminator method context apiVersion path vhost "".

Definition canonicalHeader (h : RouteHeaderMatch) : string :=
  let t := if String.eqb (rh_Type h) "" then "Exact" else rh_Type h in
  ToLower (TrimSpace (rh_Name h)) +:+ String "031" "" +:+ t +:+ String "031" "" +:+ rh_Value h.

Definition HeaderMatchDiscriminator (headers : list RouteHeaderMatch) : string :=
  match headers with
  | [] => ""
  | _ => let canonical := stableSort string_less (canonicalHeader <$> headers) in
         EncodeToString (take 8 (Sum256 (String.list_byte_of_string (Join canonical (String "030" "")))))
  end.

(** ** translator.go: matching *)

(** The loop of [pathToRegex]; every iteration removes one placeholder, so
    the length of the expression is enough fuel. *)
Fixpoint replacePlaceholders (fuel : nat) (regex : string) : string :=
  match fuel with
  | O => regex
  | S n =>
      match Index regex (String backslash "{"), Index regex (String backslash "}") with
      | Some start, Some end_ =>
          if (start <? end_)%nat
          then replacePlaceholders n (string_take start regex +:+ "[^/]+" +:+ string_drop (end_ + 2) regex)
          else regex
      | _, _ => regex
      end
  end.

Definition pathToRegex (path : string) : string :=
  let regex := QuoteMeta path in
  "^" +:+ replacePlaceholders (String.length regex) regex +:+ "$".

Definition methodMatcher (method : string) : option HeaderMatcher := Some (mkHeaderMatcher ":method" (StringMatch method)).

Definition buildMatchHeaders (method : string) (rdcRoute : RdcRoute) : list (option HeaderMatcher) :=
  methodMatcher method ::
    ((fun hm =>
        let name := ToLower (TrimSpace (rh_Name hm)) in
        if String.eqb (TrimSpace (rh_Type hm)) "RegularExpression"
        then Some (mkHeaderMatcher name (SafeRegexMatch (rh_Value hm)))
        else Some (mkHeaderMatcher name (StringMatch (rh_Value hm)))) <$> rr_MatchHeaders rdcRoute).

Definition setMatchPathSpecifier (fullPath operationPath : string) (rdcRoute : RdcRoute) : PathSpecifier :=
  if HasSuffix operationPath "/*" then PathRegex (Some ("^" +:+ QuoteMeta (TrimSuffix fullPath "/*") +:+ "(?:/.*)?$"))
  else if Contains operationPath "{" then PathRegex (Some (pathToRegex fullPath))
  else if String.eqb operationPath "/" then PathRegex (Some ("^" +:+ QuoteMeta (TrimSuffix fullPath "/") +:+ "/?$"))
  else if EqualFold (rr_PathMatchType rdcRoute) "Exact" then PathExact fullPath
  else PathRegex (Some ("^" +:+ QuoteMeta fullPath +:+ "/?$")).

(** ** translator.go: routes *)

(** What the translator reads of its configuration: the default timeouts in
    milliseconds, and whether the resource path of MCP proxies is kept. *)
Record TranslatorConfig : Type := mkTranslatorConfig {
  tc_RouteTimeoutMs : Z;
  tc_RouteIdleTimeoutMs : Z;
  tc_AppendResourcePathToBackend : bool
}.

Definition MCP_RESOURCE_PATH : string := "/mcp".
Definition KindMcp : string := "Mcp".
Definition targetUpstreamHeader : string := "x-target-upstream".

Definition routeTimeoutOrDefault (v : option Z) (defaultMs : Z) : Z :=
  match v with Some d => d | None => (defaultMs * 1000000)%Z end.

(** The rewriting of the path: pattern and substitution.  [context] is the
    part of the path that is the API's own. *)
Definition regexRewriteOf (isMCPResourceRoute isRootPath isWildcardPath : bool) (fullPath context upstreamPath : string) :
    string * string :=
  let upstreamIsRoot := String.eqb upstreamPath "/" || String.eqb upstreamPath "" in
  let upstreamPath := if upstreamIsRoot then "" else upstreamPath in
  let escapedContext := QuoteMeta context in
  let group := String backslash "1" in
  if isMCPResourceRoute then
    ("^" +:+ QuoteMeta fullPath +:+ "/?$", if String.eqb upstreamPath "" then "/" else upstreamPath)
  else if isRootPath then ("^" +:+ escapedContext +:+ "/?$", upstreamPath +:+ "/")
  else if isWildcardPath && upstreamIsRoot then ("^" +:+ escapedContext +:+ "/?(.*)$", "/" +:+ group)
  else ("^" +:+ escapedContext +:+ "(.*)$", upstreamPath +:+ group).

Section Translate.
Context (tc : TranslatorConfig).

(** [createRouteFromRDC]; of the runtime configuration it reads the kind and
    the clusters. *)
Definition createRouteFromRDC (routeKey : string) (rdcRoute : RdcRoute) (kind : string)
    (upstreamClusters : gmap string UpstreamCluster) : EnvoyRoute :=
  let fullPath := rr_Path rdcRoute in
  let operationPath := rr_OperationPath rdcRoute in
  let isWildcardPath := HasSuffix operationPath "/*" in
  let isRootPath := String.eqb operationPath "/" in
  let isMCPResourceRoute := String.eqb kind KindMcp && String.eqb operationPath MCP_RESOURCE_PATH &&
                            negb (tc_AppendResourcePathToBackend tc) in
  let timeout := match rr_Timeout rdcRoute with Some t => rt_Timeout t | None => None end in
  let idle := match rr_Timeout rdcRoute with Some t => rt_IdleTimeout t | None => None end in
  let upstream := rr_Upstream rdcRoute in
  let cluster := if ru_UseClusterHeader upstream then ClusterHeader targetUpstreamHeader
                 else ClusterName (ru_ClusterKey upstream) in
  let upstreamPath := match upstreamClusters !! ru_ClusterKey upstream with Some uc => uc_BasePath uc | None => "" end in
  let contextWithVersion := TrimSuffix fullPath operationPath in
  mkEnvoyRoute routeKey
    (Some (mkRouteMatch (setMatchPathSpecifier fullPath operationPath rdcRoute) (buildMatchHeaders (rr_Method rdcRoute) rdcRoute) []))
    (Forward (routeTimeoutOrDefault timeout (tc_RouteTimeoutMs tc)) (routeTimeoutOrDefault idle (tc_RouteIdleTimeoutMs tc))
       cluster (rr_AutoHostRewrite rdcRoute)
       (regexRewriteOf isMCPResourceRoute isRootPath isWildcardPath fullPath contextWithVersion upstreamPath))
    (if ru_UseClusterHeader upstream then [targetUpstreamHeader] else []).

(** [createRoute], the older path from the stored configuration; the
    arguments it does not read are left out. *)
Definition createRoute (apiVersion context method path clusterName upstreamPath vhost apiKind : string)
    (manualHostRewrite : bool) (timeoutCfg : option RouteTimeout) (useClusterHeader : bool) : EnvoyRoute :=
  let context := ReplaceAll context "$version" apiVersion in
  let fullPath := if String.eqb context "/" then path else context +:+ path in
  let routeName := GenerateRouteName method context "" path vhost in
  let isWildcardPath := HasSuffix path "/*" in
  let hasParams := Contains path "{" in
  let isRootPath := String.eqb path "/" in
  let isMCPResourceRoute := String.eqb apiKind KindMcp && String.eqb path MCP_RESOURCE_PATH &&
                            negb (tc_AppendResourcePathToBackend tc) in
  let pathSpecifier :=
    if isWildcardPath then PathRegex (Some ("^" +:+ QuoteMeta (TrimSuffix fullPath "/*") +:+ "(?:/.*)?$"))
    else if hasParams then PathRegex (Some (pathToRegex fullPath))
    else if isRootPath then PathRegex (Some ("^" +:+ QuoteMeta (TrimSuffix fullPath "/") +:+ "/?$"))
    else PathRegex (Some ("^" +:+ QuoteMeta fullPath +:+ "/?$")) in
  let timeout := match timeoutCfg with Some t => rt_Timeout t | None => None end in
  let idle := match timeoutCfg with Some t => rt_IdleTimeout t | None => None end in
  let contextWithVersion := ConstructFullPath context apiVersion "" in
  mkEnvoyRoute routeName
    (Some (mkRouteMatch pathSpecifier [methodMatcher method] []))
    (Forward (routeTimeoutOrDefault timeout (tc_RouteTimeoutMs tc)) (routeTimeoutOrDefault idle (tc_RouteIdleTimeoutMs tc))
       (if useClusterHeader then ClusterHeader targetUpstreamHeader else ClusterName clusterName)
       (negb manualHostRewrite)
       (regexRewriteOf isMCPResourceRoute isRootPath isWildcardPath fullPath contextWithVersion upstreamPath))
    (if useClusterHeader then [targetUpstreamHeader] else []).

(** The routes part of [translateRuntimeConfig]: by order of the operations,
    then by key. *)
Definition routeKeyLess (routes : gmap string RdcRoute) (a b : string) : bool :=
  let order k := match routes !! k with Some r => rr_Order r | None => 0%Z end in
  if (order a =? order b)%Z then string_less a b else (order a <? order b)%Z.

Definition routesOfRuntimeConfig `{MapRange} (kind : string) (routes : gmap string RdcRoute)
    (upstreamClusters : gmap string UpstreamCluster) : list EnvoyRoute :=
  let routeKeys := stableSort (routeKeyLess routes) (range routes).*1 in
  omap (fun routeKey => (fun r => createRouteFromRDC routeKey r kind upstreamClusters) <$> routes !! routeKey) routeKeys.

End Translate.

(** ** route_sorter.go *)

Definition pathMatchTypeExact : Z := 0.
Definition pathMatchTypeRegex : Z := 1.
Definition pathMatchTypePrefix : Z := 2.
Definition pathMatchTypeNone : Z := 3.

Definition getPathMatchType (m : option RouteMatch) : Z :=
  match m with
  | None => pathMatchTypeNone
  | Some m => match m_PathSpecifier m with
              | PathExact _ => pathMatchTypeExact
              | PathRegex _ => pathMatchTypeRegex
              | PathPrefix _ => pathMatchTypePrefix
              | NoPath => pathMatchTypeNone
              end
  end.

Definition pathMatchCount (m : option RouteMatch) : Z :=
  match m with
  | None => 0
  | Some m => match m_PathSpecifier m with
              | PathExact path => Z.of_nat (String.length path)
              | PathRegex (Some regex) => Z.of_nat (String.length regex)
              | PathRegex None => 0
              | PathPrefix prefix => if String.eqb prefix "/" then 0 else Z.of_nat (String.length prefix)
              | NoPath => 0
              end
  end.

Definition numberOfExactHeaderMatches (headers : list (option HeaderMatcher)) : Z :=
  foldl (fun count header =>
    match header with
    | Some h => match hm_Specifier h with
                | StringMatch exact => if negb (String.eqb exact "") then (count + 1)%Z else count
                | _ => count
                end
    | None => count
    end) 0%Z headers.

Definition numberOfExactQueryParamMatches (queryParams : list (option QueryParameterMatcher)) : Z :=
  foldl (fun count qp =>
    match qp with
    | Some q => match qm_Exact q with
                | Some exact => if negb (String.eqb exact "") then (count + 1)%Z else count
                | None => count
                end
    | None => count
    end) 0%Z queryParams.

Definition GetHeaders (m : option RouteMatch) := match m with Some m => m_Headers m | None => [] end.
Definition GetQueryParameters (m : option RouteMatch) := match m with Some m => m_QueryParameters m | None => [] end.

(** [Less] on the two routes it compares. *)
Definition Less (ri rj : EnvoyRoute) : bool :=
  let matchI := er_Match ri in
  let matchJ := er_Match rj in
  let pathTypeI := getPathMatchType matchI in
  let pathTypeJ := getPathMatchType matchJ in
  if negb (pathTypeI =? pathTypeJ)%Z then (pathTypeJ <? pathTypeI)%Z
  else
    let pCountI := pathMatchCount matchI in
    let pCountJ := pathMatchCount matchJ in
    if negb (pCountI =? pCountJ)%Z then (pCountI <? pCountJ)%Z
    else
      let hCountI := Z.of_nat (length (GetHeaders matchI)) in
      let hCountJ := Z.of_nat (length (GetHeaders matchJ)) in
      if negb (hCountI =? hCountJ)%Z then (hCountI <? hCountJ)%Z
      else
        let hExactI := numberOfExactHeaderMatches (GetHeaders matchI) in
        let hExactJ := numberOfExactHeaderMatches (GetHeaders matchJ) in
        if negb (hExactI =? hExactJ)%Z then (hExactI <? hExactJ)%Z
        else
          let qCountI := Z.of_nat (length (GetQueryParameters matchI)) in
          let qCountJ := Z.of_nat (length (GetQueryParameters matchJ)) in
          if negb (qCountI =? qCountJ)%Z then (qCountI <? qCountJ)%Z
          else (numberOfExactQueryParamMatches (GetQueryParameters matchI) <?
                numberOfExactQueryParamMatches (GetQueryParameters matchJ))%Z.

(** [sort.Stable(sort.Reverse(EnvoyRoutes(routes)))]. *)
Definition SortRoutesByPriority (routes : list EnvoyRoute) : list EnvoyRoute :=
  if (length routes <=? 1)%nat then routes else stableSort (fun a b => Less b a) routes.

(** ** translator.go: virtual hosts *)

Record VirtualHost : Type := mkVirtualHost {
  vh_Name : string;
  vh_Domains : list string;
  vh_Routes : list EnvoyRoute;
  vh_RequestHeadersToRemove : list string
}.

(** The default hosts of the router, each with its domains. *)
Record VHostEntry : Type := mkVHostEntry { vhe_Default : string; vhe_Domains : list string }.

Definition appendDomainPatterns (out : list string) (domain : string) : list string :=
  let domain := TrimSpace domain in
  if String.eqb domain "" then out
  else if negb (Contains domain ":") then (out ++ [domain; domain +:+ ":*"])%list else (out ++ [domain])%list.

Definition getVHostDomains (mainVHost sandboxVHost : VHostEntry) (effectiveVHost : string) : list string :=
  let expand_ domains := foldl appendDomainPatterns [] domains in
  let single := appendDomainPatterns [] effectiveVHost in
  let orSandbox :=
    if String.eqb effectiveVHost (vhe_Default sandboxVHost) && (0 <? length (vhe_Domains sandboxVHost))%nat
    then match expand_ (vhe_Domains sandboxVHost) with [] => single | expanded => expanded end
    else single in
  if String.eqb effectiveVHost (vhe_Default mainVHost) && (0 <? length (vhe_Domains mainVHost))%nat
  then match expand_ (vhe_Domains mainVHost) with [] => orSandbox | expanded => expanded end
  else orSandbox.

Definition envoyOriginalPathHeader : string := "x-envoy-original-path".

Definition notFoundRoute : EnvoyRoute :=
  mkEnvoyRoute "no-api-found" (Some (mkRouteMatch (PathPrefix "/") [] [])) (DirectResponse 404 ("{" +:+ dquote +:+ "error" +:+ dquote +:+ ":" +:+ dquote +:+ "Not Found" +:+ dquote +:+ "}")) [].

(** Adding one route to the host in its name. *)
Definition addToVhost (vhostMap : gmap string (list EnvoyRoute)) (r : EnvoyRoute) : gmap string (list EnvoyRoute) :=
  match Split "|" (er_Name r) !! 2%nat with
  | None => vhostMap
  | Some vhost => <[vhost := (default [] (vhostMap !! vhost) ++ [r])%list]> vhostMap
  end.

Definition groupByVhost (allRoutes : list EnvoyRoute) : gmap string (list EnvoyRoute) :=
  foldl addToVhost {["*" := []]} allRoutes.

Definition virtualHosts `{MapRange} (mainVHost sandboxVHost : VHostEntry) (allRoutes : list EnvoyRoute) : list VirtualHost :=
  (fun '(vhost, routes) =>
     mkVirtualHost vhost (getVHostDomains mainVHost sandboxVHost vhost)
       (SortRoutesByPriority routes ++ [notFoundRoute])%list [envoyOriginalPathHeader])
    <$> range (groupByVhost allRoutes).
