(* ===== verification/ManagementApi.v ===== *)
(** * ManagementApi: the artifacts of the controller

    The part of pkg/api/management that the controller's core reads (a REST
    API with its operations, upstreams and policies; what is read of LLM
    providers and proxies and of MCP proxies), the effective matching criteria
    of an operation (operation_match.go), and the stored configuration with
    its getters (models/stored_config.go). *)

From stdpp Require Import base gmap strings list fin_maps.
From S2P Require Import Prelude GoStrings GoDuration Values Sdk Routes.

#[local] Set Warnings "-register-all".

Open Scope string_scope.

(** ** management/generated.go *)

(** [ap_Params] is a pointer to a map. *)
Record ApiPolicy : Type := mkApiPolicy {
  ap_ExecutionCondition : option string;
  ap_Name : string;
  ap_Params : option Params;
  ap_Version : string
}.

Record OperationHeaderMatch : Type := mkOperationHeaderMatch {
  ohm_Name : string;
  ohm_Type : option string;
  ohm_Value : string
}.

Record OperationPathMatch : Type := mkOperationPathMatch { opm_Type : option string; opm_Value : string }.

Record OperationMatch : Type := mkOperationMatch {
  om_Headers : option (list OperationHeaderMatch);
  om_Method : string;
  om_Path : OperationPathMatch
}.

Record Operation : Type := mkOperation {
  op_Match : option OperationMatch;
  op_Method : option string;
  op_Path : option string;
  op_Policies : option (list ApiPolicy);
  op_Resilience : option Resilience
}.

Record Upstream : Type := mkUpstream {
  up_HostRewrite : option string;
  up_Ref : option string;
  up_Url : option string
}.

Definition Manual : string := "manual".

Record UpstreamTarget : Type := mkUpstreamTarget { ut_Url : string; ut_Weight : option Z }.

(** [ud_Timeout] is the timeout block, with its connect timeout. *)
Record UpstreamDefinition : Type := mkUpstreamDefinition {
  ud_BasePath : option string;
  ud_Name : string;
  ud_Timeout : option (option string);
  ud_Upstreams : list UpstreamTarget
}.

Record Vhosts : Type := mkVhosts { vh_Main : string; vh_Sandbox : option string }.

Record APIConfigData : Type := mkAPIConfigData {
  acd_Context : string;
  acd_DisplayName : string;
  acd_Operations : list Operation;
  acd_Policies : option (list ApiPolicy);
  acd_Resilience : option Resilience;
  acd_UpstreamMain : Upstream;
  acd_UpstreamSandbox : option Upstream;
  acd_UpstreamDefinitions : option (list UpstreamDefinition);
  acd_Version : string;
  acd_Vhosts : option Vhosts;
  acd_DeploymentState : option string
}.

(** The metadata of an artifact. *)
Record ApiMetadata : Type := mkApiMetadata {
  am_Annotations : option (gmap string string);
  am_Labels : option (gmap string string);
  am_Name : string
}.

Record RestAPI : Type := mkRestAPI {
  ra_ApiVersion : string;
  ra_Kind : string;
  ra_Metadata : ApiMetadata;
  ra_Spec : APIConfigData
}.

(** The policies of LLM artifacts, per path; [LLMPolicy] is the deprecated
    form. *)
Record OperationPolicyPath : Type := mkOperationPolicyPath { opp_Methods : list string; opp_Params : Params; opp_Path : string }.

Record OperationPolicy : Type := mkOperationPolicy {
  lop_ExecutionCondition : option string;
  lop_Name : string;
  lop_Paths : list OperationPolicyPath;
  lop_Version : string
}.

Record LLMPolicyPath : Type := mkLLMPolicyPath { lpp_Methods : list string; lpp_Params : Params; lpp_Path : string }.

Record LLMPolicy : Type := mkLLMPolicy { llp_Name : string; llp_Paths : list LLMPolicyPath; llp_Version : string }.

Record RouteException : Type := mkRouteException { rx_Methods : list string; rx_Path : string }.

Record LLMAccessControl : Type := mkLLMAccessControl { lac_Exceptions : option (list RouteException); lac_Mode : string }.

(** Also the authentication block of a provider's upstream, which has the
    same fields. *)
Record LLMUpstreamAuth : Type := mkLLMUpstreamAuth { lua_Header : option string; lua_Type : string; lua_Value : option string }.

Record LLMProviderUpstream : Type := mkLLMProviderUpstream {
  lpu_Auth : option LLMUpstreamAuth;
  lpu_HostRewrite : option string;
  lpu_Ref : option string;
  lpu_Url : option string
}.

(** With the fields of its specification. *)
Record LLMProviderConfiguration : Type := mkLLMProviderConfiguration {
  lp_ApiVersion : string;
  lp_Kind : string;
  lp_Metadata : ApiMetadata;
  lp_AccessControl : LLMAccessControl;
  lp_Context : option string;
  lp_DisplayName : string;
  lp_GlobalPolicies : option (list ApiPolicy);
  lp_OperationPolicies : option (list OperationPolicy);
  lp_Policies : option (list LLMPolicy);
  lp_Resilience : option Resilience;
  lp_Template : string;
  lp_Upstream : LLMProviderUpstream;
  lp_UpstreamDefinitions : option (list UpstreamDefinition);
  lp_Version : string;
  lp_Vhost : option string
}.

Record LLMProxyProvider : Type := mkLLMProxyProvider { lxp_Auth : option LLMUpstreamAuth; lxp_Id : string }.

Record LLMProxyTransformer : Type := mkLLMProxyTransformer { lxt_Params : option Params; lxt_Type : string; lxt_Version : string }.

Record LLMProxyAdditionalProvider : Type := mkLLMProxyAdditionalProvider {
  lap_As : option string;
  lap_Auth : option LLMUpstreamAuth;
  lap_Id : string;
  lap_Transformer : option LLMProxyTransformer
}.

Record LLMProxyConfiguration : Type := mkLLMProxyConfiguration {
  lx_ApiVersion : string;
  lx_Kind : string;
  lx_Metadata : ApiMetadata;
  lx_AdditionalProviders : option (list LLMProxyAdditionalProvider);
  lx_Context : option string;
  lx_DisplayName : string;
  lx_GlobalPolicies : option (list ApiPolicy);
  lx_OperationPolicies : option (list OperationPolicy);
  lx_Policies : option (list LLMPolicy);
  lx_Provider : LLMProxyProvider;
  lx_Resilience : option Resilience;
  lx_Version : string;
  lx_Vhost : option string
}.

(** What a template extracts from requests and responses, for all resources
    or for one. *)
Record ExtractionIdentifier : Type := mkExtractionIdentifier { ei_Identifier : string; ei_Location : string }.

Record ExtractionFields : Type := mkExtractionFields {
  ef_CompletionTokens : option ExtractionIdentifier;
  ef_PromptTokens : option ExtractionIdentifier;
  ef_RemainingTokens : option ExtractionIdentifier;
  ef_RequestModel : option ExtractionIdentifier;
  ef_ResponseModel : option ExtractionIdentifier;
  ef_TotalTokens : option ExtractionIdentifier
}.

Record LLMProviderTemplateResourceMapping : Type := mkTemplateResourceMapping { trm_Extraction : ExtractionFields; trm_Resource : string }.

(** [ltd_ResourceMappings]: a pointer to a block with a pointer to a list. *)
Record LLMProviderTemplateData : Type := mkLLMProviderTemplateData {
  ltd_DisplayName : string;
  ltd_Extraction : ExtractionFields;
  ltd_ResourceMappings : option (option (list LLMProviderTemplateResourceMapping))
}.

Record LLMProviderTemplate : Type := mkLLMProviderTemplate {
  lt_ApiVersion : string;
  lt_Kind : string;
  lt_Metadata : ApiMetadata;
  lt_Spec : LLMProviderTemplateData
}.

(** With the fields of its specification; the upstream has the fields of that
    of a provider. *)
Record MCPProxyConfiguration : Type := mkMCPProxyConfiguration {
  mc_ApiVersion : string;
  mc_Kind : string;
  mc_Metadata : ApiMetadata;
  mc_Context : option string;
  mc_DisplayName : string;
  mc_Policies : option (list ApiPolicy);
  mc_Resilience : option Resilience;
  mc_SpecVersion : option string;
  mc_Upstream : LLMProviderUpstream;
  mc_UpstreamDefinitions : option (list UpstreamDefinition);
  mc_Version : string;
  mc_Vhost : option string
}.

Record SecretConfigurationRequest : Type := mkSecretConfigurationRequest {
  sq_ApiVersion : string;
  sq_Kind : string;
  sq_Metadata : ApiMetadata;
  sq_Description : option string;
  sq_DisplayName : string;
  sq_Value : string
}.

(** The dynamic type of a configuration held in an [any]. *)
Inductive Configuration : Type :=
| CfgRestAPI (c : RestAPI)
| CfgLLMProvider (c : LLMProviderConfiguration)
| CfgLLMProxy (c : LLMProxyConfiguration)
| CfgMCPProxy (c : MCPProxyConfiguration)
| CfgOther (typeName : string).

(** [%T]. *)
Definition typeName (c : Configuration) : string :=
  match c with
  | CfgRestAPI _ => "management.RestAPI"
  | CfgLLMProvider _ => "management.LLMProviderConfiguration"
  | CfgLLMProxy _ => "management.LLMProxyConfiguration"
  | CfgMCPProxy _ => "management.MCPProxyConfiguration"
  | CfgOther n => n
  end.

(** ** management/operation_match.go *)

Definition EffectiveMethod (o : Operation) : string :=
  match op_Match o with
  | Some m => om_Method m
  | None => match op_Method o with Some m => m | None => "" end
  end.

Definition EffectivePath (o : Operation) : string :=
  match op_Match o with
  | Some m => opm_Value (om_Path m)
  | None => match op_Path o with Some p => p | None => "" end
  end.

Definition EffectivePathMatchType (o : Operation) : string :=
  match op_Match o with
  | Some m => match opm_Type (om_Path m) with Some t => t | None => "Exact" end
  | None => ""
  end.

Definition EffectiveHeaders (o : Operation) : list OperationHeaderMatch :=
  match op_Match o with
  | Some m => match om_Headers m with Some hs => hs | None => [] end
  | None => []
  end.

(** ** models/stored_config.go *)

(** The fields that the modelled code reads or writes. *)
Record StoredConfig : Type := mkStoredConfig {
  sc_UUID : string;
  sc_Kind : string;
  sc_Handle : string;
  sc_DisplayName : string;
  sc_Version : string;
  sc_Configuration : Configuration;
  sc_SourceConfiguration : Configuration;
  sc_SensitiveValues : list string
}.

Definition GetCompositeKey (c : StoredConfig) : string := sc_Kind c +:+ ":" +:+ sc_DisplayName c +:+ ":" +:+ sc_Version c.

Definition apiVersionOf (cfg : Configuration) : string :=
  match cfg with
  | CfgRestAPI c => ra_ApiVersion c
  | CfgLLMProvider c => lp_ApiVersion c
  | CfgLLMProxy c => lx_ApiVersion c
  | CfgMCPProxy c => mc_ApiVersion c
  | CfgOther _ => ""
  end.

Definition GetApiVersion (c : StoredConfig) : string :=
  let v := apiVersionOf (sc_SourceConfiguration c) in
  if negb (String.eqb v "") then v else apiVersionOf (sc_Configuration c).

(** [GetContext]: the context of the source, with its version. *)
Definition GetContext (c : StoredConfig) : string + string :=
  let resolved ctx := match ctx with Some s => ReplaceAll s "$version" (sc_Version c) | None => "" end in
  match sc_SourceConfiguration c with
  | CfgRestAPI s => inr (resolved (Some (acd_Context (ra_Spec s))))
  | CfgLLMProvider s => inr (resolved (lp_Context s))
  | CfgLLMProxy s => inr (resolved (lx_Context s))
  | CfgMCPProxy s => inr (resolved (mc_Context s))
  | CfgOther n => inl ("unsupported source configuration type: " +:+ n)
  end.

Definition GetMetadata (c : StoredConfig) : option ApiMetadata :=
  match sc_Configuration c with CfgRestAPI cfg => Some (ra_Metadata cfg) | _ => None end.

Definition GetPolicies (c : StoredConfig) : option (list ApiPolicy) :=
  match sc_Configuration c with CfgRestAPI cfg => acd_Policies (ra_Spec cfg) | _ => None end.

Definition GetLabels (c : StoredConfig) : option (gmap string string) :=
  match sc_Configuration c with CfgRestAPI cfg => am_Labels (ra_Metadata cfg) | _ => None end.

Definition GetAnnotations (c : StoredConfig) : option (gmap string string) :=
  match sc_Configuration c with CfgRestAPI cfg => am_Annotations (ra_Metadata cfg) | _ => None end.
