(* ===== verification/ConfigStore.v ===== *)
(** * ConfigStore: the controller's in-memory stores

    gateway-controller/pkg/storage: topics.go (the topics of event-driven
    APIs) and memory.go (the artifacts, indexed by kind and handle and by
    kind, name and version; LLM provider templates; API keys by artifact;
    labels).  A read method is a function of the store, a method that changes
    it a computation; the mutex makes every method atomic.  The store never
    changes an artifact it was given, so artifacts are values. *)

From stdpp Require Import base gmap strings list fin_maps.
From S2P Require Import Prelude GoStrings NestedMap Values ManagementApi.

#[local] Set Warnings "-register-all".

Open Scope string_scope.

(** ** storage/topics.go *)

Abbreviation TopicManager := (gmap string (gmap string bool)).

Definition topicsOf (tm : TopicManager) (configID : string) : gmap string bool := default ∅ (tm !! configID).

(** [tm.topics[configID][topic]]: [false] when absent. *)
Definition topicSet (tm : TopicManager) (configID topic : string) : bool := default false (topicsOf tm configID !! topic).

Definition Topics_Add (configID topic : string) : GoM TopicManager bool := fun tm =>
  let tm := match tm !! configID with None => <[configID := ∅]> tm | Some _ => tm end in
  if topicSet tm configID topic then Ok tm false
  else Ok (<[configID := <[topic := true]> (topicsOf tm configID)]> tm) true.

Definition Topics_Remove (configID topic : string) : GoM TopicManager bool := fun tm =>
  match tm !! configID with
  | None => Ok tm false
  | Some topics =>
      if negb (topicSet tm configID topic) then Ok tm false
      else let topics := delete topic topics in
           if decide (size topics = 0) then Ok (delete configID tm) true else Ok (<[configID := topics]> tm) true
  end.

Definition Topics_RemoveAllForConfig (configID : string) (tm : TopicManager) : TopicManager := delete configID tm.

Definition Topics_Contains (tm : TopicManager) (configID topic : string) : bool :=
  match tm !! configID with None => false | Some _ => topicSet tm configID topic end.

Definition Topics_GetAllByConfig `{MapRange} (tm : TopicManager) (configID : string) : list string :=
  match tm !! configID with None => [] | Some topics => (range topics).*1 end.

Definition Topics_IsTopicExist (tm : TopicManager) (configID topic : string) : bool :=
  match tm !! configID with None => false | Some topics => bool_decide (is_Some (topics !! topic)) end.

Definition Topics_GetAll `{MapRange} (tm : TopicManager) : gmap string bool :=
  foldl (fun acc ct => foldl (fun acc t => <[t.1 := true]> acc) acc (range ct.2)) ∅ (range tm).

Definition Topics_GetAllForConfig (tm : TopicManager) : TopicManager := (fun topics : gmap string bool => (fun _ => true) <$> topics) <$> tm.

Definition Topics_Count `{MapRange} (tm : TopicManager) : nat := size (Topics_GetAll tm).
Definition Topics_CountForConfig (tm : TopicManager) (configID : string) : nat :=
  match tm !! configID with None => 0%nat | Some topics => size topics end.
Definition Topics_Clear (_ : TopicManager) : TopicManager := ∅.

(** ** models *)

(** An API key of the controller. *)
Record ControllerAPIKey : Type := mkControllerAPIKey {
  ck_UUID : string;
  ck_Name : string;
  ck_APIKey : string;
  ck_MaskedAPIKey : string;
  ck_ArtifactUUID : string;
  ck_ApplicationID : string;
  ck_ApplicationName : string;
  ck_Status : string;
  ck_CreatedAt : Z;
  ck_CreatedBy : string;
  ck_UpdatedAt : Z;
  ck_ExpiresAt : option Z;
  ck_Source : string;
  ck_ExternalRefId : option string;
  ck_Issuer : option string
}.

Definition APIKeyStatusActive : string := "active".
Definition APIKeyStatusRevoked : string := "revoked".
Definition APIKeyStatusExpired : string := "expired".

(** [IsValid] and [IsExpired] at the time [now]. *)
Definition ck_IsExpired (now : Z) (ak : ControllerAPIKey) : bool :=
  match ck_ExpiresAt ak with Some e => (e <? now)%Z | None => false end.
Definition ck_IsValid (now : Z) (ak : ControllerAPIKey) : bool :=
  if negb (String.eqb (ck_Status ak) APIKeyStatusActive) then false else negb (ck_IsExpired now ak).

(** A template, with what is read of its configuration. *)
Record StoredLLMProviderTemplate : Type := mkStoredLLMProviderTemplate {
  st_UUID : string;
  st_Name : string;
  st_GroupId : option string;
  st_Version : option string;
  st_ManagedBy : option string;
  st_Spec : LLMProviderTemplateData
}.

Definition GetHandle (t : StoredLLMProviderTemplate) : string := st_Name t.

(** A declared value that is not blank, trimmed, or the default. *)
Definition declaredOr (v : option string) (dflt : string) : string :=
  match v with Some v => if negb (String.eqb (TrimSpace v) "") then TrimSpace v else dflt | None => dflt end.
Definition GetGroupID (t : StoredLLMProviderTemplate) : string := declaredOr (st_GroupId t) (st_Name t).
Definition GetVersion (t : StoredLLMProviderTemplate) : string := declaredOr (st_Version t) "v1.0".
Definition GetManagedBy (t : StoredLLMProviderTemplate) : string := declaredOr (st_ManagedBy t) "organization".

(** ** storage/memory.go *)

(** [cs_webSubTopicUpdater] is the hook that derives the topics of an API. *)
Record ConfigStore : Type := mkConfigStore {
  cs_configs : gmap string StoredConfig;
  cs_nameVersion : gmap string string;
  cs_handle : gmap string string;
  cs_snapVersion : Z;
  cs_TopicManager : TopicManager;
  cs_webSubTopicUpdater : option (StoredConfig -> GoM TopicManager unit);
  cs_templates : gmap string StoredLLMProviderTemplate;
  cs_templateIdByHandle : gmap string string;
  cs_apiKeysByAPI : gmap string (gmap string ControllerAPIKey);
  cs_labelsByAPI : gmap string (gmap string string)
}.

Definition NewConfigStore : ConfigStore := mkConfigStore ∅ ∅ ∅ 0 ∅ None ∅ ∅ ∅ ∅.

Definition set_indexes (cs : ConfigStore) configs nameVersion handle : ConfigStore :=
  mkConfigStore configs nameVersion handle (cs_snapVersion cs) (cs_TopicManager cs) (cs_webSubTopicUpdater cs) (cs_templates cs)
    (cs_templateIdByHandle cs) (cs_apiKeysByAPI cs) (cs_labelsByAPI cs).
Definition set_snapVersion (cs : ConfigStore) v : ConfigStore :=
  mkConfigStore (cs_configs cs) (cs_nameVersion cs) (cs_handle cs) v (cs_TopicManager cs) (cs_webSubTopicUpdater cs) (cs_templates cs)
    (cs_templateIdByHandle cs) (cs_apiKeysByAPI cs) (cs_labelsByAPI cs).
Definition set_topics (cs : ConfigStore) tm : ConfigStore :=
  mkConfigStore (cs_configs cs) (cs_nameVersion cs) (cs_handle cs) (cs_snapVersion cs) tm (cs_webSubTopicUpdater cs) (cs_templates cs)
    (cs_templateIdByHandle cs) (cs_apiKeysByAPI cs) (cs_labelsByAPI cs).
Definition set_updater (cs : ConfigStore) fn : ConfigStore :=
  mkConfigStore (cs_configs cs) (cs_nameVersion cs) (cs_handle cs) (cs_snapVersion cs) (cs_TopicManager cs) fn (cs_templates cs)
    (cs_templateIdByHandle cs) (cs_apiKeysByAPI cs) (cs_labelsByAPI cs).
Definition set_templates (cs : ConfigStore) templates byHandle : ConfigStore :=
  mkConfigStore (cs_configs cs) (cs_nameVersion cs) (cs_handle cs) (cs_snapVersion cs) (cs_TopicManager cs) (cs_webSubTopicUpdater cs)
    templates byHandle (cs_apiKeysByAPI cs) (cs_labelsByAPI cs).
Definition set_apiKeys (cs : ConfigStore) keys : ConfigStore :=
  mkConfigStore (cs_configs cs) (cs_nameVersion cs) (cs_handle cs) (cs_snapVersion cs) (cs_TopicManager cs) (cs_webSubTopicUpdater cs)
    (cs_templates cs) (cs_templateIdByHandle cs) keys (cs_labelsByAPI cs).
Definition set_labels (cs : ConfigStore) labels : ConfigStore :=
  mkConfigStore (cs_configs cs) (cs_nameVersion cs) (cs_handle cs) (cs_snapVersion cs) (cs_TopicManager cs) (cs_webSubTopicUpdater cs)
    (cs_templates cs) (cs_templateIdByHandle cs) (cs_apiKeysByAPI cs) labels.

Definition ErrConflict : string := "configuration already exists".
Definition ErrNotFound : string := "configuration not found".

Definition handleKeyOf (cfg : StoredConfig) : string := sc_Kind cfg +:+ ":" +:+ sc_Handle cfg.

(** The hook, for an event-driven API. *)
Definition updateTopics (cfg : StoredConfig) : GoM ConfigStore unit := fun cs =>
  if String.eqb (sc_Kind cfg) "WebSubApi" then
    match cs_webSubTopicUpdater cs with
    | None => Ok cs tt
    | Some fn => match fn cfg (cs_TopicManager cs) with
                 | Ok tm _ => Ok (set_topics cs tm) tt
                 | Err tm e => Err (set_topics cs tm) e
                 | Panic => Panic
                 end
    end
  else Ok cs tt.

Definition handleConflict (handle id idLabel : string) : string :=
  ErrConflict +:+ ": configuration with handle '" +:+ handle +:+ "' already exists (" +:+ idLabel +:+ ": " +:+ id +:+ ")".
Definition nameConflict (cfg : StoredConfig) (id idLabel : string) : string :=
  ErrConflict +:+ ": configuration with displayName '" +:+ sc_DisplayName cfg +:+ "' and version '" +:+ sc_Version cfg +:+
  "' already exists (" +:+ idLabel +:+ ": " +:+ id +:+ ")".

Definition ConfigStore_Add (cfg : StoredConfig) : GoM ConfigStore unit := fun cs =>
  let key := GetCompositeKey cfg in
  let handleKey := handleKeyOf cfg in
  match cs_handle cs !! handleKey with
  | Some existingID => Err cs (handleConflict (sc_Handle cfg) existingID "ID")
  | None =>
      match cs_nameVersion cs !! key with
      | Some existingID => Err cs (nameConflict cfg existingID "ID")
      | None =>
          let cs := set_indexes cs (<[sc_UUID cfg := cfg]> (cs_configs cs)) (<[key := sc_UUID cfg]> (cs_nameVersion cs))
                      (<[handleKey := sc_UUID cfg]> (cs_handle cs)) in
          let cs := match GetLabels cfg with
                    | Some labels => set_labels cs (<[sc_Handle cfg := labels]> (cs_labelsByAPI cs))
                    | None => cs
                    end in
          updateTopics cfg cs
      end
  end.

(** The two index updates of [Update], each with its check. *)
Definition reindexHandle (existing cfg : StoredConfig) : GoM ConfigStore unit := fun cs =>
  let oldHandleKey := handleKeyOf existing in
  let newHandleKey := handleKeyOf cfg in
  if String.eqb oldHandleKey newHandleKey then Ok cs tt
  else
    let reindexed := set_indexes cs (cs_configs cs) (cs_nameVersion cs) (<[newHandleKey := sc_UUID cfg]> (delete oldHandleKey (cs_handle cs))) in
    match cs_handle cs !! newHandleKey with
    | Some existingUUID => if negb (String.eqb existingUUID (sc_UUID cfg)) then Err cs (handleConflict (sc_Handle cfg) existingUUID "UUID")
                           else Ok reindexed tt
    | None => Ok reindexed tt
    end.

Definition reindexName (existing cfg : StoredConfig) : GoM ConfigStore unit := fun cs =>
  let oldKey := GetCompositeKey existing in
  let newKey := GetCompositeKey cfg in
  if String.eqb oldKey newKey then Ok cs tt
  else
    let reindexed := set_indexes cs (cs_configs cs) (<[newKey := sc_UUID cfg]> (delete oldKey (cs_nameVersion cs))) (cs_handle cs) in
    match cs_nameVersion cs !! newKey with
    | Some existingUUID => if negb (String.eqb existingUUID (sc_UUID cfg)) then Err cs (nameConflict cfg existingUUID "UUID")
                           else Ok reindexed tt
    | None => Ok reindexed tt
    end.

Definition updateLabels (existing cfg : StoredConfig) (cs : ConfigStore) : ConfigStore :=
  let oldHandle := sc_Handle existing in
  let newHandle := sc_Handle cfg in
  if negb (String.eqb oldHandle newHandle) then
    let labels := delete oldHandle (cs_labelsByAPI cs) in
    match GetLabels cfg with
    | Some l => set_labels cs (<[newHandle := l]> labels)
    | None => set_labels cs labels
    end
  else match GetLabels cfg with
       | Some l => set_labels cs (<[oldHandle := l]> (cs_labelsByAPI cs))
       | None => set_labels cs (delete oldHandle (cs_labelsByAPI cs))
       end.

Definition ConfigStore_Update (cfg : StoredConfig) : GoM ConfigStore unit := fun cs =>
  match cs_configs cs !! sc_UUID cfg with
  | None => Err cs ("configuration with UUID '" +:+ sc_UUID cfg +:+ "' not found")
  | Some existing =>
      (reindexHandle existing cfg;;
       reindexName existing cfg;;
       updateTopics cfg;;
       modify (fun cs => updateLabels existing cfg
                 (set_indexes cs (<[sc_UUID cfg := cfg]> (cs_configs cs)) (cs_nameVersion cs) (cs_handle cs)))) cs
  end.

Definition SetWebSubTopicUpdater fn (cs : ConfigStore) : ConfigStore := set_updater cs fn.

Definition ConfigStore_Delete (id : string) : GoM ConfigStore unit := fun cs =>
  match cs_configs cs !! id with
  | None => Err cs ("configuration with ID '" +:+ id +:+ "' not found")
  | Some cfg =>
      let cs := if String.eqb (sc_Kind cfg) "WebSubApi"
                then set_topics cs (Topics_RemoveAllForConfig (sc_UUID cfg) (cs_TopicManager cs)) else cs in
      let cs := set_indexes cs (delete id (cs_configs cs)) (delete (GetCompositeKey cfg) (cs_nameVersion cs))
                  (delete (handleKeyOf cfg) (cs_handle cs)) in
      Ok (set_labels cs (delete (sc_Handle cfg) (cs_labelsByAPI cs))) tt
  end.

Definition ConfigStore_Get (cs : ConfigStore) (id : string) : string + StoredConfig :=
  match cs_configs cs !! id with
  | Some cfg => inr cfg
  | None => inl (ErrNotFound +:+ ": id=" +:+ id)
  end.

(** [None] is a nil configuration; the error is always nil. *)
Definition GetByKindNameAndVersion (cs : ConfigStore) (kind name version : string) : option StoredConfig :=
  match cs_nameVersion cs !! (kind +:+ ":" +:+ name +:+ ":" +:+ version) with
  | Some configID => cs_configs cs !! configID
  | None => None
  end.

Definition GetByKindAndHandle (cs : ConfigStore) (kind handle : string) : option StoredConfig :=
  match cs_handle cs !! (kind +:+ ":" +:+ handle) with
  | Some configID => cs_configs cs !! configID
  | None => None
  end.

Section Iteration.
Context `{MapRange}.

Definition ConfigStore_GetAll (cs : ConfigStore) : list StoredConfig := (range (cs_configs cs)).*2.

Definition GetAllSensitiveValues (cs : ConfigStore) : list string :=
  foldl (fun result cfg => (result ++ sc_SensitiveValues cfg)%list) [] (ConfigStore_GetAll cs).

Definition GetAllByKind (cs : ConfigStore) (kind : string) : list StoredConfig :=
  filter (fun cfg => sc_Kind cfg = kind) (ConfigStore_GetAll cs).

End Iteration.

(** [x++] on an [int64]. *)
Definition int64_incr (z : Z) : Z := ((z + 1 + 2 ^ 63) mod 2 ^ 64 - 2 ^ 63)%Z.

Definition IncrementSnapshotVersion : GoM ConfigStore Z := fun cs =>
  let v := int64_incr (cs_snapVersion cs) in Ok (set_snapVersion cs v) v.
Definition GetSnapshotVersion (cs : ConfigStore) : Z := cs_snapVersion cs.
Definition SetSnapshotVersion (version : Z) (cs : ConfigStore) : ConfigStore := set_snapVersion cs version.

(** *** Templates *)

Definition AddTemplate (template : StoredLLMProviderTemplate) : GoM ConfigStore unit := fun cs =>
  let uuid := TrimSpace (st_UUID template) in
  let handle := TrimSpace (GetHandle template) in
  if String.eqb uuid "" || String.eqb handle "" then Err cs "template UUID and handle is required"
  else match cs_templates cs !! uuid with
       | Some _ => Err cs ("template with uuid '" +:+ uuid +:+ "' already exists")
       | None =>
           match cs_templateIdByHandle cs !! handle with
           | Some _ => Err cs ("template with handle '" +:+ handle +:+ "' already exists")
           | None => Ok (set_templates cs (<[uuid := template]> (cs_templates cs)) (<[handle := uuid]> (cs_templateIdByHandle cs))) tt
           end
       end.

Definition UpdateTemplate (template : StoredLLMProviderTemplate) : GoM ConfigStore unit := fun cs =>
  let uuid := TrimSpace (st_UUID template) in
  let newHandle := TrimSpace (GetHandle template) in
  if String.eqb uuid "" || String.eqb newHandle "" then Err cs "template uuid and handle is required"
  else match cs_templates cs !! uuid with
       | None => Err cs ("template with uuid '" +:+ uuid +:+ "' not found")
       | Some existing =>
           let oldName := TrimSpace (GetHandle existing) in
           let byHandle := cs_templateIdByHandle cs in
           let finish byHandle := Ok (set_templates cs (<[uuid := template]> (cs_templates cs)) (<[newHandle := uuid]> byHandle)) tt in
           if negb (String.eqb newHandle oldName) then
             let removed := match byHandle !! oldName with
                            | Some mappedID => if String.eqb mappedID uuid then delete oldName byHandle else byHandle
                            | None => byHandle
                            end in
             match byHandle !! newHandle with
             | Some mappedID => if negb (String.eqb mappedID uuid)
                                then Err cs ("template with given handle '" +:+ newHandle +:+ "' already exists") else finish removed
             | None => finish removed
             end
           else finish byHandle
       end.

Definition DeleteTemplate (id : string) : GoM ConfigStore unit := fun cs =>
  match cs_templates cs !! id with
  | None => Err cs ("template with ID '" +:+ id +:+ "' not found")
  | Some template => Ok (set_templates cs (delete id (cs_templates cs)) (delete (GetHandle template) (cs_templateIdByHandle cs))) tt
  end.

Definition GetTemplate (cs : ConfigStore) (id : string) : string + StoredLLMProviderTemplate :=
  match cs_templates cs !! id with
  | Some template => inr template
  | None => inl ("template with ID '" +:+ id +:+ "' not found")
  end.

(** The template may be nil when only the handle is known. *)
Definition GetTemplateByHandle (cs : ConfigStore) (handle : string) : string + option StoredLLMProviderTemplate :=
  match cs_templateIdByHandle cs !! handle with
  | None => inl ("template with handle '" +:+ handle +:+ "' not found")
  | Some templateId => inr (cs_templates cs !! templateId)
  end.

Definition GetAllTemplates `{MapRange} (cs : ConfigStore) : list StoredLLMProviderTemplate := (range (cs_templates cs)).*2.

(** *** API keys *)

Section Keys.
Context `{MapRange}.

Definition keysOf (cs : ConfigStore) (apiId : string) : gmap string ControllerAPIKey := default ∅ (cs_apiKeysByAPI cs !! apiId).

(** The search for a key of that name: the identifier of the first one met,
    [""] for none. *)
Definition existingKeyIDOf (keys : gmap string ControllerAPIKey) (name : string) : string :=
  match List.find (fun kv => String.eqb (ck_Name kv.2) name) (range keys) with Some kv => kv.1 | None => "" end.

Definition ConfigStore_StoreAPIKey (apiKey : option ControllerAPIKey) : GoM ConfigStore unit := fun cs =>
  match apiKey with
  | None => Err cs "API key cannot be nil"
  | Some apiKey =>
      if String.eqb (TrimSpace (ck_Name apiKey)) "" then Err cs "API key name cannot be empty"
      else if String.eqb (TrimSpace (ck_APIKey apiKey)) "" then Err cs "API key value cannot be empty"
      else if String.eqb (TrimSpace (ck_ArtifactUUID apiKey)) "" then Err cs "API apiId cannot be empty"
      else
        let api := ck_ArtifactUUID apiKey in
        let keys := keysOf cs api in
        let existingKeyID := existingKeyIDOf keys (ck_Name apiKey) in
        let stored id := set_apiKeys cs (<[api := <[id := apiKey]> keys]> (cs_apiKeysByAPI cs)) in
        if negb (String.eqb existingKeyID "") then
          if negb (String.eqb (ck_UUID apiKey) existingKeyID) then
            Err cs ("API key with name " +:+ Quote (ck_Name apiKey) +:+ " already exists for artifact " +:+ api +:+ " with a different ID")
          else Ok (stored existingKeyID) tt
        else match keys !! ck_UUID apiKey with
             | Some _ => Err cs ErrConflict
             | None => Ok (stored (ck_UUID apiKey)) tt
             end
  end.

Definition GetAPIKeyByID (cs : ConfigStore) (apiId id : string) : string + ControllerAPIKey :=
  match keysOf cs apiId !! id with Some k => inr k | None => inl ErrNotFound end.

Definition GetAPIKeysByAPI (cs : ConfigStore) (apiId : string) : list ControllerAPIKey := (range (keysOf cs apiId)).*2.

Definition CountActiveAPIKeysByUserAndAPI (cs : ConfigStore) (apiId userID : string) : nat :=
  length (filter (fun k => ck_CreatedBy k = userID /\ ck_Status k = APIKeyStatusActive) (GetAPIKeysByAPI cs apiId)).

Definition GetAPIKeyByName (cs : ConfigStore) (apiId name : string) : string + ControllerAPIKey :=
  match List.find (fun k => String.eqb (ck_Name k) name) (GetAPIKeysByAPI cs apiId) with
  | Some k => inr k
  | None => inl ErrNotFound
  end.

End Keys.

Definition RemoveAPIKeyByID (apiId id : string) : GoM ConfigStore unit := fun cs =>
  match cs_apiKeysByAPI cs !! apiId with
  | None => Err cs ErrNotFound
  | Some apiKeys =>
      match apiKeys !! id with
      | None => Err cs ErrNotFound
      | Some _ =>
          let apiKeys := delete id apiKeys in
          Ok (set_apiKeys cs (if decide (size apiKeys = 0) then delete apiId (cs_apiKeysByAPI cs)
                              else <[apiId := apiKeys]> (cs_apiKeysByAPI cs))) tt
      end
  end.

Definition ConfigStore_RemoveAPIKeysByAPI (apiId : string) (cs : ConfigStore) : ConfigStore :=
  set_apiKeys cs (delete apiId (cs_apiKeysByAPI cs)).

Definition GetLabelsMap (cs : ConfigStore) (handle : string) : string + gmap string string :=
  match cs_labelsByAPI cs !! handle with Some labels => inr labels | None => inl ErrNotFound end.
