(* ===== verification/PolicyVersions.v ===== *)
(** * PolicyVersions: the policies an artifact may refer to

    pkg/config/policy_validator.go: an artifact names a policy and a major
    version (or none, for the latest); the controller resolves it to the full
    version that is loaded.  The same function serves the validator, which
    rejects an artifact with an unknown policy or bad parameters, and the
    transformer that builds the policy chains.  Checking parameters against a
    JSON schema is a library's; it is the class [JSONSchema]. *)

From stdpp Require Import base gmap strings list fin_maps.
From Stdlib Require Import Ascii.
From S2P Require Import Prelude GoStrings Values Version ManagementApi.

#[local] Set Warnings "-register-all".

Open Scope string_scope.

(** models/policy_definition.go: the fields read here. *)
Record LoadedPolicyDefinition : Type := mkLoadedPolicyDefinition {
  ld_Name : string;
  ld_Version : string;
  ld_Parameters : option Params
}.

Abbreviation PolicyDefinitions := (gmap string LoadedPolicyDefinition).

Record ValidationError : Type := mkValidationError { ve_Field : string; ve_Message : string }.

Definition nonEmptyDigits (s : string) : bool := negb (String.eqb s "") && string_all is_digit s.

(** [^v\d+\.\d+\.\d+$] *)
Definition fullSemverPattern (s : string) : bool :=
  match s with
  | String "v" r => match Split "." r with
                    | [a; b; c] => nonEmptyDigits a && nonEmptyDigits b && nonEmptyDigits c
                    | _ => false
                    end
  | _ => false
  end.

(** [^v\d+$] *)
Definition majorVersionPattern (s : string) : bool :=
  match s with String "v" r => nonEmptyDigits r | _ => false end.

(** The result of a JSON-schema validation: an error, or the field and the
    description of every violation. *)
Class JSONSchema := { validateSchema : Params -> Params -> string + list (string * string) }.

Section Versions.
Context `{MapRange}.

Definition indexStep (index : gmap string string) (kv : string * LoadedPolicyDefinition) : gmap string string :=
  let def := kv.2 in
  if negb (fullSemverPattern (ld_Version def)) then index
  else match index !! ld_Name def with
       | None => <[ld_Name def := ld_Version def]> index
       | Some existing => if (0 <? CompareSemver (ld_Version def) existing)%Z then <[ld_Name def := ld_Version def]> index else index
       end.

Definition BuildLatestVersionIndex (definitions : PolicyDefinitions) : gmap string string :=
  foldl indexStep ∅ (range definitions).

(** The loop of the fallback: the latest version seen, [""] for none. *)
Definition scanLatest (name : string) (latestFull : string) (kv : string * LoadedPolicyDefinition) : string :=
  let def := kv.2 in
  if negb (String.eqb (ld_Name def) name) || negb (fullSemverPattern (ld_Version def)) then latestFull
  else if String.eqb latestFull "" || (0 <? CompareSemver (ld_Version def) latestFull)%Z then ld_Version def
  else latestFull.

Definition notLoaded (name : string) : string := "policy '" +:+ name +:+ "' not found in loaded policy definitions".

Definition ResolvePolicyVersion (definitions : PolicyDefinitions) (latestVersions : option (gmap string string))
    (name version : string) : string + string :=
  let trimmed := TrimSpace version in
  if String.eqb trimmed "" then
    match latestVersions with
    | Some index => match index !! name with
                    | Some latest => inr latest
                    | None => inl (notLoaded name)
                    end
    | None =>
        let latestFull := foldl (scanLatest name) "" (range definitions) in
        if String.eqb latestFull "" then inl (notLoaded name) else inr latestFull
    end
  else if fullSemverPattern trimmed then
    inl ("policy '" +:+ name +:+ "' version must be major-only (e.g., v1); full semantic version (e.g., v1.0.0) is not allowed")
  else if majorVersionPattern trimmed then
    let majorPrefix := trimmed +:+ "." in
    let matchingVersions :=
      ld_Version <$> filter (fun def => ld_Name def = name /\ fullSemverPattern (ld_Version def) = true /\
                                        HasPrefix (ld_Version def) majorPrefix = true) (range definitions).*2 in
    match matchingVersions with
    | [] => inl ("policy '" +:+ name +:+ "' major version '" +:+ trimmed +:+ "' not found in loaded policy definitions")
    | [v] => inr v
    | _ => inl ("multiple matching versions for policy '" +:+ name +:+ "' major '" +:+ trimmed +:+ "'; cannot resolve uniquely")
    end
  else inl ("invalid version format '" +:+ version +:+ "' for policy '" +:+ name +:+ "'; expected major-only version (e.g., v1)").

(** ** The validator *)

Record PolicyValidator : Type := mkPolicyValidator {
  pv_policyDefinitions : PolicyDefinitions;
  pv_latestVersions : gmap string string
}.

Definition NewPolicyValidator (definitions : PolicyDefinitions) : PolicyValidator :=
  mkPolicyValidator definitions (BuildLatestVersionIndex definitions).

Context `{JSONSchema}.
Context (pv : PolicyValidator).

Definition resolvePolicyVersion (name version : string) : string + string :=
  ResolvePolicyVersion (pv_policyDefinitions pv) (Some (pv_latestVersions pv)) name version.

(** The definition referred to, or the errors. *)
Definition validatePolicyRef (name version fieldPath : string) : list ValidationError + LoadedPolicyDefinition :=
  match resolvePolicyVersion name version with
  | inl err => inl [mkValidationError (fieldPath +:+ ".version") err]
  | inr resolvedVersion =>
      match pv_policyDefinitions pv !! (name +:+ "|" +:+ resolvedVersion) with
      | None => inl [mkValidationError (fieldPath +:+ ".name")
                       ("Policy '" +:+ name +:+ "' version '" +:+ resolvedVersion +:+ "' not found in loaded policy definitions")]
      | Some policyDef => inr policyDef
      end
  end.

Definition TrimPrefix (s prefix : string) : string :=
  if HasPrefix s prefix then string_drop (String.length prefix) s else s.

Definition validatePolicyParams (params schema : Params) (fieldPath : string) : list ValidationError :=
  match validateSchema schema params with
  | inl err => [mkValidationError fieldPath ("Failed to validate policy parameters: " +:+ err)]
  | inr violations =>
      (fun '(fieldName, description) =>
         mkValidationError (if String.eqb fieldName "(root)" then fieldPath else fieldPath +:+ "." +:+ TrimPrefix fieldName "(root).")
           description) <$> violations
  end.

Definition validatePolicy (policy : ApiPolicy) (fieldPath : string) : list ValidationError :=
  match validatePolicyRef (ap_Name policy) (ap_Version policy) fieldPath with
  | inl errors => errors
  | inr policyDef =>
      match ld_Parameters policyDef with
      | Some schema => validatePolicyParams (default ∅ (ap_Params policy)) schema (fieldPath +:+ ".params")
      | None => []
      end
  end.

(** A loop that validates the entries of an optional list. *)
Definition validateList {A} (policies : option (list A)) (field : nat -> string) (validate : A -> string -> list ValidationError) :
    list ValidationError :=
  match policies with
  | None => []
  | Some l => concat (imap (fun i p => validate p (field i)) l)
  end.

Definition at_index (field : string) (i : nat) : string := field +:+ "[" +:+ Itoa (Z.of_nat i) +:+ "]".

Definition ValidateMCPProxyPolicies (mcpConfig : MCPProxyConfiguration) : list ValidationError :=
  validateList (mc_Policies mcpConfig) (at_index "spec.policies") validatePolicy.

Definition ValidateRestAPIPolicies (apiConfig : RestAPI) : list ValidationError :=
  (validateList (acd_Policies (ra_Spec apiConfig)) (at_index "spec.policies") validatePolicy ++
   concat (imap (fun opIdx operation =>
                   validateList (op_Policies operation) (at_index (at_index "spec.operations" opIdx +:+ ".policies")) validatePolicy)
             (acd_Operations (ra_Spec apiConfig))))%list.

Definition refErrors (name version fieldPath : string) : list ValidationError :=
  match validatePolicyRef name version fieldPath with inl errs => errs | inr _ => [] end.

Definition validateLLMPolicyRefs (globalPolicies : option (list ApiPolicy)) (operationPolicies : option (list OperationPolicy))
    (legacyPolicies : option (list LLMPolicy)) : list ValidationError :=
  (validateList globalPolicies (at_index "spec.globalPolicies") validatePolicy ++
   validateList operationPolicies (at_index "spec.operationPolicies") (fun policy => refErrors (lop_Name policy) (lop_Version policy)) ++
   validateList legacyPolicies (at_index "spec.policies") (fun policy => refErrors (llp_Name policy) (llp_Version policy)))%list.

Definition ValidateLLMProviderPolicies (cfg : LLMProviderConfiguration) : list ValidationError :=
  validateLLMPolicyRefs (lp_GlobalPolicies cfg) (lp_OperationPolicies cfg) (lp_Policies cfg).
Definition ValidateLLMProxyPolicies (cfg : LLMProxyConfiguration) : list ValidationError :=
  validateLLMPolicyRefs (lx_GlobalPolicies cfg) (lx_OperationPolicies cfg) (lx_Policies cfg).

End Versions.

(** ** Lemmas *)

Section VersionLemmas.
Context `{MapRange}.

(** What the index and the scan have in common: the best version so far, if
    any. *)
Definition indexOf (latestFull : string) : option string := if String.eqb latestFull "" then None else Some latestFull.

Lemma semver_nonempty v : fullSemverPattern v = true -> String.eqb v "" = false.
Proof. by destruct v. Qed.

Lemma scan_index_agree name l : forall index latest,
  index !! name = indexOf latest ->
  foldl indexStep index l !! name = indexOf (foldl (scanLatest name) latest l).
Proof.
  induction l as [|[k def] l IH]; intros index latest Hi; [done|]. simpl. apply IH.
  unfold indexStep, scanLatest. simpl. destruct (fullSemverPattern (ld_Version def)) eqn:Hv; simpl; [|by rewrite orb_true_r].
  rewrite orb_false_r. destruct (String.eqb_spec (ld_Name def) name) as [->|Hn]; simpl.
  - rewrite Hi. unfold indexOf. destruct (String.eqb latest ""); simpl; [by rewrite lookup_insert_eq, semver_nonempty|].
    destruct (0 <? CompareSemver _ _)%Z eqn:E; [by rewrite lookup_insert_eq, semver_nonempty|].
    by rewrite Hi.
  - destruct (index !! ld_Name def); [destruct (0 <? _)%Z|]; by rewrite ?lookup_insert_ne.
Qed.

Lemma CompareSemver_refl a : CompareSemver a a = 0%Z.
Proof. by apply CompareSemver_equal. Qed.

Lemma CompareSemver_trans a b c :
  (0 <= CompareSemver a b)%Z -> (0 <= CompareSemver b c)%Z -> (0 <= CompareSemver a c)%Z.
Proof. apply (CompareSemver_total_preorder a b c). Qed.

Lemma CompareSemver_opp a b : CompareSemver b a = (- CompareSemver a b)%Z.
Proof. apply (CompareSemver_total_preorder a b a). Qed.

(** A definition that the scan for [name] considers. *)
Definition candidate (name : string) (def : LoadedPolicyDefinition) : Prop :=
  ld_Name def = name /\ fullSemverPattern (ld_Version def) = true.
#[local] Instance candidate_dec name def : Decision (candidate name def) := _.

Abbreviation entries := (list (string * LoadedPolicyDefinition)).

(** The scan's invariant: no candidate seen is later than [latest], which is
    the version of one of them, or none. *)
Definition bestOf (name : string) (seen : entries) (latest : string) : Prop :=
  (forall kv, kv ∈ seen -> candidate name kv.2 -> latest <> "" /\ (0 <= CompareSemver latest (ld_Version kv.2))%Z) /\
  (latest = "" \/ exists kv, kv ∈ seen /\ candidate name kv.2 /\ ld_Version kv.2 = latest).

Lemma scanLatest_step name seen latest kv :
  bestOf name seen latest -> bestOf name (seen ++ [kv]) (scanLatest name latest kv).
Proof.
  intros [Hmax Hin]. unfold scanLatest.
  assert (latest = "" \/ exists kv', kv' ∈ (seen ++ [kv])%list /\ candidate name kv'.2 /\ ld_Version kv'.2 = latest) as Hin'.
  { destruct Hin as [|(kv' & ? & ?)]; [by left|right; exists kv'; rewrite elem_of_app; auto]. }
  destruct (decide (candidate name kv.2)) as [Hkv|Hc].
  - pose proof Hkv as [Hn Hv]. rewrite Hn, Hv, String.eqb_refl. simpl. pose proof (semver_nonempty _ Hv) as Hne%String.eqb_neq.
    assert (forall kv', kv' ∈ (seen ++ [kv])%list -> candidate name kv'.2 -> kv' ∈ seen /\ candidate name kv'.2 \/ kv' = kv) as Hcase.
    { intros kv' [Hk|Hk%list_elem_of_singleton]%elem_of_app ?; auto. }
    destruct (String.eqb_spec latest "") as [->|Hl]; simpl; [|destruct (Z.ltb_spec 0 (CompareSemver (ld_Version kv.2) latest))]; split.
    + intros kv' Hk Hc'. destruct (Hcase kv' Hk Hc') as [[Hs Hc''] | ->]; [by destruct (Hmax kv' Hs Hc'')|].
      by rewrite CompareSemver_refl.
    + right. exists kv. rewrite elem_of_app, list_elem_of_singleton. auto.
    + intros kv' Hk Hc'. destruct (Hcase kv' Hk Hc') as [[Hs Hc''] | ->]; [|by rewrite CompareSemver_refl].
      split; [done|]. eapply CompareSemver_trans; [|by apply Hmax]. lia.
    + right. exists kv. rewrite elem_of_app, list_elem_of_singleton. auto.
    + intros kv' Hk Hc'. destruct (Hcase kv' Hk Hc') as [[Hs Hc''] | ->]; [by apply Hmax|].
      split; [done|]. rewrite CompareSemver_opp. lia.
    + done.
  - replace (negb _ || negb _) with true; [split; [|done]|].
    + intros kv' [Hk|Hk%list_elem_of_singleton]%elem_of_app Hc'; [by apply Hmax|by subst].
    + symmetry. apply orb_true_iff. rewrite !negb_true_iff, String.eqb_neq, <- not_true_iff_false. unfold candidate in Hc.
      destruct (decide (ld_Name kv.2 = name)); [right|by left]. naive_solver.
Qed.

Lemma scanLatest_spec name l seen latest :
  bestOf name seen latest -> bestOf name (seen ++ l) (foldl (scanLatest name) latest l).
Proof.
  revert seen latest. induction l as [|kv l IH]; intros seen latest Hb; simpl; [by rewrite app_nil_r|].
  replace (seen ++ kv :: l)%list with ((seen ++ [kv]) ++ l)%list by (by rewrite <- app_assoc).
  apply IH, scanLatest_step, Hb.
Qed.

Lemma bestOf_nil name : bestOf name [] "".
Proof. split; [intros ? []%elem_of_nil|by left]. Qed.

End VersionLemmas.

(** ** Theorems *)

Section VersionTheorems.
Context `{MapRange}.

Lemma range_two {A} (m : gmap string A) k a k' a' :
  m !! k = Some a -> m !! k' = Some a' -> k <> k' -> exists rest, range m ≡ₚ (k, a) :: (k', a') :: rest.
Proof.
  intros Hk Hk' Hne. exists (map_to_list (delete k' (delete k m))). rewrite range_perm.
  rewrite <- (insert_delete_id m k a) at 1 by done. rewrite map_to_list_insert by apply lookup_delete_eq.
  rewrite <- (insert_delete_id (delete k m) k' a') at 1 by (by rewrite lookup_delete_ne).
  by rewrite map_to_list_insert by apply lookup_delete_eq.
Qed.

(** A candidate of the major version [major]. *)
Definition ofMajor (name major : string) (def : LoadedPolicyDefinition) : Prop :=
  candidate name def /\ HasPrefix (ld_Version def) (major +:+ ".") = true.

Lemma single_match name major (defs : PolicyDefinitions) v :
  ld_Version <$> filter (fun def => ld_Name def = name /\ fullSemverPattern (ld_Version def) = true /\
                                    HasPrefix (ld_Version def) (major +:+ ".") = true) (range defs).*2 = [v] ->
  exists key def, defs !! key = Some def /\ ofMajor name major def /\ ld_Version def = v /\
    (forall key' def', defs !! key' = Some def' -> ofMajor name major def' -> key' = key).
Proof.
  set (P := fun def => _). intros Hf.
  assert (v ∈ ld_Version <$> filter P (range defs).*2) as (def & -> & [Hp Hd]%list_elem_of_filter)%list_elem_of_fmap
    by (rewrite Hf; by apply list_elem_of_singleton).
  apply list_elem_of_fmap in Hd as ([key def'] & -> & Hd%elem_of_range). simpl in *. destruct Hp as (Hn & Hs & Hp).
  exists key, def'. split_and!; [done|by repeat split|done|]. intros key' d' Hk' [[Hn' Hs'] Hp'].
  destruct (decide (key = key')) as [|Hne]; [done|]. exfalso.
  destruct (range_two defs key def' key' d' Hd Hk' Hne) as [rest Hr].
  apply (f_equal length) in Hf. rewrite length_fmap in Hf. simpl in Hf.
  assert (filter P (range defs).*2 ≡ₚ filter P (def' :: d' :: rest.*2)) as Hperm by (by rewrite Hr).
  apply Permutation_length in Hperm. rewrite Hf, !filter_cons_True in Hperm by done. simpl in Hperm. lia.
Qed.

(** The precomputed index gives what a scan of the definitions gives. *)
Lemma version_index_is_the_scan (definitions : PolicyDefinitions) name version :
  ResolvePolicyVersion definitions (Some (BuildLatestVersionIndex definitions)) name version =
  ResolvePolicyVersion definitions None name version.
Proof.
  unfold ResolvePolicyVersion. destruct (String.eqb (TrimSpace version) ""); [|done].
  unfold BuildLatestVersionIndex. rewrite (scan_index_agree name _ ∅ "") by (by rewrite lookup_empty).
  unfold indexOf. by destruct (String.eqb _ "").
Qed.

(** A policy reference resolves to the full version of a loaded
    definition of that name.  Without a version it is a latest one: no loaded
    version of the policy compares greater.  With a major version it is the
    only loaded version of that major. *)
Theorem resolved_versions_are_loaded (definitions : PolicyDefinitions) name version v :
  ResolvePolicyVersion definitions (Some (BuildLatestVersionIndex definitions)) name version = inr v ->
  exists key def, definitions !! key = Some def /\ candidate name def /\ ld_Version def = v /\
    if String.eqb (TrimSpace version) ""
    then forall key' def', definitions !! key' = Some def' -> candidate name def' -> (0 <= CompareSemver v (ld_Version def'))%Z
    else HasPrefix v (TrimSpace version +:+ ".") = true /\
         forall key' def', definitions !! key' = Some def' -> ofMajor name (TrimSpace version) def' -> key' = key.
Proof.
  rewrite version_index_is_the_scan. unfold ResolvePolicyVersion. destruct (String.eqb (TrimSpace version) "").
  - destruct (String.eqb_spec (foldl (scanLatest name) "" (range definitions)) "") as [|Hne]; [done|]. intros [= <-].
    destruct (scanLatest_spec name (range definitions) [] "" (bestOf_nil name)) as [Hmax [|([key def] & Hk & Hc & Hv)]]; [done|].
    exists key, def. split_and!; [by apply elem_of_range|done|done|].
    intros key' def' Hk'%elem_of_range Hc'. by apply (Hmax (key', def')).
  - destruct (fullSemverPattern _); [done|]. destruct (majorVersionPattern _); [|done].
    destruct (ld_Version <$> _) as [|v' [|]] eqn:Hf; [done| |done]. intros [= ->].
    destruct (single_match _ _ _ _ Hf) as (key & def & Hk & [Hc Hp] & <- & Hu). exists key, def. by split_and!.
Qed.

End VersionTheorems.

Definition sampleDefinitions : PolicyDefinitions :=
  {["auth|v1.2.0" := mkLoadedPolicyDefinition "auth" "v1.2.0" None;
    "auth|v2.0.1" := mkLoadedPolicyDefinition "auth" "v2.0.1" None;
    "cors|v0.9.3" := mkLoadedPolicyDefinition "cors" "v0.9.3" None]}.

Lemma resolved_versions_are_loaded_witness :
  exists key def, sampleDefinitions !! key = Some def /\ candidate "auth" def /\ ld_Version def = "v1.2.0" /\
    HasPrefix "v1.2.0" "v1." = true /\
    forall key' def', sampleDefinitions !! key' = Some def' -> ofMajor "auth" "v1" def' -> key' = key.
Proof.
  apply (resolved_versions_are_loaded (H := MapRange_list) sampleDefinitions "auth" "v1" "v1.2.0"). by vm_compute.
Defined.
