(* ===== verification/RestTransform.v ===== *)
(** * RestTransform: from an artifact to its runtime configuration

    gateway-controller/pkg/transform: [RestAPITransformer.Transform]
    (restapi.go) turns a stored REST API into the runtime configuration that
    feeds both Envoy and the policy engine: the routes, one policy chain per
    route, and the upstream clusters; llm.go and registry.go dispatch the
    other kinds to it.  utils/system_policies.go puts the system policies in
    front of every chain. *)

From stdpp Require Import base gmap strings list fin_maps.
From Stdlib Require Import Ascii.
From S2P Require Import Prelude GoStrings GoDuration Version Values Sdk Registry ChainBuild Routes ManagementApi PolicyVersions.

#[local] Set Warnings "-register-all".

Open Scope string_scope.

(** ** Package net/url *)

(** What is read of a parsed URL.  [url.Parse] itself is the class. *)
Record URL : Type := mkURL {
  u_Scheme : string;
  u_Host : string;
  u_Path : string;
  u_RawQuery : string;
  u_ForceQuery : bool;
  u_Fragment : string
}.
Class UrlParser := { url_Parse : string -> string + URL }.

(** The index of the last colon splits off the port, when what follows it is
    a number. *)
Fixpoint splitLastColon (s : string) : option (string * string) :=
  match s with
  | EmptyString => None
  | String c s' => match splitLastColon s' with
                   | Some (a, b) => Some (String c a, b)
                   | None => if Ascii.eqb c ":"%char then Some ("", s') else None
                   end
  end.

Definition splitHostPort (hostPort : string) : string * string :=
  let '(host, port) := match splitLastColon hostPort with
                       | Some (h, p) => if string_all is_digit p then (h, p) else (hostPort, "")
                       | None => (hostPort, "")
                       end in
  (if HasPrefix host "[" && HasSuffix host "]" then TrimSuffix (string_drop 1 host) "]" else host, port).

Definition Hostname (u : URL) : string := (splitHostPort (u_Host u)).1.
Definition Port (u : URL) : string := (splitHostPort (u_Host u)).2.

(** ** models/runtime_deploy_config.go *)

Record LLMMetadata : Type := mkLLMMetadata { lm_TemplateHandle : string; lm_ProviderName : string }.

Record RdcMetadata : Type := mkRdcMetadata {
  rdm_UUID : string;
  rdm_Kind : string;
  rdm_Handle : string;
  rdm_Version : string;
  rdm_DisplayName : string;
  rdm_ProjectID : string;
  rdm_LLM : option LLMMetadata
}.

Record ModelPolicy : Type := mkModelPolicy {
  mp_Name : string;
  mp_Version : string;
  mp_Params : Params;
  mp_ExecutionCondition : option string
}.

Record RuntimeDeployConfig : Type := mkRuntimeDeployConfig {
  rdc_Metadata : RdcMetadata;
  rdc_Context : string;
  rdc_PolicyChainResolver : string;
  rdc_Routes : gmap string RdcRoute;
  rdc_PolicyChains : gmap string (list ModelPolicy);
  rdc_UpstreamClusters : gmap string UpstreamCluster;
  rdc_SensitiveValues : list string
}.

Definition set_Routes rdc rs := mkRuntimeDeployConfig (rdc_Metadata rdc) (rdc_Context rdc) (rdc_PolicyChainResolver rdc) rs
  (rdc_PolicyChains rdc) (rdc_UpstreamClusters rdc) (rdc_SensitiveValues rdc).
Definition set_PolicyChains rdc pcs := mkRuntimeDeployConfig (rdc_Metadata rdc) (rdc_Context rdc) (rdc_PolicyChainResolver rdc)
  (rdc_Routes rdc) pcs (rdc_UpstreamClusters rdc) (rdc_SensitiveValues rdc).
Definition set_UpstreamClusters rdc ucs := mkRuntimeDeployConfig (rdc_Metadata rdc) (rdc_Context rdc) (rdc_PolicyChainResolver rdc)
  (rdc_Routes rdc) (rdc_PolicyChains rdc) ucs (rdc_SensitiveValues rdc).

(** ** utils/system_policies.go *)

(** The part of the system configuration that is read: the consumers of the
    collector and what it captures. *)
Record SystemConfig : Type := mkSystemConfig {
  cfg_AnalyticsEnabled : bool;
  cfg_TrafficLoggingEnabled : bool;
  cfg_RequestBody : bool;
  cfg_ResponseBody : bool;
  cfg_RequestHeaders : bool;
  cfg_ResponseHeaders : bool
}.

Definition collector_IsEnabled (analyticsEnabled trafficLoggingEnabled : bool) : bool := analyticsEnabled || trafficLoggingEnabled.
Definition IsCollectorEnabled (c : SystemConfig) : bool := collector_IsEnabled (cfg_AnalyticsEnabled c) (cfg_TrafficLoggingEnabled c).

Definition SharedParamsKey : string := "_shared".
Definition ANALYTICS_SYSTEM_POLICY_NAME : string := "wso2_apip_sys_analytics".
Definition ANALYTICS_SYSTEM_POLICY_VERSION : string := "v1".

Record systemPolicyConfig : Type := mkSystemPolicyConfig {
  sy_Name : string;
  sy_Version : string;
  sy_Enabled : SystemConfig -> bool;
  sy_Parameters : Params;
  sy_ExecutionCondition : option string
}.

Definition defaultSystemPolicies : list systemPolicyConfig :=
  [mkSystemPolicyConfig ANALYTICS_SYSTEM_POLICY_NAME ANALYTICS_SYSTEM_POLICY_VERSION IsCollectorEnabled ∅ None].

(** A nil map and an empty one are the same [Params]. *)
Definition mergeParameters (defaultParams : Params) (additionalProps : gmap string Value) (policyName : string) : Params :=
  if decide (size additionalProps = 0) then defaultParams
  else
    let overlay (result : Params) (key : string) :=
      match additionalProps !! key with Some (VMap m) => map_copy_into result (list_to_map m) | _ => result end in
    overlay (overlay defaultParams SharedParamsKey) policyName.

Definition effectiveDefaults (cfg : SystemConfig) (sysPol : systemPolicyConfig) : Params :=
  if String.eqb (sy_Name sysPol) ANALYTICS_SYSTEM_POLICY_NAME then
    <["response_headers" := VBool (cfg_ResponseHeaders cfg)]>
      (<["request_headers" := VBool (cfg_RequestHeaders cfg)]>
        (<["response_body" := VBool (cfg_ResponseBody cfg)]>
          (<["request_body" := VBool (cfg_RequestBody cfg)]> (sy_Parameters sysPol))))
  else sy_Parameters sysPol.

Definition systemInstance (cfg : SystemConfig) (additionalProps : gmap string Value) (sysPol : systemPolicyConfig) : PolicyInstance :=
  mkPolicyInstance (sy_Name sysPol) (sy_Version sysPol) true (sy_ExecutionCondition sysPol)
    (mergeParameters (effectiveDefaults cfg sysPol) additionalProps (sy_Name sysPol)).

(** The test for no enabled policy returns the chain as it is, which is what
    prepending nothing gives. *)
Definition InjectSystemPolicies (policies : list PolicyInstance) (cfg : option SystemConfig) (additionalProps : gmap string Value) :
    list PolicyInstance :=
  match cfg with
  | None => policies
  | Some cfg =>
      let enabled := filter (fun sysPol => sy_Enabled sysPol cfg = true) defaultSystemPolicies in
      if (length enabled =? 0)%nat then policies
      else (systemInstance cfg additionalProps <$> enabled) ++ policies
  end%list.

(** ** restapi.go: helpers *)

Definition AnnotationProjectID : string := "gateway.api-platform.wso2.com/project-id".
Definition DeprecatedLabelProjectID : string := "project-id".

Definition extractProjectID (cfg : StoredConfig) : string :=
  match GetAnnotations cfg ≫= lookup AnnotationProjectID with
  | Some pid => pid
  | None => match GetLabels cfg ≫= lookup DeprecatedLabelProjectID with
            | Some pid => pid
            | None => ""
            end
  end.

(** [splitVhosts]: [out] holds the hosts seen, so it is its own [seen]. *)
Definition splitVhosts (raw : string) : list string :=
  foldl (fun out p =>
    let p := TrimSpace p in
    if String.eqb p "" then out else if bool_decide (p ∈ out) then out else (out ++ [p])%list) [] (Split ";" raw).

Definition routeHeaderMatches (op : Operation) : list RouteHeaderMatch :=
  (fun h => mkRouteHeaderMatch (ohm_Name h) (ohm_Value h) (match ohm_Type h with Some t => t | None => "Exact" end))
    <$> EffectiveHeaders op.

Definition buildRouteTimeout (opTimeout apiTimeout opIdle apiIdle : option Z) : option RouteTimeout :=
  let timeout := match opTimeout with None => apiTimeout | t => t end in
  let idle := match opIdle with None => apiIdle | t => t end in
  match timeout, idle with
  | None, None => None
  | _, _ => Some (mkRouteTimeout None timeout idle)
  end.

Definition convertAPIPolicyToSDK (p : ApiPolicy) (attachedTo resolvedVersion : string) : PolicyInstance :=
  let paramsMap := default ∅ (ap_Params p) in
  let paramsMap := if negb (String.eqb attachedTo "") then <["attachedTo" := VString attachedTo]> paramsMap else paramsMap in
  mkPolicyInstance (ap_Name p) resolvedVersion true (ap_ExecutionCondition p) paramsMap.

Definition LevelAPI : string := "api".
Definition LevelRoute : string := "route".

Definition sdkChainToModel (instances : list PolicyInstance) : list ModelPolicy :=
  (fun inst => mkModelPolicy (pi_Name inst) (pi_Version inst) (pi_Parameters inst) (pi_ExecutionCondition inst)) <$> instances.

Definition SanitizeUpstreamDefinitionName (name : string) : string := ReplaceAllByte ":" "_" (ReplaceAllByte "." "_" name).
Definition sanitizeEnvoyClusterName (host scheme : string) : string :=
  "cluster_" +:+ scheme +:+ "_" +:+ ReplaceAllByte ":" "_" (ReplaceAllByte "." "_" host).

Definition ResolvePort (u : URL) : Z :=
  let byScheme := if String.eqb (u_Scheme u) "https" then 443%Z else 80%Z in
  if negb (String.eqb (Port u) "") then match Atoi (Port u) with Some port => port | None => byScheme end else byScheme.

(** [s != nil && strings.TrimSpace( *s ) != ""]. *)
Definition isSet (s : option string) : bool :=
  match s with Some s => negb (String.eqb (TrimSpace s) "") | None => false end.

Definition lookupUpstreamDefinition (ref : string) (defs : option (list UpstreamDefinition)) : option UpstreamDefinition :=
  match defs with
  | None => None
  | Some defs => List.find (fun def => String.eqb (TrimSpace (ud_Name def)) (TrimSpace ref)) defs
  end.

Definition definitionConnectTimeout (def : option UpstreamDefinition) : string + option Z :=
  match (match def with Some def => default None (ud_Timeout def) | None => None end) with
  | None => inr None
  | Some connect =>
      let s := TrimSpace connect in
      if String.eqb s "" then inr None
      else sum_bind (orErr ("invalid connect timeout " +:+ Quote s) (ParseDuration s)) (fun d =>
           if (d <=? 0)%Z then inl ("connect timeout must be positive, got " +:+ Duration_String d) else inr (Some d))
  end.

(** The URL, and the base path of the definition for a reference. *)
Definition resolveUpstreamURL (name : string) (up : Upstream) (defs : option (list UpstreamDefinition)) : string + (string * option string) :=
  if isSet (up_Url up) then inr (TrimSpace (default "" (up_Url up)), None)
  else if isSet (up_Ref up) then
    let refName := TrimSpace (default "" (up_Ref up)) in
    match defs with
    | None => inl ("upstream definition '" +:+ refName +:+ "' referenced but no definitions provided")
    | Some defs =>
        match List.find (fun def => String.eqb (ud_Name def) refName) defs with
        | None => inl ("upstream definition '" +:+ refName +:+ "' not found")
        | Some def =>
            match ud_Upstreams def with
            | [] => inl ("upstream definition '" +:+ refName +:+ "' has no URLs")
            | t :: _ => if String.eqb (ut_Url t) "" then inl ("upstream definition '" +:+ refName +:+ "' has no URLs")
                        else inr (ut_Url t, Some (default "" (ud_BasePath def)))
            end
        end
    end
  else inl (name +:+ " upstream has no URL or ref").

Record upstreamClusterResult : Type := mkUpstreamClusterResult {
  ur_ClusterKey : string;
  ur_EnvoyClusterName : string;
  ur_ResBasePath : string;
  ur_URL : string
}.

Definition UpstreamInfoOf (r : upstreamClusterResult) : UpstreamInfo :=
  mkUpstreamInfo (ur_EnvoyClusterName r) (ur_URL r) (ur_ResBasePath r).

(** ** restapi.go: the transformer *)

(** The default hosts of the router. *)
Record RouterConfig : Type := mkRouterConfig { rc_MainDefault : string; rc_SandboxDefault : string }.

Record RestAPITransformer : Type := mkRestAPITransformer {
  tf_routerConfig : RouterConfig;
  tf_systemConfig : option SystemConfig;
  tf_policyDefinitions : PolicyDefinitions;
  tf_latestVersions : gmap string string
}.

Definition NewRestAPITransformer `{MapRange} (routerConfig : RouterConfig) (systemConfig : option SystemConfig)
    (policyDefinitions : PolicyDefinitions) : RestAPITransformer :=
  mkRestAPITransformer routerConfig systemConfig policyDefinitions (BuildLatestVersionIndex policyDefinitions).

Section Transform.
Context `{MapRange} `{UrlParser}.
Context (t : RestAPITransformer).

Definition resolveVersion (p : ApiPolicy) : string + string :=
  ResolvePolicyVersion (tf_policyDefinitions t) (Some (tf_latestVersions t)) (ap_Name p) (ap_Version p).

(** The instance of a policy attached at a level; [None] when its version
    does not resolve, which is logged and skipped. *)
Definition instanceAt (level : string) (p : ApiPolicy) : option PolicyInstance :=
  match resolveVersion p with
  | inl _ => None
  | inr resolved => Some (convertAPIPolicyToSDK p level (MajorVersion resolved))
  end.

Definition collectAPIPolicies (policies : option (list ApiPolicy)) : gmap string PolicyInstance :=
  match policies with
  | None => ∅
  | Some policies =>
      foldl (fun result p => match instanceAt LevelAPI p with
                             | Some inst => <[ap_Name p := inst]> result
                             | None => result
                             end) ∅ policies
  end.

Definition buildPolicyChain (apiPolicies : gmap string PolicyInstance) (specPolicies opPolicies : option (list ApiPolicy)) :
    list PolicyInstance :=
  (omap (fun p => apiPolicies !! ap_Name p) (default [] specPolicies) ++
   omap (instanceAt LevelRoute) (default [] opPolicies))%list.

(** The first half of [addUpstreamCluster]: the key and the names of the
    cluster of a slot, and the cluster. *)
Definition resolveCluster (upstreamName : string) (up : Upstream) (upstreamDefinitions : option (list UpstreamDefinition)) :
    string + (upstreamClusterResult * UpstreamCluster) :=
  sum_bind (resolveUpstreamURL upstreamName up upstreamDefinitions) (fun '(rawURL, refBasePath) =>
  sum_bind (orErr ("invalid " +:+ upstreamName +:+ " upstream URL") (url_Parse rawURL)) (fun parsedURL =>
  if String.eqb (u_Host parsedURL) "" || (negb (String.eqb (u_Scheme parsedURL) "http") && negb (String.eqb (u_Scheme parsedURL) "https"))
  then inl ("invalid " +:+ upstreamName +:+ " upstream URL: must include host and http/https scheme")
  else
    let port := ResolvePort parsedURL in
    let basePath := match refBasePath with Some p => p | None => u_Path parsedURL end in
    let basePath := if String.eqb basePath "" then "/" else basePath in
    sum_bind (if isSet (up_Ref up)
              then orErr (upstreamName +:+ " upstream")
                     (definitionConnectTimeout (lookupUpstreamDefinition (default "" (up_Ref up)) upstreamDefinitions))
              else inr None) (fun connectTimeout =>
    inr (mkUpstreamClusterResult ("upstream_" +:+ upstreamName +:+ "_" +:+ Hostname parsedURL +:+ "_" +:+ Itoa port)
           (sanitizeEnvoyClusterName (u_Host parsedURL) (u_Scheme parsedURL)) basePath (u_Scheme parsedURL +:+ "://" +:+ u_Host parsedURL),
         mkUpstreamCluster "" basePath [mkEndpoint (Hostname parsedURL) port None]
           (Some (String.eqb (u_Scheme parsedURL) "https")) connectTimeout)))).

Definition addUpstreamCluster (rdc : RuntimeDeployConfig) (upstreamName : string) (up : Upstream)
    (upstreamDefinitions : option (list UpstreamDefinition)) : string + (RuntimeDeployConfig * upstreamClusterResult) :=
  sum_bind (resolveCluster upstreamName up upstreamDefinitions) (fun '(result, cluster) =>
  inr (set_UpstreamClusters rdc (<[ur_ClusterKey result := cluster]> (rdc_UpstreamClusters rdc)), result)).

(** The hosts of the main upstream, and the host of the sandbox. *)
Definition mainVhostsOf (apiData : APIConfigData) : list string :=
  match acd_Vhosts apiData with
  | Some vh => match splitVhosts (vh_Main vh) with [] => [rc_MainDefault (tf_routerConfig t)] | parsed => parsed end
  | None => [rc_MainDefault (tf_routerConfig t)]
  end.

Definition sandboxVHostOf (apiData : APIConfigData) : string :=
  match acd_Vhosts apiData ≫= vh_Sandbox with
  | Some s => if negb (String.eqb (TrimSpace s) "") then s else rc_SandboxDefault (tf_routerConfig t)
  | None => rc_SandboxDefault (tf_routerConfig t)
  end.

(** The sandbox upstream, when a URL or a reference is set. *)
Definition sandboxOf (apiData : APIConfigData) : option Upstream :=
  match acd_UpstreamSandbox apiData with
  | Some up => if isSet (up_Url up) || isSet (up_Ref up) then Some up else None
  | None => None
  end.

Definition autoHostRewrite (up : Upstream) : bool :=
  match up_HostRewrite up with Some h => negb (String.eqb h Manual) | None => true end.

Definition useClusterHeaderOf (apiData : APIConfigData) : bool :=
  match acd_UpstreamDefinitions apiData with Some (_ :: _) => true | _ => bool_decide (is_Some (sandboxOf apiData)) end.

Definition routeKeyOf (apiData : APIConfigData) (op : Operation) (vhost : string) : string :=
  GenerateRouteNameWithDiscriminator (EffectiveMethod op) (acd_Context apiData) (acd_Version apiData) (EffectivePath op) vhost
    (HeaderMatchDiscriminator (routeHeaderMatches op)).

(** The upstream of a route of the slot with that cluster. *)
Definition slotUpstream (apiData : APIConfigData) (up : upstreamClusterResult) : RouteUpstream :=
  let useClusterHeader := useClusterHeaderOf apiData in
  mkRouteUpstream (ur_ClusterKey up) useClusterHeader (if useClusterHeader then ur_ClusterKey up else "") (Some (UpstreamInfoOf up)).

Definition routeOf (apiData : APIConfigData) (mainUpstream : upstreamClusterResult) (timeout : option RouteTimeout)
    (i : nat) (op : Operation) (vhost : string) : RdcRoute :=
  mkRdcRoute (EffectiveMethod op) (ConstructFullPath (acd_Context apiData) (acd_Version apiData) (EffectivePath op))
    (EffectivePath op) (EffectivePathMatchType op) (routeHeaderMatches op) vhost (autoHostRewrite (acd_UpstreamMain apiData)) timeout
    (slotUpstream apiData mainUpstream) (Z.of_nat i).

Definition chainOf (apiData : APIConfigData) (op : Operation) : list ModelPolicy :=
  sdkChainToModel (InjectSystemPolicies
    (buildPolicyChain (collectAPIPolicies (acd_Policies apiData)) (acd_Policies apiData) (op_Policies op)) (tf_systemConfig t) ∅).

(** The hosts of the routes of an operation. *)
Definition vhostsOf (apiData : APIConfigData) : list string :=
  (mainVhostsOf apiData ++ match sandboxOf apiData with Some _ => [sandboxVHostOf apiData] | None => [] end)%list.

Definition addRoute (apiData : APIConfigData) (mainUpstream : upstreamClusterResult) (timeout : option RouteTimeout) (i : nat)
    (op : Operation) (rdc : RuntimeDeployConfig) (vhost : string) : RuntimeDeployConfig :=
  let routeKey := routeKeyOf apiData op vhost in
  let rdc := set_Routes rdc (<[routeKey := routeOf apiData mainUpstream timeout i op vhost]> (rdc_Routes rdc)) in
  set_PolicyChains rdc (<[routeKey := chainOf apiData op]> (rdc_PolicyChains rdc)).

(** The loop over the operations, from the [i]-th. *)
Fixpoint addOperations (apiData : APIConfigData) (mainUpstream : upstreamClusterResult) (apiTimeout apiIdleTimeout : option Z)
    (i : nat) (ops : list Operation) (rdc : RuntimeDeployConfig) : string + RuntimeDeployConfig :=
  match ops with
  | [] => inr rdc
  | op :: ops' =>
      sum_bind (orErr ("invalid resilience for operation " +:+ EffectiveMethod op +:+ " " +:+ EffectivePath op)
                  (ResolveResilience (op_Resilience op))) (fun '(opTimeout, opIdleTimeout) =>
      let routeTimeout := buildRouteTimeout opTimeout apiTimeout opIdleTimeout apiIdleTimeout in
      addOperations apiData mainUpstream apiTimeout apiIdleTimeout (S i) ops'
        (foldl (addRoute apiData mainUpstream routeTimeout i op) rdc (vhostsOf apiData)))
  end.

(** The endpoints of a definition, whether one is [https], and whether one is
    not. *)
Fixpoint definitionEndpoints (name : string) (ups : list UpstreamTarget) : string + (list Endpoint * bool * bool) :=
  match ups with
  | [] => inr ([], false, false)
  | up :: ups' =>
      sum_bind (orErr ("invalid URL in upstream definition '" +:+ name +:+ "'") (url_Parse (ut_Url up))) (fun parsedURL =>
      sum_bind (definitionEndpoints name ups') (fun '(endpoints, tlsExists, plaintextExists) =>
      let tls := String.eqb (u_Scheme parsedURL) "https" in
      inr (mkEndpoint (Hostname parsedURL) (ResolvePort parsedURL) (ut_Weight up) :: endpoints, tls || tlsExists, negb tls || plaintextExists)))
  end.

Definition defClusterKeyOf (cfg : StoredConfig) (name : string) : string :=
  "upstream_" +:+ sc_Kind cfg +:+ "_" +:+ sc_UUID cfg +:+ "_" +:+ SanitizeUpstreamDefinitionName name.

Definition hasURL (def : UpstreamDefinition) : bool :=
  match ud_Upstreams def with up :: _ => negb (String.eqb (ut_Url up) "") | [] => false end.

(** The cluster of a definition. *)
Definition definitionCluster (def : UpstreamDefinition) : string + UpstreamCluster :=
  let basePath := match ud_BasePath def with Some p => if negb (String.eqb p "") then p else "/" | None => "/" end in
  sum_bind (orErr ("upstream definition '" +:+ ud_Name def +:+ "'") (definitionConnectTimeout (Some def))) (fun defConnectTimeout =>
  sum_bind (definitionEndpoints (ud_Name def) (ud_Upstreams def)) (fun '(endpoints, tlsExists, plaintextExists) =>
  if tlsExists && plaintextExists then
    inl ("upstream definition '" +:+ ud_Name def +:+ "' mixes https and non-https endpoints; all endpoints in a definition must use the same scheme")
  else inr (mkUpstreamCluster (ud_Name def) basePath endpoints (Some tlsExists) defConnectTimeout))).

Fixpoint addDefinitions (cfg : StoredConfig) (defs : list UpstreamDefinition) (rdc : RuntimeDeployConfig) : string + RuntimeDeployConfig :=
  match defs with
  | [] => inr rdc
  | def :: defs' =>
      if negb (hasURL def) then addDefinitions cfg defs' rdc
      else sum_bind (definitionCluster def) (fun cluster =>
           addDefinitions cfg defs' (set_UpstreamClusters rdc (<[defClusterKeyOf cfg (ud_Name def) := cluster]> (rdc_UpstreamClusters rdc))))
  end.

(** Pointing a route to the sandbox. *)
Definition patchRoute (apiData : APIConfigData) (sandbox : Upstream) (sbUpstream : upstreamClusterResult) (r : RdcRoute) : RdcRoute :=
  mkRdcRoute (rr_Method r) (rr_Path r) (rr_OperationPath r) (rr_PathMatchType r) (rr_MatchHeaders r) (rr_Vhost r)
    (autoHostRewrite sandbox) (rr_Timeout r) (slotUpstream apiData sbUpstream) (rr_Order r).

Definition patchSandbox (apiData : APIConfigData) (sandbox : Upstream) (sbUpstream : upstreamClusterResult)
    (routes : gmap string RdcRoute) (op : Operation) : gmap string RdcRoute :=
  alter (patchRoute apiData sandbox sbUpstream) (routeKeyOf apiData op (sandboxVHostOf apiData)) routes.

Definition addSandbox (apiData : APIConfigData) (rdc : RuntimeDeployConfig) : string + RuntimeDeployConfig :=
  match sandboxOf apiData with
  | None => inr rdc
  | Some sandbox =>
      sum_bind (orErr "failed to resolve sandbox upstream" (addUpstreamCluster rdc "sandbox" sandbox (acd_UpstreamDefinitions apiData)))
        (fun '(rdc, sbUpstream) =>
      inr (set_Routes rdc (foldl (patchSandbox apiData sandbox sbUpstream) (rdc_Routes rdc) (acd_Operations apiData))))
  end.

Definition initialRdc (cfg : StoredConfig) (apiData : APIConfigData) : RuntimeDeployConfig :=
  mkRuntimeDeployConfig
    (mkRdcMetadata (sc_UUID cfg) (sc_Kind cfg) (sc_Handle cfg) (acd_Version apiData) (acd_DisplayName apiData) (extractProjectID cfg) None)
    (ReplaceAll (acd_Context apiData) "$version" (acd_Version apiData)) "route-key" ∅ ∅ ∅ (sc_SensitiveValues cfg).

(** The guard against a sandbox on a main host. *)
Definition vhostConflict (apiData : APIConfigData) : bool :=
  match sandboxOf apiData with Some _ => bool_decide (sandboxVHostOf apiData ∈ mainVhostsOf apiData) | None => false end.

Definition Transform (cfg : StoredConfig) : string + RuntimeDeployConfig :=
  match sc_Configuration cfg with
  | CfgRestAPI restCfg =>
      let apiData := ra_Spec restCfg in
      sum_bind (orErr "failed to resolve main upstream"
                  (addUpstreamCluster (initialRdc cfg apiData) "main" (acd_UpstreamMain apiData) (acd_UpstreamDefinitions apiData)))
        (fun '(rdc, mainUpstream) =>
      if vhostConflict apiData then
        inl ("sandbox upstream is configured but resolves to the same vhost " +:+ Quote (sandboxVHostOf apiData) +:+
             " as a main upstream; configure distinct vhosts to avoid route conflicts")
      else
        sum_bind (orErr "invalid API-level resilience" (ResolveResilience (acd_Resilience apiData))) (fun '(apiTimeout, apiIdleTimeout) =>
        sum_bind (addOperations apiData mainUpstream apiTimeout apiIdleTimeout 0 (acd_Operations apiData) rdc) (fun rdc =>
        sum_bind (addDefinitions cfg (default [] (acd_UpstreamDefinitions apiData)) rdc) (fun rdc =>
        addSandbox apiData rdc))))
  | _ => inl "configuration is not a RestAPI"
  end.

End Transform.
