(* ===== verification/ApiValidator.v ===== *)
(** * ApiValidator: validation of REST APIs

    gateway-controller/pkg/config: api_validator.go and validator.go check an
    artifact before it is stored: names, version, context, upstreams and
    their definitions, timeouts, operations, policies, metadata.  Each check
    returns the list of its errors; an artifact with none is accepted. *)

From stdpp Require Import base gmap strings list fin_maps.
From Stdlib Require Import Ascii.
From S2P Require Import Prelude GoStrings GoDuration Version Values Routes ManagementApi PolicyVersions RestTransform.

#[local] Set Warnings "-register-all".

Open Scope string_scope.

Abbreviation err := mkValidationError.

(** [if cond { errors = append(errors, e) }]. *)
Definition errorIf (cond : bool) (field message : string) : list ValidationError := if cond then [err field message] else [].

(** ** Patterns

    On bytes: in the last position of a base path the pattern accepts any
    character but a slash, here any byte. *)

Definition is_letter (c : ascii) : bool :=
  let n := nat_of_ascii c in (((65 <=? n) && (n <=? 90)) || ((97 <=? n) && (n <=? 122)))%nat.
Definition is_alnum (c : ascii) : bool := is_letter c || is_digit c.
Definition nonEmptyAll (p : ascii -> bool) (s : string) : bool := negb (String.eqb s "") && string_all p s.

Definition upstreamDefinitionNameRegex : string -> bool := nonEmptyAll (fun c => is_alnum c || String_contains_byte c "-_").
Definition urlFriendlyNameRegex : string -> bool := nonEmptyAll (fun c => is_alnum c || String_contains_byte c "-_. ").

(** [^v?\d+(\.\d+)?(\.\d+)?$]. *)
Definition versionRegex (s : string) : bool :=
  let parts := Split "." (TrimPrefixByte "v" s) in
  (length parts <=? 3)%nat && forallb nonEmptyDigits parts.

Definition basePathByte (c : ascii) : bool := is_alnum c || String_contains_byte c "-._~!$&'()*+,;=:@%/".

(** [^/[class]*[^/]$]. *)
Definition upstreamBasePathRegex (s : string) : bool :=
  match s with
  | String "/" s' =>
      match string_rev s' with
      | String c body => negb (Ascii.eqb c "/") && string_all basePathByte body
      | EmptyString => false
      end
  | _ => false
  end.

(** The white space of the regular expressions: no vertical tab. *)
Definition is_re_space (c : ascii) : bool := is_space_byte c && negb (nat_of_ascii c =? 11)%nat.
Definition nameInvalidChar (c : ascii) : bool :=
  is_re_space c || String_contains_byte c "}/" || (nat_of_ascii c <=? 31)%nat || (nat_of_ascii c =? 127)%nat.
Definition nameInvalidCharsRegex (s : string) : bool := negb (string_all (fun c => negb (nameInvalidChar c)) s).
Definition labelKeyRegex : string -> bool := nonEmptyAll (fun c => negb (is_re_space c)).

(** [strings.Count] of one byte. *)
Fixpoint countByte (b : ascii) (s : string) : nat :=
  match s with EmptyString => 0 | String c s' => ((if Ascii.eqb b c then 1 else 0) + countByte b s')%nat end.

(** ** validator.go *)

Section Validator.
Context `{MapRange} `{UrlParser} `{JSONSchema}.

Definition ValidateLabels (labels : gmap string string) : list ValidationError :=
  concat ((fun kv => errorIf (negb (labelKeyRegex kv.1)) "metadata.labels"
    ("Label key '" +:+ kv.1 +:+ "' contains whitespace characters. Label keys must not contain any whitespace.")) <$> range labels).

Definition ValidateMetadata (metadata : ApiMetadata) : list ValidationError :=
  if String.eqb (am_Name metadata) "" then [err "metadata.name" "Metadata name is required"]
  else (errorIf (nameInvalidCharsRegex (am_Name metadata)) "metadata.name"
          "metadata.name must not contain whitespace, '/', '}', or control characters" ++
        match am_Labels metadata with Some labels => ValidateLabels labels | None => [] end)%list.

(** ** api_validator.go: upstreams *)

Definition validateUpstreamUrl (label : string) (upUrl : string) : list ValidationError :=
  let field := "spec.upstream." +:+ label +:+ ".url" in
  if String.eqb (TrimSpace upUrl) "" then [err field "Upstream URL is required"]
  else match url_Parse upUrl with
       | inl e => [err field ("Invalid URL format: " +:+ e)]
       | inr parsedURL =>
           (errorIf (negb (String.eqb (u_Scheme parsedURL) "http") && negb (String.eqb (u_Scheme parsedURL) "https")) field
              "Upstream URL must use http or https scheme" ++
            errorIf (String.eqb (u_Host parsedURL) "") field "Upstream URL must include a host")%list
       end.

Definition validateUpstreamRef (label : string) (ref : string) (upstreamDefinitions : option (list UpstreamDefinition)) : list ValidationError :=
  let field := "spec.upstream." +:+ label +:+ ".ref" in
  let refName := TrimSpace ref in
  if String.eqb refName "" then [err field "Upstream reference is required"]
  else match upstreamDefinitions with
       | None | Some [] => [err field ("Referenced upstream definition '" +:+ refName +:+ "' not found: no upstreamDefinitions provided")]
       | Some defs => errorIf (negb (existsb (fun def => String.eqb (ud_Name def) refName) defs)) field
                        ("Referenced upstream definition '" +:+ refName +:+ "' not found in upstreamDefinitions")
       end.

Definition validateUpstream (label : string) (up : option Upstream) (upstreamDefinitions : option (list UpstreamDefinition)) :
    list ValidationError :=
  match up with
  | None => []
  | Some up =>
      match up_Ref up, up_Url up with
      | Some _, Some _ => [err ("spec.upstream." +:+ label) "Specify exactly one of 'url' or 'ref'"]
      | None, None => [err ("spec.upstream." +:+ label) "Must specify either 'url' or 'ref'"]
      | None, Some u => validateUpstreamUrl label u
      | Some r, None => validateUpstreamRef label r upstreamDefinitions
      end
  end.

(** One target of a definition. *)
Definition validateTargetUrl (field : string) (targetUrl : string) : list ValidationError :=
  match url_Parse targetUrl with
  | inl e => [err field ("Invalid URL format: " +:+ e)]
  | inr parsedURL =>
      (errorIf (negb (String.eqb (u_Scheme parsedURL) "http") && negb (String.eqb (u_Scheme parsedURL) "https")) field
         "URL must use http or https scheme" ++
       errorIf (String.eqb (u_Host parsedURL) "") field "URL must include a host" ++
       errorIf (negb (String.eqb (u_Path parsedURL) "") && negb (String.eqb (u_Path parsedURL) "/")) field
         "URL must not include a path; set the base path in upstreamDefinitions[].basePath instead" ++
       errorIf (negb (String.eqb (u_RawQuery parsedURL) "") || u_ForceQuery parsedURL) field
         "URL must not include a query string; only host[:port] is used" ++
       errorIf (negb (String.eqb (u_Fragment parsedURL) "")) field "URL must not include a fragment; only host[:port] is used")%list
  end.

Definition validateTarget (prefix : string) (upstream : UpstreamTarget) : list ValidationError :=
  if String.eqb (ut_Url upstream) "" then [err (prefix +:+ ".url") "URL is required"]
  else (validateTargetUrl (prefix +:+ ".url") (ut_Url upstream) ++
        match ut_Weight upstream with
        | Some w => errorIf ((w <? 0) || (100 <? w))%Z (prefix +:+ ".weight") "Weight must be between 0 and 100"
        | None => []
        end)%list.

Definition validateConnectTimeout (field : string) (timeout : option (option string)) : list ValidationError :=
  match timeout with
  | Some (Some connect) =>
      let timeoutStr := TrimSpace connect in
      if String.eqb timeoutStr "" then []
      else if negb (ResilienceDurationRegex timeoutStr) then
        [err field "Invalid timeout format (expected a single-unit duration like '30s', '1m', '500ms')"]
      else match ParseDuration timeoutStr with
           | inl e => [err field ("Invalid timeout format: " +:+ e)]
           | inr _ => []
           end
  | _ => []
  end.

(** The body of the loop below the check for duplicates. *)
Definition validateDefinition (prefix : string) (def : UpstreamDefinition) : list ValidationError :=
  (match ud_BasePath def with
   | Some p => errorIf (negb (upstreamBasePathRegex p)) (prefix +:+ ".basePath")
                 "Invalid basePath (must start with '/' and must not end with '/'; omit for root)"
   | None => []
   end ++
   match ud_Upstreams def with [] => [err (prefix +:+ ".upstreams") "At least one upstream target is required"] | _ => [] end ++
   concat (imap (fun j upstream => validateTarget (at_index (prefix +:+ ".upstreams") j) upstream) (ud_Upstreams def)) ++
   validateConnectTimeout (prefix +:+ ".timeout.connect") (ud_Timeout def))%list.

Fixpoint validateDefinitionsFrom (fieldPrefix : string) (i : nat) (namesSeen : gset string) (defs : list UpstreamDefinition) :
    list ValidationError :=
  match defs with
  | [] => []
  | def :: defs' =>
      let prefix := at_index fieldPrefix i in
      if String.eqb (ud_Name def) "" then
        err (prefix +:+ ".name") "Upstream definition name is required" :: validateDefinitionsFrom fieldPrefix (S i) namesSeen defs'
      else
        (errorIf (100 <? String.length (ud_Name def))%nat (prefix +:+ ".name") "Upstream definition name must be 1-100 characters" ++
         errorIf (negb (upstreamDefinitionNameRegex (ud_Name def))) (prefix +:+ ".name")
           ("Upstream definition name must match ^[a-zA-Z0-9" +:+ String "092" "-_]+$ (letters, numbers, hyphens, underscores)") ++
         if decide (ud_Name def ∈ namesSeen) then
           err (prefix +:+ ".name") ("Duplicate upstream definition name '" +:+ ud_Name def +:+ "'")
             :: validateDefinitionsFrom fieldPrefix (S i) namesSeen defs'
         else validateDefinition prefix def ++ validateDefinitionsFrom fieldPrefix (S i) ({[ud_Name def]} ∪ namesSeen) defs')%list
  end.

Definition validateUpstreamDefinitionsList (fieldPrefix : string) (definitions : option (list UpstreamDefinition)) : list ValidationError :=
  match definitions with None => [] | Some defs => validateDefinitionsFrom fieldPrefix 0 ∅ defs end.

Definition upstreamRefResolves (ref : string) (definitions : option (list UpstreamDefinition)) : bool :=
  match definitions with None => false | Some defs => existsb (fun def => String.eqb (ud_Name def) (TrimSpace ref)) defs end.

(** ** api_validator.go: the other sections *)

Definition validateTimeout (field : string) (value : option string) : list ValidationError :=
  match value with
  | None => []
  | Some value =>
      let s := TrimSpace value in
      if String.eqb s "" then []
      else if negb (ResilienceDurationRegex s) then
        [err field "Invalid timeout format (expected a single-unit duration like '30s', '1m', '500ms', or '0s' to disable; compound, negative, and unitless values are not allowed)"]
      else match ParseDuration s with inl e => [err field ("Invalid timeout format: " +:+ e)] | inr _ => [] end
  end.

Definition validateResilienceTimeouts (fieldPrefix : string) (r : option Resilience) : list ValidationError :=
  match r with
  | None => []
  | Some r => (validateTimeout (fieldPrefix +:+ ".timeout") (rs_Timeout r) ++ validateTimeout (fieldPrefix +:+ ".idleTimeout") (rs_IdleTimeout r))%list
  end.

Definition ValidateContext (context : string) : list ValidationError :=
  if String.eqb context "" then [err "spec.context" "Context is required"]
  else (errorIf (negb (HasPrefix context "/")) "spec.context" "Context must start with /" ++
        errorIf (HasSuffix context "/" && negb (String.eqb context "/")) "spec.context" "Context cannot end with / (except for root context)" ++
        errorIf (200 <? String.length context)%nat "spec.context" "Context must be 1-200 characters")%list.

Definition validMethods : list string := ["GET"; "POST"; "PUT"; "DELETE"; "PATCH"; "HEAD"; "OPTIONS"].

Definition validatePathParameters (path : string) : bool := (countByte "{" path =? countByte "}" path)%nat.

Definition validateOperation (i : nat) (op : Operation) : list ValidationError :=
  let method := EffectiveMethod op in
  let path := EffectivePath op in
  let prefix := at_index "spec.operations" i in
  let '(methodField, pathField) :=
    match op_Match op with
    | Some _ => (prefix +:+ ".match.method", prefix +:+ ".match.path.value")
    | None => (prefix +:+ ".method", prefix +:+ ".path")
    end in
  ((if String.eqb method "" then [err methodField "HTTP method is required (set operation.method or operation.match.method)"]
    else errorIf (negb (bool_decide (ToUpper method ∈ validMethods))) methodField
           ("Invalid HTTP method '" +:+ method +:+ "' (must be GET, POST, PUT, DELETE, PATCH, HEAD, or OPTIONS)")) ++
   (if String.eqb path "" then [err pathField "Operation path is required (set operation.path or operation.match.path.value)"]
    else errorIf (negb (HasPrefix path "/")) pathField "Operation path must start with /" ++
         errorIf (negb (validatePathParameters path)) pathField "Operation path has unbalanced braces in parameters" ++
         validateResilienceTimeouts (prefix +:+ ".resilience") (op_Resilience op)))%list.

Definition validateOperations (operations : list Operation) : list ValidationError :=
  match operations with
  | [] => [err "spec.operations" "At least one operation is required"]
  | _ => concat (imap validateOperation operations)
  end.

Definition validateRestData (spec : APIConfigData) : list ValidationError :=
  ((if String.eqb (acd_DisplayName spec) "" then [err "spec.displayName" "API display name is required"]
    else if (100 <? String.length (acd_DisplayName spec))%nat then [err "spec.displayName" "API display name must be 1-100 characters"]
    else errorIf (negb (urlFriendlyNameRegex (acd_DisplayName spec))) "spec.displayName"
           "API display name must be URL-friendly (only letters, numbers, spaces, hyphens, underscores, and dots allowed)") ++
   (if String.eqb (acd_Version spec) "" then [err "spec.version" "API version is required"]
    else errorIf (negb (versionRegex (acd_Version spec))) "spec.version"
           "API version must follow semantic versioning pattern (e.g., v1.0, v2.1.3)") ++
   ValidateContext (acd_Context spec) ++
   validateUpstreamDefinitionsList "spec.upstreamDefinitions" (acd_UpstreamDefinitions spec) ++
   validateUpstream "main" (Some (acd_UpstreamMain spec)) (acd_UpstreamDefinitions spec) ++
   validateUpstream "sandbox" (acd_UpstreamSandbox spec) (acd_UpstreamDefinitions spec) ++
   validateResilienceTimeouts "spec.resilience" (acd_Resilience spec) ++
   validateOperations (acd_Operations spec))%list.

(** [policyValidator] is nil until it is set. *)
Definition validateRestAPIConfiguration (policyValidator : option PolicyValidator) (config : RestAPI) : list ValidationError :=
  (errorIf (negb (String.eqb (ra_Kind config) "RestApi")) "kind" "Unsupported kind (must be 'RestApi')" ++
   errorIf (negb (String.eqb (ra_ApiVersion config) "gateway.api-platform.wso2.com/v1")) "version"
     "Unsupported API version (must be 'gateway.api-platform.wso2.com/v1')" ++
   validateRestData (ra_Spec config) ++
   match policyValidator with Some pv => ValidateRestAPIPolicies pv config | None => [] end ++
   ValidateMetadata (ra_Metadata config))%list.

Definition APIValidator_Validate (policyValidator : option PolicyValidator) (config : Configuration) : list ValidationError :=
  match config with
  | CfgRestAPI cfg => validateRestAPIConfiguration policyValidator cfg
  | _ => [err "config" "Unsupported configuration type for APIValidator (expected RestAPI)"]
  end.

End Validator.
