(* ===== verification/LlmTransform.v ===== *)
(** * LlmTransform: LLM providers and proxies as REST APIs

    gateway-controller/pkg/utils: llm_transformer.go and
    policy_version_resolver.go.  An LLM provider with its access control, its
    policies per path and the resources of its template, or a proxy in front
    of providers, becomes the REST API that is deployed.  The operations under
    construction are a map from path and method, iterated in any order. *)

From stdpp Require Import base gmap strings list fin_maps.
From Stdlib Require Import Ascii.
From S2P Require Import Prelude GoStrings GoSort GoDuration Version Values Routes ManagementApi PolicyVersions ConfigStore.

#[local] Set Warnings "-register-all".

Open Scope string_scope.

(** [for key, op := range operationRegistry]: in an order that the language
    leaves open. *)
Abbreviation pathMethodKey := (string * string)%type.

Class RegistryRange := {
  rangeOps : forall {A : Type}, gmap pathMethodKey A -> list (pathMethodKey * A);
  rangeOps_perm : forall {A : Type} (m : gmap pathMethodKey A), rangeOps m ≡ₚ map_to_list m
}.

(** The instance used by concrete evaluations. *)
Definition RegistryRange_list : RegistryRange := {|
  rangeOps A m := map_to_list m;
  rangeOps_perm A m := reflexivity _
|}.

(** ** constants/constants.go *)

Definition WILDCARD_HTTP_METHODS : list string := ["GET"; "POST"; "PUT"; "PATCH"; "DELETE"; "OPTIONS"].
Definition API_KEY_AUTH_POLICY_NAME : string := "api-key-auth".
Definition UPSTREAM_AUTH_APIKEY_POLICY_NAME : string := "set-headers".
Definition PROXY_HOST__HEADER_POLICY_NAME : string := "host-rewrite".
Definition ACCESS_CONTROL_DENY_POLICY_NAME : string := "respond".

(** The YAML text of the constant, read. *)
Definition ACCESS_CONTROL_DENY_POLICY_PARAMS : Params :=
  list_to_map [("statusCode", VInt 404);
               ("body", VString ("{" +:+ Quote "message" +:+ ": " +:+ Quote "Resource not found." +:+ "}"));
               ("headers", VList [VMap [("name", VString "Content-Type"); ("value", VString "application/json")]])].

(** ** policy_version_resolver.go *)

Abbreviation PolicyVersionResolver := (gmap string string).

Definition PolicyDefinitionMissingError (policyName : string) : string := "policy definition for '" +:+ policyName +:+ "' not loaded".

Definition StaticPolicyVersionResolver_Resolve (r : option PolicyVersionResolver) (name : string) : string + string :=
  match r with
  | None => inl (PolicyDefinitionMissingError name)
  | Some versions => match versions !! name with Some version => inr version | None => inl (PolicyDefinitionMissingError name) end
  end.

Definition NewLoadedPolicyVersionResolver `{MapRange} (policyDefinitions : PolicyDefinitions) : PolicyVersionResolver :=
  MajorVersion <$>
  foldl (fun versions kv =>
      match versions !! ld_Name kv.2 with
      | Some existing => if (0 <? CompareSemver (ld_Version kv.2) existing)%Z then <[ld_Name kv.2 := ld_Version kv.2]> versions else versions
      | None => <[ld_Name kv.2 := ld_Version kv.2]> versions
      end) (∅ : gmap string string) (range policyDefinitions).

(** ** Paths *)

Definition hasWildcard (path : string) : bool := String_contains_byte "*" path.

(** [path[:strings.LastIndex(path, wildcard)]], if it has one. *)
Definition starPrefix (path : string) : option string := fst <$> split_last "*" path.

Definition coveredByWildcard (path pattern : string) : bool :=
  match starPrefix pattern with Some prefix => HasPrefix path prefix | None => false end.

Definition pathsMatch (opPath policyPath : string) : bool :=
  String.eqb policyPath "/*" || String.eqb opPath policyPath || coveredByWildcard opPath policyPath.

Definition shouldPreferTemplateResourceMapping (candidatePath selectedPath : string) : bool :=
  if negb (hasWildcard candidatePath) && hasWildcard selectedPath then true
  else if hasWildcard candidatePath && negb (hasWildcard selectedPath) then false
  else (String.length selectedPath <? String.length candidatePath)%nat.

Definition shouldAttachPathBefore (leftPath rightPath : string) : bool :=
  if negb (Bool.eqb (hasWildcard leftPath) (hasWildcard rightPath)) then hasWildcard leftPath
  else if negb (String.length leftPath =? String.length rightPath)%nat then (String.length leftPath <? String.length rightPath)%nat
  else string_less leftPath rightPath.

Definition isMoreSpecificPath (a b : string) : bool :=
  if negb (Bool.eqb (hasWildcard a) (hasWildcard b)) then negb (hasWildcard a) else (String.length b <? String.length a)%nat.

(** ** Templates *)

Definition setExtractionParam (key : string) (identifier : option ExtractionIdentifier) (templateParams : Params) : Params :=
  match identifier with
  | None => templateParams
  | Some i => <[key := VMap [("location", VString (ei_Location i)); ("identifier", VString (ei_Identifier i))]]> templateParams
  end.

Definition applyExtractionFields (e : ExtractionFields) (templateParams : Params) : Params :=
  setExtractionParam "remainingTokens" (ef_RemainingTokens e)
    (setExtractionParam "totalTokens" (ef_TotalTokens e)
      (setExtractionParam "completionTokens" (ef_CompletionTokens e)
        (setExtractionParam "promptTokens" (ef_PromptTokens e)
          (setExtractionParam "responseModel" (ef_ResponseModel e)
            (setExtractionParam "requestModel" (ef_RequestModel e) templateParams))))).

(** [mappings] are the resources of the template, if it has any. *)
Definition selectTemplateResourceMapping (mappings : list LLMProviderTemplateResourceMapping) (resourcePath : string) :
    option LLMProviderTemplateResourceMapping :=
  foldl (fun selected candidate =>
      if negb (pathsMatch resourcePath (trm_Resource candidate)) then selected
      else match selected with
           | None => Some candidate
           | Some s => if shouldPreferTemplateResourceMapping (trm_Resource candidate) (trm_Resource s) then Some candidate else selected
           end) None mappings.

(** The resources of a template: the two pointers on the way may be nil. *)
Definition resourcesOf (spec : LLMProviderTemplateData) : list LLMProviderTemplateResourceMapping :=
  match ltd_ResourceMappings spec with Some (Some l) => l | _ => [] end.

Definition buildTemplateParams (spec : LLMProviderTemplateData) (resourcePath : string) : Params :=
  let templateParams := applyExtractionFields (ltd_Extraction spec) ∅ in
  match selectTemplateResourceMapping (resourcesOf spec) resourcePath with
  | Some mapping => applyExtractionFields (trm_Extraction mapping) templateParams
  | None => templateParams
  end.

Definition mergeParams (base extra : Params) : Params := extra ∪ base.

(** The loop over the resources carries the paths already seen. *)
Definition expandStep (mappings : list LLMProviderTemplateResourceMapping) (opPath : string)
    (acc : gset string * list string) (m : LLMProviderTemplateResourceMapping) : gset string * list string :=
  if negb (pathsMatch (trm_Resource m) opPath) then acc
  else match selectTemplateResourceMapping mappings (trm_Resource m) with
       | None => acc
       | Some selected =>
           let selectedPath := trm_Resource selected in
           if negb (pathsMatch selectedPath opPath) || bool_decide (selectedPath ∈ acc.1) then acc
           else ({[selectedPath]} ∪ acc.1, (acc.2 ++ [selectedPath])%list)
       end.

Definition expandPolicyTargetPaths (opPath : string) (templateSpec : LLMProviderTemplateData) : list string :=
  if negb (hasWildcard opPath) then [opPath]
  else
    let mappings := resourcesOf templateSpec in
    match (foldl (expandStep mappings opPath) ({[opPath]}, []) mappings).2 with
    | [] => [opPath]
    | expanded => (expanded ++ [opPath])%list
    end.

(** ** Policies per path *)

Definition legacyToOperationPolicy (p : LLMPolicy) : OperationPolicy :=
  mkOperationPolicy None (llp_Name p)
    ((fun pe => mkOperationPolicyPath (lpp_Methods pe) (lpp_Params pe) (lpp_Path pe)) <$> llp_Paths p) (llp_Version p).

Definition collectOperationLevelLLMPolicies (operationPolicies : option (list OperationPolicy)) (deprecated : option (list LLMPolicy)) :
    list OperationPolicy :=
  (default [] operationPolicies ++ (legacyToOperationPolicy <$> default [] deprecated))%list.

Definition expandLLMPolicyMethods (methods : list string) : list string :=
  match methods with
  | [m] => if String.eqb m "*" then WILDCARD_HTTP_METHODS else [m]
  | _ => methods
  end.

Record llmPolicyAttachment : Type := mkAttachment { at_policy : OperationPolicy; at_pathEntry : OperationPolicyPath }.

Definition orderedLLMPolicyAttachments (policies : list OperationPolicy) : list llmPolicyAttachment :=
  stableSort (fun a b => shouldAttachPathBefore (opp_Path (at_pathEntry a)) (opp_Path (at_pathEntry b)))
    (concat ((fun llmPol => mkAttachment llmPol <$> lop_Paths llmPol) <$> policies)).

Definition methodSet (methods : list string) : gset string := list_to_set (expandLLMPolicyMethods methods).

Definition isStrictMethodSubset (a b : list string) : bool :=
  if decide (size (methodSet a) = 0) then false
  else if decide (size (methodSet b) <= size (methodSet a)) then false
  else bool_decide (methodSet a ⊆ methodSet b).

Definition isMoreSpecificAttachment (a b : OperationPolicyPath) : bool :=
  if isMoreSpecificPath (opp_Path a) (opp_Path b) then true
  else if isMoreSpecificPath (opp_Path b) (opp_Path a) then false
  else isStrictMethodSubset (opp_Methods a) (opp_Methods b).

Definition methodsInclude (methods : list string) (method : string) : bool := bool_decide (method ∈ methods).

Definition moreSpecificPolicyAttachmentCovers (targetPath method : string) (current : llmPolicyAttachment) : bool :=
  existsb (fun other => pathsMatch targetPath (opp_Path other) && methodsInclude (expandLLMPolicyMethods (opp_Methods other)) method
                        && isMoreSpecificAttachment other (at_pathEntry current)) (lop_Paths (at_policy current)).

(** ** The operations under construction

    The registry is the only holder of its operations, whose path and method
    are the key they are registered under. *)

Abbreviation OperationRegistry := (gmap pathMethodKey Operation).

Definition newOperation (path method : string) : Operation := mkOperation None (Some method) (Some path) None None.

Definition appendOperationPolicy (pol : ApiPolicy) (op : Operation) : Operation :=
  mkOperation (op_Match op) (op_Method op) (op_Path op) (Some (default [] (op_Policies op) ++ [pol])%list) (op_Resilience op).

Definition ensureOperation (path method : string) (operationRegistry : OperationRegistry) : OperationRegistry :=
  match operationRegistry !! (path, method) with
  | Some _ => operationRegistry
  | None => <[(path, method) := newOperation path method]> operationRegistry
  end.

(** The loops over the policies, their paths and the methods of each. *)
Definition explicitKeys (policies : list OperationPolicy) : list pathMethodKey :=
  concat ((fun llmPol => concat ((fun pathEntry => (opp_Path pathEntry,.) <$> expandLLMPolicyMethods (opp_Methods pathEntry)) <$> lop_Paths llmPol))
          <$> policies).

Definition registerExplicitLLMPolicyOperations (policies : list OperationPolicy) (shouldRegister : string -> string -> bool)
    (operationRegistry : OperationRegistry) : OperationRegistry :=
  foldl (fun reg k => if shouldRegister k.1 k.2 then ensureOperation k.1 k.2 reg else reg) operationRegistry (explicitKeys policies).

(** *** Access control *)

(** The loop over the set finds a covering key or not, whatever its order. *)
Definition coversKey (path method : string) (keys : gset pathMethodKey) : bool :=
  existsb (fun k => String.eqb k.2 method && coveredByWildcard path k.1) (elements keys).

Definition isDeniedByException (policyPath policyMethod : string) (deniedPathMethods : gset pathMethodKey) : bool :=
  bool_decide ((policyPath, policyMethod) ∈ deniedPathMethods) || coversKey policyPath policyMethod deniedPathMethods.

Definition isAllowedByAccessControl (policyPath policyMethod : string) (normalizedExceptions : gset pathMethodKey) : bool :=
  existsb (fun k => String.eqb k.2 policyMethod && (String.eqb k.1 policyPath || coveredByWildcard policyPath k.1)) (elements normalizedExceptions).

Definition hasDenyPolicy (op : Operation) (denyPolicyVersion : string) : bool :=
  match op_Policies op with
  | None => false
  | Some pols =>
      if String.eqb denyPolicyVersion "" then false
      else existsb (fun pol => String.eqb (ap_Name pol) ACCESS_CONTROL_DENY_POLICY_NAME && String.eqb (ap_Version pol) denyPolicyVersion) pols
  end.

Definition denyAppliesToTarget (targetPath policyMethod denyPolicyVersion : string) (operationRegistry : OperationRegistry) : bool :=
  if String.eqb denyPolicyVersion "" then false
  else existsb (fun kop => String.eqb kop.1.2 policyMethod && hasDenyPolicy kop.2 denyPolicyVersion && pathsMatch targetPath kop.1.1)
         (map_to_list operationRegistry).

(** *** Attaching the policies

    The loop is written three times: for a provider that allows all, with
    the checks for denied operations, and for a provider that denies all and
    for a proxy, where there are no such operations: there the version of the
    deny policy is empty and the set of denied keys too, and the checks do
    nothing. *)

Section Attach.
Context `{RegistryRange}.
Variable templateSpec : LLMProviderTemplateData.
Variable denyPolicyVersion : string.
Variable deniedPathMethods : gset pathMethodKey.

(** The policy of an attachment on a path. *)
Definition attachedPolicy (attachment : llmPolicyAttachment) (targetPath : string) : ApiPolicy :=
  mkApiPolicy (lop_ExecutionCondition (at_policy attachment)) (lop_Name (at_policy attachment))
    (Some (mergeParams (opp_Params (at_pathEntry attachment)) (buildTemplateParams templateSpec targetPath))) (lop_Version (at_policy attachment)).

(** The state of the innermost loop: the registry and the paths that have
    the policy already. *)
Definition attachTarget (attachment : llmPolicyAttachment) (policyMethod : string) (st : OperationRegistry * gset string) (targetPath : string) :
    OperationRegistry * gset string :=
  let '(reg, attachedPolicyPaths) := st in
  if bool_decide (targetPath ∈ attachedPolicyPaths) then st
  else if moreSpecificPolicyAttachmentCovers targetPath policyMethod attachment then st
  else
    let reg := ensureOperation targetPath policyMethod reg in
    if denyAppliesToTarget targetPath policyMethod denyPolicyVersion reg then (reg, attachedPolicyPaths)
    else (alter (appendOperationPolicy (attachedPolicy attachment targetPath)) (targetPath, policyMethod) reg,
          {[targetPath]} ∪ attachedPolicyPaths).

(** One operation of the method, read when the loop reaches it. *)
Definition attachOperation (attachment : llmPolicyAttachment) (policyMethod : string) (st : OperationRegistry * gset string) (opPath : string) :
    OperationRegistry * gset string :=
  match st.1 !! (opPath, policyMethod) with
  | None => st
  | Some op =>
      if negb (String.eqb denyPolicyVersion "") && hasDenyPolicy op denyPolicyVersion then st
      else if pathsMatch opPath (opp_Path (at_pathEntry attachment))
      then foldl (attachTarget attachment policyMethod) st (expandPolicyTargetPaths opPath templateSpec)
      else st
  end.

(** [getOperationsForMethod]: the paths of the operations. *)
Definition getOperationsForMethod (operationRegistry : OperationRegistry) (method : string) : list string :=
  (fun kop => kop.1.1) <$> filter (fun kop => kop.1.2 = method) (rangeOps operationRegistry).

Definition attachMethod (attachment : llmPolicyAttachment) (reg : OperationRegistry) (policyMethod : string) : OperationRegistry :=
  if isDeniedByException (opp_Path (at_pathEntry attachment)) policyMethod deniedPathMethods then reg
  else (foldl (attachOperation attachment policyMethod) (reg, ∅) (getOperationsForMethod reg policyMethod)).1.

Definition attachOne (reg : OperationRegistry) (attachment : llmPolicyAttachment) : OperationRegistry :=
  foldl (attachMethod attachment) reg (expandLLMPolicyMethods (opp_Methods (at_pathEntry attachment))).

Definition attachPolicies (opLevelPolicies : list OperationPolicy) (shouldRegister : string -> string -> bool) (reg : OperationRegistry) :
    OperationRegistry :=
  foldl attachOne (registerExplicitLLMPolicyOperations opLevelPolicies shouldRegister reg) (orderedLLMPolicyAttachments opLevelPolicies).

End Attach.

(** ** Ordering *)

Definition shouldSwap (op1 op2 : Operation) : bool :=
  let p1 := EffectivePath op1 in
  let p2 := EffectivePath op2 in
  if negb (hasWildcard p1) && hasWildcard p2 then false
  else if hasWildcard p1 && negb (hasWildcard p2) then true
  else if negb (String.length p1 =? String.length p2)%nat then (String.length p1 <? String.length p2)%nat
  else if negb (String.eqb p1 p2) then string_less p2 p1
  else string_less (EffectiveMethod op2) (EffectiveMethod op1).

(** The inner loop: [x] is the element at [i], [l] those from [j] on. *)
Fixpoint swapPass (x : Operation) (l : list Operation) : Operation * list Operation :=
  match l with
  | [] => (x, [])
  | y :: l' => if shouldSwap x y then let '(x', r) := swapPass y l' in (x', x :: r) else let '(x', r) := swapPass x l' in (x', y :: r)
  end.

(** The outer loop; [n] is the length. *)
Fixpoint exchangeSort (n : nat) (l : list Operation) : list Operation :=
  match n, l with
  | S n', x :: l' => let '(x', r) := swapPass x l' in x' :: exchangeSort n' r
  | _, _ => l
  end.

Definition sortOperationsBySpecificity (ops : list Operation) : list Operation := exchangeSort (length ops) ops.

(** ** Finishing *)

Definition set_Resilience (r : option Resilience) (op : Operation) : Operation :=
  mkOperation (op_Match op) (op_Method op) (op_Path op) (op_Policies op) r.

Definition applyResilienceToTrafficRoutes (resilience : option Resilience) (denyKeys : gset pathMethodKey) (ops : list Operation) : list Operation :=
  match resilience with
  | None => ops
  | Some _ => (fun op => if bool_decide ((EffectivePath op, EffectiveMethod op) ∈ denyKeys) then op else set_Resilience resilience op) <$> ops
  end.

Definition GetUpstreamAuthApikeyPolicyParams (header value : string) : Params :=
  {["request" := VMap [("headers", VList [VMap [("name", VString header); ("value", VString value)]])]]}.

Definition GetHostAdditionPolicyParams (value : string) : Params := {["host" := VString value]}.

(** The first api-key policy with a prefix that is a string. *)
Fixpoint valuePrefixOf (policies : list ApiPolicy) : string :=
  match policies with
  | [] => ""
  | p :: ps =>
      if negb (String.eqb (ap_Name p) API_KEY_AUTH_POLICY_NAME) then valuePrefixOf ps
      else match ap_Params p with
           | None => valuePrefixOf ps
           | Some params => match params !! "valuePrefix" with Some (VString v) => TrimSpace v | _ => valuePrefixOf ps end
           end
  end.
Definition apiKeyAuthValuePrefix (globalPolicies : option (list ApiPolicy)) : string := valuePrefixOf (default [] globalPolicies).

Definition selectedProviderExecutionCondition (providerName : string) (includeDefault : bool) : string :=
  let selectedExpr := "request.Metadata['selected_provider'] == '" +:+ providerName +:+ "'" in
  if includeDefault then "!('selected_provider' in request.Metadata) || " +:+ selectedExpr
  else "'selected_provider' in request.Metadata && " +:+ selectedExpr.

(** The policies of the API level, with the global ones after them. *)
Definition withGlobalPolicies (policies globalPolicies : option (list ApiPolicy)) : option (list ApiPolicy) :=
  match globalPolicies with
  | None | Some [] => policies
  | Some gp => Some (default [] policies ++ gp)%list
  end.

(** ** The transformer

    The storage is an interface; a template that is not there is an error. *)
Record LLMStorage : Type := mkLLMStorage {
  db_GetConfigByKindAndHandle : string -> string -> string + option StoredConfig;
  db_GetLLMProviderTemplateByHandle : string -> string + StoredLLMProviderTemplate
}.

(** [lpt_ListenerPort] is the field of the router configuration it reads. *)
Record LLMProviderTransformer : Type := mkLLMProviderTransformer {
  lpt_db : LLMStorage;
  lpt_ListenerPort : Z;
  lpt_policyVersionResolver : option PolicyVersionResolver
}.

Section Transformer.
Context `{MapRange} `{RegistryRange}.
Variable t : LLMProviderTransformer.

Definition llm_resolvePolicyVersion (name : string) : string + string := StaticPolicyVersionResolver_Resolve (lpt_policyVersionResolver t) name.
Definition getTemplateByHandle (handle : string) : string + StoredLLMProviderTemplate := db_GetLLMProviderTemplateByHandle (lpt_db t) handle.

(** *** Providers *)

(** The catch-all operations. *)
Definition baseRegistry : OperationRegistry :=
  foldl (fun reg method => <[("/*", method) := newOperation "/*" method]> reg) ∅ WILDCARD_HTTP_METHODS.

Definition exceptionKeys (exceptions : list RouteException) : list pathMethodKey :=
  concat ((fun ex => (rx_Path ex,.) <$> expandLLMPolicyMethods (rx_Methods ex)) <$> exceptions).

Definition denyPolicy (denyPolicyVersion : string) : ApiPolicy :=
  mkApiPolicy None ACCESS_CONTROL_DENY_POLICY_NAME (Some ACCESS_CONTROL_DENY_POLICY_PARAMS) denyPolicyVersion.

Definition denyOperation (denyPolicyVersion : string) (reg : OperationRegistry) (key : pathMethodKey) : OperationRegistry :=
  alter (appendOperationPolicy (denyPolicy denyPolicyVersion)) key (ensureOperation key.1 key.2 reg).

Definition allowAllRegistry (templateSpec : LLMProviderTemplateData) (denyPolicyVersion : string) (exceptions : list RouteException)
    (opLevelPolicies : list OperationPolicy) : OperationRegistry :=
  let denied : gset pathMethodKey := list_to_set (exceptionKeys exceptions) in
  attachPolicies templateSpec denyPolicyVersion denied opLevelPolicies (fun path method => negb (isDeniedByException path method denied))
    (foldl (denyOperation denyPolicyVersion) baseRegistry (exceptionKeys exceptions)).

Definition denyAllRegistry (templateSpec : LLMProviderTemplateData) (exceptions : list RouteException)
    (opLevelPolicies : list OperationPolicy) : OperationRegistry :=
  let normalizedExceptions : gset pathMethodKey := list_to_set (exceptionKeys exceptions) in
  attachPolicies templateSpec "" ∅ opLevelPolicies (fun path method => isAllowedByAccessControl path method normalizedExceptions)
    (set_to_map (fun key => (key, newOperation key.1 key.2)) normalizedExceptions).

Definition operationsOf (reg : OperationRegistry) : list Operation := (rangeOps reg).*2.

Definition isApiKeyAuth (authType : string) : bool := String.eqb authType "api-key".
Definition isNoGatewayAuth (authType : string) : bool := String.eqb authType "other" || String.eqb authType "none".

(** The upstream authentication of a provider: header and value are
    dereferenced without a check. *)
Definition providerAuthPolicy (auth : option LLMUpstreamAuth) : GoM unit (option ApiPolicy) :=
  match auth with
  | None => mret None
  | Some a =>
      if isApiKeyAuth (lua_Type a) then
        match lua_Header a, lua_Value a with
        | Some header, Some value =>
            policyVersion ← lift_err (llm_resolvePolicyVersion UPSTREAM_AUTH_APIKEY_POLICY_NAME);
            mret (Some (mkApiPolicy None UPSTREAM_AUTH_APIKEY_POLICY_NAME (Some (GetUpstreamAuthApikeyPolicyParams header value)) policyVersion))
        | _, _ => panic
        end
      else if isNoGatewayAuth (lua_Type a) then mret None
      else fail ("unsupported upstream auth type: " +:+ lua_Type a)
  end.

(** The operations of a provider, and the keys of those that only deny. *)
Definition providerOperations (provider : LLMProviderConfiguration) (templateSpec : LLMProviderTemplateData) :
    GoM unit (list Operation * gset pathMethodKey) :=
  let mode := lac_Mode (lp_AccessControl provider) in
  let exceptions := default [] (lac_Exceptions (lp_AccessControl provider)) in
  let opLevelPolicies := collectOperationLevelLLMPolicies (lp_OperationPolicies provider) (lp_Policies provider) in
  if String.eqb mode "allow_all" then
    denyPolicyVersion ← match exceptions with [] => mret "" | _ => lift_err (llm_resolvePolicyVersion ACCESS_CONTROL_DENY_POLICY_NAME) end;
    mret (operationsOf (allowAllRegistry templateSpec denyPolicyVersion exceptions opLevelPolicies), list_to_set (exceptionKeys exceptions))
  else if String.eqb mode "deny_all" then mret (operationsOf (denyAllRegistry templateSpec exceptions opLevelPolicies), ∅)
  else fail ("unsupported access control mode: " +:+ mode).

Definition RestAPI_ApiVersion : string := "gateway.api-platform.wso2.com/v1".

(** A reference that is not blank takes precedence over the URL. *)
Definition providerUpstream (u : LLMProviderUpstream) : Upstream :=
  match lpu_Ref u with
  | Some ref => if negb (String.eqb (TrimSpace ref) "") then mkUpstream None (Some ref) None else mkUpstream None None (lpu_Url u)
  | None => mkUpstream None None (lpu_Url u)
  end.

Definition transformProvider (provider : LLMProviderConfiguration) : GoM unit RestAPI :=
  tmpl ← lift_err (orErr ("failed to retrieve template '" +:+ lp_Template provider +:+ "'") (getTemplateByHandle (lp_Template provider)));
  upstreamAuthPolicy ← providerAuthPolicy (lpu_Auth (lp_Upstream provider));
  '(ops, denyOpKeys) ← providerOperations provider (st_Spec tmpl);
  let ops := sortOperationsBySpecificity ops in
  let ops := match upstreamAuthPolicy with Some pol => appendOperationPolicy pol <$> ops | None => ops end in
  let ops := applyResilienceToTrafficRoutes (lp_Resilience provider) denyOpKeys ops in
  mret (mkRestAPI RestAPI_ApiVersion "RestApi" (lp_Metadata provider)
    (mkAPIConfigData (default "/" (lp_Context provider)) (lp_DisplayName provider) ops (withGlobalPolicies None (lp_GlobalPolicies provider)) None
       (providerUpstream (lp_Upstream provider)) None (lp_UpstreamDefinitions provider) (lp_Version provider)
       ((fun v => mkVhosts v None) <$> lp_Vhost provider) None)).

(** *** Proxies *)

Definition loopbackURL (ctx : string) : string := "http://127.0.0.1:" +:+ Itoa (lpt_ListenerPort t) +:+ ctx.

Definition providerNameOf (ap : LLMProxyAdditionalProvider) : string :=
  match lap_As ap with Some s => if negb (String.eqb s "") then s else lap_Id ap | None => lap_Id ap end.

Definition prefixOfConfig (cfg : StoredConfig) : option string :=
  match sc_SourceConfiguration cfg with CfgLLMProvider p => Some (apiKeyAuthValuePrefix (lp_GlobalPolicies p)) | _ => None end.

(** The definitions of the additional providers, and the prefixes of their
    keys. *)
Fixpoint additionalDefinitions (seen : gset string) (prefixes : gmap string string) (aps : list LLMProxyAdditionalProvider) :
    string + (list UpstreamDefinition * gmap string string) :=
  match aps with
  | [] => inr ([], prefixes)
  | ap :: aps' =>
      if String.eqb (lap_Id ap) "" then inl "additionalProviders entry must have a non-empty id"
      else
        let name := providerNameOf ap in
        if bool_decide (name ∈ seen) then
          inl ("duplicate upstream name '" +:+ name +:+
               "' in additionalProviders (must be unique within the proxy and not collide with the primary provider id)")
        else
          sum_bind (orErr ("failed to look up additional provider '" +:+ lap_Id ap +:+ "'")
                      (db_GetConfigByKindAndHandle (lpt_db t) "LlmProvider" (lap_Id ap))) (fun addCfg =>
          match addCfg with
          | None => inl ("additional provider '" +:+ lap_Id ap +:+ "' not found")
          | Some addCfg =>
              sum_bind (orErr ("failed to get context for additional provider '" +:+ lap_Id ap +:+ "'") (GetContext addCfg)) (fun addCtx =>
              let prefixes := match prefixOfConfig addCfg with Some p => <[lap_Id ap := p]> prefixes | None => prefixes end in
              sum_bind (additionalDefinitions ({[name]} ∪ seen) prefixes aps') (fun r =>
              inr (mkUpstreamDefinition None name None [mkUpstreamTarget (loopbackURL addCtx) None] :: r.1, r.2)))
          end)
  end.

Definition proxyUpstreamAuthPolicy (auth : option LLMUpstreamAuth) (valuePrefix field : string) : string + option ApiPolicy :=
  match auth with
  | None => inr None
  | Some a =>
      if isApiKeyAuth (lua_Type a) then
        match lua_Header a with
        | None | Some "" => inl (field +:+ ".header is required")
        | Some header =>
            match lua_Value a with
            | None | Some "" => inl (field +:+ ".value is required")
            | Some v =>
                let value := if negb (String.eqb valuePrefix "") then valuePrefix +:+ " " +:+ v else v in
                sum_bind (llm_resolvePolicyVersion UPSTREAM_AUTH_APIKEY_POLICY_NAME) (fun policyVersion =>
                inr (Some (mkApiPolicy None UPSTREAM_AUTH_APIKEY_POLICY_NAME (Some (GetUpstreamAuthApikeyPolicyParams header value)) policyVersion)))
            end
        end
      else if isNoGatewayAuth (lua_Type a) then inr None
      else inl ("unsupported upstream auth type: " +:+ lua_Type a)
  end.

Definition proxyTransformerPolicy (transformer : LLMProxyTransformer) (name field : string) : string + ApiPolicy :=
  if String.eqb (lxt_Type transformer) "" then inl (field +:+ ".type is required")
  else if String.eqb (lxt_Version transformer) "" then inl (field +:+ ".version is required")
  else inr (mkApiPolicy (Some (selectedProviderExecutionCondition name false)) (lxt_Type transformer)
              (Some (<["providerId" := VString name]> (default ∅ (lxt_Params transformer)))) (lxt_Version transformer)).

Definition set_ExecutionCondition (c : string) (p : ApiPolicy) : ApiPolicy := mkApiPolicy (Some c) (ap_Name p) (ap_Params p) (ap_Version p).

(** An authentication policy that runs when its provider is selected. *)
Definition conditionalAuth (auth : option LLMUpstreamAuth) (valuePrefix field name : string) (includeDefault : bool) : string + list ApiPolicy :=
  sum_bind (proxyUpstreamAuthPolicy auth valuePrefix field) (fun pol =>
  inr (match pol with Some p => [set_ExecutionCondition (selectedProviderExecutionCondition name includeDefault) p] | None => [] end)).

(** The authentication and translation policies of the additional
    providers. *)
Fixpoint additionalPolicies (prefixes : gmap string string) (aps : list LLMProxyAdditionalProvider) : string + (list ApiPolicy * list ApiPolicy) :=
  match aps with
  | [] => inr ([], [])
  | ap :: aps' =>
      let name := providerNameOf ap in
      sum_bind (conditionalAuth (lap_Auth ap) (default "" (prefixes !! lap_Id ap)) ("additionalProviders[" +:+ name +:+ "].auth") name false) (fun auths =>
      sum_bind (match lap_Transformer ap with
                | Some tr => sum_bind (proxyTransformerPolicy tr name ("additionalProviders[" +:+ name +:+ "].transformer")) (fun p => inr [p])
                | None => inr []
                end) (fun trs =>
      sum_bind (additionalPolicies prefixes aps') (fun r => inr ((auths ++ r.1)%list, (trs ++ r.2)%list))))
  end.

(** The host of the provider, set at the level of the API. *)
Definition hostPolicies (vhost : option string) : string + (option (list ApiPolicy) * option string) :=
  match vhost with
  | None | Some "" => inr (None, None)
  | Some providerVhost =>
      sum_bind (llm_resolvePolicyVersion PROXY_HOST__HEADER_POLICY_NAME) (fun policyVersion =>
      inr (Some [mkApiPolicy None PROXY_HOST__HEADER_POLICY_NAME (Some (GetHostAdditionPolicyParams providerVhost)) policyVersion], Some Manual))
  end.

Definition proxyRegistry (templateSpec : LLMProviderTemplateData) (opLevelPolicies : list OperationPolicy) : OperationRegistry :=
  attachPolicies templateSpec "" ∅ opLevelPolicies (fun _ _ => true) baseRegistry.

Definition transformProxy (proxy : LLMProxyConfiguration) : string + RestAPI :=
  let id := lxp_Id (lx_Provider proxy) in
  sum_bind (orErr ("failed to look up provider '" +:+ id +:+ "'") (db_GetConfigByKindAndHandle (lpt_db t) "LlmProvider" id)) (fun provider =>
  match provider with
  | None => inl ("failed to retrieve provider by id '" +:+ id +:+ "'")
  | Some provider =>
      match sc_SourceConfiguration provider with
      | CfgLLMProvider providerConfig =>
          sum_bind (orErr ("failed to retrieve template '" +:+ lp_Template providerConfig +:+ "' from provider")
                      (getTemplateByHandle (lp_Template providerConfig))) (fun tmpl =>
          sum_bind (orErr "failed to get provider context" (GetContext provider)) (fun providerContext =>
          let aps := default [] (lx_AdditionalProviders proxy) in
          sum_bind (additionalDefinitions {[id]} ∅ aps) (fun '(defs, prefixes) =>
          sum_bind (hostPolicies (lp_Vhost providerConfig)) (fun '(policies, hostRewrite) =>
          sum_bind (conditionalAuth (lxp_Auth (lx_Provider proxy)) (apiKeyAuthValuePrefix (lp_GlobalPolicies providerConfig)) "provider.auth" id true)
            (fun auths =>
          sum_bind (additionalPolicies prefixes aps) (fun '(moreAuths, transformers) =>
          let opLevelPolicies := collectOperationLevelLLMPolicies (lx_OperationPolicies proxy) (lx_Policies proxy) in
          let ops := sortOperationsBySpecificity (operationsOf (proxyRegistry (st_Spec tmpl) opLevelPolicies)) in
          let appendAll pols op := foldl (fun op pol => appendOperationPolicy pol op) op pols in
          let ops := appendAll transformers <$> ops in
          let ops := appendAll (auths ++ moreAuths)%list <$> ops in
          let ops := applyResilienceToTrafficRoutes (lx_Resilience proxy) ∅ ops in
          inr (mkRestAPI RestAPI_ApiVersion "RestApi" (lx_Metadata proxy)
                 (mkAPIConfigData (default "/" (lx_Context proxy)) (lx_DisplayName proxy) ops (withGlobalPolicies policies (lx_GlobalPolicies proxy)) None
                    (mkUpstream hostRewrite None (Some (loopbackURL providerContext))) None
                    (match aps with [] => None | _ => Some defs end) (lx_Version proxy) ((fun v => mkVhosts v None) <$> lx_Vhost proxy) None))))))))
      | _ => inl "provider source configuration is not LLMProviderConfiguration"
      end
  end).

Definition LLMProviderTransformer_Transform (input : Configuration) : GoM unit RestAPI :=
  match input with
  | CfgLLMProvider provider => transformProvider provider
  | CfgLLMProxy proxy => lift_err (transformProxy proxy)
  | _ => fail "invalid input type: expected *api.LLMProviderConfiguration or *api.LLMProxyConfiguration"
  end.

End Transformer.

(** [HydrateLLMConfig], of a configuration that is not nil. *)
Definition set_Configuration (cfg : StoredConfig) (c : Configuration) : StoredConfig :=
  mkStoredConfig (sc_UUID cfg) (sc_Kind cfg) (sc_Handle cfg) (sc_DisplayName cfg) (sc_Version cfg) c (sc_SourceConfiguration cfg) (sc_SensitiveValues cfg).

Definition HydrateLLMConfig `{MapRange} `{RegistryRange} (db : LLMStorage) (listenerPort : Z) (policyDefinitions : PolicyDefinitions) :
    GoM StoredConfig unit := fun cfg =>
  match sc_Configuration cfg with
  | CfgRestAPI _ => Ok cfg tt
  | _ =>
      let transformer := mkLLMProviderTransformer db listenerPort (Some (NewLoadedPolicyVersionResolver policyDefinitions)) in
      match sc_SourceConfiguration cfg with
      | CfgLLMProvider _ | CfgLLMProxy _ =>
          match LLMProviderTransformer_Transform transformer (sc_SourceConfiguration cfg) tt with
          | Ok _ restAPI => Ok (set_Configuration cfg (CfgRestAPI restAPI)) tt
          | Err _ e => Err cfg e
          | Panic => Panic
          end
      | sc => Err cfg ("unsupported LLM source configuration type: " +:+ typeName sc)
      end
  end.
