(* ===== verification/McpTransform.v ===== *)
(** * McpTransform: MCP proxies as REST APIs

    gateway-controller/pkg/utils/mcp_transformer.go, with GetParamsOfPolicy of
    commonutils.go.  A proxy in front of an MCP server becomes a REST API with
    the operations of the MCP transport; those that forward traffic get the
    timeouts of the proxy. *)

From stdpp Require Import base gmap strings list.
From Stdlib Require Import Ascii.
From S2P Require Import Prelude GoStrings GoDuration Values Routes ManagementApi LlmTransform.

#[local] Set Warnings "-register-all".

Open Scope string_scope.

Definition MCP_PRM_RESOURCE_PATH : string := "/.well-known/oauth-protected-resource".
Definition SPEC_VERSION_2025_JUNE : string := "2025-06-18".
Definition SPEC_VERSION_2025_NOVEMBER : string := "2025-11-25".
Definition LATEST_SUPPORTED_MCP_SPEC_VERSION : string := "2025-06-18".
Definition SET_HEADERS_POLICY_NAME : string := "set-headers".

(** [yaml.Unmarshal] into a map. *)
Class YamlUnmarshal := { yaml_Unmarshal : string -> string + Params }.

(** ** Parameters of a policy *)

Definition newline : string := String "010" "".

(** [SET_HEADERS_POLICY_PARAMS] with its two verbs filled in. *)
Definition renderSetHeaders (name value : string) : string :=
  "request:" +:+ newline +:+ "  headers:" +:+ newline +:+ "    - name: '" +:+ name +:+ "'" +:+ newline +:+
  "      value: '" +:+ value +:+ "'" +:+ newline.

Fixpoint escapeParam (param : string) : string :=
  match param with
  | EmptyString => EmptyString
  | String c s => if Ascii.eqb c "%" then String "%" (String "%" (escapeParam s)) else String c (escapeParam s)
  end.

Section Mcp.
Context `{YamlUnmarshal}.

(** [GetParamsOfPolicy] of that template. *)
Definition GetParamsOfSetHeaders (header value : string) : string + Params := yaml_Unmarshal (renderSetHeaders (escapeParam header) (escapeParam value)).

(** ** Operations *)

(** [strings.Compare(base, current) <= 0]. *)
Definition protocolVersionComparator (base current : string) : bool := negb (string_less current base).

Definition mcpSpecVersion (mcpConfig : MCPProxyConfiguration) : string :=
  match mc_SpecVersion mcpConfig with
  | Some v => if negb (String.eqb v "") then v else LATEST_SUPPORTED_MCP_SPEC_VERSION
  | None => LATEST_SUPPORTED_MCP_SPEC_VERSION
  end.

Definition addMCPSpecificOperations (mcpConfig : MCPProxyConfiguration) (optionsRequired : bool) : list Operation :=
  (((fun method => newOperation MCP_RESOURCE_PATH method) <$> ["GET"; "POST"; "DELETE"]) ++
   (if optionsRequired then [newOperation MCP_RESOURCE_PATH "OPTIONS"] else []) ++
   if protocolVersionComparator SPEC_VERSION_2025_JUNE (mcpSpecVersion mcpConfig) then
     newOperation MCP_PRM_RESOURCE_PATH "GET" :: (if optionsRequired then [newOperation MCP_PRM_RESOURCE_PATH "OPTIONS"] else [])
   else [])%list.

Definition isMCPForwardingOperation (op : Operation) : bool :=
  if String.eqb (EffectiveMethod op) "OPTIONS" then false
  else if String.eqb (EffectivePath op) MCP_PRM_RESOURCE_PATH then false
  else true.

Definition mcpResilience (userRes : option Resilience) : Resilience :=
  match userRes with
  | None => mkResilience None (Some "0s")
  | Some r => mkResilience (rs_IdleTimeout r) (match rs_Timeout r with Some t => Some t | None => Some "0s" end)
  end.

Definition applyMCPResilience (userRes : option Resilience) (ops : list Operation) : list Operation :=
  (fun op => if isMCPForwardingOperation op then set_Resilience (Some (mcpResilience userRes)) op else op) <$> ops.

(** ** The transformer *)

Definition optionsRequired (policies : list ApiPolicy) : bool := existsb (fun p => EqualFold (ap_Name p) "cors") policies.

(** The policy that authenticates to the upstream: header and value are
    dereferenced without a check, and it has no version. *)
Definition mcpAuthPolicy (auth : option LLMUpstreamAuth) : GoM unit (list ApiPolicy) :=
  match auth with
  | None => mret []
  | Some a =>
      match lua_Header a, lua_Value a with
      | Some header, Some value =>
          params ← lift_err (orErr "failed to build upstream auth params" (GetParamsOfSetHeaders header value));
          mret [mkApiPolicy None SET_HEADERS_POLICY_NAME (Some params) ""]
      | _, _ => panic
      end
  end.

Definition transformMCP (mcpConfig : MCPProxyConfiguration) : GoM unit RestAPI :=
  let policies := default [] (mc_Policies mcpConfig) in
  let operations := applyMCPResilience (mc_Resilience mcpConfig) (addMCPSpecificOperations mcpConfig (optionsRequired policies)) in
  auth ← mcpAuthPolicy (lpu_Auth (mc_Upstream mcpConfig));
  mret (mkRestAPI RestAPI_ApiVersion "RestApi" (mkApiMetadata None None (am_Name (mc_Metadata mcpConfig)))
    (mkAPIConfigData (default "" (mc_Context mcpConfig)) (mc_DisplayName mcpConfig) operations (Some (policies ++ auth)%list) None
       (providerUpstream (mc_Upstream mcpConfig)) None (mc_UpstreamDefinitions mcpConfig) (mc_Version mcpConfig)
       ((fun v => mkVhosts v None) <$> mc_Vhost mcpConfig) None)).

Definition MCPTransformer_Transform (input : Configuration) : GoM unit RestAPI :=
  match input with
  | CfgMCPProxy mcpConfig => transformMCP mcpConfig
  | _ => fail "invalid input type: expected *api.MCPProxyConfiguration"
  end.

End Mcp.
