(* ===== verification/ArtifactValidators.v ===== *)
(** * ArtifactValidators: validation of LLM, MCP and secret artifacts

    gateway-controller/pkg/config: llm_validator.go, mcp_validator.go and
    secret_validator.go check templates, providers, proxies and secrets before
    they are stored, each check with the list of its errors. *)

From stdpp Require Import base gmap strings list fin_maps.
From Stdlib Require Import Ascii.
From S2P Require Import Prelude GoStrings GoDuration Version Values Routes ManagementApi PolicyVersions RestTransform ApiValidator ConfigStore LlmTransform McpTransform.

#[local] Set Warnings "-register-all".

Open Scope string_scope.

(** ** Patterns *)

Definition is_lower_alnum (c : ascii) : bool := is_digit c || (is_letter c && negb (nat_of_ascii c <=? 90)%nat).

(** [[a-z0-9]([-a-z0-9]*[a-z0-9])?]. *)
Definition dnsLabel (s : string) : bool :=
  match s, string_rev s with
  | String first _, String last _ => is_lower_alnum first && is_lower_alnum last && string_all (fun c => is_lower_alnum c || Ascii.eqb c "-") s
  | _, _ => false
  end.

(** Labels separated by dots. *)
Definition metadataNameRegex (s : string) : bool := forallb dnsLabel (Split "." s).

Definition safePathByte (c : ascii) : bool := is_alnum c || String_contains_byte c "._~-".

(** A segment of a resource: safe characters, a star, or a placeholder. *)
Definition resourceSegment (s : string) : bool :=
  nonEmptyAll safePathByte s || String.eqb s "*" ||
  match s with
  | String "{" s' => match string_rev s' with String "}" inner => nonEmptyAll safePathByte inner | _ => false end
  | _ => false
  end.

Definition resourcePathRegex (s : string) : bool :=
  match s with
  | String "/" s' => String.eqb s' "" || forallb resourceSegment (Split "/" s')
  | _ => false
  end.

(** [^[a-zA-Z0-9\-_]+$]. *)
Definition upstreamAliasRegex : string -> bool := upstreamDefinitionNameRegex.

Definition API_VERSION : string := "gateway.api-platform.wso2.com/v1".

(** ** Templates *)

Section Llm.
Context `{MapRange} `{UrlParser}.

Definition validateExtractionIdentifier (fieldPrefix : string) (identifier : option ExtractionIdentifier) : list ValidationError :=
  match identifier with
  | None => []
  | Some i =>
      (errorIf (negb (bool_decide (ei_Location i ∈ ["payload"; "header"; "queryParam"; "pathParam"]))) (fieldPrefix +:+ ".location")
         "Location must be 'payload' or 'header' or 'queryParam' or 'pathParam'" ++
       errorIf (String.eqb (ei_Identifier i) "") (fieldPrefix +:+ ".identifier") "Identifier is required")%list
  end.

Definition validateTemplateResourceMapping (fieldPrefix : string) (mapping : LLMProviderTemplateResourceMapping) : list ValidationError :=
  let resource := TrimSpace (trm_Resource mapping) in
  let e := trm_Extraction mapping in
  (errorIf (String.eqb resource "" || negb (String.eqb resource (trm_Resource mapping)) || negb (HasPrefix resource "/") ||
            negb (string_all (fun c => negb (is_space_byte c)) resource) || negb (resourcePathRegex resource)) (fieldPrefix +:+ ".resource")
     "resource must be an absolute path starting with '/' and contain no spaces" ++
   validateExtractionIdentifier (fieldPrefix +:+ ".promptTokens") (ef_PromptTokens e) ++
   validateExtractionIdentifier (fieldPrefix +:+ ".completionTokens") (ef_CompletionTokens e) ++
   validateExtractionIdentifier (fieldPrefix +:+ ".totalTokens") (ef_TotalTokens e) ++
   validateExtractionIdentifier (fieldPrefix +:+ ".remainingTokens") (ef_RemainingTokens e) ++
   validateExtractionIdentifier (fieldPrefix +:+ ".requestModel") (ef_RequestModel e) ++
   validateExtractionIdentifier (fieldPrefix +:+ ".responseModel") (ef_ResponseModel e))%list.

Definition validateTemplateResourceMappings (fieldPrefix : string) (mappings : option (option (list LLMProviderTemplateResourceMapping))) :
    list ValidationError :=
  match mappings with
  | Some (Some []) => [err (fieldPrefix +:+ ".resources") "resources must be non-empty"]
  | Some (Some resources) => concat (imap (fun i m => validateTemplateResourceMapping (at_index (fieldPrefix +:+ ".resources") i) m) resources)
  | _ => []
  end.

Definition validateDisplayName253 (displayName : string) : list ValidationError :=
  if String.eqb displayName "" then [err "spec.displayName" "spec.displayName is required"]
  else errorIf (253 <? String.length displayName)%nat "spec.displayName" "spec.displayName must not exceed 253 characters".

Definition validateTemplateSpec (spec : LLMProviderTemplateData) : list ValidationError :=
  let e := ltd_Extraction spec in
  (validateDisplayName253 (ltd_DisplayName spec) ++
   validateExtractionIdentifier "spec.promptTokens" (ef_PromptTokens e) ++
   validateExtractionIdentifier "spec.completionTokens" (ef_CompletionTokens e) ++
   validateExtractionIdentifier "spec.totalTokens" (ef_TotalTokens e) ++
   validateExtractionIdentifier "spec.requestModel" (ef_RequestModel e) ++
   validateExtractionIdentifier "spec.responseModel" (ef_ResponseModel e) ++
   validateExtractionIdentifier "spec.remainingTokens" (ef_RemainingTokens e) ++
   validateTemplateResourceMappings "spec.resourceMappings" (ltd_ResourceMappings spec))%list.

(** The head of an artifact. *)
Definition metadataNameMessage (field : string) : string :=
  field +:+ " must consist of lowercase alphanumeric characters, hyphens, or dots, and must start and end with an alphanumeric character".

Definition validateHead (apiVersion kind expectedKind name : string) : list ValidationError :=
  (errorIf (negb (String.eqb apiVersion API_VERSION)) "version" "Version must be 'gateway.api-platform.wso2.com/v1'" ++
   errorIf (negb (String.eqb kind expectedKind)) "kind" ("Kind must be '" +:+ expectedKind +:+ "'") ++
   if String.eqb name "" then [err "metadata.name" "metadata.name is required"]
   else if (253 <? String.length name)%nat then [err "metadata.name" "metadata.name must not exceed 253 characters"]
   else errorIf (negb (metadataNameRegex name)) "metadata.name" (metadataNameMessage "metadata.name"))%list.

Definition validateLLMProviderTemplate (template : LLMProviderTemplate) : list ValidationError :=
  (validateHead (lt_ApiVersion template) (lt_Kind template) "LlmProviderTemplate" (am_Name (lt_Metadata template)) ++
   validateTemplateSpec (lt_Spec template))%list.

(** ** Providers *)

Definition isBlank (s : option string) : bool := match s with Some v => String.eqb (TrimSpace v) "" | None => true end.
Definition isEmpty (s : option string) : bool := match s with Some v => String.eqb v "" | None => true end.

(** [auth.type], [auth.header] and [auth.value]. *)
Definition validateLLMUpstreamAuth (fieldPrefix : string) (auth : LLMUpstreamAuth) : list ValidationError :=
  ((if String.eqb (lua_Type auth) "" then [err (fieldPrefix +:+ ".type") "Auth type is required"]
    else errorIf (negb (isApiKeyAuth (lua_Type auth)) && negb (isNoGatewayAuth (lua_Type auth))) (fieldPrefix +:+ ".type")
           "Auth type must be one of 'api-key', 'other', 'none'") ++
   if isApiKeyAuth (lua_Type auth) then
     errorIf (isEmpty (lua_Header auth)) (fieldPrefix +:+ ".header") "Auth header is required when api-key auth type is set" ++
     errorIf (isEmpty (lua_Value auth)) (fieldPrefix +:+ ".value") "Auth value is required when api-key auth type is set"
   else [])%list.

Definition validateUpstreamWithAuth (fieldPrefix : string) (upstream : LLMProviderUpstream) (definitions : option (list UpstreamDefinition)) :
    list ValidationError :=
  (match negb (isBlank (lpu_Url upstream)), negb (isBlank (lpu_Ref upstream)) with
   | true, true => [err fieldPrefix "Specify exactly one of 'url' or 'ref'"]
   | false, false => [err fieldPrefix "Must specify either 'url' or 'ref'"]
   | true, false =>
       let field := fieldPrefix +:+ ".url" in
       match url_Parse (TrimSpace (default "" (lpu_Url upstream))) with
       | inl e => [err field ("Upstream URL is malformed: " +:+ e)]
       | inr parsedURL =>
           if negb (String.eqb (u_Scheme parsedURL) "http") && negb (String.eqb (u_Scheme parsedURL) "https")
           then [err field "Upstream URL must use http or https scheme"]
           else errorIf (String.eqb (u_Host parsedURL) "") field "Upstream URL must include a host"
       end
   | false, true =>
       let ref := default "" (lpu_Ref upstream) in
       errorIf (negb (upstreamRefResolves ref definitions)) (fieldPrefix +:+ ".ref")
         ("Referenced upstream definition '" +:+ TrimSpace ref +:+ "' not found in upstreamDefinitions")
   end ++
   match lpu_Auth upstream with Some auth => validateLLMUpstreamAuth (fieldPrefix +:+ ".auth") auth | None => [] end)%list.

Definition validateException (fieldPrefix : string) (i : nat) (exception : RouteException) : list ValidationError :=
  let prefix := at_index (fieldPrefix +:+ ".exceptions") i in
  (errorIf (String.eqb (rx_Path exception) "") (prefix +:+ ".path") "Exception path is required" ++
   errorIf (length (rx_Methods exception) =? 0)%nat (prefix +:+ ".methods") "At least one method is required for exception")%list.

Definition validateAccessControl (fieldPrefix : string) (ac : LLMAccessControl) : list ValidationError :=
  (errorIf (negb (String.eqb (lac_Mode ac) "allow_all") && negb (String.eqb (lac_Mode ac) "deny_all")) (fieldPrefix +:+ ".mode")
     "Access control mode must be either 'allow_all' or 'deny_all'" ++
   concat (imap (validateException fieldPrefix) (default [] (lac_Exceptions ac))))%list.

Definition nonEmptyList {A} (l : option (list A)) : bool := match l with Some (_ :: _) => true | _ => false end.

Definition validatePolicyListExclusivity (globalPolicies : option (list ApiPolicy)) (operationPolicies : option (list OperationPolicy))
    (legacyPolicies : option (list LLMPolicy)) : list ValidationError :=
  errorIf (nonEmptyList legacyPolicies && (nonEmptyList globalPolicies || nonEmptyList operationPolicies)) "spec.policies"
    ("The deprecated 'policies' field cannot be used together with 'globalPolicies' or " +:+
     "'operationPolicies'. Use either the legacy 'policies' list or the new " +:+
     "'globalPolicies'/'operationPolicies' lists, not both.").

Definition validateSpecVersion (version kind : string) : list ValidationError :=
  errorIf (negb (String.eqb version "") && negb (versionRegex version)) "spec.version" (kind +:+ " version format is invalid (expected vX.Y.Z)").

Definition validateProviderSpec (spec : LLMProviderConfiguration) : list ValidationError :=
  (validateDisplayName253 (lp_DisplayName spec) ++
   validateSpecVersion (lp_Version spec) "Provider" ++
   errorIf (String.eqb (lp_Template spec) "") "spec.template" "Template reference is required" ++
   validateUpstreamDefinitionsList "spec.upstreamDefinitions" (lp_UpstreamDefinitions spec) ++
   validateUpstreamWithAuth "spec.upstream" (lp_Upstream spec) (lp_UpstreamDefinitions spec) ++
   validateAccessControl "spec.accessControl" (lp_AccessControl spec) ++
   validatePolicyListExclusivity (lp_GlobalPolicies spec) (lp_OperationPolicies spec) (lp_Policies spec) ++
   validateResilienceTimeouts "spec.resilience" (lp_Resilience spec))%list.

Definition validateLabelsOf (metadata : ApiMetadata) : list ValidationError :=
  match am_Labels metadata with Some labels => ValidateLabels labels | None => [] end.

Definition validateLLMProvider (provider : LLMProviderConfiguration) : list ValidationError :=
  (validateHead (lp_ApiVersion provider) (lp_Kind provider) "LlmProvider" (am_Name (lp_Metadata provider)) ++
   validateLabelsOf (lp_Metadata provider) ++ validateProviderSpec provider)%list.

(** ** Proxies *)

Definition validateLLMProxyTransformer (fieldPrefix : string) (transformer : LLMProxyTransformer) : list ValidationError :=
  (errorIf (String.eqb (lxt_Type transformer) "") (fieldPrefix +:+ ".type") "Transformer type is required" ++
   if String.eqb (lxt_Version transformer) "" then [err (fieldPrefix +:+ ".version") "Transformer version is required"]
   else errorIf (negb (majorVersionPattern (lxt_Version transformer))) (fieldPrefix +:+ ".version")
          "Transformer version must be major-only (e.g. v1)")%list.

(** The loop over the additional providers. *)
Fixpoint validateAdditionalFrom (i : nat) (seen : gset string) (providers : list LLMProxyAdditionalProvider) : list ValidationError :=
  match providers with
  | [] => []
  | provider :: providers' =>
      let prefix := at_index "spec.additionalProviders" i in
      let upstreamName := providerNameOf provider in
      ((if String.eqb (lap_Id provider) "" then [err (prefix +:+ ".id") "Provider is required"]
        else errorIf (negb (metadataNameRegex (lap_Id provider))) (prefix +:+ ".id") (metadataNameMessage (prefix +:+ ".id"))) ++
       errorIf (negb (isEmpty (lap_As provider)) && negb (upstreamAliasRegex upstreamName)) (prefix +:+ ".as")
         (prefix +:+ ".as must contain only letters, numbers, hyphens, or underscores") ++
       errorIf (negb (String.eqb upstreamName "") && bool_decide (upstreamName ∈ seen)) prefix
         ("duplicate upstream name '" +:+ upstreamName +:+ "' in additionalProviders") ++
       match lap_Auth provider with Some auth => validateLLMUpstreamAuth (prefix +:+ ".auth") auth | None => [] end ++
       match lap_Transformer provider with Some tr => validateLLMProxyTransformer (prefix +:+ ".transformer") tr | None => [] end ++
       validateAdditionalFrom (S i) (if String.eqb upstreamName "" then seen else {[upstreamName]} ∪ seen) providers')%list
  end.

(** Without a provider the checks end there. *)
Definition validateProxyData (spec : LLMProxyConfiguration) : list ValidationError :=
  let id := lxp_Id (lx_Provider spec) in
  (validateDisplayName253 (lx_DisplayName spec) ++
   validateSpecVersion (lx_Version spec) "Proxy" ++
   if String.eqb id "" then [err "spec.provider.id" "Provider is required"]
   else
     errorIf (negb (metadataNameRegex id)) "spec.provider.id" (metadataNameMessage "spec.provider.id") ++
     match lxp_Auth (lx_Provider spec) with Some auth => validateLLMUpstreamAuth "spec.provider.auth" auth | None => [] end ++
     validateAdditionalFrom 0 {[id]} (default [] (lx_AdditionalProviders spec)) ++
     validatePolicyListExclusivity (lx_GlobalPolicies spec) (lx_OperationPolicies spec) (lx_Policies spec) ++
     validateResilienceTimeouts "spec.resilience" (lx_Resilience spec))%list.

Definition validateLLMProxy (proxy : LLMProxyConfiguration) : list ValidationError :=
  (validateHead (lx_ApiVersion proxy) (lx_Kind proxy) "LlmProxy" (am_Name (lx_Metadata proxy)) ++
   validateLabelsOf (lx_Metadata proxy) ++ validateProxyData proxy)%list.

(** [Validate] of the artifacts that are configurations. *)
Definition LLMValidator_Validate (config : Configuration) : list ValidationError :=
  match config with
  | CfgLLMProvider cfg => validateLLMProvider cfg
  | CfgLLMProxy cfg => validateLLMProxy cfg
  | _ => [err "config" "Unsupported configuration type for LLMValidator"]
  end.

End Llm.

(** ** mcp_validator.go *)

Section Mcp.
Context `{MapRange} `{UrlParser} `{JSONSchema}.

Definition supportedSpecVersions : list string := [SPEC_VERSION_2025_JUNE; SPEC_VERSION_2025_NOVEMBER].

Definition validateSupportedSpecVersion (version : option string) : list ValidationError :=
  match version with
  | None => []
  | Some v => errorIf (negb (bool_decide (v ∈ supportedSpecVersions))) "spec.specVersion"
                ("Unsupported MCP spec version (supported versions: " +:+ Join supportedSpecVersions ", " +:+ ")")
  end.

Definition validateContextAndVhost (context vhost : option string) : list ValidationError :=
  if negb (isEmpty context) then
    let c := default "" context in
    (errorIf (negb (HasPrefix c "/")) "spec.context" "Context must start with /" ++
     errorIf (HasSuffix c "/" && negb (String.eqb c "/")) "spec.context" "Context cannot end with / (except for root context)" ++
     errorIf (200 <? String.length c)%nat "spec.context" "Context must be 1-200 characters")%list
  else errorIf (isEmpty vhost) "spec.vhost" "Vhost is required when context is not specified".

(** Header and value are required whatever the type. *)
Definition mcp_validateAuth (fieldPrefix : string) (auth : LLMUpstreamAuth) : list ValidationError :=
  (errorIf (String.eqb (lua_Type auth) "") (fieldPrefix +:+ ".auth.type") "Auth type is required" ++
   errorIf (isEmpty (lua_Header auth)) (fieldPrefix +:+ ".auth.header") "Auth header is required" ++
   errorIf (isEmpty (lua_Value auth)) (fieldPrefix +:+ ".auth.value") "Auth value is required" ++
   if String.eqb (lua_Type auth) "bearer" then
     match lua_Value auth with
     | Some v => errorIf (negb (HasPrefix v "Bearer ") && negb (HasPrefix v "bearer ")) (fieldPrefix +:+ ".auth.value")
                   "Bearer token value must start with 'Bearer ' or 'bearer '"
     | None => []
     end
   else [])%list.

Definition mcp_validateUpstream (fieldPrefix : string) (upstream : LLMProviderUpstream) (definitions : option (list UpstreamDefinition)) :
    list ValidationError :=
  (match negb (isBlank (lpu_Url upstream)), negb (isBlank (lpu_Ref upstream)) with
   | true, true => [err fieldPrefix "Specify exactly one of 'url' or 'ref'"]
   | false, false => [err fieldPrefix "Must specify either 'url' or 'ref'"]
   | false, true =>
       let ref := default "" (lpu_Ref upstream) in
       errorIf (negb (upstreamRefResolves ref definitions)) (fieldPrefix +:+ ".ref")
         ("Referenced upstream definition '" +:+ TrimSpace ref +:+ "' not found in upstreamDefinitions")
   | true, false =>
       let field := fieldPrefix +:+ ".url" in
       match url_Parse (TrimSpace (default "" (lpu_Url upstream))) with
       | inl e => [err field ("Invalid URL format: " +:+ e)]
       | inr parsedURL =>
           (errorIf (negb (String.eqb (u_Scheme parsedURL) "http") && negb (String.eqb (u_Scheme parsedURL) "https")) field
              "Upstream URL must use http or https scheme" ++
            errorIf (String.eqb (u_Host parsedURL) "") field "Upstream URL must include a host")%list
       end
   end ++
   match lpu_Auth upstream with Some auth => mcp_validateAuth fieldPrefix auth | None => [] end)%list.

Definition mcp_validateSpec (spec : MCPProxyConfiguration) : list ValidationError :=
  ((if String.eqb (mc_DisplayName spec) "" then [err "spec.displayName" "MCP proxy displayName is required"]
    else if (100 <? String.length (mc_DisplayName spec))%nat then [err "spec.displayName" "MCP proxy displayName must be 1-100 characters"]
    else errorIf (negb (urlFriendlyNameRegex (mc_DisplayName spec))) "spec.displayName"
           "MCP proxy displayName must be URL-friendly (only letters, numbers, spaces, hyphens, underscores, and dots allowed)") ++
   (if String.eqb (mc_Version spec) "" then [err "spec.version" "Version is required"]
    else errorIf (negb (versionRegex (mc_Version spec))) "spec.version"
           "Version must follow semantic versioning pattern (e.g., v1.0, v2.1.3)") ++
   validateSupportedSpecVersion (mc_SpecVersion spec) ++
   validateContextAndVhost (mc_Context spec) (mc_Vhost spec) ++
   validateUpstreamDefinitionsList "spec.upstreamDefinitions" (mc_UpstreamDefinitions spec) ++
   mcp_validateUpstream "spec.upstream" (mc_Upstream spec) (mc_UpstreamDefinitions spec) ++
   validateResilienceTimeouts "spec.resilience" (mc_Resilience spec))%list.

Definition validateMCPConfiguration (policyValidator : option PolicyValidator) (config : MCPProxyConfiguration) : list ValidationError :=
  (errorIf (negb (String.eqb (mc_ApiVersion config) API_VERSION)) "version"
     "Unsupported configuration version (must be 'gateway.api-platform.wso2.com/v1')" ++
   errorIf (negb (String.eqb (mc_Kind config) "Mcp")) "kind" "Unsupported configuration kind (only 'Mcp' is supported)" ++
   ValidateMetadata (mc_Metadata config) ++
   mcp_validateSpec config ++
   match policyValidator with Some pv => ValidateMCPProxyPolicies pv config | None => [] end)%list.

Definition MCPValidator_Validate (policyValidator : option PolicyValidator) (config : Configuration) : list ValidationError :=
  match config with
  | CfgMCPProxy cfg => validateMCPConfiguration policyValidator cfg
  | _ => [err "config" "Unsupported configuration type for MCPValidator (expected MCPProxyConfiguration)"]
  end.

(** ** secret_validator.go *)

Definition maxSecretSize : nat := 10.

Definition secret_validateSpec (spec : SecretConfigurationRequest) : list ValidationError :=
  ((if String.eqb (sq_DisplayName spec) "" then [err "spec.displayName" "Secret displayName is required"]
    else if (253 <? String.length (sq_DisplayName spec))%nat then [err "spec.displayName" "Secret displayName must be 1-253 characters"]
    else errorIf (negb (urlFriendlyNameRegex (sq_DisplayName spec))) "spec.displayName"
           "Secret displayName must be URL-friendly (only letters, numbers, spaces, hyphens, underscores, and dots allowed)") ++
   match sq_Description spec with
   | Some d => errorIf (1024 <? String.length d)%nat "spec.description" "Secret description must be at most 1024 characters"
   | None => []
   end ++
   (if String.eqb (sq_Value spec) "" then [err "spec.value" "Secret value is required"]
    else errorIf (Z.of_nat maxSecretSize * 1024 <? Z.of_nat (String.length (sq_Value spec)))%Z "spec.value"
           ("Secret value must be less than " +:+ Itoa (Z.of_nat maxSecretSize) +:+ "KB")))%list.

Definition validateSecretConfiguration (config : SecretConfigurationRequest) : list ValidationError :=
  (errorIf (negb (String.eqb (sq_ApiVersion config) API_VERSION)) "version"
     "Unsupported configuration version (must be 'gateway.api-platform.wso2.com/v1')" ++
   errorIf (negb (String.eqb (sq_Kind config) "Secret")) "kind" "Unsupported configuration kind (only 'Secret' is supported)" ++
   ValidateMetadata (sq_Metadata config) ++ secret_validateSpec config)%list.

End Mcp.
