(* ===== verification/EventHub.v ===== *)
(** * EventHub: events between the replicas of the controller

    src/common/eventhub: sqlbackend.go, topic.go, types.go and backend.go.
    Changes are published as rows of a table shared by all replicas, in one
    transaction with a new version of their gateway; every replica polls the
    versions of the gateways it has subscribers for and delivers the new rows
    to the channels of the subscribers.  The two tables are modelled by the
    meaning of the statements the code prepares (their constraints are those
    of gateway-controller-db.sql), and any statement may fail. *)

From stdpp Require Import base gmap strings list fin_maps sorting infinite.
From S2P Require Import Prelude GoStrings GoSort Routes.

#[local] Set Warnings "-register-all".

Open Scope string_scope.

(** ** types.go

    Times are nanoseconds since 1970. *)

Record Event : Type := mkEvent {
  ev_GatewayID : string;
  ev_ProcessedTimestamp : Z;
  ev_OriginatedTimestamp : Z;
  ev_EventType : string;
  ev_Action : string;
  ev_EntityID : string;
  ev_EventID : string;
  ev_EventData : string
}.

Definition EmptyEventData : string := "{}".

(** The two tables.  Rows of events are in the order of their commits;
    [tb_states] maps a gateway to its version. *)
Record Tables : Type := mkTables { tb_events : list Event; tb_states : gmap string string }.

(** ** topic.go and the state of a replica

    A channel of events with what its reader has taken from it; gateways hold
    their subscribers by reference. *)

Record channel : Type := mkChannel { ch_buffer : list Event; ch_taken : list Event; ch_closed : bool }.

Definition channelCap : nat := 100.

Record gateway : Type := mkGateway {
  gw_id : string;
  gw_subscribers : list nat;
  gw_knownVersion : string;
  gw_lastPolled : Z
}.

Record SQLBackend : Type := mkSQLBackend {
  sb_tables : Tables;
  sb_registry : gmap string gateway;
  sb_channels : gmap nat channel
}.

Definition set_tables (t : Tables) (s : SQLBackend) : SQLBackend := mkSQLBackend t (sb_registry s) (sb_channels s).
Definition set_registry (r : gmap string gateway) (s : SQLBackend) : SQLBackend := mkSQLBackend (sb_tables s) r (sb_channels s).
Definition set_channels (c : gmap nat channel) (s : SQLBackend) : SQLBackend := mkSQLBackend (sb_tables s) (sb_registry s) c.

Definition ErrGatewayNotFound : string := "gateway not found".
Definition ErrGatewayAlreadyExists : string := "gateway already exists".
Definition ErrSubscriberNotFound : string := "subscriber not found".

Definition registry_register (gatewayID : string) : GoM SQLBackend unit := fun s =>
  match sb_registry s !! gatewayID with
  | Some _ => Err s ErrGatewayAlreadyExists
  | None => Ok (set_registry (<[gatewayID := mkGateway gatewayID [] "" 0]> (sb_registry s)) s) tt
  end.

Definition addSubscriber (gatewayID : string) (ch : nat) : GoM SQLBackend unit := fun s =>
  match sb_registry s !! gatewayID with
  | None => Err s ErrGatewayNotFound
  | Some gw =>
      Ok (set_registry (<[gatewayID := mkGateway (gw_id gw) (gw_subscribers gw ++ [ch])%list (gw_knownVersion gw) (gw_lastPolled gw)]> (sb_registry s)) s) tt
  end.

(** The last subscriber takes the place of the removed one. *)
Definition swapRemove (i : nat) (l : list nat) : list nat :=
  match last l with Some x => removelast (<[i := x]> l) | None => l end.

Definition removeSubscriber (gatewayID : string) (subscriber : nat) : GoM SQLBackend nat := fun s =>
  match sb_registry s !! gatewayID with
  | None => Err s ErrGatewayNotFound
  | Some gw =>
      match list_find (eq subscriber) (gw_subscribers gw) with
      | None => Err s ErrSubscriberNotFound
      | Some (i, ch) =>
          let subscribers := swapRemove i (gw_subscribers gw) in
          let knownVersion := if decide (length subscribers = 0) then "" else gw_knownVersion gw in
          Ok (set_registry (<[gatewayID := mkGateway (gw_id gw) subscribers knownVersion (gw_lastPolled gw)]> (sb_registry s)) s) ch
      end
  end.

Definition removeAllSubscribers (gatewayID : string) : GoM SQLBackend (list nat) := fun s =>
  match sb_registry s !! gatewayID with
  | None => Err s ErrGatewayNotFound
  | Some gw => Ok (set_registry (<[gatewayID := mkGateway (gw_id gw) [] "" (gw_lastPolled gw)]> (sb_registry s)) s) (gw_subscribers gw)
  end.

(** *** Channels *)

(** [close], of a channel that is closed already a panic. *)
Definition closeChannel (c : nat) : GoM SQLBackend unit := fun s =>
  match sb_channels s !! c with
  | Some ch => if ch_closed ch then Panic else Ok (set_channels (<[c := mkChannel (ch_buffer ch) (ch_taken ch) true]> (sb_channels s)) s) tt
  | None => Panic
  end.

(** [ch <- evt]: a panic if it is closed.  The code only sends when no buffer
    is full. *)
Definition send (evt : Event) (c : nat) : GoM SQLBackend unit := fun s =>
  match sb_channels s !! c with
  | Some ch => if ch_closed ch then Panic
               else Ok (set_channels (<[c := mkChannel (ch_buffer ch ++ [evt])%list (ch_taken ch) false]> (sb_channels s)) s) tt
  | None => Panic
  end.

Definition subscriberChannelsAvailable (channels : gmap nat channel) (subscribers : list nat) : bool :=
  forallb (fun c => match channels !! c with Some ch => negb (length (ch_buffer ch) =? channelCap)%nat | None => true end) subscribers.

(** The reader of a channel takes what is in its buffer. *)
Definition receive (c : nat) (s : SQLBackend) : SQLBackend :=
  set_channels (alter (fun ch => mkChannel [] (ch_taken ch ++ ch_buffer ch)%list (ch_closed ch)) c (sb_channels s)) s.

(** ** sqlbackend.go *)

Definition initialPollSkewWindow : Z := 120 * 1000000000.
Definition unixMillisThreshold : Z := 100000000000.
Definition unixMicrosThreshold : Z := 100000000000000.
Definition unixNanosThreshold : Z := 100000000000000000.
Definition defaultGatewayStatePageSize : nat := 200.

Definition unixTimestampToTime (ts : Z) : Z :=
  if (unixNanosThreshold <=? ts)%Z then ts
  else if (unixMicrosThreshold <=? ts)%Z then (ts * 1000)%Z
  else if (unixMillisThreshold <=? ts)%Z then (ts * 1000000)%Z
  else (ts * 1000000000)%Z.

(** Statements, for the ones that fail; the ones a poll repeats carry the
    gateway or the cursor they are executed for. *)
Inductive Stmt : Type :=
| StBegin | StEnsureGateway | StInsertEvent | StRollback | StEventByID | StUpdateVersion | StCommit
| StInsertGateway | StGatewayState | StStatesPage (cursor : string) | StEvents (gatewayID : string) | StCleanup.

(** [ORDER BY processed_timestamp]: the order of equal times is open. *)
Class EventOrder := {
  orderByTime : list Event -> list Event;
  orderByTime_perm : forall l, orderByTime l ≡ₚ l;
  orderByTime_sorted : forall l, StronglySorted (fun a b => (ev_ProcessedTimestamp a <= ev_ProcessedTimestamp b)%Z) (orderByTime l)
}.

(** A stable sort is such an order: the one concrete runs use. *)
Definition earlier (a b : Event) : bool := (ev_ProcessedTimestamp a <? ev_ProcessedTimestamp b)%Z.

#[local] Instance earlier_weakOrder : WeakOrder earlier.
Proof. unfold earlier. split; intros *; rewrite ?Z.ltb_lt, ?Z.ltb_ge; lia. Qed.

Lemma stableSort_times l : StronglySorted (fun a b => (ev_ProcessedTimestamp a <= ev_ProcessedTimestamp b)%Z) (stableSort earlier l).
Proof.
  pose proof (stableSort_ascending earlier l) as Hs. unfold ascending in Hs.
  induction Hs as [|a m Hm IH Hf]; constructor; [done|]. eapply Forall_impl; [exact Hf|]. intros b Hb. unfold earlier in Hb. by apply Z.ltb_ge in Hb.
Qed.

Definition EventOrder_stable : EventOrder := {|
  orderByTime := stableSort earlier;
  orderByTime_perm := stableSort_perm earlier;
  orderByTime_sorted := stableSort_times
|}.

Section Backend.
Context `{EventOrder}.

(** The faults of the statements of one call. *)
Variable fault : Stmt -> option string.

Definition exec (st : Stmt) (message : string) : GoM SQLBackend unit := fun s =>
  match fault st with Some e => Err s (message +:+ ": " +:+ e) | None => Ok s tt end.

(** *** Publishing *)

Definition actions : list string := ["CREATE"; "UPDATE"; "DELETE"].

Definition hasEvent (gatewayID eventID : string) (t : Tables) : bool :=
  existsb (fun e => String.eqb (ev_GatewayID e) gatewayID && String.eqb (ev_EventID e) eventID) (tb_events t).

(** The row violates the primary key or the check of the action. *)
Definition insertViolates (e : Event) (t : Tables) : bool :=
  hasEvent (ev_GatewayID e) (ev_EventID e) t || negb (bool_decide (ev_Action e ∈ actions)).

Definition ensureGateway (gatewayID : string) (states : gmap string string) : gmap string string :=
  match states !! gatewayID with Some _ => states | None => <[gatewayID := ""]> states end.

(** The change of the tables that the transaction makes. *)
Definition commitEvent (row : Event) (newVersion : string) : GoM SQLBackend unit := fun s =>
  Ok (set_tables (mkTables (tb_events (sb_tables s) ++ [row])%list
                    (<[ev_GatewayID row := newVersion]> (ensureGateway (ev_GatewayID row) (tb_states (sb_tables s))))) s) tt.

(** After a failed insert the transaction is rolled back; a row that exists
    already is no error. *)
Definition failedInsert (row : Event) (e : string) : GoM SQLBackend unit :=
  exec StRollback "failed to rollback event publish after insert failure";;
  exec StEventByID "failed to check event existence after insert failure";;
  ((fun s => if hasEvent (ev_GatewayID row) (ev_EventID row) (sb_tables s) then Ok s tt else Err s ("failed to insert event: " +:+ e)) : GoM SQLBackend unit).

Definition insertEvent (row : Event) (newVersion : string) : GoM SQLBackend unit := fun s =>
  match fault StInsertEvent with
  | Some e => failedInsert row e s
  | None =>
      if insertViolates row (sb_tables s) then failedInsert row "constraint failed" s
      else (exec StUpdateVersion "failed to update gateway version";; exec StCommit "failed to commit event publish";; commitEvent row newVersion) s
  end.

(** The row that is inserted; [now] and [newID] are the time and the
    identifier the call draws. *)
Definition rowOf (now : Z) (newID gatewayID : string) (event : Event) : Event :=
  let eventData := TrimSpace (ev_EventData event) in
  let eventID := TrimSpace (ev_EventID event) in
  mkEvent gatewayID now (ev_OriginatedTimestamp event) (ev_EventType event) (ev_Action event) (ev_EntityID event)
    (if String.eqb eventID "" then newID else eventID) (if String.eqb eventData "" then EmptyEventData else eventData).

(** The tables stay as they are unless the transaction commits. *)
Definition Publish (now : Z) (newVersion newID : string) (gatewayID : string) (event : Event) : GoM SQLBackend unit :=
  exec StBegin "failed to begin transaction";;
  exec StEnsureGateway "failed to ensure gateway registration";;
  insertEvent (rowOf now newID gatewayID event) newVersion.

(** *** Registration and subscriptions *)

Definition RegisterGateway (gatewayID : string) : GoM SQLBackend unit := fun s =>
  let gatewayID := TrimSpace gatewayID in
  if String.eqb gatewayID "" then Err s "gateway_id cannot be empty"
  else
    let register s :=
      match registry_register gatewayID s with
      | Err s' e => if String.eqb e ErrGatewayAlreadyExists then Ok s' tt else Err s' ("failed to register gateway in registry: " +:+ e)
      | o => o
      end in
    let failedInsert e :=
      match fault StGatewayState with
      | Some c => Err s ("failed to check gateway existence after insert failure: " +:+ c)
      | None => match tb_states (sb_tables s) !! gatewayID with
                | Some _ => register s
                | None => Err s ("failed to register gateway in database: " +:+ e)
                end
      end in
    match fault StInsertGateway with
    | Some e => failedInsert e
    | None =>
        match tb_states (sb_tables s) !! gatewayID with
        | Some _ => failedInsert "constraint failed"
        | None => register (set_tables (mkTables (tb_events (sb_tables s)) (<[gatewayID := ""]> (tb_states (sb_tables s)))) s)
        end
    end.

(** [make(chan Event, 100)]. *)
Definition makeChannel (s : SQLBackend) : SQLBackend * nat :=
  let c := fresh (dom (sb_channels s)) in (set_channels (<[c := mkChannel [] [] false]> (sb_channels s)) s, c).

Definition Subscribe (gatewayID : string) : GoM SQLBackend nat := fun s =>
  let '(s, ch) := makeChannel s in
  match addSubscriber gatewayID ch s with
  | Ok s' _ => Ok s' ch
  | Err s' e =>
      match closeChannel ch s' with
      | Ok s'' _ => Err s'' ("failed to subscribe to gateway " +:+ gatewayID +:+ ": " +:+ e)
      | o => Panic
      end
  | Panic => Panic
  end.

Definition Unsubscribe (gatewayID : string) (subscriber : nat) : GoM SQLBackend unit := fun s =>
  match removeSubscriber gatewayID subscriber s with
  | Ok s' ch => closeChannel ch s'
  | Err s' e => Err s' ("failed to unsubscribe from gateway " +:+ gatewayID +:+ ": " +:+ e)
  | Panic => Panic
  end.

Fixpoint closeAll (cs : list nat) : GoM SQLBackend unit :=
  match cs with [] => mret tt | c :: cs' => closeChannel c;; closeAll cs' end.

Definition UnsubscribeAll (gatewayID : string) : GoM SQLBackend unit := fun s =>
  match removeAllSubscribers gatewayID s with
  | Ok s' subscribers => closeAll subscribers s'
  | Err s' e => Err s' ("failed to unsubscribe all from gateway " +:+ gatewayID +:+ ": " +:+ e)
  | Panic => Panic
  end.

(** *** Polling *)

(** The rows of a gateway from a time on. *)
Definition getEvents (gatewayID : string) (since : Z) (t : Tables) : list Event :=
  orderByTime (filter (fun e => ev_GatewayID e = gatewayID /\ (since <= ev_ProcessedTimestamp e)%Z) (tb_events t)).

Definition trimSingleBoundaryReplay (events : list Event) (boundary : Z) (enabled : bool) : list Event :=
  if negb enabled then events
  else match events with
       | [] => events
       | e0 :: rest =>
           if negb (ev_ProcessedTimestamp e0 =? boundary)%Z then events
           else match rest with
                | [] => rest
                | e1 :: _ => if negb (ev_ProcessedTimestamp e1 =? boundary)%Z then rest else events
                end
       end.

Fixpoint sendAll (evt : Event) (subscribers : list nat) : GoM SQLBackend unit :=
  match subscribers with [] => mret tt | c :: cs => send evt c;; sendAll evt cs end.

(** The delivery loop: the time of the last delivered event, and whether a
    full buffer stopped it. *)
Fixpoint deliver (subscribers : list nat) (events : list Event) (latest : option Z) : GoM SQLBackend (option Z * bool) :=
  match events with
  | [] => mret (latest, false)
  | evt :: rest => fun s =>
      if subscriberChannelsAvailable (sb_channels s) subscribers
      then (sendAll evt subscribers;; deliver subscribers rest (Some (ev_ProcessedTimestamp evt))) s
      else Ok s (latest, true)
  end.

(** The update at the end of a poll. *)
Definition advance (version : string) (lastPolledTime : Z) (latest : option Z) (blocked : bool) (gw : gateway) : gateway :=
  if blocked then mkGateway (gw_id gw) (gw_subscribers gw) (gw_knownVersion gw) (match latest with Some t => t | None => lastPolledTime end)
  else mkGateway (gw_id gw) (gw_subscribers gw) version (match latest with Some t => t | None => gw_lastPolled gw end).

Definition setCursor (gatewayID version : string) (lastPolledTime : Z) (r : option Z * bool) : GoM SQLBackend unit := fun s =>
  Ok (set_registry (alter (advance version lastPolledTime r.1 r.2) gatewayID (sb_registry s)) s) tt.

(** The rows to deliver: those since the last delivered one, or of the last
    two minutes. *)
Definition resuming (gw : gateway) : bool := (0 <? gw_lastPolled gw)%Z.
Definition pollFrom (now : Z) (gw : gateway) : Z :=
  if resuming gw then unixTimestampToTime (gw_lastPolled gw) else (now - initialPollSkewWindow)%Z.
Definition newEvents (now : Z) (gw : gateway) (t : Tables) : list Event :=
  trimSingleBoundaryReplay (getEvents (gw_id gw) (pollFrom now gw) t) (pollFrom now gw) (resuming gw).

(** [version] is that of the row read before. *)
Definition pollGatewayWithState (now : Z) (gatewayID : string) (version : string) : GoM SQLBackend unit := fun s =>
  match sb_registry s !! gatewayID with
  | None => Ok s tt
  | Some gw =>
      if decide (length (gw_subscribers gw) = 0) then Ok s tt
      else if String.eqb version (gw_knownVersion gw) || String.eqb version "" then Ok s tt
      else
        (exec (StEvents gatewayID) "failed to query events";;
         r ← deliver (gw_subscribers gw) (newEvents now gw (sb_tables s)) None;
         setCursor gatewayID version (pollFrom now gw) r) s
  end.

(** A page of rows, in the order of the key. *)
Definition statesInOrder (t : Tables) : list (string * string) := stableSort (fun a b => string_less a.1 b.1) (map_to_list (tb_states t)).

Definition getGatewayStatesPage (cursor : string) (limit : nat) (t : Tables) : list (string * string) :=
  take limit (filter (fun row => string_less cursor row.1 = true) (statesInOrder t)).

(** A failed poll of one gateway is logged. *)
Definition pollRow (now : Z) (row : string * string) : GoM SQLBackend unit := fun s =>
  match pollGatewayWithState now row.1 row.2 s with
  | Err s' _ => Ok s' tt
  | o => o
  end.

Fixpoint pollRows (now : Z) (rows : list (string * string)) : GoM SQLBackend unit :=
  match rows with [] => mret tt | row :: rows' => pollRow now row;; pollRows now rows' end.

Definition lastKey (cursor : string) (rows : list (string * string)) : string := match last rows with Some row => row.1 | None => cursor end.

(** The loop over the pages; running out of fuel is a panic. *)
Fixpoint pollPages (fuel : nat) (now : Z) (pageSize : nat) (cursor : string) : GoM SQLBackend unit := fun s =>
  match fuel with
  | 0 => Panic
  | S fuel' =>
      match fault (StStatesPage cursor) with
      | Some _ => Ok s tt
      | None =>
          let states := getGatewayStatesPage cursor pageSize (sb_tables s) in
          match states with
          | [] => Ok s tt
          | _ =>
              (pollRows now states;;
               if (length states <? pageSize)%nat then mret tt else pollPages fuel' now pageSize (lastKey cursor states)) s
          end
      end
  end.

Definition gatewayStatePageSize (configured : nat) : nat := if (0 <? configured)%nat then configured else defaultGatewayStatePageSize.

Definition pollGateways (now : Z) (configuredPageSize : nat) : GoM SQLBackend unit := fun s =>
  if decide (size (sb_registry s) = 0) then Ok s tt
  else pollPages (S (size (tb_states (sb_tables s)))) now (gatewayStatePageSize configuredPageSize) "" s.

(** *** Cleaning up and closing *)

Definition deleteEvents (P : Event -> Prop) `{!forall e, Decision (P e)} : GoM SQLBackend unit := fun s =>
  Ok (set_tables (mkTables (filter (fun e => ¬ P e) (tb_events (sb_tables s))) (tb_states (sb_tables s))) s) tt.

Definition Cleanup (now retentionPeriod : Z) : GoM SQLBackend unit :=
  exec StCleanup "failed to clean up events";; deleteEvents (fun e => (ev_ProcessedTimestamp e < now - retentionPeriod)%Z).

Definition CleanupRange (gatewayID : string) (before : Z) : GoM SQLBackend unit :=
  exec StCleanup ("failed to clean up events for gateway " +:+ gatewayID);;
  deleteEvents (fun e => ev_GatewayID e = gatewayID /\ (ev_ProcessedTimestamp e < before)%Z).

Definition clearSubscribers (gatewayID : string) : GoM SQLBackend unit := fun s =>
  Ok (set_registry (alter (fun gw => mkGateway (gw_id gw) [] (gw_knownVersion gw) (gw_lastPolled gw)) gatewayID (sb_registry s)) s) tt.

Definition closeGateway (gatewayID : string) : GoM SQLBackend unit := fun s =>
  match sb_registry s !! gatewayID with
  | None => Ok s tt
  | Some gw => (closeAll (gw_subscribers gw);; clearSubscribers gatewayID) s
  end.

Fixpoint closeGateways (ids : list string) : GoM SQLBackend unit :=
  match ids with [] => mret tt | i :: ids' => closeGateway i;; closeGateways ids' end.

(** After the two goroutines have ended. *)
Definition Close `{MapRange} : GoM SQLBackend unit := fun s => closeGateways ((range (sb_registry s)).*1) s.

End Backend.
