(* ===== verification/TemplateEngine.v ===== *)
(** * TemplateEngine: template expressions in artifacts

    src/gateway/gateway-controller/pkg/templateengine/spec.go and
    src/common/redact: the string values of the spec of an artifact are
    rendered one by one through text/template, and the secrets resolved on the
    way are recorded so that they can be masked.  The JSON form of a
    configuration and the execution of a template are parameters. *)

From stdpp Require Import base gmap strings list fin_maps.
From S2P Require Import Prelude GoStrings Values Routes ManagementApi.

#[local] Set Warnings "-register-all".

Open Scope string_scope.

(** ** common/redact *)

Abbreviation SecretTracker := (gmap string bool).

Definition Track (value : string) (st : SecretTracker) : SecretTracker := if String.eqb value "" then st else <[value := true]> st.
Definition Tracker_Values `{MapRange} (st : SecretTracker) : list string := (range st).*1.

Definition RedactedPlaceholder : string := "***REDACTED***".
Definition Redact (serialized : string) (sensitiveValues : list string) : string :=
  foldl (fun s secret => if String.eqb secret "" then s else ReplaceAll s secret RedactedPlaceholder) serialized sensitiveValues.

(** ** The parameters

    [marshal] is encoding/json into a generic map, [unmarshal] reads such a
    map into the type of the given configuration. *)
Class ConfigJSON := {
  marshal : Configuration -> string + list (string * Value);
  unmarshal : Configuration -> list (string * Value) -> string + Configuration
}.

(** [render] parses and executes a template with the functions of package
    funcs; it returns the text and the values passed to [Track]. *)
Class TextTemplate := { render : (string -> string + string) -> string -> string + (string * list string) }.

(** ** spec.go *)

Section Render.
Context `{MapRange} `{ConfigJSON} `{TextTemplate}.
Variable secretResolver : string -> string + string.

Definition trackAll (values : list string) (st : SecretTracker) : SecretTracker := foldl (fun st v => Track v st) st values.

(** The fields of a map are rendered in the order of the map. *)
Fixpoint renderValue (val : Value) (st : SecretTracker) : string + (Value * SecretTracker) :=
  match val with
  | VString v =>
      if negb (Contains v "{{") then inr (val, st)
      else match render secretResolver v with inl e => inl e | inr (text, tracked) => inr (VString text, trackAll tracked st) end
  | VMap m =>
      let fix fields m st :=
        match m with
        | [] => inr ([], st)
        | (key, child) :: m' =>
            match renderValue child st with
            | inl e => inl ("field " +:+ Quote key +:+ ": " +:+ e)
            | inr (child', st') => match fields m' st' with inl e => inl e | inr (m'', st'') => inr ((key, child') :: m'', st'') end
            end
        end in
      match fields m st with inl e => inl e | inr (m', st') => inr (VMap m', st') end
  | VList l =>
      let fix elements i l st :=
        match l with
        | [] => inr ([], st)
        | child :: l' =>
            match renderValue child st with
            | inl e => inl ("index " +:+ Itoa (Z.of_nat i) +:+ ": " +:+ e)
            | inr (child', st') => match elements (S i) l' st' with inl e => inl e | inr (l'', st'') => inr (child' :: l'', st'') end
            end
        end in
      match elements 0 l st with inl e => inl e | inr (l', st') => inr (VList l', st') end
  | _ => inr (val, st)
  end.

Fixpoint replaceField (k : string) (v : Value) (m : list (string * Value)) : list (string * Value) :=
  match m with [] => [] | (k', v') :: m' => if String.eqb k k' then (k, v) :: m' else (k', v') :: replaceField k v m' end.

Definition fieldOf (k : string) (m : list (string * Value)) : option Value :=
  match List.find (fun kv => String.eqb kv.1 k) m with Some kv => Some kv.2 | None => None end.

Definition renderSpec (config : Configuration) : string + (Configuration * SecretTracker) :=
  match marshal config with
  | inl e => inl ("failed to marshal config: " +:+ e)
  | inr configMap =>
      match fieldOf "spec" configMap with
      | None => inr (config, ∅)
      | Some specVal =>
          match renderValue specVal ∅ with
          | inl e => inl ("failed to render spec templates: " +:+ e)
          | inr (renderedSpec, tracker) =>
              match unmarshal config (replaceField "spec" renderedSpec configMap) with
              | inl e => inl ("failed to unmarshal rendered config into " +:+ typeName config +:+ ": " +:+ e)
              | inr result => inr (result, tracker)
              end
          end
      end
  end.

Definition set_Rendered (cfg : StoredConfig) (c : Configuration) (sensitive : list string) : StoredConfig :=
  mkStoredConfig (sc_UUID cfg) (sc_Kind cfg) (sc_Handle cfg) (sc_DisplayName cfg) (sc_Version cfg) c (sc_SourceConfiguration cfg) sensitive.

(** Of a configuration that is not nil. *)
Definition RenderSpec (cfg : StoredConfig) : string + StoredConfig :=
  match renderSpec (sc_Configuration cfg) with
  | inl e => inl ("failed to render configuration: failed to render config " +:+ Quote (sc_Handle cfg) +:+ " (kind=" +:+ sc_Kind cfg +:+ "): " +:+ e)
  | inr (c, tracker) => inr (set_Rendered cfg c (Tracker_Values tracker))
  end.

End Render.
