(* ===== verification/RuntimeSnapshot.v ===== *)
(** * RuntimeSnapshot: what the controller sends the policy engine

    gateway-controller: transform/llm.go and registry.go choose the
    transformer of an artifact; storage/runtime_config_store.go keeps the
    runtime configurations; policyxds/manager.go adds and removes them, each
    time rebuilding the snapshot (policyxds/snapshot.go): one policy-chain and
    one route-configuration resource per route, JSON objects in protobuf
    structs.  The protobuf library and the resource cache are the class
    [SnapshotWire]. *)

From stdpp Require Import base gmap strings list fin_maps.
From S2P Require Import Prelude GoStrings GoDuration Version Values Sdk Registry ChainBuild XdsHandlers Routes ManagementApi PolicyVersions RestTransform ConfigStore LlmTransform.

#[local] Set Warnings "-register-all".

Open Scope string_scope.

(** ** transform/llm.go and transform/registry.go *)

Record LLMTransformer : Type := mkLLMTransformer {
  lt_llmTransformer : LLMProviderTransformer;
  lt_restTransformer : RestAPITransformer;
  lt_store : ConfigStore
}.

Section Dispatch.
Context `{MapRange} `{RegistryRange} `{UrlParser}.

Definition LLM_KIND_PROVIDER : string := "LlmProvider".

Definition extractLLMMetadata (t : LLMTransformer) (cfg : StoredConfig) : option LLMMetadata :=
  let orNil templateHandle providerName :=
    if String.eqb templateHandle "" && String.eqb providerName "" then None else Some (mkLLMMetadata templateHandle providerName) in
  match sc_SourceConfiguration cfg with
  | CfgLLMProvider sc => orNil (lp_Template sc) (am_Name (lp_Metadata sc))
  | CfgLLMProxy sc =>
      match GetByKindAndHandle (lt_store t) LLM_KIND_PROVIDER (lxp_Id (lx_Provider sc)) with
      | None => Some (mkLLMMetadata "" "")
      | Some providerCfg =>
          match sc_SourceConfiguration providerCfg with
          | CfgLLMProvider provSrc => orNil (lp_Template provSrc) (am_Name (lp_Metadata provSrc))
          | _ => orNil "" ""
          end
      end
  | _ => orNil "" ""
  end.

Definition set_LLM (md : RdcMetadata) kind llm : RdcMetadata :=
  mkRdcMetadata (rdm_UUID md) kind (rdm_Handle md) (rdm_Version md) (rdm_DisplayName md) (rdm_ProjectID md) llm.

Definition LLMTransformer_Transform (t : LLMTransformer) (cfg : StoredConfig) : GoM unit RuntimeDeployConfig :=
  restAPI ← match sc_Configuration cfg with
            | CfgRestAPI existing => mret existing
            | _ => match sc_SourceConfiguration cfg with
                   | CfgLLMProvider _ | CfgLLMProxy _ =>
                       wrapErr (fun e => "LLM transformation failed: " +:+ e)
                         (LLMProviderTransformer_Transform (lt_llmTransformer t) (sc_SourceConfiguration cfg))
                   | sc => fail ("unsupported LLM source configuration type: " +:+ typeName sc)
                   end
            end;
  let tempCfg := mkStoredConfig (sc_UUID cfg) (sc_Kind cfg) (sc_Handle cfg) (sc_DisplayName cfg) (sc_Version cfg) (CfgRestAPI restAPI)
                   (sc_SourceConfiguration cfg) [] in
  rdc ← lift_err (orErr "RestAPI transformation for LLM failed" (Transform (lt_restTransformer t) tempCfg));
  let md := set_LLM (rdc_Metadata rdc) (sc_Kind cfg)
              (match extractLLMMetadata t cfg with Some llm => Some llm | None => rdm_LLM (rdc_Metadata rdc) end) in
  mret (mkRuntimeDeployConfig md (rdc_Context rdc) (rdc_PolicyChainResolver rdc) (rdc_Routes rdc) (rdc_PolicyChains rdc)
          (rdc_UpstreamClusters rdc) (sc_SensitiveValues cfg)).

Record TransformerRegistry : Type := mkTransformerRegistry { tr_restT : RestAPITransformer; tr_llmT : LLMTransformer }.

Definition Registry_Transform (r : TransformerRegistry) (cfg : StoredConfig) : GoM unit RuntimeDeployConfig :=
  let kind := sc_Kind cfg in
  if String.eqb kind "RestApi" || String.eqb kind "WebSubApi" || String.eqb kind "Mcp" then lift_err (Transform (tr_restT r) cfg)
  else if String.eqb kind "LlmProvider" || String.eqb kind "LlmProxy" then LLMTransformer_Transform (tr_llmT r) cfg
  else fail ("unsupported kind for runtime config: " +:+ kind).

End Dispatch.

(** ** storage/runtime_config_store.go *)

Record RuntimeConfigStore : Type := mkRuntimeConfigStore {
  rs_configs : gmap string RuntimeDeployConfig;
  rs_resourceVersion : Z
}.

Definition NewRuntimeConfigStore : RuntimeConfigStore := mkRuntimeConfigStore ∅ 0.

Definition RuntimeStore_Key (kind handle : string) : string := kind +:+ ":" +:+ handle.
Definition RuntimeStore_Set (key : string) (rdc : RuntimeDeployConfig) (s : RuntimeConfigStore) : RuntimeConfigStore :=
  mkRuntimeConfigStore (<[key := rdc]> (rs_configs s)) (rs_resourceVersion s).
Definition RuntimeStore_Get (s : RuntimeConfigStore) (key : string) : option RuntimeDeployConfig := rs_configs s !! key.
Definition RuntimeStore_GetAll `{MapRange} (s : RuntimeConfigStore) : list RuntimeDeployConfig := (range (rs_configs s)).*2.

(** An error and whether it wraps [ErrPolicyNotFound]. *)
Record StoreError : Type := mkStoreError { se_message : string; se_notFound : bool }.

Definition ErrPolicyNotFound : string := "policy configuration not found".

Definition RuntimeStore_Delete (key : string) (s : RuntimeConfigStore) : StoreError + RuntimeConfigStore :=
  match rs_configs s !! key with
  | None => inl (mkStoreError ("runtime config with key " +:+ key +:+ ": " +:+ ErrPolicyNotFound) true)
  | Some _ => inr (mkRuntimeConfigStore (delete key (rs_configs s)) (rs_resourceVersion s))
  end.

Definition RuntimeStore_IncrementResourceVersion (s : RuntimeConfigStore) : RuntimeConfigStore :=
  mkRuntimeConfigStore (rs_configs s) (int64_incr (rs_resourceVersion s)).

(** ** policyxds/snapshot.go: the resources *)

(** [structpb.NewStruct] of a JSON object, [anypb.New], and the bytes under
    which the cache delivers a resource. *)
Class SnapshotWire `{XdsCodec} := {
  newStruct : list (string * Value) -> string + PbStruct;
  anyNew : PbStruct -> string + AnyResource;
  marshalAny : AnyResource -> bytes
}.

Definition VStrings (l : list string) : Value := VList (VString <$> l).

Section Resources.
Context `{MapRange} `{SnapshotWire}.

Definition toAnyResource (data : list (string * Value)) (typeURL : string) : string + AnyResource :=
  match json_copy (VMap data) with
  | Some (VMap dataMap) =>
      sum_bind (orErr "failed to create struct" (newStruct dataMap)) (fun dataStruct =>
      sum_bind (orErr "failed to create Any message" (anyNew dataStruct)) (fun anyMsg =>
      inr (mkAny typeURL (any_Value anyMsg))))
  | _ => inl "failed to marshal to JSON: json: unsupported type"
  end.

Definition policyData (p : ModelPolicy) : Value :=
  VMap ([("name", VString (mp_Name p)); ("version", VString (mp_Version p)); ("enabled", VBool true);
         ("parameters", VMap (map_to_list (mp_Params p)))]
        ++ match mp_ExecutionCondition p with Some c => [("executionCondition", VString c)] | None => [] end)%list.

Definition policyChainData (routeKey : string) (chain : list ModelPolicy) (metadata : RdcMetadata) (sensitiveValues : list string) :
    list (string * Value) :=
  ([("configuration", VMap
      [("routes", VList [VMap [("route_key", VString routeKey); ("policies", VList (policyData <$> chain))]]);
       ("metadata", VMap [("api_name", VString (rdm_DisplayName metadata)); ("version", VString (rdm_Version metadata)); ("context", VString "")])])]
   ++ match sensitiveValues with [] => [] | _ => [("transport_metadata", VMap [("sensitive_values", VStrings sensitiveValues)])] end)%list.

Definition createPolicyChainResource routeKey chain metadata sensitiveValues : string + AnyResource :=
  toAnyResource (policyChainData routeKey chain metadata sensitiveValues) PolicyChainTypeURL.

Definition stringMap (m : gmap string string) : Value := VMap ((fun kv => (kv.1, VString kv.2)) <$> map_to_list m).

Definition routeConfigData (routeKey : string) (rdc : RuntimeDeployConfig) (route : RdcRoute) (upstreamBasePath : string)
    (upstreamDefPaths : gmap string string) : list (string * Value) :=
  let md := rdc_Metadata rdc in
  let metadataMap :=
    ([("uuid", VString (rdm_UUID md)); ("kind", VString (rdm_Kind md)); ("handle", VString (rdm_Handle md)); ("version", VString (rdm_Version md));
      ("display_name", VString (rdm_DisplayName md)); ("project_id", VString (rdm_ProjectID md)); ("api_context", VString (rdc_Context rdc));
      ("vhost", VString (rr_Vhost route)); ("path", VString (rr_OperationPath route))]
     ++ match rdm_LLM md with
        | Some llm => [("template_handle", VString (lm_TemplateHandle llm)); ("provider_name", VString (lm_ProviderName llm))]
        | None => []
        end)%list in
  ([("route_key", VString routeKey); ("metadata", VMap metadataMap); ("resolver_name", VString (rdc_PolicyChainResolver rdc));
    ("upstream_base_path", VString upstreamBasePath); ("upstream_definition_paths", stringMap upstreamDefPaths)]
   ++ (if ru_UseClusterHeader (rr_Upstream route) && negb (String.eqb (ru_DefaultCluster (rr_Upstream route)) "")
       then [("default_upstream_cluster", VString (ru_DefaultCluster (rr_Upstream route)))] else [])
   ++ match ru_Default (rr_Upstream route) with Some info => [("default_upstream", UpstreamInfo_ToMap info)] | None => [] end)%list.

Definition createRouteConfigResource (routeKey : string) (rdc : RuntimeDeployConfig) (route : RdcRoute) (upstreamBasePath : string)
    (upstreamDefPaths : gmap string string) : string + AnyResource :=
  toAnyResource (routeConfigData routeKey rdc route upstreamBasePath upstreamDefPaths) RouteConfigTypeURL.

(** The base path of the cluster of a route, and the base paths of the
    definitions by name. *)
Definition upstreamBasePathOf (rdc : RuntimeDeployConfig) (route : RdcRoute) : string :=
  match rdc_UpstreamClusters rdc !! ru_ClusterKey (rr_Upstream route) with Some uc => uc_BasePath uc | None => "/" end.

Definition upstreamDefPathsOf (rdc : RuntimeDeployConfig) : gmap string string :=
  foldl (fun paths kuc => if negb (String.eqb (uc_Name kuc.2) "") then <[uc_Name kuc.2 := uc_BasePath kuc.2]> paths else paths)
    ∅ (range (rdc_UpstreamClusters rdc)).

(** A loop that builds a resource per entry; a failure is logged and
    skipped. *)
Definition collectResources {A} (create : string -> A -> string + AnyResource) (m : gmap string A) (acc : gmap string AnyResource) :
    gmap string AnyResource :=
  foldl (fun acc kv => match create kv.1 kv.2 with inr r => <[kv.1 := r]> acc | inl _ => acc end) acc (range m).

Definition translateRuntimeConfig (acc : gmap string AnyResource * gmap string AnyResource) (rdc : RuntimeDeployConfig) :
    gmap string AnyResource * gmap string AnyResource :=
  (collectResources (fun routeKey chain => createPolicyChainResource routeKey chain (rdc_Metadata rdc) (rdc_SensitiveValues rdc))
     (rdc_PolicyChains rdc) acc.1,
   collectResources (fun routeKey route => createRouteConfigResource routeKey rdc route (upstreamBasePathOf rdc route) (upstreamDefPathsOf rdc))
     (rdc_Routes rdc) acc.2).

(** The policy-chain resources and the route-configuration resources. *)
Definition TranslateRuntimeConfigs (rdcs : list RuntimeDeployConfig) : gmap string AnyResource * gmap string AnyResource :=
  foldl translateRuntimeConfig (∅, ∅) rdcs.

(** ** policyxds/snapshot.go: the snapshot *)

(** The calls made to the cache of a resource type. *)
Inductive CacheCall : Type :=
| SetResources (resources : gmap string AnyResource)
| UpdateResource (name : string) (resource : AnyResource).

(** What a cache holds after the calls, oldest first. *)
Definition cacheContent (calls : list CacheCall) : gmap string AnyResource :=
  foldl (fun content c => match c with SetResources rs => rs | UpdateResource n r => <[n := r]> content end) ∅ calls.

(** The extension point of the event gateway. *)
Record EventChannelTranslator : Type := mkEventChannelTranslator {
  TranslateWebSubApis : list StoredConfig -> gmap string AnyResource;
  TranslateWebBrokerApis : list StoredConfig -> gmap string AnyResource
}.

Record SnapshotManager : Type := mkSnapshotManager {
  sm_policyCache : list CacheCall;
  sm_routeCache : list CacheCall;
  sm_eventChannelCache : list CacheCall;
  sm_configStore : option ConfigStore;
  sm_runtimeStore : option RuntimeConfigStore;
  sm_eventChannelHooks : option EventChannelTranslator
}.

Definition EventChannelConfigTypeURL : string := "api-platform.wso2.org/v1.EventChannelConfig".

Definition buildDeletionMarkerResource (uuid : string) : string + AnyResource :=
  toAnyResource [("uuid", VString uuid); ("deleted", VBool true)] EventChannelConfigTypeURL.

(** The calls that bring the event channels from [current] to [resources]: a
    marker for every resource that goes, then the whole set. *)
Definition eventChannelCalls (current resources : gmap string AnyResource) : list CacheCall :=
  (omap (fun kv => match resources !! kv.1 with
                   | Some _ => None
                   | None => match buildDeletionMarkerResource kv.1 with inr marker => Some (UpdateResource kv.1 marker) | inl _ => None end
                   end) (range current) ++ [SetResources resources])%list.

(** The error of [TranslateRuntimeConfigs] is always nil, so the update does
    not fail. *)
Definition UpdateSnapshot (sm : SnapshotManager) : SnapshotManager :=
  match sm_runtimeStore sm with
  | None => sm
  | Some store =>
      let '(policyById, routeById) := TranslateRuntimeConfigs (RuntimeStore_GetAll store) in
      let events :=
        match sm_configStore sm, sm_eventChannelHooks sm with
        | Some cs, Some hooks =>
            let eventChannelResources := map_copy_into (TranslateWebSubApis hooks (GetAllByKind cs "WebSubApi"))
                                           (TranslateWebBrokerApis hooks (GetAllByKind cs "WebBrokerApi")) in
            eventChannelCalls (cacheContent (sm_eventChannelCache sm)) eventChannelResources
        | _, _ => []
        end in
      mkSnapshotManager (sm_policyCache sm ++ [SetResources policyById]) (sm_routeCache sm ++ [SetResources routeById])
        (sm_eventChannelCache sm ++ events) (sm_configStore sm) (Some (RuntimeStore_IncrementResourceVersion store)) (sm_eventChannelHooks sm)
  end%list.

(** ** policyxds/manager.go *)

Definition set_runtimeStore (sm : SnapshotManager) (store : RuntimeConfigStore) : SnapshotManager :=
  mkSnapshotManager (sm_policyCache sm) (sm_routeCache sm) (sm_eventChannelCache sm) (sm_configStore sm) (Some store) (sm_eventChannelHooks sm).

(** The manager and its snapshot manager share the runtime store.  The state
    is returned in every case, with the error if there is one. *)
Record PolicyManager : Type := mkPolicyManager {
  pm_snapshotManager : SnapshotManager;
  pm_transformers : option (StoredConfig -> GoM unit RuntimeDeployConfig)
}.

Definition set_snapshotManager pm sm := mkPolicyManager sm (pm_transformers pm).

Definition AddRuntimeConfig (key : string) (rdc : RuntimeDeployConfig) (pm : PolicyManager) : PolicyManager * option StoreError :=
  match sm_runtimeStore (pm_snapshotManager pm) with
  | None => (pm, Some (mkStoreError "runtime config store not configured" false))
  | Some store => (set_snapshotManager pm (UpdateSnapshot (set_runtimeStore (pm_snapshotManager pm) (RuntimeStore_Set key rdc store))), None)
  end.

Definition RemoveRuntimeConfig (key : string) (pm : PolicyManager) : PolicyManager * option StoreError :=
  match sm_runtimeStore (pm_snapshotManager pm) with
  | None => (pm, Some (mkStoreError "runtime config store not configured" false))
  | Some store =>
      match RuntimeStore_Delete key store with
      | inl e => (pm, Some (mkStoreError ("failed to delete runtime config: " +:+ se_message e) (se_notFound e)))
      | inr store' => (set_snapshotManager pm (UpdateSnapshot (set_runtimeStore (pm_snapshotManager pm) store')), None)
      end
  end.

(** [None] if the transformation panics. *)
Definition UpsertAPIConfig (cfg : StoredConfig) (pm : PolicyManager) : option (PolicyManager * option StoreError) :=
  match sm_runtimeStore (pm_snapshotManager pm) with
  | None => Some (pm, Some (mkStoreError "runtime config store not configured" false))
  | Some _ =>
      match pm_transformers pm with
      | None => Some (pm, Some (mkStoreError "transformer registry not configured" false))
      | Some transform =>
          match transform cfg tt with
          | Err _ err => Some (pm, Some (mkStoreError ("failed to transform config: " +:+ err) false))
          | Ok _ rdc => Some (AddRuntimeConfig (RuntimeStore_Key (sc_Kind cfg) (sc_Handle cfg)) rdc pm)
          | Panic => None
          end
      end
  end.

(** A missing configuration is not an error. *)
Definition DeleteAPIConfig (kind handle : string) (pm : PolicyManager) : PolicyManager * option StoreError :=
  match RemoveRuntimeConfig (RuntimeStore_Key kind handle) pm with
  | (pm', Some e) => if se_notFound e then (pm', None) else (pm', Some e)
  | (pm', None) => (pm', None)
  end.

Definition UpdateEventChannelSnapshot (pm : PolicyManager) : PolicyManager :=
  set_snapshotManager pm (UpdateSnapshot (pm_snapshotManager pm)).

Definition GetResourceVersion (pm : PolicyManager) : Z :=
  match sm_runtimeStore (pm_snapshotManager pm) with Some s => rs_resourceVersion s | None => 0%Z end.

End Resources.
