(* ===== verification/StateSnapshots.v ===== *)
(** * StateSnapshots: API keys, lazy resources and subscriptions for the engine

    gateway-controller: storage/apikey_store.go with pkg/apikeyxds,
    storage/lazy_resource_store.go with pkg/lazyresourcexds, and
    pkg/subscriptionxds.  Each manager turns the whole state of its store into
    one resource, a JSON object in a protobuf struct, and puts it into the
    cache that serves the engine. *)

From stdpp Require Import base gmap strings list fin_maps.
From S2P Require Import Prelude GoStrings Version Values JsonWire NestedMap Subscriptions LazyResources XdsHandlers Routes ManagementApi ConfigStore RestTransform RuntimeSnapshot.

#[local] Set Warnings "-register-all".

Open Scope string_scope.

(** ** storage/apikey_store.go

    The two maps hold the same objects.  [Revoke] changes the status of an
    object that it takes out of both, so the keys of the store are values
    here. *)

Record APIKeyStore : Type := mkAPIKeyStore {
  ks_apiKeys : gmap string ControllerAPIKey;
  ks_apiKeysByAPI : nmap ControllerAPIKey;
  ks_resourceVersion : Z
}.

Definition NewAPIKeyStore : APIKeyStore := mkAPIKeyStore ∅ ∅ 0.

Definition KeyStore_GetCompositeKey (apiId keyName : string) : string := apiId +:+ ":" +:+ keyName.

Section KeyStore.
Context `{MapRange}.

Definition KeyStore_Store (apiKey : ControllerAPIKey) (s : APIKeyStore) : APIKeyStore :=
  let api := ck_ArtifactUUID apiKey in
  let existingKeys := default ∅ (ks_apiKeysByAPI s !! api) in
  let existingKeyID := existingKeyIDOf existingKeys (ck_Name apiKey) in
  let compositeKey := KeyStore_GetCompositeKey api (ck_Name apiKey) in
  if negb (String.eqb existingKeyID "") then
    mkAPIKeyStore (<[compositeKey := apiKey]> (delete compositeKey (ks_apiKeys s)))
      (<[api := <[ck_UUID apiKey := apiKey]> (delete existingKeyID existingKeys)]> (ks_apiKeysByAPI s)) (ks_resourceVersion s)
  else
    mkAPIKeyStore (<[compositeKey := apiKey]> (ks_apiKeys s)) (ninsert api (ck_UUID apiKey) apiKey (ks_apiKeysByAPI s)) (ks_resourceVersion s).

Definition KeyStore_GetAll (s : APIKeyStore) : list ControllerAPIKey := (range (ks_apiKeys s)).*2.

Definition KeyStore_Revoke (apiId apiKeyName : string) (s : APIKeyStore) : APIKeyStore * bool :=
  let compositeKey := KeyStore_GetCompositeKey apiId apiKeyName in
  match ks_apiKeys s !! compositeKey with
  | None => (s, false)
  | Some apiKey =>
      (mkAPIKeyStore (delete compositeKey (ks_apiKeys s)) (ndelete (ck_ArtifactUUID apiKey) (ck_UUID apiKey) (ks_apiKeysByAPI s))
         (ks_resourceVersion s), true)
  end.

Definition KeyStore_RemoveByAPI (apiId : string) (s : APIKeyStore) : APIKeyStore * Z :=
  let apiKeys := default ∅ (ks_apiKeysByAPI s !! apiId) in
  (mkAPIKeyStore (foldl (fun m kv => delete (KeyStore_GetCompositeKey (ck_ArtifactUUID kv.2) (ck_Name kv.2)) m) (ks_apiKeys s) (range apiKeys))
     (delete apiId (ks_apiKeysByAPI s)) (ks_resourceVersion s),
   Z.of_nat (size apiKeys)).

Definition KeyStore_Count (s : APIKeyStore) : Z := Z.of_nat (size (ks_apiKeys s)).

Definition KeyStore_IncrementResourceVersion (s : APIKeyStore) : APIKeyStore :=
  mkAPIKeyStore (ks_apiKeys s) (ks_apiKeysByAPI s) (int64_incr (ks_resourceVersion s)).

Definition KeyStore_Clear (s : APIKeyStore) : APIKeyStore := mkAPIKeyStore ∅ ∅ (ks_resourceVersion s).

End KeyStore.

(** ** apikeyxds/apikey_snapshot.go *)

Section Snapshots.
Context `{MapRange} `{SnapshotWire} `{TimeJSON}.

(** The struct of a JSON text, wrapped in an [Any] of the given type. *)
Definition structResource (msgStruct msgAny : string) (object : list (string * Value)) (typeURL : string) : string + AnyResource :=
  sum_bind (orErr msgStruct (newStruct object)) (fun structValue =>
  sum_bind (orErr msgAny (anyNew structValue)) (fun resource => inr (mkAny typeURL (any_Value resource)))).

(** A member that is left out when it is empty. *)
Definition omitEmpty (k s : string) : list (string * Value) := if String.eqb s "" then [] else [(k, VString s)].
Definition omitNil (k : string) (s : option string) : list (string * Value) := match s with Some s => [(k, VString s)] | None => [] end.

(** The JSON of an [APIKeyData]. *)
Definition apiKeyJSON (apiKey : ControllerAPIKey) : option Value :=
  createdAt ← time_format (ck_CreatedAt apiKey);
  updatedAt ← time_format (ck_UpdatedAt apiKey);
  expiresAt ← match ck_ExpiresAt apiKey with Some e => VString <$> time_format e | None => Some VNil end;
  Some (VMap ([("id", VString (ck_UUID apiKey)); ("name", VString (ck_Name apiKey)); ("apiKey", VString (ck_APIKey apiKey));
               ("apiId", VString (ck_ArtifactUUID apiKey))]
              ++ omitEmpty "applicationId" (ck_ApplicationID apiKey) ++ omitEmpty "applicationName" (ck_ApplicationName apiKey)
              ++ [("operations", VString "*"); ("status", VString (ck_Status apiKey)); ("createdAt", VString createdAt);
                  ("createdBy", VString (ck_CreatedBy apiKey)); ("updatedAt", VString updatedAt); ("expiresAt", expiresAt);
                  ("source", VString (ck_Source apiKey))]
              ++ omitNil "issuer" (ck_Issuer apiKey)))%list.

(** The state resource: version 1, timestamp 0. *)
Definition stateObject (field : string) (elems : list Value) : list (string * Value) :=
  [(field, VList elems); ("version", VFloat 1 0); ("timestamp", VFloat 0 0)].

Definition TranslateAPIKeys (apiKeys : list ControllerAPIKey) : string + AnyResource :=
  orErr "failed to create API key state resource"
    (match mapM apiKeyJSON apiKeys with
     | None => inl "failed to marshal API key state resource"
     | Some elems => structResource "failed to convert to protobuf struct" "failed to wrap in Any" (stateObject "apiKeys" elems) APIKeyStateTypeURL
     end).

(** The calls made to the cache, and the store. *)
Record APIKeySnapshotManager : Type := mkAPIKeySnapshotManager { akm_cache : list CacheCall; akm_store : APIKeyStore }.

(** The operations return the error, if there is one, with the state. *)
Definition KeySnapshot_UpdateSnapshot (sm : APIKeySnapshotManager) : APIKeySnapshotManager * option string :=
  match TranslateAPIKeys (KeyStore_GetAll (akm_store sm)) with
  | inl e => (sm, Some ("failed to translate API keys: " +:+ e))
  | inr resource =>
      (mkAPIKeySnapshotManager (akm_cache sm ++ [SetResources {["apikey-state-0" := resource]}])%list
         (KeyStore_IncrementResourceVersion (akm_store sm)), None)
  end.

Definition set_keyStore (sm : APIKeySnapshotManager) (s : APIKeyStore) : APIKeySnapshotManager := mkAPIKeySnapshotManager (akm_cache sm) s.

(** [Store] never fails. *)
Definition KeySnapshot_StoreAPIKey (apiKey : ControllerAPIKey) (sm : APIKeySnapshotManager) :=
  KeySnapshot_UpdateSnapshot (set_keyStore sm (KeyStore_Store apiKey (akm_store sm))).
Definition KeySnapshot_RevokeAPIKey (apiId apiKeyName : string) (sm : APIKeySnapshotManager) :=
  KeySnapshot_UpdateSnapshot (set_keyStore sm (KeyStore_Revoke apiId apiKeyName (akm_store sm)).1).
Definition KeySnapshot_RemoveAPIKeysByAPI (apiId : string) (sm : APIKeySnapshotManager) :=
  KeySnapshot_UpdateSnapshot (set_keyStore sm (KeyStore_RemoveByAPI apiId (akm_store sm)).1).

Definition MaskAPIKey (apiKey : string) : string :=
  let n := String.length apiKey in
  if (n <=? 12)%nat then "****" else string_take 8 apiKey +:+ "****" +:+ string_drop (n - 4) apiKey.

(** ** apikeyxds/apikey_manager.go *)

Definition wrapping {M} (msg : string) (r : M * option string) : M * option string :=
  (r.1, (fun e => msg +:+ ": " +:+ e) <$> r.2).

Definition KeyManager_StoreAPIKey (apiKey : ControllerAPIKey) sm := wrapping "failed to store API key" (KeySnapshot_StoreAPIKey apiKey sm).
Definition KeyManager_RevokeAPIKey (apiId apiKeyName : string) sm :=
  wrapping "failed to revoke API key" (KeySnapshot_RevokeAPIKey apiId apiKeyName sm).
Definition KeyManager_RemoveAPIKeysByAPI (apiId : string) sm :=
  wrapping "failed to remove API keys by API" (KeySnapshot_RemoveAPIKeysByAPI apiId sm).
Definition KeyManager_RefreshSnapshot sm := wrapping "failed to refresh snapshot" (KeySnapshot_UpdateSnapshot sm).

(** ** storage/lazy_resource_store.go *)

Record ControllerLazyStore : Type := mkControllerLazyStore { zs_byType : nmap LazyResource; zs_resourceVersion : Z }.

Definition NewControllerLazyStore : ControllerLazyStore := mkControllerLazyStore ∅ 0.

Definition LazyStore_Store (r : LazyResource) (s : ControllerLazyStore) : ControllerLazyStore :=
  mkControllerLazyStore (ninsert (lr_ResourceType r) (lr_ID r) r (zs_byType s)) (zs_resourceVersion s).
Definition LazyStore_GetByIDAndType (s : ControllerLazyStore) (id resourceType : string) : option LazyResource :=
  nlookup (zs_byType s) resourceType id.
Definition LazyStore_GetByType (s : ControllerLazyStore) (resourceType : string) : gmap string LazyResource :=
  default ∅ (zs_byType s !! resourceType).
Definition LazyStore_GetAll (s : ControllerLazyStore) : list LazyResource :=
  concat ((fun kv => (range kv.2).*2) <$> range (zs_byType s)).
Definition LazyStore_RemoveByIDAndType (id resourceType : string) (s : ControllerLazyStore) : ControllerLazyStore * bool :=
  match nlookup (zs_byType s) resourceType id with
  | Some _ => (mkControllerLazyStore (ndelete resourceType id (zs_byType s)) (zs_resourceVersion s), true)
  | None => (s, false)
  end.
Definition LazyStore_RemoveByType (resourceType : string) (s : ControllerLazyStore) : ControllerLazyStore * Z :=
  match zs_byType s !! resourceType with
  | None => (s, 0%Z)
  | Some typeMap => (mkControllerLazyStore (delete resourceType (zs_byType s)) (zs_resourceVersion s), Z.of_nat (size typeMap))
  end.
Definition LazyStore_Count (s : ControllerLazyStore) : Z := Z.of_nat (sum_list ((fun kv => size kv.2) <$> range (zs_byType s))).
Definition LazyStore_IncrementResourceVersion (s : ControllerLazyStore) : ControllerLazyStore :=
  mkControllerLazyStore (zs_byType s) (int64_incr (zs_resourceVersion s)).

(** ** lazyresourcexds *)

Definition lazyResourceJSON (r : LazyResource) : option Value :=
  json_copy (VMap [("id", VString (lr_ID r)); ("resource_type", VString (lr_ResourceType r)); ("resource", VMap (map_to_list (lr_Resource r)))]).

Definition TranslateResources (resources : list LazyResource) : string + AnyResource :=
  orErr "failed to create lazy resource state resource"
    (match mapM lazyResourceJSON resources with
     | None => inl "failed to marshal lazy resource state resource"
     | Some elems => structResource "failed to convert to protobuf struct" "failed to wrap in Any" (stateObject "resources" elems) LazyResourceTypeURL
     end).

Record LazyResourceSnapshotManager : Type := mkLazyResourceSnapshotManager { lzm_cache : list CacheCall; lzm_store : ControllerLazyStore }.

Definition LazySnapshot_UpdateSnapshot (sm : LazyResourceSnapshotManager) : LazyResourceSnapshotManager * option string :=
  match TranslateResources (LazyStore_GetAll (lzm_store sm)) with
  | inl e => (sm, Some ("failed to translate lazy resources: " +:+ e))
  | inr resource =>
      (mkLazyResourceSnapshotManager (lzm_cache sm ++ [SetResources {["lazy-resources-state" := resource]}])%list
         (LazyStore_IncrementResourceVersion (lzm_store sm)), None)
  end.

Definition set_lazyStore (sm : LazyResourceSnapshotManager) (s : ControllerLazyStore) := mkLazyResourceSnapshotManager (lzm_cache sm) s.

Definition LazySnapshot_StoreResource (r : LazyResource) (sm : LazyResourceSnapshotManager) :=
  LazySnapshot_UpdateSnapshot (set_lazyStore sm (LazyStore_Store r (lzm_store sm))).
Definition LazySnapshot_RemoveResourceByIDAndType (id resourceType : string) (sm : LazyResourceSnapshotManager) :=
  match LazyStore_RemoveByIDAndType id resourceType (lzm_store sm) with
  | (_, false) => (sm, Some ("lazy resource not found with id " +:+ Quote id +:+ " and type " +:+ Quote resourceType))
  | (s, true) => LazySnapshot_UpdateSnapshot (set_lazyStore sm s)
  end.
Definition LazySnapshot_RemoveResourcesByType (resourceType : string) (sm : LazyResourceSnapshotManager) :=
  LazySnapshot_UpdateSnapshot (set_lazyStore sm (LazyStore_RemoveByType resourceType (lzm_store sm)).1).

Definition LazyManager_StoreResource (r : LazyResource) sm := wrapping "failed to store lazy resource" (LazySnapshot_StoreResource r sm).
Definition LazyManager_RemoveResourceByIDAndType (id resourceType : string) sm :=
  wrapping "failed to remove lazy resource" (LazySnapshot_RemoveResourceByIDAndType id resourceType sm).
Definition LazyManager_RemoveResourcesByType (resourceType : string) sm :=
  wrapping "failed to remove lazy resources by type" (LazySnapshot_RemoveResourcesByType resourceType sm).
Definition LazyManager_RefreshSnapshot sm := wrapping "failed to refresh snapshot" (LazySnapshot_UpdateSnapshot sm).

(** ** subscriptionxds/subscription_snapshot.go *)

(** models/subscription.go and subscription_plan.go, as far as read. *)
Record Subscription : Type := mkSubscription {
  sub_ID : string;
  sub_APIID : string;
  sub_ApplicationID : option string;
  sub_SubscriptionTokenHash : string;
  sub_SubscriptionPlanID : option string;
  sub_BillingCustomerID : option string;
  sub_BillingSubscriptionID : option string;
  sub_Status : string
}.

Record SubscriptionPlan : Type := mkSubscriptionPlan {
  pl_ID : string;
  pl_PlanName : string;
  pl_StopOnQuotaReach : bool;
  pl_ThrottleLimitCount : option Z;
  pl_ThrottleLimitUnit : option string
}.

(** The entry of a subscription; its plan must be known. *)
Definition subscriptionData (planMap : gmap string SubscriptionPlan) (s : Subscription) : string + SubscriptionData :=
  let entry := mkSubscriptionData (sub_APIID s) (default "" (sub_ApplicationID s)) (sub_SubscriptionTokenHash s) (sub_Status s) in
  match sub_SubscriptionPlanID s with
  | None => inr (entry 0%Z "" false "" (sub_BillingCustomerID s) (sub_BillingSubscriptionID s))
  | Some planID =>
      match planMap !! planID with
      | None => inl ("subscription " +:+ sub_ID s +:+ " references plan " +:+ planID +:+ " which is missing")
      | Some plan => inr (entry (default 0%Z (pl_ThrottleLimitCount plan)) (default "" (pl_ThrottleLimitUnit plan)) (pl_StopOnQuotaReach plan)
                            (pl_PlanName plan) (sub_BillingCustomerID s) (sub_BillingSubscriptionID s))
      end
  end.

(** All entries, or the first error. *)
Fixpoint collectEntries (planMap : gmap string SubscriptionPlan) (l : list Subscription) : string + list SubscriptionData :=
  match l with
  | [] => inr []
  | s :: l' => sum_bind (subscriptionData planMap s) (fun d => sum_bind (collectEntries planMap l') (fun ds => inr (d :: ds)))
  end.

Definition subsByAPI (subs : list (option Subscription)) : gmap string (list Subscription) :=
  foldl (fun m s => match s with Some s => <[sub_APIID s := (default [] (m !! sub_APIID s) ++ [s])%list]> m | None => m end) ∅ subs.

(** The entries of the active subscriptions of the deployed REST APIs. *)
Definition snapshotEntries (configs : list (option StoredConfig)) (plans : list (option SubscriptionPlan)) (subs : list (option Subscription)) :
    string + list SubscriptionData :=
  let planMap := foldl (fun m p => match p with Some p => <[pl_ID p := p]> m | None => m end) (∅ : gmap string SubscriptionPlan) plans in
  let apiIDs : gset string :=
    foldl (fun ids c => match c with Some c => if String.eqb (sc_Kind c) "RestApi" then {[sc_UUID c]} ∪ ids else ids | None => ids end) ∅ configs in
  collectEntries planMap (concat ((fun kv => if decide (kv.1 ∈ apiIDs) then kv.2 else []) <$> range (subsByAPI subs))).

(** The JSON of an entry; numbers are read as [float64]. *)
Definition subscriptionJSON (d : SubscriptionData) : Value :=
  let '(m, e) := int_to_float (sd_ThrottleLimitCount d) in
  VMap ([("apiId", VString (sd_APIId d)); ("subscriptionToken", VString (sd_SubscriptionToken d)); ("status", VString (sd_Status d))]
        ++ omitEmpty "applicationId" (sd_ApplicationId d)
        ++ (if (sd_ThrottleLimitCount d =? 0)%Z then [] else [("throttleLimitCount", VFloat m e)])
        ++ omitEmpty "throttleLimitUnit" (sd_ThrottleLimitUnit d)
        ++ (if sd_StopOnQuotaReach d then [("stopOnQuotaReach", VBool true)] else [])
        ++ omitEmpty "planName" (sd_PlanName d) ++ omitNil "billingCustomerId" (sd_BillingCustomerId d)
        ++ omitNil "billingSubscriptionId" (sd_BillingSubscriptionId d))%list.

(** The manager keeps the calls to its cache and a version; what it reads of
    the storage, and the time, are arguments. *)
Record SubscriptionSnapshotManager : Type := mkSubscriptionSnapshotManager { ssm_cache : list CacheCall; ssm_version : Z }.

Definition createSubscriptionStateResource (subs : list SubscriptionData) (version now : Z) : string + AnyResource :=
  match time_format now with
  | None => inl "failed to marshal subscription state"
  | Some timestamp =>
      let '(m, e) := int_to_float version in
      structResource "failed to convert subscription state to struct" "failed to wrap subscription state in Any" [("subscriptions", match subs with [] => VNil | _ => VList (subscriptionJSON <$> subs) end); ("version", VFloat m e);
                      ("timestamp", VString timestamp)] SubscriptionStateTypeURL
  end.

Definition Subscription_UpdateSnapshot (configs : string + list (option StoredConfig)) (plans : string + list (option SubscriptionPlan))
    (active : string + list (option Subscription)) (now : Z) (sm : SubscriptionSnapshotManager) : SubscriptionSnapshotManager * option string :=
  match
    sum_bind (orErr "failed to load configs for subscription snapshot" configs) (fun configs =>
    sum_bind (orErr "failed to list subscription plans for snapshot" plans) (fun plans =>
    sum_bind (orErr "failed to list active subscriptions for snapshot" active) (fun active =>
    sum_bind (snapshotEntries configs plans active) (fun subs =>
    orErr "failed to create subscription state resource" (createSubscriptionStateResource subs (int64_incr (ssm_version sm)) now)))))
  with
  | inl e => (sm, Some e)
  | inr resource => (mkSubscriptionSnapshotManager (ssm_cache sm ++ [SetResources {["subscription-state" := resource]}])%list (int64_incr (ssm_version sm)), None)
  end.

(** ** storage/loaders.go

    What the database returns is an argument. *)

Definition LoadFromDatabase (configs : string + list StoredConfig) : GoM ConfigStore unit :=
  configs ← lift_err (orErr "failed to load configurations from database" configs);
  for_range (fun _ cfg _ =>
      wrapErr (fun e => "failed to load config " +:+ sc_UUID cfg +:+ " into cache: " +:+ e) (ConfigStore_Add cfg);;
      mret (Continue tt)) 0 configs tt.

Definition LoadLLMProviderTemplatesFromDatabase (templates : string + list StoredLLMProviderTemplate) : GoM ConfigStore unit :=
  templates ← lift_err (orErr "failed to load templates from database" templates);
  for_range (fun _ template _ =>
      wrapErr (fun e => "failed to load llm provider template " +:+ GetHandle template +:+ " into cache: " +:+ e) (AddTemplate template);;
      mret (Continue tt)) 0 templates tt.

(** One key goes into both stores.  The second never refuses it, so the
    first is never rolled back; for a nil key the first returns an error,
    whose message reads a field of the key. *)
Definition loadKey (apiKey : option ControllerAPIKey) : GoM (ConfigStore * APIKeyStore) unit := fun s =>
  match ConfigStore_StoreAPIKey apiKey s.1, apiKey with
  | Ok cs _, Some k => Ok (cs, KeyStore_Store k s.2) tt
  | Err cs e, Some k => Err (cs, s.2) ("failed to load API key " +:+ ck_UUID k +:+ " into ConfigStore: " +:+ e)
  | _, _ => Panic
  end.

Definition LoadAPIKeysFromDatabase (apiKeys : string + list (option ControllerAPIKey)) : GoM (ConfigStore * APIKeyStore) unit :=
  apiKeys ← lift_err (orErr "failed to load API keys from database" apiKeys);
  for_range (fun _ apiKey _ => loadKey apiKey;; mret (Continue tt)) 0 apiKeys tt.

End Snapshots.
