(* ===== verification/ArtifactTables.v ===== *)
(** * ArtifactTables: the artifacts in the database

    src/gateway/gateway-controller/pkg/storage/sql_store.go, as far as it keeps
    artifacts, and models/data_version.go.  The tables are those of
    gateway-controller-db.sql for one gateway, modelled by the meaning of the
    statements the code executes and of the constraints the schema declares;
    any statement may fail.  A transaction changes all tables or none. *)

From stdpp Require Import base gmap strings list fin_maps sorting.
From S2P Require Import Prelude GoStrings GoSort Routes ManagementApi ConfigStore StateSnapshots.

#[local] Set Warnings "-register-all".

Open Scope string_scope.

(** ** models/stored_config.go: the rest of the struct

    [at_config] has the fields the transformers and stores read.  Times are
    nanoseconds since 1970. *)
Record Artifact : Type := mkArtifact {
  at_config : StoredConfig;
  at_DataVersion : string;
  at_DesiredState : string;
  at_DeploymentID : string;
  at_Origin : string;
  at_CreatedAt : Z;
  at_UpdatedAt : Z;
  at_DeployedAt : option Z;
  at_CPSyncStatus : string;
  at_CPSyncInfo : string;
  at_CPArtifactID : string
}.

Definition StateDeployed : string := "deployed".
Definition StateUndeployed : string := "undeployed".
Definition OriginControlPlane : string := "control_plane".
Definition OriginGatewayAPI : string := "gateway_api".
Definition CPSyncStatusPending : string := "pending".

Definition IsValidOrigin (o : string) : bool := String.eqb o OriginControlPlane || String.eqb o OriginGatewayAPI.

(** ** models/data_version.go *)

Definition defaultDataVersion : string := "1.0".

(** What follows the last [sep]. *)
Fixpoint afterLast (sep s : string) : option string :=
  match s with
  | "" => None
  | String _ s' =>
      match afterLast sep s' with
      | Some r => Some r
      | None => if String.prefix sep s then Some (string_drop (String.length sep) s) else None
      end
  end.

Definition isDecimal (c : Ascii.ascii) : bool := (48 <=? Ascii.N_of_ascii c)%N && (Ascii.N_of_ascii c <=? 57)%N.
Fixpoint takeDigits (s : string) : string :=
  match s with "" => "" | String c s' => if isDecimal c then String c (takeDigits s') else "" end.

Definition majorFromApiVersion (apiVersion : string) : string :=
  match afterLast "/v" apiVersion with None => "" | Some suffix => takeDigits suffix end.

(** The minor version of every kind is 0. *)
Definition ComputeDataVersion (apiVersion : string) : string :=
  let major := majorFromApiVersion apiVersion in
  if String.eqb major "" then defaultDataVersion else major +:+ ".0".

Definition ensureDataVersion (a : Artifact) : Artifact :=
  if String.eqb (at_DataVersion a) ""
  then mkArtifact (at_config a) (ComputeDataVersion (GetApiVersion (at_config a))) (at_DesiredState a) (at_DeploymentID a) (at_Origin a) (at_CreatedAt a)
         (at_UpdatedAt a) (at_DeployedAt a) (at_CPSyncStatus a) (at_CPSyncInfo a) (at_CPArtifactID a)
  else a.

(** ** The tables *)

Record Row : Type := mkRow {
  aw_uuid : string;
  aw_display_name : string;
  aw_version : string;
  aw_data_version : string;
  aw_kind : string;
  aw_handle : string;
  aw_desired_state : string;
  aw_deployment_id : option string;
  aw_origin : string;
  aw_created_at : Z;
  aw_updated_at : Z;
  aw_deployed_at : option Z;
  aw_cp_sync_status : option string;
  aw_cp_sync_info : option string;
  aw_cp_artifact_id : option string
}.

(** A row of a table of one kind; only llm_proxies has a provider. *)
Record ResourceRow : Type := mkResourceRow { re_configuration : string; re_provider_uuid : option string }.

(** [ts_resources] is by table and by artifact. *)
Record ArtifactTables : Type := mkArtifactTables {
  ts_artifacts : gmap string Row;
  ts_resources : gmap (string * string) ResourceRow;
  ts_subscriptions : list Subscription;
  ts_apiKeys : list ControllerAPIKey
}.

Definition set_artifacts (m : gmap string Row) (t : ArtifactTables) : ArtifactTables := mkArtifactTables m (ts_resources t) (ts_subscriptions t) (ts_apiKeys t).
Definition set_resources (m : gmap (string * string) ResourceRow) (t : ArtifactTables) : ArtifactTables :=
  mkArtifactTables (ts_artifacts t) m (ts_subscriptions t) (ts_apiKeys t).

Inductive SqlError : Type := SqlUnique (e : string) | SqlOther (e : string).
Definition sqlText (e : SqlError) : string := match e with SqlUnique e | SqlOther e => e end.
Definition isUniqueViolation (e : SqlError) : bool := match e with SqlUnique _ => true | SqlOther _ => false end.

(** *** The constraints of the schema *)

Definition sameHandle (r r' : Row) : Prop := aw_kind r = aw_kind r' /\ aw_handle r = aw_handle r'.
Definition sameName (r r' : Row) : Prop := aw_kind r = aw_kind r' /\ aw_display_name r = aw_display_name r' /\ aw_version r = aw_version r'.

(** UNIQUE(gateway_id, kind, handle) and UNIQUE(gateway_id, kind,
    display_name, version). *)
Definition duplicates (r : Row) (rows : gmap string Row) : Prop := map_Exists (fun u r' => u <> aw_uuid r /\ (sameHandle r r' \/ sameName r r')) rows.

#[export] Instance duplicates_dec r rows : Decision (duplicates r rows).
Proof. unfold duplicates, sameHandle, sameName. apply _. Defined.

Definition checksHold (r : Row) : bool :=
  bool_decide (aw_desired_state r ∈ [StateDeployed; StateUndeployed]) &&
  match aw_cp_sync_status r with None => true | Some s => bool_decide (s ∈ ["pending"; "success"; "failed"]) end.

Definition putRow (r : Row) (t : ArtifactTables) : SqlError + ArtifactTables :=
  if negb (checksHold r) then inl (SqlOther "CHECK constraint failed")
  else if bool_decide (duplicates r (ts_artifacts t)) then inl (SqlUnique "UNIQUE constraint failed")
  else inr (set_artifacts (<[aw_uuid r := r]> (ts_artifacts t)) t).

Definition sqlInsertArtifact (r : Row) (t : ArtifactTables) : SqlError + ArtifactTables :=
  match ts_artifacts t !! aw_uuid r with Some _ => inl (SqlUnique "UNIQUE constraint failed") | None => putRow r t end.

(** The number of rows changed is 0 or 1, as the key is given. *)
Definition sqlUpdateArtifact (uuid : string) (guard : Row -> bool) (f : Row -> Row) (t : ArtifactTables) : SqlError + (bool * ArtifactTables) :=
  match ts_artifacts t !! uuid with
  | None => inr (false, t)
  | Some r => if guard r then match putRow (f r) t with inl e => inl e | inr t' => inr (true, t') end else inr (false, t)
  end.

(** A row of a resource table refers to its artifact, and that of a proxy to a
    provider. *)
Definition refersWell (table uuid : string) (r : ResourceRow) (t : ArtifactTables) : bool :=
  bool_decide (is_Some (ts_artifacts t !! uuid)) &&
  match re_provider_uuid r with None => true | Some p => bool_decide (is_Some (ts_resources t !! ("llm_providers", p))) end.

Definition putResource (table uuid : string) (r : ResourceRow) (t : ArtifactTables) : SqlError + ArtifactTables :=
  if refersWell table uuid r t then inr (set_resources (<[(table, uuid) := r]> (ts_resources t)) t) else inl (SqlOther "FOREIGN KEY constraint failed").

(** The rows of templates have a handle, too, which the code below does not
    give; their own operations are not modelled. *)
Definition sqlInsertResource (table uuid : string) (r : ResourceRow) (t : ArtifactTables) : SqlError + ArtifactTables :=
  if String.eqb table "llm_provider_templates" then inl (SqlOther "NOT NULL constraint failed")
  else match ts_resources t !! (table, uuid) with Some _ => inl (SqlUnique "UNIQUE constraint failed") | None => putResource table uuid r t end.

Definition sqlUpdateResource (table uuid : string) (r : ResourceRow) (t : ArtifactTables) : SqlError + (bool * ArtifactTables) :=
  match ts_resources t !! (table, uuid) with
  | None => inr (false, t)
  | Some _ => match putResource table uuid r t with inl e => inl e | inr t' => inr (true, t') end
  end.

(** ON DELETE CASCADE for the resources of the artifact, and ON DELETE
    RESTRICT for the provider of a proxy. *)
Definition providerOf (uuid : string) (t : ArtifactTables) : Prop :=
  is_Some (ts_resources t !! ("llm_providers", uuid)) /\ map_Exists (fun _ r => re_provider_uuid r = Some uuid) (ts_resources t).

#[export] Instance providerOf_dec uuid t : Decision (providerOf uuid t).
Proof. unfold providerOf. apply _. Defined.

Definition sqlDeleteArtifact (uuid : string) (t : ArtifactTables) : SqlError + (bool * ArtifactTables) :=
  match ts_artifacts t !! uuid with
  | None => inr (false, t)
  | Some _ =>
      if bool_decide (providerOf uuid t) then inl (SqlOther "FOREIGN KEY constraint failed")
      else inr (true, mkArtifactTables (delete uuid (ts_artifacts t)) (filter (fun kv => kv.1.2 <> uuid) (ts_resources t)) (ts_subscriptions t) (ts_apiKeys t))
  end.

(** ** Registrations of kinds the core does not know, and the parameters

    [json.Marshal] of a configuration and [json.Unmarshal] into the type of a
    kind. *)
Class KindTables := {
  extraResourceTables : gmap string string;
  kindUnmarshalers : string -> option (StoredConfig -> string -> string + StoredConfig)
}.
Class SourceJSON := {
  marshalSource : Configuration -> string + string;
  unmarshalKind : string -> string -> string + Configuration
}.

(** [ORDER BY created_at DESC]: the order of equal times is open. *)
Class NewestFirst := {
  newestFirst : list (Row * ResourceRow) -> list (Row * ResourceRow);
  newestFirst_perm : forall l, newestFirst l ≡ₚ l;
  newestFirst_sorted : forall l, StronglySorted (fun a b => (aw_created_at b.1 <= aw_created_at a.1)%Z) (newestFirst l)
}.

(** Statements, for the ones that fail. *)
Inductive DbStmt : Type :=
| DbBegin | DbPrepare | DbUpdate (table : string) | DbInsert (table : string) | DbExists (table : string) | DbDelete (table : string)
| DbSelect (table : string) | DbProvider | DbCommit.

(** A transaction on the tables: what it fails with, or its result. *)
Definition Tx (A : Type) : Type := ArtifactTables -> SqlError + (A * ArtifactTables).
#[export] Instance Tx_ret : MRet Tx := fun A a t => inr (a, t).
#[export] Instance Tx_bind : MBind Tx := fun A B k m t => match m t with inl e => inl e | inr (a, t') => k a t' end.

Definition wrapTx {A} (message : string) (m : Tx A) : Tx A := fun t =>
  match m t with inl e => inl (SqlOther (message +:+ ": " +:+ sqlText e)) | inr r => inr r end.
Definition failTx {A} (e : string) : Tx A := fun _ => inl (SqlOther e).

Definition nullable (s : string) : option string := if String.eqb s "" then None else Some s.

(** The zero time, which is no time for SaveConfig and UpdateConfig. *)
Definition zeroTime : Z := -62135596800000000000.
Definition nonZero (t : option Z) : option Z := match t with Some z => if (z =? zeroTime)%Z then None else Some z | None => None end.

Section Operations.
Context `{KindTables} `{SourceJSON}.

(** The faults of the statements of one call, and the time. *)
Variable fault : DbStmt -> option string.
Variable now : Z.

Definition stmt {A} (st : DbStmt) (m : Tx A) : Tx A := fun t => match fault st with Some e => inl (SqlOther e) | None => m t end.
Definition changes (f : ArtifactTables -> SqlError + ArtifactTables) : Tx unit := fun t => match f t with inl e => inl e | inr t' => inr (tt, t') end.

(** The change is kept if every statement and the commit succeed. *)
Definition transaction {A} (begin message : string) (m : Tx A) : GoM ArtifactTables A := fun t =>
  match fault DbBegin with
  | Some e => Err t (begin +:+ ": " +:+ e)
  | None =>
      match m t with
      | inl e => Err t (sqlText e)
      | inr (a, t') => match fault DbCommit with Some e => Err t (message +:+ ": " +:+ e) | None => Ok t' a end
      end
  end.

Definition kindToResourceTable (kind : string) : string + string :=
  if String.eqb kind "RestApi" then inr "rest_apis"
  else if String.eqb kind "LlmProvider" then inr "llm_providers"
  else if String.eqb kind "LlmProviderTemplate" then inr "llm_provider_templates"
  else if String.eqb kind "LlmProxy" then inr "llm_proxies"
  else if String.eqb kind "Mcp" then inr "mcp_proxies"
  else match extraResourceTables !! kind with Some table => inr table | None => inl ("unknown kind: " +:+ kind) end.

Definition builtinResourceTables : list string := ["rest_apis"; "llm_providers"; "llm_proxies"; "mcp_proxies"].

(** *** The portable insert-or-update *)

Definition upsert (table : string) (update : Tx bool) (present : ArtifactTables -> bool)
    (insert : ArtifactTables -> SqlError + ArtifactTables) : Tx bool :=
  written ← stmt (DbUpdate table) update;
  if (written : bool) then mret true
  else
    exists_ ← stmt (DbExists table) ((fun t => inr (present t, t)) : Tx bool);
    if (exists_ : bool) then mret false
    else ((fun t =>
      match stmt (DbInsert table) (changes insert) t with
      | inr (_, t') => inr (true, t')
      | inl ierr =>
          if negb (isUniqueViolation ierr) then inl ierr
          else match update t with
               | inl uerr => inl uerr
               | inr (true, t2) => inr (true, t2)
               | inr (false, t2) => if present t2 then inr (false, t2) else inl ierr
               end
      end) : Tx bool).

(** *** Resource rows *)

Definition resolveProviderUUID (handle : string) : Tx string :=
  stmt DbProvider ((fun t =>
    match filter (fun kv => aw_handle kv.2 = handle /\ aw_kind kv.2 = "LlmProvider") (map_to_list (ts_artifacts t)) with
    | (u, _) :: _ => inr (u, t)
    | [] => inl (SqlOther ("provider '" +:+ handle +:+ "' not found for gateway"))
    end) : Tx string).

(** The row for the source of an artifact. *)
Definition resourceRow (cfg : StoredConfig) : Tx ResourceRow :=
  match marshalSource (sc_SourceConfiguration cfg) with
  | inl e => failTx ("failed to marshal configuration: " +:+ e)
  | inr json =>
      if String.eqb (sc_Kind cfg) "LlmProxy" then
        match sc_SourceConfiguration cfg with
        | CfgLLMProxy proxyConfig =>
            provider ← wrapTx "failed to resolve provider" (resolveProviderUUID (lxp_Id (lx_Provider proxyConfig)));
            mret (mkResourceRow json (Some provider))
        | c => failTx ("expected LLMProxyConfiguration but got " +:+ typeName c)
        end
      else mret (mkResourceRow json None)
  end.

Definition withTable {A} (kind : string) (m : string -> Tx A) : Tx A :=
  match kindToResourceTable kind with inl e => failTx e | inr table => m table end.

Definition addResourceConfigTx (cfg : StoredConfig) : Tx unit :=
  withTable (sc_Kind cfg) (fun table =>
    row ← resourceRow cfg;
    wrapTx "failed to insert resource configuration" (stmt (DbInsert table) (changes (sqlInsertResource table (sc_UUID cfg) row)))).

Definition updateResourceConfigTx (cfg : StoredConfig) : Tx unit :=
  withTable (sc_Kind cfg) (fun table =>
    row ← resourceRow cfg;
    written ← wrapTx "failed to update resource configuration" (stmt (DbUpdate table) (sqlUpdateResource table (sc_UUID cfg) row : Tx bool));
    if (written : bool) then mret tt else failTx ("no resource config found for uuid=" +:+ sc_UUID cfg)).

Definition upsertResourceConfigTx (cfg : StoredConfig) : Tx unit :=
  withTable (sc_Kind cfg) (fun table =>
    row ← resourceRow cfg;
    wrapTx "failed to upsert resource configuration"
      (upsert table (sqlUpdateResource table (sc_UUID cfg) row) (fun t => bool_decide (is_Some (ts_resources t !! (table, sc_UUID cfg))))
         (sqlInsertResource table (sc_UUID cfg) row));;
    mret tt).

(** *** Writing *)

(** The row of an artifact that is inserted. *)
Definition rowFor (deployedAt : option Z) (a : Artifact) : Row :=
  let cfg := at_config a in
  mkRow (sc_UUID cfg) (sc_DisplayName cfg) (sc_Version cfg) (at_DataVersion a) (sc_Kind cfg) (sc_Handle cfg) (at_DesiredState a)
    (nullable (at_DeploymentID a)) (at_Origin a) now now deployedAt (nullable (at_CPSyncStatus a)) (nullable (at_CPSyncInfo a)) (nullable (at_CPArtifactID a)).

(** UPDATE keeps the time of creation; UpsertConfig the identifier of the
    control plane, too. *)
Definition overwriteRow (new : Row) (cpArtifactID : option string) (old : Row) : Row :=
  mkRow (aw_uuid old) (aw_display_name new) (aw_version new) (aw_data_version new) (aw_kind new) (aw_handle new) (aw_desired_state new)
    (aw_deployment_id new) (aw_origin new) (aw_created_at old) (aw_updated_at new) (aw_deployed_at new) (aw_cp_sync_status new) (aw_cp_sync_info new) cpArtifactID.

Definition beginFailed : string := "failed to begin transaction".
Definition noHandle : string := "handle (metadata.name) is required and cannot be empty".

Definition SaveConfig (a : Artifact) : GoM ArtifactTables unit := fun t =>
  if String.eqb (sc_Handle (at_config a)) "" then Err t noHandle
  else
    let a := ensureDataVersion a in
    let cfg := at_config a in
    let conflict := ErrConflict +:+ ": configuration with displayName '" +:+ sc_DisplayName cfg +:+ "' and version '" +:+ sc_Version cfg +:+ "' already exists" in
    transaction beginFailed "failed to commit configuration transaction"
      (stmt DbPrepare (mret tt : Tx unit);;
       ((fun t => match stmt (DbInsert "artifacts") (changes (sqlInsertArtifact (rowFor (nonZero (at_DeployedAt a)) a))) t with
                 | inl e => inl (if isUniqueViolation e then SqlOther conflict else SqlOther ("failed to insert configuration: " +:+ sqlText e))
                 | r => r
                 end) : Tx unit);;
       wrapTx "failed to add resource configuration" (addResourceConfigTx cfg)) t.

(** The guard of UpsertConfig, as SQL compares with NULL. *)
Definition isNewer (deployedAt : option Z) (r : Row) : bool :=
  match aw_deployed_at r, deployedAt with None, _ => true | Some old, Some new => (old <? new)%Z | Some _, None => false end.

Definition UpsertConfig (a : Artifact) : GoM ArtifactTables bool := fun t =>
  if String.eqb (sc_Handle (at_config a)) "" then Err t noHandle
  else
    let a := ensureDataVersion a in
    let cfg := at_config a in
    let row := rowFor (at_DeployedAt a) a in
    (* a stale event rolls the transaction back *)
    match fault DbBegin with
    | Some e => Err t ("failed to begin transaction: " +:+ e)
    | None =>
        match wrapTx "failed to upsert artifact"
                (upsert "artifacts" (sqlUpdateArtifact (sc_UUID cfg) (isNewer (at_DeployedAt a)) (fun old => overwriteRow row (aw_cp_artifact_id old) old))
                   (fun t => bool_decide (is_Some (ts_artifacts t !! sc_UUID cfg))) (sqlInsertArtifact row)) t with
        | inl e => Err t (sqlText e)
        | inr (false, _) => Ok t false
        | inr (true, t') =>
            match wrapTx "failed to upsert resource configuration" (upsertResourceConfigTx cfg) t' with
            | inl e => Err t (sqlText e)
            | inr (_, t'') => match fault DbCommit with Some e => Err t ("failed to commit upsert transaction: " +:+ e) | None => Ok t'' true end
            end
        end
    end.

Definition DeleteConfig (id : string) : GoM ArtifactTables unit :=
  transaction "failed to begin delete transaction" "failed to commit delete transaction"
    (wrapTx "failed to delete subscriptions for configuration"
       (stmt (DbDelete "subscriptions") ((fun t =>
          inr (tt, mkArtifactTables (ts_artifacts t) (ts_resources t) (filter (fun s => sub_APIID s <> id) (ts_subscriptions t)) (ts_apiKeys t))) : Tx unit));;
     wrapTx "failed to delete API keys for configuration"
       (stmt (DbDelete "api_keys") ((fun t =>
          inr (tt, mkArtifactTables (ts_artifacts t) (ts_resources t) (ts_subscriptions t) (filter (fun k => ck_ArtifactUUID k <> id) (ts_apiKeys t)))) : Tx unit));;
     deleted ← wrapTx "failed to delete configuration" (stmt (DbDelete "artifacts") (sqlDeleteArtifact id : Tx bool));
     if (deleted : bool) then mret tt else failTx (ErrNotFound +:+ ": id=" +:+ id)).

(** *** Reading *)

(** The stored source becomes the configuration, too, except for MCP proxies. *)
Definition set_Source (cfg : StoredConfig) (source : Configuration) : StoredConfig :=
  mkStoredConfig (sc_UUID cfg) (sc_Kind cfg) (sc_Handle cfg) (sc_DisplayName cfg) (sc_Version cfg) (sc_Configuration cfg) source (sc_SensitiveValues cfg).
Definition set_Both (cfg : StoredConfig) (source : Configuration) : StoredConfig :=
  mkStoredConfig (sc_UUID cfg) (sc_Kind cfg) (sc_Handle cfg) (sc_DisplayName cfg) (sc_Version cfg) source source (sc_SensitiveValues cfg).

Definition unmarshalSourceConfig (cfg : StoredConfig) (json : string) : string + StoredConfig :=
  let kind := sc_Kind cfg in
  if String.eqb kind "RestApi" then
    match unmarshalKind kind json with inl e => inl ("failed to unmarshal configuration: " +:+ e) | inr c => inr (set_Both cfg c) end
  else if String.eqb kind "LlmProviderTemplate" || String.eqb kind "LlmProvider" || String.eqb kind "LlmProxy" then
    match unmarshalKind kind json with inl e => inl ("failed to unmarshal source configuration: " +:+ e) | inr c => inr (set_Both cfg c) end
  else if String.eqb kind "Mcp" then
    match unmarshalKind kind json with inl e => inl ("failed to unmarshal source configuration: " +:+ e) | inr c => inr (set_Source cfg c) end
  else match kindUnmarshalers kind with Some f => f cfg json | None => inl ("unknown kind: " +:+ kind) end.

Definition nilConfiguration : Configuration := CfgOther "<nil>".

(** The artifact of a row, without its configuration. *)
Definition scanRow (r : Row) : Artifact :=
  mkArtifact (mkStoredConfig (aw_uuid r) (aw_kind r) (aw_handle r) (aw_display_name r) (aw_version r) nilConfiguration nilConfiguration [])
    (aw_data_version r) (aw_desired_state r) (default "" (aw_deployment_id r)) (aw_origin r) (aw_created_at r) (aw_updated_at r) (aw_deployed_at r)
    (default "" (aw_cp_sync_status r)) (default "" (aw_cp_sync_info r)) (default "" (aw_cp_artifact_id r)).

Definition with_config (a : Artifact) (cfg : StoredConfig) : Artifact :=
  mkArtifact cfg (at_DataVersion a) (at_DesiredState a) (at_DeploymentID a) (at_Origin a) (at_CreatedAt a) (at_UpdatedAt a) (at_DeployedAt a)
    (at_CPSyncStatus a) (at_CPSyncInfo a) (at_CPArtifactID a).

(** The configuration of a resource row, if there is any text. *)
Definition loadText (a : Artifact) (json : string) : string + Artifact :=
  if String.eqb json "" then inr a
  else match unmarshalSourceConfig (at_config a) json with inl e => inl e | inr cfg => inr (with_config a cfg) end.

Definition loadResourceConfig (a : Artifact) (t : ArtifactTables) : string + Artifact :=
  match kindToResourceTable (sc_Kind (at_config a)) with
  | inl e => inl e
  | inr table =>
      match fault (DbSelect table) with
      | Some e => inl ("failed to query resource config: " +:+ e)
      | None => match ts_resources t !! (table, sc_UUID (at_config a)) with
                | None => inl ("resource config not found for uuid=" +:+ sc_UUID (at_config a) +:+ " in table " +:+ table)
                | Some r => loadText a (re_configuration r)
                end
      end
  end.

(** One artifact by a key that is unique. *)
Definition selectOne (P : Row -> Prop) `{!forall r, Decision (P r)} (missing : string) (t : ArtifactTables) : string + Artifact :=
  match fault (DbSelect "artifacts") with
  | Some e => inl ("failed to query configuration: " +:+ e)
  | None => match filter P (map_to_list (ts_artifacts t)).*2 with
            | r :: _ => loadResourceConfig (scanRow r) t
            | [] => inl (ErrNotFound +:+ ": " +:+ missing)
            end
  end.

Definition GetConfig (t : ArtifactTables) (id : string) : string + Artifact := selectOne (fun r => aw_uuid r = id) ("id=" +:+ id) t.
Definition GetConfigByKindAndHandle (t : ArtifactTables) (kind handle : string) : string + Artifact :=
  selectOne (fun r => aw_kind r = kind /\ aw_handle r = handle) ("handle=" +:+ handle) t.
Definition GetConfigByKindNameAndVersion (t : ArtifactTables) (kind displayName version : string) : string + Artifact :=
  selectOne (fun r => aw_kind r = kind /\ aw_display_name r = displayName /\ aw_version r = version)
    ("display_name=" +:+ displayName +:+ " version=" +:+ version) t.

(** *** The remaining operations *)

Definition UpdateConfig (a : Artifact) : GoM ArtifactTables unit := fun t =>
  match GetConfig t (sc_UUID (at_config a)) with
  | inl e => Err t (if String.prefix ErrNotFound e then "cannot update non-existent configuration: " +:+ e else e)
  | inr _ =>
      if String.eqb (sc_Handle (at_config a)) "" then Err t noHandle
      else
        let a := ensureDataVersion a in
        let cfg := at_config a in
        let row := rowFor (nonZero (at_DeployedAt a)) a in
        transaction beginFailed "failed to commit configuration transaction"
          (stmt DbPrepare (mret tt : Tx unit);;
           written ← wrapTx "failed to update configuration"
                       (stmt (DbUpdate "artifacts")
                          (sqlUpdateArtifact (sc_UUID cfg) (fun _ => true) (overwriteRow row (aw_cp_artifact_id row)) : Tx bool));
           if (written : bool) then wrapTx "failed to update resource configuration" (updateResourceConfigTx cfg)
           else failTx (ErrNotFound +:+ ": uuid=" +:+ sc_UUID cfg)) t
  end.

(** The rows of one resource table with their artifacts. *)
Definition joined (table : string) (t : ArtifactTables) : list (Row * ResourceRow) :=
  omap (fun kv => match ts_resources t !! (table, kv.1) with Some r => Some (kv.2, r) | None => None end) (map_to_list (ts_artifacts t)).

Definition scanConfigRows (rows : list (Row * ResourceRow)) : string + list Artifact :=
  foldr (fun r acc => sum_bind (loadText (scanRow r.1) (re_configuration r.2)) (fun a => sum_bind acc (fun l => inr (a :: l)))) (inr []) rows.

Definition listTables : list string := stableSort string_less (builtinResourceTables ++ (map_to_list extraResourceTables).*2)%list.

Definition GetAllConfigs `{NewestFirst} (t : ArtifactTables) : string + list Artifact :=
  match fault (DbSelect "artifacts") with
  | Some e => inl ("failed to query configurations: " +:+ e)
  | None => scanConfigRows (newestFirst (concat ((fun table => joined table t) <$> listTables)))
  end.

Definition GetAllConfigsByKind `{NewestFirst} (t : ArtifactTables) (kind : string) : string + list Artifact :=
  match kindToResourceTable kind with
  | inl e => inl e
  | inr table =>
      match fault (DbSelect "artifacts") with
      | Some e => inl ("failed to query configurations: " +:+ e)
      | None => scanConfigRows (newestFirst (filter (fun r => aw_kind r.1 = kind) (joined table t)))
      end
  end.

Definition UpdateCPSyncStatus (uuid cpArtifactID status reason : string) : GoM ArtifactTables unit := fun t =>
  match stmt (DbUpdate "artifacts")
          (sqlUpdateArtifact uuid (fun _ => true) (fun r =>
             mkRow (aw_uuid r) (aw_display_name r) (aw_version r) (aw_data_version r) (aw_kind r) (aw_handle r) (aw_desired_state r) (aw_deployment_id r)
               (aw_origin r) (aw_created_at r) now (aw_deployed_at r) (Some status) (nullable reason) (nullable cpArtifactID)) : Tx bool) t with
  | inl e => Err t ("failed to update cp_sync_status: " +:+ sqlText e)
  | inr (false, _) => Err t (ErrNotFound +:+ ": uuid=" +:+ uuid)
  | inr (true, t') => Ok t' tt
  end.

Definition RemoveAPIKeysAPI (apiId : string) : GoM ArtifactTables unit := fun t =>
  match fault (DbDelete "api_keys") with
  | Some e => Err t ("failed to remove API keys for API: " +:+ e)
  | None => Ok (mkArtifactTables (ts_artifacts t) (ts_resources t) (ts_subscriptions t) (filter (fun k => ck_ArtifactUUID k <> apiId) (ts_apiKeys t))) tt
  end.

(** Without identifiers all subscriptions of the API go. *)
Definition DeleteSubscriptionsForAPINotIn (apiID : string) (ids : list string) : GoM ArtifactTables unit := fun t =>
  if String.eqb apiID "" then Err t "apiID is required for DeleteSubscriptionsForAPINotIn"
  else match fault (DbDelete "subscriptions") with
       | Some e => Err t ("failed to delete subscriptions for API not in set: " +:+ e)
       | None => Ok (mkArtifactTables (ts_artifacts t) (ts_resources t)
                       (filter (fun s => ¬ (sub_APIID s = apiID /\ (ids = [] \/ sub_ID s ∉ ids))) (ts_subscriptions t)) (ts_apiKeys t)) tt
       end.

End Operations.
