(* ===== verification/EventListener.v ===== *)
(** * EventListener: replicas follow the database

    src/gateway/gateway-controller/pkg/eventlistener, with
    HydrateStoredMCPConfig of utils/mcp_deployment.go and UpdateSnapshot of
    xds/snapshot.go.  Every replica of the controller reads the events of the
    event hub and brings its stores, its runtime configurations and what it
    sends to the engine in line with the database, which it reads again for
    each event.  Errors are logged and end a handler; a panic is recovered and
    keeps what was done before it. *)

From stdpp Require Import base gmap strings list fin_maps.
From S2P Require Import Prelude GoStrings GoSort Values JsonWire Routes ManagementApi ApiKeys LazyResources ConfigStore PolicyVersions LlmTransform McpTransform RuntimeSnapshot StateSnapshots TemplateEngine EventHub.

#[local] Set Warnings "-register-all".

Open Scope string_scope.

(** ** The interfaces the listener uses

    storage.Storage, as far as the listener calls it. *)
Class Storage (DB : Type) := {
  db_GetConfig : DB -> string -> string + StoredConfig;
  db_GetAPIKeyByID : DB -> string -> string + ControllerAPIKey;
  db_GetAPIKeysByAPI : DB -> string -> string + list (option ControllerAPIKey);
  db_GetAPIKeysByApplicationUUID : DB -> string -> string + list (option ControllerAPIKey);
  db_GetLLMProviderTemplate : DB -> string -> string + StoredLLMProviderTemplate;
  db_DeleteSubscriptionsForAPINotIn : DB -> string -> string + DB;
  db_llm : DB -> LLMStorage;
  db_ListConfigs : DB -> string + list (option StoredConfig);
  db_ListSubscriptionPlans : DB -> string + list (option SubscriptionPlan);
  db_ListActiveSubscriptions : DB -> string + list (option Subscription)
}.

(** What becomes of the artifacts when a snapshot for Envoy is made of them:
    the translator or go-control-plane may refuse them. *)
Inductive EnvoyResult : Type := EnvoyTranslateFailed | EnvoySnapshotFailed | EnvoyPublished.
Class EnvoySnapshots := { envoySnapshot : list StoredConfig -> EnvoyResult }.

(** The JSON of a template, and of the data of an application event. *)
Class ListenerJSON := {
  templateJSON : StoredLLMProviderTemplate -> string + gmap string Value;
  removedAPIKeyIDs : string -> string + list string
}.

(** ** The state

    The stores are shared with the rest of the replica.  [el_envoy] has the
    snapshots published for Envoy, with their versions. *)
Record Listener (DB : Type) : Type := mkListener {
  el_db : DB;
  el_store : ConfigStore;
  el_envoy : option (list (Z * list StoredConfig));
  el_subscriptionManager : option SubscriptionSnapshotManager;
  el_apiKeyXDSManager : option APIKeySnapshotManager;
  el_lazyResourceManager : option LazyResourceSnapshotManager;
  el_policyManager : option PolicyManager
}.
Arguments mkListener {DB}. Arguments el_db {DB}. Arguments el_store {DB}. Arguments el_envoy {DB}. Arguments el_subscriptionManager {DB}.
Arguments el_apiKeyXDSManager {DB}. Arguments el_lazyResourceManager {DB}. Arguments el_policyManager {DB}.

(** A handler: the state it leaves and whether it ran to its end ([None] for
    a panic). *)
Definition LM (DB A : Type) : Type := Listener DB -> Listener DB * option A.

#[export] Instance LM_ret {DB} : MRet (LM DB) := fun A a l => (l, Some a).
#[export] Instance LM_bind {DB} : MBind (LM DB) := fun A B k m l => match m l with (l', Some a) => k a l' | (l', None) => (l', None) end.

Definition reads {DB A} (f : Listener DB -> A) : LM DB A := fun l => (l, Some (f l)).

Section Handlers.
Context {DB : Type} `{Storage DB} `{MapRange} `{RegistryRange} `{SnapshotWire} `{TimeJSON} `{YamlUnmarshal} `{ConfigJSON} `{TextTemplate}
  `{EnvoySnapshots} `{ListenerJSON}.

(** The configuration of the listener, and the time. *)
Variable secretResolver : string -> string + string.
Variable listenerPort : Z.
Variable policyDefinitions : PolicyDefinitions.
Variable now : Z.

Definition set_store (cs : ConfigStore) (l : Listener DB) : Listener DB :=
  mkListener (el_db l) cs (el_envoy l) (el_subscriptionManager l) (el_apiKeyXDSManager l) (el_lazyResourceManager l) (el_policyManager l).
Definition set_db (db : DB) (l : Listener DB) : Listener DB :=
  mkListener db (el_store l) (el_envoy l) (el_subscriptionManager l) (el_apiKeyXDSManager l) (el_lazyResourceManager l) (el_policyManager l).
Definition set_envoy (snapshots : list (Z * list StoredConfig)) (l : Listener DB) : Listener DB :=
  mkListener (el_db l) (el_store l) (Some snapshots) (el_subscriptionManager l) (el_apiKeyXDSManager l) (el_lazyResourceManager l) (el_policyManager l).
Definition set_subscriptionManager (sm : SubscriptionSnapshotManager) (l : Listener DB) : Listener DB :=
  mkListener (el_db l) (el_store l) (el_envoy l) (Some sm) (el_apiKeyXDSManager l) (el_lazyResourceManager l) (el_policyManager l).
Definition set_apiKeyXDSManager (sm : APIKeySnapshotManager) (l : Listener DB) : Listener DB :=
  mkListener (el_db l) (el_store l) (el_envoy l) (el_subscriptionManager l) (Some sm) (el_lazyResourceManager l) (el_policyManager l).
Definition set_lazyResourceManager (sm : LazyResourceSnapshotManager) (l : Listener DB) : Listener DB :=
  mkListener (el_db l) (el_store l) (el_envoy l) (el_subscriptionManager l) (el_apiKeyXDSManager l) (Some sm) (el_policyManager l).
Definition set_policyManager (pm : PolicyManager) (l : Listener DB) : Listener DB :=
  mkListener (el_db l) (el_store l) (el_envoy l) (el_subscriptionManager l) (el_apiKeyXDSManager l) (el_lazyResourceManager l) (Some pm).

(** An operation of the store, with its error. *)
Definition onStore (op : GoM ConfigStore unit) : LM DB (option string) := fun l =>
  match op (el_store l) with
  | Ok cs _ => (set_store cs l, Some None)
  | Err cs e => (set_store cs l, Some (Some e))
  | Panic => (l, None)
  end.

(** Operations of the managers, if they are there; their errors are logged. *)
Definition onKeys (op : APIKeySnapshotManager -> APIKeySnapshotManager * option string) : LM DB (option string) := fun l =>
  match el_apiKeyXDSManager l with
  | None => (l, Some None)
  | Some sm => let '(sm', e) := op sm in (set_apiKeyXDSManager sm' l, Some e)
  end.
Definition onLazy (op : LazyResourceSnapshotManager -> LazyResourceSnapshotManager * option string) : LM DB (option string) := fun l =>
  match el_lazyResourceManager l with
  | None => (l, Some None)
  | Some sm => let '(sm', e) := op sm in (set_lazyResourceManager sm' l, Some e)
  end.

(** The policy manager reads the store of the replica. *)
Definition sharing (cs : ConfigStore) (pm : PolicyManager) : PolicyManager :=
  let sm := pm_snapshotManager pm in
  set_snapshotManager pm (mkSnapshotManager (sm_policyCache sm) (sm_routeCache sm) (sm_eventChannelCache sm)
                            ((fun _ => cs) <$> sm_configStore sm) (sm_runtimeStore sm) (sm_eventChannelHooks sm)).
Definition onPolicies (op : PolicyManager -> option PolicyManager) : LM DB unit := fun l =>
  match el_policyManager l with
  | None => (l, Some tt)
  | Some pm => match op (sharing (el_store l) pm) with Some pm' => (set_policyManager pm' l, Some tt) | None => (l, None) end
  end.

(** ** xds/snapshot.go *)

Definition updateSnapshot : LM DB unit := fun l =>
  match el_envoy l with
  | None => (l, Some tt)
  | Some snapshots =>
      let configs := ConfigStore_GetAll (el_store l) in
      let version := int64_incr (cs_snapVersion (el_store l)) in
      match envoySnapshot configs with
      | EnvoyTranslateFailed => (l, Some tt)
      | EnvoySnapshotFailed => (set_store (set_snapVersion (el_store l) version) l, Some tt)
      | EnvoyPublished => (set_envoy (snapshots ++ [(version, configs)])%list (set_store (set_snapVersion (el_store l) version) l), Some tt)
      end
  end.

(** ** mcp_deployment.go *)

Definition HydrateStoredMCPConfig : GoM StoredConfig unit := fun cfg =>
  match sc_SourceConfiguration cfg with
  | CfgMCPProxy _ =>
      match MCPTransformer_Transform (sc_SourceConfiguration cfg) tt with
      | Ok _ restAPI => Ok (set_Configuration cfg (CfgRestAPI restAPI)) tt
      | Err _ e => Err cfg ("failed to transform stored MCP proxy " +:+ sc_UUID cfg +:+ ": " +:+ e)
      | Panic => Panic
      end
  | _ => match sc_Configuration cfg with
         | CfgRestAPI _ => Ok cfg tt
         | _ => Err cfg ("unexpected MCP source configuration type " +:+ typeName (sc_SourceConfiguration cfg))
         end
  end.

(** ** api_processor.go *)

Definition isEventAPI (kind : string) : bool := String.eqb kind "WebSubApi" || String.eqb kind "WebBrokerApi".

(** A missing artifact is no error where the handlers ask for it. *)
Definition isNotFoundError (e : string) : bool := String.prefix ErrNotFound e.

(** The update or addition of an artifact; [false] after an error. *)
Definition storeArtifact (entityID : string) (cfg : StoredConfig) : LM DB bool :=
  existing ← reads (fun l => ConfigStore_Get (el_store l) entityID);
  e ← onStore (match existing with inr _ => ConfigStore_Update cfg | inl _ => ConfigStore_Add cfg end);
  mret (match e with Some _ => false | None => true end).

Definition updatePoliciesForAPI (cfg : StoredConfig) : LM DB unit :=
  if isEventAPI (sc_Kind cfg) then onPolicies (fun pm => Some (UpdateEventChannelSnapshot pm))
  else onPolicies (fun pm => fst <$> UpsertAPIConfig cfg pm).

(** [None] stands for a nil key, which is skipped. *)
Fixpoint storeKeys (keys : list (option ControllerAPIKey)) : LM DB unit :=
  match keys with
  | [] => mret tt
  | None :: keys' => storeKeys keys'
  | Some k :: keys' => onKeys (KeyManager_StoreAPIKey k);; storeKeys keys'
  end.

Definition syncAPIKeysForAPI (cfg : StoredConfig) : LM DB unit :=
  hasManager ← reads (fun l => match el_apiKeyXDSManager l with Some _ => true | None => false end);
  if negb hasManager || String.eqb (sc_DisplayName cfg) "" then mret tt
  else
    keys ← reads (fun l => db_GetAPIKeysByAPI (el_db l) (sc_UUID cfg));
    match keys with inl _ => mret tt | inr keys => storeKeys keys end.

Definition handleAPICreateOrUpdate (event : Event) : LM DB unit :=
  stored ← reads (fun l => db_GetConfig (el_db l) (ev_EntityID event));
  match stored with
  | inl _ => mret tt
  | inr storedConfig =>
      match RenderSpec secretResolver storedConfig with
      | inl _ => mret tt
      | inr storedConfig =>
          accepted ← storeArtifact (ev_EntityID event) storedConfig;
          if negb accepted then mret tt
          else
            (if isEventAPI (sc_Kind storedConfig) then mret tt else updateSnapshot);;
            updatePoliciesForAPI storedConfig;;
            syncAPIKeysForAPI storedConfig
      end
  end.

Definition refreshSubscriptions : LM DB unit := fun l =>
  match el_subscriptionManager l with
  | None => (l, Some tt)
  | Some sm =>
      let '(sm', _) := Subscription_UpdateSnapshot (db_ListConfigs (el_db l)) (db_ListSubscriptionPlans (el_db l)) (db_ListActiveSubscriptions (el_db l)) now sm in
      (set_subscriptionManager sm' l, Some tt)
  end.

Definition deleteSubscriptions (entityID : string) : LM DB unit := fun l =>
  match db_DeleteSubscriptionsForAPINotIn (el_db l) entityID with
  | inl _ => (l, Some tt)
  | inr db => refreshSubscriptions (set_db db l)
  end.

(** The keys of an artifact that was there. *)
Definition removeKeysOf (existing : string + StoredConfig) (entityID : string) : LM DB unit :=
  match existing with
  | inl _ => mret tt
  | inr cfg => if String.eqb (sc_DisplayName cfg) "" then mret tt else onKeys (KeyManager_RemoveAPIKeysByAPI entityID);; mret tt
  end.

Definition deleteRuntime (existing : string + StoredConfig) : LM DB unit :=
  match existing with
  | inl _ => mret tt
  | inr cfg => onPolicies (fun pm => Some (DeleteAPIConfig (sc_Kind cfg) (sc_Handle cfg) pm).1)
  end.

Definition handleAPIDelete (event : Event) : LM DB unit :=
  let entityID := ev_EntityID event in
  existing ← reads (fun l => ConfigStore_Get (el_store l) entityID);
  onStore (ConfigStore_Delete entityID);;
  onStore (modify (ConfigStore_RemoveAPIKeysByAPI entityID));;
  deleteSubscriptions entityID;;
  removeKeysOf existing entityID;;
  (match existing with
   | inr cfg => if isEventAPI (sc_Kind cfg) then mret tt else updateSnapshot
   | inl _ => updateSnapshot
   end);;
  match existing with
  | inr cfg => if isEventAPI (sc_Kind cfg) then onPolicies (fun pm => Some (UpdateEventChannelSnapshot pm)) else deleteRuntime existing
  | inl _ => mret tt
  end.

(** ** llm_provider_processor.go and mcp_processor.go *)

Definition LazyResourceTypeLLMProviderTemplate : string := "LlmProviderTemplate".
Definition LazyResourceTypeProviderTemplateMapping : string := "ProviderTemplateMapping".

Definition removeProviderTemplateMapping (providerHandle : string) : LM DB unit :=
  if String.eqb providerHandle "" then mret tt
  else onLazy (LazyManager_RemoveResourceByIDAndType providerHandle LazyResourceTypeProviderTemplateMapping);; mret tt.

Definition syncProviderTemplateMapping (cfg : StoredConfig) : LM DB unit :=
  match sc_SourceConfiguration cfg with
  | CfgLLMProvider provider =>
      if String.eqb (sc_Handle cfg) "" then mret tt
      else if String.eqb (lp_Template provider) "" then removeProviderTemplateMapping (sc_Handle cfg)
      else
        onLazy (LazyManager_StoreResource (mkLazyResource (sc_Handle cfg) LazyResourceTypeProviderTemplateMapping
                  (<["provider_name" := VString (sc_Handle cfg)]> {["template_handle" := VString (lp_Template provider)]})));;
        mret tt
  | _ => mret tt
  end.

(** The three kinds of artifacts that become REST APIs: [hydrate] derives the
    API, [mapping] is done for providers. *)
Definition handleDerivedCreateOrUpdate (kind : string) (hydrate : DB -> GoM StoredConfig unit) (mapping : StoredConfig -> LM DB unit) (event : Event) :
    LM DB unit :=
  stored ← reads (fun l => db_GetConfig (el_db l) (ev_EntityID event));
  match stored with
  | inl _ => mret tt
  | inr storedConfig =>
      if negb (String.eqb (sc_Kind storedConfig) kind) then mret tt
      else
        db ← reads el_db;
        match hydrate db storedConfig with
        | Err _ _ => mret tt
        | Panic => fun l => (l, None)
        | Ok storedConfig _ =>
            match RenderSpec secretResolver storedConfig with
            | inl _ => mret tt
            | inr storedConfig =>
                accepted ← storeArtifact (ev_EntityID event) storedConfig;
                if negb accepted then mret tt
                else mapping storedConfig;; updateSnapshot;; updatePoliciesForAPI storedConfig
            end
        end
  end.

Definition hydrateLLMConfig (db : DB) : GoM StoredConfig unit := HydrateLLMConfig (db_llm db) listenerPort policyDefinitions.

Definition handleLLMProviderCreateOrUpdate : Event -> LM DB unit :=
  handleDerivedCreateOrUpdate "LlmProvider" hydrateLLMConfig syncProviderTemplateMapping.
Definition handleLLMProxyCreateOrUpdate : Event -> LM DB unit :=
  handleDerivedCreateOrUpdate "LlmProxy" hydrateLLMConfig (fun _ => mret tt).
Definition handleMCPProxyCreateOrUpdate : Event -> LM DB unit :=
  handleDerivedCreateOrUpdate "Mcp" (fun _ => HydrateStoredMCPConfig) (fun _ => mret tt).

(** An error that ends the handler. *)
Definition failed (e : option string) : bool := match e with Some e => negb (isNotFoundError e) | None => false end.

Definition handleLLMDelete (mapping : StoredConfig -> LM DB unit) (event : Event) : LM DB unit :=
  let entityID := ev_EntityID event in
  existing ← reads (fun l => ConfigStore_Get (el_store l) entityID);
  e ← onStore (ConfigStore_Delete entityID);
  if failed e then mret tt
  else
    onStore (modify (ConfigStore_RemoveAPIKeysByAPI entityID));;
    removeKeysOf existing entityID;;
    (match existing with inr cfg => mapping cfg | inl _ => mret tt end);;
    updateSnapshot;;
    deleteRuntime existing.

Definition handleLLMProviderDelete : Event -> LM DB unit := handleLLMDelete (fun cfg => removeProviderTemplateMapping (sc_Handle cfg)).
Definition handleLLMProxyDelete : Event -> LM DB unit := handleLLMDelete (fun _ => mret tt).

Definition handleMCPProxyDelete (event : Event) : LM DB unit :=
  existing ← reads (fun l => ConfigStore_Get (el_store l) (ev_EntityID event));
  e ← onStore (ConfigStore_Delete (ev_EntityID event));
  if failed e then mret tt else updateSnapshot;; deleteRuntime existing.

(** ** llm_template_processor.go *)

Definition syncLLMTemplate (template : StoredLLMProviderTemplate) : LM DB unit :=
  if String.eqb (st_Name template) "" then mret tt
  else match templateJSON template with
       | inl _ => mret tt
       | inr resource => onLazy (LazyManager_StoreResource (mkLazyResource (st_Name template) LazyResourceTypeLLMProviderTemplate resource));; mret tt
       end.

Definition handleLLMTemplateCreateOrUpdate (event : Event) : LM DB unit :=
  stored ← reads (fun l => db_GetLLMProviderTemplate (el_db l) (ev_EntityID event));
  match stored with
  | inl _ => mret tt
  | inr storedTemplate =>
      existing ← reads (fun l => GetTemplate (el_store l) (ev_EntityID event));
      e ← onStore (match existing with inr _ => UpdateTemplate storedTemplate | inl _ => AddTemplate storedTemplate end);
      match e with Some _ => mret tt | None => syncLLMTemplate storedTemplate end
  end.

(** The error of a missing template says so. *)
Definition handleLLMTemplateDelete (event : Event) : LM DB unit :=
  existing ← reads (fun l => GetTemplate (el_store l) (ev_EntityID event));
  e ← onStore (DeleteTemplate (ev_EntityID event));
  if match e with Some e => negb (Contains (ToLower e) "not found") | None => false end then mret tt
  else match existing with
       | inl _ => mret tt
       | inr template =>
           if String.eqb (GetHandle template) "" then mret tt
           else onLazy (LazyManager_RemoveResourceByIDAndType (GetHandle template) LazyResourceTypeLLMProviderTemplate);; mret tt
       end.

(** ** apikey_processor.go *)

(** The artifact of a key, fetched into the store if it is not there. *)
Definition syncAPIConfigForAPIKeyEvent (apiID : string) : LM DB (string + StoredConfig) :=
  existing ← reads (fun l => ConfigStore_Get (el_store l) apiID);
  match existing with
  | inr cfg => mret (inr cfg)
  | inl _ =>
      stored ← reads (fun l => db_GetConfig (el_db l) apiID);
      match stored with
      | inl e => mret (inl e)
      | inr cfg =>
          e ← onStore (ConfigStore_Add cfg);
          (match e with Some _ => onStore (ConfigStore_Update cfg);; mret tt | None => mret tt end);;
          mret (inr cfg)
      end
  end.

Definition handleAPIKeyUpsert (event : Event) : LM DB unit :=
  match ParseAPIKeyEntityID (ev_EntityID event) with
  | inl _ => mret tt
  | inr (apiID, keyID) =>
      stored ← reads (fun l => db_GetAPIKeyByID (el_db l) keyID);
      match stored with
      | inl _ => mret tt
      | inr apiKey =>
          e ← onStore (ConfigStore_StoreAPIKey (Some apiKey));
          match e with
          | Some _ => mret tt
          | None =>
              cfg ← syncAPIConfigForAPIKeyEvent (ck_ArtifactUUID apiKey);
              match cfg with inl _ => mret tt | inr _ => onKeys (KeyManager_StoreAPIKey apiKey);; mret tt end
          end
      end
  end.

Definition handleAPIKeyRevoke (event : Event) : LM DB unit :=
  match ParseAPIKeyEntityID (ev_EntityID event) with
  | inl _ => mret tt
  | inr (apiID, keyID) =>
      apiKey ← reads (fun l => GetAPIKeyByID (el_store l) apiID keyID);
      e ← onStore (RemoveAPIKeyByID apiID keyID);
      if failed e then mret tt
      else
        let apiKeyName := match apiKey with inr k => ck_Name k | inl _ => "" end in
        if String.eqb apiKeyName "" then mret tt
        else
          cfg ← syncAPIConfigForAPIKeyEvent apiID;
          match cfg with inl _ => mret tt | inr cfg => onKeys (KeyManager_RevokeAPIKey (sc_UUID cfg) apiKeyName);; mret tt end
  end.

(** ** subscription_processor.go *)

Definition mappedKeys (keys : list (option ControllerAPIKey)) : gmap string ControllerAPIKey :=
  foldl (fun m k => match k with Some k => if String.eqb (ck_UUID k) "" then m else <[ck_UUID k := k]> m | None => m end) ∅ keys.

Definition parseRemovedApplicationAPIKeyIDs (eventData : string) : string + list string :=
  let trimmed := TrimSpace eventData in
  if String.eqb trimmed "" || String.eqb trimmed EmptyEventData then inr []
  else match removedAPIKeyIDs trimmed with
       | inl e => inl e
       | inr ids => inr (foldl (fun acc id => let id := TrimSpace id in if String.eqb id "" || bool_decide (id ∈ acc) then acc else (acc ++ [id])%list) [] ids)
       end.

(** The keys of the application in the store. *)
Definition localKeys (applicationUUID : string) (cs : ConfigStore) : list string :=
  concat ((fun cfg => ck_UUID <$> filter (fun k => ck_UUID k <> "" /\ ck_ApplicationID k = applicationUUID) (GetAPIKeysByAPI cs (sc_UUID cfg))) <$> ConfigStore_GetAll cs).

(** Keys that cannot be read again are left out. *)
Definition resolveAffectedApplicationAPIKeys (applicationUUID : string) (current : gmap string ControllerAPIKey) (removed : list string) (l : Listener DB) :
    list ControllerAPIKey :=
  let ids : gset string := dom current ∪ list_to_set (filter (fun i => i <> "") removed) ∪ list_to_set (localKeys applicationUUID (el_store l)) in
  omap (fun i => match current !! i with
                 | Some k => Some k
                 | None => match db_GetAPIKeyByID (el_db l) i with inr k => Some k | inl _ => None end
                 end) (stableSort string_less (elements ids)).

Fixpoint storeAffected (keys : list ControllerAPIKey) : LM DB unit :=
  match keys with
  | [] => mret tt
  | k :: keys' =>
      e ← onStore (ConfigStore_StoreAPIKey (Some k));
      hasManager ← reads (fun l => match el_apiKeyXDSManager l with Some _ => true | None => false end);
      (match e with
       | Some _ => mret tt
       | None =>
           if negb hasManager then mret tt
           else
             cfg ← syncAPIConfigForAPIKeyEvent (ck_ArtifactUUID k);
             match cfg with inl _ => mret tt | inr _ => onKeys (KeyManager_StoreAPIKey k);; mret tt end
       end);;
      storeAffected keys'
  end.

(** Event data that cannot be read counts as none. *)
Definition handleApplication (event : Event) : LM DB unit :=
  current ← reads (fun l => db_GetAPIKeysByApplicationUUID (el_db l) (ev_EntityID event));
  match current with
  | inl _ => mret tt
  | inr keys =>
      let removed := match parseRemovedApplicationAPIKeyIDs (ev_EventData event) with inr ids => ids | inl _ => [] end in
      affected ← reads (resolveAffectedApplicationAPIKeys (ev_EntityID event) (mappedKeys keys) removed);
      storeAffected affected
  end.

(** ** listener.go *)

Definition byAction (createOrUpdate delete : Event -> LM DB unit) (event : Event) : LM DB unit :=
  if String.eqb (ev_Action event) "CREATE" || String.eqb (ev_Action event) "UPDATE" then createOrUpdate event
  else if String.eqb (ev_Action event) "DELETE" then delete event
  else mret tt.

Definition processAPIEvent : Event -> LM DB unit := byAction handleAPICreateOrUpdate handleAPIDelete.
Definition processAPIKeyEvent : Event -> LM DB unit := byAction handleAPIKeyUpsert handleAPIKeyRevoke.
Definition processLLMProviderEvent : Event -> LM DB unit := byAction handleLLMProviderCreateOrUpdate handleLLMProviderDelete.
Definition processLLMProxyEvent : Event -> LM DB unit := byAction handleLLMProxyCreateOrUpdate handleLLMProxyDelete.
Definition processMCPProxyEvent : Event -> LM DB unit := byAction handleMCPProxyCreateOrUpdate handleMCPProxyDelete.
Definition processLLMTemplateEvent : Event -> LM DB unit := byAction handleLLMTemplateCreateOrUpdate handleLLMTemplateDelete.
Definition processSubscriptionEvent : Event -> LM DB unit := byAction (fun _ => refreshSubscriptions) (fun _ => refreshSubscriptions).
Definition processSubscriptionPlanEvent : Event -> LM DB unit := byAction (fun _ => refreshSubscriptions) (fun _ => refreshSubscriptions).
Definition processApplicationEvent : Event -> LM DB unit := byAction handleApplication handleApplication.

(** Webhook secrets are handled by an extension, and events of certificates
    not at all. *)
Definition handleEvent (event : Event) : LM DB unit :=
  let type := ev_EventType event in
  if String.eqb type "API" then processAPIEvent event
  else if String.eqb type "API_KEY" then processAPIKeyEvent event
  else if String.eqb type "SUBSCRIPTION" then processSubscriptionEvent event
  else if String.eqb type "SUBSCRIPTION_PLAN" then processSubscriptionPlanEvent event
  else if String.eqb type "APPLICATION" then processApplicationEvent event
  else if String.eqb type "LLM_PROVIDER" then processLLMProviderEvent event
  else if String.eqb type "LLM_PROXY" then processLLMProxyEvent event
  else if String.eqb type "LLM_TEMPLATE" then processLLMTemplateEvent event
  else if String.eqb type "MCP_PROXY" then processMCPProxyEvent event
  else mret tt.

(** A panic is recovered. *)
Definition processEventSafely (event : Event) (l : Listener DB) : Listener DB := (handleEvent event l).1.

(** The events of the channel, one after the other. *)
Definition processEvents (events : list Event) (l : Listener DB) : Listener DB := foldl (fun l event => processEventSafely event l) l events.

End Handlers.
