(* ===== verification/Mutation.v ===== *)
(** * Mutation: ext_proc mutations and metadata

    The messages of Envoy's external-processing protocol the engine sends,
    and the helpers of kernel/translator.go and kernel/analytics.go that
    build them: resolution of header operations into one mutation per header,
    dynamic metadata with reserved keys, and analytics data.

    Envoy itself is an interface ([EnvoyHeaders]) whose law is the documented
    meaning of a header mutation: the removals are done first, then each
    [set_headers] entry overwrites or appends, by the field the release of
    Envoy reads.  The protobuf [Struct] and the
    JSON printer are another ([StructPB]). *)

From stdpp Require Import base gmap strings list fin_maps.
From Stdlib Require Import Ascii.
From S2P Require Import Prelude GoStrings Values Sdk ChainBuild.

#[local] Set Warnings "-register-all".

Open Scope string_scope.

(** ** Protocol messages *)

Inductive AppendAction : Type := OVERWRITE_IF_EXISTS_OR_ADD | APPEND_IF_EXISTS_OR_ADD.

Record HeaderValueOption : Type := mkHVO {
  hv_Key : string;
  hv_RawValue : string;
  hv_AppendAction : AppendAction;
  hv_Append : option bool (* the deprecated [append] wrapper *)
}.

Record HeaderMutation : Type := mkHeaderMutation {
  hm_SetHeaders : list HeaderValueOption;
  hm_RemoveHeaders : list string
}.

Definition emptyMutation : HeaderMutation := mkHeaderMutation [] [].

(** What an entry does to the values of its header.  The releases of Envoy
    up to v1.38 read the deprecated wrapper [append] alone, which is false when
    it is missing; later ones may read the append action. *)
Definition appends (readsAction : bool) (o : HeaderValueOption) : bool :=
  if readsAction then match hv_AppendAction o with APPEND_IF_EXISTS_OR_ADD => true | OVERWRITE_IF_EXISTS_OR_ADD => false end
  else default false (hv_Append o).

Definition applyOption (readsAction : bool) (vs : option (list string)) (o : HeaderValueOption) : option (list string) :=
  Some (if appends readsAction o then default [] vs ++ [hv_RawValue o] else [hv_RawValue o])%list.

Class EnvoyHeaders := {
  envoy_readsAction : bool;
  envoy_apply : HeaderMutation -> HeaderMap -> HeaderMap;
  envoy_apply_lookup : forall m h k,
    envoy_apply m h !! k =
      foldl (applyOption envoy_readsAction) (if decide (k ∈ hm_RemoveHeaders m) then None else h !! k)
        (filter (fun o => hv_Key o = k) (hm_SetHeaders m))
}.

Inductive BodyMutation : Type :=
| BodyMutation_Body (body : bytes)
| BodyMutation_StreamedResponse (body : option bytes) (endOfStream : bool).

(** ** Header operations *)

Inductive headerOp : Type :=
| OpSet (value : string)
| OpAppend (value : string)
| OpRemove.

Abbreviation HeaderOps := (gmap string (list headerOp)).

(** [headerOps[k] = append(headerOps[k], op)] *)
Definition addOp (k : string) (op : headerOp) (ops : HeaderOps) : HeaderOps :=
  <[k := (default [] (ops !! k) ++ [op])%list]> ops.

Section Headers.
Context `{MapRange}.

(** [for k, v := range mods.HeadersToSet { ... }] *)
Definition addSetHeaderOps (ops : HeaderOps) (headersToSet : gmap string string) : HeaderOps :=
  foldl (fun ops kv => addOp (ToLower kv.1) (OpSet kv.2) ops) ops (range headersToSet).

Definition addAppendHeaderOps (ops : HeaderOps) (headersToAppend : gmap string (list string)) : HeaderOps :=
  foldl (fun ops kv => foldl (fun ops value => addOp (ToLower kv.1) (OpAppend value) ops) ops kv.2)
    ops (range headersToAppend).

(** [for _, k := range mods.HeadersToRemove { ... }] *)
Definition addRemoveHeaderOps (ops : HeaderOps) (headersToRemove : list string) : HeaderOps :=
  foldl (fun ops k => addOp (ToLower k) OpRemove ops) ops headersToRemove.

Definition overwrite (key value : string) : HeaderValueOption :=
  mkHVO key value OVERWRITE_IF_EXISTS_OR_ADD None.
Definition append_ (key value : string) : HeaderValueOption :=
  mkHVO key value APPEND_IF_EXISTS_OR_ADD (Some true).

(** The search for the last set or remove below index [n]. *)
Fixpoint lastBreak (ops : list headerOp) (n : nat) : option (nat * headerOp) :=
  match n with
  | O => None
  | Datatypes.S i =>
      match ops !! i with
      | Some (OpSet v) => Some (i, OpSet v)
      | Some OpRemove => Some (i, OpRemove)
      | _ => lastBreak ops i
      end
  end.

(** The appends among the operations from index [startIdx] on. *)
Definition appendsFrom (key : string) (ops : list headerOp) (startIdx : nat) : list HeaderValueOption :=
  omap (fun op => match op with OpAppend v => Some (append_ key v) | _ => None end) (drop startIdx ops).

(** The contribution of one header. *)
Definition mutationOfOps (key : string) (ops : list headerOp) : HeaderMutation :=
  match last ops with
  | None => emptyMutation
  | Some OpRemove => mkHeaderMutation [] [key]
  | Some (OpSet v) => mkHeaderMutation [overwrite key v] []
  | Some (OpAppend _) =>
      match lastBreak ops (length ops) with
      | Some (i, OpSet v) => mkHeaderMutation (overwrite key v :: appendsFrom key ops (i + 1)) []
      | Some (i, _) => mkHeaderMutation (appendsFrom key ops (i + 1)) []
      | None => mkHeaderMutation (appendsFrom key ops 0) []
      end
  end.

Definition appendMutation (a b : HeaderMutation) : HeaderMutation :=
  mkHeaderMutation (hm_SetHeaders a ++ hm_SetHeaders b) (hm_RemoveHeaders a ++ hm_RemoveHeaders b).

Definition buildHeaderMutationFromOps (headerOps : HeaderOps) : HeaderMutation :=
  foldl (fun m kv => appendMutation m (mutationOfOps kv.1 kv.2)) emptyMutation (range headerOps).

Definition mergeHeaderMutations (headerMutation : HeaderMutation) (headerOps : HeaderOps) : HeaderMutation :=
  appendMutation headerMutation (buildHeaderMutationFromOps headerOps).

Definition buildHeaderValueOptions (headers : gmap string string) : option HeaderMutation :=
  if decide (size headers = 0) then None
  else Some (mkHeaderMutation (map (fun kv => overwrite (ToLower kv.1) kv.2) (range headers)) []).

Definition setContentLengthHeader (mutation : HeaderMutation) (bodyLength : Z) : HeaderMutation :=
  mkHeaderMutation (hm_SetHeaders mutation ++ [overwrite "content-length" (Itoa bodyLength)])
    (hm_RemoveHeaders mutation).

End Headers.

Definition sanitizeUpstreamDefinitionName (name : string) : string :=
  ReplaceAllByte ":" "_" (ReplaceAllByte "." "_" name).

(** ** Analytics headers *)

Definition finalizeAnalyticsHeaders (dropAction : DropHeaderAction) (originalHeaders : HeaderMap) : HeaderMap :=
  if String.eqb (da_Action dropAction) "" || Nat.eqb (length (da_Headers dropAction)) 0 then originalHeaders
  else
    let specified (name : string) : bool :=
      bool_decide (ToLower name ∈ map ToLower (da_Headers dropAction)) in
    if String.eqb (da_Action dropAction) "allow" then
      filter (fun kv => specified kv.1 = true) originalHeaders
    else if String.eqb (da_Action dropAction) "deny" then
      filter (fun kv => specified kv.1 = false) originalHeaders
    else originalHeaders.

(** ** Metadata *)

(** Metadata maps owned by the engine: no inner map is nil. *)
Abbreviation MetaMap := (gmap string (gmap string Value)).

Definition asDynMeta (m : MetaMap) : DynMeta := Some <$> m.

Section Metadata.
Context `{MapRange}.

Definition mergeDynamicMetadata (dest : MetaMap) (src : DynMeta) : MetaMap :=
  foldl (fun dest nm =>
      partial_alter (fun target => match nm.2 with
                                   | None => target
                                   | Some metadata => Some (map_copy_into (default ∅ target) metadata)
                                   end) nm.1 dest) dest (range src).

End Metadata.

(** Values of a protobuf [Struct]: what [structpb.NewValue] made of a Go
    value, a string, or a nested struct of such. *)
Inductive PBVal : Type :=
| PBNew (v : Value)
| PBString (s : string).

Inductive PBField : Type :=
| FVal (v : PBVal)
| FStruct (fields : gmap string PBVal).

Class StructPB := {
  (** [structpb.NewValue], [None] when the Go type is not supported. *)
  pb_NewValue : Value -> option Value;
  (** [json.Marshal] as text, or an error. *)
  json_Marshal : Value -> string + string
}.

(** [structpb.NewStruct]: fails as soon as one value cannot be converted. *)
Definition pb_NewStruct `{StructPB} (m : gmap string Value) : option (gmap string PBVal) :=
  list_to_map <$> mapM (fun kv => (fun v => (kv.1, PBNew v)) <$> pb_NewValue kv.2) (map_to_list m).

(** [RequestMutations] after the dereference of its pointers. *)
Record RequestMutations : Type := mkRequestMutations {
  mu_Path : option string;
  mu_Method : option string;
  mu_Host : option string
}.

Definition ExtProcFilterName : string := "api_platform.policy_engine.envoy.filters.http.ext_proc".
Definition ExtProcFilter : string := "envoy.filters.http.ext_proc".
Definition TargetUpstreamNameKey : string := "target_upstream_name".
Definition TargetUpstreamClusterKey : string := "target_upstream_cluster".
Definition TargetUpstreamHeader : string := "x-target-upstream".
Definition UpstreamDefinitionClusterPrefix : string := "upstream_".
Definition CurrentUpstreamKey : string := "current_upstream".

(** [baseFields] of [buildDynamicMetadata]. *)
Definition baseFields (analyticsStruct : option (gmap string PBVal)) (mutations : option RequestMutations) :
    gmap string PBField :=
  let set (k : string) (v : option string) (m : gmap string PBField) :=
    match v with Some s => <[k := FVal (PBString s)]> m | None => m end in
  let f0 : gmap string PBField :=
    match analyticsStruct with Some a => {["analytics_data" := FStruct a]} | None => ∅ end in
  match mutations with
  | None => f0
  | Some mu => set "host" (mu_Host mu) (set "method" (mu_Method mu) (set "path" (mu_Path mu) f0))
  end.

Definition reservedKeys : list string := ["analytics_data"; "path"; "method"; "host"].

Section Analytics.
Context `{MapRange} `{StructPB}.

Definition buildDynamicMetadata (analyticsStruct : option (gmap string PBVal))
    (mutations : option RequestMutations) (extra : DynMeta) : option (gmap string (gmap string PBField)) :=
  let base := baseFields analyticsStruct mutations in
  let namespaces0 : gmap string (gmap string PBField) :=
    if decide (base = ∅) then ∅ else {[ExtProcFilterName := base]} in
  let namespaces :=
    foldl (fun nss nm =>
      partial_alter (fun existing =>
        match nm.2 with
        | None => existing
        | Some metadata =>
            match pb_NewStruct metadata with
            | None => existing
            | Some metaStruct =>
                let fields := FVal <$> (if String.eqb nm.1 ExtProcFilterName
                                        then foldl (fun m k => delete k m) metaStruct reservedKeys
                                        else metaStruct) in
                match existing with
                | Some ex => Some (map_copy_into ex fields)
                | None => Some fields
                end
            end
        end) nm.1 nss) namespaces0 (range extra) in
  if decide (namespaces = ∅) then None else Some namespaces.

Definition convertToStructValue (value : Value) : string + PBVal :=
  match pb_NewValue value with
  | Some v => inr (PBNew v)
  | None =>
      match json_Marshal value with
      | inl err => inl ("failed to marshal value to JSON: " +:+ err)
      | inr s => inr (PBString s)
      end
  end.

Definition Wso2MetadataPrefix : string := "x-wso2-".

(** The system-level fields, from the shared context. *)
Definition systemFields (sharedCtx : SharedContext) : list (string * string) :=
  filter (fun kv => kv.2 <> "")
    [(Wso2MetadataPrefix +:+ "api-id", sc_APIId sharedCtx);
     (Wso2MetadataPrefix +:+ "api-name", sc_APIName sharedCtx);
     (Wso2MetadataPrefix +:+ "api-version", sc_APIVersion sharedCtx);
     (Wso2MetadataPrefix +:+ "api-context", sc_APIContext sharedCtx);
     (Wso2MetadataPrefix +:+ "operation-path", sc_OperationPath sharedCtx);
     (Wso2MetadataPrefix +:+ "api-kind", sc_APIKind sharedCtx);
     (Wso2MetadataPrefix +:+ "project-id", sc_ProjectID sharedCtx)].

(** The loop over the policies' data. *)
Fixpoint convertFields (entries : list (string * Value)) (fields : gmap string PBVal) : string + gmap string PBVal :=
  match entries with
  | [] => inr fields
  | (key, value) :: entries' =>
      match convertToStructValue value with
      | inl err => inl ("failed to convert analytics value for key " +:+ key +:+ ": " +:+ err)
      | inr v => convertFields entries' (<[key := v]> fields)
      end
  end.

Definition buildAnalyticsStruct (analyticsData : gmap string Value) (sharedCtx : SharedContext) :
    string + gmap string PBVal :=
  match convertFields (range analyticsData) ∅ with
  | inl err => inl err
  | inr fields =>
      inr (foldl (fun fields kv => <[kv.1 := PBString kv.2]> fields) fields (systemFields sharedCtx))
  end.

Definition extractMetadataFromRouteMetadata (routeMeta : RouteMetadata) : gmap string Value :=
  foldl (fun m kv => <[kv.1 := VString kv.2]> m) ∅
    (filter (fun kv => kv.2 <> "")
      [(Wso2MetadataPrefix +:+ "api-name", rm_APIName routeMeta);
       (Wso2MetadataPrefix +:+ "api-version", rm_APIVersion routeMeta);
       (Wso2MetadataPrefix +:+ "api-context", rm_Context routeMeta);
       (Wso2MetadataPrefix +:+ "operation-path", rm_OperationPath routeMeta);
       (Wso2MetadataPrefix +:+ "api-kind", rm_APIKind routeMeta);
       (Wso2MetadataPrefix +:+ "project-id", rm_ProjectID routeMeta)]).

End Analytics.
