(* ===== verification/ExecContext.v ===== *)
(** * ExecContext: the execution context of one request

    The state part of kernel/execution_context.go: the per-request
    [PolicyExecutionContext], how it is built from Envoy's messages, the
    body-presence and streaming tests, the processing-mode override, and the
    body codecs of kernel/decompression.go.

    The context's fields are grouped by the side they belong to: the route
    (fixed once the request has arrived), the request, the response, and the
    metadata that both share.  The [*SharedContext] and the header objects
    live in the [Store]. *)

From stdpp Require Import base gmap strings list fin_maps.
From Stdlib Require Import Ascii.
From S2P Require Import Prelude GoStrings Values Sdk QueryPath Executor ChainBuild Mutation.

#[local] Set Warnings "-register-all".

Open Scope string_scope.

(** ** Envoy's messages *)

Record HttpHeaders : Type := mkHttpHeaders {
  hh_Headers : list (string * string); (* key and raw value *)
  hh_EndOfStream : bool
}.

Record HttpBody : Type := mkHttpBody {
  hb_Body : option bytes;
  hb_EndOfStream : bool
}.

Inductive HeaderSendMode : Type := SEND | SKIP.
Inductive BodySendMode : Type := NONE | BUFFERED | FULL_DUPLEX_STREAMED.

(** [ProcessingMode] of the ext_proc filter; the request headers have been
    sent when an override is returned. *)
Record ModeOverride : Type := mkModeOverride {
  mo_ResponseHeaderMode : HeaderSendMode;
  mo_RequestBodyMode : BodySendMode;
  mo_ResponseBodyMode : BodySendMode;
  mo_RequestTrailerMode : HeaderSendMode;
  mo_ResponseTrailerMode : HeaderSendMode
}.

(** ** External code *)

(** Compression, from [compress/gzip] and the brotli library.  Whole bodies
    round-trip; a stream decoder is a machine that is fed chunks and gives
    out what it could decode so far. *)
Class Codecs := {
  gzip_decompress : bytes -> string + bytes;
  gzip_compress : bytes -> string + bytes;
  brotli_decompress : bytes -> string + bytes;
  brotli_compress : bytes -> string + bytes;
  gzip_roundtrip : forall b z, gzip_compress b = inr z -> gzip_decompress z = inr b;
  brotli_roundtrip : forall b z, brotli_compress b = inr z -> brotli_decompress z = inr b;
  StreamDecompressor : Type;
  newStreamDecompressor : string -> StreamDecompressor;
  FeedChunk : StreamDecompressor -> bytes -> bool -> StreamDecompressor * (string + bytes)
}.

(** [uuid.New().String()]: the [n]-th identifier drawn. *)
Class UUIDSource := { uuid_string : nat -> string }.

Definition decompressBody `{Codecs} (body : bytes) (encoding : string) : string + bytes :=
  if String.eqb encoding "gzip" then gzip_decompress body
  else if String.eqb encoding "br" then brotli_decompress body
  else inr body.

Definition recompressBody `{Codecs} (body : bytes) (encoding : string) : string + bytes :=
  if String.eqb encoding "gzip" then gzip_compress body
  else if String.eqb encoding "br" then brotli_compress body
  else inr body.

(** [fmt.Sscanf(value, "%d", &n)]: blanks, a sign, digits; what follows is
    not read. *)
Fixpoint skip_blanks (s : string) : option string :=
  match s with
  | EmptyString => Some EmptyString
  | String c s' =>
      if Nat.eqb (nat_of_ascii c) 10 || Nat.eqb (nat_of_ascii c) 13 then None
      else if is_space_byte c then skip_blanks s' else Some s
  end.

Definition Sscanf_d (s : string) : option Z :=
  match skip_blanks s with
  | None => None
  | Some (String "-" s') => Atoi (String "-" (span_digits s'))
  | Some (String "+" s') => Atoi (span_digits s')
  | Some s' => Atoi (span_digits s')
  end.

(** ** PolicyExecutionContext *)

Inductive processingPhase : Type :=
| phaseRequestHeaders | phaseRequestBody | phaseResponseHeaders | phaseResponseBody.

Record RoutePart (W : Type) : Type := mkRoutePart {
  policyChain : PolicyChain W;
  routeKey : string;
  requestID : string;
  downstreamHeaders : loc;
  defaultUpstreamCluster : string;
  upstreamBasePath : string;
  apiContext : string;
  upstreamDefinitionPaths : gmap string string;
  defaultUpstream : option UpstreamInfo
}.
Arguments mkRoutePart {W} _ _ _ _ _ _ _ _ _.
Arguments policyChain {W} _.
Arguments routeKey {W} _.
Arguments requestID {W} _.
Arguments downstreamHeaders {W} _.
Arguments defaultUpstreamCluster {W} _.
Arguments upstreamBasePath {W} _.
Arguments apiContext {W} _.
Arguments upstreamDefinitionPaths {W} _.
Arguments defaultUpstream {W} _.

Record RequestPart `{Codecs} : Type := mkRequestPart {
  requestHeaderCtx : RequestHeaderContext;
  requestBodyCtx : RequestContext;
  requestStreamContext : RequestStreamContext;
  requestContentEncoding : string;
  isStreamingRequest : bool;
  requestStreamAccumulator : bytes; (* [nil] when empty *)
  requestStreamDecomp : option StreamDecompressor
}.

Arguments mkRequestPart {_} _ _ _ _ _ _ _.

Record ResponsePart `{Codecs} : Type := mkResponsePart {
  responseHeaderCtx : option ResponseHeaderContext;
  responseBodyCtx : option ResponseContext;
  responseStreamContext : option ResponseStreamContext;
  responseContentEncoding : string;
  isStreamingResponse : bool;
  streamAccumulator : bytes;
  responseStreamDecomp : option StreamDecompressor;
  streamTerminated : bool
}.

Arguments mkResponsePart {_} _ _ _ _ _ _ _ _.

Record PolicyExecutionContext (W : Type) `{Codecs} : Type := mkEC {
  ec_route : RoutePart W;
  ec_req : RequestPart;
  ec_resp : ResponsePart;
  ec_analyticsMetadata : gmap string Value;
  ec_dynamicMetadata : MetaMap;
  ec_phase : processingPhase
}.
Arguments mkEC {W _} _ _ _ _ _ _.
Arguments ec_route {W _} _.
Arguments ec_req {W _} _.
Arguments ec_resp {W _} _.
Arguments ec_analyticsMetadata {W _} _.
Arguments ec_dynamicMetadata {W _} _.
Arguments ec_phase {W _} _.

(** The state a handler of one request runs on. *)
Record KState (W : Type) `{Codecs} : Type := mkKState {
  k_store : Store W;
  k_ec : PolicyExecutionContext W
}.
Arguments mkKState {W _} _ _.
Arguments k_store {W _} _.
Arguments k_ec {W _} _.

Section Context_.
Context {W : Type} `{Codecs}.
Implicit Types ec : PolicyExecutionContext W.

Definition with_req ec (r : RequestPart) : PolicyExecutionContext W :=
  mkEC (ec_route ec) r (ec_resp ec) (ec_analyticsMetadata ec) (ec_dynamicMetadata ec) (ec_phase ec).
Definition with_resp ec (r : ResponsePart) : PolicyExecutionContext W :=
  mkEC (ec_route ec) (ec_req ec) r (ec_analyticsMetadata ec) (ec_dynamicMetadata ec) (ec_phase ec).
Definition with_phase ec (p : processingPhase) : PolicyExecutionContext W :=
  mkEC (ec_route ec) (ec_req ec) (ec_resp ec) (ec_analyticsMetadata ec) (ec_dynamicMetadata ec) p.
Definition with_metadata ec (a : gmap string Value) (d : MetaMap) : PolicyExecutionContext W :=
  mkEC (ec_route ec) (ec_req ec) (ec_resp ec) a d (ec_phase ec).

Definition chainOf ec : PolicyChain W := policyChain (ec_route ec).

Definition set_requestEncoding ec (e : string) : PolicyExecutionContext W :=
  let r := ec_req ec in
  with_req ec (mkRequestPart (requestHeaderCtx r) (requestBodyCtx r) (requestStreamContext r) e
    (isStreamingRequest r) (requestStreamAccumulator r) (requestStreamDecomp r)).
Definition set_requestBodyCtx ec (b : RequestContext) : PolicyExecutionContext W :=
  let r := ec_req ec in
  with_req ec (mkRequestPart (requestHeaderCtx r) b (requestStreamContext r) (requestContentEncoding r)
    (isStreamingRequest r) (requestStreamAccumulator r) (requestStreamDecomp r)).
Definition set_requestHeaderCtx ec (h : RequestHeaderContext) : PolicyExecutionContext W :=
  let r := ec_req ec in
  with_req ec (mkRequestPart h (requestBodyCtx r) (requestStreamContext r) (requestContentEncoding r)
    (isStreamingRequest r) (requestStreamAccumulator r) (requestStreamDecomp r)).
Definition set_requestAccumulator ec (acc : bytes) : PolicyExecutionContext W :=
  let r := ec_req ec in
  with_req ec (mkRequestPart (requestHeaderCtx r) (requestBodyCtx r) (requestStreamContext r) (requestContentEncoding r)
    (isStreamingRequest r) acc (requestStreamDecomp r)).
Definition set_requestDecomp ec (d : option StreamDecompressor) : PolicyExecutionContext W :=
  let r := ec_req ec in
  with_req ec (mkRequestPart (requestHeaderCtx r) (requestBodyCtx r) (requestStreamContext r) (requestContentEncoding r)
    (isStreamingRequest r) (requestStreamAccumulator r) d).
Definition set_requestBody ec (b : option Body) : PolicyExecutionContext W :=
  let c := requestBodyCtx (ec_req ec) in
  set_requestBodyCtx ec (mkRequestContext (rc_Headers c) b (rc_Path c) (rc_Method c) (rc_Authority c)
    (rc_Scheme c) (rc_Vhost c) (rc_UpstreamInfo c) (rc_Downstream c) (rc_Upstream c)).

Definition set_responseEncoding ec (e : string) : PolicyExecutionContext W :=
  let r := ec_resp ec in
  with_resp ec (mkResponsePart (responseHeaderCtx r) (responseBodyCtx r) (responseStreamContext r) e
    (isStreamingResponse r) (streamAccumulator r) (responseStreamDecomp r) (streamTerminated r)).
Definition set_responseContexts ec (h : option ResponseHeaderContext) (b : option ResponseContext)
    (s : option ResponseStreamContext) : PolicyExecutionContext W :=
  let r := ec_resp ec in
  with_resp ec (mkResponsePart h b s (responseContentEncoding r)
    (isStreamingResponse r) (streamAccumulator r) (responseStreamDecomp r) (streamTerminated r)).
Definition set_isStreamingResponse ec (b : bool) : PolicyExecutionContext W :=
  let r := ec_resp ec in
  with_resp ec (mkResponsePart (responseHeaderCtx r) (responseBodyCtx r) (responseStreamContext r) (responseContentEncoding r)
    b (streamAccumulator r) (responseStreamDecomp r) (streamTerminated r)).
Definition set_streamAccumulator ec (acc : bytes) : PolicyExecutionContext W :=
  let r := ec_resp ec in
  with_resp ec (mkResponsePart (responseHeaderCtx r) (responseBodyCtx r) (responseStreamContext r) (responseContentEncoding r)
    (isStreamingResponse r) acc (responseStreamDecomp r) (streamTerminated r)).
Definition set_responseDecomp ec (d : option StreamDecompressor) : PolicyExecutionContext W :=
  let r := ec_resp ec in
  with_resp ec (mkResponsePart (responseHeaderCtx r) (responseBodyCtx r) (responseStreamContext r) (responseContentEncoding r)
    (isStreamingResponse r) (streamAccumulator r) d (streamTerminated r)).
Definition set_streamTerminated ec (b : bool) : PolicyExecutionContext W :=
  let r := ec_resp ec in
  with_resp ec (mkResponsePart (responseHeaderCtx r) (responseBodyCtx r) (responseStreamContext r) (responseContentEncoding r)
    (isStreamingResponse r) (streamAccumulator r) (responseStreamDecomp r) b).

(** ** The monad of the handlers *)

Definition getEC : GoM (KState W) (PolicyExecutionContext W) := fun s => Ok s (k_ec s).
Definition putEC ec : GoM (KState W) unit := fun s => Ok (mkKState (k_store s) ec) tt.
Definition getStore : GoM (KState W) (Store W) := fun s => Ok s (k_store s).

(** A computation on the store. *)
Definition onStore {A} (m : GoM (Store W) A) : GoM (KState W) A := fun s =>
  match m (k_store s) with
  | Ok st a => Ok (mkKState st (k_ec s)) a
  | Err st e => Err (mkKState st (k_ec s)) e
  | Panic => Panic
  end.

(** Dereference of a pointer that may be nil. *)
Definition deref {S A} (p : option A) : GoM S A := fun s =>
  match p with Some a => Ok s a | None => Panic end.

(** A call whose [(value, error)] result the caller inspects. *)
Definition try_ {A} (m : GoM (KState W) A) : GoM (KState W) (string + A) := fun s =>
  match m s with
  | Ok s' a => Ok s' (inr a)
  | Err s' e => Ok s' (inl e)
  | Panic => Panic
  end.

(** ** Helpers *)

Definition firstValue (h : option Headers) (name : string) : option string := head (Headers_Get h name).

Definition isStreamingClientRequest (headers : option Headers) : bool :=
  match firstValue headers "transfer-encoding" with
  | Some te => Contains (ToLower te) "chunked"
  | None => false
  end ||
  match firstValue headers "content-type" with
  | Some ct => HasPrefix (ToLower ct) "text/event-stream"
  | None => false
  end.

Definition isStreamingUpstreamResponse (headers : option Headers) : bool :=
  match firstValue headers "transfer-encoding" with
  | Some te => Contains (ToLower te) "chunked"
  | None => false
  end ||
  match firstValue headers "content-type" with
  | Some ct => HasPrefix (ToLower ct) "text/event-stream"
  | None => false
  end.

Definition toRequestUpstream (info : option UpstreamInfo) : option UpstreamRequestContext :=
  match info with
  | None => None
  | Some i => Some (mkUpstreamRequestContext "" (ui_URL i) (ui_BasePath i))
  end.

Definition toResponseUpstream (info : option UpstreamInfo) (respHeaders : loc) : UpstreamResponseContext :=
  match info with
  | None => mkUpstreamResponseContext "" "" "" respHeaders
  | Some i => mkUpstreamResponseContext "" (ui_URL i) (ui_BasePath i) respHeaders
  end.

(** [headersMap[key] = append(headersMap[key], value)] over the message. *)
Definition collectHeaders (l : list (string * string)) : HeaderMap :=
  foldl (fun m kv => <[kv.1 := (default [] (m !! kv.1) ++ [kv.2])%list]> m) ∅ l.

(** The value a [switch] over the keys keeps: the last occurrence. *)
Definition lastOccurrence (key : string) (l : list (string * string)) : string :=
  foldl (fun acc kv => if String.eqb kv.1 key then kv.2 else acc) "" l.
Definition lastOr (key d : string) (l : list (string * string)) : string :=
  foldl (fun acc kv => if String.eqb kv.1 key then kv.2 else acc) d l.
(** [if requestID == "" { requestID = value }]. *)
Definition firstNonEmpty (key : string) (l : list (string * string)) : string :=
  foldl (fun acc kv => if String.eqb kv.1 key then if String.eqb acc "" then kv.2 else acc else acc) "" l.

Definition lastStatus (l : list (string * string)) : Z :=
  foldl (fun acc kv => if String.eqb kv.1 ":status" then default acc (Sscanf_d kv.2) else acc) 0%Z l.

Context `{MapRange}.

Definition allocHeaders (h : Headers) (s : Store W) : Store W * loc :=
  let l := fresh (dom (st_heap s)) in (set_heap (<[l := h]> (st_heap s)) s, l).

Definition cloneHeaders (h : option Headers) : Headers := NewHeaders (Some (Headers_GetAll h)).

(** [applyRequestHeaderMutations] and its response counterpart. *)
Definition applyRequestHeaderMutations (results : list (PolicyResult RequestHeaderAction)) (values : HeaderMap) : HeaderMap :=
  foldl (fun values pr =>
    if pr_Skipped pr then values
    else match pr_Action pr with
         | Some (RHA_Mods mods) => update_headers ToLower (urh_HeadersToSet mods) (urh_HeadersToRemove mods) values
         | _ => values
         end) values results.

Definition applyResponseHeaderMutations (results : list (PolicyResult ResponseHeaderAction)) (values : HeaderMap) : HeaderMap :=
  foldl (fun values pr =>
    if pr_Skipped pr then values
    else match pr_Action pr with
         | Some (SHA_Mods mods) => update_headers ToLower (drh_HeadersToSet mods) (drh_HeadersToRemove mods) values
         | _ => values
         end) values results.

(** Whether the results contain an assignment to a header. *)
Definition requestResultsSet (results : list (PolicyResult RequestHeaderAction)) : bool :=
  existsb (fun pr => negb (pr_Skipped pr) &&
    match pr_Action pr with Some (RHA_Mods m) => negb (bool_decide (urh_HeadersToSet m = ∅)) | _ => false end) results.
Definition responseResultsSet (results : list (PolicyResult ResponseHeaderAction)) : bool :=
  existsb (fun pr => negb (pr_Skipped pr) &&
    match pr_Action pr with Some (SHA_Mods m) => negb (bool_decide (drh_HeadersToSet m = ∅)) | _ => false end) results.

(** The update on the object at [l]; a nil map can be deleted from but not
    assigned to ([sets]). *)
Definition mutateHeadersAt (l : loc) (sets : bool) (f : HeaderMap -> HeaderMap) : GoM (KState W) unit := fun s =>
  match Headers_UnsafeInternalValues (headers_at (k_store s) l) with
  | Some vs => Ok (mkKState (set_heap (<[l := mkHeaders (Some (f vs))]> (st_heap (k_store s))) (k_store s)) (k_ec s)) tt
  | None => if sets then Panic else Ok s tt
  end.

(** [if v := values[k]; len(v) > 0 { field = v[0] }]. *)
Definition pseudo (values : HeaderMap) (k d : string) : string :=
  match values !! k with Some (v :: _) => v | _ => d end.

Definition syncRequestPseudoHeaders (values : HeaderMap) (r : RequestPart) : RequestPart :=
  let h := requestHeaderCtx r in
  let b := requestBodyCtx r in
  let t := requestStreamContext r in
  mkRequestPart
    (mkRequestHeaderContext (rh_Headers h) (pseudo values ":path" (rh_Path h)) (pseudo values ":method" (rh_Method h))
       (pseudo values ":authority" (rh_Authority h)) (pseudo values ":scheme" (rh_Scheme h))
       (rh_Vhost h) (rh_Downstream h) (rh_Upstream h))
    (mkRequestContext (rc_Headers b) (rc_Body b) (pseudo values ":path" (rc_Path b)) (pseudo values ":method" (rc_Method b))
       (pseudo values ":authority" (rc_Authority b)) (pseudo values ":scheme" (rc_Scheme b))
       (rc_Vhost b) (rc_UpstreamInfo b) (rc_Downstream b) (rc_Upstream b))
    (mkRequestStreamContext (rs_Headers t) (pseudo values ":path" (rs_Path t)) (pseudo values ":method" (rs_Method t))
       (pseudo values ":authority" (rs_Authority t)) (pseudo values ":scheme" (rs_Scheme t))
       (rs_Vhost t) (rs_Downstream t) (rs_Upstream t))
    (requestContentEncoding r) (isStreamingRequest r) (requestStreamAccumulator r) (requestStreamDecomp r).

Context `{UUIDSource}.

(** [newPolicyExecutionContext], the assignments of
    [initializeExecutionContext] and [buildRequestContexts]. *)
Definition buildRequestContexts (chain : PolicyChain W) (key : string) (headers : HttpHeaders)
    (rm : RouteMetadata) : Store W -> Store W * PolicyExecutionContext W := fun s =>
  let hs := hh_Headers headers in
  let path := lastOccurrence ":path" hs in
  let method := lastOccurrence ":method" hs in
  let authority := lastOccurrence ":authority" hs in
  let scheme := lastOccurrence ":scheme" hs in
  let encoding := lastOccurrence "content-encoding" hs in
  let id0 := firstNonEmpty "x-request-id" hs in
  let '(id, n) := if String.eqb id0 "" then (uuid_string (st_fresh s), Datatypes.S (st_fresh s)) else (id0, st_fresh s) in
  let metadata :=
    (let m0 : gmap string Value := if String.eqb (rm_TemplateHandle rm) "" then ∅
              else {["template_handle" := VString (rm_TemplateHandle rm)]} in
     if String.eqb (rm_ProviderName rm) "" then m0 else <["provider_name" := VString (rm_ProviderName rm)]> m0) in
  let shared := mkSharedContext (rm_ProjectID rm) id metadata (rm_APIId rm) (rm_APIName rm) (rm_APIVersion rm)
                  (rm_APIKind rm) (rm_Context rm) (rm_OperationPath rm) None in
  let s := mkStore (st_heap s) shared (st_world s) n in
  let wrapped := NewHeaders (Some (collectHeaders hs)) in
  let '(s, l) := allocHeaders wrapped s in
  let '(s, d) := allocHeaders (cloneHeaders (Some wrapped)) s in
  let up := toRequestUpstream (rm_DefaultUpstream rm) in
  let bodyEOS := if hh_EndOfStream headers then Some (mkBody None true false) else None in
  (s, mkEC
    (mkRoutePart chain key id d (rm_DefaultUpstreamCluster rm) (rm_UpstreamBasePath rm) (rm_Context rm)
       (rm_UpstreamDefinitionPaths rm) (rm_DefaultUpstream rm))
    (mkRequestPart
       (mkRequestHeaderContext l path method authority scheme (rm_Vhost rm) d up)
       (mkRequestContext l bodyEOS path method authority scheme (rm_Vhost rm) (rm_DefaultUpstream rm) d up)
       (mkRequestStreamContext l path method authority scheme (rm_Vhost rm) d up)
       encoding (pc_SupportsRequestStreaming chain && isStreamingClientRequest (Some wrapped)) [] None)
    (mkResponsePart None None None "" false [] None false)
    ∅ ∅ phaseRequestHeaders).

Definition buildResponseContexts (headers : HttpHeaders) : GoM (KState W) unit := fun ks =>
  let ec := k_ec ks in
  let s := k_store ks in
  let hs := hh_Headers headers in
  let status := lastStatus hs in
  let responseHeaders := NewHeaders (Some (collectHeaders hs)) in
  let '(s, l) := allocHeaders responseHeaders s in
  let '(s, snap) := allocHeaders (cloneHeaders (Some responseHeaders)) s in
  let upstream := toResponseUpstream (defaultUpstream (ec_route ec)) snap in
  let rh := requestHeaderCtx (ec_req ec) in
  let rb := rc_Body (requestBodyCtx (ec_req ec)) in
  let d := downstreamHeaders (ec_route ec) in
  let bodyEOS := if hh_EndOfStream headers then Some (mkBody None true false) else None in
  let ec1 := set_responseEncoding ec (lastOr "content-encoding" (responseContentEncoding (ec_resp ec)) hs) in
  Ok (mkKState s (set_responseContexts ec1
        (Some (mkResponseHeaderContext (rh_Headers rh) rb (rh_Path rh) (rh_Method rh) l status d upstream))
        (Some (mkResponseContext (rh_Headers rh) rb (rh_Path rh) (rh_Method rh) l bodyEOS status d upstream))
        (Some (mkResponseStreamContext (rh_Headers rh) rb (rh_Path rh) (rh_Method rh) l status d upstream)))) tt.

(** ** Body presence and processing mode *)

Definition responseHasNoBody : GoM (KState W) bool := fun s =>
  match responseHeaderCtx (ec_resp (k_ec s)) with
  | None => Panic
  | Some rh =>
      let status := sh_ResponseStatus rh in
      if (status =? 204)%Z || (status =? 304)%Z || ((100 <=? status)%Z && (status <? 200)%Z) then Ok s true
      else if String.eqb (ToUpper (rh_Method (requestHeaderCtx (ec_req (k_ec s))))) "HEAD" then Ok s true
      else Ok s (match firstValue (headers_at (k_store s) (sh_ResponseHeaders rh)) "content-length" with
                 | Some cl => String.eqb cl "0"
                 | None => false
                 end)
  end.

Definition requestHasNoBody (s : KState W) : bool :=
  let r := ec_req (k_ec s) in
  let m := ToUpper (rh_Method (requestHeaderCtx r)) in
  match rc_Body (requestBodyCtx r) with Some b => b_EndOfStream b | None => false end ||
  String.eqb m "GET" || String.eqb m "HEAD" ||
  match firstValue (headers_at (k_store s) (rh_Headers (requestHeaderCtx r))) "content-length" with
  | Some cl => String.eqb cl "0"
  | None => false
  end.

Definition APIKindMCP : string := "Mcp".

Definition getModeOverride : GoM (KState W) ModeOverride := fun s =>
  let ec := k_ec s in
  let chain := chainOf ec in
  let requestMode :=
    if pc_RequiresRequestBody chain then
      if isStreamingRequest (ec_req ec) then FULL_DUPLEX_STREAMED else BUFFERED
    else NONE in
  let responseMode :=
    if pc_RequiresResponseBody chain then
      if isStreamingResponse (ec_resp ec) && negb (String.eqb (sc_APIKind (st_shared (k_store s))) APIKindMCP)
      then FULL_DUPLEX_STREAMED else BUFFERED
    else NONE in
  match ec_phase ec with
  | phaseResponseHeaders =>
      match responseHasNoBody s with
      | Ok s noBody => Ok s (mkModeOverride SEND requestMode (if noBody then NONE else responseMode) SKIP SKIP)
      | Err s e => Err s e
      | Panic => Panic
      end
  | _ => Ok s (mkModeOverride SEND requestMode responseMode SKIP SKIP)
  end.

End Context_.
