(* ===== verification/Translator.v ===== *)
(** * Translator: from policy results to ext_proc responses

    kernel/translator.go of the policy engine: the results of a phase become
    one response to Envoy (header mutation, body mutation, dynamic metadata,
    mode override) or an immediate response.  The translators also record
    analytics and dynamic metadata in the execution context, from where later
    phases pick them up. *)

From stdpp Require Import base gmap strings list fin_maps.
From Stdlib Require Import Ascii.
From S2P Require Import Prelude GoStrings Values Sdk QueryPath Executor ChainBuild Mutation ExecContext.

#[local] Set Warnings "-register-all".

Open Scope string_scope.

(** ** Responses *)

Record CommonResponse : Type := mkCommonResponse {
  cmn_HeaderMutation : option HeaderMutation;
  cmn_BodyMutation : option BodyMutation;
  cmn_ClearRouteCache : bool
}.

(** [HeadersResponse] and [BodyResponse] hold an optional [CommonResponse]. *)
Inductive Response : Type :=
| Response_Immediate (status : Z) (headers : option HeaderMutation) (body : option bytes)
| Response_RequestHeaders (c : option CommonResponse)
| Response_RequestBody (c : option CommonResponse)
| Response_ResponseHeaders (c : option CommonResponse)
| Response_ResponseBody (c : option CommonResponse).

Abbreviation MetadataStruct := (gmap string (gmap string PBField)).

Record ProcessingResponse : Type := mkProcessingResponse {
  resp_Response : Response;
  resp_ModeOverride : option ModeOverride;
  resp_DynamicMetadata : option MetadataStruct
}.

(** [typev3.StatusCode(code)]: conversion of an [int] to a 32-bit enum. *)
Definition to_int32 (z : Z) : Z := ((z + 2 ^ 31) mod 2 ^ 32 - 2 ^ 31)%Z.

(** ** Request results *)

(** The fields the two kinds of request modifications have in common. *)
Record ReqMods : Type := mkReqMods {
  rq_HeadersToSet : gmap string string;
  rq_HeadersToAppend : gmap string (list string);
  rq_HeadersToRemove : list string;
  rq_UpstreamName : option string;
  rq_Path : option string;
  rq_Host : option string;
  rq_Method : option string;
  rq_QueryParametersToAdd : option (gmap string (list string));
  rq_QueryParametersToRemove : option (list string);
  rq_AnalyticsMetadata : gmap string Value;
  rq_DynamicMetadata : DynMeta;
  rq_AnalyticsHeaderFilter : DropHeaderAction;
  rq_Body : option bytes
}.

Definition headerReqMods (m : UpstreamRequestHeaderModifications) : ReqMods :=
  mkReqMods (urh_HeadersToSet m) (urh_HeadersToAppend m) (urh_HeadersToRemove m) (urh_UpstreamName m)
    (urh_Path m) (urh_Host m) (urh_Method m) (urh_QueryParametersToAdd m) (urh_QueryParametersToRemove m)
    (urh_AnalyticsMetadata m) (urh_DynamicMetadata m) (urh_AnalyticsHeaderFilter m) None.
Definition bodyReqMods (m : UpstreamRequestModifications) : ReqMods :=
  mkReqMods (ur_HeadersToSet m) (ur_HeadersToAppend m) (ur_HeadersToRemove m) (ur_UpstreamName m)
    (ur_Path m) (ur_Host m) (ur_Method m) (ur_QueryParametersToAdd m) (ur_QueryParametersToRemove m)
    (ur_AnalyticsMetadata m) (ur_DynamicMetadata m) (ur_AnalyticsHeaderFilter m) (ur_Body m).

(** The modifications of the results that were executed, in order. *)
Definition headerResultMods (results : list (PolicyResult RequestHeaderAction)) : list ReqMods :=
  omap (fun pr => if pr_Skipped pr then None
                  else match pr_Action pr with Some (RHA_Mods m) => Some (headerReqMods m) | _ => None end) results.
Definition bodyResultMods (results : list (PolicyResult RequestAction)) : list ReqMods :=
  omap (fun pr => if pr_Skipped pr then None
                  else match pr_Action pr with Some (RA_Mods m) => Some (bodyReqMods m) | _ => None end) results.

(** [mutations.Path] is a pointer: to the local variable [path], whose later
    changes it sees, or to a string. *)
Inductive PathRef : Type := PathAlias | PathStr (s : string).

(** The local variables of a request translator, and the two maps of the
    execution context it updates. *)
Record ReqAcc : Type := mkReqAcc {
  ra_headerOps : HeaderOps;
  ra_body : option bytes; (* [BodyMutation], [bodyModified] *)
  ra_path : string;
  ra_mutPath : option PathRef;
  ra_mutHost : option string;
  ra_mutMethod : option string;
  ra_directive : option string; (* [upstreamRedirectDirective] *)
  ra_analytics : gmap string Value;
  ra_dynamic : MetaMap;
  ra_ctxAnalytics : gmap string Value;
  ra_ctxDynamic : MetaMap
}.

Definition hasFilter (f : DropHeaderAction) : bool :=
  negb (String.eqb (da_Action f) "") || negb (Nat.eqb (length (da_Headers f)) 0).

(** [directive.set]. *)
Definition directive_set (d name : option string) : option string :=
  match name with Some n => if String.eqb n "" then d else name | None => d end.

Section Request.
Context {W : Type} `{MapRange} `{NetURL} `{Codecs} `{StructPB}.
Implicit Types ec : PolicyExecutionContext W.

(** One iteration of the collecting loops; [originalHeaders] is
    [execCtx.requestBodyCtx.Headers.GetAll()]. *)
Definition collectReqMods (originalHeaders : HeaderMap) (a : ReqAcc) (m : ReqMods) : ReqAcc :=
  let ops := addRemoveHeaderOps (addAppendHeaderOps (addSetHeaderOps (ra_headerOps a) (rq_HeadersToSet m))
               (rq_HeadersToAppend m)) (rq_HeadersToRemove m) in
  let '(path1, ref1) := match rq_QueryParametersToAdd m with
                        | Some q => (AddQueryParametersToPath (ra_path a) q, Some PathAlias)
                        | None => (ra_path a, ra_mutPath a) end in
  let '(path2, ref2) := match rq_QueryParametersToRemove m with
                        | Some q => (RemoveQueryParametersFromPath path1 q, Some PathAlias)
                        | None => (path1, ref1) end in
  let ref3 := match rq_Path m with Some p => Some (PathStr p) | None => ref2 end in
  let analytics1 := map_copy_into (ra_analytics a) (rq_AnalyticsMetadata m) in
  let ctxAnalytics1 := map_copy_into (ra_ctxAnalytics a) (rq_AnalyticsMetadata m) in
  let finalized := VHeaders (finalizeAnalyticsHeaders (rq_AnalyticsHeaderFilter m) originalHeaders) in
  mkReqAcc ops
    (match rq_Body m with Some b => Some b | None => ra_body a end)
    path2 ref3
    (match rq_Host m with Some h => Some h | None => ra_mutHost a end)
    (match rq_Method m with Some h => Some h | None => ra_mutMethod a end)
    (directive_set (ra_directive a) (rq_UpstreamName m))
    (if hasFilter (rq_AnalyticsHeaderFilter m) then <["request_headers" := finalized]> analytics1 else analytics1)
    (mergeDynamicMetadata (ra_dynamic a) (rq_DynamicMetadata m))
    (if hasFilter (rq_AnalyticsHeaderFilter m) then <["request_headers" := finalized]> ctxAnalytics1 else ctxAnalytics1)
    (mergeDynamicMetadata (ra_ctxDynamic a) (rq_DynamicMetadata m)).

(** ** Dynamic routing *)

Definition set_meta (ns k : string) (v : Value) (m : MetaMap) : MetaMap :=
  <[ns := <[k := v]> (default ∅ (m !! ns))]> m.

Definition resolveUpstreamRedirect (sh : SharedContext) ec (name : string) : UpstreamInfo * string * bool :=
  let clusterName := UpstreamDefinitionClusterPrefix +:+ sc_APIKind sh +:+ "_" +:+ sc_APIId sh +:+ "_"
                       +:+ sanitizeUpstreamDefinitionName name in
  match upstreamDefinitionPaths (ec_route ec) !! name with
  | Some bp => (mkUpstreamInfo clusterName "" bp, name, true)
  | None => (mkUpstreamInfo clusterName "" "", name, false)
  end.

Definition set_routing (a : ReqAcc) ops ref dyn ctxDyn : ReqAcc :=
  mkReqAcc ops (ra_body a) (ra_path a) ref (ra_mutHost a) (ra_mutMethod a) (ra_directive a)
    (ra_analytics a) dyn (ra_ctxAnalytics a) ctxDyn.

Definition applyUpstreamRedirect ec (info : UpstreamInfo) (label : string) (basePathKnown : bool) (a : ReqAcc) : ReqAcc :=
  let ns := ExtProcFilterName in
  let ops := addOp TargetUpstreamHeader (OpSet (ui_ClusterName info)) (ra_headerOps a) in
  let ctx1 := set_meta ns CurrentUpstreamKey (UpstreamInfo_ToMap info)
                (set_meta ns TargetUpstreamNameKey (VString label)
                  (set_meta ns TargetUpstreamClusterKey (VString (ui_ClusterName info)) (ra_ctxDynamic a))) in
  let dyn1 := set_meta ns CurrentUpstreamKey (UpstreamInfo_ToMap info)
                (set_meta ns "upstream_base_path" (VString (upstreamBasePath (ec_route ec)))
                  (set_meta ns "api_context" (VString (apiContext (ec_route ec))) (ra_dynamic a))) in
  if basePathKnown then
    set_routing a ops
      (match ra_mutPath a with None => Some (PathStr (rc_Path (requestBodyCtx (ec_req ec)))) | r => r end)
      (set_meta ns "target_upstream_base_path" (VString (ui_BasePath info)) dyn1)
      (set_meta ns "target_upstream_base_path" (VString (ui_BasePath info)) ctx1)
  else set_routing a ops (ra_mutPath a) dyn1 ctx1.

Definition applyDefaultUpstream ec (a : ReqAcc) : ReqAcc :=
  let ns := ExtProcFilterName in
  let r := ec_route ec in
  let ops := addOp TargetUpstreamHeader (OpSet (defaultUpstreamCluster r)) (ra_headerOps a) in
  let info := match defaultUpstream r with
              | Some i => i
              | None => mkUpstreamInfo (defaultUpstreamCluster r) "" (upstreamBasePath r)
              end in
  set_routing a ops (ra_mutPath a)
    (set_meta ns CurrentUpstreamKey (UpstreamInfo_ToMap info)
       (set_meta ns "upstream_base_path" (VString (upstreamBasePath r))
          (set_meta ns "api_context" (VString (apiContext r)) (ra_dynamic a))))
    (set_meta ns CurrentUpstreamKey (UpstreamInfo_ToMap info) (ra_ctxDynamic a)).

(** The routing block all request translators share. *)
Definition route (sh : SharedContext) ec (a : ReqAcc) : ReqAcc :=
  match ra_directive a with
  | Some name =>
      let '(info, label, basePathKnown) := resolveUpstreamRedirect sh ec name in
      applyUpstreamRedirect ec info label basePathKnown a
  | None => if String.eqb (defaultUpstreamCluster (ec_route ec)) "" then a else applyDefaultUpstream ec a
  end.

(** [mutations] when the metadata is built. *)
Definition finalMutations (a : ReqAcc) : RequestMutations :=
  mkRequestMutations
    (match ra_mutPath a with Some PathAlias => Some (ra_path a) | Some (PathStr s) => Some s | None => None end)
    (ra_mutMethod a) (ra_mutHost a).

(** ** Immediate responses *)

Definition immediate (r : ImmediateResponse) (md : option MetadataStruct) : ProcessingResponse :=
  mkProcessingResponse
    (Response_Immediate (to_int32 (ir_StatusCode r)) (buildHeaderValueOptions (ir_Headers r)) (ir_Body r)) None md.

(** [buildAnalyticsStruct] and [buildDynamicMetadata] with the error the
    callers wrap. *)
Definition finishImmediate (r : ImmediateResponse) (analytics : gmap string Value) : GoM (KState W) ProcessingResponse :=
  st ← getStore;
  match buildAnalyticsStruct analytics (st_shared st) with
  | inl err => fail ("failed to build analytics metadata for immediate response: " +:+ err)
  | inr a => mret (immediate r (buildDynamicMetadata (Some a) None (ir_DynamicMetadata r)))
  end.

(** The analytics of a request short circuit: the context's, then those of
    the policies that ran, then the response's own. *)
Definition shortCircuitAnalytics (originalHeaders : HeaderMap) (mods : list ReqMods) (own : gmap string Value) ec :
    gmap string Value :=
  let step (acc : gmap string Value) (m : ReqMods) :=
    let acc1 := map_copy_into acc (rq_AnalyticsMetadata m) in
    if hasFilter (rq_AnalyticsHeaderFilter m)
    then <["request_headers" := VHeaders (finalizeAnalyticsHeaders (rq_AnalyticsHeaderFilter m) originalHeaders)]> acc1
    else acc1 in
  map_copy_into (foldl step (map_copy_into ∅ (ec_analyticsMetadata ec)) mods) own.

Definition requestHeadersOf ec (st : Store W) : HeaderMap :=
  Headers_GetAll (headers_at st (rc_Headers (requestBodyCtx (ec_req ec)))).

Definition initReqAcc ec (analytics : gmap string Value) : ReqAcc :=
  mkReqAcc ∅ None (rc_Path (requestBodyCtx (ec_req ec))) None None None None analytics ∅
    (ec_analyticsMetadata ec) (ec_dynamicMetadata ec).

Definition storeMetadata (a d : _) : GoM (KState W) unit :=
  ec ← getEC; putEC (with_metadata ec a d).

(** ** translateRequestActionsCore *)

Record RequestTranslationResult : Type := mkRTR {
  rt_HeaderMutation : HeaderMutation;
  rt_BodyMutation : option BodyMutation;
  rt_AnalyticsData : gmap string Value;
  rt_DynamicMetadata : MetaMap;
  rt_Mutations : RequestMutations
}.

(** Re-compression of a modified body in the original encoding: the bytes to
    send, and the operations with the content-encoding removed if that
    failed. *)
Definition recompressModified (encoding : string) (body : option bytes) (ops : HeaderOps) : option bytes * HeaderOps :=
  match body with
  | None => (None, ops)
  | Some b =>
      if String.eqb encoding "" then (Some b, ops)
      else match recompressBody b encoding with
           | inl _ => (Some b, addOp "content-encoding" OpRemove ops)
           | inr z => (Some z, ops)
           end
  end.

(** The header mutation of a response whose body is [body]. *)
Definition finishHeaders (body : option bytes) (ops : HeaderOps) : HeaderMutation :=
  match body with
  | None => mergeHeaderMutations emptyMutation ops
  | Some b => setContentLengthHeader (mergeHeaderMutations emptyMutation (delete "content-length" ops)) (Z.of_nat (length b))
  end.

(** [if _, ok := m[ns][k]; !ok { m[ns][k] = v }]. *)
Definition set_meta_default (ns k : string) (v : Value) (m : MetaMap) : MetaMap :=
  match default ∅ (m !! ns) !! k with Some _ => m | None => set_meta ns k v m end.

Definition translateRequestActionsCore (result : RequestExecutionResult) :
    GoM (KState W) (ProcessingResponse + RequestTranslationResult) :=
  ec ← getEC;
  st ← getStore;
  let res := re_Result result in
  let originalHeaders := requestHeadersOf ec st in
  match er_ShortCircuited res, er_FinalAction res with
  | true, Some (RA_Immediate immResp) =>
      response ← finishImmediate immResp
        (shortCircuitAnalytics originalHeaders (bodyResultMods (er_Results res)) (ir_AnalyticsMetadata immResp) ec);
      mret (inl response)
  | _, _ =>
      let a0 := foldl (collectReqMods originalHeaders)
                  (initReqAcc ec (map_copy_into ∅ (ec_analyticsMetadata ec))) (bodyResultMods (er_Results res)) in
      let a := route (st_shared st) ec a0 in
      storeMetadata (ra_ctxAnalytics a) (ra_ctxDynamic a);;
      let dyn := match ra_mutPath a with
                 | None => ra_dynamic a
                 | Some _ =>
                     set_meta_default ExtProcFilterName "upstream_base_path" (VString (upstreamBasePath (ec_route ec)))
                       (set_meta_default ExtProcFilterName "api_context" (VString (apiContext (ec_route ec))) (ra_dynamic a))
                 end in
      let '(body, ops) := recompressModified (requestContentEncoding (ec_req ec)) (ra_body a) (ra_headerOps a) in
      mret (inr (mkRTR (finishHeaders body ops) (BodyMutation_Body <$> body) (ra_analytics a) dyn (finalMutations a)))
  end.

(** The response of a request phase. *)
Definition finishRequest (wrap : option CommonResponse -> Response) (hm : HeaderMutation) (bm : option BodyMutation)
    (analytics : gmap string Value) (mu : RequestMutations) (dyn : MetaMap) : GoM (KState W) ProcessingResponse :=
  mode ← getModeOverride;
  st ← getStore;
  match buildAnalyticsStruct analytics (st_shared st) with
  | inl err => fail ("failed to build analytics metadata: " +:+ err)
  | inr a => mret (mkProcessingResponse (wrap (Some (mkCommonResponse (Some hm) bm true))) (Some mode)
                     (buildDynamicMetadata (Some a) (Some mu) (asDynMeta dyn)))
  end.

Definition TranslateRequestBodyActions (result : RequestExecutionResult) : GoM (KState W) ProcessingResponse :=
  rsl ← translateRequestActionsCore result;
  match rsl with
  | inl immediateResp => mret immediateResp
  | inr r => finishRequest Response_RequestBody (rt_HeaderMutation r) (rt_BodyMutation r) (rt_AnalyticsData r)
               (rt_Mutations r) (rt_DynamicMetadata r)
  end.

Definition TranslateRequestHeadersActions (result : RequestExecutionResult) : GoM (KState W) ProcessingResponse :=
  rsl ← translateRequestActionsCore result;
  match rsl with
  | inl immediateResp => mret immediateResp
  | inr r => finishRequest Response_RequestHeaders (rt_HeaderMutation r) (rt_BodyMutation r) (rt_AnalyticsData r)
               (rt_Mutations r) (rt_DynamicMetadata r)
  end.

(** ** TranslateRequestHeaderActions *)

Definition TranslateRequestHeaderActions (result : RequestHeaderExecutionResult) : GoM (KState W) ProcessingResponse :=
  ec ← getEC;
  st ← getStore;
  let originalHeaders := requestHeadersOf ec st in
  match er_ShortCircuited result, er_FinalAction result with
  | true, Some (RHA_Immediate immResp) =>
      finishImmediate immResp
        (shortCircuitAnalytics originalHeaders (headerResultMods (er_Results result)) (ir_AnalyticsMetadata immResp) ec)
  | _, _ =>
      let a := route (st_shared st) ec
                 (foldl (collectReqMods originalHeaders) (initReqAcc ec ∅) (headerResultMods (er_Results result))) in
      storeMetadata (ra_ctxAnalytics a) (ra_ctxDynamic a);;
      finishRequest Response_RequestHeaders (mergeHeaderMutations emptyMutation (ra_headerOps a)) None
        (ra_analytics a) (finalMutations a) (ra_dynamic a)
  end.

Definition TranslateRequestHeaderActionsWithBodyMerge (headerResult : RequestHeaderExecutionResult)
    (bodyResult : RequestExecutionResult) : GoM (KState W) ProcessingResponse :=
  ec ← getEC;
  st ← getStore;
  let originalHeaders := requestHeadersOf ec st in
  let res := re_Result bodyResult in
  match er_ShortCircuited res, er_FinalAction res with
  | true, Some (RA_Immediate immResp) => finishImmediate immResp (ir_AnalyticsMetadata immResp)
  | _, _ =>
      let a := route (st_shared st) ec
                 (foldl (collectReqMods originalHeaders) (initReqAcc ec ∅)
                    (headerResultMods (er_Results headerResult) ++ bodyResultMods (er_Results res))) in
      storeMetadata (ra_ctxAnalytics a) (ra_ctxDynamic a);;
      finishRequest Response_RequestHeaders (finishHeaders (ra_body a) (ra_headerOps a)) (BodyMutation_Body <$> ra_body a)
        (ra_analytics a) (finalMutations a) (ra_dynamic a)
  end.

(** ** Streaming request chunks *)

Definition streamedBody (wrap : option CommonResponse -> Response) (body : option bytes) (eos : bool) : Response :=
  wrap (Some (mkCommonResponse None (Some (BodyMutation_StreamedResponse body eos)) false)).

(** The end of the chunk and response-body translators: metadata only when
    there is any. *)
Definition finishWithMetadata (resp : Response) (analytics : gmap string Value) (dyn : MetaMap) :
    GoM (KState W) ProcessingResponse :=
  st ← getStore;
  if decide (analytics = ∅) then
    mret (mkProcessingResponse resp None
            (if decide (dyn = ∅) then None else buildDynamicMetadata None None (asDynMeta dyn)))
  else
    match buildAnalyticsStruct analytics (st_shared st) with
    | inl err => fail ("failed to build analytics metadata: " +:+ err)
    | inr a => mret (mkProcessingResponse resp None (buildDynamicMetadata (Some a) None (asDynMeta dyn)))
    end.

(** Re-compression of a chunk: the bytes and the encoding that remains in
    force. *)
Definition recompressChunk (encoding : string) (body : option bytes) : option bytes * string :=
  if String.eqb encoding "gzip" || String.eqb encoding "br" then
    match recompressBody (default [] body) encoding with
    | inl _ => (body, "")
    | inr z => (Some z, encoding)
    end
  else (body, encoding). (* none, or one that is passed through *)

(** The metadata loop of the chunk translators: the answer's analytics and
    dynamic metadata, and the context's. *)
Definition ChunkMeta : Type := gmap string Value * MetaMap * gmap string Value * MetaMap.
Definition requestChunkFields (a : StreamingRequestAction) : ChunkFields :=
  match a with ForwardRequestChunk f => f end.
Definition responseChunkFields (a : StreamingResponseAction) : ChunkFields :=
  match a with ForwardResponseChunk f | TerminateResponseChunk f => f end.
Definition collectChunkMeta {Act} (fields : Act -> ChunkFields) (acc : ChunkMeta) (pr : PolicyResult Act) : ChunkMeta :=
  let '(a, d, ca, cd) := acc in
  if pr_Skipped pr then (a, d, ca, cd)
  else match pr_Action pr with
       | Some act =>
           let f := fields act in
           (map_copy_into a (cf_AnalyticsMetadata f), mergeDynamicMetadata d (cf_DynamicMetadata f),
            map_copy_into ca (cf_AnalyticsMetadata f), mergeDynamicMetadata cd (cf_DynamicMetadata f))
       | None => (a, d, ca, cd)
       end.

Definition TranslateStreamingRequestChunkAction (result : StreamingRequestExecutionResult) (originalChunk : StreamBody) :
    GoM (KState W) ProcessingResponse :=
  ec ← getEC;
  let body0 := match sq_FinalChunk result with Some c => sb_Chunk c | None => sb_Chunk originalChunk end in
  let '(outputBody, encoding) := recompressChunk (requestContentEncoding (ec_req ec)) body0 in
  let '(analytics, dyn, ctxA, ctxD) :=
    foldl (collectChunkMeta requestChunkFields)
      ((∅ : gmap string Value), (∅ : MetaMap), ec_analyticsMetadata ec, ec_dynamicMetadata ec) (sq_Results result) in
  putEC (set_requestEncoding (with_metadata ec ctxA ctxD) encoding);;
  finishWithMetadata (streamedBody Response_RequestBody outputBody (sb_EndOfStream originalChunk)) analytics dyn.

End Request.

(** ** Response results *)

Record RespMods : Type := mkRespMods {
  rs_HeadersToSet : gmap string string;
  rs_HeadersToAppend : gmap string (list string);
  rs_HeadersToRemove : list string;
  rs_AnalyticsMetadata : gmap string Value;
  rs_DynamicMetadata : DynMeta;
  rs_AnalyticsHeaderFilter : DropHeaderAction;
  rs_Body : option bytes;
  rs_StatusCode : option Z
}.

Definition headerRespMods (m : DownstreamResponseHeaderModifications) : RespMods :=
  mkRespMods (drh_HeadersToSet m) (drh_HeadersToAppend m) (drh_HeadersToRemove m) (drh_AnalyticsMetadata m)
    (drh_DynamicMetadata m) (drh_AnalyticsHeaderFilter m) None None.
Definition bodyRespMods (m : DownstreamResponseModifications) : RespMods :=
  mkRespMods (dr_HeadersToSet m) (dr_HeadersToAppend m) (dr_HeadersToRemove m) (dr_AnalyticsMetadata m)
    (dr_DynamicMetadata m) (dr_AnalyticsHeaderFilter m) (dr_Body m) (dr_StatusCode m).

Definition headerRespResultMods (results : list (PolicyResult ResponseHeaderAction)) : list RespMods :=
  omap (fun pr => if pr_Skipped pr then None
                  else match pr_Action pr with Some (SHA_Mods m) => Some (headerRespMods m) | _ => None end) results.
Definition bodyRespResultMods (results : list (PolicyResult ResponseAction)) : list RespMods :=
  omap (fun pr => if pr_Skipped pr || bool_decide (is_Some (pr_Error pr)) then None
                  else match pr_Action pr with Some (SA_Mods m) => Some (bodyRespMods m) | _ => None end) results.

Record RespAcc : Type := mkRespAcc {
  sa_headerOps : HeaderOps;
  sa_body : option bytes;
  sa_analytics : gmap string Value;
  sa_dynamic : MetaMap;
  sa_ctxAnalytics : gmap string Value;
  sa_ctxDynamic : MetaMap
}.

Section Response_.
Context {W : Type} `{MapRange} `{Codecs} `{StructPB}.
Implicit Types ec : PolicyExecutionContext W.

Definition respOps (ops : HeaderOps) (m : RespMods) : HeaderOps :=
  let ops1 := addRemoveHeaderOps (addAppendHeaderOps (addSetHeaderOps ops (rs_HeadersToSet m))
                (rs_HeadersToAppend m)) (rs_HeadersToRemove m) in
  match rs_StatusCode m with
  | Some c => addOp ":status" (OpSet (Itoa c)) ops1
  | None => ops1
  end.

(** One iteration of the loops of [TranslateResponseHeaderActions] and of its
    body-merging variant. *)
Definition collectRespMods (originalHeaders : HeaderMap) (a : RespAcc) (m : RespMods) : RespAcc :=
  let analytics1 := map_copy_into (sa_analytics a) (rs_AnalyticsMetadata m) in
  let ctxAnalytics1 := map_copy_into (sa_ctxAnalytics a) (rs_AnalyticsMetadata m) in
  let finalized := VHeaders (finalizeAnalyticsHeaders (rs_AnalyticsHeaderFilter m) originalHeaders) in
  mkRespAcc (respOps (sa_headerOps a) m)
    (match rs_Body m with Some b => Some b | None => sa_body a end)
    (if hasFilter (rs_AnalyticsHeaderFilter m) then <["response_headers" := finalized]> analytics1 else analytics1)
    (mergeDynamicMetadata (sa_dynamic a) (rs_DynamicMetadata m))
    (if hasFilter (rs_AnalyticsHeaderFilter m) then <["response_headers" := finalized]> ctxAnalytics1 else ctxAnalytics1)
    (mergeDynamicMetadata (sa_ctxDynamic a) (rs_DynamicMetadata m)).

(** One iteration of [translateResponseActionsCore]: the context's analytics
    are not updated. *)
Definition collectRespModsCore (originalHeaders : HeaderMap) (a : RespAcc) (m : RespMods) : RespAcc :=
  let analytics1 := map_copy_into (sa_analytics a) (rs_AnalyticsMetadata m) in
  let finalized := VHeaders (finalizeAnalyticsHeaders (rs_AnalyticsHeaderFilter m) originalHeaders) in
  mkRespAcc (respOps (sa_headerOps a) m)
    (match rs_Body m with Some b => Some b | None => sa_body a end)
    (if hasFilter (rs_AnalyticsHeaderFilter m) then
       let analytics2 := <["response_headers" := finalized]> analytics1 in
       match sa_ctxAnalytics a !! "request_headers" with
       | Some v => <["request_headers" := v]> analytics2
       | None => analytics2
       end
     else analytics1)
    (mergeDynamicMetadata (sa_dynamic a) (rs_DynamicMetadata m))
    (sa_ctxAnalytics a)
    (mergeDynamicMetadata (sa_ctxDynamic a) (rs_DynamicMetadata m)).

(** The accumulators, seeded with the metadata of the request phase. *)
Definition initRespAcc ec : RespAcc :=
  mkRespAcc ∅ None (map_copy_into ∅ (ec_analyticsMetadata ec))
    (mergeDynamicMetadata ∅ (asDynMeta (ec_dynamicMetadata ec)))
    (ec_analyticsMetadata ec) (ec_dynamicMetadata ec).

(** [execCtx.responseBodyCtx.ResponseHeaders.GetAll()]; the contexts exist
    whenever a response phase is translated. *)
Definition responseHeadersOf ec (st : Store W) : GoM (KState W) HeaderMap :=
  rb ← deref (responseBodyCtx (ec_resp ec));
  mret (Headers_GetAll (headers_at st (rp_ResponseHeaders rb))).

(** The response of a response-headers phase. *)
Definition finishResponseHeaders (hm : HeaderMutation) (bm : option BodyMutation)
    (analytics : gmap string Value) (dyn : MetaMap) : GoM (KState W) ProcessingResponse :=
  mode ← getModeOverride;
  st ← getStore;
  match buildAnalyticsStruct analytics (st_shared st) with
  | inl err => fail ("failed to build analytics metadata: " +:+ err)
  | inr a => mret (mkProcessingResponse (Response_ResponseHeaders (Some (mkCommonResponse (Some hm) bm false))) (Some mode)
                     (buildDynamicMetadata (Some a) None (asDynMeta dyn)))
  end.

Definition TranslateResponseHeaderActions (result : ResponseHeaderExecutionResult) : GoM (KState W) ProcessingResponse :=
  ec ← getEC;
  st ← getStore;
  match er_ShortCircuited result, er_FinalAction result with
  | true, Some (SHA_Immediate immResp) => finishImmediate immResp (ir_AnalyticsMetadata immResp)
  | _, _ =>
      originalHeaders ← responseHeadersOf ec st;
      let a := foldl (collectRespMods originalHeaders) (initRespAcc ec) (headerRespResultMods (er_Results result)) in
      storeMetadata (sa_ctxAnalytics a) (sa_ctxDynamic a);;
      finishResponseHeaders (mergeHeaderMutations emptyMutation (sa_headerOps a)) None (sa_analytics a) (sa_dynamic a)
  end.

Definition TranslateResponseHeaderActionsWithBodyMerge (headerResult : ResponseHeaderExecutionResult)
    (bodyResult : ResponseExecutionResult) : GoM (KState W) ProcessingResponse :=
  ec ← getEC;
  st ← getStore;
  match er_ShortCircuited bodyResult, er_FinalAction bodyResult with
  | true, Some (SA_Immediate immResp) => finishImmediate immResp (ir_AnalyticsMetadata immResp)
  | _, _ =>
      originalHeaders ← responseHeadersOf ec st;
      let a := foldl (collectRespMods originalHeaders) (initRespAcc ec)
                 (headerRespResultMods (er_Results headerResult) ++ bodyRespResultMods (er_Results bodyResult)) in
      storeMetadata (sa_ctxAnalytics a) (sa_ctxDynamic a);;
      let '(body, ops) := recompressModified (responseContentEncoding (ec_resp ec)) (sa_body a) (sa_headerOps a) in
      finishResponseHeaders (finishHeaders body ops) (BodyMutation_Body <$> body) (sa_analytics a) (sa_dynamic a)
  end.

Record ResponseTranslationResult : Type := mkSTR {
  stx_HeaderMutation : HeaderMutation;
  stx_BodyMutation : option BodyMutation;
  stx_AnalyticsData : gmap string Value;
  stx_DynamicMetadata : MetaMap
}.

Definition translateResponseActionsCore (result : ResponseExecutionResult) :
    GoM (KState W) (ProcessingResponse + ResponseTranslationResult) :=
  ec ← getEC;
  st ← getStore;
  match er_ShortCircuited result, er_FinalAction result with
  | true, Some (SA_Immediate immResp) =>
      response ← finishImmediate immResp (ir_AnalyticsMetadata immResp);
      mret (inl response)
  | _, _ =>
      originalHeaders ← responseHeadersOf ec st;
      let a := foldl (collectRespModsCore originalHeaders) (initRespAcc ec) (bodyRespResultMods (er_Results result)) in
      storeMetadata (sa_ctxAnalytics a) (sa_ctxDynamic a);;
      let '(body, ops) := recompressModified (responseContentEncoding (ec_resp ec)) (sa_body a) (sa_headerOps a) in
      mret (inr (mkSTR (finishHeaders body ops) (BodyMutation_Body <$> body) (sa_analytics a) (sa_dynamic a)))
  end.

Definition TranslateResponseHeadersActions (result : ResponseExecutionResult) : GoM (KState W) ProcessingResponse :=
  rsl ← translateResponseActionsCore result;
  match rsl with
  | inl immediateResp => mret immediateResp
  | inr r =>
      st ← getStore;
      match buildAnalyticsStruct (stx_AnalyticsData r) (st_shared st) with
      | inl err => fail ("failed to build analytics metadata: " +:+ err)
      | inr a => mret (mkProcessingResponse
                   (Response_ResponseHeaders (Some (mkCommonResponse (Some (stx_HeaderMutation r)) (stx_BodyMutation r) false)))
                   None (buildDynamicMetadata (Some a) None (asDynMeta (stx_DynamicMetadata r))))
      end
  end.

Definition TranslateResponseBodyActions (result : ResponseExecutionResult) : GoM (KState W) ProcessingResponse :=
  rsl ← translateResponseActionsCore result;
  match rsl with
  | inl immediateResp => mret immediateResp
  | inr r =>
      finishWithMetadata
        (Response_ResponseBody (Some (mkCommonResponse (Some (stx_HeaderMutation r)) (stx_BodyMutation r) false)))
        (stx_AnalyticsData r) (stx_DynamicMetadata r)
  end.

Definition TranslateStreamingResponseChunkAction (result : StreamingResponseExecutionResult) (originalChunk : StreamBody) :
    GoM (KState W) ProcessingResponse :=
  ec ← getEC;
  let body0 := match sr_FinalChunk result with Some c => sb_Chunk c | None => sb_Chunk originalChunk end in
  let '(outputBody, encoding) := recompressChunk (responseContentEncoding (ec_resp ec)) body0 in
  let '(analytics, dyn, ctxA, ctxD) :=
    foldl (collectChunkMeta responseChunkFields)
      (delete "request_headers" (ec_analyticsMetadata ec),
       mergeDynamicMetadata ∅ (asDynMeta (ec_dynamicMetadata ec)),
       ec_analyticsMetadata ec, ec_dynamicMetadata ec) (sr_Results result) in
  let endOfStream := sb_EndOfStream originalChunk || sr_StreamTerminated result in
  putEC (set_responseEncoding (with_metadata ec ctxA ctxD) encoding);;
  finishWithMetadata (streamedBody Response_ResponseBody outputBody endOfStream) analytics dyn.

End Response_.
