(* ===== verification/Handlers.v ===== *)
(** * Handlers: the phases of a request

    The handlers of kernel/execution_context.go, which run the executor on
    the contexts of the request and translate the outcome, and the stream
    handler of kernel/extproc.go, which looks the chain up and dispatches
    Envoy's messages.

    A policy error ends the phase with an internal-error response; the
    context of the phase then keeps what the policies before the failing one
    made of it. *)

From stdpp Require Import base gmap strings list fin_maps.
From Stdlib Require Import Ascii.
From S2P Require Import Prelude GoStrings Values Sdk Registry QueryPath Executor ChainBuild Mutation ExecContext Translator.

#[local] Set Warnings "-register-all".

Open Scope string_scope.

(** [maxStreamAccumulatorSize]: 10 MB. *)
Definition maxStreamAccumulatorSize : Z := (10 * 1024 * 1024)%Z.

(** A byte slice that is nil when empty. *)
Definition nilable (b : bytes) : option bytes := match b with [] => None | _ => Some b end.

Definition field (k v : string) : string := dquote +:+ k +:+ dquote +:+ ":" +:+ dquote +:+ v +:+ dquote.

Section Handlers.
Context {W : Type} `{MapRange} `{NetURL} `{Codecs} `{StructPB} `{UUIDSource}.
Implicit Types (c : ChainExecutor W) (ec : PolicyExecutionContext W).

Definition internalError (headers : gmap string string) (body : option bytes) : ProcessingResponse :=
  mkProcessingResponse (Response_Immediate 500 (buildHeaderValueOptions headers) body) None None.

Definition nextUUID : GoM (KState W) string := fun s =>
  let st := k_store s in
  Ok (mkKState (mkStore (st_heap st) (st_shared st) (st_world st) (Datatypes.S (st_fresh st))) (k_ec s))
     (uuid_string (st_fresh st)).

Definition handlePolicyError : GoM (KState W) ProcessingResponse :=
  errorID ← nextUUID;
  let errorBody := "{" +:+ field "error" "Internal Server Error" +:+ "," +:+ field "error_id" errorID +:+ "}" in
  mret (internalError {["content-type" := "application/json"; "x-error-id" := errorID]}
          (Some (String.list_byte_of_string errorBody))).

(** ** Request headers *)

Definition processRequestBodyForEmptyRequest c (headerResult : RequestHeaderExecutionResult) :
    GoM (KState W) ProcessingResponse :=
  ec0 ← getEC;
  putEC (match rc_Body (requestBodyCtx (ec_req ec0)) with
         | None => set_requestBody ec0 (Some (mkBody None true false))
         | Some _ => ec0
         end);;
  ec ← getEC;
  let chain := chainOf ec in
  st ← getStore;
  r ← try_ (onStore (ExecuteRequestPolicies c (pc_Policies chain) (requestBodyCtx (ec_req ec)) (pc_PolicySpecs chain)
                       (pc_HasExecutionConditions chain)));
  match r with
  | inl _ =>
      putEC (set_requestBodyCtx ec (requestBodyCtxAtError c (pc_Policies chain) (requestBodyCtx (ec_req ec))
               (pc_PolicySpecs chain) (pc_HasExecutionConditions chain) st));;
      handlePolicyError
  | inr (ctx, bodyResult) =>
      ec ← getEC;
      putEC (set_requestBodyCtx ec ctx);;
      TranslateRequestHeaderActionsWithBodyMerge headerResult bodyResult
  end.

Definition syncFromHeaders : GoM (KState W) unit := fun s =>
  let ec := k_ec s in
  let values := default ∅ (Headers_UnsafeInternalValues
                  (headers_at (k_store s) (rh_Headers (requestHeaderCtx (ec_req ec))))) in
  Ok (mkKState (k_store s) (with_req ec (syncRequestPseudoHeaders values (ec_req ec)))) tt.

Definition processRequestHeaders c : GoM (KState W) ProcessingResponse :=
  ec0 ← getEC;
  putEC (with_phase ec0 phaseRequestHeaders);;
  ec ← getEC;
  let chain := chainOf ec in
  st ← getStore;
  r ← try_ (onStore (ExecuteRequestHeaderPolicies c (pc_Policies chain) (requestHeaderCtx (ec_req ec))
                       (pc_PolicySpecs chain) (pc_HasExecutionConditions chain)));
  match r with
  | inl _ =>
      putEC (set_requestHeaderCtx ec (requestHeaderCtxAtError c (pc_Policies chain) (requestHeaderCtx (ec_req ec))
               (pc_PolicySpecs chain) (pc_HasExecutionConditions chain) st));;
      handlePolicyError
  | inr (ctx, execResult) =>
      ec ← getEC;
      putEC (set_requestHeaderCtx ec ctx);;
      (if er_ShortCircuited execResult then mret tt
       else mutateHeadersAt (rh_Headers ctx) (requestResultsSet (er_Results execResult))
              (applyRequestHeaderMutations (er_Results execResult));;
            syncFromHeaders);;
      s ← get;
      if negb (er_ShortCircuited execResult) && pc_RequiresRequestBody chain && requestHasNoBody s
      then processRequestBodyForEmptyRequest c execResult
      else TranslateRequestHeaderActions execResult
  end.

(** ** Request body *)

(** The loops of [anyPolicyNeedsMoreRequestData] and its response twin;
    [needs] is the method of the streaming interface, if implemented. *)
Definition needsMoreStep {Ctx} c (evaluate : CELEvaluator W -> string -> Store W -> Ctx -> string + bool)
    (needs : Policy W -> option (W -> bytes -> W * bool)) (hasConditions : bool) (ctx : Ctx) (accumulated : bytes)
    (pol : Policy W) (spec : PolicySpec) : GoM (Store W) (Ctl bool) := fun s =>
  if negb (ps_Enabled spec) then Ok s (Continue false)
  else
    let run := if hasConditions && hasCondition spec then
                 match celEvaluator c with
                 | None => true
                 | Some cel => match evaluate cel (default "" (ps_ExecutionCondition spec)) s ctx with
                               | inr b => b
                               | inl _ => true
                               end
                 end
               else true in
    if negb run then Ok s (Continue false)
    else match needs pol with
         | None => Ok s (Continue false)
         | Some f => let '(w, b) := f (st_world s) accumulated in
                     let s' := set_policy_state w (st_shared s) s in
                     if b then Ok s' (Break true) else Ok s' (Continue false)
         end.

Definition anyPolicyNeedsMore {Ctx} c (evaluate : CELEvaluator W -> string -> Store W -> Ctx -> string + bool)
    (needs : Policy W -> option (W -> bytes -> W * bool)) (chain : PolicyChain W) (ctx : Ctx) (accumulated : bytes) :
    GoM (Store W) bool :=
  for_range (fun i pol (_ : bool) =>
    spec ← index (pc_PolicySpecs chain) i;
    needsMoreStep c evaluate needs (pc_HasExecutionConditions chain) ctx accumulated pol spec)
    0 (pc_Policies chain) false.

Definition anyPolicyNeedsMoreRequestData c (accumulated : bytes) : GoM (KState W) bool :=
  ec ← getEC;
  onStore (anyPolicyNeedsMore c EvaluateStreamingRequestCondition
    (fun p => snd <$> asStreamingRequestPolicy p) (chainOf ec) (requestStreamContext (ec_req ec)) accumulated).

Definition anyPolicyNeedsMoreResponseData c (accumulated : bytes) : GoM (KState W) bool :=
  ec ← getEC;
  ctx ← deref (responseStreamContext (ec_resp ec));
  onStore (anyPolicyNeedsMore c EvaluateStreamingResponseCondition
    (fun p => snd <$> asStreamingResponsePolicy p) (chainOf ec) ctx accumulated).

(** The answer to a chunk that is held back. *)
Definition suppressed (wrap : option CommonResponse -> Response) : ProcessingResponse :=
  mkProcessingResponse (streamedBody wrap None false) None None.

(** Policies run on [chunk]; the request body context is filled in at the end
    of the stream. *)
Definition runRequestChunk c (chunk : StreamBody) : GoM (KState W) ProcessingResponse :=
  ec0 ← getEC;
  putEC (if sb_EndOfStream chunk then set_requestBody ec0 (Some (mkBody (sb_Chunk chunk) true true)) else ec0);;
  ec ← getEC;
  let chain := chainOf ec in
  r ← try_ (onStore (ExecuteStreamingRequestPolicies c (pc_Policies chain) (requestStreamContext (ec_req ec)) chunk
                       (pc_PolicySpecs chain) (pc_HasExecutionConditions chain)));
  match r with
  | inl _ => handlePolicyError
  | inr res => TranslateStreamingRequestChunkAction res chunk
  end.

(** Per-chunk decompression: the chunk to process. *)
Definition decompressRequestChunk (chunk : StreamBody) : GoM (KState W) StreamBody :=
  ec ← getEC;
  let sd := match requestStreamDecomp (ec_req ec) with
            | Some d => d
            | None => newStreamDecompressor (requestContentEncoding (ec_req ec))
            end in
  match FeedChunk sd (default [] (sb_Chunk chunk)) (sb_EndOfStream chunk) with
  | (sd', inr out) => putEC (set_requestDecomp ec (Some sd'));; mret (mkStreamBody (nilable out) (sb_EndOfStream chunk) 0)
  | (_, inl _) => putEC (set_requestEncoding (set_requestDecomp ec None) "");; mret chunk
  end.

Definition processStreamingRequestBody c (body : HttpBody) : GoM (KState W) ProcessingResponse :=
  ec ← getEC;
  let chunk := mkStreamBody (hb_Body body) (hb_EndOfStream body) 0 in
  if negb (String.eqb (requestContentEncoding (ec_req ec)) "") then
    chunk ← decompressRequestChunk chunk;
    if Nat.eqb (length (default [] (sb_Chunk chunk))) 0 && negb (sb_EndOfStream chunk)
    then mret (suppressed Response_RequestBody)
    else runRequestChunk c chunk
  else
    let acc := (requestStreamAccumulator (ec_req ec) ++ default [] (sb_Chunk chunk))%list in
    putEC (set_requestAccumulator ec acc);;
    let shouldForceFlush := (maxStreamAccumulatorSize <=? Z.of_nat (length acc))%Z in
    wait ← (if negb (sb_EndOfStream chunk) && negb shouldForceFlush
            then anyPolicyNeedsMoreRequestData c acc else mret false);
    if (wait : bool) then mret (suppressed Response_RequestBody)
    else
      ec ← getEC;
      putEC (set_requestAccumulator ec []);;
      runRequestChunk c (mkStreamBody (nilable acc) (sb_EndOfStream chunk) 0).

Definition processRequestBody c (body : HttpBody) : GoM (KState W) ProcessingResponse :=
  ec0 ← getEC;
  putEC (with_phase ec0 phaseRequestBody);;
  ec ← getEC;
  if isStreamingRequest (ec_req ec) then processStreamingRequestBody c body
  else if pc_RequiresRequestBody (chainOf ec) then
    let encoding := requestContentEncoding (ec_req ec) in
    let '(content, encoding') :=
      if String.eqb encoding "" then (hb_Body body, encoding)
      else match decompressBody (default [] (hb_Body body)) encoding with
           | inl _ => (hb_Body body, "")
           | inr d => (if String.eqb encoding "gzip" || String.eqb encoding "br" then Some d else hb_Body body, encoding)
           end in
    putEC (set_requestBody (set_requestEncoding ec encoding') (Some (mkBody content (hb_EndOfStream body) true)));;
    ec ← getEC;
    let chain := chainOf ec in
    st ← getStore;
    r ← try_ (onStore (ExecuteRequestPolicies c (pc_Policies chain) (requestBodyCtx (ec_req ec)) (pc_PolicySpecs chain)
                         (pc_HasExecutionConditions chain)));
    match r with
    | inl _ =>
        putEC (set_requestBodyCtx ec (requestBodyCtxAtError c (pc_Policies chain) (requestBodyCtx (ec_req ec))
                 (pc_PolicySpecs chain) (pc_HasExecutionConditions chain) st));;
        handlePolicyError
    | inr (ctx, execResult) =>
        ec ← getEC;
        putEC (set_requestBodyCtx ec ctx);;
        TranslateRequestBodyActions execResult
    end
  else mret (mkProcessingResponse (Response_RequestBody None) None None).

(** ** Response headers *)

Definition set_responseBodyCtx ec (b : ResponseContext) : PolicyExecutionContext W :=
  set_responseContexts ec (responseHeaderCtx (ec_resp ec)) (Some b) (responseStreamContext (ec_resp ec)).
Definition set_responseHeaderCtx ec (h : ResponseHeaderContext) : PolicyExecutionContext W :=
  set_responseContexts ec (Some h) (responseBodyCtx (ec_resp ec)) (responseStreamContext (ec_resp ec)).

Definition with_ResponseBody (rb : ResponseContext) (b : option Body) : ResponseContext :=
  mkResponseContext (rp_RequestHeaders rb) (rp_RequestBody rb) (rp_RequestPath rb) (rp_RequestMethod rb)
    (rp_ResponseHeaders rb) b (rp_ResponseStatus rb) (rp_Downstream rb) (rp_Upstream rb).

(** The buffered body policies on a given response body. *)
Definition execResponseBody c (b : Body) : GoM (KState W) (string + ResponseExecutionResult) :=
  ec0 ← getEC;
  rb ← deref (responseBodyCtx (ec_resp ec0));
  putEC (set_responseBodyCtx ec0 (with_ResponseBody rb (Some b)));;
  ec ← getEC;
  let chain := chainOf ec in
  st ← getStore;
  r ← try_ (onStore (ExecuteResponsePolicies c (pc_Policies chain) (with_ResponseBody rb (Some b)) (pc_PolicySpecs chain)
                       (pc_HasExecutionConditions chain)));
  match r with
  | inl err =>
      putEC (set_responseBodyCtx ec (responseBodyCtxAtError c (pc_Policies chain) (with_ResponseBody rb (Some b))
               (pc_PolicySpecs chain) (pc_HasExecutionConditions chain) st));;
      mret (inl err)
  | inr (ctx, res) => ec ← getEC; putEC (set_responseBodyCtx ec ctx);; mret (inr res)
  end.

Definition processResponseBodyForEmptyResponse c (headerResult : ResponseHeaderExecutionResult) :
    GoM (KState W) ProcessingResponse :=
  r ← execResponseBody c (mkBody None true false);
  match r with
  | inl _ => handlePolicyError
  | inr bodyResult => TranslateResponseHeaderActionsWithBodyMerge headerResult bodyResult
  end.

Definition processResponseHeaders c (headers : HttpHeaders) : GoM (KState W) ProcessingResponse :=
  ec0 ← getEC;
  putEC (with_phase ec0 phaseResponseHeaders);;
  buildResponseContexts headers;;
  ec ← getEC;
  st ← getStore;
  let chain := chainOf ec in
  rh ← deref (responseHeaderCtx (ec_resp ec));
  let hasStreamingHeaders := isStreamingUpstreamResponse (headers_at st (sh_ResponseHeaders rh)) in
  putEC (if pc_SupportsResponseStreaming chain && negb (hh_EndOfStream headers) && hasStreamingHeaders
         then set_isStreamingResponse ec true else ec);;
  r ← try_ (onStore (ExecuteResponseHeaderPolicies c (pc_Policies chain) rh (pc_PolicySpecs chain)
                       (pc_HasExecutionConditions chain)));
  match r with
  | inl _ => handlePolicyError
  | inr (ctx, execResult) =>
      ec ← getEC;
      putEC (set_responseHeaderCtx ec ctx);;
      mutateHeadersAt (sh_ResponseHeaders ctx) (responseResultsSet (er_Results execResult))
        (applyResponseHeaderMutations (er_Results execResult));;
      noBody ← (if negb (er_ShortCircuited execResult) && pc_RequiresResponseBody chain
                then responseHasNoBody else mret false);
      if (noBody : bool) then processResponseBodyForEmptyResponse c execResult
      else TranslateResponseHeaderActions execResult
  end.

(** ** Response body *)

Definition runResponseChunk c (chunk : StreamBody) : GoM (KState W) ProcessingResponse :=
  ec ← getEC;
  ctx ← deref (responseStreamContext (ec_resp ec));
  let chain := chainOf ec in
  r ← try_ (onStore (ExecuteStreamingResponsePolicies c (pc_Policies chain) ctx chunk
                       (pc_PolicySpecs chain) (pc_HasExecutionConditions chain)));
  match r with
  | inl _ => handlePolicyError
  | inr res =>
      ec ← getEC;
      putEC (if sr_StreamTerminated res then set_streamTerminated ec true else ec);;
      TranslateStreamingResponseChunkAction res chunk
  end.

Definition decompressResponseChunk (chunk : StreamBody) : GoM (KState W) StreamBody :=
  ec ← getEC;
  let sd := match responseStreamDecomp (ec_resp ec) with
            | Some d => d
            | None => newStreamDecompressor (responseContentEncoding (ec_resp ec))
            end in
  match FeedChunk sd (default [] (sb_Chunk chunk)) (sb_EndOfStream chunk) with
  | (sd', inr out) => putEC (set_responseDecomp ec (Some sd'));; mret (mkStreamBody (nilable out) (sb_EndOfStream chunk) 0)
  | (_, inl _) => putEC (set_responseEncoding (set_responseDecomp ec None) "");; mret chunk
  end.

Definition processStreamingResponseBody c (body : HttpBody) : GoM (KState W) ProcessingResponse :=
  ec ← getEC;
  if streamTerminated (ec_resp ec) then mret (suppressed Response_ResponseBody)
  else
  let chunk := mkStreamBody (hb_Body body) (hb_EndOfStream body) 0 in
  if negb (String.eqb (responseContentEncoding (ec_resp ec)) "") then
    chunk ← decompressResponseChunk chunk;
    if Nat.eqb (length (default [] (sb_Chunk chunk))) 0 && negb (sb_EndOfStream chunk)
    then mret (suppressed Response_ResponseBody)
    else runResponseChunk c chunk
  else
    let acc := (streamAccumulator (ec_resp ec) ++ default [] (sb_Chunk chunk))%list in
    putEC (set_streamAccumulator ec acc);;
    let shouldForceFlush := (maxStreamAccumulatorSize <=? Z.of_nat (length acc))%Z in
    wait ← (if negb (sb_EndOfStream chunk) && negb shouldForceFlush
            then anyPolicyNeedsMoreResponseData c acc else mret false);
    if (wait : bool) then mret (suppressed Response_ResponseBody)
    else
      ec ← getEC;
      putEC (set_streamAccumulator ec []);;
      runResponseChunk c (mkStreamBody (nilable acc) (sb_EndOfStream chunk) 0).

Definition processResponseBody c (body : HttpBody) : GoM (KState W) ProcessingResponse :=
  ec0 ← getEC;
  putEC (with_phase ec0 phaseResponseBody);;
  ec ← getEC;
  if isStreamingResponse (ec_resp ec) then processStreamingResponseBody c body
  else if pc_RequiresResponseBody (chainOf ec) then
    let encoding := responseContentEncoding (ec_resp ec) in
    let '(content, encoding') :=
      if String.eqb encoding "" then (hb_Body body, encoding)
      else match decompressBody (default [] (hb_Body body)) encoding with
           | inl _ => (hb_Body body, "")
           | inr d => (if String.eqb encoding "gzip" || String.eqb encoding "br" then Some d else hb_Body body, encoding)
           end in
    putEC (set_responseEncoding ec encoding');;
    r ← execResponseBody c (mkBody content (hb_EndOfStream body) true);
    match r with
    | inl _ => handlePolicyError
    | inr execResult => TranslateResponseBodyActions execResult
    end
  else mret (mkProcessingResponse (Response_ResponseBody None) None None).

End Handlers.
