(* ===== verification/ExtProc.v ===== *)
(** * ExtProc: the external-processing stream

    kernel/extproc.go of the policy engine: one gRPC stream carries the
    messages of one HTTP request; the execution context is created by the
    request-headers message and used by the later ones.  Each message is
    handled against the kernel tables of that moment, so a configuration
    update may happen between two messages. *)

From stdpp Require Import base gmap strings list fin_maps.
From S2P Require Import Prelude GoStrings Values Sdk Registry QueryPath Executor ChainBuild Mutation ExecContext Translator Handlers.

#[local] Set Warnings "-register-all".

Open Scope string_scope.

Inductive ProcessingRequestKind : Type :=
| ProcessingRequest_RequestHeaders (h : HttpHeaders)
| ProcessingRequest_RequestBody (b : HttpBody)
| ProcessingRequest_ResponseHeaders (h : HttpHeaders)
| ProcessingRequest_ResponseBody (b : HttpBody)
| ProcessingRequest_Other.

(** [Attributes]: namespace to fields, a nil [Fields] being [None]. *)
Record ProcessingRequest : Type := mkProcessingRequest {
  req_Request : ProcessingRequestKind;
  req_Attributes : option (gmap string (option (gmap string Value)))
}.

(** The state of a stream: the store and the execution context, if any. *)
Record StreamState (W : Type) `{Codecs} : Type := mkStreamState {
  ss_store : Store W;
  ss_execCtx : option (PolicyExecutionContext W)
}.
Arguments mkStreamState {W _} _ _.
Arguments ss_store {W _} _.
Arguments ss_execCtx {W _} _.

Definition extractRouteKey (req : ProcessingRequest) : string :=
  match req_Attributes req with
  | None => "default"
  | Some attrs =>
      match attrs !! ExtProcFilter with
      | Some (Some fields) =>
          match fields !! "xds.route_name" with
          | Some (VString s) => if String.eqb s "" then "default" else s
          | _ => "default"
          end
      | _ => "default"
      end
  end.

Definition withRouteName (rm : RouteMetadata) (name : string) : RouteMetadata :=
  mkRouteMetadata name (rm_APIId rm) (rm_APIName rm) (rm_APIVersion rm) (rm_Context rm) (rm_OperationPath rm)
    (rm_Vhost rm) (rm_APIKind rm) (rm_TemplateHandle rm) (rm_ProviderName rm) (rm_ProjectID rm)
    (rm_DefaultUpstreamCluster rm) (rm_UpstreamBasePath rm) (rm_UpstreamDefinitionPaths rm) (rm_DefaultUpstream rm).

Definition emptyRouteMetadata (name : string) : RouteMetadata :=
  mkRouteMetadata name "" "" "" "" "" "" "" "" "" "" "" "" ∅ None.

Section ExtProc.
Context {W : Type} `{MapRange} `{NetURL} `{Codecs} `{StructPB} `{UUIDSource}.
Implicit Types (c : ChainExecutor W) (k : Kernel W).

Definition initializeExecutionContext k (req : ProcessingRequest) (headers : HttpHeaders) :
    GoM (StreamState W) RouteMetadata := fun s =>
  let key := extractRouteKey req in
  match GetRouteConfig key k with
  | Some rc =>
      let routeMetadata := withRouteName rc key in
      match GetPolicyChain key k with
      | None => Ok (mkStreamState (ss_store s) None) routeMetadata
      | Some chain =>
          let '(st, ec) := buildRequestContexts chain key headers routeMetadata (ss_store s) in
          Ok (mkStreamState st (Some ec)) routeMetadata
      end
  | None => Ok (mkStreamState (ss_store s) None) (emptyRouteMetadata key)
  end.

(** A handler of the execution context, on the stream's state. *)
Definition onExecCtx (m : GoM (KState W) ProcessingResponse) (ec : PolicyExecutionContext W) :
    GoM (StreamState W) ProcessingResponse := fun s =>
  match m (mkKState (ss_store s) ec) with
  | Ok ks r => Ok (mkStreamState (k_store ks) (Some (k_ec ks))) r
  | Err ks e => Err (mkStreamState (k_store ks) (Some (k_ec ks))) e
  | Panic => Panic
  end.

Definition notFoundBody : bytes :=
  String.list_byte_of_string ("{" +:+ field "error" "Internal Server Error" +:+ "}").

Definition handleProcessingPhase c k (req : ProcessingRequest) : GoM (StreamState W) ProcessingResponse :=
  match req_Request req with
  | ProcessingRequest_RequestHeaders headers =>
      initializeExecutionContext k req headers;;
      s ← get;
      match ss_execCtx s with
      | None => mret (internalError {["content-type" := "application/json"]} (Some notFoundBody))
      | Some ec => onExecCtx (processRequestHeaders c) ec
      end
  | ProcessingRequest_RequestBody body =>
      s ← get;
      match ss_execCtx s with
      | None => mret (mkProcessingResponse (Response_RequestBody None) None None)
      | Some ec => onExecCtx (processRequestBody c body) ec
      end
  | ProcessingRequest_ResponseHeaders headers =>
      s ← get;
      match ss_execCtx s with
      | None => mret (mkProcessingResponse (Response_ResponseHeaders None) None None)
      | Some ec => onExecCtx (processResponseHeaders c headers) ec
      end
  | ProcessingRequest_ResponseBody body =>
      s ← get;
      match ss_execCtx s with
      | None => mret (mkProcessingResponse (Response_ResponseBody None) None None)
      | Some ec => onExecCtx (processResponseBody c body) ec
      end
  | ProcessingRequest_Other => mret (mkProcessingResponse (Response_Immediate 500 None None) None None)
  end.

(** What [stream.Recv] gives, with the kernel tables of that moment, and
    whether sending the answer fails. *)
Inductive StreamEvent : Type :=
| Recv (k : Kernel W) (req : ProcessingRequest) (sendError : option string)
| RecvEOF
| RecvCanceled
| RecvError (e : string).

(** [Process]: the responses sent.  The list of events is what the stream
    delivers while the call runs; it ends with the call still waiting. *)
Fixpoint Process c (events : list StreamEvent) : GoM (StreamState W) (list ProcessingResponse) :=
  match events with
  | [] => mret []
  | RecvEOF :: _ | RecvCanceled :: _ => mret []
  | RecvError e :: _ => fail ("failed to receive request: " +:+ e)
  | Recv k req sendError :: events' =>
      resp ← handleProcessingPhase c k req;
      match sendError with
      | Some e => fail ("failed to send response: " +:+ e)
      | None => rest ← Process c events'; mret (resp :: rest)
      end
  end.

Definition skipAllProcessing (routeMetadata : RouteMetadata) : ProcessingResponse :=
  let analyticsStruct := default ∅ (pb_NewStruct (extractMetadataFromRouteMetadata routeMetadata)) in
  mkProcessingResponse (Response_RequestHeaders None) (Some (mkModeOverride SKIP NONE NONE SKIP SKIP))
    (buildDynamicMetadata (Some analyticsStruct) None ∅).

End ExtProc.
