(* ===== verification/HandlerProps.v ===== *)
(** * HandlerProps: the invariant of a request in flight

    Every handler keeps the facts the next one relies on: the chain and the
    other data of the route, aligned policy and spec lists, the shared header
    object of the request contexts, the response contexts once they are
    built, the pristine snapshot of the client's headers, and the bound on
    the two stream accumulators.  The translators only touch metadata and the
    content encodings ([sameButMeta]). *)

From stdpp Require Import base gmap strings list fin_maps.
From S2P Require Import Prelude GoStrings Values Sdk Registry QueryPath Executor ExecutorProps ChainBuild Mutation ExecContext Translator Handlers.

#[local] Set Warnings "-register-all".

Open Scope string_scope.

Section Rules.
Context {W : Type} `{MapRange} `{NetURL} `{Codecs} `{StructPB} `{UUIDSource}.
Implicit Types (c : ChainExecutor W) (ec : PolicyExecutionContext W) (s : KState W).

(** ** Rules of the handler monad *)

Lemma wp_getEC Q E P s : Q s (k_ec s) -> wp getEC Q E P s.
Proof. done. Qed.
Lemma wp_getStore Q E P s : Q s (k_store s) -> wp getStore Q E P s.
Proof. done. Qed.
Lemma wp_putEC ec Q E P s : Q (mkKState (k_store s) ec) tt -> wp (putEC ec) Q E P s.
Proof. done. Qed.
Lemma wp_deref {S A} (p : option A) a (Q : S -> A -> Prop) E P (s : S) : p = Some a -> Q s a -> wp (deref p) Q E P s.
Proof. by intros ->. Qed.
Lemma wp_onStore {A} (m : GoM (Store W) A) Q E P s :
  wp m (fun st a => Q (mkKState st (k_ec s)) a) (fun st e => E (mkKState st (k_ec s)) e) P (k_store s) ->
  wp (onStore m) Q E P s.
Proof. unfold wp, onStore. by destruct (m (k_store s)). Qed.
Lemma wp_try {A} (m : GoM (KState W) A) Q E P s :
  wp m (fun s' a => Q s' (inr a)) (fun s' e => Q s' (inl e)) P s -> wp (try_ m) Q E P s.
Proof. unfold wp, try_. by destruct (m s). Qed.

(** ** Computations that only touch metadata and encodings *)

Definition sameButMeta (s s' : KState W) : Prop :=
  st_heap (k_store s') = st_heap (k_store s) /\
  exists e1 e2 a d, k_ec s' = with_metadata (set_responseEncoding (set_requestEncoding (k_ec s) e1) e2) a d.

#[export] Instance sameButMeta_preorder : PreOrder sameButMeta.
Proof.
  split.
  - intros s. split; [done|].
    exists (requestContentEncoding (ec_req (k_ec s))), (responseContentEncoding (ec_resp (k_ec s))),
      (ec_analyticsMetadata (k_ec s)), (ec_dynamicMetadata (k_ec s)). by destruct s as [st [? [] [] ? ? ?]].
  - intros s1 s2 s3 [Hs1 (e1&e2&a&d&He)] [Hs2 (e1'&e2'&a'&d'&He')]. split; [congruence|].
    exists e1', e2', a', d'. by rewrite He', He.
Qed.

(** [m] returns, normally or with an error, having changed nothing else. *)
Definition quiet {A} (m : GoM (KState W) A) (s : KState W) : Prop :=
  wp m (fun s' _ => sameButMeta s s') (fun s' _ => sameButMeta s s') False s.

Lemma quiet_ret {A} (a : A) s : quiet (mret a) s.
Proof. apply wp_ret. reflexivity. Qed.
Lemma quiet_fail {A} e s : quiet (fail (A := A) e) s.
Proof. apply wp_fail. reflexivity. Qed.
Lemma quiet_bind {A B} (m : GoM (KState W) A) (k : A -> GoM (KState W) B) s :
  quiet m s -> (forall a s', sameButMeta s s' -> quiet (k a) s') -> quiet (m ≫= k) s.
Proof.
  intros Hm Hk. apply wp_bind. eapply wp_mono; [exact Hm| |done|done].
  intros s' a Hs. eapply wp_mono; [by apply Hk| | |done]; intros s'' ? Hs'; (transitivity s'; done).
Qed.
Lemma quiet_getEC s : quiet getEC s.
Proof. apply wp_getEC. reflexivity. Qed.
Lemma quiet_getStore s : quiet getStore s.
Proof. apply wp_getStore. reflexivity. Qed.
Lemma quiet_putEC ec s : sameButMeta s (mkKState (k_store s) ec) -> quiet (putEC ec) s.
Proof. intros Hs. exact (wp_putEC ec (fun s' _ => sameButMeta s s') _ False s Hs). Qed.

Lemma sameButMeta_metadata s a d : sameButMeta s (mkKState (k_store s) (with_metadata (k_ec s) a d)).
Proof.
  split; [done|]. exists (requestContentEncoding (ec_req (k_ec s))), (responseContentEncoding (ec_resp (k_ec s))), a, d.
  by destruct s as [st [? [] [] ? ? ?]].
Qed.
Lemma sameButMeta_requestEncoding s a d e :
  sameButMeta s (mkKState (k_store s) (set_requestEncoding (with_metadata (k_ec s) a d) e)).
Proof.
  split; [done|]. exists e, (responseContentEncoding (ec_resp (k_ec s))), a, d. by destruct s as [st [? [] [] ? ? ?]].
Qed.
Lemma sameButMeta_responseEncoding s a d e :
  sameButMeta s (mkKState (k_store s) (set_responseEncoding (with_metadata (k_ec s) a d) e)).
Proof.
  split; [done|]. exists (requestContentEncoding (ec_req (k_ec s))), e, a, d. by destruct s as [st [? [] [] ? ? ?]].
Qed.

(** The mode override can be computed: in the response-headers phase the
    response contexts exist. *)
Definition modeSafe s : Prop :=
  ec_phase (k_ec s) = phaseResponseHeaders -> is_Some (responseHeaderCtx (ec_resp (k_ec s))).

Lemma modeSafe_stable s s' : sameButMeta s s' -> modeSafe s -> modeSafe s'.
Proof. unfold modeSafe. by intros [_ (?&?&?&?&->)]. Qed.

Lemma quiet_storeMetadata a d s : quiet (storeMetadata a d) s.
Proof. apply wp_bind, wp_getEC, wp_putEC. apply sameButMeta_metadata. Qed.

Lemma responseHasNoBody_ok s rh :
  responseHeaderCtx (ec_resp (k_ec s)) = Some rh -> exists b, responseHasNoBody s = Ok s b.
Proof. unfold responseHasNoBody. intros ->. repeat (case_match; try by eauto). Qed.

Lemma quiet_getModeOverride s : modeSafe s -> quiet getModeOverride s.
Proof.
  intros Hs. unfold quiet, wp, getModeOverride.
  destruct (ec_phase (k_ec s)) eqn:Hp; [reflexivity|reflexivity| |reflexivity].
  destruct (Hs Hp) as [rh Hrh]. destruct (responseHasNoBody_ok s rh Hrh) as [b ->]. reflexivity.
Qed.

Lemma quiet_finishImmediate r a s : quiet (finishImmediate r a) s.
Proof.
  apply quiet_bind; [apply quiet_getStore|]. intros st s' _.
  destruct (buildAnalyticsStruct _ _); [apply quiet_fail|apply quiet_ret].
Qed.

Lemma quiet_finishRequest wrap hm bm a mu d s : modeSafe s -> quiet (finishRequest wrap hm bm a mu d) s.
Proof.
  intros Hs. apply quiet_bind; [by apply quiet_getModeOverride|]. intros mode s' _.
  apply quiet_bind; [apply quiet_getStore|]. intros st s'' _.
  destruct (buildAnalyticsStruct _ _); [apply quiet_fail|apply quiet_ret].
Qed.

Lemma quiet_finishResponseHeaders hm bm a d s : modeSafe s -> quiet (finishResponseHeaders hm bm a d) s.
Proof.
  intros Hs. apply quiet_bind; [by apply quiet_getModeOverride|]. intros mode s' _.
  apply quiet_bind; [apply quiet_getStore|]. intros st s'' _.
  destruct (buildAnalyticsStruct _ _); [apply quiet_fail|apply quiet_ret].
Qed.

Lemma quiet_finishWithMetadata r a d s : quiet (finishWithMetadata r a d) s.
Proof.
  apply quiet_bind; [apply quiet_getStore|]. intros st s' _.
  case_decide; [apply quiet_ret|]. destruct (buildAnalyticsStruct _ _); [apply quiet_fail|apply quiet_ret].
Qed.

End Rules.

Create HintDb quiet discriminated.
#[export] Hint Resolve quiet_ret quiet_fail quiet_getEC quiet_getStore quiet_storeMetadata quiet_finishImmediate
  quiet_finishRequest quiet_finishResponseHeaders quiet_finishWithMetadata modeSafe_stable : quiet.

(** Steps through a translator. *)
Ltac quiet_step :=
  match goal with
  | |- quiet (_ ≫= _) _ => apply quiet_bind; [by eauto with quiet|intros ? ? ?]
  | |- quiet (match ?x with _ => _ end) _ => destruct x
  | |- quiet (let '(_, _) := ?x in _) _ => destruct x
  | |- quiet _ _ => by eauto 6 with quiet
  end.

Section Translators.
Context {W : Type} `{MapRange} `{NetURL} `{Codecs} `{StructPB} `{UUIDSource}.
Implicit Types (c : ChainExecutor W) (ec : PolicyExecutionContext W) (s : KState W).

Lemma quiet_handlePolicyError s : quiet handlePolicyError s.
Proof.
  apply quiet_bind; [|by eauto with quiet]. unfold quiet, wp, nextUUID. split; [done|].
  exists (requestContentEncoding (ec_req (k_ec s))), (responseContentEncoding (ec_resp (k_ec s))),
      (ec_analyticsMetadata (k_ec s)), (ec_dynamicMetadata (k_ec s)). by destruct s as [st [? [] [] ? ? ?]].
Qed.

Lemma quiet_translateRequestActionsCore r s : quiet (translateRequestActionsCore r) s.
Proof. unfold translateRequestActionsCore. repeat quiet_step. Qed.

Lemma quiet_TranslateRequestBodyActions r s : modeSafe s -> quiet (TranslateRequestBodyActions r) s.
Proof.
  intros Hs. unfold TranslateRequestBodyActions.
  apply quiet_bind; [apply quiet_translateRequestActionsCore|intros ? ? ?]. repeat quiet_step.
Qed.

Lemma quiet_TranslateRequestHeaderActions r s : modeSafe s -> quiet (TranslateRequestHeaderActions r) s.
Proof. intros Hs. unfold TranslateRequestHeaderActions. repeat quiet_step. Qed.

Lemma quiet_TranslateRequestHeaderActionsWithBodyMerge r r' s :
  modeSafe s -> quiet (TranslateRequestHeaderActionsWithBodyMerge r r') s.
Proof. intros Hs. unfold TranslateRequestHeaderActionsWithBodyMerge. repeat quiet_step. Qed.

Lemma quiet_bind_getEC {A} (k : PolicyExecutionContext W -> GoM (KState W) A) s :
  quiet (k (k_ec s)) s -> quiet (getEC ≫= k) s.
Proof. intros Hk. by apply wp_bind, wp_getEC. Qed.

Lemma quiet_TranslateStreamingRequestChunkAction r ch s : quiet (TranslateStreamingRequestChunkAction r ch) s.
Proof.
  unfold TranslateStreamingRequestChunkAction. apply quiet_bind_getEC.
  destruct (recompressChunk _ _) as [out enc]. destruct (foldl _ _ _) as [[[an dyn] ctxA] ctxD].
  apply quiet_bind; [apply quiet_putEC, sameButMeta_requestEncoding|]. intros; apply quiet_finishWithMetadata.
Qed.

Lemma quiet_TranslateStreamingResponseChunkAction r ch s : quiet (TranslateStreamingResponseChunkAction r ch) s.
Proof.
  unfold TranslateStreamingResponseChunkAction. apply quiet_bind_getEC.
  destruct (recompressChunk _ _) as [out enc]. destruct (foldl _ _ _) as [[[an dyn] ctxA] ctxD].
  apply quiet_bind; [apply quiet_putEC, sameButMeta_responseEncoding|]. intros; apply quiet_finishWithMetadata.
Qed.

Lemma quiet_responseHeadersOf ec st s : is_Some (responseBodyCtx (ec_resp ec)) -> quiet (responseHeadersOf ec st) s.
Proof.
  intros [rb Hrb]. apply wp_bind. eapply wp_deref; [exact Hrb|]. apply wp_ret. reflexivity.
Qed.

Lemma quiet_TranslateResponseHeaderActions r s :
  modeSafe s -> is_Some (responseBodyCtx (ec_resp (k_ec s))) -> quiet (TranslateResponseHeaderActions r) s.
Proof.
  intros Hs Hb. unfold TranslateResponseHeaderActions. apply quiet_bind_getEC.
  pose proof (quiet_responseHeadersOf (k_ec s)). repeat quiet_step.
Qed.

Lemma quiet_TranslateResponseHeaderActionsWithBodyMerge r r' s :
  modeSafe s -> is_Some (responseBodyCtx (ec_resp (k_ec s))) -> quiet (TranslateResponseHeaderActionsWithBodyMerge r r') s.
Proof.
  intros Hs Hb. unfold TranslateResponseHeaderActionsWithBodyMerge. apply quiet_bind_getEC.
  pose proof (quiet_responseHeadersOf (k_ec s)). repeat quiet_step.
Qed.

Lemma quiet_TranslateResponseBodyActions r s :
  is_Some (responseBodyCtx (ec_resp (k_ec s))) -> quiet (TranslateResponseBodyActions r) s.
Proof.
  intros Hb. unfold TranslateResponseBodyActions.
  apply quiet_bind; [|intros ? ? ?; repeat quiet_step].
  unfold translateResponseActionsCore. apply quiet_bind_getEC.
  pose proof (quiet_responseHeadersOf (k_ec s)). repeat quiet_step.
Qed.
End Translators.

(** ** A request in flight *)

Section Flight.
Context {W : Type} `{MapRange} `{NetURL} `{Codecs} `{StructPB} `{UUIDSource}.
Implicit Types (c : ChainExecutor W) (ec : PolicyExecutionContext W) (s : KState W).

(** Whether the response headers are known to have been received. *)
Context (started : bool).

(** [rt]: what the request was routed to; [snap]: the headers the client
    sent. *)
Record flight (rt : RoutePart W) (snap : Headers) (s : KState W) : Prop := {
  fl_route : ec_route (k_ec s) = rt;
  fl_aligned : length (pc_Policies (policyChain rt)) <= length (pc_PolicySpecs (policyChain rt));
  fl_headers : rc_Headers (requestBodyCtx (ec_req (k_ec s))) = rh_Headers (requestHeaderCtx (ec_req (k_ec s)));
  fl_alloc : allocated (k_store s) (rh_Headers (requestHeaderCtx (ec_req (k_ec s))));
  fl_snap : headers_at (k_store s) (downstreamHeaders rt) = Some snap;
  fl_snap_ne : rh_Headers (requestHeaderCtx (ec_req (k_ec s))) <> downstreamHeaders rt;
  fl_resp : match responseHeaderCtx (ec_resp (k_ec s)), responseBodyCtx (ec_resp (k_ec s)),
                  responseStreamContext (ec_resp (k_ec s)) with
            | Some h, Some b, Some _ =>
                allocated (k_store s) (sh_ResponseHeaders h) /\ rp_ResponseHeaders b = sh_ResponseHeaders h /\
                sh_ResponseHeaders h <> downstreamHeaders rt
            | None, None, None => started = false
            | _, _, _ => False
            end;
  fl_reqAcc : (Z.of_nat (length (requestStreamAccumulator (ec_req (k_ec s)))) < maxStreamAccumulatorSize)%Z;
  fl_respAcc : (Z.of_nat (length (streamAccumulator (ec_resp (k_ec s)))) < maxStreamAccumulatorSize)%Z
}.

Lemma flight_meta rt snap s s' : flight rt snap s -> sameButMeta s s' -> flight rt snap s'.
Proof.
  intros [] [Hh (e1&e2&a&d&He)]. split; rewrite ?He; try done; unfold allocated, headers_at in *; by rewrite Hh.
Qed.

Lemma flight_phase rt snap s p : flight rt snap s -> flight rt snap (mkKState (k_store s) (with_phase (k_ec s) p)).
Proof. by intros []. Qed.

(** A phase that updated one header object other than the snapshot. *)
Lemma flight_upd rt snap s l st :
  flight rt snap s -> heapUpd l (k_store s) st -> l <> downstreamHeaders rt ->
  flight rt snap (mkKState st (k_ec s)).
Proof.
  intros [] Hu Hne. split; simpl; try done.
  - by eapply heapUpd_other.
  - by rewrite (heapUpd_ne _ _ _ _ Hu).
  - repeat (case_match; try done). destruct fl_resp0 as (?&?&?). split_and!; [by eapply heapUpd_other|done|done].
Qed.

Lemma flight_heap rt snap s st :
  flight rt snap s -> st_heap st = st_heap (k_store s) -> flight rt snap (mkKState st (k_ec s)).
Proof. intros [] Hh. split; simpl; try done; unfold allocated, headers_at in *; by rewrite Hh. Qed.

(** [m] keeps the invariant, on error returns too, and does not panic. *)
Definition keeps {A} (rt : RoutePart W) (snap : Headers) (m : GoM (KState W) A) s : Prop :=
  wp m (fun s' _ => flight rt snap s') (fun s' _ => flight rt snap s') False s.

Lemma quiet_keeps {A} rt snap (m : GoM (KState W) A) s : flight rt snap s -> quiet m s -> keeps rt snap m s.
Proof. intros Hf Hq. eapply wp_mono; [exact Hq| | |done]; intros; by eapply flight_meta. Qed.

(** Updates of the context that the invariant does not see. *)
Lemma flight_requestBody rt snap s b :
  flight rt snap s -> flight rt snap (mkKState (k_store s) (set_requestBody (k_ec s) b)).
Proof. by intros []. Qed.

Lemma flight_requestBodyCtx rt snap s ctx :
  flight rt snap s -> rc_Headers ctx = rh_Headers (requestHeaderCtx (ec_req (k_ec s))) ->
  flight rt snap (mkKState (k_store s) (set_requestBodyCtx (k_ec s) ctx)).
Proof. intros [] Hc. split; try done. Qed.

Lemma flight_requestHeaderCtx rt snap s ctx :
  flight rt snap s -> rh_Headers ctx = rh_Headers (requestHeaderCtx (ec_req (k_ec s))) ->
  flight rt snap (mkKState (k_store s) (set_requestHeaderCtx (k_ec s) ctx)).
Proof. intros [] Hc. split; simpl in *; rewrite ?Hc; try done. Qed.

Lemma phase_modeSafe s : ec_phase (k_ec s) <> phaseResponseHeaders -> modeSafe s.
Proof. by intros Hp Hp'. Qed.

Lemma keeps_emptyRequest rt snap c hr s :
  flight rt snap s -> ec_phase (k_ec s) <> phaseResponseHeaders ->
  keeps rt snap (processRequestBodyForEmptyRequest c hr) s.
Proof.
  intros Hf Hp. apply wp_bind, wp_getEC, wp_bind, wp_putEC, wp_bind, wp_getEC. simpl.
  set (ec1 := match rc_Body _ with Some _ => _ | None => _ end).
  assert (flight rt snap (mkKState (k_store s) ec1)) as Hf1.
  { unfold ec1. destruct (rc_Body _); [by destruct s|by apply flight_requestBody]. }
  assert (ec_phase ec1 <> phaseResponseHeaders) as Hp1 by (unfold ec1; by destruct (rc_Body _)).
  clearbody ec1. pose proof Hf1 as [Hrt Hal Hh Ha Hs Hne Hr Hq Hq']. simpl in *.
  apply wp_bind, wp_getStore, wp_bind, wp_try, wp_onStore. unfold chainOf. rewrite Hrt. cbn [k_store].
  eapply wp_mono; [apply requestBody_wp; [done|by rewrite Hh]| | |done]; rewrite Hh.
  - intros st [ctx res] [Hl Hu]. simpl in Hl. apply wp_bind, wp_getEC, wp_bind, wp_putEC. simpl.
    apply quiet_keeps; [|by apply quiet_TranslateRequestHeaderActionsWithBodyMerge, phase_modeSafe].
    apply (flight_requestBodyCtx _ _ (mkKState st ec1)); [|done]. exact (flight_upd _ _ _ _ _ Hf1 Hu Hne).
  - intros st e Hu. apply wp_bind, wp_putEC. apply quiet_keeps; [|apply quiet_handlePolicyError].
    apply (flight_requestBodyCtx _ _ (mkKState st ec1)); [exact (flight_upd _ _ _ _ _ Hf1 Hu Hne)|].
    by rewrite requestBodyCtxAtError_headers.
Qed.

(** Re-applying the header modifications and reading the pseudo headers
    back. *)
Lemma wp_mutateHeadersAt l sets f Q E s :
  allocated (k_store s) l ->
  (forall st, heapUpd l (k_store s) st -> Q (mkKState st (k_ec s)) tt) ->
  wp (mutateHeadersAt l sets f) Q E False s.
Proof.
  intros [vs Hvs] HQ. unfold wp, mutateHeadersAt. rewrite Hvs. simpl. apply HQ. by eexists.
Qed.

Lemma flight_sync rt snap s values :
  flight rt snap s ->
  flight rt snap (mkKState (k_store s) (with_req (k_ec s) (syncRequestPseudoHeaders values (ec_req (k_ec s))))).
Proof. by intros []. Qed.

Lemma keeps_processRequestHeaders rt snap c s :
  flight rt snap s -> keeps rt snap (processRequestHeaders c) s.
Proof.
  intros Hf0. apply wp_bind, wp_getEC, wp_bind, wp_putEC, wp_bind, wp_getEC. cbn [k_ec k_store].
  set (ec1 := with_phase (k_ec s) phaseRequestHeaders).
  assert (flight rt snap (mkKState (k_store s) ec1)) as Hf by by apply flight_phase.
  assert (ec_phase ec1 <> phaseResponseHeaders) as Hp1 by done. clearbody ec1.
  pose proof Hf as [Hrt Hal Hh Ha Hs Hne Hr Hq Hq']. simpl in *.
  apply wp_bind, wp_getStore, wp_bind, wp_try, wp_onStore. unfold chainOf. rewrite Hrt. cbn [k_store].
  eapply wp_mono; [by apply requestHeader_safe| | |done].
  2: { intros st e Hu. apply wp_bind, wp_putEC. apply quiet_keeps; [|apply quiet_handlePolicyError].
       apply (flight_requestHeaderCtx _ _ (mkKState st ec1)); [exact (flight_upd _ _ _ _ _ Hf Hu Hne)|].
       by rewrite requestHeaderCtxAtError_headers. }
  intros st [ctx res] [Hl Hu]. simpl in Hl. apply wp_bind, wp_getEC, wp_bind, wp_putEC. cbn [k_ec k_store].
  pose proof (flight_upd _ _ _ _ _ Hf Hu Hne) as Hf1. cbn [k_ec] in Hf1.
  set (ec2 := set_requestHeaderCtx ec1 ctx).
  assert (flight rt snap (mkKState st ec2)) as Hf2 by exact (flight_requestHeaderCtx _ _ _ ctx Hf1 Hl).
  assert (ec_phase ec2 <> phaseResponseHeaders) as Hp2 by done.
  assert (rh_Headers (requestHeaderCtx (ec_req ec2)) = rh_Headers ctx) as Hl2 by done. clearbody ec2.
  apply wp_bind.
  apply wp_mono with (Q := fun s' _ => flight rt snap s' /\ ec_phase (k_ec s') <> phaseResponseHeaders)
    (E := fun _ _ => False) (P := False); [| |done|done].
  - destruct (er_ShortCircuited res); [by apply wp_ret|]. apply wp_bind.
    pose proof Hf2 as [_ _ _ Ha2 _ Hne2 _ _ _]. simpl in Ha2, Hne2. rewrite Hl2 in Ha2, Hne2.
    apply wp_mutateHeadersAt; [done|]. intros st' Hu'. unfold wp, syncFromHeaders. cbn [k_ec k_store].
    split; [|done]. apply (flight_sync _ _ (mkKState st' ec2)). exact (flight_upd _ _ _ _ _ Hf2 Hu' Hne2).
  - intros s3 _ [Hf3 Hp3]. apply wp_bind, wp_get.
    destruct (_ && requestHasNoBody s3); [by apply keeps_emptyRequest|].
    apply quiet_keeps; [done|]. by apply quiet_TranslateRequestHeaderActions, phase_modeSafe.
Qed.

(** ** Request bodies *)

Lemma flight_requestEncoding rt snap s e :
  flight rt snap s -> flight rt snap (mkKState (k_store s) (set_requestEncoding (k_ec s) e)).
Proof. by intros []. Qed.

Lemma flight_requestDecomp rt snap s d :
  flight rt snap s -> flight rt snap (mkKState (k_store s) (set_requestDecomp (k_ec s) d)).
Proof. by intros []. Qed.

Lemma flight_requestAccumulator rt snap s acc :
  flight rt snap s -> (Z.of_nat (length acc) < maxStreamAccumulatorSize)%Z ->
  flight rt snap (mkKState (k_store s) (set_requestAccumulator (k_ec s) acc)).
Proof. intros [] Hacc. by split. Qed.

Lemma needsMore_heap {Ctx} c ev needs chain (ctx : Ctx) acc (st : Store W) :
  length (pc_Policies chain) <= length (pc_PolicySpecs chain) ->
  wp (anyPolicyNeedsMore c ev needs chain ctx acc)
     (fun st' _ => st_heap st' = st_heap st) (fun _ _ => False) False st.
Proof.
  intros Hal. unfold anyPolicyNeedsMore, wp.
  rewrite (for_range_loop (fun pol spec (_ : bool) => needsMoreStep c ev needs (pc_HasExecutionConditions chain) ctx acc pol spec)
    (pc_Policies chain) (pc_PolicySpecs chain) Hal false st).
  apply (loop_wp (fun (p : Policy W * PolicySpec) (_ : bool) =>
      needsMoreStep c ev needs (pc_HasExecutionConditions chain) ctx acc p.1 p.2)
    (fun _ st' _ => st_heap st' = st_heap st) (fun st' _ => st_heap st' = st_heap st) (fun _ _ => False) False); try done.
  intros [pol spec] l r st' Hst'. unfold wp, needsMoreStep. cbn [fst snd].
  destruct (negb (ps_Enabled spec)); [done|].
  set (run := if _ && _ then _ else true). destruct (negb run); [done|].
  destruct (needs pol) as [f|]; [|done]. destruct (f (st_world st') acc) as [w b]. by destruct b.
Qed.

Lemma keeps_runRequestChunk rt snap c ch s :
  flight rt snap s -> keeps rt snap (runRequestChunk c ch) s.
Proof.
  intros Hf0. apply wp_bind, wp_getEC, wp_bind, wp_putEC, wp_bind, wp_getEC. cbn [k_ec k_store].
  set (ec1 := if sb_EndOfStream ch then _ else _).
  assert (flight rt snap (mkKState (k_store s) ec1)) as Hf.
  { unfold ec1. destruct (sb_EndOfStream ch); [by apply flight_requestBody|by destruct s]. }
  clearbody ec1. pose proof Hf as [Hrt Hal _ _ _ _ _ _ _]. simpl in *.
  apply wp_bind, wp_try, wp_onStore. unfold chainOf. rewrite Hrt.
  eapply wp_mono; [by apply streamingRequest_wp| | |done].
  - intros st res [Hh _]. apply quiet_keeps; [exact (flight_heap _ _ _ _ Hf Hh)|].
    apply quiet_TranslateStreamingRequestChunkAction.
  - intros st e Hh. apply quiet_keeps; [exact (flight_heap _ _ _ _ Hf Hh)|apply quiet_handlePolicyError].
Qed.

Lemma flight_eta rt snap s : flight rt snap s -> flight rt snap (mkKState (k_store s) (k_ec s)).
Proof. by destruct s. Qed.

Lemma keeps_decompressRequestChunk rt snap ch s :
  flight rt snap s -> keeps rt snap (decompressRequestChunk ch) s.
Proof.
  intros Hf. apply wp_bind, wp_getEC. cbn zeta beta.
  match goal with |- context [FeedChunk ?d ?b ?e] => destruct (FeedChunk d b e) as [sd' [err|out]] end.
  - apply wp_bind, wp_putEC, wp_ret.
    apply (flight_requestEncoding _ _ (mkKState (k_store s) (set_requestDecomp (k_ec s) None))).
    by apply flight_requestDecomp.
  - apply wp_bind, wp_putEC, wp_ret. by apply flight_requestDecomp.
Qed.

Lemma keeps_bind {A B} rt snap (m : GoM (KState W) A) (k : A -> GoM (KState W) B) s :
  keeps rt snap m s -> (forall a s', flight rt snap s' -> keeps rt snap (k a) s') -> keeps rt snap (m ≫= k) s.
Proof. intros Hm Hk. apply wp_bind. eapply wp_mono; [exact Hm| |done|done]. intros s' a Hs. by apply Hk. Qed.

Lemma keeps_processStreamingRequestBody rt snap c b s :
  flight rt snap s -> keeps rt snap (processStreamingRequestBody c b) s.
Proof.
  intros Hf. apply wp_bind, wp_getEC. destruct (negb _).
  { apply keeps_bind; [by apply keeps_decompressRequestChunk|]. intros ch s' Hf'.
    destruct (_ && _); [by apply wp_ret|by apply keeps_runRequestChunk]. }
  cbn zeta beta.
  match goal with |- context [set_requestAccumulator _ (app ?x ?y)] => set (acc := (x ++ y)%list) end.
  apply wp_bind, wp_putEC. cbn [k_ec k_store].
  (* no policy call happens between the append and the test of the bound *)
  apply wp_bind.
  apply wp_mono with (Q := fun s' (wait : bool) =>
      flight rt snap (mkKState (k_store s') (set_requestAccumulator (k_ec s') [])) /\
      (wait = true -> flight rt snap s')) (E := fun _ _ => False) (P := False); [| |done|done].
  - assert (flight rt snap (mkKState (k_store s) (set_requestAccumulator (k_ec s) []))) as Hnil
      by by apply flight_requestAccumulator.
    destruct (negb _ && negb _) eqn:Hw; [|by apply wp_ret].
    apply andb_true_iff in Hw as [_ Hw%negb_true_iff]. apply Z.leb_gt in Hw.
    apply wp_bind, wp_getEC, wp_onStore. cbn [k_ec k_store].
    assert (flight rt snap (mkKState (k_store s) (set_requestAccumulator (k_ec s) acc))) as Hacc
      by by apply flight_requestAccumulator.
    pose proof Hacc as [Hrt Hal _ _ _ _ _ _ _]. rewrite <-Hrt in Hal.
    eapply wp_mono; [apply needsMore_heap; exact Hal| |done|done]. intros st' wait Hh. cbn [k_ec k_store].
    split; [exact (flight_heap _ _ _ _ Hnil Hh)|]. intros _. exact (flight_heap _ _ _ _ Hacc Hh).
  - intros s' [] [Hf1 Hf2]; [apply wp_ret; by apply Hf2|].
    apply wp_bind, wp_getEC, wp_bind, wp_putEC. by apply keeps_runRequestChunk.
Qed.

Lemma keeps_processRequestBody rt snap c b s :
  flight rt snap s -> keeps rt snap (processRequestBody c b) s.
Proof.
  intros Hf0. apply wp_bind, wp_getEC, wp_bind, wp_putEC, wp_bind, wp_getEC. cbn [k_ec k_store].
  set (ec1 := with_phase (k_ec s) phaseRequestBody).
  assert (flight rt snap (mkKState (k_store s) ec1)) as Hf by by apply flight_phase.
  assert (ec_phase ec1 <> phaseResponseHeaders) as Hp1 by done. clearbody ec1.
  destruct (isStreamingRequest (ec_req ec1)); [by apply keeps_processStreamingRequestBody|].
  destruct (pc_RequiresRequestBody _); [|by apply wp_ret].
  match goal with |- wp (let '(_, _) := ?x in _) _ _ _ _ => destruct x as [content enc'] end.
  apply wp_bind, wp_putEC, wp_bind, wp_getEC. cbn [k_ec k_store].
  set (ec2 := set_requestBody _ _).
  assert (flight rt snap (mkKState (k_store s) ec2)) as Hf2.
  { apply (flight_requestBody _ _ (mkKState (k_store s) _)). by apply (flight_requestEncoding _ _ (mkKState (k_store s) ec1)). }
  assert (ec_phase ec2 <> phaseResponseHeaders) as Hp2 by done. clearbody ec2.
  pose proof Hf2 as [Hrt Hal Hh Ha Hs Hne Hr Hq Hq']. simpl in *.
  apply wp_bind, wp_getStore, wp_bind, wp_try, wp_onStore. unfold chainOf. rewrite Hrt. cbn [k_store].
  eapply wp_mono; [apply requestBody_wp; [done|by rewrite Hh]| | |done]; rewrite Hh.
  - intros st [ctx res] [Hl Hu]. simpl in Hl. apply wp_bind, wp_getEC, wp_bind, wp_putEC. simpl.
    apply quiet_keeps; [|by apply quiet_TranslateRequestBodyActions, phase_modeSafe].
    apply (flight_requestBodyCtx _ _ (mkKState st ec2)); [|done]. exact (flight_upd _ _ _ _ _ Hf2 Hu Hne).
  - intros st e Hu. apply wp_bind, wp_putEC. apply quiet_keeps; [|apply quiet_handlePolicyError].
    apply (flight_requestBodyCtx _ _ (mkKState st ec2)); [exact (flight_upd _ _ _ _ _ Hf2 Hu Hne)|].
    by rewrite requestBodyCtxAtError_headers.
Qed.

End Flight.

(** ** The response *)

Section FlightResponse.
Context {W : Type} `{MapRange} `{NetURL} `{Codecs} `{StructPB} `{UUIDSource}.
Implicit Types (c : ChainExecutor W) (ec : PolicyExecutionContext W) (s : KState W).

(** Once the response has started its contexts exist. *)
Lemma flight_contexts rt snap s :
  flight true rt snap s ->
  exists h b t, responseHeaderCtx (ec_resp (k_ec s)) = Some h /\ responseBodyCtx (ec_resp (k_ec s)) = Some b /\
    responseStreamContext (ec_resp (k_ec s)) = Some t /\
    allocated (k_store s) (sh_ResponseHeaders h) /\ rp_ResponseHeaders b = sh_ResponseHeaders h /\
    sh_ResponseHeaders h <> downstreamHeaders rt.
Proof. intros Hf. pose proof (fl_resp _ _ _ _ Hf) as Hr. repeat (case_match; try done). naive_solver. Qed.

Lemma flight_responseContexts rt snap s h b t :
  flight true rt snap s -> allocated (k_store s) (sh_ResponseHeaders h) ->
  rp_ResponseHeaders b = sh_ResponseHeaders h -> sh_ResponseHeaders h <> downstreamHeaders rt ->
  flight true rt snap (mkKState (k_store s) (set_responseContexts (k_ec s) (Some h) (Some b) (Some t))).
Proof. intros [] Ha Hb Hne. split; try done. Qed.

Lemma flight_responseEncoding st rt snap s e :
  flight st rt snap s -> flight st rt snap (mkKState (k_store s) (set_responseEncoding (k_ec s) e)).
Proof. by intros []. Qed.

Lemma flight_responseDecomp st rt snap s d :
  flight st rt snap s -> flight st rt snap (mkKState (k_store s) (set_responseDecomp (k_ec s) d)).
Proof. by intros []. Qed.

Lemma flight_isStreaming st rt snap s b :
  flight st rt snap s -> flight st rt snap (mkKState (k_store s) (set_isStreamingResponse (k_ec s) b)).
Proof. by intros []. Qed.

Lemma flight_terminated st rt snap s b :
  flight st rt snap s -> flight st rt snap (mkKState (k_store s) (set_streamTerminated (k_ec s) b)).
Proof. by intros []. Qed.

Lemma flight_accumulator st rt snap s acc :
  flight st rt snap s -> (Z.of_nat (length acc) < maxStreamAccumulatorSize)%Z ->
  flight st rt snap (mkKState (k_store s) (set_streamAccumulator (k_ec s) acc)).
Proof. intros [] Hacc. by split. Qed.

(** Allocation of the response's header objects. *)
Lemma alloc_fresh (h : Headers) (st : Store W) :
  let '(st', l) := allocHeaders h st in
  headers_at st l = None /\ headers_at st' l = Some h /\
  forall l', headers_at st l' <> None -> headers_at st' l' = headers_at st l' /\ l' <> l.
Proof.
  simpl. unfold headers_at, set_heap. simpl. set (l := fresh _).
  assert (st_heap st !! l = None) as Hl by (apply not_elem_of_dom, is_fresh).
  split_and!; [done|apply lookup_insert_eq|]. intros l' Hl'.
  assert (l' <> l) by congruence. split; [by apply lookup_insert_ne|done].
Qed.

Lemma keeps_buildResponseContexts st rt snap h s :
  flight st rt snap s ->
  wp (buildResponseContexts h) (fun s' _ => flight true rt snap s' /\ ec_phase (k_ec s') = ec_phase (k_ec s))
    (fun _ _ => False) False s.
Proof.
  intros []. unfold wp, buildResponseContexts.
  pose proof (alloc_fresh (NewHeaders (Some (collectHeaders (hh_Headers h)))) (k_store s)) as H1'.
  destruct (allocHeaders (NewHeaders _) _) as [st1 l] eqn:E1. destruct H1' as (Hn1&Hl1&Ho1).
  pose proof (alloc_fresh (cloneHeaders (Some (NewHeaders (Some (collectHeaders (hh_Headers h)))))) st1) as H2'.
  destruct (allocHeaders (cloneHeaders _) _) as [st2 l2] eqn:E2. destruct H2' as (Hn2&Hl2&Ho2).
  assert (forall l' x, headers_at (k_store s) l' = Some x -> headers_at st2 l' = Some x /\ l' <> l) as Hold.
  { intros l' x Hx. destruct (Ho1 l') as [He Hne]; [by rewrite Hx|]. split; [|done].
    destruct (Ho2 l') as [-> _]; by rewrite He, Hx. }
  split; [|done]. destruct fl_alloc0 as [vs Hvs].
  split; simpl; try done.
  - exists vs. by apply Hold.
  - by apply Hold.
  - split_and!; [|done|by apply not_eq_sym, (Hold _ snap)].
    eexists. destruct (Ho2 l) as [-> _]; by rewrite Hl1.
Qed.

(** The response contexts are in place, whatever the phase. *)
Lemma flight_modeSafe rt snap s : flight true rt snap s -> modeSafe s.
Proof. intros Hf _. destruct (flight_contexts _ _ _ Hf) as (h&?&?&->&_). eauto. Qed.

Lemma flight_bodyCtx rt snap s : flight true rt snap s -> is_Some (responseBodyCtx (ec_resp (k_ec s))).
Proof. intros Hf. destruct (flight_contexts _ _ _ Hf) as (?&b&?&_&->&_). eauto. Qed.

Lemma flight_responseBodyCtx rt snap s b h :
  flight true rt snap s -> responseHeaderCtx (ec_resp (k_ec s)) = Some h ->
  rp_ResponseHeaders b = sh_ResponseHeaders h ->
  flight true rt snap (mkKState (k_store s) (set_responseBodyCtx (k_ec s) b)).
Proof.
  intros Hf Hh Hb. destruct (flight_contexts _ _ _ Hf) as (h'&b'&t&Hh'&_&Ht&Ha&_&Hne).
  rewrite Hh in Hh'. injection Hh' as <-. unfold set_responseBodyCtx. rewrite Hh, Ht.
  by apply flight_responseContexts.
Qed.

Lemma keeps_execResponseBody rt snap c b s :
  flight true rt snap s -> keeps true rt snap (execResponseBody c b) s.
Proof.
  intros Hf0. destruct (flight_contexts _ _ _ Hf0) as (h&rb&t&Hh&Hb&_&Ha&Hl&Hne).
  apply wp_bind, wp_getEC, wp_bind. eapply wp_deref; [exact Hb|].
  apply wp_bind, wp_putEC, wp_bind, wp_getEC. cbn [k_ec k_store].
  set (rb1 := with_ResponseBody rb (Some b)). set (ec1 := set_responseBodyCtx (k_ec s) rb1).
  assert (flight true rt snap (mkKState (k_store s) ec1)) as Hf by by eapply flight_responseBodyCtx.
  assert (responseHeaderCtx (ec_resp ec1) = Some h) as Hh1 by done. clearbody ec1.
  pose proof Hf as [Hrt Hal _ _ _ _ _ _ _]. cbn [k_ec] in Hrt.
  apply wp_bind, wp_getStore, wp_bind, wp_try, wp_onStore. unfold chainOf. rewrite Hrt. cbn [k_ec k_store].
  eapply wp_mono; [apply responseBody_wp; [done|by unfold rb1; simpl; rewrite Hl]| | |done];
    unfold rb1; simpl; rewrite Hl.
  - intros st [ctx res] [Hl' Hu]. simpl in Hl'. apply wp_bind, wp_getEC, wp_bind, wp_putEC, wp_ret.
    eapply (flight_responseBodyCtx _ _ (mkKState st ec1)); [exact (flight_upd _ _ _ _ _ _ Hf Hu Hne)|done|done].
  - intros st e Hu. apply wp_bind, wp_putEC, wp_ret.
    eapply (flight_responseBodyCtx _ _ (mkKState st ec1)); [exact (flight_upd _ _ _ _ _ _ Hf Hu Hne)|done|].
    by rewrite responseBodyCtxAtError_headers.
Qed.

Lemma keeps_emptyResponse rt snap c hr s :
  flight true rt snap s -> keeps true rt snap (processResponseBodyForEmptyResponse c hr) s.
Proof.
  intros Hf. apply keeps_bind; [by apply keeps_execResponseBody|]. intros [e|res] s' Hf'.
  - apply quiet_keeps; [done|apply quiet_handlePolicyError].
  - apply quiet_keeps; [done|]. apply quiet_TranslateResponseHeaderActionsWithBodyMerge;
      [by eapply flight_modeSafe|by eapply flight_bodyCtx].
Qed.

Lemma keeps_processResponseHeaders st rt snap c h s :
  flight st rt snap s ->
  wp (processResponseHeaders c h) (fun s' _ => flight true rt snap s') (fun s' _ => flight true rt snap s') False s.
Proof.
  intros Hf0. apply wp_bind, wp_getEC, wp_bind, wp_putEC, wp_bind. cbn [k_ec k_store].
  eapply wp_mono; [eapply keeps_buildResponseContexts, flight_phase; exact Hf0| |done|done].
  intros s1 _ [Hf1 _]. apply wp_bind, wp_getEC, wp_bind, wp_getStore, wp_bind.
  destruct (flight_contexts _ _ _ Hf1) as (rh&rb&t&Hh&Hb&Ht&Ha&Hl&Hne).
  eapply wp_deref; [exact Hh|]. apply wp_bind, wp_putEC. cbn [k_ec k_store].
  match goal with |- context [if ?b then set_isStreamingResponse _ _ else _] => set (streaming := b) end.
  set (ec2 := if streaming then _ else _).
  assert (flight true rt snap (mkKState (k_store s1) ec2)) as Hf2.
  { unfold ec2. destruct streaming; [by apply flight_isStreaming|by apply flight_eta]. }
  assert (responseHeaderCtx (ec_resp ec2) = Some rh /\ responseBodyCtx (ec_resp ec2) = Some rb /\
          responseStreamContext (ec_resp ec2) = Some t) as (Hh2&Hb2&Ht2) by (unfold ec2; by destruct streaming).
  clearbody ec2 streaming. pose proof Hf1 as [Hrt1 _ _ _ _ _ _ _ _]. pose proof Hf2 as [Hrt Hal _ _ _ _ _ _ _]. cbn [k_ec] in Hrt.
  apply wp_bind, wp_try, wp_onStore. unfold chainOf. rewrite Hrt1. cbn [k_ec k_store].
  eapply wp_mono; [by apply responseHeader_safe| | |done].
  2: { intros st' e Hu. apply quiet_keeps; [exact (flight_upd _ _ _ _ _ _ Hf2 Hu Hne)|apply quiet_handlePolicyError]. }
  intros st' [ctx res] [Hl' Hu]. simpl in Hl'. subst ctx. apply wp_bind, wp_getEC, wp_bind, wp_putEC, wp_bind.
  pose proof (flight_upd _ _ _ _ _ _ Hf2 Hu Hne) as Hf3. cbn [k_ec k_store] in *.
  assert (set_responseHeaderCtx ec2 rh = ec2) as ->.
  { destruct ec2 as [? ? [] ? ? ?]. unfold set_responseHeaderCtx, set_responseContexts, with_resp. simpl in *. by subst. }
  apply wp_mutateHeadersAt; [by eapply heapUpd_allocated|]. intros st4 Hu4. cbn [k_ec k_store] in *.
  pose proof (flight_upd _ _ _ _ _ _ Hf3 Hu4 Hne) as Hf4. cbn [k_ec k_store] in *.
  apply wp_bind.
  apply wp_mono with (Q := fun s' (_ : bool) => flight true rt snap s') (E := fun _ _ => False) (P := False);
    [|intros s5 [] Hf5|done|done].
  - destruct (_ && _); [|by apply wp_ret].
    destruct (responseHasNoBody_ok (mkKState st4 ec2) rh Hh2) as [b Hb']. unfold wp. by rewrite Hb'.
  - by apply keeps_emptyResponse.
  - apply quiet_keeps; [done|]. apply quiet_TranslateResponseHeaderActions;
      [by eapply flight_modeSafe|by eapply flight_bodyCtx].
Qed.

(** Streaming response policies answer every chunk with an action; a nil
    one makes the executor panic. *)
Definition noNilActions (chain : PolicyChain W) : Prop :=
  forall pol cb need st ctx ch p,
    pol ∈ pc_Policies chain -> asStreamingResponsePolicy pol = Some (cb, need) -> (cb st ctx ch p).2 <> None.

Lemma keeps_runResponseChunk rt snap c ch s :
  noNilActions (policyChain rt) -> flight true rt snap s -> keeps true rt snap (runResponseChunk c ch) s.
Proof.
  intros Hn Hf. destruct (flight_contexts _ _ _ Hf) as (h&rb&t&_&_&Ht&_).
  apply wp_bind, wp_getEC, wp_bind. eapply wp_deref; [exact Ht|].
  pose proof Hf as [Hrt Hal _ _ _ _ _ _ _].
  apply wp_bind, wp_try, wp_onStore. unfold chainOf. rewrite Hrt.
  eapply wp_mono; [apply (streamingResponse_wp _ _ _ _ _ _ _ False); [done|right; intros; by eapply Hn]| | |done].
  - intros st res [Hh _]. apply wp_bind, wp_getEC, wp_bind, wp_putEC. cbn [k_ec k_store].
    apply quiet_keeps; [|apply quiet_TranslateStreamingResponseChunkAction].
    pose proof (flight_heap _ _ _ _ _ Hf Hh) as Hf'.
    destruct (sr_StreamTerminated res); [by apply (flight_terminated _ _ _ (mkKState st (k_ec s)))|done].
  - intros st e Hh. apply quiet_keeps; [exact (flight_heap _ _ _ _ _ Hf Hh)|apply quiet_handlePolicyError].
Qed.

Lemma keeps_decompressResponseChunk rt snap ch s :
  flight true rt snap s -> keeps true rt snap (decompressResponseChunk ch) s.
Proof.
  intros Hf. apply wp_bind, wp_getEC. cbn zeta beta.
  match goal with |- context [FeedChunk ?d ?b ?e] => destruct (FeedChunk d b e) as [sd' [err|out]] end.
  - apply wp_bind, wp_putEC, wp_ret.
    apply (flight_responseEncoding _ _ _ (mkKState (k_store s) (set_responseDecomp (k_ec s) None))).
    by apply flight_responseDecomp.
  - apply wp_bind, wp_putEC, wp_ret. by apply flight_responseDecomp.
Qed.

Lemma keeps_processStreamingResponseBody rt snap c b s :
  noNilActions (policyChain rt) -> flight true rt snap s ->
  keeps true rt snap (processStreamingResponseBody c b) s.
Proof.
  intros Hn Hf. apply wp_bind, wp_getEC. destruct (streamTerminated _); [by apply wp_ret|]. cbn zeta beta.
  destruct (negb (String.eqb (responseContentEncoding _) _)).
  { apply keeps_bind; [by apply keeps_decompressResponseChunk|]. intros ch s' Hf'.
    destruct (_ && _); [by apply wp_ret|by apply keeps_runResponseChunk]. }
  match goal with |- context [set_streamAccumulator _ (app ?x ?y)] => set (acc := (x ++ y)%list) end.
  apply wp_bind, wp_putEC. cbn [k_ec k_store]. apply wp_bind.
  apply wp_mono with (Q := fun s' (wait : bool) =>
      flight true rt snap (mkKState (k_store s') (set_streamAccumulator (k_ec s') [])) /\
      (wait = true -> flight true rt snap s')) (E := fun _ _ => False) (P := False); [| |done|done].
  - assert (flight true rt snap (mkKState (k_store s) (set_streamAccumulator (k_ec s) []))) as Hnil
      by by apply flight_accumulator.
    destruct (negb _ && negb _) eqn:Hw; [|by apply wp_ret].
    apply andb_true_iff in Hw as [_ Hw%negb_true_iff]. apply Z.leb_gt in Hw.
    assert (flight true rt snap (mkKState (k_store s) (set_streamAccumulator (k_ec s) acc))) as Hacc
      by by apply flight_accumulator.
    destruct (flight_contexts _ _ _ Hacc) as (h&rb&t&_&_&Ht&_).
    apply wp_bind, wp_getEC, wp_bind. eapply wp_deref; [exact Ht|]. apply wp_onStore. cbn [k_ec k_store].
    pose proof Hacc as [Hrt Hal _ _ _ _ _ _ _]. rewrite <-Hrt in Hal.
    eapply wp_mono; [apply needsMore_heap; exact Hal| |done|done]. intros st' wait Hh. cbn [k_ec k_store].
    split; [exact (flight_heap _ _ _ _ _ Hnil Hh)|]. intros _. exact (flight_heap _ _ _ _ _ Hacc Hh).
  - intros s' [] [Hf1 Hf2]; [apply wp_ret; by apply Hf2|].
    apply wp_bind, wp_getEC, wp_bind, wp_putEC. by apply keeps_runResponseChunk.
Qed.

Lemma keeps_processResponseBody rt snap c b s :
  noNilActions (policyChain rt) -> flight true rt snap s -> keeps true rt snap (processResponseBody c b) s.
Proof.
  intros Hn Hf0. apply wp_bind, wp_getEC, wp_bind, wp_putEC, wp_bind, wp_getEC. cbn [k_ec k_store].
  set (ec1 := with_phase (k_ec s) phaseResponseBody).
  assert (flight true rt snap (mkKState (k_store s) ec1)) as Hf by by apply flight_phase.
  clearbody ec1.
  destruct (isStreamingResponse (ec_resp ec1)); [by apply keeps_processStreamingResponseBody|].
  destruct (pc_RequiresResponseBody _); [|by apply wp_ret].
  match goal with |- wp (let '(_, _) := ?x in _) _ _ _ _ => destruct x as [content enc'] end.
  apply wp_bind, wp_putEC. cbn [k_ec k_store].
  apply keeps_bind.
  { apply keeps_execResponseBody. by apply (flight_responseEncoding _ _ _ (mkKState (k_store s) ec1)). }
  intros [e|res] s' Hf'; apply quiet_keeps; [done|apply quiet_handlePolicyError|done|].
  apply quiet_TranslateResponseBodyActions. by eapply flight_bodyCtx.
Qed.

End FlightResponse.
