(* ===== verification/Samples.v ===== *)
(** * Samples: concrete data for evaluations

    Small policies, chains, stores and instances of the interfaces, on which
    the witnesses of the theorems evaluate the definitions. *)

From stdpp Require Import base gmap strings list fin_maps.
From Stdlib Require Import Ascii.
From S2P Require Import Prelude GoStrings Values Sdk QueryPath Executor ChainBuild Mutation ExecContext.

Open Scope string_scope.

#[export] Existing Instance MapRange_list.

(** ** Plain URLs: a path and a query whose characters need no escaping *)

Fixpoint split_first (c : ascii) (s : string) : string * option string :=
  match s with
  | EmptyString => (EmptyString, None)
  | String d s' => if Ascii.eqb c d then (EmptyString, Some s')
                   else let '(a, b) := split_first c s' in (String d a, b)
  end.

Fixpoint split_all (c : ascii) (s : string) : list string :=
  match s with
  | EmptyString => [EmptyString]
  | String d s' =>
      if Ascii.eqb c d then EmptyString :: split_all c s'
      else match split_all c s' with
           | [] => [String d EmptyString]
           | x :: l => String d x :: l
           end
  end.

Definition plain_query (q : string) : gmap string (list string) :=
  foldl (fun m kv => let '(k, v) := split_first "=" kv in
                     if String.eqb kv "" then m else Values_Add k (default "" v) m)
    ∅ (split_all "&" q).

Definition plain_encode (m : gmap string (list string)) : string :=
  match concat (map (fun kv => map (fun v => kv.1 +:+ "=" +:+ v) kv.2) (map_to_list m)) with
  | [] => ""
  | x :: l => foldl (fun acc y => acc +:+ "&" +:+ y) x l
  end.

Definition plainURL : NetURL := {|
  URL := string * string;
  url_Parse s := let '(p, q) := split_first "?" s in Some (p, default "" q);
  url_Query u := plain_query u.2;
  url_setRawQuery q u := (u.1, q);
  url_String u := if String.eqb u.2 "" then u.1 else u.1 +:+ "?" +:+ u.2;
  Values_Encode := plain_encode;
  QueryEscape s := s
|}.

#[export] Existing Instance plainURL.

Example plain_add : AddQueryParametersToPath "/p?a=1" {["b" := ["2"; "3"]]} = "/p?b=2&b=3&a=1"
                 \/ AddQueryParametersToPath "/p?a=1" {["b" := ["2"; "3"]]} = "/p?a=1&b=2&b=3".
Proof. vm_compute. auto. Qed.

(** ** Actions *)

Definition noFilter : DropHeaderAction := mkDropHeaderAction "" [].

Definition setHeaderMods (k v : string) : UpstreamRequestHeaderModifications :=
  mkURHM {[k := v]} ∅ [] None None None None None None None ∅ ∅ noFilter.
Definition removeHeaderMods (k : string) : UpstreamRequestHeaderModifications :=
  mkURHM ∅ ∅ [k] None None (Some "/rewritten") None None None None ∅ ∅ noFilter.
Definition respSetHeaderMods (k v : string) : DownstreamResponseHeaderModifications :=
  mkDRHM {[k := v]} ∅ [] ∅ ∅ noFilter.
Definition bodyMods (b : option bytes) (set : gmap string string)
    (q : option (gmap string (list string))) : UpstreamRequestModifications :=
  mkURM b set ∅ [] None None None None None q None ∅ ∅ noFilter.
Definition respBodyMods (b : option bytes) (set : gmap string string) (st : option Z) : DownstreamResponseModifications :=
  mkDRM b st set ∅ [] ∅ ∅ noFilter.
Definition deny : ImmediateResponse :=
  mkImmediateResponse 401 {["content-type" := "application/json"]} None ∅ ∅ noFilter.
Definition chunkFields (b : option bytes) : ChunkFields := mkChunkFields b ∅ ∅.

(** ** Policies without state of their own *)

Definition constCb {Ctx Act} (a : option Act) : Callback unit Ctx Act :=
  fun s _ _ => (tt, st_shared s, a).
Definition constChunkCb {Ctx Act} (a : option Act) : ChunkCallback unit Ctx Act :=
  fun s _ _ _ => (tt, st_shared s, a).

Definition allModes : ProcessingMode := mkMode "PROCESS" "BUFFER" "PROCESS" "BUFFER".
Definition streamModes : ProcessingMode := mkMode "SKIP" "STREAM" "SKIP" "STREAM".

(** A policy taking part in the four buffered phases with fixed actions. *)
Definition fixedPolicy (rh : RequestHeaderAction) (rb : RequestAction)
    (sh : ResponseHeaderAction) (sb : ResponseAction) : Policy unit :=
  mkPolicy allModes (Some (constCb (Some rh))) (Some (constCb (Some sh)))
    (IsRequestPolicy (constCb (Some rb))) (IsResponsePolicy (constCb (Some sb))).

Definition setter (k v : string) : Policy unit :=
  fixedPolicy (RHA_Mods (setHeaderMods k v)) (RA_Mods (bodyMods None {[k := v]} None))
    (SHA_Mods (respSetHeaderMods k v)) (SA_Mods (respBodyMods None {[k := v]} None)).
Definition remover (k : string) : Policy unit :=
  fixedPolicy (RHA_Mods (removeHeaderMods k)) (RA_Mods (bodyMods None ∅ None))
    (SHA_Mods (respSetHeaderMods k "")) (SA_Mods (respBodyMods None ∅ None)).
Definition denier : Policy unit :=
  fixedPolicy (RHA_Immediate deny) (RA_Immediate deny) (SHA_Immediate deny) (SA_Immediate deny).
(** A policy of the streaming phases. *)
Definition streamer (rq : option StreamingRequestAction) (rs : option StreamingResponseAction)
    (more : bool) : Policy unit :=
  mkPolicy streamModes None None
    (IsStreamingRequestPolicy (constCb None) (constChunkCb rq) (fun _ _ => (tt, more)))
    (IsStreamingResponsePolicy (constCb None) (constChunkCb rs) (fun _ _ => (tt, more))).

Definition specOf (name : string) (enabled : bool) (cond : option string) : PolicySpec :=
  mkPolicySpec name "v1" enabled {["limit" := VFloat 5 0]} cond.

(** An evaluator that knows the constants [true] and [false]. *)
Definition constEval {Ctx} (e : string) (_ : Store unit) (_ : Ctx) : string + bool :=
  if String.eqb e "true" then inr true else if String.eqb e "false" then inr false else inl "parse error".
Definition sampleCEL : CELEvaluator unit := {|
  EvaluateRequestHeaderCondition := constEval;
  EvaluateRequestBodyCondition := constEval;
  EvaluateResponseHeaderCondition := constEval;
  EvaluateResponseBodyCondition := constEval;
  EvaluateStreamingRequestCondition := constEval;
  EvaluateStreamingResponseCondition := constEval
|}.
Definition sampleExecutor : ChainExecutor unit := mkChainExecutor (Some sampleCEL).

(** ** A store with the request headers at 1, their snapshot at 2 and the
    response headers at 3 *)

Definition sampleShared : SharedContext :=
  mkSharedContext "proj" "req-1" ∅ "api-1" "petstore" "v1" "RestApi" "/petstore" "/pets" None.
Definition sampleRequestHeaders : HeaderMap :=
  {["host" := ["example.com"]; "x-a" := ["client"]; "content-type" := ["text/plain"]]}.
Definition sampleStore : Store unit :=
  mkStore {[1%positive := mkHeaders (Some sampleRequestHeaders);
            2%positive := mkHeaders (Some sampleRequestHeaders);
            3%positive := mkHeaders (Some {["content-type" := ["text/html"]]})]}
    sampleShared tt 0.

Definition sampleRHC : RequestHeaderContext :=
  mkRequestHeaderContext 1 "/pets" "GET" "example.com" "https" "*" 2 None.
Definition sampleRC : RequestContext :=
  mkRequestContext 1 None "/pets" "POST" "example.com" "https" "*" None 2 None.
Definition sampleRSC : RequestStreamContext :=
  mkRequestStreamContext 1 "/pets" "POST" "example.com" "https" "*" 2 None.
Definition sampleUpstream : UpstreamResponseContext := mkUpstreamResponseContext "" "" "" 3.
Definition sampleSHC : ResponseHeaderContext :=
  mkResponseHeaderContext 1 None "/pets" "GET" 3 200 2 sampleUpstream.
Definition sampleSC : ResponseContext :=
  mkResponseContext 1 None "/pets" "GET" 3 None 200 2 sampleUpstream.
Definition sampleSSC : ResponseStreamContext :=
  mkResponseStreamContext 1 None "/pets" "GET" 3 200 2 sampleUpstream.

(** ** Evaluating a run *)

(** Goal [exists s' r, m s = Ok s' r /\ P s' r]: evaluate [m s], leaving
    [P] of the outcome. *)
Ltac run_ok :=
  match goal with
  | |- exists s' r, ?m = Ok s' r /\ _ =>
      let x := eval vm_compute in m in
      lazymatch x with
      | Ok ?s ?r => exists s, r; split; [vm_compute; reflexivity|]
      end
  end.

(** A two-policy chain that runs all four buffered phases. *)
Definition sampleChain : list (Policy unit * PolicySpec) :=
  [(setter "X-A" "first", specOf "a" true None);
   (setter "x-b" "off", specOf "off" false None);
   (remover "x-a", specOf "b" true (Some "true"));
   (denier, specOf "deny" true (Some "false"))].

(** ** Codecs that put a marker byte in front of the body *)

Definition marked (m : Byte.byte) (b : bytes) : string + bytes := inr (m :: b).
Definition unmarked (m : Byte.byte) (b : bytes) : string + bytes :=
  match b with
  | x :: b' => if Byte.eqb m x then inr b' else inl "bad header"
  | [] => inl "unexpected EOF"
  end.

Lemma unmarked_marked m b z : marked m b = inr z -> unmarked m z = inr b.
Proof. intros [= <-]. simpl. by rewrite (Byte.byte_dec_lb eq_refl). Qed.

Definition toyCodecs : Codecs := {|
  gzip_decompress := unmarked Byte.x1f;
  gzip_compress := marked Byte.x1f;
  brotli_decompress := unmarked Byte.x0b;
  brotli_compress b := match b with [] => inl "empty" | _ => marked Byte.x0b b end;
  gzip_roundtrip := unmarked_marked Byte.x1f;
  brotli_roundtrip b z :=
    match b return match b with [] => inl "empty" | _ => marked Byte.x0b b end = inr z -> unmarked Byte.x0b z = inr b with
    | [] => fun E => match E with eq_refl => I end
    | x :: b' => unmarked_marked Byte.x0b (x :: b') z
    end;
  StreamDecompressor := bool; (* whether the marker has been read *)
  newStreamDecompressor _ := false;
  FeedChunk (started : bool) (b : bytes) (_ : bool) :=
    match started, b with
    | true, _ => (true, inr b)
    | false, [] => (false, inr [])
    | false, _ :: b' => (true, inr b')
    end
|}.

Definition toyUUID : UUIDSource := {| uuid_string n := "uuid-" +:+ Itoa (Z.of_nat n) |}.

Definition bytes_of (s : string) : bytes := String.list_byte_of_string s.

(** ** A route and a request *)

(** A policy that names an upstream and tries to set the routing header. *)
Definition redirector (name : string) : Policy unit :=
  mkPolicy (mkMode "PROCESS" "SKIP" "SKIP" "SKIP")
    (Some (constCb (Some (RHA_Mods (mkURHM {["X-Target-Upstream" := "spoofed"]} ∅ [] (Some name) None
       None None None None None ∅ ∅ noFilter)))))
    None NoRequestPolicy NoResponsePolicy.
(** A policy that replaces the request body. *)
Definition replacer (b : bytes) : Policy unit :=
  mkPolicy (mkMode "SKIP" "BUFFER" "SKIP" "SKIP") None None
    (IsRequestPolicy (constCb (Some (RA_Mods (bodyMods (Some b) ∅ None))))) NoResponsePolicy.

Definition chainOfList (l : list (Policy unit * PolicySpec)) (reqBody respBody reqStream respStream : bool) : PolicyChain unit :=
  mkPolicyChain (map fst l) (map snd l) reqBody respBody reqStream respStream false true true.

Definition redirectChain : PolicyChain unit :=
  chainOfList [(redirector "blue", specOf "redirect" true None); (replacer (bytes_of "new"), specOf "replace" true None)]
    true false false false.

Definition sampleRoute : RouteMetadata :=
  mkRouteMetadata "r" "api-1" "petstore" "v1" "/petstore" "/pets" "*" "RestApi" "" "" "proj" "main" "/base"
    {["blue" := "/blue"]} None.

Definition postHeaders (extra : list (string * string)) : HttpHeaders :=
  mkHttpHeaders ([(":path", "/petstore/pets"); (":method", "POST"); (":authority", "example.com"); (":scheme", "https");
    ("x-request-id", "req-1")] ++ extra)%list false.

Definition kstateOf `{Codecs} `{UUIDSource} (chain : PolicyChain unit) (h : HttpHeaders) : KState unit :=
  let '(st, ec) := buildRequestContexts chain "r" h sampleRoute sampleStore in mkKState st ec.
