(* ===== verification/MutationTheorems.v ===== *)
(** * MutationTheorems: header mutations and metadata do what they stand for *)

From stdpp Require Import base gmap strings list fin_maps.
From Stdlib Require Import Ascii.
From S2P Require Import Prelude GoStrings Values Sdk ChainBuild Mutation.

#[local] Set Warnings "-register-all".

Open Scope string_scope.

(** ** Sequential meaning of header operations

    The specification: the operations of the policies, one after the other,
    on the values of one header. *)

Definition runOp (vs : option (list string)) (op : headerOp) : option (list string) :=
  match op with
  | OpSet v => Some [v]
  | OpAppend v => Some (default [] vs ++ [v])%list
  | OpRemove => None
  end.

Definition runOps (ops : list headerOp) (vs : option (list string)) : option (list string) :=
  foldl runOp vs ops.

Definition isAppend (op : headerOp) : bool := match op with OpAppend _ => true | _ => false end.

(** The last set or remove, if any, and the appends after it. *)
Definition tailAppends (ops : list headerOp) : option headerOp * list headerOp :=
  foldl (fun '(b, apps) op => if isAppend op then (b, (apps ++ [op])%list) else (Some op, [])) (None, []) ops.

(** A remove that is followed by appends. *)
Definition removeThenAppend (ops : list headerOp) : bool :=
  match tailAppends ops with (Some OpRemove, _ :: _) => true | _ => false end.

(** ** Lemmas *)

Lemma tailAppends_spec ops :
  match tailAppends ops with
  | (None, apps) => ops = apps /\ forallb isAppend apps = true
  | (Some b, apps) => exists pre, ops = (pre ++ b :: apps)%list /\ isAppend b = false /\ forallb isAppend apps = true
  end.
Proof.
  unfold tailAppends. induction ops as [|op ops IH] using rev_ind; [done|].
  rewrite foldl_app. simpl. destruct (foldl _ _ ops) as [b apps]. destruct (isAppend op) eqn:Hop.
  - destruct b as [b|].
    + destruct IH as (pre&->&Hb&Hall). exists pre. rewrite forallb_app, Hall. simpl. rewrite Hop.
      split_and!; try done. by rewrite <- (assoc_L (++)).
    + destruct IH as [-> Hall]. rewrite forallb_app, Hall. simpl. by rewrite Hop.
  - exists ops. done.
Qed.

Lemma lastBreak_appends ops n :
  n <= length ops -> forallb isAppend (take n ops) = true -> lastBreak ops n = None.
Proof.
  induction n as [|n IH]; intros Hn Hall; simpl; [done|].
  destruct (lookup_lt_is_Some_2 ops n) as [o Ho]; [lia|]. rewrite Ho.
  rewrite (take_S_r _ _ _ Ho), forallb_app in Hall. simpl in Hall.
  apply andb_true_iff in Hall as [Hall Hop]. destruct o; try done. apply IH; [lia|done].
Qed.

Lemma lastBreak_found pre b apps m :
  isAppend b = false -> forallb isAppend apps = true -> m <= length apps ->
  lastBreak (pre ++ b :: apps) (length pre + 1 + m) = Some (length pre, b).
Proof.
  intros Hb Hall. induction m as [|m IH]; intros Hm.
  - rewrite Nat.add_0_r, Nat.add_1_r. simpl. rewrite list_lookup_middle by done. by destruct b.
  - rewrite Nat.add_succ_r. simpl.
    destruct (lookup_lt_is_Some_2 apps m) as [o Ho]; [lia|].
    assert ((pre ++ b :: apps)%list !! (length pre + 1 + m) = Some o) as ->.
    { rewrite lookup_app_r by lia. by replace (length pre + 1 + m - length pre) with (S m) by lia. }
    assert (isAppend o = true) as Ho'.
    { rewrite forallb_forall in Hall. apply Hall. apply list_elem_of_In, list_elem_of_lookup; eauto. }
    destruct o; try done. apply IH. lia.
Qed.

Lemma apply_overwrite b vs key v : applyOption b vs (overwrite key v) = Some [v].
Proof. by destruct b. Qed.

Lemma appends_run b key ops vs :
  forallb isAppend ops = true ->
  foldl (applyOption b) vs (appendsFrom key ops 0) = runOps ops vs.
Proof.
  unfold appendsFrom. rewrite drop_0. revert vs. induction ops as [|op ops IH]; intros vs; simpl; [done|].
  intros [Hop Hops]%andb_true_iff. destruct op as [v|v|]; try done. cbn [omap list_omap foldl]. rewrite IH by done. by destruct b.
Qed.

Lemma appendsFrom_after key pre b apps : appendsFrom key (pre ++ b :: apps) (length pre + 1) = appendsFrom key apps 0.
Proof. unfold appendsFrom. rewrite drop_0, <- drop_drop, drop_app_length. done. Qed.

Lemma runOps_app a b vs : runOps (a ++ b) vs = runOps b (runOps a vs).
Proof. apply foldl_app. Qed.

(** The values of a header after the mutation built from its operations. *)
Definition effect (reads : bool) (key : string) (ops : list headerOp) (vs : option (list string)) : option (list string) :=
  foldl (applyOption reads) (if decide (key ∈ hm_RemoveHeaders (mutationOfOps key ops)) then None else vs)
    (hm_SetHeaders (mutationOfOps key ops)).

Lemma last_append_cons (x : headerOp) apps :
  forallb isAppend (x :: apps) = true -> exists v, last (x :: apps) = Some (OpAppend v).
Proof.
  intros Hall. destruct (last (x :: apps)) as [o|] eqn:Hl; [|by apply last_None in Hl].
  rewrite forallb_forall in Hall. assert (isAppend o = true) as Ho.
  { apply Hall, list_elem_of_In. by eapply last_Some_elem_of. }
  destruct o; try done. eauto.
Qed.

Lemma effect_appends reads key apps vs : forallb isAppend apps = true -> effect reads key apps vs = runOps apps vs.
Proof.
  intros Hall. unfold effect, mutationOfOps. destruct apps as [|x apps]; [done|].
  destruct (last_append_cons x apps Hall) as [v ->].
  rewrite lastBreak_appends by (done || by rewrite firstn_all). simpl (hm_RemoveHeaders _).
  rewrite decide_False by set_solver. by apply appends_run.
Qed.

Lemma effect_break reads key pre b apps vs :
  isAppend b = false -> forallb isAppend apps = true ->
  effect reads key (pre ++ b :: apps) vs =
    match b, apps with
    | OpRemove, _ :: _ => runOps apps vs
    | _, _ => runOps (b :: apps) vs
    end.
Proof.
  intros Hb Hall. unfold effect, mutationOfOps. rewrite last_app. destruct apps as [|x apps].
  - destruct b as [w|w|]; [by apply apply_overwrite|done|]. simpl. by rewrite decide_True by set_solver.
  - rewrite last_cons. destruct (last_append_cons x apps Hall) as [v ->].
    replace (length (pre ++ b :: x :: apps)) with (length pre + 1 + length (x :: apps)) by (rewrite length_app; simpl; lia).
    rewrite lastBreak_found by done.
    destruct b as [w|w|]; [|done|]; rewrite appendsFrom_after; simpl (hm_RemoveHeaders _);
      rewrite decide_False by set_solver; simpl (hm_SetHeaders _); [|by apply appends_run].
    cbn [foldl]. rewrite apply_overwrite. by apply (appends_run reads key (x :: apps) (Some [w])).
Qed.

(** The mutation of one header runs its operations in order, except that a
    remove followed by appends is not performed. *)
Lemma effect_spec reads key ops vs :
  effect reads key ops vs = if removeThenAppend ops then runOps (tailAppends ops).2 vs else runOps ops vs.
Proof.
  pose proof (tailAppends_spec ops) as Ht. unfold removeThenAppend.
  destruct (tailAppends ops) as [[b|] apps]; simpl.
  - destruct Ht as (pre&->&Hb&Hall). rewrite effect_break, runOps_app by done.
    destruct b as [w|w|]; [done|done|]. by destruct apps.
  - destruct Ht as [-> Hall]. by apply effect_appends.
Qed.

Section Lookup.
Context `{MapRange} `{EnvoyHeaders}.

Lemma foldl_appendMutation (l : list (string * list headerOp)) m :
  foldl (fun m kv => appendMutation m (mutationOfOps kv.1 kv.2)) m l
    = mkHeaderMutation (hm_SetHeaders m ++ concat (map (fun kv => hm_SetHeaders (mutationOfOps kv.1 kv.2)) l))
        (hm_RemoveHeaders m ++ concat (map (fun kv => hm_RemoveHeaders (mutationOfOps kv.1 kv.2)) l)).
Proof.
  revert m. induction l as [|[k o] l IH]; intros m; simpl.
  - rewrite !app_nil_r. by destruct m.
  - rewrite IH. unfold appendMutation. simpl. by rewrite !(assoc_L (++)).
Qed.

Lemma mutationOfOps_keys key ops : Forall (fun o => hv_Key o = key) (hm_SetHeaders (mutationOfOps key ops)).
Proof.
  assert (forall l, Forall (fun o => hv_Key o = key)
    (omap (fun op => match op with OpAppend v => Some (append_ key v) | _ => None end) l)) as Hap.
  { induction l as [|[v|v|] l IH]; simpl; [constructor|done|by constructor|done]. }
  unfold mutationOfOps, appendsFrom. repeat case_match; simpl; repeat constructor; done.
Qed.

Lemma mutationOfOps_removes key ops : Forall (fun k => k = key) (hm_RemoveHeaders (mutationOfOps key ops)).
Proof. unfold mutationOfOps. repeat case_match; simpl; repeat constructor; done. Qed.

Lemma filter_keys k key l : Forall (fun o => hv_Key o = key) l ->
  filter (fun o => hv_Key o = k) l = if decide (key = k) then l else [].
Proof.
  induction 1 as [|o l Ho _ IH]; [by case_decide|]. rewrite filter_cons, IH.
  case_decide; case_decide; congruence.
Qed.

Lemma build_lookup_list (l : list (string * list headerOp)) k : NoDup l.*1 ->
  filter (fun o => hv_Key o = k) (concat (map (fun kv => hm_SetHeaders (mutationOfOps kv.1 kv.2)) l))
    = match (list_to_map l : HeaderOps) !! k with Some o => hm_SetHeaders (mutationOfOps k o) | None => [] end /\
  (k ∈ concat (map (fun kv => hm_RemoveHeaders (mutationOfOps kv.1 kv.2)) l) <->
    match (list_to_map l : HeaderOps) !! k with Some o => k ∈ hm_RemoveHeaders (mutationOfOps k o) | None => False end).
Proof.
  induction l as [|[k' o] l IH]; intros Hnd; simpl.
  { rewrite lookup_empty. split; [done|]. set_solver. }
  apply NoDup_cons in Hnd as [Hnin Hnd]. destruct (IH Hnd) as [IH1 IH2].
  rewrite filter_app, (filter_keys k k') by apply mutationOfOps_keys. rewrite elem_of_app, IH1, IH2.
  destruct (decide (k' = k)) as [->|Hne].
  - rewrite lookup_insert_eq. rewrite not_elem_of_list_to_map_1 by done. rewrite app_nil_r. split; [done|]. tauto.
  - rewrite lookup_insert_ne by done. split; [done|].
    pose proof (mutationOfOps_removes k' o) as Hr. rewrite Forall_forall in Hr. naive_solver.
Qed.

(** Only the operations of a header matter to it. *)
Lemma build_lookup ops h k :
  envoy_apply (buildHeaderMutationFromOps ops) h !! k =
    match ops !! k with Some o => effect envoy_readsAction k o (h !! k) | None => h !! k end.
Proof.
  unfold buildHeaderMutationFromOps. rewrite foldl_appendMutation, envoy_apply_lookup. simpl.
  destruct (build_lookup_list (range ops) k (range_NoDup ops)) as [-> Hrem].
  rewrite range_list_to_map in Hrem. rewrite range_list_to_map.
  destruct (ops !! k) as [o|] eqn:Ho.
  - unfold effect. f_equal. case_decide; case_decide; tauto.
  - rewrite decide_False by tauto. done.
Qed.

Lemma merge_empty ops : mergeHeaderMutations emptyMutation ops = buildHeaderMutationFromOps ops.
Proof. unfold mergeHeaderMutations, appendMutation. simpl. by destruct (buildHeaderMutationFromOps ops). Qed.

(** A header whose last operation is a set ends with that value alone. *)
Lemma merge_last_set ops h k o v :
  ops !! k = Some (o ++ [OpSet v])%list ->
  envoy_apply (mergeHeaderMutations emptyMutation ops) h !! k = Some [v].
Proof. intros Ho. rewrite merge_empty, build_lookup, Ho. unfold effect, mutationOfOps. rewrite last_snoc. by apply apply_overwrite. Qed.

(** A header whose last operation is a remove is gone. *)
Lemma merge_last_remove ops h k o :
  ops !! k = Some (o ++ [OpRemove])%list ->
  envoy_apply (mergeHeaderMutations emptyMutation ops) h !! k = None.
Proof.
  intros Ho. rewrite merge_empty, build_lookup, Ho. unfold effect, mutationOfOps. rewrite last_snoc. simpl.
  by rewrite decide_True by set_solver.
Qed.

Lemma content_length_set ops h n :
  envoy_apply (setContentLengthHeader (mergeHeaderMutations emptyMutation ops) n) h !! "content-length"
    = Some [Itoa n].
Proof.
  rewrite envoy_apply_lookup. unfold setContentLengthHeader. cbn [hm_SetHeaders].
  rewrite filter_app, foldl_app, filter_cons_True by done. by apply apply_overwrite.
Qed.

Lemma content_length_others ops h n k : k <> "content-length" ->
  envoy_apply (setContentLengthHeader (mergeHeaderMutations emptyMutation (delete "content-length" ops)) n) h !! k
    = envoy_apply (mergeHeaderMutations emptyMutation ops) h !! k.
Proof.
  intros Hk. rewrite (merge_empty ops), build_lookup, <- (lookup_delete_ne ops "content-length" k) by done.
  rewrite <- build_lookup, <- merge_empty, !envoy_apply_lookup. unfold setContentLengthHeader. cbn [hm_SetHeaders hm_RemoveHeaders].
  rewrite filter_app, filter_cons_False, filter_nil, app_nil_r; [done|]. simpl. congruence.
Qed.

End Lookup.

Section MetadataLemmas.
Context `{MapRange} `{StructPB}.

Lemma mergeDynamicMetadata_lookup dest src ns :
  mergeDynamicMetadata dest src !! ns =
    match src !! ns with
    | Some (Some md) => Some (md ∪ default ∅ (dest !! ns))
    | _ => dest !! ns
    end.
Proof.
  unfold mergeDynamicMetadata.
  rewrite (foldl_range_lookup (fun _ md target => match md with None => target
    | Some metadata => Some (map_copy_into (default ∅ target) metadata) end)).
  by destruct (src !! ns) as [[md|]|].
Qed.

Lemma convertFields_lookup l fields fields' k : NoDup l.*1 ->
  convertFields l fields = inr fields' ->
  match (list_to_map l : gmap string Value) !! k with
  | Some v => exists pv, convertToStructValue v = inr pv /\ fields' !! k = Some pv
  | None => fields' !! k = fields !! k
  end.
Proof.
  revert fields. induction l as [|[k' v] l IH]; intros fields Hnd; simpl; intros Hc; simplify_eq.
  { by rewrite lookup_empty. }
  apply NoDup_cons in Hnd as [Hnin Hnd].
  destruct (convertToStructValue v) as [|pv] eqn:Hv; [done|]. specialize (IH _ Hnd Hc).
  destruct (decide (k' = k)) as [->|Hne].
  - rewrite lookup_insert_eq. rewrite not_elem_of_list_to_map_1 in IH by done.
    exists pv. split; [done|]. by rewrite IH, lookup_insert_eq.
  - rewrite lookup_insert_ne by done. destruct (list_to_map l !! k); [done|]. by rewrite IH, lookup_insert_ne.
Qed.

Lemma foldl_insert_lookup {A B} (g : A -> B) (l : list (string * A)) (m : gmap string B) k : NoDup l.*1 ->
  foldl (fun m kv => <[kv.1 := g kv.2]> m) m l !! k
    = match (list_to_map l : gmap string A) !! k with Some v => Some (g v) | None => m !! k end.
Proof.
  revert m. induction l as [|[k' v] l IH]; intros m Hnd; simpl; [by rewrite lookup_empty|].
  apply NoDup_cons in Hnd as [Hnin Hnd]. rewrite IH by done. simpl.
  destruct (decide (k' = k)) as [->|Hne].
  - rewrite !lookup_insert_eq. by rewrite not_elem_of_list_to_map_1.
  - by rewrite !lookup_insert_ne.
Qed.

Lemma systemFields_NoDup sh : NoDup (systemFields sh).*1.
Proof.
  unfold systemFields.
  match goal with |- NoDup (filter ?P ?l).*1 => apply (sublist_NoDup _ l.*1) end.
  - apply (bool_decide_unpack _). reflexivity.
  - apply fmap_sublist, sublist_filter.
Qed.

End MetadataLemmas.

(** ** Theorems *)

Section Theorems.
Context `{MapRange} `{EnvoyHeaders} `{StructPB}.

(** C4: refinement of the header mutation: after Envoy applies the single
    mutation built from the collected operations, every header has the values
    the policies' operations produce when run one after the other on the
    original request, whether Envoy reads the append action of an entry or, as
    its releases up to v1.38 do, the deprecated append flag; the one exception
    is a header whose last remove is followed by appends, where the remove is
    not performed. *)
Theorem header_mutation_refines_operations ops h k :
  let o := default [] (ops !! k) in
  envoy_apply (mergeHeaderMutations emptyMutation ops) h !! k =
    if removeThenAppend o then runOps (tailAppends o).2 (h !! k) else runOps o (h !! k).
Proof.
  intros o. rewrite merge_empty, build_lookup. unfold o. destruct (ops !! k); [apply effect_spec|done].
Qed.

(** Policies cannot spoof what the engine reports: in the engine's own
    namespace of the dynamic metadata the analytics data and the path, method
    and host rewrites are the engine's, whatever metadata the policies
    supply. *)
Theorem reserved_metadata_keys_are_protected analytics mutations extra k :
  k ∈ reservedKeys ->
  (buildDynamicMetadata analytics mutations extra ≫= fun m => m !! ExtProcFilterName) ≫= (fun m => m !! k)
    = baseFields analytics mutations !! k.
Proof.
  intros Hk. unfold buildDynamicMetadata.
  set (base := baseFields analytics mutations).
  match goal with |- context [foldl ?f ?acc (range extra)] => set (nss := foldl f acc (range extra)) end.
  assert ((if decide (nss = ∅) then None else Some nss) ≫= (fun m => m !! ExtProcFilterName) = nss !! ExtProcFilterName) as ->.
  { case_decide as Hd; [|done]. by rewrite Hd. }
  unfold nss.
  rewrite (foldl_range_lookup (fun ns md existing => match md with None => existing | Some metadata =>
    match pb_NewStruct metadata with None => existing | Some metaStruct =>
      let fields := FVal <$> (if String.eqb ns ExtProcFilterName
                              then foldl (fun m k => delete k m) metaStruct reservedKeys else metaStruct) in
      match existing with Some ex => Some (map_copy_into ex fields) | None => Some fields end end end)).
  rewrite String.eqb_refl.
  assert (forall (m : gmap string PBVal), foldl (fun m k => delete k m) m reservedKeys !! k = None) as Hdel.
  { intros m. unfold reservedKeys in *. simpl.
    repeat (apply elem_of_cons in Hk as [->|Hk]; [rewrite !lookup_delete; by repeat case_decide|]). set_solver. }
  assert (forall ns : gmap string (gmap string PBField), (if decide (base = ∅) then ∅ else {[ExtProcFilterName := base]}) = ns ->
     ns !! ExtProcFilterName = if decide (base = ∅) then None else Some base) as Hbase.
  { intros ns <-. case_decide; [apply lookup_empty|apply lookup_singleton_eq]. }
  rewrite (Hbase _ eq_refl).
  assert ((if decide (base = ∅) then None else Some base) ≫= (fun m : gmap string PBField => m !! k) = base !! k) as Hb.
  { case_decide as Hd; [by rewrite Hd|done]. }
  destruct (extra !! ExtProcFilterName) as [[md|]|]; [|done|done].
  destruct (pb_NewStruct md) as [ms|]; [|done]. cbv zeta.
  case_decide as Hd; unfold mbind, option_bind.
  - rewrite lookup_fmap, Hdel. by rewrite Hd.
  - unfold map_copy_into. rewrite lookup_union_r; [done|]. by rewrite lookup_fmap, Hdel.
Qed.

(** The analytics data reports the API of the route: each system field
    that is known has its value there even if a policy supplied another one
    under the same key; every other entry is the policies' own, converted. *)
Theorem system_analytics_fields_win data sh fields :
  buildAnalyticsStruct data sh = inr fields ->
  (forall k v, (k, v) ∈ systemFields sh -> fields !! k = Some (PBString v)) /\
  (forall k, k ∉ (systemFields sh).*1 ->
     match data !! k with
     | Some v => exists pv, convertToStructValue v = inr pv /\ fields !! k = Some pv
     | None => fields !! k = None
     end).
Proof.
  unfold buildAnalyticsStruct. destruct (convertFields _ _) as [|f] eqn:Hc; [done|]. intros [= <-].
  split.
  - intros k v Hkv. rewrite (foldl_insert_lookup PBString) by apply systemFields_NoDup.
    apply elem_of_list_to_map in Hkv; [by rewrite Hkv|apply systemFields_NoDup].
  - intros k Hk. rewrite (foldl_insert_lookup PBString) by apply systemFields_NoDup.
    rewrite not_elem_of_list_to_map_1 by done.
    pose proof (convertFields_lookup _ _ _ k (range_NoDup data) Hc) as Hl. rewrite range_list_to_map in Hl.
    destruct (data !! k); [done|]. by rewrite Hl, lookup_empty.
Qed.

(** For the same list of header names, the "allow" and the "deny" filter
    split the headers in two: every header is reported by exactly one of
    them, by "allow" when its name is on the list in whatever case. *)
Theorem analytics_header_filters_partition names hs :
  names <> [] ->
  let allow := finalizeAnalyticsHeaders (mkDropHeaderAction "allow" names) hs in
  let deny := finalizeAnalyticsHeaders (mkDropHeaderAction "deny" names) hs in
  allow ∪ deny = hs /\ allow ##ₘ deny /\
  (forall k vs, allow !! k = Some vs <-> hs !! k = Some vs /\ ToLower k ∈ map ToLower names).
Proof.
  intros Hne allow deny. destruct names as [|n names]; [done|].
  set (P := fun kv : string * list string => bool_decide (ToLower kv.1 ∈ map ToLower (n :: names)) = true).
  assert (allow = filter P hs) as -> by reflexivity.
  assert (deny = filter (fun kv => ~ P kv) hs) as ->.
  { unfold deny, finalizeAnalyticsHeaders. apply map_filter_ext. intros k vs _. unfold P. simpl.
    by rewrite not_true_iff_false. }
  split_and!.
  - apply map_filter_union_complement.
  - apply map_disjoint_filter_complement.
  - intros k vs. rewrite map_lookup_filter_Some. unfold P. simpl. by rewrite bool_decide_eq_true.
Qed.

End Theorems.

(** ** Witnesses *)

(** An Envoy that does what the law says, by recursion on the mutation. *)
Definition envoySet (reads : bool) (h : HeaderMap) (o : HeaderValueOption) : HeaderMap :=
  partial_alter (fun vs => applyOption reads vs o) (hv_Key o) h.
Definition envoyRun (reads : bool) (m : HeaderMutation) (h : HeaderMap) : HeaderMap :=
  foldl (envoySet reads) (foldl (fun h k => delete k h) h (hm_RemoveHeaders m)) (hm_SetHeaders m).

Lemma envoyRun_lookup reads m h k :
  envoyRun reads m h !! k = foldl (applyOption reads) (if decide (k ∈ hm_RemoveHeaders m) then None else h !! k)
                        (filter (fun o => hv_Key o = k) (hm_SetHeaders m)).
Proof.
  unfold envoyRun.
  assert (forall rs (h : HeaderMap), foldl (fun h k => delete k h) h rs !! k = if decide (k ∈ rs) then None else h !! k) as Hrem.
  { induction rs as [|r rs IH]; intros h0; cbn [foldl]; [by rewrite decide_False by set_solver|].
    rewrite IH. destruct (decide (k ∈ rs)); [by rewrite decide_True by set_solver|].
    destruct (decide (r = k)) as [->|]; [by rewrite lookup_delete_eq, decide_True by set_solver|].
    by rewrite lookup_delete_ne, decide_False by set_solver. }
  rewrite <- Hrem. generalize (foldl (fun h k => delete k h) h (hm_RemoveHeaders m)) as h0.
  induction (hm_SetHeaders m) as [|o os IH]; intros h0; simpl; [done|]. rewrite IH, filter_cons. unfold envoySet.
  case_decide as Hd; simpl; [by rewrite Hd, lookup_partial_alter_eq|by rewrite lookup_partial_alter_ne].
Qed.

(** Envoy v1.38, which reads the deprecated wrapper. *)
Definition envoyInstance : EnvoyHeaders :=
  {| envoy_readsAction := false; envoy_apply := envoyRun false; envoy_apply_lookup := envoyRun_lookup false |}.

Definition plainPB : StructPB := {|
  pb_NewValue v := match v with VHeaders _ | VOpaque _ => None | _ => Some v end;
  json_Marshal v := match v with VOpaque _ => inl "unsupported" | _ => inr "{}" end
|}.

#[local] Existing Instance envoyInstance.
#[local] Existing Instance plainPB.
#[local] Existing Instance MapRange_list.

(** An operation list without the exception, and one with it. *)
Lemma header_mutation_refines_operations_witness :
  let ops : HeaderOps := {["x" := [OpSet "c"; OpAppend "b"]; "y" := [OpRemove; OpAppend "b"]]} in
  let h : HeaderMap := {["x" := ["a"]; "y" := ["a"]]} in
  envoy_apply (mergeHeaderMutations emptyMutation ops) h !! "x" = Some ["c"; "b"] /\
  envoy_apply (mergeHeaderMutations emptyMutation ops) h !! "y" = Some ["a"; "b"] /\
  runOps [OpRemove; OpAppend "b"] (Some ["a"]) = Some ["b"].
Proof.
  intros ops h. split_and!; [| |reflexivity];
    rewrite header_mutation_refines_operations; reflexivity.
Defined.

Lemma reserved_metadata_keys_are_protected_witness :
  (buildDynamicMetadata None (Some (mkRequestMutations (Some "/real") None None))
     {[ExtProcFilterName := Some {["path" := VString "/spoofed"]}]} ≫= fun m => m !! ExtProcFilterName)
    ≫= (fun m => m !! "path") = Some (FVal (PBString "/real")).
Proof.
  rewrite reserved_metadata_keys_are_protected; [reflexivity|]. apply list_elem_of_In. simpl. tauto.
Defined.

Definition witnessShared : SharedContext := mkSharedContext "" "req" ∅ "api-1" "" "" "" "" "" None.

Lemma system_analytics_fields_win_witness :
  match buildAnalyticsStruct {["x-wso2-api-id" := VString "spoofed"; "n" := VInt 1]} witnessShared with
  | inr fields => fields !! "x-wso2-api-id" = Some (PBString "api-1")
  | inl _ => False
  end.
Proof.
  destruct (buildAnalyticsStruct _ _) as [e|fields] eqn:E; [vm_compute in E; discriminate E|].
  apply system_analytics_fields_win in E as [Hsys _]. apply Hsys.
  apply list_elem_of_In. simpl. tauto.
Defined.

Lemma analytics_header_filters_partition_witness :
  let allow := finalizeAnalyticsHeaders (mkDropHeaderAction "allow" ["X-A"]) {["x-a" := ["1"]; "y" := ["2"]]} in
  allow !! "x-a" = Some ["1"].
Proof.
  apply (analytics_header_filters_partition ["X-A"] {["x-a" := ["1"]; "y" := ["2"]]}); [discriminate|].
  split; [reflexivity|]. apply list_elem_of_In. vm_compute. tauto.
Defined.
