(* ===== verification/TranslatorTheorems.v ===== *)
(** * TranslatorTheorems: what leaves the engine is consistent

    A replaced body is announced with its own length and encoding, and the
    cluster a request goes to is the engine's decision. *)

From stdpp Require Import base gmap strings list fin_maps.
From S2P Require Import Prelude GoStrings Values Sdk QueryPath Executor ChainBuild Mutation ExecContext Translator Samples MutationTheorems.

#[local] Set Warnings "-register-all".

Open Scope string_scope.

(** ** Answers that let a message continue *)

(** The header mutation and the body mutation of such an answer. *)
Definition answerOf (r : ProcessingResponse) : option (HeaderMutation * option BodyMutation) :=
  match resp_Response r with
  | Response_RequestHeaders c | Response_RequestBody c | Response_ResponseHeaders c | Response_ResponseBody c =>
      cmn ← c; hm ← cmn_HeaderMutation cmn; Some (hm, cmn_BodyMutation cmn)
  | Response_Immediate _ _ _ => None
  end.

Definition answerMutation (r : ProcessingResponse) : option HeaderMutation := fst <$> answerOf r.

Section Answers.
Context {W : Type} `{MapRange} `{Codecs} `{StructPB}.
Implicit Types s : KState W.

(** [m] keeps the promise [P] about its answer. *)
Definition answers (m : GoM (KState W) ProcessingResponse) (P : HeaderMutation -> option BodyMutation -> Prop) s : Prop :=
  wp m (fun _ resp => forall hm bm, answerOf resp = Some (hm, bm) -> P hm bm) (fun _ _ => True) True s.

Lemma answers_run m P s s' resp hm bm : answers m P s -> m s = Ok s' resp -> answerOf resp = Some (hm, bm) -> P hm bm.
Proof. unfold answers, wp. intros Ha Hr. rewrite Hr in Ha. apply Ha. Qed.

Lemma finishImmediate_none r an s : wp (finishImmediate r an) (fun _ resp => answerOf resp = None) (fun _ _ => True) True s.
Proof. unfold wp, finishImmediate, mbind, GoM_bind, getStore. by destruct (buildAnalyticsStruct _ _). Qed.

Lemma answers_immediate r an P s : answers (finishImmediate r an) P s.
Proof. eapply wp_mono; [apply finishImmediate_none| |done|done]. cbn. congruence. Qed.

(** The ways an answer is wrapped. *)
Definition bodyWrapping (wrap : option CommonResponse -> Response) : Prop :=
  wrap = Response_RequestHeaders \/ wrap = Response_RequestBody \/ wrap = Response_ResponseHeaders \/ wrap = Response_ResponseBody.

Lemma answerOf_wrap wrap hm bm cl mo md : bodyWrapping wrap ->
  answerOf (mkProcessingResponse (wrap (Some (mkCommonResponse (Some hm) bm cl))) mo md) = Some (hm, bm).
Proof. by intros [->|[->|[->| ->]]]. Qed.

Lemma answers_finishRequest wrap hm bm an mu d (P : HeaderMutation -> option BodyMutation -> Prop) s :
  bodyWrapping wrap -> P hm bm -> answers (finishRequest wrap hm bm an mu d) P s.
Proof.
  intros Hw HP. unfold answers, wp, finishRequest, mbind, GoM_bind, getStore. destruct (getModeOverride s) as [s1 mode| |]; [|done|done].
  destruct (buildAnalyticsStruct _ _); [done|]. cbn. rewrite answerOf_wrap by done. by intros ?? [= <- <-].
Qed.

Lemma answers_finishResponseHeaders hm bm an d (P : HeaderMutation -> option BodyMutation -> Prop) s :
  P hm bm -> answers (finishResponseHeaders hm bm an d) P s.
Proof.
  intros HP. unfold answers, wp, finishResponseHeaders, mbind, GoM_bind, getStore. destruct (getModeOverride s) as [s1 mode| |]; [|done|done].
  destruct (buildAnalyticsStruct _ _); [done|]. cbn. by intros ?? [= <- <-].
Qed.

Lemma answers_finishWithMetadata wrap hm bm cl an d (P : HeaderMutation -> option BodyMutation -> Prop) s :
  bodyWrapping wrap -> P hm bm -> answers (finishWithMetadata (wrap (Some (mkCommonResponse (Some hm) bm cl))) an d) P s.
Proof.
  intros Hw HP. unfold answers, wp, finishWithMetadata, mbind, GoM_bind, getStore. cbn.
  case_decide; cbn; [|destruct (buildAnalyticsStruct _ _); [done|cbn]]; rewrite answerOf_wrap by done; by intros ?? [= <- <-].
Qed.

Lemma answers_store a d (k : unit -> GoM (KState W) ProcessingResponse) P s :
  (forall s', answers (k tt) P s') -> answers (storeMetadata a d ≫= k) P s.
Proof. intros Hk. unfold answers, storeMetadata. apply wp_bind. apply Hk. Qed.

End Answers.

(** ** Header operations of a policy *)

(** The policy names [key] among the headers it sets, appends or removes. *)
Definition names (key : string) (toSet : gmap string string) (toAppend : gmap string (list string)) (toRemove : list string) : Prop :=
  (exists k v, toSet !! k = Some v /\ ToLower k = key) \/ (exists k v, toAppend !! k = Some v /\ ToLower k = key) \/
  (exists k, k ∈ toRemove /\ ToLower k = key).

Section Operations.
Context `{MapRange}.

Lemma addOp_ne k k' op ops : k' <> k -> addOp k' op ops !! k = ops !! k.
Proof. intros Hne. unfold addOp. by rewrite lookup_insert_ne. Qed.

Lemma foldl_untouched {A} (f : HeaderOps -> A -> HeaderOps) (l : list A) (ops : HeaderOps) k :
  (forall ops x, x ∈ l -> f ops x !! k = ops !! k) -> foldl f ops l !! k = ops !! k.
Proof.
  revert ops. induction l as [|x l IH]; intros ops Hf; [done|]. cbn [foldl]. rewrite IH by (intros; apply Hf; by right). apply Hf. by left.
Qed.

Lemma policy_untouched ops toSet toAppend toRemove key : ~ names key toSet toAppend toRemove ->
  addRemoveHeaderOps (addAppendHeaderOps (addSetHeaderOps ops toSet) toAppend) toRemove !! key = ops !! key.
Proof.
  intros Hn. unfold addRemoveHeaderOps, addAppendHeaderOps, addSetHeaderOps.
  rewrite foldl_untouched; [rewrite foldl_untouched; [rewrite foldl_untouched|]|]; [done| | |].
  - intros ops' [k v] Hin%elem_of_range. apply addOp_ne. intros <-. apply Hn. left. eauto.
  - intros ops' [k vs] Hin%elem_of_range. apply foldl_untouched. intros ops2 v _. apply addOp_ne. intros <-. apply Hn. right. left. eauto.
  - intros ops' k Hin. apply addOp_ne. intros <-. apply Hn. right. right. eauto.
Qed.

End Operations.

(** ** Replaced bodies *)

(** What a policy asks for that matters to the body: it names the header
    content-encoding, and the body it wants. *)
Definition BodyEdit : Type := Prop * option bytes.

Definition requestEdits (results : list (PolicyResult RequestAction)) : list BodyEdit :=
  omap (fun r => match pr_Skipped r, pr_Action r with
                 | false, Some (RA_Mods m) => Some (names "content-encoding" (ur_HeadersToSet m) (ur_HeadersToAppend m) (ur_HeadersToRemove m), ur_Body m)
                 | _, _ => None end) results.
Definition responseHeaderEdits (results : list (PolicyResult ResponseHeaderAction)) : list BodyEdit :=
  omap (fun r => match pr_Skipped r, pr_Action r with
                 | false, Some (SHA_Mods m) => Some (names "content-encoding" (drh_HeadersToSet m) (drh_HeadersToAppend m) (drh_HeadersToRemove m), None)
                 | _, _ => None end) results.
Definition responseEdits (results : list (PolicyResult ResponseAction)) : list BodyEdit :=
  omap (fun r => match pr_Skipped r, pr_Error r, pr_Action r with
                 | false, None, Some (SA_Mods m) => Some (names "content-encoding" (dr_HeadersToSet m) (dr_HeadersToAppend m) (dr_HeadersToRemove m), dr_Body m)
                 | _, _, _ => None end) results.
Definition requestHeaderEdits (results : list (PolicyResult RequestHeaderAction)) : list BodyEdit :=
  omap (fun r => match pr_Skipped r, pr_Action r with
                 | false, Some (RHA_Mods m) => Some (names "content-encoding" (urh_HeadersToSet m) (urh_HeadersToAppend m) (urh_HeadersToRemove m), None)
                 | _, _ => None end) results.

(** The body the policies leave. *)
Definition finalBody (edits : list BodyEdit) : option bytes := last (omap snd edits).
Definition keepsEncoding (edits : list BodyEdit) : Prop := Forall (fun e => ~ e.1) edits.

(** The receiver of a message reads its body as the header content-encoding
    says. *)
Definition receives `{Codecs} (h : HeaderMap) (wire : bytes) : option bytes :=
  match h !! "content-encoding" with
  | None => Some wire
  | Some ["gzip"] => match gzip_decompress wire with inr b => Some b | inl _ => None end
  | Some ["br"] => match brotli_decompress wire with inr b => Some b | inl _ => None end
  | Some _ => None
  end.

(** The encoding the engine works with is that of the header, and it is one it
    can decode. *)
Definition encodedAs (encoding : string) (h : HeaderMap) : Prop :=
  (encoding = "" /\ h !! "content-encoding" = None) \/ (encoding ∈ ["gzip"; "br"] /\ h !! "content-encoding" = Some [encoding]).

Section Bodies.
Context `{MapRange} `{EnvoyHeaders} `{Codecs}.

(** A body that is compressed again, or whose compression fails, is read by
    the receiver. *)
Lemma recompressed_is_read encoding body ops h : encodedAs encoding h -> ops !! "content-encoding" = None ->
  let '(out, ops') := recompressModified encoding (Some body) ops in
  exists sent, out = Some sent /\ envoy_apply (finishHeaders out ops') h !! "content-length" = Some [Itoa (Z.of_nat (length sent))] /\
    receives (envoy_apply (finishHeaders out ops') h) sent = Some body.
Proof.
  intros He Ho. assert (forall sent ops', ops' !! "content-encoding" = None ->
    envoy_apply (finishHeaders (Some sent) ops') h !! "content-encoding" = h !! "content-encoding") as Hkeep.
  { intros sent ops' Ho'. unfold finishHeaders. by rewrite content_length_others, merge_empty, build_lookup, Ho'. }
  unfold recompressModified. destruct (String.eqb_spec encoding "") as [->|Hne].
  { exists body. split_and!; [done|apply content_length_set|]. unfold receives. rewrite Hkeep by done. destruct He as [[_ ->]|[Hin _]]; [done|set_solver]. }
  destruct He as [[-> _]|[Hin He]]; [done|]. destruct (recompressBody body encoding) as [e|z] eqn:Hz.
  - exists body. split_and!; [done|apply content_length_set|]. unfold receives, finishHeaders.
    rewrite content_length_others by done. by rewrite (merge_last_remove _ _ _ (default [] (ops !! "content-encoding"))) by apply lookup_insert_eq.
  - exists z. split_and!; [done|apply content_length_set|]. unfold receives. rewrite Hkeep, He by done. unfold recompressBody in Hz.
    apply elem_of_cons in Hin as [->|[->|Hin]%elem_of_cons]; cbn in Hz |- *; [by rewrite (gzip_roundtrip _ _ Hz)|by rewrite (brotli_roundtrip _ _ Hz)|by apply elem_of_nil in Hin].
Qed.

(** What the answer to a message whose policies ask for [edits] has to be. *)
Definition announces (edits : list BodyEdit) (h : HeaderMap) (hm : HeaderMutation) (bm : option BodyMutation) : Prop :=
  match finalBody edits with
  | Some body => exists sent, bm = Some (BodyMutation_Body sent) /\
      envoy_apply hm h !! "content-length" = Some [Itoa (Z.of_nat (length sent))] /\ receives (envoy_apply hm h) sent = Some body
  | None => bm = None /\ envoy_apply hm h !! "content-encoding" = h !! "content-encoding"
  end.

Lemma announces_recompressed edits encoding body ops h : body = finalBody edits -> encodedAs encoding h -> ops !! "content-encoding" = None ->
  let '(out, ops') := recompressModified encoding body ops in
  announces edits h (finishHeaders out ops') (BodyMutation_Body <$> out).
Proof.
  intros -> He Ho. unfold announces. destruct (finalBody edits) as [b|].
  - pose proof (recompressed_is_read encoding b ops h He Ho) as Hr. destruct (recompressModified _ _ _) as [out ops'].
    destruct Hr as (sent & -> & Hl & Hb). eauto.
  - cbn. by rewrite merge_empty, build_lookup, Ho.
Qed.

Lemma announces_plain edits ops h : h !! "content-encoding" = None -> ops !! "content-encoding" = None ->
  announces edits h (finishHeaders (finalBody edits) ops) (BodyMutation_Body <$> finalBody edits).
Proof.
  intros He Ho. pose proof (announces_recompressed edits "" (finalBody edits) ops h eq_refl (or_introl (conj eq_refl He)) Ho) as Hr.
  by destruct (finalBody edits).
Qed.

End Bodies.

Section Edits.
Context {W : Type} `{MapRange} `{EnvoyHeaders} `{NetURL} `{Codecs} `{StructPB}.
Implicit Types (ec : PolicyExecutionContext W) (s : KState W).

Definition reqEdit (m : ReqMods) : BodyEdit := (names "content-encoding" (rq_HeadersToSet m) (rq_HeadersToAppend m) (rq_HeadersToRemove m), rq_Body m).
Definition respEdit (m : RespMods) : BodyEdit := (names "content-encoding" (rs_HeadersToSet m) (rs_HeadersToAppend m) (rs_HeadersToRemove m), rs_Body m).

Lemma requestEdits_mods results : requestEdits results = reqEdit <$> bodyResultMods results.
Proof. induction results as [|r l IH]; [done|]. cbn. destruct (pr_Skipped r); [done|]. destruct (pr_Action r) as [[m|]|]; cbn; by f_equal. Qed.
Lemma requestHeaderEdits_mods results : requestHeaderEdits results = reqEdit <$> headerResultMods results.
Proof. induction results as [|r l IH]; [done|]. cbn. destruct (pr_Skipped r); [done|]. destruct (pr_Action r) as [[m|]|]; cbn; by f_equal. Qed.
Lemma responseHeaderEdits_mods results : responseHeaderEdits results = respEdit <$> headerRespResultMods results.
Proof. induction results as [|r l IH]; [done|]. cbn. destruct (pr_Skipped r); [done|]. destruct (pr_Action r) as [[m|]|]; cbn; by f_equal. Qed.
Lemma responseEdits_mods results : responseEdits results = respEdit <$> bodyRespResultMods results.
Proof.
  induction results as [|r l IH]; [done|]. cbn. destruct (pr_Skipped r); [done|]. destruct (pr_Error r); [done|].
  destruct (pr_Action r) as [[m|]|]; cbn; by f_equal.
Qed.

(** What a loop over the policies does to the body and to one header. *)
Lemma collect_edits {A M} (f : A -> M -> A) (edit : M -> BodyEdit) (bodyOf : A -> option bytes) (opsOf : A -> HeaderOps) :
  (forall a m, bodyOf (f a m) = match (edit m).2 with Some b => Some b | None => bodyOf a end) ->
  (forall a m, ~ (edit m).1 -> opsOf (f a m) !! "content-encoding" = opsOf a !! "content-encoding") ->
  forall mods a, keepsEncoding (edit <$> mods) ->
    bodyOf (foldl f a mods) = match finalBody (edit <$> mods) with Some b => Some b | None => bodyOf a end /\
    opsOf (foldl f a mods) !! "content-encoding" = opsOf a !! "content-encoding".
Proof.
  intros Hb Ho mods. induction mods as [|m mods IH] using rev_ind; intros a Hk; [done|].
  unfold keepsEncoding in *. rewrite fmap_app, Forall_app in Hk. destruct Hk as [Hk Hm]. destruct (IH a Hk) as [IHb IHo].
  apply Forall_cons in Hm as [Hm _]. rewrite foldl_app. cbn [foldl]. rewrite Hb, Ho, IHb, IHo by done. split; [|done].
  unfold finalBody. rewrite fmap_app, omap_app. cbn. destruct (edit m).2; cbn; [by rewrite last_snoc|by rewrite app_nil_r].
Qed.

Lemma collectReq_edits oh ec an mods : keepsEncoding (reqEdit <$> mods) ->
  ra_body (foldl (collectReqMods oh) (initReqAcc ec an) mods) = finalBody (reqEdit <$> mods) /\
  ra_headerOps (foldl (collectReqMods oh) (initReqAcc ec an) mods) !! "content-encoding" = None.
Proof.
  intros Hk. destruct (collect_edits (collectReqMods oh) reqEdit ra_body ra_headerOps) with (mods := mods) (a := initReqAcc ec an) as [-> ->]; [..|done|].
  - intros a m. unfold collectReqMods. by destruct (rq_QueryParametersToAdd m), (rq_QueryParametersToRemove m).
  - intros a m Hn. unfold collectReqMods. repeat case_match; by apply policy_untouched.
  - split; [|apply lookup_empty]. by destruct (finalBody _).
Qed.

Lemma respOps_untouched ops m : ~ (respEdit m).1 -> respOps ops m !! "content-encoding" = ops !! "content-encoding".
Proof. intros Hn. unfold respOps. destruct (rs_StatusCode m); [rewrite addOp_ne by done|]; by apply policy_untouched. Qed.

Lemma collectResp_edits f ec mods : (f = collectRespMods \/ f = collectRespModsCore) -> keepsEncoding (respEdit <$> mods) -> forall oh,
  sa_body (foldl (f oh) (initRespAcc ec) mods) = finalBody (respEdit <$> mods) /\
  sa_headerOps (foldl (f oh) (initRespAcc ec) mods) !! "content-encoding" = None.
Proof.
  intros Hf Hk oh. destruct (collect_edits (f oh) respEdit sa_body sa_headerOps) with (mods := mods) (a := initRespAcc ec) as [-> ->]; [..|done|].
  - intros a m. by destruct Hf as [-> | ->].
  - intros a m Hn. destruct Hf as [-> | ->]; by apply respOps_untouched.
  - split; [|apply lookup_empty]. by destruct (finalBody _).
Qed.

Lemma route_keeps sh ec a : ra_body (route sh ec a) = ra_body a /\ ra_headerOps (route sh ec a) !! "content-encoding" = ra_headerOps a !! "content-encoding".
Proof.
  unfold route. destruct (ra_directive a) as [name|].
  - destruct (resolveUpstreamRedirect sh ec name) as [[info label] known]. unfold applyUpstreamRedirect. destruct known; (split; [done|by apply addOp_ne]).
  - destruct (String.eqb _ _); [done|]. split; [done|by apply addOp_ne].
Qed.

Lemma announces_core result s h : encodedAs (requestContentEncoding (ec_req (k_ec s))) h -> keepsEncoding (requestEdits (er_Results (re_Result result))) ->
  answers (TranslateRequestBodyActions result) (announces (requestEdits (er_Results (re_Result result))) h) s.
Proof.
  rewrite requestEdits_mods. intros He Hk. unfold answers, TranslateRequestBodyActions. apply wp_bind.
  set (P := announces _ h). apply wp_mono with (Q := fun _ rsl => match rsl with
      | inl resp => answerOf resp = None
      | inr r => P (rt_HeaderMutation r) (rt_BodyMutation r) end) (E := fun _ _ => True) (P := True); [| |done|done].
  2: { intros s1 [resp|r] Hr; [apply wp_ret; by rewrite Hr|]. apply answers_finishRequest; [right; by left|done]. }
  assert (forall imm an, wp (response ← finishImmediate imm an; mret (inl response : _ + RequestTranslationResult))
    (fun _ rsl => match rsl with inl resp => answerOf resp = None | inr r => P (rt_HeaderMutation r) (rt_BodyMutation r) end) (fun _ _ => True) True s) as Himm.
  { intros imm an. apply wp_bind. eapply wp_mono; [apply finishImmediate_none| |done|done]. intros s1 resp Hn. by apply wp_ret. }
  unfold translateRequestActionsCore. apply wp_bind. cbn. apply wp_bind. cbn.
  destruct (collectReq_edits (requestHeadersOf (k_ec s) (k_store s)) (k_ec s) (map_copy_into ∅ (ec_analyticsMetadata (k_ec s))) _ Hk) as [Hb Ho].
  destruct (er_ShortCircuited (re_Result result)), (er_FinalAction (re_Result result)) as [[m|imm]|]; try apply Himm;
    (apply wp_bind; cbn;
     match goal with |- context [route ?sh ?ec ?a] => destruct (route_keeps sh ec a) as [Hb' Ho'] end;
     match goal with |- context [recompressModified ?e ?b ?o] =>
       pose proof (announces_recompressed (reqEdit <$> bodyResultMods (er_Results (re_Result result))) e b o h) as Hr;
       destruct (recompressModified e b o) as [out ops'] end;
     apply wp_ret; cbn; apply Hr; [congruence|done|congruence]).
Qed.

Lemma announces_emptyRequest hr br s h :
  let edits := (requestHeaderEdits (er_Results hr) ++ requestEdits (er_Results (re_Result br)))%list in
  h !! "content-encoding" = None -> keepsEncoding edits -> answers (TranslateRequestHeaderActionsWithBodyMerge hr br) (announces edits h) s.
Proof.
  intros edits He. unfold edits. rewrite requestHeaderEdits_mods, requestEdits_mods, <- fmap_app. intros Hk.
  unfold answers, TranslateRequestHeaderActionsWithBodyMerge. apply wp_bind. cbn. apply wp_bind. cbn.
  destruct (collectReq_edits (requestHeadersOf (k_ec s) (k_store s)) (k_ec s) ∅ _ Hk) as [Hb Ho].
  destruct (er_ShortCircuited (re_Result br)), (er_FinalAction (re_Result br)) as [[m|imm]|]; try apply answers_immediate;
    (apply answers_store; intros s'; apply answers_finishRequest; [by left|];
     match goal with |- context [route ?sh ?ec ?a] => destruct (route_keeps sh ec a) as [Hb' Ho'] end; rewrite Hb', Hb;
     apply announces_plain; [done..|congruence]).
Qed.

Lemma announces_emptyResponse hr br s h :
  let edits := (responseHeaderEdits (er_Results hr) ++ responseEdits (er_Results br))%list in
  encodedAs (responseContentEncoding (ec_resp (k_ec s))) h -> keepsEncoding edits -> answers (TranslateResponseHeaderActionsWithBodyMerge hr br) (announces edits h) s.
Proof.
  intros edits He. unfold edits. rewrite responseHeaderEdits_mods, responseEdits_mods, <- fmap_app. intros Hk.
  unfold answers, TranslateResponseHeaderActionsWithBodyMerge. apply wp_bind. cbn. apply wp_bind. cbn.
  destruct (collectResp_edits collectRespMods (k_ec s) _ (or_introl eq_refl) Hk
    (Headers_GetAll (headers_at (k_store s) (default 1%positive (rp_ResponseHeaders <$> responseBodyCtx (ec_resp (k_ec s))))))) as [Hb Ho].
  destruct (er_ShortCircuited br), (er_FinalAction br) as [[m|imm]|]; try apply answers_immediate;
    (apply wp_bind; unfold wp, responseHeadersOf, deref; destruct (responseBodyCtx (ec_resp (k_ec s))) as [rb|]; [cbn in Hb, Ho|done]; apply answers_store; intros s';
     match goal with |- context [recompressModified ?e ?b ?o] =>
       pose proof (announces_recompressed (respEdit <$> (headerRespResultMods (er_Results hr) ++ bodyRespResultMods (er_Results br))%list) e b o h Hb He Ho) as Hr;
       destruct (recompressModified e b o) as [out ops'] end;
     by apply answers_finishResponseHeaders).
Qed.

Lemma announces_response result s h :
  encodedAs (responseContentEncoding (ec_resp (k_ec s))) h -> keepsEncoding (responseEdits (er_Results result)) ->
  answers (TranslateResponseBodyActions result) (announces (responseEdits (er_Results result)) h) s.
Proof.
  rewrite responseEdits_mods. intros He Hk. unfold answers, TranslateResponseBodyActions. apply wp_bind.
  set (P := announces _ h). apply wp_mono with (Q := fun _ rsl => match rsl with
      | inl resp => answerOf resp = None
      | inr r => P (stx_HeaderMutation r) (stx_BodyMutation r) end) (E := fun _ _ => True) (P := True); [| |done|done].
  2: { intros s1 [resp|r] Hr; [apply wp_ret; by rewrite Hr|]. apply answers_finishWithMetadata; [do 3 right; done|done]. }
  unfold translateResponseActionsCore. apply wp_bind. cbn. apply wp_bind. cbn.
  destruct (collectResp_edits collectRespModsCore (k_ec s) _ (or_intror eq_refl) Hk
    (Headers_GetAll (headers_at (k_store s) (default 1%positive (rp_ResponseHeaders <$> responseBodyCtx (ec_resp (k_ec s))))))) as [Hb Ho].
  destruct (er_ShortCircuited result), (er_FinalAction result) as [[m|imm]|];
    try (apply wp_bind; eapply wp_mono; [apply finishImmediate_none| |done|done]; intros s1 resp Hn; by apply wp_ret);
    (apply wp_bind; unfold wp at 1, responseHeadersOf, deref; destruct (responseBodyCtx (ec_resp (k_ec s))) as [rb|]; [cbn in Hb, Ho|done]; apply wp_bind; cbn;
     match goal with |- context [recompressModified ?e ?b ?o] =>
       pose proof (announces_recompressed (respEdit <$> bodyRespResultMods (er_Results result)) e b o h Hb He Ho) as Hr;
       destruct (recompressModified e b o) as [out ops'] end;
     apply wp_ret; exact Hr).
Qed.

(** The answers in which a body can replace that of the message, with the
    encoding of the message and what the policies ask for.  A request whose
    headers end it has no encoded body. *)
Inductive replacing s : GoM (KState W) ProcessingResponse -> string -> list BodyEdit -> Prop :=
| replacing_request r : replacing s (TranslateRequestBodyActions r) (requestContentEncoding (ec_req (k_ec s))) (requestEdits (er_Results (re_Result r)))
| replacing_emptyRequest hr br : replacing s (TranslateRequestHeaderActionsWithBodyMerge hr br) ""
    (requestHeaderEdits (er_Results hr) ++ requestEdits (er_Results (re_Result br)))
| replacing_response r : replacing s (TranslateResponseBodyActions r) (responseContentEncoding (ec_resp (k_ec s))) (responseEdits (er_Results r))
| replacing_emptyResponse hr br : replacing s (TranslateResponseHeaderActionsWithBodyMerge hr br) (responseContentEncoding (ec_resp (k_ec s)))
    (responseHeaderEdits (er_Results hr) ++ responseEdits (er_Results br)).

(** C29: a replaced body is announced correctly.  Take a message that is not
    encoded, or encoded with gzip or brotli as its header says and the engine
    knows, and whose policies do not name the content-encoding header; a
    request without a body has no such header.  When
    the answer to its buffered body, or to the headers of a message without
    one, lets it continue, the receiver that reads the body sent as the
    content-encoding header it gets says has the body the last policy asked
    for, also when it cannot be compressed again, and the content length is
    that of the bytes sent; if no policy asked for a body, the answer replaces
    none and keeps the encoding.  (With any other encoding the body goes out
    as the policy wrote it, under the old header.) *)
Theorem replaced_body_is_announced_correctly m encoding edits s s' resp hm bm h :
  replacing s m encoding edits -> m s = Ok s' resp -> answerOf resp = Some (hm, bm) ->
  encodedAs encoding h -> keepsEncoding edits ->
  match finalBody edits with
  | Some body => exists sent, bm = Some (BodyMutation_Body sent) /\
      envoy_apply hm h !! "content-length" = Some [Itoa (Z.of_nat (length sent))] /\ receives (envoy_apply hm h) sent = Some body
  | None => bm = None /\ envoy_apply hm h !! "content-encoding" = h !! "content-encoding"
  end.
Proof.
  intros Hm Hrun Ha He Hk. eapply (answers_run m (announces edits h)); [|exact Hrun|exact Ha].
  destruct Hm; [by apply announces_core| |by apply announces_response|by apply announces_emptyResponse].
  apply announces_emptyRequest; [|done]. by destruct He as [[_ ?]|[? _]]; [|set_solver].
Qed.

End Edits.

(** ** Routing *)

Section Routing.
Context {W : Type} `{MapRange} `{EnvoyHeaders} `{NetURL} `{Codecs} `{StructPB}.
Implicit Types (ec : PolicyExecutionContext W) (s : KState W).

(** The specification: the last upstream a policy that ran named, an empty
    name being none, or the default of the route. *)
Definition headerNames (results : list (PolicyResult RequestHeaderAction)) : list string :=
  omap (fun r => match pr_Skipped r, pr_Action r with false, Some (RHA_Mods m) => urh_UpstreamName m | _, _ => None end) results.
Definition bodyNames (results : list (PolicyResult RequestAction)) : list string :=
  omap (fun r => match pr_Skipped r, pr_Action r with false, Some (RA_Mods m) => ur_UpstreamName m | _, _ => None end) results.

Definition lastNamed (upstreams : list string) : option string := last (filter (fun n => n <> "") upstreams).

(** The cluster of an upstream definition, as the controller names it. *)
Definition clusterOf (sh : SharedContext) (name : string) : string :=
  "upstream_" +:+ sc_APIKind sh +:+ "_" +:+ sc_APIId sh +:+ "_" +:+ sanitizeUpstreamDefinitionName name.

Definition chosenCluster (sh : SharedContext) ec (upstreams : list string) : option string :=
  match lastNamed upstreams with
  | Some name => Some (clusterOf sh name)
  | None => if String.eqb (defaultUpstreamCluster (ec_route ec)) "" then None else Some (defaultUpstreamCluster (ec_route ec))
  end.

Lemma headerNames_mods results : headerNames results = omap rq_UpstreamName (headerResultMods results).
Proof. induction results as [|r l IH]; [done|]. cbn. destruct (pr_Skipped r); [done|]. destruct (pr_Action r) as [[m|]|]; cbn; [|done..]. destruct (urh_UpstreamName m); [f_equal|]; exact IH. Qed.
Lemma bodyNames_mods results : bodyNames results = omap rq_UpstreamName (bodyResultMods results).
Proof. induction results as [|r l IH]; [done|]. cbn. destruct (pr_Skipped r); [done|]. destruct (pr_Action r) as [[m|]|]; cbn; [|done..]. destruct (ur_UpstreamName m); [f_equal|]; exact IH. Qed.

Lemma collect_directive oh mods a : ra_directive a = None ->
  ra_directive (foldl (collectReqMods oh) a mods) = lastNamed (omap rq_UpstreamName mods).
Proof.
  intros Ha. induction mods as [|m mods IH] using rev_ind; [done|]. rewrite foldl_app. cbn [foldl].
  assert (forall a, ra_directive (collectReqMods oh a m) = directive_set (ra_directive a) (rq_UpstreamName m)) as ->
    by (intros a'; unfold collectReqMods; by destruct (rq_QueryParametersToAdd m), (rq_QueryParametersToRemove m)).
  assert (omap rq_UpstreamName [m] = match rq_UpstreamName m with Some n => [n] | None => [] end) as Hm by (cbn; by destruct (rq_UpstreamName m)).
  rewrite IH. unfold lastNamed. rewrite omap_app, filter_app, Hm. unfold directive_set.
  destruct (rq_UpstreamName m) as [n|]; [|by rewrite filter_nil, app_nil_r].
  destruct (String.eqb_spec n "") as [->|Hn]; [by rewrite filter_cons_False, filter_nil, app_nil_r by naive_solver|].
  by rewrite filter_cons_True, filter_nil, last_snoc.
Qed.

Lemma chosen_ops sh ec oh a mods cl :
  ra_directive a = None -> chosenCluster sh ec (omap rq_UpstreamName mods) = Some cl ->
  exists o, ra_headerOps (route sh ec (foldl (collectReqMods oh) a mods)) !! TargetUpstreamHeader = Some (o ++ [OpSet cl])%list.
Proof.
  intros Ha. unfold chosenCluster, route. rewrite collect_directive by done. destruct (lastNamed _) as [name|].
  - unfold resolveUpstreamRedirect. destruct (upstreamDefinitionPaths (ec_route ec) !! name); intros [= <-];
      unfold applyUpstreamRedirect, addOp; cbn; rewrite lookup_insert_eq; eauto.
  - destruct (String.eqb _ _); [done|]. intros [= <-]. unfold applyDefaultUpstream, addOp. cbn. rewrite lookup_insert_eq. eauto.
Qed.

Lemma finishHeaders_target body ops h o cl :
  ops !! TargetUpstreamHeader = Some (o ++ [OpSet cl])%list ->
  envoy_apply (finishHeaders body ops) h !! TargetUpstreamHeader = Some [cl].
Proof.
  intros Ho. unfold finishHeaders. destruct body; [rewrite content_length_others by done|]; by eapply merge_last_set.
Qed.

Lemma recompress_target encoding body ops :
  (recompressModified encoding body ops).2 !! TargetUpstreamHeader = ops !! TargetUpstreamHeader.
Proof.
  unfold recompressModified, addOp. destruct body; [|done]. destruct (String.eqb _ _); [done|].
  destruct (recompressBody _ _); [|done]. simpl. by rewrite lookup_insert_ne.
Qed.

(** The answer routes to one cluster, whatever the client sent. *)
Definition routesTo (cl : string) (h : HeaderMap) (hm : HeaderMutation) (bm : option BodyMutation) : Prop :=
  envoy_apply hm h !! TargetUpstreamHeader = Some [cl].

Lemma routes_headers result s h cl :
  chosenCluster (st_shared (k_store s)) (k_ec s) (headerNames (er_Results result)) = Some cl ->
  answers (TranslateRequestHeaderActions result) (routesTo cl h) s.
Proof.
  rewrite headerNames_mods. intros Hc. unfold TranslateRequestHeaderActions. apply wp_bind. cbn. apply wp_bind. cbn.
  destruct (chosen_ops _ _ (requestHeadersOf (k_ec s) (k_store s)) (initReqAcc (k_ec s) ∅) _ _ eq_refl Hc) as [o Ho].
  destruct (er_ShortCircuited result), (er_FinalAction result) as [[m|imm]|]; try apply answers_immediate;
    (apply answers_store; intros s'; apply answers_finishRequest; [by left|by eapply merge_last_set]).
Qed.

Lemma routes_merged hr br s h cl :
  chosenCluster (st_shared (k_store s)) (k_ec s) (headerNames (er_Results hr) ++ bodyNames (er_Results (re_Result br))) = Some cl ->
  answers (TranslateRequestHeaderActionsWithBodyMerge hr br) (routesTo cl h) s.
Proof.
  rewrite headerNames_mods, bodyNames_mods, <- omap_app. intros Hc. unfold TranslateRequestHeaderActionsWithBodyMerge. apply wp_bind. cbn. apply wp_bind. cbn.
  destruct (chosen_ops _ _ (requestHeadersOf (k_ec s) (k_store s)) (initReqAcc (k_ec s) ∅) _ _ eq_refl Hc) as [o Ho].
  destruct (er_ShortCircuited (re_Result br)), (er_FinalAction (re_Result br)) as [[m|imm]|]; try apply answers_immediate;
    (apply answers_store; intros s'; apply answers_finishRequest; [by left|by eapply finishHeaders_target]).
Qed.

Lemma routes_body result s h cl :
  chosenCluster (st_shared (k_store s)) (k_ec s) (bodyNames (er_Results (re_Result result))) = Some cl ->
  answers (TranslateRequestBodyActions result) (routesTo cl h) s.
Proof.
  rewrite bodyNames_mods. intros Hc. apply wp_bind.
  apply wp_mono with (Q := fun _ rsl => match rsl with
      | inl resp => answerOf resp = None
      | inr r => routesTo cl h (rt_HeaderMutation r) (rt_BodyMutation r)
      end) (E := fun _ _ => True) (P := True); [| |done|done].
  2: { intros s1 [resp|r] Hr; [apply wp_ret; by rewrite Hr|]. apply answers_finishRequest; [right; by left|done]. }
  unfold translateRequestActionsCore. apply wp_bind. cbn. apply wp_bind. cbn.
  destruct (chosen_ops _ _ (requestHeadersOf (k_ec s) (k_store s))
    (initReqAcc (k_ec s) (map_copy_into ∅ (ec_analyticsMetadata (k_ec s)))) _ _ eq_refl Hc) as [o Ho].
  destruct (er_ShortCircuited (re_Result result)), (er_FinalAction (re_Result result)) as [[m|imm]|];
    try (apply wp_bind; eapply wp_mono; [apply finishImmediate_none| |done|done]; intros s1 resp Hn; by apply wp_ret);
    (apply wp_bind; cbn;
     match goal with |- context [recompressModified ?e ?b ?o] =>
       pose proof (recompress_target e b o) as Hr; destruct (recompressModified e b o) as [out ops'] end;
     apply wp_ret; cbn in *; eapply finishHeaders_target; rewrite Hr; exact Ho).
Qed.

(** The request phases with the upstreams their policies named, in order. *)
Inductive routing s : GoM (KState W) ProcessingResponse -> list string -> Prop :=
| routing_headers r : routing s (TranslateRequestHeaderActions r) (headerNames (er_Results r))
| routing_merged hr br : routing s (TranslateRequestHeaderActionsWithBodyMerge hr br) (headerNames (er_Results hr) ++ bodyNames (er_Results (re_Result br)))
| routing_body r : routing s (TranslateRequestBodyActions r) (bodyNames (er_Results (re_Result r))).

(** C30: the cluster a request is sent to is decided by the engine, not by
    the headers policies set: whenever a request phase - of the headers, of a
    buffered body, or of both at once for a request without a body - lets the
    request continue and a cluster is known, the routing header that leaves
    the engine has one value, the cluster of the upstream definition that the
    policies of that phase named last or else the route's default, whatever
    header operations the policies asked for and whatever the client sent.  (The upstream
    slot that an action may name as well is read nowhere.) *)
Theorem target_upstream_is_decided_by_the_engine m upstreams s s' resp hm bm h cl :
  routing s m upstreams -> m s = Ok s' resp -> answerOf resp = Some (hm, bm) ->
  chosenCluster (st_shared (k_store s)) (k_ec s) upstreams = Some cl ->
  envoy_apply hm h !! TargetUpstreamHeader = Some [cl].
Proof.
  intros Hm Hrun Ha Hc. eapply (answers_run m (routesTo cl h)); [|exact Hrun|exact Ha].
  destruct Hm; [by apply routes_headers|by apply routes_merged|by apply routes_body].
Qed.

(** The body phase does not know the choice of the header phase: when a
    header policy has redirected the request and no policy of the buffered
    body phase names an upstream again, the answer to the headers routes to
    the redirect's cluster and the answer to the body puts the default
    cluster of the route back. *)
Theorem body_phase_undoes_a_header_phase_redirect r1 s1 s1' resp1 hm1 bm1 r2 s2 s2' resp2 hm2 bm2 h name :
  TranslateRequestHeaderActions r1 s1 = Ok s1' resp1 -> answerOf resp1 = Some (hm1, bm1) ->
  lastNamed (headerNames (er_Results r1)) = Some name ->
  TranslateRequestBodyActions r2 s2 = Ok s2' resp2 -> answerOf resp2 = Some (hm2, bm2) ->
  bodyNames (er_Results (re_Result r2)) = [] ->
  defaultUpstreamCluster (ec_route (k_ec s2)) <> "" ->
  envoy_apply hm1 h !! TargetUpstreamHeader = Some [clusterOf (st_shared (k_store s1)) name] /\
  envoy_apply hm2 (envoy_apply hm1 h) !! TargetUpstreamHeader
    = Some [defaultUpstreamCluster (ec_route (k_ec s2))].
Proof.
  intros Hrun1 Ha1 Hname Hrun2 Ha2 Hnone Hd. split.
  - eapply (answers_run _ (routesTo _ h)); [apply routes_headers|exact Hrun1|exact Ha1]. unfold chosenCluster. by rewrite Hname.
  - eapply (answers_run _ (routesTo _ (envoy_apply hm1 h))); [apply routes_body|exact Hrun2|exact Ha2]. unfold chosenCluster.
    rewrite Hnone. cbn. by rewrite (proj2 (String.eqb_neq _ _) Hd).
Qed.

End Routing.

(** ** Witnesses *)

#[local] Existing Instance MapRange_list.
#[local] Existing Instance envoyInstance.
#[local] Existing Instance plainPB.
#[local] Existing Instance toyCodecs.
#[local] Existing Instance toyUUID.

Definition redirectResult : RequestHeaderExecutionResult :=
  mkExecutionResult [mkPolicyResult "redirect" "v1"
    (Some (RHA_Mods (mkURHM {["X-Target-Upstream" := "spoofed"]} ∅ [] (Some "blue") None
       None None None None None ∅ ∅ noFilter))) None false] false None.
Definition replaceResult : RequestExecutionResult :=
  mkRequestExecutionResult (mkExecutionResult [mkPolicyResult "replace" "v1"
    (Some (RA_Mods (bodyMods (Some (bytes_of "hi")) ∅ None))) None false] false None) ∅.

Definition routedState : KState unit := kstateOf redirectChain (postHeaders []).
Definition blueCluster : string := UpstreamDefinitionClusterPrefix +:+ "RestApi_api-1_blue".

Definition mutating {S} (_ : S) (r : ProcessingResponse) : bool :=
  match answerOf r with Some _ => true | None => false end.

Lemma mutating_run {S} (m : GoM S ProcessingResponse) s : succeeds (m s) mutating = true ->
  exists s' resp hm bm, m s = Ok s' resp /\ answerOf resp = Some (hm, bm).
Proof.
  intros (s' & resp & E & Ht)%succeeds_inv. unfold mutating in Ht. destruct (answerOf resp) as [[hm bm]|] eqn:Ha; [|done]. by exists s', resp, hm, bm.
Qed.

Definition gzipHeaders : HeaderMap := {["content-encoding" := ["gzip"]]}.
Definition gzipState : KState unit := mkKState (k_store routedState) (set_requestEncoding (k_ec routedState) "gzip").

(** A gzip body a policy replaces. *)
Lemma replaced_body_is_announced_correctly_witness :
  exists s' resp hm bm sent, TranslateRequestBodyActions replaceResult gzipState = Ok s' resp /\ answerOf resp = Some (hm, bm) /\
    bm = Some (BodyMutation_Body sent) /\ receives (envoy_apply hm gzipHeaders) sent = Some (bytes_of "hi").
Proof.
  destruct (mutating_run (TranslateRequestBodyActions replaceResult) gzipState) as (s' & resp & hm & bm & E & Ha); [vm_compute; reflexivity|].
  pose proof (replaced_body_is_announced_correctly _ _ _ gzipState s' resp hm bm gzipHeaders (replacing_request gzipState replaceResult) E Ha) as Hb.
  destruct Hb as (sent & Hs & _ & Hr).
  - right. split; [left|reflexivity].
  - constructor; [|constructor]. intros [(k & v & Hk & _)|[(k & v & Hk & _)|(k & Hk & _)]]; [discriminate Hk|discriminate Hk|by apply elem_of_nil in Hk].
  - exists s', resp, hm, bm, sent. split; [exact E|]. split; [exact Ha|]. split; [exact Hs|exact Hr].
Defined.

(** A body the brotli codec rejects goes out without an encoding; but under an
    encoding the engine does not know, the header stays. *)
Example unknown_encodings_are_kept :
  envoy_apply (finishHeaders (Some []) (recompressModified "br" (Some []) ∅).2) {["content-encoding" := ["br"]]} !! "content-encoding" = None /\
  let '(out, ops) := recompressModified "deflate" (Some (bytes_of "hi")) ∅ in
  out = Some (bytes_of "hi") /\ envoy_apply (finishHeaders out ops) {["content-encoding" := ["deflate"]]} !! "content-encoding" = Some ["deflate"].
Proof. vm_compute. repeat split. Qed.

Lemma target_upstream_is_decided_by_the_engine_witness :
  exists s' resp hm bm, TranslateRequestHeaderActionsWithBodyMerge redirectResult replaceResult routedState = Ok s' resp /\
    answerOf resp = Some (hm, bm) /\ envoy_apply hm ∅ !! TargetUpstreamHeader = Some [blueCluster].
Proof.
  destruct (mutating_run (TranslateRequestHeaderActionsWithBodyMerge redirectResult replaceResult) routedState) as (s' & resp & hm & bm & E & Ha);
    [vm_compute; reflexivity|].
  exists s', resp, hm, bm. split; [exact E|]. split; [exact Ha|].
  apply (target_upstream_is_decided_by_the_engine _ _ routedState s' resp hm bm ∅ _ (routing_merged routedState redirectResult replaceResult) E Ha).
  vm_compute. reflexivity.
Defined.

(** The two answers to one request: the redirect, then the default again. *)
Lemma body_phase_undoes_a_header_phase_redirect_witness :
  exists s1 resp1 hm1 bm1 s2 resp2 hm2 bm2,
    TranslateRequestHeaderActions redirectResult routedState = Ok s1 resp1 /\ answerOf resp1 = Some (hm1, bm1) /\
    TranslateRequestBodyActions replaceResult routedState = Ok s2 resp2 /\ answerOf resp2 = Some (hm2, bm2) /\
    envoy_apply hm1 ∅ !! TargetUpstreamHeader = Some [blueCluster] /\
    envoy_apply hm2 (envoy_apply hm1 ∅) !! TargetUpstreamHeader = Some ["main"].
Proof.
  destruct (mutating_run (TranslateRequestHeaderActions redirectResult) routedState) as (s1 & resp1 & hm1 & bm1 & E1 & Ha1); [vm_compute; reflexivity|].
  destruct (mutating_run (TranslateRequestBodyActions replaceResult) routedState) as (s2 & resp2 & hm2 & bm2 & E2 & Ha2); [vm_compute; reflexivity|].
  exists s1, resp1, hm1, bm1, s2, resp2, hm2, bm2. do 4 (split; [done|]).
  apply (body_phase_undoes_a_header_phase_redirect redirectResult routedState s1 resp1 hm1 bm1 replaceResult routedState s2 resp2 hm2 bm2 ∅ "blue" E1 Ha1
    eq_refl E2 Ha2 eq_refl). discriminate.
Defined.
