(* ===== verification/ExecutorTheorems.v ===== *)
(** * ExecutorTheorems: the contract of the chain executor

    The statements clients of the executor rely on, each with a witness that
    evaluates it on a concrete chain. *)

From stdpp Require Import base gmap strings list fin_maps.
From S2P Require Import Prelude Values Sdk QueryPath Executor ExecutorProps Samples.

(** ** What a request-header phase promises of the request's headers

    The effect of the executed actions on one header name, in terms of the
    actions alone: names are compared without their case, an action that
    both sets and removes a name removes it, and the last action that names
    a header decides it. *)
Definition removesHeader (k : string) (a : option RequestHeaderAction) : Prop :=
  exists x n, a = Some (RHA_Mods x) /\ n ∈ urh_HeadersToRemove x /\ ToLower n = k.
Definition setsHeader (k v : string) (a : option RequestHeaderAction) : Prop :=
  exists x n, a = Some (RHA_Mods x) /\ urh_HeadersToSet x !! n = Some v /\ ToLower n = k.
Definition silentOn (k : string) (a : option RequestHeaderAction) : Prop :=
  ~ removesHeader k a /\ forall v, ~ setsHeader k v a.

Inductive headerDecided (k : string) (acts : list (option RequestHeaderAction)) (old : option (list string)) :
    option (list string) -> Prop :=
| headerKept : Forall (silentOn k) acts -> headerDecided k acts old old
| headerRemoved before a after :
    acts = (before ++ a :: after)%list -> Forall (silentOn k) after ->
    removesHeader k a -> headerDecided k acts old None
| headerSet before a after v :
    acts = (before ++ a :: after)%list -> Forall (silentOn k) after ->
    ~ removesHeader k a -> setsHeader k v a -> headerDecided k acts old (Some [v]).

(** The path and the method: the last action that names one decides it. *)
Inductive fieldDecided {B} (field : RequestHeaderAction -> option B) (acts : list (option RequestHeaderAction)) (old : B) :
    B -> Prop :=
| fieldKept : Forall (fun a => a ≫= field = None) acts -> fieldDecided field acts old old
| fieldSet before a after v :
    acts = (before ++ a :: after)%list -> Forall (fun a => a ≫= field = None) after ->
    a ≫= field = Some v -> fieldDecided field acts old v.

Section HeaderSpec.
Context `{MapRange}.

Lemma lookup_remove_headers norm l (m : HeaderMap) k :
  (k ∈ norm <$> l -> remove_headers norm l m !! k = None) /\
  (k ∉ norm <$> l -> remove_headers norm l m !! k = m !! k).
Proof.
  unfold remove_headers. revert m. induction l as [|x l IH]; intros m; [by split; [intros ?%elem_of_nil|]|].
  simpl. rewrite elem_of_cons. destruct (IH (delete (norm x) m)) as [H1 H2].
  destruct (decide (k ∈ norm <$> l)) as [Hin|Hni]; (split; intros Hk); [by auto|naive_solver| |].
  - rewrite H2 by done. destruct Hk as [->|?]; [apply lookup_delete_eq|done].
  - rewrite H2 by done. apply lookup_delete_ne. naive_solver.
Qed.

Lemma lookup_set_headers norm toSet (m : HeaderMap) k :
  (exists n v, toSet !! n = Some v /\ norm n = k /\ set_headers norm toSet m !! k = Some [v]) \/
  ((forall n v, toSet !! n = Some v -> norm n <> k) /\ set_headers norm toSet m !! k = m !! k).
Proof.
  unfold set_headers.
  assert (forall n v, toSet !! n = Some v <-> (n, v) ∈ range toSet) as Hr
    by (intros; by rewrite range_perm, elem_of_map_to_list).
  setoid_rewrite Hr. clear Hr. generalize (range toSet). intros l.
  induction l as [|[n v] l IH] using rev_ind.
  - right. split; [by intros ???%elem_of_nil|done].
  - rewrite foldl_app. simpl. destruct (decide (norm n = k)) as [Hk|Hk].
    + left. exists n, v. split_and!; [set_solver|done|]. rewrite Hk. apply lookup_insert_eq.
    + rewrite lookup_insert_ne by done. destruct IH as [(n'&v'&Hin&?&?)|[Hno ?]].
      * left. exists n', v'. split_and!; [set_solver|done|done].
      * right. split; [|done]. intros n' v' [?|Heq]%elem_of_app; [by eapply Hno|].
        apply list_elem_of_singleton in Heq. by simplify_eq.
Qed.

Lemma headerDecided_replay results (m : HeaderMap) k :
  headerDecided k (pr_Action <$> results) (m !! k) (replayRequestHeaders results m !! k).
Proof.
  induction results as [|r l IH] using rev_ind; [by apply headerKept|].
  unfold replayRequestHeaders in *. rewrite fmap_app, foldl_app. simpl.
  set (m' := foldl _ m l) in *.
  assert (silentOn k (pr_Action r) -> headerDecided k ((pr_Action <$> l) ++ [pr_Action r]) (m !! k) (m' !! k)) as Hsilent.
  { intros Hs. inversion IH as [Hall E|b a t Hl Hall Hrm E|b a t v Hl Hall Hrm Hst E]; rewrite ?Hl.
    - rewrite E. apply headerKept, Forall_app_2; [done|by constructor].
    - eapply headerRemoved; [by rewrite <- app_assoc| |done]. apply Forall_app_2; [done|by constructor].
    - eapply headerSet; [by rewrite <- app_assoc| |done|done]. apply Forall_app_2; [done|by constructor]. }
  destruct (pr_Action r) as [[x|i]|] eqn:Ha;
    [|by apply Hsilent; split; [intros (?&?&?&_)|intros ? (?&?&?&_)]..].
  unfold update_headers. destruct (lookup_remove_headers ToLower (urh_HeadersToRemove x) (set_headers ToLower (urh_HeadersToSet x) m') k) as [Hin Hout].
  assert (removesHeader k (Some (RHA_Mods x)) <-> k ∈ ToLower <$> urh_HeadersToRemove x) as Hrm.
  { rewrite list_elem_of_fmap. unfold removesHeader. naive_solver. }
  destruct (decide (k ∈ ToLower <$> urh_HeadersToRemove x)) as [Hk|Hk].
  - rewrite Hin by done. eapply headerRemoved; [done|constructor|by apply Hrm].
  - rewrite Hout by done. destruct (lookup_set_headers ToLower (urh_HeadersToSet x) m' k) as [(n&v&Hn&Hnk&->)|[Hno ->]].
    + eapply headerSet; [done|constructor|by rewrite Hrm|by eexists _, _].
    + apply Hsilent. split; [by rewrite Hrm|]. intros v (?&n&[= <-]&Hn&?). by eapply Hno.
Qed.

Lemma fieldDecided_last (field : RequestHeaderAction -> option string) results d :
  fieldDecided field (pr_Action <$> results) d (lastSet field results d).
Proof.
  induction results as [|r l IH] using rev_ind; [by apply fieldKept|].
  unfold lastSet in *. rewrite fmap_app, foldl_app. simpl. set (d' := foldl _ d l) in *. clearbody d'. destruct (pr_Action r ≫= field) as [v|] eqn:Hv; simpl.
  - by eapply fieldSet.
  - inversion IH as [Hall E|b a t v Hl Hall Ha E]; rewrite ?Hl.
    + subst d'. apply fieldKept, Forall_app_2; [done|by constructor].
    + eapply fieldSet; [by rewrite <- app_assoc| |done]. apply Forall_app_2; [done|by constructor].
Qed.

End HeaderSpec.

Section Contract.
Context {W : Type} `{MapRange} `{NetURL}.
Implicit Types (c : ChainExecutor W) (specs : list PolicySpec) (s : Store W).

(** C3: after the request-header phase every header of the request's shared
    header object is decided by the executed actions: by the last action
    that sets or removes it (names compared without case, removal winning
    inside one action), and is as it was when none does; the path and the
    method of the context are those of the last action that names one. No
    other header object changes, in particular not the snapshot of the
    client's headers. Values that an action appends are not applied by this
    phase: later policies of the chain do not see them. *)
Theorem request_header_phase_effect c pols ctx specs has s s' ctx' res m :
  length pols <= length specs ->
  headers_at s (rh_Headers ctx) = Some (mkHeaders (Some m)) ->
  ExecuteRequestHeaderPolicies c pols ctx specs has s = Ok s' (ctx', res) ->
  let acts := pr_Action <$> er_Results res in
  (exists m', headers_at s' (rh_Headers ctx) = Some (mkHeaders (Some m')) /\
     forall k, headerDecided k acts (m !! k) (m' !! k)) /\
  (forall l, l <> rh_Headers ctx -> headers_at s' l = headers_at s l) /\
  rh_Headers ctx' = rh_Headers ctx /\
  fieldDecided pathOf acts (rh_Path ctx) (rh_Path ctx') /\
  fieldDecided methodOf acts (rh_Method ctx) (rh_Method ctx').
Proof.
  intros Hlen Hm Hrun acts.
  destruct (wp_Ok _ _ _ _ _ _ _ (requestHeader_wp c pols ctx specs has s m Hlen Hm) Hrun) as [Hh Hc].
  simpl in Hc. subst ctx'. unfold headers_at. rewrite Hh. split_and!; try done.
  - eexists. split; [apply lookup_insert_eq|]. intros k. apply headerDecided_replay.
  - intros l Hl. by rewrite lookup_insert_ne.
  - apply fieldDecided_last.
  - apply fieldDecided_last.
Qed.

(** A policy that only appends values leaves the headers that later policies
    of the chain see as they were. *)
Lemma appended_values_are_not_shown (x : UpstreamRequestHeaderModifications) (m : HeaderMap) spec :
  urh_HeadersToSet x = ∅ -> urh_HeadersToRemove x = [] ->
  replayRequestHeaders [executedResult spec (Some (RHA_Mods x))] m = m.
Proof.
  intros Hs Hr. unfold replayRequestHeaders. simpl. unfold update_headers, remove_headers, set_headers.
  rewrite Hs, Hr. assert (range (∅ : gmap string string) = []) as ->; [|done].
  apply Permutation_nil_r. by rewrite range_perm, map_to_list_empty.
Qed.

(** In each buffered phase the entries of the result follow the chain
    (request phases) or the reversed chain (response phases); the phase is
    short-circuited exactly when its last entry holds an immediate response,
    that response is the final action and no policy after it has run. *)
Theorem buffered_phase_result_shape c (chain : list (Policy W * PolicySpec)) has s :
  (forall ctx s' r, ExecuteRequestHeaderPolicies c chain.*1 ctx chain.*2 has s = Ok s' r ->
     resultShape immRequestHeader (specId <$> chain) r.2) /\
  (forall ctx s' r, ExecuteRequestPolicies c chain.*1 ctx chain.*2 has s = Ok s' r ->
     resultShape RequestAction_StopExecution (specId <$> chain) (re_Result r.2)) /\
  (forall ctx s' r, ExecuteResponseHeaderPolicies c chain.*1 ctx chain.*2 has s = Ok s' r ->
     resultShape immResponseHeader (specId <$> reverse chain) r.2) /\
  (forall ctx s' r, ExecuteResponsePolicies c chain.*1 ctx chain.*2 has s = Ok s' r ->
     resultShape ResponseAction_StopExecution (specId <$> reverse chain) r.2).
Proof.
  assert (length chain.*1 <= length chain.*2) as Hlen by by rewrite !length_fmap.
  split_and!; intros ctx s' r Hrun.
  - refine (wp_returns _ (fun r => resultShape _ _ r.2) _ _ _ _ Hrun). apply wp_runForward; [done|].
    rewrite zip_fst_snd. by apply loop_shape.
  - refine (wp_returns _ (fun r => resultShape _ _ (re_Result r.2)) _ _ _ _ Hrun).
    apply wp_bind, wp_runForward; [done|].
    rewrite zip_fst_snd. eapply wp_mono; [by apply loop_shape| |done|done]. done.
  - refine (wp_returns _ (fun r => resultShape _ _ r.2) _ _ _ _ Hrun). apply wp_runReverse; [done|].
    rewrite zip_fst_snd. by apply loop_shape.
  - refine (wp_returns _ (fun r => resultShape _ _ r.2) _ _ _ _ Hrun). apply wp_runReverse; [done|].
    rewrite zip_fst_snd. by apply loop_shape.
Qed.

(** A policy that does not implement a phase's interface, whose mode opts
    out of the phase, or whose spec is disabled has no effect there: removing
    such policies from the chain changes neither the store, nor the context,
    nor the executed entries, the short-circuit flag and the final action,
    nor the error, of any buffered phase. *)
Theorem non_participants_have_no_effect c (chain : list (Policy W * PolicySpec)) has s :
  let sub {Ctx Cb R} (ph : Phase W Ctx Cb R) := filter (fun p => participates ph p = true) chain in
  (forall ctx, let k := sub requestHeaderPhase in
     outcome_rel sameExecution
       (ExecuteRequestHeaderPolicies c chain.*1 ctx chain.*2 has s)
       (ExecuteRequestHeaderPolicies c k.*1 ctx k.*2 has s)) /\
  (forall ctx, let k := sub requestBodyPhase in
     outcome_rel (fun a b => sameExecution (a.1, re_Result a.2) (b.1, re_Result b.2) /\
                             re_Metadata a.2 = re_Metadata b.2)
       (ExecuteRequestPolicies c chain.*1 ctx chain.*2 has s)
       (ExecuteRequestPolicies c k.*1 ctx k.*2 has s)) /\
  (forall ctx, let k := sub responseHeaderPhase in
     outcome_rel sameExecution
       (ExecuteResponseHeaderPolicies c chain.*1 ctx chain.*2 has s)
       (ExecuteResponseHeaderPolicies c k.*1 ctx k.*2 has s)) /\
  (forall ctx, let k := sub responseBodyPhase in
     outcome_rel sameExecution
       (ExecuteResponsePolicies c chain.*1 ctx chain.*2 has s)
       (ExecuteResponsePolicies c k.*1 ctx k.*2 has s)).
Proof.
  intros sub. assert (forall l : list (Policy W * PolicySpec), length l.*1 <= length l.*2) as Hlen
    by (intros; by rewrite !length_fmap).
  split_and!; intros ctx k.
  - unfold ExecuteRequestHeaderPolicies. rewrite !runForward_loop by auto.
    rewrite !zip_fst_snd. by apply loop_participants.
  - unfold ExecuteRequestPolicies. apply outcome_rel_bind with (R := sameExecution).
    + rewrite !runForward_loop by auto. rewrite !zip_fst_snd. by apply loop_participants.
    + intros [??] [??] s1 Ha. split; [done|]. split; [exact Ha|done].
  - unfold ExecuteResponseHeaderPolicies. rewrite !runReverse_loop by auto.
    rewrite !zip_fst_snd. unfold k, sub. rewrite <- filter_reverse. by apply loop_participants.
  - unfold ExecuteResponsePolicies. rewrite !runReverse_loop by auto.
    rewrite !zip_fst_snd. unfold k, sub. rewrite <- filter_reverse. by apply loop_participants.
Qed.

(** Consulting the chain's HasExecutionConditions flag (true when some
    spec has a non-empty condition) gives, in all six phases, the same
    execution as evaluating every condition. *)
Theorem condition_flag_is_only_an_optimisation c pols specs s :
  let flag := existsb hasCondition specs in
  (forall ctx, ExecuteRequestHeaderPolicies c pols ctx specs flag s = ExecuteRequestHeaderPolicies c pols ctx specs true s) /\
  (forall ctx, ExecuteRequestPolicies c pols ctx specs flag s = ExecuteRequestPolicies c pols ctx specs true s) /\
  (forall ctx, ExecuteResponseHeaderPolicies c pols ctx specs flag s = ExecuteResponseHeaderPolicies c pols ctx specs true s) /\
  (forall ctx, ExecuteResponsePolicies c pols ctx specs flag s = ExecuteResponsePolicies c pols ctx specs true s) /\
  (forall ctx ch, ExecuteStreamingRequestPolicies c pols ctx ch specs flag s = ExecuteStreamingRequestPolicies c pols ctx ch specs true s) /\
  (forall ctx ch, ExecuteStreamingResponsePolicies c pols ctx ch specs flag s = ExecuteStreamingResponsePolicies c pols ctx ch specs true s).
Proof.
  intros flag. split_and!; intros;
    unfold ExecuteRequestHeaderPolicies, ExecuteRequestPolicies, ExecuteResponseHeaderPolicies,
      ExecuteResponsePolicies, ExecuteStreamingRequestPolicies, ExecuteStreamingResponsePolicies,
      flag, mbind, GoM_bind; by rewrite ?runForward_flag, ?runReverse_flag.
Qed.

(** On a chain whose spec list is as long as its policy list, with the
    header objects of the contexts allocated, no phase panics; the streaming
    response phase needs in addition that no policy returns a nil action. *)
Theorem executor_does_not_panic c pols specs has s :
  length pols <= length specs ->
  (forall ctx, allocated s (rh_Headers ctx) -> noPanic (ExecuteRequestHeaderPolicies c pols ctx specs has) s) /\
  (forall ctx, allocated s (rc_Headers ctx) -> noPanic (ExecuteRequestPolicies c pols ctx specs has) s) /\
  (forall ctx, allocated s (sh_ResponseHeaders ctx) -> noPanic (ExecuteResponseHeaderPolicies c pols ctx specs has) s) /\
  (forall ctx, allocated s (rp_ResponseHeaders ctx) -> noPanic (ExecuteResponsePolicies c pols ctx specs has) s) /\
  (forall ctx ch, noPanic (ExecuteStreamingRequestPolicies c pols ctx ch specs has) s) /\
  (forall ctx ch,
     (forall pol cb need s ch p, pol ∈ pols -> asStreamingResponsePolicy pol = Some (cb, need) ->
        (cb s ctx ch p).2 <> None) ->
     noPanic (ExecuteStreamingResponsePolicies c pols ctx ch specs has) s).
Proof.
  intros Hlen. split_and!; intros ctx.
  - intros [m Hm]. by eapply wp_mono; [apply requestHeader_wp| | |].
  - intros Hal. by eapply wp_mono; [apply requestBody_wp| | |].
  - intros [m Hm]. by eapply wp_mono; [apply responseHeader_wp| | |].
  - intros Hal. by eapply wp_mono; [apply responseBody_wp| | |].
  - intros ch. by eapply wp_mono; [apply streamingRequest_wp| | |].
  - intros ch Hnil. eapply wp_mono; [apply streamingResponse_wp; [done|right; exact Hnil]| | |]; done.
Qed.

Lemma replayRequestChunk_eos results ch :
  sb_EndOfStream (replayRequestChunk results ch) = sb_EndOfStream ch.
Proof.
  unfold replayRequestChunk. revert ch. induction results as [|r l IH]; intros ch; simpl; [done|].
  rewrite IH. unfold nextRequestChunk. by repeat case_match.
Qed.

(** A streaming request phase hands on the chunk obtained by letting each
    executed policy replace the bytes in turn; it never changes the
    end-of-stream mark and never touches a header object. *)
Theorem streaming_request_chunk c pols ctx chunk specs has s s' res :
  length pols <= length specs ->
  ExecuteStreamingRequestPolicies c pols ctx chunk specs has s = Ok s' res ->
  st_heap s' = st_heap s /\
  exists ch, sq_FinalChunk res = Some ch /\
    ch = replayRequestChunk (sq_Results res) chunk /\
    sb_EndOfStream ch = sb_EndOfStream chunk.
Proof.
  intros Hlen Hrun.
  destruct (wp_Ok _ _ _ _ _ _ _ (streamingRequest_wp c pols ctx chunk specs has s Hlen) Hrun) as [Hh Hch].
  split; [done|]. eexists. split_and!; [done|done|apply replayRequestChunk_eos].
Qed.

(** A streaming response phase stops at the first policy that terminates
    the stream: the termination flag holds exactly when the last entry asked
    for it and no earlier entry did, and the final chunk is the one the
    executed policies produce in turn. *)
Theorem streaming_response_termination c pols ctx chunk specs has s s' res :
  length pols <= length specs ->
  ExecuteStreamingResponsePolicies c pols ctx chunk specs has s = Ok s' res ->
  st_heap s' = st_heap s /\
  sr_FinalChunk res = Some (replayResponseChunk (sr_Results res) chunk) /\
  sr_StreamTerminated res = endsTerminated (sr_Results res) /\
  Forall noTermination (if sr_StreamTerminated res then removelast (sr_Results res) else sr_Results res).
Proof.
  intros Hlen.
  exact (wp_Ok _ _ _ _ _ _ _ (streamingResponse_wp c pols ctx chunk specs has s True Hlen (or_introl I))).
Qed.

(** A streaming policy that returns a nil action is tolerated on the
    request path but makes the engine panic on the response path. *)
Theorem nil_streaming_action_panics_on_response c pol cbq nq cbs ns spec rctx sctx chunk s params :
  asStreamingRequestPolicy pol = Some (cbq, nq) -> RequestBodyMode (Mode pol) = BodyModeStream ->
  asStreamingResponsePolicy pol = Some (cbs, ns) -> ResponseBodyMode (Mode pol) = BodyModeStream ->
  ps_Enabled spec = true -> deepCopyParams (ps_Raw spec) = inr params ->
  (cbq s rctx chunk params).2 = None -> (cbs s sctx chunk params).2 = None ->
  (exists s' res, ExecuteStreamingRequestPolicies c [pol] rctx chunk [spec] false s = Ok s' res /\
     sq_FinalChunk res = Some chunk) /\
  ExecuteStreamingResponsePolicies c [pol] sctx chunk [spec] false s = Panic.
Proof.
  intros Hq Hqm Hs Hsm Hen Hp Hcq Hcs.
  destruct (cbq s rctx chunk params) as [[wq shq] aq] eqn:Eq.
  destruct (cbs s sctx chunk params) as [[ws shs] as_] eqn:Es. simpl in Hcq, Hcs. subst aq as_.
  split.
  - unfold ExecuteStreamingRequestPolicies, runForward. cbn -[cloneParams].
    unfold mbind, GoM_bind, index; simpl. unfold policyBlock; simpl. unfold streamingRequestCallback.
    rewrite Hq, Hqm. simpl. rewrite Hen. simpl. unfold mbind, GoM_bind, cloneParams, conditionMet. simpl.
    rewrite Hp. simpl. unfold streamingRequestRun, mbind, GoM_bind, invokeChunk. simpl. rewrite Eq.
    eexists _, _. split; [reflexivity|done].
  - unfold ExecuteStreamingResponsePolicies, runReverse. cbn -[cloneParams].
    unfold mbind, GoM_bind, index; simpl. unfold policyBlock; simpl. unfold streamingResponseCallback.
    rewrite Hs, Hsm. simpl. rewrite Hen. simpl. unfold mbind, GoM_bind, cloneParams, conditionMet. simpl.
    rewrite Hp. simpl. unfold streamingResponseRun, mbind, GoM_bind, invokeChunk. simpl. by rewrite Es.
Qed.

End Contract.

(** ** Witnesses *)

Open Scope string_scope.

Lemma request_header_phase_effect_witness :
  exists s' r m',
    ExecuteRequestHeaderPolicies sampleExecutor sampleChain.*1 sampleRHC sampleChain.*2 true sampleStore
      = Ok s' r /\
    headers_at s' 1%positive = Some (mkHeaders (Some m')) /\
    (forall k, headerDecided k (pr_Action <$> er_Results r.2) (sampleRequestHeaders !! k) (m' !! k)) /\
    headers_at s' 2%positive = headers_at sampleStore 2%positive /\
    length (er_Results r.2) = 4 /\
    Headers_Has (headers_at s' 1%positive) "X-A" = false.
Proof.
  assert (succeeds (ExecuteRequestHeaderPolicies sampleExecutor sampleChain.*1 sampleRHC sampleChain.*2 true sampleStore)
    (fun s r => Nat.eqb (length (er_Results r.2)) 4 && negb (Headers_Has (headers_at s 1%positive) "X-A")) = true) as Hs
    by (vm_compute; reflexivity).
  apply succeeds_inv in Hs as (s'&r&E&Ht). apply andb_true_iff in Ht as [Hl%Nat.eqb_eq Ha%negb_true_iff].
  destruct r as [ctx' res].
  destruct (request_header_phase_effect sampleExecutor sampleChain.*1 sampleRHC sampleChain.*2 true sampleStore
    s' ctx' res sampleRequestHeaders) as ((m'&Hh&Hk)&Hne&_); [vm_compute; lia|reflexivity|exact E|].
  exists s', (ctx', res), m'. split_and!; [exact E|exact Hh|exact Hk|by apply Hne|exact Hl|exact Ha].
Defined.

(** The chain with the denying policy enabled: the last of three entries
    ends the phase. *)
Definition denyingChain : list (Policy unit * PolicySpec) :=
  [(setter "x-a" "1", specOf "a" true None); (setter "x-b" "1", specOf "b" false None);
   (denier, specOf "deny" true None); (setter "x-c" "1", specOf "c" true None)].

Lemma buffered_phase_result_shape_witness :
  exists s' r, ExecuteRequestPolicies sampleExecutor denyingChain.*1 sampleRC denyingChain.*2 false sampleStore = Ok s' r /\
    er_ShortCircuited (re_Result r.2) = true /\ length (er_Results (re_Result r.2)) = 3 /\
    resultShape RequestAction_StopExecution (specId <$> denyingChain) (re_Result r.2).
Proof.
  assert (succeeds (ExecuteRequestPolicies sampleExecutor denyingChain.*1 sampleRC denyingChain.*2 false sampleStore)
    (fun _ r => er_ShortCircuited (re_Result r.2) && Nat.eqb (length (er_Results (re_Result r.2))) 3) = true) as Hs
    by (vm_compute; reflexivity).
  apply succeeds_inv in Hs as (s'&r&E&Ht). apply andb_true_iff in Ht as [Ht Hl%Nat.eqb_eq].
  exists s', r. split; [exact E|]. split; [exact Ht|]. split; [exact Hl|].
  apply (buffered_phase_result_shape sampleExecutor denyingChain false sampleStore) in E. exact E.
Defined.

Lemma executor_does_not_panic_witness :
  noPanic (ExecuteRequestPolicies sampleExecutor sampleChain.*1 sampleRC sampleChain.*2 true) sampleStore.
Proof.
  apply (executor_does_not_panic sampleExecutor sampleChain.*1 sampleChain.*2 true sampleStore).
  - vm_compute. lia.
  - eexists. vm_compute. reflexivity.
Defined.

Definition upperBody : bytes := [Byte.x41].
Definition chunk0 : StreamBody := mkStreamBody (Some [Byte.x61]) false 7.

Lemma streaming_request_chunk_witness :
  exists s' r,
    ExecuteStreamingRequestPolicies sampleExecutor
      [streamer (Some (ForwardRequestChunk (chunkFields (Some upperBody)))) None false] sampleRSC chunk0
      [specOf "s" true None] false sampleStore = Ok s' r /\
    st_heap s' = st_heap sampleStore /\
    sq_FinalChunk r = Some (mkStreamBody (Some upperBody) false 0).
Proof.
  run_ok. edestruct (streaming_request_chunk sampleExecutor
      [streamer (Some (ForwardRequestChunk (chunkFields (Some upperBody)))) None false] sampleRSC chunk0
      [specOf "s" true None] false sampleStore) as (Hh&ch&Hf&Hch&_).
  - vm_compute. lia.
  - vm_compute. reflexivity.
  - split; [exact Hh|]. reflexivity.
Defined.

Lemma streaming_response_termination_witness :
  exists s' r,
    ExecuteStreamingResponsePolicies sampleExecutor
      [streamer None (Some (ForwardResponseChunk (chunkFields None))) false;
       streamer None (Some (TerminateResponseChunk (chunkFields (Some upperBody)))) false] sampleSSC chunk0
      [specOf "never" true None; specOf "stop" true None] false sampleStore = Ok s' r /\
    sr_StreamTerminated r = endsTerminated (sr_Results r) /\
    pr_PolicyName <$> sr_Results r = ["stop"] /\
    sr_FinalChunk r = Some (mkStreamBody (Some upperBody) true 0).
Proof.
  run_ok. edestruct (streaming_response_termination sampleExecutor
      [streamer None (Some (ForwardResponseChunk (chunkFields None))) false;
       streamer None (Some (TerminateResponseChunk (chunkFields (Some upperBody)))) false] sampleSSC chunk0
      [specOf "never" true None; specOf "stop" true None] false sampleStore) as (_&_&Ht&_).
  - vm_compute. lia.
  - vm_compute. reflexivity.
  - split; [exact Ht|split; reflexivity].
Defined.

Lemma nil_streaming_action_panics_on_response_witness :
  ExecuteStreamingResponsePolicies sampleExecutor [streamer None None false] sampleSSC chunk0
    [specOf "s" true None] false sampleStore = Panic.
Proof.
  eapply (nil_streaming_action_panics_on_response sampleExecutor (streamer None None false) _ _ _ _
    (specOf "s" true None) sampleRSC sampleSSC chunk0 sampleStore); vm_compute; reflexivity.
Defined.

