(* ===== verification/ChainTheorems.v ===== *)
(** * ChainTheorems: correctness of chain building and of the kernel's tables *)

From stdpp Require Import base gmap strings list fin_maps sorting.
From S2P Require Import Prelude GoStrings Version Values Sdk Registry QueryPath Executor ChainBuild Samples.

#[local] Set Warnings "-register-all".

Open Scope string_scope.

(** ** Lemmas *)

Section Lemmas.
Context {W : Type} `{CEL} `{FmtScalar} `{MapRange}.

Lemma streamableRequest_runs (p : Policy W) :
  requestBodyPolicy p = true -> streamableRequest p = true -> is_Some (streamingRequestCallback p).
Proof.
  unfold requestBodyPolicy, streamableRequest, streamingRequestCallback, implementsStreamingRequest.
  intros ->; simpl. intros [Hm Hi]%andb_true_iff. rewrite Hm.
  destruct (asStreamingRequestPolicy p) as [[]|]; [by eauto|done].
Qed.

Lemma streamableResponse_runs (p : Policy W) :
  responseBodyPolicy p = true -> streamableResponse p = true -> is_Some (streamingResponseCallback p).
Proof.
  unfold responseBodyPolicy, streamableResponse, streamingResponseCallback, implementsStreamingResponse.
  intros ->; simpl. intros [Hm Hi]%andb_true_iff. rewrite Hm.
  destruct (asStreamingResponsePolicy p) as [[]|]; [by eauto|done].
Qed.

Lemma activeBody_not_skip m : activeBody m = true -> String.eqb m BodyModeSkip = false.
Proof. unfold activeBody. intros [->%String.eqb_eq| ->%String.eqb_eq]%orb_true_iff; done. Qed.

Lemma existsb_false_elem {A} (f : A -> bool) l x : existsb f l = false -> x ∈ l -> f x = false.
Proof.
  intros He Hx. destruct (f x) eqn:E; [|done].
  assert (existsb f l = true) as Ht; [|by rewrite He in Ht]. apply existsb_exists. exists x. by rewrite <- list_elem_of_In.
Qed.

Lemma forallb_elem {A} (f : A -> bool) l x : forallb f l = true -> x ∈ l -> f x = true.
Proof. intros Hf Hx. rewrite forallb_forall in Hf. apply Hf. by rewrite <- list_elem_of_In. Qed.

Lemma foldl_dedup (values : list string) : forall (seen : gset string) unique,
  NoDup unique -> (forall v, v ∈ seen <-> v ∈ unique) ->
  exists more, (foldl (fun '(seen, unique) v =>
       if decide (v ∈ seen) then (seen, unique) else ({[v]} ∪ seen, (unique ++ [v])%list)) (seen, unique) values).2
    = (unique ++ more)%list /\ NoDup (unique ++ more)%list /\ more `sublist_of` values /\
      (forall v, v ∈ (unique ++ more)%list <-> v ∈ unique \/ v ∈ values).
Proof.
  induction values as [|v values IH]; intros seen unique Hnd Hseen; simpl.
  { exists []. rewrite app_nil_r. split_and!; try done. set_solver. }
  destruct (decide (v ∈ seen)) as [Hin|Hnin].
  - destruct (IH seen unique Hnd Hseen) as (more&Heq&Hnd'&Hsub&Hel). exists more. split_and!; try done.
    + by constructor.
    + intros u. rewrite Hel. apply Hseen in Hin. set_solver.
  - destruct (IH ({[v]} ∪ seen) (unique ++ [v])%list) as (more&Heq&Hnd'&Hsub&Hel).
    + apply NoDup_app. split_and!; [done| |apply NoDup_singleton]. rewrite Hseen in Hnin. set_solver.
    + intros u. rewrite elem_of_app, <- Hseen. set_solver.
    + exists (v :: more). rewrite <- app_assoc in *. simpl in *. split_and!; try done.
      * by constructor.
      * intros u. rewrite Hel. set_solver.
Qed.

(** Instances are created without a panic, so chains are built without
    one. *)
Lemma GetInstance_noPanic (reg : PolicyRegistry W) n v md p w : GetInstance reg n v md p w <> Panic.
Proof. unfold GetInstance. repeat (case_match; try done). Qed.

Lemma buildPolicyChain_noPanic (reg : PolicyRegistry W) key config cm w :
  noPanic (buildPolicyChain reg key config cm) w.
Proof.
  unfold noPanic, buildPolicyChain. apply wp_bind. unfold wp at 1. rewrite for_range_plain.
  apply (loop_wp _ (fun _ _ _ => True) (fun _ _ => True) (fun _ _ => True) False); [|done|done].
  intros pc l locals w' _. apply wp_bind. unfold wp, loaderStep.
  pose proof (GetInstance_noPanic reg (pi_Name pc) (pi_Version pc)
    (mkPolicyMetadata key (cm_APIId cm) (cm_APIName cm) (cm_Version cm) "") (pi_Parameters pc) w') as Hn.
  destruct (GetInstance _ _ _ _ _ _) as [w1 [impl merged]|w1 e|]; done.
Qed.

(** Building touches the factories' state only, and builds a chain for
    exactly the configured route keys. *)
Lemma buildAll_wp (reg : PolicyRegistry W) configs s :
  wp (buildAll reg configs)
     (fun s' chains => s'.1 = s.1 /\ forall key, is_Some (chains !! key) <-> key ∈ cc_RouteKey <$> configs)
     (fun s' _ => s'.1 = s.1) False s.
Proof.
  unfold buildAll, wp. rewrite for_range_plain.
  match goal with |- match loop ?f ?l ?r ?s with _ => _ end =>
    change (wp (loop f l r) (fun s' chains => s'.1 = s.1 /\ forall key, is_Some (chains !! key) <-> key ∈ cc_RouteKey <$> configs)
      (fun s' _ => s'.1 = s.1) False s) end.
  apply loop_wp with (I := fun rest s' chains => s'.1 = s.1 /\
    exists d, configs = (d ++ rest)%list /\ forall key, is_Some (chains !! key) <-> key ∈ cc_RouteKey <$> d).
  - intros config rest chains s' [Hs (d&->&Hk)]. unfold wp.
    pose proof (buildPolicyChain_noPanic reg (cc_RouteKey config) config (mkConfigMetadata "" "" "") s'.2) as Hn.
    unfold noPanic, wp in Hn. destruct (buildPolicyChain _ _ _ _ _) as [w chain|?|]; [|done|done].
    split; [done|]. exists (d ++ [config])%list. split; [by rewrite <- app_assoc|].
    intros key. rewrite fmap_app, elem_of_app, <- Hk, lookup_insert_is_Some'. set_solver.
  - intros s' chains [Hs (d&->&Hk)]. by rewrite app_nil_r.
  - split; [done|]. exists []. split; [done|]. intros key. rewrite lookup_empty. split; [by intros []|]. set_solver.
Qed.

End Lemmas.

(** ** Chain building *)

Section ChainTheorems.
Context {W : Type} `{CEL} `{FmtScalar} `{MapRange}.

(** Flags that say what they should lead to a body mode under which no body
    policy is dropped. *)
Lemma chainFlagsOk_body_mode (chain : PolicyChain W) p :
  chainFlagsOk chain -> p ∈ pc_Policies chain ->
  (requestBodyPolicy p = true ->
     match determineRequestBodyMode chain with
     | KBodyModeSkip => False
     | KBodyModeBuffered => asRequestPolicy p <> None -> is_Some (requestBodyCallback p)
     | KBodyModeStreamed => is_Some (streamingRequestCallback p)
     end) /\
  (responseBodyPolicy p = true ->
     match determineResponseBodyMode chain with
     | KBodyModeSkip => False
     | KBodyModeBuffered => asResponsePolicy p <> None -> is_Some (responseBodyCallback p)
     | KBodyModeStreamed => is_Some (streamingResponseCallback p)
     end).
Proof.
  intros Hflags Hp.
  unfold determineRequestBodyMode, determineResponseBodyMode.
  rewrite (flag_requestBody _ Hflags), (flag_responseBody _ Hflags),
    (flag_requestStreaming _ Hflags), (flag_responseStreaming _ Hflags).
  split; intros Hbody.
  - destruct (existsb requestBodyPolicy _) eqn:He; simpl.
    2: { by rewrite (existsb_false_elem _ _ p He Hp) in Hbody. }
    destruct (forallb streamableRequest _) eqn:Hs.
    + apply streamableRequest_runs; [done|]. by eapply forallb_elem.
    + unfold requestBodyCallback. rewrite (activeBody_not_skip _ Hbody). destruct (asRequestPolicy p); [by eauto|done].
  - destruct (existsb responseBodyPolicy _) eqn:He; simpl.
    2: { by rewrite (existsb_false_elem _ _ p He Hp) in Hbody. }
    destruct (forallb streamableResponse _) eqn:Hs.
    + apply streamableResponse_runs; [done|]. by eapply forallb_elem.
    + unfold responseBodyCallback. rewrite (activeBody_not_skip _ Hbody). destruct (asResponsePolicy p); [by eauto|done].
Qed.

(** A built chain has one policy and one spec per configured policy, in
    order, each spec being the configured one with merged parameters, and its
    seven flags say what they document about those policies. *)
Theorem built_chain_is_consistent routeKey specs (reg : PolicyRegistry W) md w w' chain :
  BuildPolicyChain routeKey specs reg md w = Ok w' chain ->
  chainFlagsOk chain /\ length (pc_Policies chain) = length (pc_PolicySpecs chain) /\
  Forall2 sameButParams specs (pc_PolicySpecs chain).
Proof. exact (wp_Ok _ _ _ _ _ _ _ (BuildPolicyChain_wp routeKey specs reg md w)). Qed.

(** The body mode chosen for a built chain drops no body policy: in
    streamed mode every policy that declares a body mode is called by the
    streaming phase; in buffered mode every one that implements the buffered
    callback is called by the buffered phase; the body is skipped only when
    no policy declares a body mode. *)
Theorem body_mode_drops_no_policy routeKey specs (reg : PolicyRegistry W) md w w' chain p :
  BuildPolicyChain routeKey specs reg md w = Ok w' chain -> p ∈ pc_Policies chain ->
  (requestBodyPolicy p = true ->
     match determineRequestBodyMode chain with
     | KBodyModeSkip => False
     | KBodyModeBuffered => asRequestPolicy p <> None -> is_Some (requestBodyCallback p)
     | KBodyModeStreamed => is_Some (streamingRequestCallback p)
     end) /\
  (responseBodyPolicy p = true ->
     match determineResponseBodyMode chain with
     | KBodyModeSkip => False
     | KBodyModeBuffered => asResponsePolicy p <> None -> is_Some (responseBodyCallback p)
     | KBodyModeStreamed => is_Some (streamingResponseCallback p)
     end).
Proof.
  intros Hb Hp. destruct (wp_Ok _ _ _ _ _ _ _ (BuildPolicyChain_wp routeKey specs reg md w) Hb) as [Hflags _].
  by apply chainFlagsOk_body_mode.
Qed.

(** The file-based loader and kernel/body_mode.go build the same chain (same
    policies, specs and flags, same errors, same effect on the factories)
    from the same configuration. *)
Theorem builders_agree (reg : PolicyRegistry W) routeKey config cm w :
  buildPolicyChain reg routeKey config cm w =
  BuildPolicyChain routeKey (specOfInstance <$> cc_Policies config) reg
    (mkPolicyMetadata routeKey (cm_APIId cm) (cm_APIName cm) (cm_Version cm) "") w.
Proof.
  set (md := mkPolicyMetadata routeKey (cm_APIId cm) (cm_APIName cm) (cm_Version cm) "").
  unfold buildPolicyChain, BuildPolicyChain.
  cut (forall l i j st w, builderRel l st ->
    outcome_rel builderRel
      (for_range (fun _ pc l => l' ← loaderStep reg routeKey cm pc l; mret (Continue l')) i (cc_Policies config) l w)
      (for_range (fun _ spec st => st' ← buildStep routeKey md reg spec st; mret (Continue st')) j
         (specOfInstance <$> cc_Policies config) st w)).
  { intros Hc. unfold mbind, GoM_bind at 1 3.
    specialize (Hc (mkLoaderLocals [] [] false false false false false true true false false) 0 0
      (mkPolicyChain [] [] false false true true false false false, false, false) w eq_refl).
    destruct (for_range _ 0 (cc_Policies config) _ w), (for_range _ 0 (_ <$> _) _ w); simpl in Hc; try done.
    - destruct Hc as [-> ->]. done.
    - destruct Hc as [-> ->]. done. }
  induction (cc_Policies config) as [|pc pcs IH]; intros l i j st w0 Hrel; [by split|].
  rewrite fmap_cons. cbn [for_range].
  eapply outcome_rel_bind with (R := ctl_rel builderRel).
  - eapply outcome_rel_bind; [by apply builder_step_rel|]. intros a a' s Ha. by split.
  - intros [a|a] [a'|a'] s Ha; simpl in Ha; try done. by apply IH.
Qed.

(** Loading a configuration file is all or nothing: on any error (reading,
    validation, building) the kernel is unchanged; on success exactly the
    configured routes get a chain and all other routes keep theirs. *)
Theorem LoadFromFile_all_or_nothing (reg : PolicyRegistry W) file (s : Kernel W * W) :
  match LoadFromFile reg file s with
  | Ok s' _ => exists configs, file = inr configs /\
      RouteConfigs s'.1 = RouteConfigs s.1 /\ sensitiveValues s'.1 = sensitiveValues s.1 /\
      (forall key, key ∈ cc_RouteKey <$> configs -> is_Some (PolicyChains s'.1 !! key)) /\
      (forall key, key ∉ cc_RouteKey <$> configs -> PolicyChains s'.1 !! key = PolicyChains s.1 !! key)
  | Err s' _ => s'.1 = s.1
  | Panic => False
  end.
Proof.
  destruct file as [e|configs]; [done|]. unfold LoadFromFile, mbind, GoM_bind at 1. simpl.
  destruct (validateAll reg configs); [done|]. unfold GoM_bind.
  pose proof (buildAll_wp reg configs s) as Hb. unfold wp in Hb.
  destruct (buildAll reg configs s) as [s' chains|s' e|]; [|done|done].
  destruct Hb as [Hs Hk]. simpl. exists configs. split_and!; try done; try by rewrite Hs.
  - intros key Hkey. apply Hk in Hkey as [c Hc]. unfold map_copy_into. exists c. by apply lookup_union_Some_l.
  - intros key Hkey. unfold map_copy_into. rewrite Hs, lookup_union_r; [done|].
    destruct (chains !! key) eqn:E; [|done]. destruct Hkey. apply Hk. eauto.
Qed.

End ChainTheorems.

(** ** The kernel's tables *)

Section Tables.
Context {W : Type}.

(** Deduplication keeps the first occurrence of every value, in order,
    and nothing else. *)
Theorem deduplicateValues_spec (values : list string) :
  NoDup (deduplicateValues values) /\
  deduplicateValues values `sublist_of` values /\
  (forall v, v ∈ deduplicateValues values <-> v ∈ values).
Proof.
  destruct (foldl_dedup values ∅ []) as (more&Heq&Hnd&Hsub&Hel); [constructor|set_solver|].
  unfold deduplicateValues. rewrite Heq. simpl in *. split_and!; try done.
  intros v. rewrite Hel. set_solver.
Qed.

(** The updates a running gateway performs, most recent first. *)
Inductive kernelReach : list (gmap string (PolicyChain W) * list string) -> Kernel W -> Prop :=
| reach_new : kernelReach [] NewKernel
| reach_chains g k routes values :
    kernelReach g k ->
    kernelReach ((routes, values) :: g) (ApplyWholeRoutesAndSensitiveValues routes values k)
| reach_configs g k configs :
    kernelReach g k -> kernelReach g (ApplyWholeRouteConfigs configs k).

(** Whatever the interleaving of configuration updates, a configuration
    dump shows the chains and the sensitive values of one and the same
    update, the latest; updating the two in separate steps would let a dump
    show new chains with stale values. *)
Theorem dump_is_one_generation g (k : Kernel W) :
  kernelReach g k ->
  DumpRoutesAndSensitiveValues k
    = match g with [] => (∅, []) | (routes, values) :: _ => (routes, deduplicateValues values) end /\
  forall routes values,
    let mid := ApplyWholeRoutes routes k in
    DumpRoutesAndSensitiveValues mid = (routes, sensitiveValues k) /\
    DumpRoutesAndSensitiveValues (SetSensitiveValues values mid) = (routes, deduplicateValues values).
Proof.
  intros Hr. split.
  - unfold DumpRoutesAndSensitiveValues, map_copy_into.
    induction Hr as [|g k routes values _ _|g k configs _ IH]; simpl; [by rewrite (right_id_L ∅ (∪))..|done].
  - intros routes values mid. unfold DumpRoutesAndSensitiveValues, map_copy_into. simpl.
    by rewrite (right_id_L ∅ (∪)).
Qed.

End Tables.

(** ** Witnesses *)

#[local] Existing Instance keyCEL.
#[local] Existing Instance noFloats.

Definition constFactory (p : Policy unit) : PolicyFactory unit := fun _ _ w => (w, inr p).
Definition streamPolicy : Policy unit := streamer None None false.
Definition chainRegistry : PolicyRegistry unit :=
  mkPolicyRegistry
    {["stream:v1" := mkPolicyEntry (mkPolicyDefinition "stream" "v1.0.0" ∅ ∅) (constFactory streamPolicy);
      "set:v1" := mkPolicyEntry (mkPolicyDefinition "set" "v1.0.0" ∅ ∅) (constFactory (setter "x" "1"))]}
    (Some (mkConfigResolver (Some ∅) true)).
Definition noMetadata : PolicyMetadata := mkPolicyMetadata "" "" "" "" "".
Definition streamSpecs : list PolicySpec := [specOf "stream" true None; specOf "stream" false (Some "true")].

Lemma built_chain_is_consistent_witness :
  match BuildPolicyChain "r" streamSpecs chainRegistry noMetadata tt with
  | Ok _ chain => pc_HasExecutionConditions chain = true /\ length (pc_Policies chain) = length (pc_PolicySpecs chain)
  | _ => False
  end.
Proof.
  destruct (BuildPolicyChain _ _ _ _ _) as [w chain|w e|] eqn:E; [|vm_compute in E; discriminate E..].
  pose proof (built_chain_is_consistent _ _ _ _ _ _ _ E) as (Hf&Hlen&Hspecs).
  split; [|exact Hlen]. rewrite (flag_conditions _ Hf). revert Hspecs. unfold streamSpecs.
  intros (s1&l1&_&Hspecs&->)%Forall2_cons_inv_l. revert Hspecs.
  intros (s2&l2&Hs2&Hspecs&->)%Forall2_cons_inv_l. simpl.
  assert (hasCondition s2 = true) as ->; [|apply orb_true_r].
  destruct Hs2 as (_&_&_&He). unfold hasCondition. rewrite <- He. reflexivity.
Defined.

Lemma body_mode_drops_no_policy_witness :
  match BuildPolicyChain "r" streamSpecs chainRegistry noMetadata tt with
  | Ok _ chain => determineRequestBodyMode chain = KBodyModeStreamed /\ is_Some (streamingRequestCallback streamPolicy)
  | _ => False
  end.
Proof.
  destruct (BuildPolicyChain _ _ _ _ _) as [w chain|w e|] eqn:E; [|vm_compute in E; discriminate E..].
  pose proof (body_mode_drops_no_policy _ _ _ _ _ _ _ streamPolicy E) as Hb.
  vm_compute in E. injection E as <- <-. split; [reflexivity|].
  apply Hb; [apply list_elem_of_In; left; reflexivity|reflexivity].
Defined.

Lemma dump_is_one_generation_witness :
  DumpRoutesAndSensitiveValues
    (ApplyWholeRouteConfigs ∅ (ApplyWholeRoutesAndSensitiveValues (W := unit) ∅ ["s"; "t"; "s"] NewKernel)) = (∅, ["s"; "t"]).
Proof.
  refine (proj1 (dump_is_one_generation [(∅, ["s"; "t"; "s"])] _ _)).
  apply reach_configs, reach_chains, reach_new.
Defined.
