(* ===== verification/XdsTheorems.v ===== *)
(** * XdsTheorems: what a configuration update over xDS guarantees

    The reconciliation of policy chains never serves a stale chain: whatever
    the sequence of snapshots, every chain in the kernel was built from the
    latest snapshot's own configuration of its route.  An update that cannot
    be decoded changes nothing.  The stores of subscriptions, API keys and
    lazy resources are replaced by what the update carries. *)

From stdpp Require Import base gmap strings list fin_maps.
From S2P Require Import Prelude GoStrings Values NestedMap Sha256 ApiKeys ApiKeyTheorems Subscriptions WebhookSecrets LazyResources Sdk Registry QueryPath Executor ChainBuild ChainTheorems XdsHandlers.

#[local] Set Warnings "-register-all".

Open Scope string_scope.

Section Reconcile.
Context {W : Type} `{CEL} `{FmtScalar} `{MapRange} `{XdsCodec}.
Implicit Types (reg : PolicyRegistry W) (h : ResourceHandler W) (acc : Reconciled W).

Lemma handlerStep_noPanic reg rk md pc l w : noPanic (handlerStep reg rk md pc l) w.
Proof.
  unfold noPanic, wp, handlerStep.
  set (metadata := mkPolicyMetadata _ _ _ _ _).
  assert (GetInstance reg (pi_Name pc) (pi_Version pc) metadata (pi_Parameters pc) w <> Panic) as Hn.
  { unfold GetInstance. destruct (Policies_ reg !! _) as [entry|]; [|done]. destruct (ConfigResolver_ reg) as [cr|]; [|done].
    destruct (ResolveMap _ _); [done|]. by destruct (Factory entry _ _ w) as [w' [|]]. }
  by destruct (GetInstance _ _ _ _ _ w) as [w' [impl merged]|? ?|].
Qed.

Lemma xdsBuild_noPanic reg rk config md w : xdsBuildPolicyChain reg rk config md w <> Panic.
Proof.
  assert (noPanic (xdsBuildPolicyChain reg rk config md) w) as Hn; [|unfold noPanic, wp in Hn; intros E; by rewrite E in Hn].
  apply wp_bind. unfold wp. rewrite for_range_plain.
  apply (loop_wp _ (fun _ _ _ => True)); [|by intros; apply wp_ret|done].
  intros pc l loc s _. apply wp_bind. eapply wp_mono; [apply handlerStep_noPanic| |done|done]. intros. by apply wp_ret.
Qed.

(** The builder reads no more of a configuration than its signature covers. *)
Lemma xdsBuild_view reg rk c m c' m' w :
  viewOf c m = viewOf c' m' -> xdsBuildPolicyChain reg rk c m w = xdsBuildPolicyChain reg rk c' m' w.
Proof. intros [= Hk Hp Hi Hn Hv]. unfold xdsBuildPolicyChain, handlerStep. by rewrite Hp, Hi, Hn, Hv. Qed.

(** [chain] is a chain built from the configuration of its route. *)
Definition builtFrom reg (configs : list (ChainConfig * XdsMetadata)) (rk : string) (chain : PolicyChain W) : Prop :=
  exists config md w w', (config, md) ∈ configs /\ cc_RouteKey config = rk /\
    xdsBuildPolicyChain reg rk config md w = Ok w' chain.

(** An applied route carries the signature of the configuration its chain
    was built from. *)
Definition appliedFrom reg (configs : list (ChainConfig * XdsMetadata)) (rk : string) (a : appliedRoute W) : Prop :=
  exists config md w w', (config, md) ∈ configs /\ cc_RouteKey config = rk /\
    routeSignature config md = inr (ar_signature a) /\ xdsBuildPolicyChain reg rk config md w = Ok w' (ar_chain a).

(** No two of these configurations have the same signature and differ. *)
Definition noCollision (configs : list (ChainConfig * XdsMetadata)) : Prop :=
  forall c m c' m' s, (c, m) ∈ configs -> (c', m') ∈ configs ->
    routeSignature c m = inr s -> routeSignature c' m' = inr s -> viewOf c m = viewOf c' m'.

Definition reconciledOk reg (done_ : list (ChainConfig * XdsMetadata)) acc : Prop :=
  (forall rk chain, rec_chains acc !! rk = Some chain -> builtFrom reg done_ rk chain) /\
  (forall rk a, rec_nextApplied acc !! rk = Some a -> appliedFrom reg done_ rk a) /\
  (forall config md, (config, md) ∈ done_ ->
     is_Some (rec_chains acc !! cc_RouteKey config) \/
     exists w w' e, xdsBuildPolicyChain reg (cc_RouteKey config) config md w = Err w' e).

Lemma builtFrom_mono reg l l' rk chain : l ⊆ l' -> builtFrom reg l rk chain -> builtFrom reg l' rk chain.
Proof. intros Hl (c&m&w&w'&Hin&?&?). exists c, m, w, w'. split_and!; auto. Qed.

Lemma appliedFrom_mono reg l l' rk a : l ⊆ l' -> appliedFrom reg l rk a -> appliedFrom reg l' rk a.
Proof. intros Hl (c&m&w&w'&Hin&?&?&?). exists c, m, w, w'. split_and!; auto. Qed.

(** A chain built for [config], entered into the result. *)
Lemma reconciledOk_enter reg done_ config md acc w w' chain sig :
  reconciledOk reg done_ acc ->
  xdsBuildPolicyChain reg (cc_RouteKey config) config md w = Ok w' chain ->
  (forall s, sig = Some s -> routeSignature config md = inr s) ->
  reconciledOk reg (done_ ++ [(config, md)])%list
    (mkReconciled (<[cc_RouteKey config := chain]> (rec_chains acc))
       (match sig with
        | Some s => <[cc_RouteKey config := mkAppliedRoute s chain]> (rec_nextApplied acc)
        | None => rec_nextApplied acc
        end)).
Proof.
  intros (Hc&Ha&Hcomp) Hb Hs. assert (done_ ⊆ (done_ ++ [(config, md)])%list) as Hsub by set_solver. split_and!; simpl.
  - intros rk c. rewrite lookup_insert_Some. intros [[<- <-]|[_ Hrk]].
    + exists config, md, w, w'. split_and!; [set_solver|done|done].
    + eapply builtFrom_mono; eauto.
  - intros rk a Hrk. destruct sig as [s|]; [|eapply appliedFrom_mono; eauto].
    apply lookup_insert_Some in Hrk as [[<- <-]|[_ Hrk]]; [|eapply appliedFrom_mono; eauto].
    exists config, md, w, w'. split_and!; [set_solver|done|by apply Hs|done].
  - intros c m [Hin|Hin%list_elem_of_singleton]%elem_of_app.
    + destruct (Hcomp c m Hin) as [Hi|?]; [left|by right]. rewrite lookup_insert_is_Some'. tauto.
    + injection Hin as -> ->. left. rewrite lookup_insert_eq. eauto.
Qed.

Lemma rebuildRoute_ok reg done_ config md sig acc w :
  reconciledOk reg done_ acc -> (forall s, sig = Some s -> routeSignature config md = inr s) ->
  wp (rebuildRoute reg config md sig acc)
     (fun _ c => match c with Continue acc' => reconciledOk reg (done_ ++ [(config, md)])%list acc' | Break _ => False end)
     (fun _ _ => False) False w.
Proof.
  intros Hok Hs. unfold wp, rebuildRoute. pose proof (xdsBuild_noPanic reg (cc_RouteKey config) config md w) as Hn.
  destruct (xdsBuildPolicyChain _ _ _ _ w) as [w' chain|w' e|] eqn:Hb; [| |done].
  - eapply reconciledOk_enter; eauto.
  - destruct Hok as (Hc&Ha&Hcomp). assert (done_ ⊆ (done_ ++ [(config, md)])%list) as Hsub by set_solver. split_and!.
    + intros rk c Hrk. eapply builtFrom_mono; eauto.
    + intros rk a Hrk. eapply appliedFrom_mono; eauto.
    + intros c m [Hin|Hin%list_elem_of_singleton]%elem_of_app; [by apply Hcomp|].
      injection Hin as -> ->. right. by exists w, w', e.
Qed.

Lemma reconcileRoute_ok reg hist done_ last_ i config md acc w :
  (forall rk a, last_ !! rk = Some a -> appliedFrom reg hist rk a) ->
  noCollision (hist ++ [(config, md)])%list -> reconciledOk reg done_ acc ->
  wp (reconcileRoute reg last_ i (config, md) acc)
     (fun _ c => match c with Continue acc' => reconciledOk reg (done_ ++ [(config, md)])%list acc' | Break _ => False end)
     (fun _ _ => False) False w.
Proof.
  intros Hlast Hnc Hok. unfold reconcileRoute. destruct (routeSignature config md) as [e|sig] eqn:Hsig.
  - by apply rebuildRoute_ok.
  - destruct (last_ !! cc_RouteKey config) as [prev|] eqn:Hprev; [|apply rebuildRoute_ok; [done|by intros s [= <-]]].
    destruct (String.eqb_spec (ar_signature prev) sig) as [Heq|]; [|apply rebuildRoute_ok; [done|by intros s [= <-]]].
    apply wp_ret. destruct (Hlast _ _ Hprev) as (c0&m0&w0&w0'&Hin&Hrk&Hsig0&Hb).
    rewrite Heq in Hsig0. rewrite (xdsBuild_view _ _ c0 m0 config md) in Hb by (eapply Hnc; set_solver).
    replace prev with (mkAppliedRoute sig (ar_chain prev)) at 2 by (destruct prev; simpl in *; by subst).
    apply (reconciledOk_enter reg done_ config md acc w0 w0' (ar_chain prev) (Some sig)); [done|done|by intros s [= <-]].
Qed.

Lemma reconcile_ok reg hist last_ configs w :
  (forall rk a, last_ !! rk = Some a -> appliedFrom reg hist rk a) -> noCollision (hist ++ configs)%list ->
  wp (for_range (reconcileRoute reg last_) 0 configs (mkReconciled ∅ ∅))
     (fun _ acc => reconciledOk reg configs acc) (fun _ _ => False) False w.
Proof.
  intros Hlast Hnc.
  cut (forall l done_ i acc w, configs = (done_ ++ l)%list -> reconciledOk reg done_ acc ->
         wp (for_range (reconcileRoute reg last_) i l acc) (fun _ acc => reconciledOk reg configs acc) (fun _ _ => False) False w).
  { intros Hc. apply (Hc configs []); [done|]. split_and!; simpl; [intros ??; by rewrite lookup_empty..|by intros ?? ?%elem_of_nil]. }
  induction l as [|[config md] l IH]; intros done_ i acc w0 Hcfg Hok.
  { rewrite app_nil_r in Hcfg. subst. by apply wp_ret. }
  cbn [for_range]. apply wp_bind. eapply wp_mono; [apply (reconcileRoute_ok reg hist); [done| |done]| |done|done].
  - intros c m c' m' s Hx Hy. apply Hnc; subst; set_solver.
  - intros w1 [acc'|acc'] Hok'; [|done]. apply (IH (done_ ++ [(config, md)])%list); [by rewrite <- app_assoc|done].
Qed.

(** ** Sequences of snapshots *)

Definition configsOf reg (resources : list AnyResource) : list (ChainConfig * XdsMetadata) :=
  match parseResources reg resources with inr (configs, _) => configs | inl _ => [] end.

(** The handler after a sequence of snapshots; a rejected one leaves it as it
    is. *)
Definition afterUpdates reg (updates : list (list AnyResource)) h : ResourceHandler W :=
  foldl (fun h resources => stateAfter (HandlePolicyChainUpdate reg resources) h) h updates.

Definition historyOf reg (updates : list (list AnyResource)) : list (ChainConfig * XdsMetadata) :=
  concat (configsOf reg <$> updates).

Lemma HandlePolicyChainUpdate_ok reg hist h resources :
  (forall rk a, xh_lastApplied h !! rk = Some a -> appliedFrom reg hist rk a) ->
  noCollision (hist ++ configsOf reg resources)%list ->
  match HandlePolicyChainUpdate reg resources h with
  | Ok h' _ => exists configs sensitive acc, parseResources reg resources = inr (configs, sensitive) /\
      reconciledOk reg configs acc /\
      xh_kernel h' = ApplyWholeRoutesAndSensitiveValues (rec_chains acc) sensitive (xh_kernel h) /\
      xh_lastApplied h' = rec_nextApplied acc
  | Err h' e => h' = h /\ parseResources reg resources = inl e
  | Panic => False
  end.
Proof.
  intros Hlast Hnc. unfold HandlePolicyChainUpdate. unfold configsOf in Hnc.
  destruct (parseResources reg resources) as [e|[configs sensitive]]; [done|].
  pose proof (reconcile_ok reg hist (xh_lastApplied h) configs (xh_world h) Hlast Hnc) as Hr. unfold wp in Hr.
  destruct (for_range _ _ _ _ _) as [w acc|? ?|]; [|done|done]. exists configs, sensitive, acc. done.
Qed.

Lemma historyOf_snoc reg updates resources :
  historyOf reg (updates ++ [resources])%list = (historyOf reg updates ++ configsOf reg resources)%list.
Proof. unfold historyOf. rewrite fmap_app, concat_app. simpl. by rewrite app_nil_r. Qed.

Lemma afterUpdates_applied reg updates k w :
  noCollision (historyOf reg updates) ->
  forall rk a, xh_lastApplied (afterUpdates reg updates (NewResourceHandler k w)) !! rk = Some a ->
    appliedFrom reg (historyOf reg updates) rk a.
Proof.
  unfold afterUpdates. induction updates as [|resources updates IH] using rev_ind; intros Hnc rk a; [by simpl; rewrite lookup_empty|].
  rewrite foldl_snoc, historyOf_snoc in *. set (h := foldl _ _ updates) in *.
  assert (forall rk a, xh_lastApplied h !! rk = Some a -> appliedFrom reg (historyOf reg updates) rk a) as Hlast.
  { apply IH. intros c m c' m' s Hx Hy. apply Hnc; set_solver. }
  unfold stateAfter. pose proof (HandlePolicyChainUpdate_ok reg _ h resources Hlast Hnc) as Hu.
  destruct (HandlePolicyChainUpdate reg resources h) as [h' []|h' e|]; [| |done].
  - destruct Hu as (configs&sensitive&acc&Hp&(_&Ha&_)&_&->). intros Hrk. eapply appliedFrom_mono; [|by apply Ha].
    unfold configsOf. rewrite Hp. set_solver.
  - destruct Hu as [-> _]. intros Hrk. eapply appliedFrom_mono; [|by apply Hlast]. set_solver.
Qed.

(** C5: no stale chains: after any sequence of snapshots, once a snapshot is
    accepted the kernel holds chains for routes of that snapshot only, each
    built from the snapshot's own configuration of the route even when it was
    reused from an earlier one; every valid route of the snapshot has a chain
    unless one of its policies could not be created; and the sensitive values
    are the snapshot's.  The condition is that no two configurations of the
    history collide under SHA-256. *)
Theorem xds_chains_are_never_stale reg updates resources configs sensitive k w :
  noCollision (historyOf reg (updates ++ [resources])%list) ->
  parseResources reg resources = inr (configs, sensitive) ->
  let h := afterUpdates reg (updates ++ [resources])%list (NewResourceHandler k w) in
  (forall rk chain, GetPolicyChainForKey rk (xh_kernel h) = Some chain -> builtFrom reg configs rk chain) /\
  (forall config md, (config, md) ∈ configs ->
     is_Some (GetPolicyChainForKey (cc_RouteKey config) (xh_kernel h)) \/
     exists w w' e, xdsBuildPolicyChain reg (cc_RouteKey config) config md w = Err w' e) /\
  GetSensitiveValues (xh_kernel h) = deduplicateValues sensitive.
Proof.
  intros Hnc Hp h. rewrite historyOf_snoc in Hnc. unfold h, afterUpdates. rewrite foldl_snoc.
  set (h0 := foldl _ _ updates).
  assert (forall rk a, xh_lastApplied h0 !! rk = Some a -> appliedFrom reg (historyOf reg updates) rk a) as Hlast.
  { apply afterUpdates_applied. intros c m c' m' s Hx Hy. apply Hnc; set_solver. }
  unfold stateAfter. pose proof (HandlePolicyChainUpdate_ok reg _ h0 resources Hlast Hnc) as Hu.
  destruct (HandlePolicyChainUpdate reg resources h0) as [h' []|h' e|]; [| |done].
  - destruct Hu as (configs'&sensitive'&acc&Hp'&(Hc&_&Hcomp)&->&_). rewrite Hp in Hp'. injection Hp' as <- <-. done.
  - destruct Hu as [_ Hu]. congruence.
Qed.


(** *** Errors *)

Lemma reconcile_total reg last_ configs w :
  wp (for_range (reconcileRoute reg last_) 0 configs (mkReconciled ∅ ∅)) (fun _ _ => True) (fun _ _ => False) False w.
Proof.
  cut (forall l i acc w, wp (for_range (reconcileRoute reg last_) i l acc) (fun _ _ => True) (fun _ _ => False) False w); [auto|].
  induction l as [|[config md] l IH]; intros i acc w0; [done|]. cbn [for_range]. apply wp_bind.
  assert (forall sig, wp (rebuildRoute reg config md sig acc)
            (fun w' c => wp (match c with Continue r' => for_range (reconcileRoute reg last_) (S i) l r' | Break r' => mret r' end)
                           (fun _ _ => True) (fun _ _ => False) False w') (fun _ _ => False) False w0) as Hb.
  { intros sig. unfold wp at 1, rebuildRoute. pose proof (xdsBuild_noPanic reg (cc_RouteKey config) config md w0).
    destruct (xdsBuildPolicyChain _ _ _ _ w0); [apply IH|apply IH|done]. }
  unfold reconcileRoute at 1. destruct (routeSignature config md); [apply Hb|].
  destruct (last_ !! cc_RouteKey config) as [prev|]; [|apply Hb]. destruct (String.eqb _ _); [|apply Hb]. apply wp_ret, IH.
Qed.

Lemma xds_all_or_nothing reg resources h :
  match HandlePolicyChainUpdate reg resources h with
  | Ok h' _ => (exists p, parseResources reg resources = inr p) /\ RouteConfigs (xh_kernel h') = RouteConfigs (xh_kernel h)
  | Err h' e => h' = h /\ parseResources reg resources = inl e
  | Panic => False
  end /\
  match HandleRouteConfigUpdate resources h with
  | Ok h' _ => parseRouteConfigs resources ∅ = inr (RouteConfigs (xh_kernel h')) /\
      DumpRoutesAndSensitiveValues (xh_kernel h') = DumpRoutesAndSensitiveValues (xh_kernel h) /\
      xh_lastApplied h' = xh_lastApplied h /\ xh_world h' = xh_world h
  | Err h' e => h' = h /\ parseRouteConfigs resources ∅ = inl e
  | Panic => False
  end.
Proof.
  split.
  - unfold HandlePolicyChainUpdate. destruct (parseResources reg resources) as [e|[configs sensitive]]; [done|].
    pose proof (reconcile_total reg (xh_lastApplied h) configs (xh_world h)) as Hr. unfold wp in Hr.
    destruct (for_range _ _ _ _ _); [|done|done]. split; [eauto|done].
  - unfold HandleRouteConfigUpdate. by destruct (parseRouteConfigs resources ∅).
Qed.

(** C35: an update of policy chains or of route configurations is all or
    nothing: it fails exactly when a resource cannot be decoded, and then
    chains, route configurations, sensitive values, the record of applied
    routes and the factories are as before; it never panics; and the two
    kinds of update leave each other's table alone. *)
Theorem xds_updates_are_all_or_nothing reg resources h :
  match HandlePolicyChainUpdate reg resources h with
  | Ok h' _ => (exists p, parseResources reg resources = inr p) /\ RouteConfigs (xh_kernel h') = RouteConfigs (xh_kernel h)
  | Err h' e => h' = h /\ parseResources reg resources = inl e
  | Panic => False
  end /\
  match HandleRouteConfigUpdate resources h with
  | Ok h' _ => parseRouteConfigs resources ∅ = inr (RouteConfigs (xh_kernel h')) /\
      DumpRoutesAndSensitiveValues (xh_kernel h') = DumpRoutesAndSensitiveValues (xh_kernel h) /\
      xh_lastApplied h' = xh_lastApplied h /\ xh_world h' = xh_world h
  | Err h' e => h' = h /\ parseRouteConfigs resources ∅ = inl e
  | Panic => False
  end.
Proof. apply xds_all_or_nothing. Qed.

(** *** Unchanged snapshots *)

(** What a pass over signed routes with distinct keys records: a chain and
    its signature for every route that was built. *)
Definition recorded (done_ : list (ChainConfig * XdsMetadata)) acc : Prop :=
  (forall rk, rec_chains acc !! rk = ar_chain <$> rec_nextApplied acc !! rk) /\
  (forall rk a, rec_nextApplied acc !! rk = Some a ->
     exists c m, (c, m) ∈ done_ /\ cc_RouteKey c = rk /\ routeSignature c m = inr (ar_signature a)).

Lemma recorded_enter done_ config md acc s chain :
  recorded done_ acc -> routeSignature config md = inr s ->
  recorded (done_ ++ [(config, md)])%list
    (mkReconciled (<[cc_RouteKey config := chain]> (rec_chains acc))
       (<[cc_RouteKey config := mkAppliedRoute s chain]> (rec_nextApplied acc))).
Proof.
  intros [Hc Hs] Hsig. split; simpl.
  - intros rk. rewrite !lookup_insert. case_decide; [done|apply Hc].
  - intros rk a. rewrite lookup_insert_Some. intros [[<- <-]|[_ Ha]].
    + exists config, md. set_solver.
    + destruct (Hs _ _ Ha) as (c&m&?&?&?). exists c, m. set_solver.
Qed.

Lemma recorded_mono done_ x acc : recorded done_ acc -> recorded (done_ ++ [x])%list acc.
Proof. intros [Hc Hs]. split; [done|]. intros rk a Ha. destruct (Hs _ _ Ha) as (c&m&?&?&?). exists c, m. set_solver. Qed.

Lemma reconcile_recorded reg last_ configs w :
  (forall c m, (c, m) ∈ configs -> exists s, routeSignature c m = inr s) ->
  wp (for_range (reconcileRoute reg last_) 0 configs (mkReconciled ∅ ∅)) (fun _ acc => recorded configs acc)
     (fun _ _ => False) False w.
Proof.
  intros Hsigned.
  cut (forall l done_ i acc w, configs = (done_ ++ l)%list -> recorded done_ acc ->
         wp (for_range (reconcileRoute reg last_) i l acc) (fun _ acc => recorded configs acc) (fun _ _ => False) False w).
  { intros Hc. apply (Hc configs []); [done|]. split; simpl; intros *; by rewrite lookup_empty. }
  induction l as [|[config md] l IH]; intros done_ i acc w0 Hcfg Hok.
  { rewrite app_nil_r in Hcfg. subst. by apply wp_ret. }
  cbn [for_range]. apply wp_bind. destruct (Hsigned config md) as [s Hs]; [subst; set_solver|].
  assert (wp (rebuildRoute reg config md (Some s) acc)
            (fun w' c => wp (match c with Continue r' => for_range (reconcileRoute reg last_) (S i) l r' | Break r' => mret r' end)
                           (fun _ acc => recorded configs acc) (fun _ _ => False) False w') (fun _ _ => False) False w0) as Hb.
  { unfold wp at 1, rebuildRoute. pose proof (xdsBuild_noPanic reg (cc_RouteKey config) config md w0).
    destruct (xdsBuildPolicyChain _ _ _ _ w0); [| |done].
    - apply (IH (done_ ++ [(config, md)])%list); [by rewrite <- app_assoc|by apply recorded_enter].
    - apply (IH (done_ ++ [(config, md)])%list); [by rewrite <- app_assoc|by apply recorded_mono]. }
  unfold reconcileRoute at 1. rewrite Hs. destruct (last_ !! cc_RouteKey config) as [prev|]; [|done].
  destruct (String.eqb_spec (ar_signature prev) s) as [E|]; [|done]. apply wp_ret.
  apply (IH (done_ ++ [(config, md)])%list); [by rewrite <- app_assoc|].
  pose proof (recorded_enter done_ config md acc s (ar_chain prev) Hok Hs) as Hr. destruct prev as [ps pch]. simpl in *. by subst ps.
Qed.

(** Entering, for every route of a list, what a table records for it. *)
Definition enterAll (l : list (ChainConfig * XdsMetadata)) (table : gmap string (appliedRoute W)) acc : Reconciled W :=
  foldl (fun acc x => match table !! cc_RouteKey x.1 with
                      | Some a => mkReconciled (<[cc_RouteKey x.1 := ar_chain a]> (rec_chains acc)) (<[cc_RouteKey x.1 := a]> (rec_nextApplied acc))
                      | None => acc
                      end) acc l.

Lemma some_union_l {A} (a : A) (o : option A) : Some a ∪ o = Some a.
Proof. by destruct o. Qed.

Lemma enterAll_lookup l table acc rk :
  rec_nextApplied (enterAll l table acc) !! rk =
    (if decide (rk ∈ (fun x => cc_RouteKey x.1) <$> l) then table !! rk ∪ rec_nextApplied acc !! rk else rec_nextApplied acc !! rk) /\
  rec_chains (enterAll l table acc) !! rk =
    (if decide (rk ∈ (fun x => cc_RouteKey x.1) <$> l) then (ar_chain <$> table !! rk) ∪ rec_chains acc !! rk else rec_chains acc !! rk).
Proof.
  revert acc. induction l as [|x l IH]; intros acc; [by rewrite !decide_False by set_solver|].
  unfold enterAll in *. cbn [foldl]. destruct (IH (match table !! cc_RouteKey x.1 with
    | Some a => mkReconciled (<[cc_RouteKey x.1 := ar_chain a]> (rec_chains acc)) (<[cc_RouteKey x.1 := a]> (rec_nextApplied acc))
    | None => acc end)) as [-> ->]. clear IH. rewrite fmap_cons.
  destruct (decide (rk ∈ (fun x => cc_RouteKey x.1) <$> l)) as [Hin|Hin].
  - rewrite !(decide_True (P := rk ∈ _ :: _)) by set_solver. destruct (table !! rk) as [a|] eqn:E.
    + cbn [fmap option_fmap option_map]. by rewrite !some_union_l.
    + destruct (table !! cc_RouteKey x.1) as [a|] eqn:E'; [|done]. simpl. rewrite !lookup_insert_ne by congruence. done.
  - destruct (decide (rk = cc_RouteKey x.1)) as [->|Hne].
    + rewrite !decide_True by set_solver. destruct (table !! cc_RouteKey x.1) as [a|]; simpl; [by rewrite !lookup_insert_eq, !some_union_l|].
      by destruct (rec_nextApplied acc !! _), (rec_chains acc !! _).
    + rewrite !(decide_False (P := rk ∈ _ :: _)) by set_solver.
      destruct (table !! cc_RouteKey x.1); [|done]. simpl. by rewrite !lookup_insert_ne.
Qed.


(** Receiving the same snapshot again is free: if all its routes were
    built and signed and have different keys, the second pass reuses every
    chain, so that no policy is created again and the whole state is the
    same. *)
Theorem unchanged_snapshot_reuses_every_chain reg resources configs sensitive h h1 :
  parseResources reg resources = inr (configs, sensitive) ->
  NoDup ((fun x => cc_RouteKey x.1) <$> configs) ->
  (forall c m, (c, m) ∈ configs -> exists s, routeSignature c m = inr s) ->
  HandlePolicyChainUpdate reg resources h = Ok h1 tt ->
  (forall c m, (c, m) ∈ configs -> is_Some (GetPolicyChainForKey (cc_RouteKey c) (xh_kernel h1))) ->
  HandlePolicyChainUpdate reg resources h1 = Ok h1 tt.
Proof.
  intros Hp Hnd Hsigned Hu Hbuilt. unfold HandlePolicyChainUpdate in *. rewrite Hp in *.
  pose proof (reconcile_recorded reg (xh_lastApplied h) configs (xh_world h) Hsigned) as Hr. unfold wp in Hr.
  destruct (for_range _ 0 configs _ (xh_world h)) as [w acc|? ?|]; [|done|done]. destruct Hr as [Hc Hs]. injection Hu as <-.
  cbn [xh_kernel xh_world xh_lastApplied] in *.
  assert (forall c m, (c, m) ∈ configs -> exists a, rec_nextApplied acc !! cc_RouteKey c = Some a /\ routeSignature c m = inr (ar_signature a)) as Hprev.
  { intros c m Hin. destruct (Hbuilt c m Hin) as [chain Hch]. unfold GetPolicyChainForKey in Hch. cbn in Hch. rewrite Hc in Hch.
    destruct (rec_nextApplied acc !! cc_RouteKey c) as [a|] eqn:Ha; [|done]. exists a. split; [done|].
    destruct (Hs _ _ Ha) as (c'&m'&Hin'&Hk&Hsig). rewrite <- Hsig.
    pose proof (NoDup_fmap_elem_inj (fun x => cc_RouteKey x.1) configs (c, m) (c', m') Hnd Hin Hin' (eq_sym Hk)) as [= -> ->]. done. }
  rewrite (for_range_pure _ (fun r x => enterAll [x] (rec_nextApplied acc) r)).
  - assert (foldl (fun r x => enterAll [x] (rec_nextApplied acc) r) (mkReconciled ∅ ∅) configs
            = enterAll configs (rec_nextApplied acc) (mkReconciled ∅ ∅)) as -> by done.
    assert (enterAll configs (rec_nextApplied acc) (mkReconciled ∅ ∅) = acc) as ->; [|done].
    assert (forall rk, is_Some (rec_nextApplied acc !! rk) -> rk ∈ (fun x => cc_RouteKey x.1) <$> configs) as Hdom.
    { intros rk [a Ha]. destruct (Hs _ _ Ha) as (c&m&Hin&<-&_). apply list_elem_of_fmap. by exists (c, m). }
    destruct acc as [chains next]. destruct (enterAll configs _ _) as [chains' next'] eqn:E.
    assert (forall rk, next' !! rk = next !! rk /\ chains' !! rk = chains !! rk) as Hl.
    { intros rk. pose proof (enterAll_lookup configs next (mkReconciled ∅ ∅) rk) as [H1' H2']. cbn [rec_nextApplied] in E.
      rewrite E in H1', H2'. cbn [rec_nextApplied rec_chains] in *. rewrite H1', H2', Hc, lookup_empty, (lookup_empty (A := PolicyChain W)).
      case_decide as Hd; [by destruct (next !! rk)|]. destruct (next !! rk) eqn:Hn; [|done]. destruct Hd. eauto. }
    f_equal; apply map_eq; intros rk; by destruct (Hl rk).
  - intros i [c m] r Hin. unfold reconcileRoute. destruct (Hprev c m Hin) as (a&Ha&Hsig). rewrite Hsig, Ha, String.eqb_refl.
    unfold enterAll. cbn [foldl fst]. by rewrite Ha.
Qed.

End Reconcile.

(** ** The chains *)

Section Chains.
Context {W : Type} `{CEL} `{FmtScalar} `{MapRange} `{XdsCodec}.
Implicit Types (reg : PolicyRegistry W).

(** The local variables of the builder describe the policies met so far. *)
Definition localsOk (configs rest : list PolicyInstance) (_ : W) (l : LoaderLocals W) : Prop :=
  exists done_, configs = (done_ ++ rest)%list /\
  length (ll_policyList l) = length (ll_policySpecs l) /\
  Forall2 sameButParams (specOfInstance <$> done_) (ll_policySpecs l) /\
  ll_hasRequestBodyPolicy l = existsb requestBodyPolicy (ll_policyList l) /\
  ll_hasResponseBodyPolicy l = existsb responseBodyPolicy (ll_policyList l) /\
  ll_requiresRequestBody l = existsb requestBodyPolicy (ll_policyList l) /\
  ll_requiresResponseBody l = existsb responseBodyPolicy (ll_policyList l) /\
  ll_supportsRequestStreaming l = forallb streamableRequest (ll_policyList l) /\
  ll_supportsResponseStreaming l = forallb streamableResponse (ll_policyList l) /\
  ll_hasExecutionConditions l = existsb hasCondition (ll_policySpecs l) /\
  ll_requiresRequestHeader l = existsb requestHeaderPolicy (ll_policyList l) /\
  ll_requiresResponseHeader l = existsb responseHeaderPolicy (ll_policyList l).

Lemma header_flag_eq (p : Policy W) :
  String.eqb (RequestHeaderMode (Mode p)) HeaderModeProcess && bool_decide (is_Some (OnRequestHeaders p)) = requestHeaderPolicy p /\
  String.eqb (ResponseHeaderMode (Mode p)) HeaderModeProcess && bool_decide (is_Some (OnResponseHeaders p)) = responseHeaderPolicy p.
Proof.
  unfold requestHeaderPolicy, responseHeaderPolicy, requestHeaderCallback, responseHeaderCallback.
  destruct (OnRequestHeaders p), (OnResponseHeaders p), (String.eqb (RequestHeaderMode _) _), (String.eqb (ResponseHeaderMode _) _); done.
Qed.

Lemma localsOk_add configs pc rest impl merged w w' l :
  localsOk configs (pc :: rest) w l -> localsOk configs rest w' (addInstance pc impl merged l).
Proof.
  intros (d&->&Hlen&Hspecs&H1'&H2'&H3'&H4'&H5'&H6'&H7'&H8'&H9'). exists (d ++ [pc])%list. unfold addInstance.
  cbn [ll_policyList ll_policySpecs ll_requiresRequestBody ll_requiresResponseBody ll_hasExecutionConditions ll_requiresRequestHeader
       ll_requiresResponseHeader ll_supportsRequestStreaming ll_supportsResponseStreaming ll_hasRequestBodyPolicy ll_hasResponseBodyPolicy].
  destruct (header_flag_eq impl) as [-> ->].
  rewrite !existsb_app, !forallb_app, !length_app, !not_streamable_eq, Hlen, H1', H2', H3', H4', H5', H6', H7', H8', H9'.
  cbn [existsb forallb length]. rewrite !orb_false_r, !andb_true_r. split_and!; try done.
  - by rewrite <- app_assoc.
  - rewrite fmap_app. apply Forall2_app; [done|]. by constructor.
Qed.

Lemma xdsBuild_consistent reg rk config md w :
  wp (xdsBuildPolicyChain reg rk config md)
     (fun _ chain => chainFlagsOk chain /\ length (pc_Policies chain) = length (pc_PolicySpecs chain) /\
        Forall2 sameButParams (specOfInstance <$> cc_Policies config) (pc_PolicySpecs chain)) (fun _ _ => True) True w.
Proof.
  apply wp_bind. unfold wp. rewrite for_range_plain.
  apply (wp_mono _ (fun w l => localsOk (cc_Policies config) [] w l) _ (fun _ _ => True) _ True); [| |done|done].
  - apply loop_wp with (I := localsOk (cc_Policies config)); [|done|by exists []].
    intros pc l loc w0 HI. apply wp_bind. unfold wp, handlerStep. destruct (GetInstance _ _ _ _ _ _) as [w' [impl merged]|?|]; [|done|done].
    by eapply localsOk_add.
  - intros w' l (d&Hd&Hlen&Hspecs&H1'&H2'&H3'&H4'&H5'&H6'&H7'&H8'&H9'). rewrite app_nil_r in Hd. rewrite <- Hd in Hspecs.
    apply wp_ret. split; [|done]. split; simpl; try done.
    + rewrite H1', H5'. by destruct (existsb requestBodyPolicy _).
    + rewrite H2', H6'. by destruct (existsb responseBodyPolicy _).
Qed.

(** A chain the gateway serves, that is one built from an xDS snapshot,
    has one policy and one spec per configured policy, in order, each spec
    being the configured one with merged parameters; its seven flags say what
    they document about those policies; and the body mode derived from them
    skips a body only if no policy declares a body mode, and streams it only
    if every policy that does can be streamed. *)
Theorem served_chains_are_consistent reg rk config md w w' chain :
  xdsBuildPolicyChain reg rk config md w = Ok w' chain ->
  chainFlagsOk chain /\ length (pc_Policies chain) = length (pc_PolicySpecs chain) /\
  Forall2 sameButParams (specOfInstance <$> cc_Policies config) (pc_PolicySpecs chain) /\
  forall p, p ∈ pc_Policies chain ->
    (requestBodyPolicy p = true ->
       match determineRequestBodyMode chain with
       | KBodyModeSkip => False
       | KBodyModeBuffered => asRequestPolicy p <> None -> is_Some (requestBodyCallback p)
       | KBodyModeStreamed => is_Some (streamingRequestCallback p)
       end) /\
    (responseBodyPolicy p = true ->
       match determineResponseBodyMode chain with
       | KBodyModeSkip => False
       | KBodyModeBuffered => asResponsePolicy p <> None -> is_Some (responseBodyCallback p)
       | KBodyModeStreamed => is_Some (streamingResponseCallback p)
       end).
Proof.
  intros Hb. destruct (wp_Ok _ _ _ _ _ _ _ (xdsBuild_consistent reg rk config md w) Hb) as (Hf&Hlen&Hspecs).
  split_and!; [done..|]. intros p Hp. by apply chainFlagsOk_body_mode.
Qed.

End Chains.

(** ** The stores *)

Section Stores.
Context `{MapRange} `{XdsCodec}.

Lemma allSubscriptionsOf_elem l subs : allSubscriptionsOf l = inr subs ->
  forall d, d ∈ subs <-> exists name r ds, (name, r) ∈ l /\ decodeSubscriptions name r = inr ds /\ d ∈ ds.
Proof.
  revert subs. induction l as [|[name r] l IH]; intros subs; cbn [allSubscriptionsOf].
  { intros [= <-] d. split; [by intros ?%elem_of_nil|]. by intros (?&?&?&?%elem_of_nil&_). }
  destruct (decodeSubscriptions name r) as [e|ds] eqn:Ed; [done|]. destruct (allSubscriptionsOf l) as [e|rest]; [done|].
  intros [= <-] d. rewrite elem_of_app, (IH rest eq_refl d). setoid_rewrite elem_of_cons. split.
  - intros [Hd|(n&r'&ds'&?&?&?)]; [exists name, r, ds; by split_and!; [left| |]|exists n, r', ds'; auto].
  - intros (n&r'&ds'&[[= -> ->]|Hin]&Hds&Hd); [left; congruence|right; eauto 6].
Qed.

(** A snapshot of subscriptions is applied as a whole or not at all: if a
    resource is nil, has another type or cannot be decoded the store is as
    before; otherwise it holds the subscriptions of all the resources
    together, and of none when there is no resource. *)
Theorem subscription_snapshot_is_atomic resources s :
  match HandleSubscriptionState resources (Some s) with
  | Ok s' _ => exists subs, s' = Some (Subscriptions.ReplaceAll subs s) /\
      forall d, d ∈ subs <-> exists name r ds, resources !! name = Some r /\ decodeSubscriptions name r = inr ds /\ d ∈ ds
  | Err s' _ => s' = Some s
  | Panic => False
  end.
Proof.
  unfold HandleSubscriptionState. case_decide as Hs.
  - apply map_size_empty_inv in Hs as ->. exists []. split; [done|]. intros d. setoid_rewrite lookup_empty.
    split; [by intros ?%elem_of_nil|]. by intros (?&?&?&?&_).
  - destruct (allSubscriptionsOf (range resources)) as [e|subs] eqn:E; [done|]. exists subs. split; [done|].
    intros d. rewrite (allSubscriptionsOf_elem _ _ E). by setoid_rewrite elem_of_range.
Qed.

Definition storeOps (l : list APIKeyData) : list KeyOp := (fun d => KOStore (kd_APIId d) (keyOfData d)) <$> l.

Lemma storeData_run d s : keysOk s ->
  let '(t, e) := tableStore (kd_APIId d) (keyOfData d) (keyTable s) in
  match storeData (kd_APIId d) d s with
  | Ok s' _ => e = None /\ keyTable s' = t /\ keysOk s'
  | Err s' err => e = Some err /\ keyTable s' = t /\ keysOk s'
  | Panic => False
  end.
Proof.
  intros Hok. destruct (key_op_refines (KOStore (kd_APIId d) (keyOfData d)) s Hok) as [Ht Hok'].
  unfold runKeyOp in *. fold (storeData (kd_APIId d) d) in *. cbn [tableOp] in Ht. rewrite <- Ht.
  destruct (storeData (kd_APIId d) d s) as [s' []|s' e|] eqn:E; cbn [outcomeOf fst snd] in *; try done.
  exfalso. revert Ht. unfold tableStore. destruct (String.eqb _ _); [by intros [= ?]|]. by destruct (othersOf _ _ _ !! _).
Qed.

(** Every key of the list is accepted by the table of those before it. *)
Definition allAccepted (keys : list APIKeyData) : Prop := forall pre d post,
  keys = (pre ++ d :: post)%list -> (tableStore (kd_APIId d) (keyOfData d) (tableOps (storeOps pre) ∅)).2 = None.

(** The table when a key of the list is refused. *)
Definition refusedAt (keys : list APIKeyData) (t : KeyTable) : Prop := exists pre d post err,
  keys = (pre ++ d :: post)%list /\ tableStore (kd_APIId d) (keyOfData d) (tableOps (storeOps pre) ∅) = (t, Some err).

Lemma tableOps_snoc pre d :
  tableOps (storeOps (pre ++ [d])%list) ∅ = (tableStore (kd_APIId d) (keyOfData d) (tableOps (storeOps pre) ∅)).1.
Proof. unfold storeOps, tableOps. by rewrite fmap_app, foldl_app. Qed.

Lemma allAccepted_snoc pre d :
  allAccepted pre -> (tableStore (kd_APIId d) (keyOfData d) (tableOps (storeOps pre) ∅)).2 = None -> allAccepted (pre ++ [d])%list.
Proof.
  intros Ha Hd p d' q Hk. destruct q as [|x q _] using rev_ind.
  - apply app_inj_tail in Hk as [<- <-]. done.
  - rewrite app_comm_cons, app_assoc in Hk. apply app_inj_tail in Hk as [-> _]. by eapply Ha.
Qed.

Lemma storeLoop l : forall pre i s1,
  keysOk s1 -> keyTable s1 = tableOps (storeOps pre) ∅ -> allAccepted pre ->
  match for_range (fun _ d _ => wrapErr (fun e => "failed to store API key " +:+ kd_ID d +:+ ": " +:+ e) (storeData (kd_APIId d) d);;
                                mret (Continue tt)) i l tt s1 with
  | Ok s' _ => keyTable s' = tableOps (storeOps (pre ++ l)%list) ∅ /\ allAccepted (pre ++ l)%list
  | Err s' _ => refusedAt (pre ++ l)%list (keyTable s')
  | Panic => False
  end.
Proof.
  induction l as [|d l IH]; intros pre i s1 Hok1 Ht1 Ha; [by rewrite app_nil_r|].
  cbn [for_range]. unfold mbind, GoM_bind, wrapErr. fold (GoM_bind (S := APIkeyStore)). unfold mbind, GoM_bind.
  pose proof (storeData_run d s1 Hok1) as Hst. rewrite Ht1 in Hst.
  destruct (tableStore (kd_APIId d) (keyOfData d) (tableOps (storeOps pre) ∅)) as [t e] eqn:Et.
  destruct (storeData (kd_APIId d) d s1) as [s2 []|s2 err|]; [| |done]; destruct Hst as (->&Ht2&Hok2).
  - specialize (IH (pre ++ [d])%list (S i) s2 Hok2). rewrite <- app_assoc in IH. apply IH.
    + by rewrite tableOps_snoc, Et.
    + apply allAccepted_snoc; [done|]. by rewrite Et.
  - exists pre, d, l, err. split; [done|]. by rewrite Et, Ht2.
Qed.

(** A snapshot of API keys replaces the table: if every key is accepted
    the store represents the table of the snapshot's keys and nothing else;
    if one is refused the keys before it have already replaced the old table,
    and the resource is acknowledged all the same. *)
Theorem key_snapshot_replaces_table ops keys name r :
  any_TypeUrl r = APIKeyStateTypeURL -> DecodeAPIKeyStateResource r = inr keys ->
  match HandleAPIKeyOperation {[name := r]} (runKeyOps ops NewAPIkeyStore) with
  | Ok s' _ => (keyTable s' = tableOps (storeOps keys) ∅ /\ allAccepted keys) \/ refusedAt keys (keyTable s')
  | _ => False
  end.
Proof.
  intros Hty Hdec. destruct (key_ops_refine ops _ keysOk_new) as [_ Hok]. set (s := runKeyOps ops NewAPIkeyStore) in *.
  unfold HandleAPIKeyOperation.
  assert (range ({[name := r]} : gmap string AnyResource) = [(name, r)]) as ->.
  { apply Permutation_singleton_r. rewrite range_perm, map_to_list_singleton. done. }
  cbn [for_range]. rewrite Hty, String.eqb_refl. cbn [negb]. rewrite Hdec. unfold mbind, GoM_bind, wrapErr, lift_err, mret, GoM_ret, logged.
  unfold replaceAllAPIKeys, mbind, GoM_bind at 1.
  destruct (key_op_refines KOClearAll s Hok) as [_ Hcok]. change (keysOk (set_keys s ∅)) in Hcok. cbn [ApiKeys.ClearAll].
  pose proof (storeLoop keys [] 0 (set_keys s ∅) Hcok) as Hl. cbn [app] in Hl.
  assert (keyTable (set_keys s ∅) = tableOps (storeOps []) ∅) as Hct by (unfold keyTable; simpl; by rewrite fmap_empty).
  specialize (Hl Hct). match type of Hl with ?P -> _ => assert P as Hnil by (intros [] ? ?; discriminate) end.
  specialize (Hl Hnil). unfold mbind, wrapErr, mret, GoM_ret in Hl. unfold GoM_bind in Hl.
  destruct (for_range _ 0 keys tt (set_keys s ∅)) as [s' u|s' e|]; auto.
Qed.

End Stores.

(** ** Concrete updates *)

#[local] Existing Instance keyCEL.
#[local] Existing Instance noFloats.
#[local] Existing Instance MapRange_list.

Definition sampleInstance : PolicyInstance := mkPolicyInstance "set" "v1" true None ∅.
Definition sampleRoute : ChainConfig := mkChainConfig "GET|/orders|*" [sampleInstance].
Definition sampleXdsMetadata : XdsMetadata := mkXdsMetadata 1 2 3 "id" "orders" "v1.0" "/orders".
Definition sampleKeyData : APIKeyData := mkAPIKeyData "1" "blue" "d1" "orders" "" "" "*" "active" 0 "admin" 0 None "local" None "ALL".

(** Messages are bytes; every resource holds the same configuration. *)
Definition sampleCodec : XdsCodec := {|
  PbStruct := bytes;
  unmarshalAny b := inr (mkAny "" b);
  unmarshalStruct b := inr b;
  marshalStruct b := inr b;
  marshalAsMap b := inr b;
  jsonStoredConfig _ := inr (mkStoredPolicyConfig "s" [sampleRoute] sampleXdsMetadata 1 (Some ["secret"]));
  jsonRouteConfig _ := inr ∅;
  jsonAPIKeyState _ := inr [sampleKeyData];
  jsonSubscriptionState _ := inr [];
  jsonLazyResourceState _ := inr [];
  jsonView v := inr (v_RouteKey v)
|}.
#[local] Existing Instance sampleCodec.

Definition sampleSnapshot : list AnyResource := [mkAny PolicyChainTypeURL []].
Definition sampleHandler : ResourceHandler unit := NewResourceHandler NewKernel tt.

Lemma xds_chains_are_never_stale_witness :
  let h := afterUpdates chainRegistry [sampleSnapshot; sampleSnapshot] sampleHandler in
  (forall rk chain, GetPolicyChainForKey rk (xh_kernel h) = Some chain ->
     builtFrom chainRegistry [(sampleRoute, sampleXdsMetadata)] rk chain) /\
  GetSensitiveValues (xh_kernel h) = ["secret"].
Proof.
  destruct (xds_chains_are_never_stale chainRegistry [sampleSnapshot] sampleSnapshot [(sampleRoute, sampleXdsMetadata)] ["secret"]
              NewKernel tt) as (Hc&_&Hs).
  - intros c m c' m' s Hx Hy _ _.
    assert (historyOf chainRegistry ([sampleSnapshot] ++ [sampleSnapshot]) = [(sampleRoute, sampleXdsMetadata); (sampleRoute, sampleXdsMetadata)]) as E
      by (vm_compute; reflexivity).
    rewrite E in Hx, Hy. apply list_elem_of_In in Hx, Hy.
    destruct Hx as [[= <- <-]|[[= <- <-]|[]]], Hy as [[= <- <-]|[[= <- <-]|[]]]; reflexivity.
  - vm_compute. reflexivity.
  - split; [exact Hc|exact Hs].
Defined.

Lemma unchanged_snapshot_reuses_every_chain_witness :
  let h1 := afterUpdates chainRegistry [sampleSnapshot] sampleHandler in
  HandlePolicyChainUpdate chainRegistry sampleSnapshot h1 = Ok h1 tt.
Proof.
  apply (unchanged_snapshot_reuses_every_chain chainRegistry sampleSnapshot [(sampleRoute, sampleXdsMetadata)] ["secret"] sampleHandler).
  - vm_compute. reflexivity.
  - apply NoDup_singleton.
  - intros c m Hin. apply list_elem_of_In in Hin. destruct Hin as [[= <- <-]|[]]. eexists. reflexivity.
  - vm_compute. reflexivity.
  - intros c m Hin. apply list_elem_of_In in Hin. destruct Hin as [[= <- <-]|[]]. vm_compute. eexists. reflexivity.
Defined.

Lemma served_chains_are_consistent_witness :
  match xdsBuildPolicyChain chainRegistry "GET|/orders|*" sampleRoute sampleXdsMetadata tt with
  | Ok _ chain => chainFlagsOk chain /\ length (pc_Policies chain) = 1
  | _ => False
  end.
Proof.
  destruct (xdsBuildPolicyChain _ _ _ _ _) as [w chain|w e|] eqn:E; [|vm_compute in E; discriminate E..].
  destruct (served_chains_are_consistent _ _ _ _ _ _ _ E) as (Hf&_). split; [exact Hf|].
  vm_compute in E. injection E as <- <-. reflexivity.
Defined.

Lemma key_snapshot_replaces_table_witness :
  match HandleAPIKeyOperation {["keys" := mkAny APIKeyStateTypeURL []]} (runKeyOps sampleOps NewAPIkeyStore) with
  | Ok s' _ => (keyTable s' = tableOps (storeOps [sampleKeyData]) ∅ /\ allAccepted [sampleKeyData]) \/ refusedAt [sampleKeyData] (keyTable s')
  | _ => False
  end.
Proof. exact (key_snapshot_replaces_table sampleOps [sampleKeyData] "keys" (mkAny APIKeyStateTypeURL []) eq_refl eq_refl). Defined.
