(* ===== verification/XdsClientTheorems.v ===== *)
(** * XdsClientTheorems: the connection to the control plane

    The stream: every response is answered, in order, with the version of its
    type that is in force, and no response makes the client panic.  The delay
    between attempts follows its formula as long as it fits the machine.  The
    life cycle: no connection outlives the goroutine, and a cancelled client
    finishes within a bounded number of steps. *)

From stdpp Require Import base gmap strings list fin_maps relations.
From S2P Require Import Prelude GoStrings Values NestedMap Sha256 ApiKeys ApiKeyTheorems Subscriptions WebhookSecrets LazyResources Sdk Registry QueryPath Executor ChainBuild ChainTheorems XdsHandlers XdsClient XdsTheorems.

#[local] Set Warnings "-register-all".

Open Scope string_scope.

(** ** Computations that never panic *)

Definition neverPanics {S A} (m : GoM S A) : Prop := forall s, m s <> Panic.

Create HintDb nopanic.

Section NoPanic.
Context {S : Type}.

Lemma neverPanics_ret {A} (a : A) : neverPanics (S := S) (mret a).
Proof. by intros ?. Qed.
Lemma neverPanics_fail {A} e : neverPanics (S := S) (A := A) (fail e).
Proof. by intros ?. Qed.
Lemma neverPanics_get : neverPanics (S := S) get.
Proof. by intros ?. Qed.
Lemma neverPanics_put (s : S) : neverPanics (put s).
Proof. by intros ?. Qed.
Lemma neverPanics_modify (f : S -> S) : neverPanics (modify f).
Proof. by intros ?. Qed.
Lemma neverPanics_lift {A} (r : string + A) : neverPanics (S := S) (lift_err r).
Proof. by destruct r; intros ?. Qed.
Lemma neverPanics_wrap {A} w (m : GoM S A) : neverPanics m -> neverPanics (wrapErr w m).
Proof. intros Hm s. unfold wrapErr. specialize (Hm s). by destruct (m s). Qed.
Lemma neverPanics_logged {A} (m : GoM S A) : neverPanics m -> neverPanics (logged m).
Proof. intros Hm s. unfold logged. specialize (Hm s). by destruct (m s). Qed.
Lemma neverPanics_bind {A B} (m : GoM S A) (k : A -> GoM S B) :
  neverPanics m -> (forall a, neverPanics (k a)) -> neverPanics (m ≫= k).
Proof. intros Hm Hk s. unfold mbind, GoM_bind. specialize (Hm s). destruct (m s); [apply Hk|done|done]. Qed.
Lemma neverPanics_for {A R} (body : nat -> A -> R -> GoM S (Ctl R)) l :
  (forall i x r, neverPanics (body i x r)) -> forall i r, neverPanics (for_range body i l r).
Proof.
  intros Hb. induction l as [|x l IH]; intros i r; [apply neverPanics_ret|]. cbn [for_range].
  apply neverPanics_bind; [apply Hb|]. intros []; [apply IH|apply neverPanics_ret].
Qed.
Lemma neverPanics_ok {A} (f : S -> S) (g : S -> A) : neverPanics (fun s => Ok (f s) (g s)).
Proof. by intros ?. Qed.
End NoPanic.

#[export] Hint Resolve neverPanics_ret neverPanics_fail neverPanics_get neverPanics_put neverPanics_modify
  neverPanics_lift neverPanics_wrap neverPanics_logged neverPanics_bind neverPanics_for neverPanics_ok : nopanic.

(** Case analysis on the conditions of a body, then the hints. *)
Ltac no_panic := repeat first
  [ progress (eauto 3 with nopanic)
  | apply neverPanics_bind | apply neverPanics_wrap | apply neverPanics_logged | apply neverPanics_for
  | match goal with
    | |- forall _, _ => intros ?
    | |- context [match ?x with _ => _ end] => destruct x
    end ].

Section Handlers.
Context {W : Type} `{CEL} `{FmtScalar} `{MapRange} `{XdsCodec}.

Lemma storeData_noPanic api d : neverPanics (storeData api d).
Proof. apply neverPanics_bind; [by intros s|]. intros p. unfold StoreAPIKey. no_panic. Qed.

Lemma HandleAPIKeyOperation_noPanic resources : neverPanics (HandleAPIKeyOperation resources).
Proof.
  pose proof storeData_noPanic. unfold HandleAPIKeyOperation, replaceAllAPIKeys. no_panic.
Qed.

Lemma HandleLazyResourceUpdate_noPanic resources : neverPanics (HandleLazyResourceUpdate resources).
Proof. unfold HandleLazyResourceUpdate, replaceAllLazyResources. no_panic. Qed.

Lemma HandleSubscriptionState_noPanic resources : neverPanics (HandleSubscriptionState resources).
Proof.
  intros s. unfold HandleSubscriptionState. case_decide; [by destruct s|].
  destruct (allSubscriptionsOf _); [done|]. by destruct s.
Qed.

Lemma HandlePolicyChainUpdate_noPanic (reg : PolicyRegistry W) resources : neverPanics (HandlePolicyChainUpdate reg resources).
Proof.
  intros h. unfold HandlePolicyChainUpdate. destruct (parseResources reg resources) as [e|[configs sensitive]]; [done|].
  pose proof (reconcile_total reg (xh_lastApplied h) configs (xh_world h)) as Hr. unfold wp in Hr.
  by destruct (for_range _ _ _ _ _).
Qed.

Lemma handle_noPanic (reg : PolicyRegistry W) resp : neverPanics (handleDiscoveryResponse reg resp).
Proof.
  unfold handleDiscoveryResponse. repeat case_match; intros e.
  - unfold onHandler. pose proof (HandlePolicyChainUpdate_noPanic reg (dr_Resources resp) (en_handler e)). by destruct (HandlePolicyChainUpdate _ _ _).
  - unfold onKeys. pose proof (HandleAPIKeyOperation_noPanic (resourceMap id (dr_Resources resp)) (en_keys e)).
    by destruct (HandleAPIKeyOperation _ _).
  - unfold onLazy. pose proof (HandleLazyResourceUpdate_noPanic (resourceMap id (dr_Resources resp)) (en_lazy e)).
    by destruct (HandleLazyResourceUpdate _ _).
  - unfold onSubs. pose proof (HandleSubscriptionState_noPanic (resourceMap Some (dr_Resources resp)) (en_subs e)).
    by destruct (HandleSubscriptionState _ _).
  - unfold onHandler, HandleRouteConfigUpdate. by destruct (parseRouteConfigs _ _).
  - done.
Qed.
End Handlers.

(** ** The stream *)

Section Stream.
Context {W : Type} `{CEL} `{FmtScalar} `{MapRange} `{XdsCodec}.
Context (send : list DiscoveryRequest -> DiscoveryRequest -> string + unit).
Implicit Types (reg : PolicyRegistry W) (c : Client W) (e : Engine W) (vs : gmap string string).

(** The subscriber a response is meant for: the configuration in force, and
    for every type the version it came with. *)
Definition subscriberStep reg (resp : DiscoveryResponse) '(e, vs) : Engine W * gmap string string :=
  match handleDiscoveryResponse reg resp e with
  | Ok e' _ => (e', <[dr_TypeUrl resp := dr_VersionInfo resp]> vs)
  | Err e' _ => (e', vs)
  | Panic => (e, vs)
  end.

Definition subscriberAfter reg (resps : list DiscoveryResponse) (sub : Engine W * gmap string string) :
    Engine W * gmap string string := foldl (fun s r => subscriberStep reg r s) sub resps.

(** The answer to a response repeats its type and nonce and carries the
    version in force once it has been handled. *)
Definition answerTo (resp : DiscoveryResponse) (after : Engine W * gmap string string) : DiscoveryRequest :=
  mkDiscoveryRequest (dr_TypeUrl resp) (default "" (after.2 !! dr_TypeUrl resp)) (dr_Nonce resp).

Fixpoint answers reg (resps : list DiscoveryResponse) (sub : Engine W * gmap string string) : list DiscoveryRequest :=
  match resps with
  | [] => []
  | r :: resps' => let sub' := subscriberStep reg r sub in answerTo r sub' :: answers reg resps' sub'
  end.

Definition represents c (sub : Engine W * gmap string string) : Prop :=
  cl_engine c = sub.1 /\ forall t, versionFor t c = default "" (sub.2 !! t).

(** The subscriber a client stands for. *)
Definition subscriberOf c : Engine W * gmap string string :=
  (cl_engine c, list_to_map ((fun t => (t, versionFor t c)) <$>
     [PolicyChainTypeURL; APIKeyStateTypeURL; LazyResourceTypeURL; SubscriptionStateTypeURL; RouteConfigTypeURL])).

Lemma represents_self c : represents c (subscriberOf c).
Proof.
  split; [done|]. intros t. unfold subscriberOf. cbn [snd].
  change (versionFor t c = default "" ((<[PolicyChainTypeURL := versionFor PolicyChainTypeURL c]>
    (<[APIKeyStateTypeURL := versionFor APIKeyStateTypeURL c]> (<[LazyResourceTypeURL := versionFor LazyResourceTypeURL c]>
    (<[SubscriptionStateTypeURL := versionFor SubscriptionStateTypeURL c]>
    (<[RouteConfigTypeURL := versionFor RouteConfigTypeURL c]> (∅ : gmap string string)))))) !! t)).
  repeat (rewrite lookup_insert; case_decide as Hd; [by subst|apply not_eq_sym, String.eqb_neq in Hd; revert Hd]).
  rewrite lookup_empty. unfold versionFor. by intros -> -> -> -> ->.
Qed.

(** Only the five types are ever accepted. *)
Lemma accepted_type reg resp e e' u : handleDiscoveryResponse reg resp e = Ok e' u ->
  dr_TypeUrl resp ∈ [PolicyChainTypeURL; APIKeyStateTypeURL; LazyResourceTypeURL; SubscriptionStateTypeURL; RouteConfigTypeURL].
Proof.
  unfold handleDiscoveryResponse.
  repeat (match goal with |- context [String.eqb ?a ?b] => destruct (String.eqb_spec a b) as [E|_] end;
    [intros _; rewrite E; clear; set_solver|]). by intros [=].
Qed.

Lemma versionFor_record reg resp c e' u t : handleDiscoveryResponse reg resp (cl_engine c) = Ok e' u ->
  versionFor t (recordVersion resp (set_engine e' c)) =
    (if decide (dr_TypeUrl resp = t) then dr_VersionInfo resp else versionFor t c).
Proof.
  intros Hty%accepted_type. unfold versionFor, recordVersion, set_engine. cbn.
  case_decide as Hd.
  - subst t. rewrite !elem_of_cons in Hty.
    destruct Hty as [E|[E|[E|[E|[E|E%elem_of_nil]]]]]; [by rewrite E..|done].
  - assert (forall url, t = url -> String.eqb (dr_TypeUrl resp) url = false) as Hne by (intros url ->; by apply String.eqb_neq).
    repeat (match goal with |- context [String.eqb t ?b] => destruct (String.eqb_spec t b) as [Et|_] end; [by rewrite (Hne _ Et)|]).
    done.
Qed.

(** Sending an answer, whatever it is called in an error. *)
Lemma send_answer wrap typeURL v nonce c : cl_stream c = true ->
  let req := mkDiscoveryRequest typeURL v nonce in
  match wrapErr wrap (sendDiscoveryRequestForType send typeURL v nonce) c with
  | Ok c' _ => send (cl_sent c) req = inr tt /\ cl_sent c' = (cl_sent c ++ [req])%list /\
      cl_stream c' = true /\ cl_engine c' = cl_engine c /\ forall t, versionFor t c' = versionFor t c
  | Err c' _ => (exists err, send (cl_sent c) req = inl err) /\ c' = c
  | Panic => False
  end.
Proof.
  intros Hs req. unfold wrapErr, sendDiscoveryRequestForType, mbind, GoM_bind, get. rewrite Hs. cbn [negb].
  unfold wrapErr, streamSend. fold req. destruct (send (cl_sent c) req) as [err|[]] eqn:E; [by eauto|done].
Qed.

(** One response. *)
Lemma processResponse_spec reg resp c sub : cl_stream c = true -> represents c sub ->
  let sub' := subscriberStep reg resp sub in
  match processResponse send reg resp c with
  | Ok c' _ => send (cl_sent c) (answerTo resp sub') = inr tt /\
      cl_sent c' = (cl_sent c ++ [answerTo resp sub'])%list /\ cl_stream c' = true /\ represents c' sub'
  | Err c' _ => (exists err, send (cl_sent c) (answerTo resp sub') = inl err) /\ cl_sent c' = cl_sent c /\ represents c' sub'
  | Panic => False
  end.
Proof.
  destruct sub as [e vs]. intros Hs [He Hv]. cbn [fst snd] in He, Hv. intros sub'. subst sub'. unfold processResponse, subscriberStep.
  rewrite <- He. pose proof (handle_noPanic reg resp (cl_engine c)) as Hn.
  destruct (handleDiscoveryResponse reg resp (cl_engine c)) as [e' u|e' err|] eqn:E; [| |done].
  - unfold answerTo. cbn [snd]. rewrite lookup_insert_eq. cbn [default].
    assert (represents (recordVersion resp (set_engine e' c)) (e', <[dr_TypeUrl resp := dr_VersionInfo resp]> vs)) as Hr.
    { split; [done|]. intros t. rewrite (versionFor_record _ _ _ _ _ _ E). cbn [snd]. rewrite lookup_insert. by case_decide. }
    pose proof (send_answer (fun err => "failed to send ACK: " +:+ err) (dr_TypeUrl resp) (dr_VersionInfo resp) (dr_Nonce resp)
                  (recordVersion resp (set_engine e' c)) Hs) as Hw. cbn zeta in Hw.
    destruct (wrapErr _ _ _) as [c' []|c' err|]; [|destruct Hw as [? ->]; split; eauto|done].
    destruct Hw as (?&?&?&Hen&Hve). split_and!; auto. destruct Hr as [Hre Hr]. split; [by rewrite Hen|]. intros t. by rewrite Hve, Hr.
  - unfold answerTo. cbn [snd].
    assert (represents (set_engine e' c) (e', vs)) as Hr by (split; [done|exact Hv]).
    pose proof (send_answer (fun err => "failed to send NACK: " +:+ err) (dr_TypeUrl resp) (versionFor (dr_TypeUrl resp) (set_engine e' c))
                  (dr_Nonce resp) (set_engine e' c) Hs) as Hw. cbn zeta in Hw.
    destruct Hr as [Hre Hrv]. cbn [fst snd] in Hre, Hrv. rewrite Hrv in Hw |- *.
    destruct (wrapErr _ _ _) as [c' []|c' err'|]; [|destruct Hw as [? ->]; split; [eauto|split; [done|by split]]|done].
    destruct Hw as (?&?&?&Hen&Hve). split_and!; auto. split; [by rewrite Hen|]. intros t. by rewrite Hve, Hrv.
Qed.

(** C31: the client refines a subscriber that keeps, for every type, the
    version of the last response of that type it accepted.  Every response is
    answered exactly once and in order, with its own type and nonce and the
    version then in force: its own when it was accepted, the previous one when
    it was rejected.  On a stream that is read until the server closes it,
    the loop ends only then or when an answer cannot be sent; nothing makes it panic, and the configuration and
    versions the client is left with are those of the subscriber. *)
Theorem every_response_is_answered reg resps c : cl_stream c = true ->
  match processStream send reg (Response <$> resps) c with
  | Err c' err => exists n k,
      cl_sent c' = (cl_sent c ++ take n (answers reg resps (subscriberOf c)))%list /\
      represents c' (subscriberAfter reg (take k resps) (subscriberOf c)) /\
      (n = length resps /\ k = n /\ err = "EOF" \/
       n < length resps /\ k = S n /\
       exists req msg, answers reg resps (subscriberOf c) !! n = Some req /\ send (cl_sent c') req = inl msg)
  | _ => False
  end.
Proof.
  generalize (represents_self c). generalize (subscriberOf c) as sub. intros sub Hrep Hs. revert c sub Hrep Hs.
  induction resps as [|r resps IH]; intros c sub Hrep Hs.
  { exists 0, 0. split; [by rewrite app_nil_r|]. split; [done|]. by left. }
  cbn [fmap list_fmap processStream]. unfold mbind, GoM_bind at 1.
  pose proof (processResponse_spec reg r c sub Hs Hrep) as Hr. cbn zeta in Hr. cbn [answers].
  destruct (processResponse send reg r c) as [c1 []|c1 err|]; [| |done].
  - destruct Hr as (_&Hsent&Hs1&Hrep1). specialize (IH c1 _ Hrep1 Hs1).
    change (list_fmap _ _ Response resps) with (Response <$> resps).
    destruct (processStream send reg (Response <$> resps) c1) as [|c' err|]; [done| |done].
    destruct IH as (n&k&Hse&Hre&Hend). exists (S n), (S k). rewrite Hsent in Hse. split; [by rewrite Hse, <- app_assoc|].
    split; [done|]. cbn [length]. destruct Hend as [(->&->&->)|(Hn&->&Hend)]; [by left|right]. split; [lia|]. by split.
  - destruct Hr as ((e&He)&Hsent&Hrep1). exists 0, 1. cbn [length]. split; [by rewrite app_nil_r|]. split; [done|].
    right. split; [lia|]. split; [done|]. rewrite Hsent. by eauto.
Qed.

(** A loop that fails at its only element before it changed anything. *)
Lemma range_short {A} (f : AnyResource -> A) (l : list AnyResource) :
  length l <= 1 -> range (resourceMap f l) = [] \/ exists name r, range (resourceMap f l) = [(name, r)].
Proof.
  destruct l as [|r [|]]; cbn [length]; [left|right|lia].
  - apply Permutation_nil_r. rewrite range_perm. change (resourceMap f []) with (∅ : gmap string A). by rewrite map_to_list_empty.
  - exists ("resource_" +:+ Itoa 0), (f r). apply Permutation_singleton_r. rewrite range_perm.
    change (resourceMap f [r]) with ({["resource_" +:+ Itoa 0 := f r]} : gmap string A). by rewrite map_to_list_singleton.
Qed.

Lemma rejected_keys resources s s' err : length resources <= 1 ->
  HandleAPIKeyOperation (resourceMap id resources) s = Err s' err -> s' = s.
Proof.
  intros Hl. unfold HandleAPIKeyOperation.
  destruct (range_short id resources Hl) as [->|(name&r&->)]; [by intros [=]|].
  cbn [for_range]. destruct (negb _); [by intros [=]|]. unfold mbind, GoM_bind, wrapErr, logged.
  destruct (DecodeAPIKeyStateResource r) as [e|keys]; cbn [lift_err]; [by intros [= <-]|]. unfold mret, GoM_ret.
  by destruct (replaceAllAPIKeys keys s).
Qed.

Lemma rejected_lazy resources s s' err : length resources <= 1 ->
  HandleLazyResourceUpdate (resourceMap id resources) s = Err s' err -> s' = s.
Proof.
  intros Hl. unfold HandleLazyResourceUpdate.
  destruct (range_short id resources Hl) as [->|(name&r&->)]; [by intros [=]|].
  cbn [for_range]. destruct (negb _); [by intros [=]|]. unfold mbind, GoM_bind.
  destruct (decodeWrapped _ _ _ _ _ r) as [e|state]; cbn [lift_err]; [by intros [= <-]|]. done.
Qed.

(** A rejected update leaves the configuration in force.  For policy
    chains, route configurations and subscriptions this holds whatever the
    response carries; for API keys and lazy resources, which are applied
    resource by resource, when it carries at most one, as the control plane's
    snapshots do.  An unknown type is always rejected. *)
Theorem rejected_update_changes_nothing reg resp e e' err :
  handleDiscoveryResponse reg resp e = Err e' err ->
  (dr_TypeUrl resp = APIKeyStateTypeURL \/ dr_TypeUrl resp = LazyResourceTypeURL -> length (dr_Resources resp) <= 1) ->
  e' = e.
Proof.
  intros He Hl. destruct e as [h ks subs lz]. revert He. unfold handleDiscoveryResponse.
  destruct (String.eqb_spec (dr_TypeUrl resp) PolicyChainTypeURL) as [_|_].
  { unfold onHandler. pose proof (xds_all_or_nothing reg (dr_Resources resp) h) as [Hx _]. cbn [en_handler].
    destruct (HandlePolicyChainUpdate _ _ _) as [|h' x|]; [done| |done]. intros [= <- _]. by destruct Hx as [-> _]. }
  destruct (String.eqb_spec (dr_TypeUrl resp) APIKeyStateTypeURL) as [Et|_].
  { unfold onKeys. cbn [en_keys]. destruct (HandleAPIKeyOperation _ _) as [|k' x|] eqn:E; [done| |done]. intros [= <- _].
    apply rejected_keys in E; [by subst|auto]. }
  destruct (String.eqb_spec (dr_TypeUrl resp) LazyResourceTypeURL) as [Et|_].
  { unfold onLazy. cbn [en_lazy]. destruct (HandleLazyResourceUpdate _ _) as [|k' x|] eqn:E; [done| |done]. intros [= <- _].
    apply rejected_lazy in E; [by subst|auto]. }
  destruct (String.eqb_spec (dr_TypeUrl resp) SubscriptionStateTypeURL) as [_|_].
  { unfold onSubs, HandleSubscriptionState. cbn [en_subs]. case_decide; [|destruct (allSubscriptionsOf _)];
      destruct subs as [?|]; by intros [= <- _]. }
  destruct (String.eqb_spec (dr_TypeUrl resp) RouteConfigTypeURL) as [_|_].
  { unfold onHandler, HandleRouteConfigUpdate. cbn [en_handler]. destruct (parseRouteConfigs _ _); by intros [= <- _]. }
  by intros [= <- _].
Qed.

(** The subscriptions sent on a new stream carry the versions already
    accepted, except that of the route configurations, which is empty. *)
Lemma initial_requests versionInfo c : cl_stream c = true -> (forall sent req, send sent req = inr tt) ->
  exists c', sendDiscoveryRequest send versionInfo "" c = Ok c' tt /\
    cl_sent c' = (cl_sent c ++ [mkDiscoveryRequest PolicyChainTypeURL (policyChainVersion c) "";
      mkDiscoveryRequest APIKeyStateTypeURL (apiKeyVersion c) ""; mkDiscoveryRequest LazyResourceTypeURL (lazyResourceVersion c) "";
      mkDiscoveryRequest SubscriptionStateTypeURL (subscriptionStateVersion c) ""; mkDiscoveryRequest RouteConfigTypeURL "" ""])%list.
Proof.
  intros Hs Hok. unfold sendDiscoveryRequest, mbind, GoM_bind, get, wrapErr, streamSend. rewrite Hs. cbn [negb]. rewrite !Hok.
  cbn [cl_sent]. eexists. split; [reflexivity|]. cbn. by rewrite <- !app_assoc.
Qed.

End Stream.

(** ** The delay between attempts *)

Section Backoff.
Context `{FloatToInt} (config : Config).

Lemma delayAfter_count n : forall rm, delayAfter config n rm =
  Z.min (backoff config (rm_reconnectCount rm + Z.of_nat n)) (cfg_MaxReconnectDelay config).
Proof.
  induction n as [|n IH]; intros rm; cbn [delayAfter].
  - unfold NextDelay. cbn [snd]. rewrite Z.add_0_r. destruct (Z.ltb_spec (cfg_MaxReconnectDelay config) (backoff config (rm_reconnectCount rm))); lia.
  - rewrite IH. cbn [NextDelay fst rm_reconnectCount]. do 2 f_equal. lia.
Qed.

Lemma int_to_float_exact z : (0 <= z < 2 ^ 53)%Z -> int_to_float z = (z, 0%Z).
Proof.
  intros Hz. unfold int_to_float. rewrite Z.abs_eq by lia.
  assert (Z.log2 z <= 52)%Z as Hl.
  { destruct (decide (z = 0)%Z) as [->|]; [done|]. apply Z.lt_succ_r, Z.log2_lt_pow2; simpl; lia. }
  destruct (Z.leb_spec (Z.log2 z - 52) 0); [done|lia].
Qed.

(** C39: with a valid configuration the delay before the next attempt after
    [n] failures in a row is the initial delay doubled [n] times, capped at
    the maximum, and it is positive; this holds as long as the doubled delay
    is below [2^63] nanoseconds, that is for 33 failures with the default
    configuration, and the initial delay is below [2^53] nanoseconds, so that
    its conversion to a float is exact. *)
Theorem backoff_follows_formula n :
  Validate config = None -> (cfg_InitialReconnectDelay config < 2 ^ 53)%Z ->
  (cfg_InitialReconnectDelay config * 2 ^ Z.of_nat n < 2 ^ 63)%Z ->
  let d := delayAfter config n (NewReconnectManager config) in
  d = Z.min (cfg_InitialReconnectDelay config * 2 ^ Z.of_nat n) (cfg_MaxReconnectDelay config) /\ (0 < d)%Z.
Proof.
  intros Hv Hi Hb. unfold Validate in Hv. repeat case_match; try discriminate;
  repeat match goal with Hb : (_ <=? 0)%Z = false |- _ => apply Z.leb_gt in Hb end;
  (rewrite delayAfter_count; cbn [NewReconnectManager rm_reconnectCount]; rewrite Z.add_0_l; unfold backoff;
   rewrite int_to_float_exact by lia; rewrite Z.add_0_l;
   assert (0 < 2 ^ Z.of_nat n)%Z by (apply Z.pow_pos_nonneg; lia);
   replace (in_int64 _) with true by (symmetry; apply in_int64_iff; unfold int64_min, int64_max; nia);
   split; [done|nia]).
Qed.

End Backoff.

(** On amd64 a float that does not fit becomes the least [int64]: from the
    35th failure on the delay is negative, so there is no pause at all. *)
Theorem backoff_overflows n addr :
  delayAfter (H := {| outOfRange _ := int64_min |}) (NewDefaultConfig addr) (34 + n) (NewReconnectManager (NewDefaultConfig addr)) = int64_min.
Proof.
  rewrite delayAfter_count. cbn [NewReconnectManager rm_reconnectCount]. unfold backoff. cbn [cfg_InitialReconnectDelay NewDefaultConfig].
  rewrite int_to_float_exact by (unfold second; lia).
  assert (1 * second * 2 ^ 34 <= 1 * second * 2 ^ (0 + (0 + Z.of_nat (34 + n))))%Z as Hp.
  { apply Z.mul_le_mono_nonneg_l; [unfold second; lia|]. apply Z.pow_le_mono_r; lia. }
  replace (in_int64 _) with false; [done|]. symmetry. apply not_true_iff_false. rewrite in_int64_iff.
  unfold int64_max, second in *. lia.
Qed.

Lemma backoff_follows_formula_witness :
  Validate (NewDefaultConfig "controller:18000") = None /\
  (delayAfter (H := {| outOfRange _ := int64_min |}) (NewDefaultConfig "controller:18000") 3 (NewReconnectManager (NewDefaultConfig "controller:18000")) = 8 * second)%Z /\
  (delayAfter (H := {| outOfRange _ := int64_min |}) (NewDefaultConfig "controller:18000") 33 (NewReconnectManager (NewDefaultConfig "controller:18000")) = 60 * second)%Z.
Proof.
  split; [reflexivity|]. split;
  [apply (@backoff_follows_formula {| outOfRange _ := int64_min |} (NewDefaultConfig "controller:18000") 3)
  |apply (@backoff_follows_formula {| outOfRange _ := int64_min |} (NewDefaultConfig "controller:18000") 33)]; reflexivity.
Defined.

(** ** The life cycle *)

(** A step of the life cycle, case by case. *)
Ltac life_cases Hstep := destruct Hstep as [Hstep|[Hstep|Hstep]]; inversion Hstep; subst; clear Hstep; simpl in *.

Definition holdsConn (r : RunPc) : bool :=
  match r with ROpenStream | RSetConnected | RSubscribe | RReceive | RCloseConn => true | _ => false end.

(** What every reachable state satisfies. *)
Definition lifeOk (l : Life) : Prop :=
  (li_conn l = true -> holdsConn (li_run l) = true) /\
  (li_cancelled l = true <-> li_stop l = SCloseConn \/ li_stop l = SDone) /\
  (li_run l = RDone -> li_cancelled l = true).

Lemma lifeOk_step l l' : lifeOk l -> lifeStep l l' -> lifeOk l'.
Proof.
  intros (Hc&Hs&Hd) Hstep. unfold lifeOk. life_cases Hstep; try (naive_solver; fail).
  all: split; [by destruct conn; auto|]; naive_solver.
Qed.

Lemma lifeOk_reachable l : rtc lifeStep startLife l -> lifeOk l.
Proof. intros Hr. apply (rtc_ind_r (R := lifeStep) lifeOk startLife); [split_and!; naive_solver|eauto using lifeOk_step|done]. Qed.

(** No connection outlives the goroutine: whatever the interleaving of
    [run], [Stop] and the transport, the client holds a connection only while
    a stream is being set up or read, the goroutine ends only after [Stop]
    cancelled it, and then no connection is open. *)
Theorem no_connection_outlives_run l : rtc lifeStep startLife l ->
  (li_conn l = true -> holdsConn (li_run l) = true) /\
  (li_run l = RDone -> (li_stop l = SCloseConn \/ li_stop l = SDone) /\ li_conn l = false).
Proof.
  intros (Hc&Hs&Hd)%lifeOk_reachable. split; [done|]. intros Hr. split; [by apply Hs, Hd|].
  destruct (li_conn l); [|done]. rewrite Hr in Hc. by specialize (Hc eq_refl).
Qed.

(** Steps left to a goroutine whose context is cancelled. *)
Definition runRank (r : RunPc) : nat :=
  match r with
  | RDone => 0 | RTop | RSelect | RAfter => 1 | RWait | RCloseConn => 2 | RSetReconnecting | RReceive => 3
  | RSubscribe => 4 | RSetConnected => 5 | ROpenStream => 6 | RSetConn => 7 | RDial => 8 | RSetConnecting => 9
  end.

Definition stopRank (s : StopPc) : nat :=
  match s with SIdle => 4 | SSetStopped => 3 | SCancel => 2 | SCloseConn => 1 | SDone => 0 end.

Definition lifeRank (l : Life) : nat := runRank (li_run l) + stopRank (li_stop l) + li_buffered l.

Lemma cancelled_step l l' : li_cancelled l = true -> lifeStep l l' -> li_cancelled l' = true /\ lifeRank l' < lifeRank l.
Proof. intros Hc Hstep. unfold lifeRank. life_cases Hstep; try discriminate; (split; [done|lia]). Qed.

(** On a healthy connection without messages the goroutine waits in [Recv]
    until it is cancelled. *)
Lemma idle_receiver_waits s st n l' : ~ runStep (mkLife RReceive s st false true n 0 false) l'.
Proof. by inversion 1. Qed.

(** C37: cancellation ends the client: once the context is cancelled at most
    thirteen steps and one for each message the transport still holds remain,
    whatever the interleaving, and as long as the goroutine has not ended it
    can take a step, even where it waits on a connection that stays healthy
    and silent; no step is blocked by [Stop]. *)
Theorem cancelled_client_finishes l n l' : li_cancelled l = true -> nsteps lifeStep n l l' ->
  n + lifeRank l' <= lifeRank l /\ lifeRank l <= 13 + li_buffered l /\
  (li_run l' <> RDone -> exists l'', runStep l' l'' /\ lifeRank l'' < lifeRank l').
Proof.
  intros Hc Hn. split_and!.
  - induction Hn as [l|n l l1 l' Hstep Hn IH]; [done|]. destruct (cancelled_step _ _ Hc Hstep) as [Hc1 Hr]. specialize (IH Hc1). lia.
  - unfold lifeRank. destruct (li_run l), (li_stop l); simpl; lia.
  - assert (li_cancelled l' = true) as Hc'.
    { induction Hn as [l|n l l1 l' Hstep Hn IH]; [done|]. apply IH. by apply (cancelled_step l). }
    intros Hd. cut (exists l'', runStep l' l'').
    { intros [l'' Hr]. exists l''. split; [done|]. apply (cancelled_step l'); [done|by left]. }
    destruct l' as [r s st ca conn f b br]. simpl in *. subst ca. destruct r; try done; eexists; constructor; reflexivity.
Qed.

Definition lifeReceiving : Life := mkLife RReceive SCloseConn StateStopped true true 0 1 false.
Lemma cancelled_client_finishes_witness :
  li_cancelled lifeReceiving = true /\ exists l', nsteps lifeStep 4 lifeReceiving l' /\ li_run l' = RDone /\ 4 + lifeRank l' <= lifeRank lifeReceiving.
Proof.
  split; [reflexivity|].
  assert (nsteps lifeStep 4 lifeReceiving (mkLife RDone SCloseConn StateStopped true false 0 0 false)) as Hn.
  { eapply nsteps_l; [left; apply run_receive|]. eapply nsteps_l; [left; apply run_receive_err; reflexivity|].
    eapply nsteps_l; [left; apply run_close|]. eapply nsteps_l; [left; apply run_after_stop|apply nsteps_O]. }
  eexists. split; [exact Hn|]. split; [reflexivity|]. apply (cancelled_client_finishes lifeReceiving 4 _ eq_refl Hn).
Defined.

Definition lifeEnd (st : ClientState) : Life := mkLife RDone SDone st true false 0 0 false.
Lemma stop_while_idle : rtc lifeStep startLife (lifeEnd StateStopped).
Proof.
  eapply rtc_l; [right; left; apply stop_call|]. eapply rtc_l; [right; left; apply stop_state|].
  eapply rtc_l; [right; left; apply stop_cancel|]. eapply rtc_l; [right; left; apply stop_close|].
  eapply rtc_l; [left; apply run_top_stop|]. apply rtc_refl.
Defined.

Lemma no_connection_outlives_run_witness : rtc lifeStep startLife (lifeEnd StateStopped) /\ li_conn (lifeEnd StateStopped) = false.
Proof.
  split; [exact stop_while_idle|]. apply (no_connection_outlives_run (lifeEnd StateStopped) stop_while_idle). reflexivity.
Defined.

(** [Stop]'s state can be overwritten: the goroutine sets its own without
    looking at it, and a client that has ended reports that it is connecting. *)
Theorem stopped_state_can_be_overwritten : rtc lifeStep startLife (lifeEnd StateConnecting).
Proof.
  eapply rtc_l; [left; apply run_top|]. eapply rtc_l; [right; left; apply stop_call|].
  eapply rtc_l; [right; left; apply stop_state|]. eapply rtc_l; [left; apply run_connecting|].
  eapply rtc_l; [right; left; apply stop_cancel|]. eapply rtc_l; [right; left; apply stop_close|].
  eapply rtc_l; [left; apply run_dial_err|]. eapply rtc_l; [left; apply run_after_stop|]. apply rtc_refl.
Qed.

(** [Wait] returns once [Stop] is done, when the goroutine may still be
    running and even have opened a connection since. *)
Theorem wait_returns_before_run_ends : exists l, rtc lifeStep startLife l /\ li_stop l = SDone /\ li_run l <> RDone /\ li_conn l = true.
Proof.
  exists (mkLife ROpenStream SDone StateStopped true true 0 0 false). split; [|done].
  eapply rtc_l; [left; apply run_top|]. eapply rtc_l; [left; apply run_connecting|]. eapply rtc_l; [left; apply run_dial|].
  eapply rtc_l; [right; left; apply stop_call|]. eapply rtc_l; [right; left; apply stop_state|].
  eapply rtc_l; [right; left; apply stop_cancel|]. eapply rtc_l; [right; left; apply stop_close|].
  eapply rtc_l; [left; apply run_conn|]. apply rtc_refl.
Qed.

(** ** A concrete stream *)

#[local] Existing Instance keyCEL.
#[local] Existing Instance noFloats.
#[local] Existing Instance MapRange_list.
#[local] Existing Instance sampleCodec.

Definition sampleEngine : Engine unit := mkEngine sampleHandler NewAPIkeyStore (Some NewSubscriptionStore) NewLazyResourceStore.
Definition sampleClient : Client unit := mkClient true "" "" "" "" "" "" sampleEngine [].
Definition sampleResponses : list DiscoveryResponse :=
  [mkDiscoveryResponse SubscriptionStateTypeURL "4" "a" []; mkDiscoveryResponse "type.example/Other" "5" "b" [];
   mkDiscoveryResponse SubscriptionStateTypeURL "6" "c" [mkAny "type.example/Other" []]].

(** The third response is rejected: the answer repeats version 4. *)
Example sample_answers : answers chainRegistry sampleResponses (subscriberOf sampleClient) =
  [mkDiscoveryRequest SubscriptionStateTypeURL "4" "a"; mkDiscoveryRequest "type.example/Other" "" "b";
   mkDiscoveryRequest SubscriptionStateTypeURL "4" "c"].
Proof. vm_compute. reflexivity. Qed.

Definition sendAll (_ : list DiscoveryRequest) (_ : DiscoveryRequest) : string + unit := inr tt.

Lemma every_response_is_answered_witness :
  match processStream sendAll chainRegistry (Response <$> sampleResponses) sampleClient with
  | Err c' _ => cl_sent c' = answers chainRegistry sampleResponses (subscriberOf sampleClient)
  | _ => False
  end.
Proof.
  pose proof (every_response_is_answered sendAll chainRegistry sampleResponses sampleClient eq_refl) as Hx.
  destruct (processStream _ _ _ _) as [|c' err|]; [exact Hx| |exact Hx].
  destruct Hx as (n&k&Hs&_&[(->&_&_)|(_&_&?&?&_&Hf)]); [|discriminate Hf]. rewrite Hs. reflexivity.
Defined.

Lemma rejected_update_changes_nothing_witness :
  exists err, handleDiscoveryResponse chainRegistry (mkDiscoveryResponse SubscriptionStateTypeURL "6" "c" [mkAny "type.example/Other" []])
                sampleEngine = Err sampleEngine err.
Proof.
  destruct (handleDiscoveryResponse chainRegistry (mkDiscoveryResponse SubscriptionStateTypeURL "6" "c" [mkAny "type.example/Other" []])
              sampleEngine) as [e' u|e' err|] eqn:E; [vm_compute in E; discriminate E| |vm_compute in E; discriminate E].
  exists err. rewrite (rejected_update_changes_nothing _ _ _ _ _ E); [reflexivity|]. intros _. reflexivity.
Defined.
