(* ===== verification/ConfigStoreTheorems.v ===== *)
(** * ConfigStoreTheorems: the store of artifacts is a registry

    The two indexes of the store are exactly those of the stored artifacts,
    so that look-ups by kind and handle or by kind, name and version find the
    artifact stored under them and duplicates are refused: the store refines
    a plain table of artifacts.  API keys have one name each within an
    artifact. *)

From stdpp Require Import base gmap strings list fin_maps.
From S2P Require Import Prelude GoStrings Values ManagementApi ConfigStore.

#[local] Set Warnings "-register-all".

Open Scope string_scope.

(** ** Indexes *)

(** [index] maps the key of every stored value to its identifier, and nothing
    else. *)
Definition indexes {A} (f : A -> string) (m : gmap string A) (index : gmap string string) : Prop :=
  forall k id, index !! k = Some id <-> exists a, m !! id = Some a /\ f a = k.

Section Indexes.
Context {A : Type} (f : A -> string).
Implicit Types (m : gmap string A) (index : gmap string string).

Lemma indexes_empty : indexes f ∅ ∅.
Proof. intros k id. rewrite lookup_empty. split; [done|]. intros (a & Ha & _). by rewrite lookup_empty in Ha. Qed.

Lemma indexes_inj m index id id' a a' :
  indexes f m index -> m !! id = Some a -> m !! id' = Some a' -> f a = f a' -> id = id'.
Proof.
  intros Hi Ha Ha' E. assert (index !! f a = Some id) as H1 by (apply Hi; eauto). assert (index !! f a = Some id') as H2 by (apply Hi; eauto).
  congruence.
Qed.

Lemma indexes_add m index id a :
  indexes f m index -> m !! id = None -> index !! f a = None -> indexes f (<[id := a]> m) (<[f a := id]> index).
Proof.
  intros Hi Hm Hf k id'. destruct (decide (k = f a)) as [->|Hk].
  - rewrite lookup_insert_eq. split; [intros [= <-]; exists a; by rewrite lookup_insert_eq|].
    intros (b & Hb & Hfb). destruct (decide (id = id')) as [->|Hne]; [done|]. rewrite lookup_insert_ne in Hb by done.
    assert (index !! f a = Some id') by (apply Hi; eauto). congruence.
  - rewrite lookup_insert_ne, (Hi k id') by done. destruct (decide (id = id')) as [->|Hne].
    + rewrite lookup_insert_eq. split; [intros (b & Hb & _); congruence|]. intros (b & [= <-] & ?). done.
    + by rewrite lookup_insert_ne.
Qed.

Lemma indexes_delete m index id a :
  indexes f m index -> m !! id = Some a -> indexes f (delete id m) (delete (f a) index).
Proof.
  intros Hi Hm k id'. destruct (decide (k = f a)) as [->|Hk].
  - rewrite lookup_delete_eq. split; [done|]. intros (b & Hb & Hf). apply lookup_delete_Some in Hb as [Hne Hb].
    destruct Hne. exact (indexes_inj m index _ _ _ _ Hi Hm Hb (eq_sym Hf)).
  - rewrite lookup_delete_ne, (Hi k id') by done. split.
    + intros (b & Hb & Hf). exists b. split; [|done]. apply lookup_delete_Some. split; [|done]. intros ->. congruence.
    + intros (b & [_ Hb]%lookup_delete_Some & Hf). eauto.
Qed.

(** Moving the entry of a value that is replaced. *)
Definition reindex (old new : A) (id : string) (index : gmap string string) : gmap string string :=
  if String.eqb (f old) (f new) then index else <[f new := id]> (delete (f old) index).

Lemma indexes_replace m index id old new :
  indexes f m index -> m !! id = Some old -> (forall id', index !! f new = Some id' -> id' = id) ->
  indexes f (<[id := new]> m) (reindex old new id index).
Proof.
  intros Hi Hm Hfree. unfold reindex. destruct (String.eqb_spec (f old) (f new)) as [E|Hne].
  - intros k id'. rewrite (Hi k id'). destruct (decide (id = id')) as [<-|Hid]; [|by rewrite lookup_insert_ne].
    rewrite lookup_insert_eq, Hm. split; intros (b & [= <-] & <-); eauto.
  - rewrite <- (insert_delete_eq m id new). apply indexes_add; [by apply indexes_delete|by rewrite lookup_delete_eq|].
    apply lookup_delete_None. right. destruct (index !! f new) as [id'|] eqn:Ef; [|done].
    pose proof (Hfree _ eq_refl) as ->. apply Hi in Ef as (b & Hb & Hf). congruence.
Qed.
End Indexes.

(** ** The invariant *)

Record indexed (cs : ConfigStore) : Prop := mkIndexed {
  indexed_uuid : forall id c, cs_configs cs !! id = Some c -> sc_UUID c = id;
  indexed_handle : indexes handleKeyOf (cs_configs cs) (cs_handle cs);
  indexed_name : indexes GetCompositeKey (cs_configs cs) (cs_nameVersion cs)
}.

Lemma indexed_ext cs cs' :
  cs_configs cs' = cs_configs cs -> cs_handle cs' = cs_handle cs -> cs_nameVersion cs' = cs_nameVersion cs -> indexed cs -> indexed cs'.
Proof. intros Hc Hh Hn [H1 H2 H3]. constructor; by rewrite ?Hc, ?Hh, ?Hn. Qed.

(** The hook changes the topics alone. *)
Definition sameIndexes (cs cs' : ConfigStore) : Prop :=
  cs_configs cs' = cs_configs cs /\ cs_handle cs' = cs_handle cs /\ cs_nameVersion cs' = cs_nameVersion cs.

Lemma updateTopics_same cfg cs : wp (updateTopics cfg) (fun cs' _ => sameIndexes cs cs') (fun cs' _ => sameIndexes cs cs') True cs.
Proof.
  unfold wp, updateTopics. destruct (String.eqb _ _); [|done]. destruct (cs_webSubTopicUpdater cs) as [fn|]; [|done].
  by destruct (fn cfg (cs_TopicManager cs)).
Qed.

(** A key is free for an identifier: unchanged, unused, or its own. *)
Definition freeFor (f : StoredConfig -> string) (existing cfg : StoredConfig) (index : gmap string string) : Prop :=
  forall id, index !! f cfg = Some id -> f existing = f cfg \/ id = sc_UUID cfg.

Lemma reindexHandle_Ok existing cfg cs cs' :
  reindexHandle existing cfg cs = Ok cs' tt ->
  freeFor handleKeyOf existing cfg (cs_handle cs) /\
  cs' = set_indexes cs (cs_configs cs) (cs_nameVersion cs) (reindex handleKeyOf existing cfg (sc_UUID cfg) (cs_handle cs)).
Proof.
  unfold reindexHandle, reindex, freeFor. destruct (String.eqb_spec (handleKeyOf existing) (handleKeyOf cfg)) as [E|Hne].
  - intros [= <-]. split; [by left|by destruct cs].
  - destruct (cs_handle cs !! handleKeyOf cfg) as [id|] eqn:Hl; [destruct (String.eqb_spec id (sc_UUID cfg)) as [->|]; [|done]|];
      intros [= <-]; (split; [|done]); intros id' Hid; simplify_eq; auto.
Qed.

Lemma reindexName_Ok existing cfg cs cs' :
  reindexName existing cfg cs = Ok cs' tt ->
  freeFor GetCompositeKey existing cfg (cs_nameVersion cs) /\
  cs' = set_indexes cs (cs_configs cs) (reindex GetCompositeKey existing cfg (sc_UUID cfg) (cs_nameVersion cs)) (cs_handle cs).
Proof.
  unfold reindexName, reindex, freeFor. destruct (String.eqb_spec (GetCompositeKey existing) (GetCompositeKey cfg)) as [E|Hne].
  - intros [= <-]. split; [by left|by destruct cs].
  - destruct (cs_nameVersion cs !! GetCompositeKey cfg) as [id|] eqn:Hl; [destruct (String.eqb_spec id (sc_UUID cfg)) as [->|]; [|done]|];
      intros [= <-]; (split; [|done]); intros id' Hid; simplify_eq; auto.
Qed.

Lemma updateLabels_same existing cfg cs : sameIndexes cs (updateLabels existing cfg cs).
Proof. unfold updateLabels. by destruct (negb _), (GetLabels cfg). Qed.

(** An update that succeeds replaced the artifact and moved its entries, and
    found the new keys free. *)
Lemma Update_Ok cfg cs cs' :
  ConfigStore_Update cfg cs = Ok cs' tt ->
  exists existing, cs_configs cs !! sc_UUID cfg = Some existing /\
    freeFor handleKeyOf existing cfg (cs_handle cs) /\ freeFor GetCompositeKey existing cfg (cs_nameVersion cs) /\
    cs_configs cs' = <[sc_UUID cfg := cfg]> (cs_configs cs) /\
    cs_handle cs' = reindex handleKeyOf existing cfg (sc_UUID cfg) (cs_handle cs) /\
    cs_nameVersion cs' = reindex GetCompositeKey existing cfg (sc_UUID cfg) (cs_nameVersion cs).
Proof.
  unfold ConfigStore_Update. destruct (cs_configs cs !! sc_UUID cfg) as [existing|] eqn:He; [|done].
  intros (s1 & [] & [F1 ->]%reindexHandle_Ok & (s2 & [] & [F2 ->]%reindexName_Ok & (s3 & [] & H3 & H4)%bind_Ok_inv)%bind_Ok_inv)%bind_Ok_inv.
  exists existing. split; [done|]. split; [done|]. split; [done|].
  pose proof (wp_Ok _ _ _ _ _ _ _ (updateTopics_same cfg _) H3) as (T1 & T2 & T3). cbn in T1, T2, T3, H4. injection H4 as <-.
  destruct (updateLabels_same existing cfg (set_indexes s3 (<[sc_UUID cfg := cfg]> (cs_configs s3)) (cs_nameVersion s3) (cs_handle s3)))
    as (L1 & L2 & L3). rewrite L1, L2, L3. cbn. by rewrite T1, T2, T3.
Qed.

(** ** Every sequence of operations keeps the indexes *)

(** The operations that change the store.  A new artifact has a fresh
    identifier, as its callers generate it; an update is one that succeeds. *)
Inductive storeStep `{MapRange} : ConfigStore -> ConfigStore -> Prop :=
| step_add cfg cs cs' : cs_configs cs !! sc_UUID cfg = None -> leads (ConfigStore_Add cfg) cs cs' -> storeStep cs cs'
| step_update cfg cs cs' : ConfigStore_Update cfg cs = Ok cs' tt -> storeStep cs cs'
| step_delete id cs cs' : leads (ConfigStore_Delete id) cs cs' -> storeStep cs cs'
| step_hook fn cs : storeStep cs (SetWebSubTopicUpdater fn cs)
| step_version cs cs' : leads IncrementSnapshotVersion cs cs' -> storeStep cs cs'
| step_set_version v cs : storeStep cs (SetSnapshotVersion v cs)
| step_add_template t cs cs' : leads (AddTemplate t) cs cs' -> storeStep cs cs'
| step_update_template t cs cs' : leads (UpdateTemplate t) cs cs' -> storeStep cs cs'
| step_delete_template id cs cs' : leads (DeleteTemplate id) cs cs' -> storeStep cs cs'
| step_key k cs cs' : leads (ConfigStore_StoreAPIKey k) cs cs' -> storeStep cs cs'
| step_remove_key api id cs cs' : leads (RemoveAPIKeyByID api id) cs cs' -> storeStep cs cs'
| step_remove_keys api cs : storeStep cs (ConfigStore_RemoveAPIKeysByAPI api cs).

Inductive reachableStore `{MapRange} : ConfigStore -> Prop :=
| reach_new : reachableStore NewConfigStore
| reach_step cs cs' : reachableStore cs -> storeStep cs cs' -> reachableStore cs'.

Lemma leads_wp {S A} (m : GoM S A) (P : S -> Prop) s s' : leads m s s' -> wp m (fun s' _ => P s') (fun s' _ => P s') True s -> P s'.
Proof. unfold wp. intros [[a E]|[e E]]; by rewrite E. Qed.

Lemma Add_indexed cfg cs :
  indexed cs -> cs_configs cs !! sc_UUID cfg = None -> wp (ConfigStore_Add cfg) (fun cs' _ => indexed cs') (fun cs' _ => indexed cs') True cs.
Proof.
  intros Hi Hf. unfold wp, ConfigStore_Add. destruct (cs_handle cs !! handleKeyOf cfg) eqn:Hh; [done|].
  destruct (cs_nameVersion cs !! GetCompositeKey cfg) eqn:Hn; [done|].
  match goal with |- context [updateTopics cfg ?s] => set (s0 := s) end.
  assert (indexed s0) as H0.
  { subst s0. apply (indexed_ext (set_indexes cs (<[sc_UUID cfg := cfg]> (cs_configs cs)) (<[GetCompositeKey cfg := sc_UUID cfg]> (cs_nameVersion cs))
      (<[handleKeyOf cfg := sc_UUID cfg]> (cs_handle cs)))); [by destruct (GetLabels cfg)..|]. destruct Hi as [H1 H2 H3]. constructor; cbn.
    - intros id c. destruct (decide (sc_UUID cfg = id)) as [<-|]; [rewrite lookup_insert_eq; by intros [= <-]|].
      rewrite lookup_insert_ne by done. apply H1.
    - by apply indexes_add.
    - by apply indexes_add. }
  pose proof (updateTopics_same cfg s0) as HT. unfold wp in HT.
  destruct (updateTopics cfg s0) as [s1 []|s1 e|]; [| |done]; destruct HT as (T1 & T2 & T3); by eapply indexed_ext.
Qed.

Lemma freeFor_own f m index existing cfg :
  indexes f m index -> m !! sc_UUID cfg = Some existing -> freeFor f existing cfg index ->
  forall id, index !! f cfg = Some id -> id = sc_UUID cfg.
Proof.
  intros Hi Hm Hf id Hid. destruct (Hf id Hid) as [E|]; [|done]. rewrite <- E in Hid.
  assert (index !! f existing = Some (sc_UUID cfg)) by (apply Hi; eauto). congruence.
Qed.

Lemma Update_indexed cfg cs cs' : indexed cs -> ConfigStore_Update cfg cs = Ok cs' tt -> indexed cs'.
Proof.
  intros [H1 H2 H3] (existing & He & F1 & F2 & EC & EH & EN)%Update_Ok. constructor.
  - rewrite EC. intros id c. destruct (decide (sc_UUID cfg = id)) as [<-|]; [rewrite lookup_insert_eq; by intros [= <-]|].
    rewrite lookup_insert_ne by done. apply H1.
  - rewrite EC, EH. apply indexes_replace; [done..|]. by eapply freeFor_own.
  - rewrite EC, EN. apply indexes_replace; [done..|]. by eapply freeFor_own.
Qed.

Lemma Delete_indexed id cs : indexed cs -> wp (ConfigStore_Delete id) (fun cs' _ => indexed cs') (fun cs' _ => indexed cs') True cs.
Proof.
  intros [H1 H2 H3]. unfold wp, ConfigStore_Delete. destruct (cs_configs cs !! id) as [cfg|] eqn:Hc; [|by constructor].
  destruct (String.eqb _ _); constructor; cbn; try (by apply indexes_delete); intros id' c [_ Hl]%lookup_delete_Some; by apply H1.
Qed.

(** The other operations do not touch the artifacts. *)
Ltac other_parts :=
  unfold wp, IncrementSnapshotVersion, AddTemplate, UpdateTemplate, DeleteTemplate, ConfigStore_StoreAPIKey, RemoveAPIKeyByID;
  repeat case_match; simplify_eq; try done; by (eapply indexed_ext; [..|eassumption]).

Lemma new_store_indexed : indexed NewConfigStore.
Proof. constructor; [intros id c; cbn; by rewrite lookup_empty|apply indexes_empty|apply indexes_empty]. Qed.

Lemma reachable_indexed `{MapRange} cs : reachableStore cs -> indexed cs.
Proof.
  induction 1 as [|cs cs' _ IH Hs].
  { apply new_store_indexed. }
  destruct Hs as [cfg cs cs' Hf Hl|cfg cs cs' Hu|id cs cs' Hl|fn cs|cs cs' Hl|v cs|tm cs cs' Hl|tm cs cs' Hl|id cs cs' Hl|k cs cs' Hl|api id cs cs' Hl|api cs];
    try (apply (leads_wp _ indexed _ _ Hl)); [by apply Add_indexed|by eapply Update_indexed|by apply Delete_indexed|..];
    try (by eapply indexed_ext; [..|exact IH]); other_parts.
Qed.

(** C27: whatever sequence of operations built the store - artifacts added
    under fresh identifiers, updated successfully, deleted, whatever is done
    to templates, API keys, versions and the topic hook - the index by kind
    and handle and the index by kind, name and version hold exactly the keys
    of the stored artifacts, and every artifact is stored under its own
    identifier.  So no two artifacts share a handle or a name and version. *)
Theorem artifact_indexes_are_exact (R : MapRange) cs : reachableStore cs -> indexed cs.
Proof. apply reachable_indexed. Qed.

(** ** The table of artifacts *)

(** Two artifacts that cannot both be stored. *)
Definition clash (a b : StoredConfig) : Prop := handleKeyOf a = handleKeyOf b \/ GetCompositeKey a = GetCompositeKey b.

Abbreviation Artifacts := (gmap string StoredConfig).

(** What the store promises, on the table alone. *)
Definition tableAdd (cfg : StoredConfig) (m : Artifacts) : option Artifacts :=
  if decide (map_Exists (fun _ c => clash c cfg) m) then None else Some (<[sc_UUID cfg := cfg]> m).
Definition tableUpdate (cfg : StoredConfig) (m : Artifacts) : option Artifacts :=
  match m !! sc_UUID cfg with
  | None => None
  | Some _ => if decide (map_Exists (fun id c => id <> sc_UUID cfg /\ clash c cfg) m) then None else Some (<[sc_UUID cfg := cfg]> m)
  end.
Definition tableDelete (id : string) (m : Artifacts) : option Artifacts :=
  match m !! id with None => None | Some _ => Some (delete id m) end.

(** An outcome implements an operation of the table: a success makes its
    change, an error is its refusal and leaves the artifacts as they were. *)
Definition implements (o : Outcome ConfigStore unit) (spec : option Artifacts) (m : Artifacts) : Prop :=
  match o with
  | Ok cs' _ => spec = Some (cs_configs cs')
  | Err cs' _ => spec = None /\ cs_configs cs' = m
  | Panic => False
  end.

(** What the topic hook answers for the artifact: nothing to do for another
    kind or without a hook. *)
Definition hookAnswer (cfg : StoredConfig) (cs : ConfigStore) : Outcome TopicManager unit :=
  match cs_webSubTopicUpdater cs with
  | Some fn => if decide (sc_Kind cfg = "WebSubApi") then fn cfg (cs_TopicManager cs) else Ok (cs_TopicManager cs) tt
  | None => Ok (cs_TopicManager cs) tt
  end.

(** An operation of the table that ends with the hook: what the table refuses
    is an error and leaves the artifacts as they were; otherwise the hook
    decides, and when it fails the artifacts are [failed]. *)
Definition answersWith (o : Outcome ConfigStore unit) (spec : option Artifacts) (hook : Outcome TopicManager unit)
    (before : Artifacts) (failed : Artifacts -> Artifacts) : Prop :=
  match spec with
  | None => exists cs' e, o = Err cs' e /\ cs_configs cs' = before
  | Some m =>
      match hook with
      | Ok tm _ => exists cs', o = Ok cs' tt /\ cs_configs cs' = m /\ cs_TopicManager cs' = tm
      | Err tm e => exists cs', o = Err cs' e /\ cs_configs cs' = failed m /\ cs_TopicManager cs' = tm
      | Panic => o = Panic
      end
  end.

Lemma updateTopics_answer cfg cs : updateTopics cfg cs =
  match hookAnswer cfg cs with Ok tm _ => Ok (set_topics cs tm) tt | Err tm e => Err (set_topics cs tm) e | Panic => Panic end.
Proof.
  unfold updateTopics, hookAnswer. destruct (cs_webSubTopicUpdater cs) as [fn|] eqn:Hh.
  - destruct (String.eqb_spec (sc_Kind cfg) "WebSubApi"), (decide (sc_Kind cfg = "WebSubApi")); try done. by destruct cs.
  - destruct (String.eqb _ _); by destruct cs.
Qed.

(** No hook runs for the artifact. *)
Definition noHook (cfg : StoredConfig) (cs : ConfigStore) : Prop := sc_Kind cfg <> "WebSubApi" \/ cs_webSubTopicUpdater cs = None.

Lemma noHook_answer cfg cs : noHook cfg cs -> hookAnswer cfg cs = Ok (cs_TopicManager cs) tt.
Proof. unfold hookAnswer. intros [Hk|Hh]; [destruct (cs_webSubTopicUpdater cs); by rewrite ?decide_False|by rewrite Hh]. Qed.

Lemma updateTopics_noHook cfg cs : noHook cfg cs -> updateTopics cfg cs = Ok cs tt.
Proof. intros Hn. rewrite updateTopics_answer, noHook_answer by done. by destruct cs. Qed.

Lemma indexes_None {A} (f : A -> string) m index k : indexes f m index -> index !! k = None -> forall id a, m !! id = Some a -> f a <> k.
Proof. intros Hi Hn id a Ha Hf. assert (index !! k = Some id) by (apply Hi; eauto). congruence. Qed.

Lemma Add_answers cfg cs : indexed cs ->
  answersWith (ConfigStore_Add cfg cs) (tableAdd cfg (cs_configs cs)) (hookAnswer cfg cs) (cs_configs cs) (fun stored => stored).
Proof.
  intros [H1 H2 H3]. unfold ConfigStore_Add, tableAdd, answersWith. destruct (cs_handle cs !! handleKeyOf cfg) as [id|] eqn:Eh.
  { apply H2 in Eh as (c & Hc & Hk). rewrite decide_True; [by eauto|]. exists id, c. split; [done|by left]. }
  destruct (cs_nameVersion cs !! GetCompositeKey cfg) as [id|] eqn:En.
  { apply H3 in En as (c & Hc & Hk). rewrite decide_True; [by eauto|]. exists id, c. split; [done|by right]. }
  rewrite decide_False.
  2: { intros (id & c & Hc & [Hk|Hk]); [by eapply (indexes_None _ _ _ _ H2 Eh)|by eapply (indexes_None _ _ _ _ H3 En)]. }
  match goal with |- context [updateTopics cfg ?s] => set (s0 := s) end.
  assert (hookAnswer cfg s0 = hookAnswer cfg cs /\ cs_configs s0 = <[sc_UUID cfg := cfg]> (cs_configs cs)) as [Hh Hc]
    by (unfold s0, hookAnswer; by destruct (GetLabels cfg)).
  rewrite updateTopics_answer, Hh, <- Hc. destruct (hookAnswer cfg cs) as [tm []|tm e|]; eauto.
Qed.

(** An entry of a new key that another artifact holds. *)
Lemma clash_other f m index existing cfg id :
  indexes f m index -> m !! sc_UUID cfg = Some existing -> index !! f cfg = Some id -> id <> sc_UUID cfg ->
  (forall c, f c = f cfg -> clash c cfg) -> map_Exists (fun id c => id <> sc_UUID cfg /\ clash c cfg) m.
Proof. intros Hi Hm Hid Hne Hf. apply Hi in Hid as (c & Hc & Hk). exists id, c. eauto. Qed.

Lemma reindexHandle_Err existing cfg cs cs' e : reindexHandle existing cfg cs = Err cs' e ->
  cs' = cs /\ exists id, cs_handle cs !! handleKeyOf cfg = Some id /\ id <> sc_UUID cfg.
Proof.
  unfold reindexHandle. destruct (String.eqb _ _); [done|]. destruct (cs_handle cs !! handleKeyOf cfg) as [id|]; [|done].
  destruct (String.eqb_spec id (sc_UUID cfg)); [done|]. intros [= <- _]. eauto.
Qed.
Lemma reindexName_Err existing cfg cs cs' e : reindexName existing cfg cs = Err cs' e ->
  cs' = cs /\ exists id, cs_nameVersion cs !! GetCompositeKey cfg = Some id /\ id <> sc_UUID cfg.
Proof.
  unfold reindexName. destruct (String.eqb _ _); [done|]. destruct (cs_nameVersion cs !! GetCompositeKey cfg) as [id|]; [|done].
  destruct (String.eqb_spec id (sc_UUID cfg)); [done|]. intros [= <- _]. eauto.
Qed.

Lemma reindex_no_panic existing cfg cs : reindexHandle existing cfg cs <> Panic /\ reindexName existing cfg cs <> Panic.
Proof. unfold reindexHandle, reindexName. split; repeat case_match; done. Qed.

Lemma Update_answers cfg cs : indexed cs ->
  answersWith (ConfigStore_Update cfg cs) (tableUpdate cfg (cs_configs cs)) (hookAnswer cfg cs) (cs_configs cs) (fun _ => cs_configs cs).
Proof.
  intros [H1 H2 H3]. unfold ConfigStore_Update, tableUpdate, answersWith. destruct (cs_configs cs !! sc_UUID cfg) as [existing|] eqn:He; [|eauto].
  unfold mbind, GoM_bind.
  destruct (reindexHandle existing cfg cs) as [s1 []|s1 e|] eqn:E1; [| |by apply reindex_no_panic in E1].
  2: { apply reindexHandle_Err in E1 as (-> & id & Hid & Hne). rewrite decide_True; [by eauto|]. eapply (clash_other handleKeyOf); [done..|]. by left. }
  apply reindexHandle_Ok in E1 as [F1 ->].
  match goal with |- context [reindexName existing cfg ?s] => destruct (reindexName existing cfg s) as [s2 []|s2 e|] eqn:E2 end; [| |by apply reindex_no_panic in E2].
  2: { apply reindexName_Err in E2 as (-> & id & Hid & Hne). cbn in *. rewrite decide_True; [by eauto|]. eapply (clash_other GetCompositeKey); [done..|]. by right. }
  apply reindexName_Ok in E2 as [F2 ->]. cbn in F2. rewrite decide_False.
  2: { intros (id & c & Hc & Hne & [Hk|Hk]); apply Hne.
       - apply (freeFor_own handleKeyOf _ _ existing cfg H2 He F1), H2. eauto.
       - apply (freeFor_own GetCompositeKey _ _ existing cfg H3 He F2), H3. eauto. }
  rewrite updateTopics_answer. match goal with |- context [hookAnswer cfg (set_indexes ?a ?b ?c ?d)] => change (hookAnswer cfg (set_indexes a b c d)) with (hookAnswer cfg cs) end.
  destruct (hookAnswer cfg cs) as [tm []|tm e|]; [|by eauto|done]. eexists. split; [reflexivity|].
  unfold updateLabels. by destruct (negb _), (GetLabels cfg).
Qed.

(** Without a hook the store implements the table. *)
Lemma answers_implements o spec tm before failed : answersWith o spec (Ok tm tt) before failed -> implements o spec before.
Proof. unfold answersWith, implements. destruct spec; [intros (cs' & -> & -> & _)|intros (cs' & e & -> & ->)]; done. Qed.

Lemma Add_implements cfg cs :
  indexed cs -> noHook cfg cs -> implements (ConfigStore_Add cfg cs) (tableAdd cfg (cs_configs cs)) (cs_configs cs).
Proof. intros Hi Hn. pose proof (Add_answers cfg cs Hi) as Ha. rewrite noHook_answer in Ha by done. by eapply answers_implements. Qed.
Lemma Update_implements cfg cs :
  indexed cs -> noHook cfg cs -> implements (ConfigStore_Update cfg cs) (tableUpdate cfg (cs_configs cs)) (cs_configs cs).
Proof. intros Hi Hn. pose proof (Update_answers cfg cs Hi) as Ha. rewrite noHook_answer in Ha by done. by eapply answers_implements. Qed.

(** The look-up of an exact index is a search of the table. *)
Lemma lookup_indexed f (m : Artifacts) index k :
  indexes f m index -> forall c, (match index !! k with Some id => m !! id | None => None end) = Some c <-> exists id, m !! id = Some c /\ f c = k.
Proof.
  intros Hi c. destruct (index !! k) as [id|] eqn:E.
  - apply Hi in E as (c' & Hc' & Hk). split.
    + intros Hc. exists id. split; [done|]. congruence.
    + intros (id' & Hc & Hk'). by rewrite (indexes_inj f m index id id' c' c Hi Hc' Hc ltac:(congruence)).
  - split; [done|]. intros (id & Hc & Hk). by apply (indexes_None f m index k Hi E) in Hc.
Qed.

(** C21: the store of artifacts refines a table: in a store whose indexes are
    exact, adding and updating are refused exactly when the table refuses
    them - another artifact has the kind and handle, or the kind, name and
    version, or the artifact to update is missing - and a refusal leaves the
    artifacts as they were.  Otherwise the topic hook decides, which runs for
    event-driven APIs alone: when it succeeds, or there is none, the
    operation succeeds with the change of the table; when it fails the
    operation fails with its error, after an addition has stored the artifact
    and before an update has changed any; when it panics, so does the
    operation.  Deleting succeeds exactly when the artifact is there, with the
    change of the table.  A look-up by kind and handle finds an artifact
    exactly when one with that key is stored, and that one; so does a look-up
    by kind, name and version. *)
Theorem config_store_refines_table cfg id kind handle name version (c : StoredConfig) cs :
  indexed cs ->
  answersWith (ConfigStore_Add cfg cs) (tableAdd cfg (cs_configs cs)) (hookAnswer cfg cs) (cs_configs cs) (fun stored => stored) /\
  answersWith (ConfigStore_Update cfg cs) (tableUpdate cfg (cs_configs cs)) (hookAnswer cfg cs) (cs_configs cs) (fun _ => cs_configs cs) /\
  implements (ConfigStore_Delete id cs) (tableDelete id (cs_configs cs)) (cs_configs cs) /\
  (GetByKindAndHandle cs kind handle = Some c <->
     exists id, cs_configs cs !! id = Some c /\ handleKeyOf c = kind +:+ ":" +:+ handle) /\
  (GetByKindNameAndVersion cs kind name version = Some c <->
     exists id, cs_configs cs !! id = Some c /\ GetCompositeKey c = kind +:+ ":" +:+ name +:+ ":" +:+ version).
Proof.
  intros Hi. split_and!; [by apply Add_answers|by apply Update_answers| | |].
  - unfold ConfigStore_Delete, tableDelete. destruct (cs_configs cs !! id); [|done]. by destruct (String.eqb _ _).
  - apply lookup_indexed, Hi.
  - apply lookup_indexed, Hi.
Qed.

(** ** API keys *)

(** The keys of an artifact are stored under their identifiers, and no two
    have the same name. *)
Record keysOf_ok (api : string) (ks : gmap string ControllerAPIKey) : Prop := mkKeysOfOk {
  kok_id : forall id k, ks !! id = Some k -> ck_UUID k = id /\ id <> "" /\ ck_ArtifactUUID k = api;
  kok_name : forall id id' k k', ks !! id = Some k -> ks !! id' = Some k' -> ck_Name k = ck_Name k' -> id = id'
}.
Definition keys_ok (cs : ConfigStore) : Prop := map_Forall keysOf_ok (cs_apiKeysByAPI cs).

Section ApiKeys.
Context `{MapRange}.

Lemma keysOf_keys_ok cs api : keys_ok cs -> keysOf_ok api (keysOf cs api).
Proof.
  intros Hk. unfold keysOf. destruct (cs_apiKeysByAPI cs !! api) as [ks|] eqn:E; [exact (Hk _ _ E)|]. simpl.
  constructor; intros id; intros; by rewrite lookup_empty in *.
Qed.

Lemma find_by_name (ks : gmap string ControllerAPIKey) name :
  match List.find (fun kv => String.eqb (ck_Name kv.2) name) (range ks) with
  | Some (id, k) => ks !! id = Some k /\ ck_Name k = name
  | None => forall id k, ks !! id = Some k -> ck_Name k <> name
  end.
Proof.
  destruct (List.find _ _) as [[id k]|] eqn:E.
  - apply List.find_some in E as [Hin Hn%String.eqb_eq]. split; [|done]. apply elem_of_range. by apply list_elem_of_In.
  - intros id k Hk%elem_of_range Hn. pose proof (List.find_none _ _ E (id, k) (proj1 (list_elem_of_In _ _) Hk)) as Hf. simpl in Hf.
    by apply String.eqb_neq in Hf.
Qed.

(** A key that replaces the one of its name, or is new. *)
Lemma keysOf_ok_insert api ks k :
  keysOf_ok api ks -> ck_UUID k <> "" -> ck_ArtifactUUID k = api ->
  (forall id k', ks !! id = Some k' -> ck_Name k' = ck_Name k -> id = ck_UUID k) -> keysOf_ok api (<[ck_UUID k := k]> ks).
Proof.
  intros [H1 H2] Hne Ha Hn. constructor.
  - intros id k' [[<- <-]|[_ Hk']]%lookup_insert_Some; [done|by apply H1].
  - intros id id' k1 k2 [[<- <-]|[Hd1 Hk1]]%lookup_insert_Some [[<- <-]|[Hd2 Hk2]]%lookup_insert_Some E;
      [done|symmetry; by eapply Hn|by eapply Hn|by eapply H2].
Qed.

(** What a successful store does: the key is put under its identifier, which
    is that of any key of its name. *)
Lemma StoreAPIKey_Ok k cs cs' :
  keys_ok cs -> ConfigStore_StoreAPIKey (Some k) cs = Ok cs' tt ->
  let api := ck_ArtifactUUID k in
  cs' = set_apiKeys cs (<[api := <[ck_UUID k := k]> (keysOf cs api)]> (cs_apiKeysByAPI cs)) /\
  (forall id k', keysOf cs api !! id = Some k' -> ck_Name k' = ck_Name k -> id = ck_UUID k).
Proof.
  intros Hk. cbn [ConfigStore_StoreAPIKey]. repeat (destruct (String.eqb (TrimSpace _) ""); [done|]). cbn zeta.
  pose proof (keysOf_keys_ok cs (ck_ArtifactUUID k) Hk) as [H1 H2]. unfold existingKeyIDOf.
  pose proof (find_by_name (keysOf cs (ck_ArtifactUUID k)) (ck_Name k)) as Hf.
  destruct (List.find _ _) as [[id k0]|]; cbn [fst].
  - destruct Hf as [Hid Hn]. destruct (H1 _ _ Hid) as (_ & Hne & _). rewrite (proj2 (String.eqb_neq id "") Hne). simpl.
    destruct (String.eqb_spec (ck_UUID k) id) as [<-|]; [|done]. simpl. intros [= <-]. split; [done|].
    intros id' k' Hk' Hn'. eapply H2; [done..|congruence].
  - simpl. destruct (keysOf cs (ck_ArtifactUUID k) !! ck_UUID k) eqn:E; [done|]. intros [= <-]. split; [done|].
    intros id' k' Hk' Hn'. by destruct (Hf id' k' Hk').
Qed.

(** Within an artifact, API keys have distinct names and are stored under
    their own identifiers; storing a key that has an identifier, removing one
    and removing all of an artifact keep this.  A key that was stored is the
    one found by its name and by its identifier, whatever order the maps are
    searched in; a refused key changes nothing, and other artifacts keep
    their keys. *)
Theorem api_keys_are_found_by_name k api id cs :
  keys_ok cs -> ck_UUID k <> "" ->
  match ConfigStore_StoreAPIKey (Some k) cs with
  | Ok cs' _ => keys_ok cs' /\ GetAPIKeyByName cs' (ck_ArtifactUUID k) (ck_Name k) = inr k /\
                GetAPIKeyByID cs' (ck_ArtifactUUID k) (ck_UUID k) = inr k /\
                (forall other, other <> ck_ArtifactUUID k -> keysOf cs' other = keysOf cs other)
  | Err cs' _ => cs' = cs
  | Panic => False
  end /\
  (forall cs', leads (RemoveAPIKeyByID api id) cs cs' -> keys_ok cs') /\ keys_ok (ConfigStore_RemoveAPIKeysByAPI api cs).
Proof.
  intros Hk Hne. split_and!.
  - destruct (ConfigStore_StoreAPIKey (Some k) cs) as [cs' []|cs' e|] eqn:E.
    + destruct (StoreAPIKey_Ok k cs cs' Hk E) as [-> Hn]. set (api' := ck_ArtifactUUID k) in *.
      pose proof (keysOf_ok_insert api' _ k (keysOf_keys_ok cs api' Hk) Hne eq_refl Hn) as Hok.
      assert (keysOf (set_apiKeys cs (<[api' := <[ck_UUID k := k]> (keysOf cs api')]> (cs_apiKeysByAPI cs))) api' =
        <[ck_UUID k := k]> (keysOf cs api')) as Ek by (unfold keysOf at 1; cbn; by rewrite lookup_insert_eq).
      split_and!.
      * by apply map_Forall_insert_2.
      * unfold GetAPIKeyByName, GetAPIKeysByAPI. rewrite Ek. set (ks := <[ck_UUID k := k]> _) in *.
        destruct (List.find _ (range ks).*2) as [k'|] eqn:Ef.
        -- apply List.find_some in Ef as [Hin%list_elem_of_In Hnm%String.eqb_eq]. apply list_elem_of_fmap in Hin as ([id' k''] & -> & Hin%elem_of_range).
           simpl in Hnm. assert (id' = ck_UUID k) as ->.
           { eapply (kok_name _ _ Hok); [exact Hin|apply lookup_insert_eq|done]. }
           unfold ks in Hin. rewrite lookup_insert_eq in Hin. by injection Hin as <-.
        -- exfalso. apply (List.find_none _ _) with (x := k) in Ef; [by rewrite String.eqb_refl in Ef|]. apply list_elem_of_In, list_elem_of_fmap.
           exists (ck_UUID k, k). split; [done|]. apply elem_of_range, lookup_insert_eq.
      * unfold GetAPIKeyByID. by rewrite Ek, lookup_insert_eq.
      * intros other Ho. unfold keysOf at 1. cbn. by rewrite lookup_insert_ne.
    + revert E. cbn [ConfigStore_StoreAPIKey]. cbn zeta. repeat case_match; intros; by simplify_eq.
    + revert E. cbn [ConfigStore_StoreAPIKey]. cbn zeta. repeat case_match; intros; by simplify_eq.
  - intros cs' Hl. apply (leads_wp _ keys_ok _ _ Hl). unfold wp, RemoveAPIKeyByID. destruct (cs_apiKeysByAPI cs !! api) as [ks|] eqn:E; [|done].
    destruct (ks !! id) eqn:Ei; [|done]. destruct (Hk _ _ E) as [H1 H2]. unfold keys_ok. cbn. case_decide.
    + by apply map_Forall_delete.
    + apply map_Forall_insert_2; [|done]. constructor.
      * intros id' k' [_ Hk']%lookup_delete_Some. by apply H1.
      * intros id1 id2 k1 k2 [_ Hk1]%lookup_delete_Some [_ Hk2]%lookup_delete_Some. by eapply H2.
  - by apply map_Forall_delete.
Qed.

End ApiKeys.

(** ** Concrete stores *)

Definition artifactOf (uuid handle name : string) : StoredConfig :=
  mkStoredConfig uuid "RestApi" handle name "v1" (CfgOther "none") (CfgOther "none") [].

Definition after {S A} (m : GoM S A) (s : S) : S := match m s with Ok s' _ | Err s' _ => s' | Panic => s end.

Definition emptyTemplate : LLMProviderTemplateData := mkLLMProviderTemplateData "" (mkExtractionFields None None None None None None) None.

Definition oneArtifact : ConfigStore := after (ConfigStore_Add (artifactOf "1" "books" "Books")) NewConfigStore.
Definition twoArtifacts : ConfigStore := after (ConfigStore_Add (artifactOf "2" "pets" "Pets")) oneArtifact.

#[local] Instance listRange : MapRange := MapRange_list.

Lemma oneArtifact_reachable : reachableStore oneArtifact.
Proof. eapply reach_step; [apply reach_new|]. eapply (step_add (artifactOf "1" "books" "Books")); [done|]. left. by exists tt. Qed.

Lemma twoArtifacts_reachable : reachableStore twoArtifacts.
Proof.
  eapply reach_step; [apply oneArtifact_reachable|]. eapply (step_add (artifactOf "2" "pets" "Pets")); [by vm_compute|]. left. exists tt.
  by vm_compute.
Qed.

Lemma artifact_indexes_are_exact_witness : cs_handle twoArtifacts !! "RestApi:pets" = Some "2" /\ indexed twoArtifacts.
Proof. split; [by vm_compute|]. apply (artifact_indexes_are_exact listRange), twoArtifacts_reachable. Defined.

Lemma config_store_refines_table_witness :
  GetByKindAndHandle twoArtifacts "RestApi" "books" = Some (artifactOf "1" "books" "Books") /\
  tableUpdate (artifactOf "1" "books" "Pets") (cs_configs twoArtifacts) = None /\
  exists cs' e, ConfigStore_Update (artifactOf "1" "books" "Pets") twoArtifacts = Err cs' e /\ cs_configs cs' = cs_configs twoArtifacts.
Proof.
  destruct (config_store_refines_table (artifactOf "1" "books" "Pets") "1" "RestApi" "books" "" "" (artifactOf "1" "books" "Books") twoArtifacts)
    as (_ & HU & _ & HG & _).
  - apply reachable_indexed, twoArtifacts_reachable.
  - split; [apply HG; exists "1"; by vm_compute|]. split; [by vm_compute|].
    assert (tableUpdate (artifactOf "1" "books" "Pets") (cs_configs twoArtifacts) = None) as E by by vm_compute.
    rewrite E in HU. exact HU.
Defined.

(** Adding an event-driven API whose topics cannot be registered reports an
    error and has stored and indexed the API. *)
Theorem failed_hook_stores_the_artifact :
  let hook := fun _ => fail "topics" in
  let api := mkStoredConfig "1" "WebSubApi" "events" "Events" "v1" (CfgOther "none") (CfgOther "none") [] in
  exists cs', ConfigStore_Add api (SetWebSubTopicUpdater (Some hook) NewConfigStore) = Err cs' "topics" /\
    GetByKindAndHandle cs' "WebSubApi" "events" = Some api.
Proof. eexists. split; [reflexivity|]. by vm_compute. Qed.

Definition sampleKey (uuid name : string) : ControllerAPIKey :=
  mkControllerAPIKey uuid name "hash" "***" "api-1" "" "" APIKeyStatusActive 0 "alice" 0 None "local" None None.

Lemma api_keys_are_found_by_name_witness :
  GetAPIKeyByName (after (ConfigStore_StoreAPIKey (Some (sampleKey "k1" "ci"))) NewConfigStore) "api-1" "ci" = inr (sampleKey "k1" "ci").
Proof.
  pose proof (api_keys_are_found_by_name (sampleKey "k1" "ci") "" "" NewConfigStore) as Hk.
  destruct Hk as [Hs _]; [exact (map_Forall_empty _)|done|]. exact (proj1 (proj2 Hs)).
Defined.

(** An update refused for its name has already moved the handle: the artifact
    is still stored under its old handle, which no longer finds it, while the
    refused handle does. *)
Theorem failed_update_moves_the_handle :
  exists cs' e, ConfigStore_Update (artifactOf "1" "library" "Pets") twoArtifacts = Err cs' e /\
    cs_configs cs' !! "1" = Some (artifactOf "1" "books" "Books") /\
    GetByKindAndHandle cs' "RestApi" "books" = None /\
    GetByKindAndHandle cs' "RestApi" "library" = Some (artifactOf "1" "books" "Books").
Proof. eexists _, _. split; [reflexivity|]. by vm_compute. Qed.

(** Adding an artifact under a used identifier leaves the old handle behind. *)
Theorem add_under_a_used_identifier :
  exists cs', ConfigStore_Add (artifactOf "1" "music" "Music") twoArtifacts = Ok cs' tt /\
    GetByKindAndHandle cs' "RestApi" "books" = Some (artifactOf "1" "music" "Music").
Proof. eexists. split; [reflexivity|]. by vm_compute. Qed.

(** A template whose handle has blanks around it is deleted without its
    handle, which then finds a nil template. *)
Theorem deleted_template_keeps_its_handle :
  let cs := after (DeleteTemplate "t") (after (AddTemplate (mkStoredLLMProviderTemplate "t" " openai " None None None emptyTemplate)) NewConfigStore) in
  GetTemplateByHandle cs "openai" = inr None.
Proof. by vm_compute. Qed.

(** Labels are kept by handle without the kind: deleting an artifact of one
    kind removes the labels of another kind with the same handle. *)
Theorem labels_are_shared_between_kinds :
  let labelled kind uuid := mkStoredConfig uuid kind "books" uuid "v1"
    (CfgRestAPI (mkRestAPI "" "" (mkApiMetadata None (Some {["team" := uuid]}) "books")
      (mkAPIConfigData "" "" [] None None (mkUpstream None None None) None None "" None None))) (CfgOther "") [] in
  let cs := after (ConfigStore_Delete "2") (after (ConfigStore_Add (labelled "Mcp" "2")) (after (ConfigStore_Add (labelled "RestApi" "1")) NewConfigStore)) in
  is_Some (GetByKindAndHandle cs "RestApi" "books") /\ GetLabelsMap cs "books" = inl ErrNotFound.
Proof. split; [by eexists|by vm_compute]. Qed.
