(* ===== verification/RouteTheorems.v ===== *)
(** * RouteTheorems: the right route serves a request

    The precedence of routes is a weak order, so the sorted list of a virtual
    host does not depend on the sorting algorithm nor on the order maps are
    iterated in, and the route Envoy picks is the best that matches.  The
    matchers and rewrites of an operation mean what its path says, and the
    two translators of the controller build the same routes. *)

From stdpp Require Import base gmap strings list fin_maps.
From Stdlib Require Import Ascii.
From S2P Require Import Prelude GoStrings GoSort Re2 Values Sha256 Sdk Routes.

#[local] Set Warnings "-register-all".

Open Scope string_scope.

(** ** Orders *)

Lemma weakOrder_lex {A} (f : A -> Z) (less : A -> A -> bool) :
  WeakOrder less -> WeakOrder (fun a b => if negb (f a =? f b)%Z then (f a <? f b)%Z else less a b).
Proof.
  intros [Ha Hn]. split.
  - intros x y. destruct (Z.eqb_spec (f x) (f y)) as [E|E]; cbn [negb].
    + rewrite E, Z.eqb_refl. cbn [negb]. apply Ha.
    + destruct (Z.eqb_spec (f y) (f x)) as [|]; [lia|]. cbn [negb]. rewrite Z.ltb_lt, Z.ltb_ge. lia.
  - intros x y z. destruct (Z.eqb_spec (f y) (f x)) as [E1|E1], (Z.eqb_spec (f z) (f y)) as [E2|E2],
      (Z.eqb_spec (f z) (f x)) as [E3|E3]; cbn [negb]; rewrite ?Z.ltb_ge; try lia. apply Hn.
Qed.

Lemma weakOrder_lex_down {A} (f : A -> Z) (less : A -> A -> bool) :
  WeakOrder less -> WeakOrder (fun a b => if negb (f a =? f b)%Z then (f b <? f a)%Z else less a b).
Proof.
  intros Hl. pose proof (weakOrder_lex (fun a => - f a)%Z less Hl) as [Ha Hn].
  assert (forall a b, (if negb (f a =? f b)%Z then (f b <? f a)%Z else less a b) =
                      (if negb (- f a =? - f b)%Z then (- f a <? - f b)%Z else less a b)) as Hx.
  { intros a b. destruct (Z.eqb_spec (f a) (f b)), (Z.eqb_spec (- f a) (- f b)); try lia; [done|]. cbn [negb].
    destruct (Z.ltb_spec (f b) (f a)), (Z.ltb_spec (- f a) (- f b)); lia || done. }
  split; intros *; rewrite !Hx; [apply Ha|apply Hn].
Qed.

Lemma weakOrder_ltb {A} (f : A -> Z) : WeakOrder (fun a b => (f a <? f b)%Z).
Proof. split; intros *; rewrite ?Z.ltb_lt, ?Z.ltb_ge; lia. Qed.

#[export] Instance Less_weakOrder : WeakOrder Less.
Proof.
  apply (weakOrder_lex_down (fun r => getPathMatchType (er_Match r))), (weakOrder_lex (fun r => pathMatchCount (er_Match r))),
    (weakOrder_lex (fun r => Z.of_nat (length (GetHeaders (er_Match r))))),
    (weakOrder_lex (fun r => numberOfExactHeaderMatches (GetHeaders (er_Match r)))),
    (weakOrder_lex (fun r => Z.of_nat (length (GetQueryParameters (er_Match r))))),
    (weakOrder_ltb (fun r => numberOfExactQueryParamMatches (GetQueryParameters (er_Match r)))).
Qed.

Lemma string_less_total s t : string_less s t = false -> string_less t s = false -> s = t.
Proof.
  revert t. induction s as [|c s IH]; intros [|d t]; cbn [string_less]; try done.
  destruct (Ascii.eqb_spec c d) as [->|Hne]; [rewrite Ascii.eqb_refl; intros; f_equal; auto|].
  destruct (Ascii.eqb_spec d c) as [|_]; [congruence|]. intros H1%Nat.ltb_ge H2%Nat.ltb_ge. exfalso. apply Hne.
  rewrite <- (ascii_nat_embedding c), <- (ascii_nat_embedding d). f_equal. lia.
Qed.

#[export] Instance string_less_weakOrder : WeakOrder string_less.
Proof.
  split.
  - intros s. induction s as [|c s IH]; intros [|d t]; cbn [string_less]; try done. rewrite (Ascii.eqb_sym d c).
    destruct (Ascii.eqb c d); [apply IH|]. rewrite Nat.ltb_lt, Nat.ltb_ge. lia.
  - intros s. induction s as [|c s IH]; intros [|d t] [|e u]; cbn [string_less]; try done.
    destruct (Ascii.eqb_spec d c) as [->|H1], (Ascii.eqb_spec e c) as [->|H2]; rewrite ?Ascii.eqb_refl.
    + apply IH.
    + by intros _.
    + destruct (Ascii.eqb_spec c d); [congruence|]. intros Ha%Nat.ltb_ge Hb%Nat.ltb_ge. exfalso. apply H1.
      rewrite <- (ascii_nat_embedding c), <- (ascii_nat_embedding d). f_equal. lia.
    + destruct (Ascii.eqb_spec e d) as [->|H3]; intros Ha%Nat.ltb_ge; [intros _; by apply Nat.ltb_ge|].
      intros Hb%Nat.ltb_ge. apply Nat.ltb_ge. lia.
Qed.

#[export] Instance routeKeyLess_weakOrder routes : WeakOrder (routeKeyLess routes).
Proof.
  set (order := fun k => match routes !! k with Some r => rr_Order r | None => 0%Z end).
  pose proof (weakOrder_lex order string_less string_less_weakOrder) as [Ha Hn].
  assert (forall a b, routeKeyLess routes a b = (if negb (order a =? order b)%Z then (order a <? order b)%Z else string_less a b)) as Hx.
  { intros a b. unfold routeKeyLess, order. by destruct (_ =? _)%Z. }
  split; intros *; rewrite !Hx; [apply Ha|apply Hn].
Qed.

Lemma routeKeyLess_tie routes a b : tie (routeKeyLess routes) a b = true -> a = b.
Proof.
  unfold tie, routeKeyLess. set (order := fun k => match routes !! k with Some r => rr_Order r | None => 0%Z end).
  change (negb (if (order a =? order b)%Z then string_less a b else (order a <? order b)%Z) &&
          negb (if (order b =? order a)%Z then string_less b a else (order b <? order a)%Z) = true -> a = b).
  rewrite andb_true_iff, !negb_true_iff, (Z.eqb_sym (order b)). destruct (Z.eqb_spec (order a) (order b)); intros [H1 H2].
  - by apply string_less_total.
  - apply Z.ltb_ge in H1, H2. lia.
Qed.

(** ** Precedence *)

Lemma SortRoutes_stable routes : SortRoutesByPriority routes = stableSort (fun a b => Less b a) routes.
Proof. unfold SortRoutesByPriority. by destruct routes as [|r [|]]. Qed.

(** *** What the precedence of routes is meant to be

    The documented order, highest first: an exact path before a regular
    expression before a prefix, then the longer path (a prefix [/] counts as
    no path), then more header matchers, then more of them that compare the
    whole value, then more query parameter matchers, then more of those that
    do. *)
Definition shapeRank (r : EnvoyRoute) : nat :=
  match m_PathSpecifier <$> er_Match r with
  | Some (PathExact _) => 3
  | Some (PathRegex _) => 2
  | Some (PathPrefix _) => 1
  | Some NoPath | None => 0
  end.

Definition pathText (r : EnvoyRoute) : string :=
  match m_PathSpecifier <$> er_Match r with
  | Some (PathExact path) => path
  | Some (PathRegex regex) => default "" regex
  | Some (PathPrefix prefix) => if decide (prefix = "/") then "" else prefix
  | Some NoPath | None => ""
  end.

Definition wholeValueHeader (h : option HeaderMatcher) : Prop :=
  exists name value, h = Some (mkHeaderMatcher name (StringMatch value)) /\ value <> "".
#[export] Instance wholeValueHeader_dec h : Decision (wholeValueHeader h).
Proof.
  refine (match h with
          | Some (mkHeaderMatcher n (StringMatch v)) => if decide (v = "") then right _ else left _
          | _ => right _
          end); unfold wholeValueHeader; naive_solver.
Defined.

Definition wholeValueParameter (q : option QueryParameterMatcher) : Prop :=
  exists name value, q = Some (mkQueryParameterMatcher name (Some value)) /\ value <> "".
#[export] Instance wholeValueParameter_dec q : Decision (wholeValueParameter q).
Proof.
  refine (match q with
          | Some (mkQueryParameterMatcher n (Some v)) => if decide (v = "") then right _ else left _
          | _ => right _
          end); unfold wholeValueParameter; naive_solver.
Defined.

Definition headersOf (r : EnvoyRoute) : list (option HeaderMatcher) := default [] (m_Headers <$> er_Match r).
Definition parametersOf (r : EnvoyRoute) : list (option QueryParameterMatcher) := default [] (m_QueryParameters <$> er_Match r).

Definition precedence (r : EnvoyRoute) : list nat :=
  [shapeRank r; String.length (pathText r);
   length (headersOf r); length (filter wholeValueHeader (headersOf r));
   length (parametersOf r); length (filter wholeValueParameter (parametersOf r))].

(** The first difference decides. *)
Inductive greater : list nat -> list nat -> Prop :=
| greaterHere x y l l' : y < x -> greater (x :: l) (y :: l')
| greaterLater x l l' : greater l l' -> greater (x :: l) (x :: l').

Definition outranks (r r' : EnvoyRoute) : Prop := greater (precedence r) (precedence r').

Lemma greater_cons x y l l' : greater (x :: l) (y :: l') <-> y < x \/ x = y /\ greater l l'.
Proof.
  split; [inversion 1; auto|]. intros [?|[-> ?]]; [by apply greaterHere|by apply greaterLater].
Qed.
Lemma greater_nil : ~ greater [] [].
Proof. inversion 1. Qed.

Lemma greater_incomparable l l' : length l = length l' -> ~ greater l l' -> ~ greater l' l -> l = l'.
Proof.
  revert l'. induction l as [|x l IH]; intros [|y l'] Hlen; try done. rewrite !greater_cons. intros H1 H2.
  assert (x = y) as -> by lia. f_equal. apply IH; [by injection Hlen|naive_solver..].
Qed.

Lemma countExactHeaders hs : numberOfExactHeaderMatches hs = Z.of_nat (length (filter wholeValueHeader hs)).
Proof.
  unfold numberOfExactHeaderMatches. induction hs as [|h hs IH] using rev_ind; [done|].
  rewrite foldl_app, filter_app, length_app, IH. cbn [foldl]. rewrite filter_cons, filter_nil.
  destruct (decide (wholeValueHeader h)) as [(n&v&->&Hv)|Hn]; cbn.
  - destruct (String.eqb_spec v ""); [done|]. cbn. lia.
  - destruct h as [[n [v| |]]|]; cbn; try lia. destruct (String.eqb_spec v ""); cbn; [lia|]. destruct Hn. by exists n, v.
Qed.

Lemma countExactParameters qs : numberOfExactQueryParamMatches qs = Z.of_nat (length (filter wholeValueParameter qs)).
Proof.
  unfold numberOfExactQueryParamMatches. induction qs as [|q qs IH] using rev_ind; [done|].
  rewrite foldl_app, filter_app, length_app, IH. cbn [foldl]. rewrite filter_cons, filter_nil.
  destruct (decide (wholeValueParameter q)) as [(n&v&->&Hv)|Hn]; cbn.
  - destruct (String.eqb_spec v ""); [done|]. cbn. lia.
  - destruct q as [[n [v|]]|]; cbn; try lia. destruct (String.eqb_spec v ""); cbn; [lia|]. destruct Hn. by exists n, v.
Qed.

Lemma pathType_rank r : getPathMatchType (er_Match r) = (3 - Z.of_nat (shapeRank r))%Z.
Proof. unfold getPathMatchType, shapeRank. destruct (er_Match r) as [m|]; [|done]. cbn. by destruct (m_PathSpecifier m). Qed.

Lemma pathCount_text r : pathMatchCount (er_Match r) = Z.of_nat (String.length (pathText r)).
Proof.
  unfold pathMatchCount, pathText. destruct (er_Match r) as [m|]; [|done]. cbn. destruct (m_PathSpecifier m) as [|[]|p|]; try done.
  destruct (String.eqb_spec p "/"), (decide (p = "/")); done.
Qed.

Lemma GetHeaders_of r : GetHeaders (er_Match r) = headersOf r.
Proof. unfold headersOf. by destruct (er_Match r). Qed.
Lemma GetQueryParameters_of r : GetQueryParameters (er_Match r) = parametersOf r.
Proof. unfold parametersOf. by destruct (er_Match r). Qed.

(** One comparison of [Less]; the kinds of path count downwards. *)
Lemma compare_step (x y : nat) b l l' : (b = true <-> greater l l') ->
  (if negb (Z.of_nat x =? Z.of_nat y)%Z then (Z.of_nat x <? Z.of_nat y)%Z else b) = true <-> greater (y :: l) (x :: l').
Proof.
  intros Hb. rewrite greater_cons. destruct (Z.eqb_spec (Z.of_nat x) (Z.of_nat y)); cbn [negb]; [rewrite Hb|rewrite Z.ltb_lt]; naive_solver lia.
Qed.
Lemma compare_kind (x y : nat) b l l' : (b = true <-> greater l l') ->
  (if negb (3 - Z.of_nat x =? 3 - Z.of_nat y)%Z then (3 - Z.of_nat y <? 3 - Z.of_nat x)%Z else b) = true <-> greater (y :: l) (x :: l').
Proof.
  intros Hb. rewrite greater_cons. destruct (Z.eqb_spec (3 - Z.of_nat x) (3 - Z.of_nat y)); cbn [negb]; [rewrite Hb|rewrite Z.ltb_lt]; naive_solver lia.
Qed.
Lemma compare_last (x y : nat) : (Z.of_nat x <? Z.of_nat y)%Z = true <-> greater [y] [x].
Proof. rewrite greater_cons, Z.ltb_lt. split; [left; lia|intros [?|[_ []%greater_nil]]; lia]. Qed.

(** [Less] is the documented order, reversed. *)
Lemma Less_outranks r r' : Less r r' = true <-> outranks r' r.
Proof.
  unfold outranks, precedence, Less.
  rewrite !pathType_rank, !pathCount_text, !countExactHeaders, !countExactParameters, !GetHeaders_of, !GetQueryParameters_of.
  apply compare_kind. do 4 apply compare_step. apply compare_last.
Qed.

Lemma Less_tie r r' : negb (Less r r') && negb (Less r' r) = bool_decide (precedence r' = precedence r).
Proof.
  apply eq_bool_prop_intro. rewrite andb_True, bool_decide_spec, !negb_True, !Is_true_true, !Less_outranks. split.
  - intros [H1 H2]. by apply greater_incomparable.
  - unfold outranks. intros ->. split; induction (precedence r) as [|x l IH]; [by apply greater_nil|rewrite greater_cons; naive_solver lia|by apply greater_nil|rewrite greater_cons; naive_solver lia].
Qed.

(** C20: Envoy, which takes the first route that matches, takes the best: the
    route it finds in the sorted list of a virtual host matches the request,
    no other matching route outranks it in the documented order (exact path
    before regular expression before prefix, then the longer path, then more
    header matchers, more whole-value header matchers, more query parameter
    matchers, more whole-value ones, the first difference deciding), and
    among the matching routes of the same precedence it is the one that came
    first.  In particular a matching exact path is never hidden by a pattern.
    A request without a matching route finds none. *)
Theorem best_route_wins (matches : EnvoyRoute -> bool) routes :
  match List.find matches (SortRoutesByPriority routes) with
  | Some r => r ∈ routes /\ matches r = true /\
      (forall r', r' ∈ routes -> matches r' = true -> ~ outranks r' r) /\
      List.find (fun r' => matches r' && bool_decide (precedence r' = precedence r)) routes = Some r /\
      ((exists r' m path, r' ∈ routes /\ matches r' = true /\ er_Match r' = Some m /\ m_PathSpecifier m = PathExact path) ->
       exists m path, er_Match r = Some m /\ m_PathSpecifier m = PathExact path)
  | None => forall r, r ∈ routes -> matches r = false
  end.
Proof.
  rewrite SortRoutes_stable. destruct (List.find _ _) as [r|] eqn:E; [|by apply (find_stableSort_None (fun a b => Less b a) matches)].
  destruct (find_stableSort (fun a b => Less b a) matches routes r E) as (Hin&Hm&Hmin&Hf).
  assert (forall r', r' ∈ routes -> matches r' = true -> ~ outranks r' r) as Hbest.
  { intros r' Hr' Hm'. rewrite <- Less_outranks. by rewrite (Hmin r' Hr' Hm'). }
  split_and!; try done.
  - rewrite <- Hf. clear. induction routes as [|y l IH]; [done|]. cbn [List.find].
    rewrite <- Less_tie. unfold tie at 1. rewrite (andb_comm (negb (Less y r))). by rewrite IH.
  - intros (r'&m'&path'&Hr'&Hm'&Ha&Hs). specialize (Hbest r' Hr' Hm'). unfold outranks, precedence in Hbest. rewrite greater_cons in Hbest.
    revert Hbest. unfold shapeRank. rewrite Ha. cbn. rewrite Hs. destruct (er_Match r) as [m|]; cbn; [|lia].
    destruct (m_PathSpecifier m) eqn:Hp; [eauto|lia..].
Qed.

(** The routes of an API are emitted in the order of its operations,
    whatever order the runtime iterates maps in: two runs give the same list,
    with one route for every entry. *)
Theorem route_order_is_deterministic tc kind (R1 R2 : MapRange) routes clusters :
  routesOfRuntimeConfig (H := R1) tc kind routes clusters = routesOfRuntimeConfig (H := R2) tc kind routes clusters /\
  routesOfRuntimeConfig (H := R1) tc kind routes clusters ≡ₚ
    (fun '(k, r) => createRouteFromRDC tc k r kind clusters) <$> map_to_list routes.
Proof.
  unfold routesOfRuntimeConfig. split.
  - f_equal. apply stableSort_perm_eq; [apply _|intros x y _ _; apply routeKeyLess_tie|apply range_NoDup|]. by rewrite !range_perm.

  - rewrite (stableSort_perm (routeKeyLess routes)), range_perm.
    assert (forall l, (forall k r, (k, r) ∈ l -> routes !! k = Some r) ->
      omap (fun routeKey => (fun r => createRouteFromRDC tc routeKey r kind clusters) <$> routes !! routeKey) l.*1 =
      (fun '(k, r) => createRouteFromRDC tc k r kind clusters) <$> l) as Hl.
    { induction l as [|[k r] l IH]; intros Hin; [done|]. cbn. rewrite (Hin k r) by left. cbn. f_equal. apply IH. intros; apply Hin. by right. }
    rewrite Hl; [done|]. intros k r. apply elem_of_map_to_list.
Qed.

(** ** Strings *)

Lemma HasSuffix_append (a b : string) : HasSuffix (a +:+ b) b = true.
Proof. unfold HasSuffix. rewrite string_rev_app_distr. apply HasPrefix_append. Qed.

Lemma string_rev_length s : String.length (string_rev s) = String.length s.
Proof.
  induction s as [|c s IH]; [done|]. unfold string_rev in *. cbn [string_rev_app]. rewrite string_rev_app_spec, length_append.
  unfold string_rev. rewrite IH. cbn. lia.
Qed.

Lemma TrimSuffix_append (a b : string) : TrimSuffix (a +:+ b) b = a.
Proof.
  unfold TrimSuffix. rewrite HasSuffix_append, string_rev_app_distr, <- (string_rev_length b), string_drop_append.
  apply string_rev_involutive.
Qed.

Lemma string_take_append (a b : string) : string_take (String.length a) (a +:+ b) = a.
Proof. induction a as [|c a IH]; [by destruct b|]. rewrite append_cons. cbn [String.length string_take]. by rewrite IH. Qed.

Lemma append_inj_l (a b c : string) : (a +:+ b = a +:+ c)%string -> b = c.
Proof. induction a as [|d a IH]; [done|]. rewrite !append_cons. intros [= E]. by apply IH. Qed.

Lemma QuoteMeta_app p q : QuoteMeta (p +:+ q) = (QuoteMeta p +:+ QuoteMeta q)%string.
Proof.
  induction p as [|c p IH]; [done|]. rewrite append_cons. cbn [QuoteMeta]. by destruct (special c); rewrite IH, ?append_cons.
Qed.

Lemma QuoteMeta_absent b p : b <> backslash -> String_contains_byte b (QuoteMeta p) = String_contains_byte b p.
Proof.
  intros Hb. induction p as [|c p IH]; [done|]. cbn [QuoteMeta]. destruct (special c); cbn [String_contains_byte]; rewrite IH; [|done].
  by rewrite (proj2 (Ascii.eqb_neq b backslash) Hb).
Qed.

Lemma HasPrefix_nil s : HasPrefix s "" = true.
Proof. by destruct s. Qed.

(** The first escaped byte is where that byte first occurs. *)
Lemma Index_escaped b (A B : string) : b <> backslash -> String_contains_byte b A = false ->
  Index (A +:+ String backslash (String b B)) (String backslash (String b "")) = Some (String.length A).
Proof.
  intros Hb. induction A as [|c A IH]; intros HA.
  { rewrite append_empty. cbn [Index HasPrefix]. by rewrite !Ascii.eqb_refl, HasPrefix_nil. }
  cbn [String_contains_byte] in HA. apply orb_false_iff in HA as [Hc HA]. rewrite append_cons. cbn [Index HasPrefix].
  assert (HasPrefix (A +:+ String backslash (String b B)) (String b "") = false) as Hp.
  { destruct A as [|d A]; [rewrite append_empty|rewrite append_cons]; cbn [HasPrefix].
    - by rewrite (proj2 (Ascii.eqb_neq backslash b)) by congruence.
    - cbn [String_contains_byte] in HA. apply orb_false_iff in HA as [Hd _]. by rewrite Ascii.eqb_sym, Hd. }
  rewrite Hp, andb_false_r, (IH HA). done.
Qed.

Lemma Index_absent b s : String_contains_byte b s = false -> Index s (String backslash (String b "")) = None.
Proof.
  induction s as [|c s IH]; [done|]. cbn [String_contains_byte]. intros [_ Hs]%orb_false_iff. cbn [Index HasPrefix].
  replace (HasPrefix s (String b "")) with false; [by rewrite andb_false_r, (IH Hs)|].
  destruct s as [|d s]; [done|]. cbn [String_contains_byte] in Hs. apply orb_false_iff in Hs as [Hd _].
  cbn [HasPrefix]. by rewrite Ascii.eqb_sym, Hd.
Qed.

(** ** Path templates *)

Inductive Piece : Type := PText (s : string) | PParam (name : string).

Definition noBraces (s : string) : bool := negb (String_contains_byte "{" s) && negb (String_contains_byte "}" s).
Definition pieceOk (p : Piece) : bool := match p with PText s => noBraces s | PParam n => noBraces n end.

Fixpoint render (ps : list Piece) : string :=
  match ps with
  | [] => ""
  | PText s :: ps' => s +:+ render ps'
  | PParam n :: ps' => "{" +:+ n +:+ "}" +:+ render ps'
  end.

(** The paths of a template: every placeholder stands for a non-empty text
    without a slash. *)
Fixpoint matchesTemplate (ps : list Piece) (p : string) : Prop :=
  match ps with
  | [] => p = ""
  | PText s :: ps' => exists p', p = (s +:+ p')%string /\ matchesTemplate ps' p'
  | PParam _ :: ps' => exists seg p', p = (seg +:+ p')%string /\ seg <> "" /\ String_contains_byte "/" seg = false /\ matchesTemplate ps' p'
  end.

Fixpoint templateRegex (ps : list Piece) : string :=
  match ps with
  | [] => ""
  | PText s :: ps' => QuoteMeta s +:+ templateRegex ps'
  | PParam _ :: ps' => "[^/]+" +:+ templateRegex ps'
  end.

Fixpoint templateToks (ps : list Piece) : list Tok :=
  match ps with
  | [] => []
  | PText s :: ps' => (lits s ++ templateToks ps')%list
  | PParam _ :: ps' => Segment :: templateToks ps'
  end.

Fixpoint placeholders (ps : list Piece) : nat :=
  match ps with [] => 0 | PText _ :: ps' => placeholders ps' | PParam _ :: ps' => S (placeholders ps') end.

Lemma noBraces_iff s : noBraces s = true <-> String_contains_byte "{" s = false /\ String_contains_byte "}" s = false.
Proof. unfold noBraces. by rewrite andb_true_iff, !negb_true_iff. Qed.

Lemma noBraces_app a b : noBraces a = true -> noBraces b = true -> noBraces (a +:+ b) = true.
Proof. rewrite !noBraces_iff, !String_contains_byte_append. intros [-> ->] [-> ->]. done. Qed.

Lemma noBraces_quote s : noBraces s = true -> noBraces (QuoteMeta s) = true.
Proof. by rewrite !noBraces_iff, !QuoteMeta_absent. Qed.

Lemma QuoteMeta_param n rest :
  QuoteMeta ("{" +:+ n +:+ "}" +:+ rest) =
    (String backslash (String "{" (QuoteMeta n +:+ String backslash (String "}" (QuoteMeta rest)))))%string.
Proof. rewrite !QuoteMeta_app. by vm_compute (QuoteMeta "{"); vm_compute (QuoteMeta "}"). Qed.

Lemma replacePlaceholders_spec ps : forall fuel A, Forall (fun p => pieceOk p = true) ps -> noBraces A = true ->
  placeholders ps <= fuel -> replacePlaceholders fuel (A +:+ QuoteMeta (render ps)) = (A +:+ templateRegex ps)%string.
Proof.
  induction ps as [|[s|n] ps IH]; intros fuel A Hok HA Hf.
  - cbn [render QuoteMeta templateRegex]. rewrite append_nil_r. destruct fuel; [done|]. cbn [replacePlaceholders].
    apply noBraces_iff in HA as [HA _]. by rewrite (Index_absent _ _ HA).
  - apply Forall_cons in Hok as [Hs Hok]. cbn [render templateRegex placeholders] in *. rewrite QuoteMeta_app, <- append_assoc_s.
    rewrite IH; [by rewrite append_assoc_s|done| |done]. apply noBraces_app; [done|]. by apply noBraces_quote.
  - apply Forall_cons in Hok as [Hn Hok]. cbn [render templateRegex placeholders] in *. destruct fuel as [|fuel]; [lia|].
    rewrite QuoteMeta_param. cbn [replacePlaceholders]. cbn [pieceOk] in Hn. apply noBraces_quote in Hn.
    pose proof (proj1 (noBraces_iff _) HA) as [HA1 HA2]. pose proof (proj1 (noBraces_iff _) Hn) as [Hn1 Hn2].
    rewrite (Index_escaped "{" A) by done.
    set (R := QuoteMeta (render ps)). set (q := QuoteMeta n) in *.
    assert (A +:+ String backslash (String "{" (q +:+ String backslash (String "}" R))) =
            (A +:+ String backslash (String "{" q)) +:+ String backslash (String "}" R))%string as E by (by rewrite append_assoc_s).
    assert (String.length (A +:+ String backslash (String "{" q)) = String.length A + 2 + String.length q) as HL by (rewrite length_append; cbn; lia).
    rewrite E, (Index_escaped "}" (A +:+ String backslash (String "{" q))); [|done|].
    2:{ rewrite String_contains_byte_append, HA2. exact Hn2. }
    destruct (Nat.ltb_spec (String.length A) (String.length (A +:+ String backslash (String "{" q)))); [|lia].
    assert (string_drop (String.length (A +:+ String backslash (String "{" q)) + 2)
              ((A +:+ String backslash (String "{" q)) +:+ String backslash (String "}" R)) = R)%string as ->.
    { replace ((A +:+ String backslash (String "{" q)) +:+ String backslash (String "}" R))%string
        with ((A +:+ String backslash (String "{" q) +:+ String backslash (String "}" "")) +:+ R)%string by (by rewrite !append_assoc_s).
      rewrite <- (string_drop_append (A +:+ String backslash (String "{" q) +:+ String backslash (String "}" "")) R) at 2.
      f_equal. rewrite !length_append. cbn [String.length]. lia. }
    rewrite <- E, string_take_append, <- append_assoc_s. unfold R. rewrite IH; [by rewrite append_assoc_s|done| |lia].
    by apply noBraces_app.
Qed.

Lemma placeholders_length ps : placeholders ps <= String.length (QuoteMeta (render ps)).
Proof.
  induction ps as [|[s|n] ps IH]; [cbn; lia| |]; cbn [placeholders render].
  - rewrite QuoteMeta_app, length_append. lia.
  - rewrite QuoteMeta_param. cbn [String.length]. rewrite length_append. cbn [String.length]. lia.
Qed.

Lemma pathToRegex_template ps : Forall (fun p => pieceOk p = true) ps ->
  pathToRegex (render ps) = ("^" +:+ templateRegex ps +:+ "$")%string.
Proof.
  intros Hok. unfold pathToRegex. pose proof (replacePlaceholders_spec ps (String.length (QuoteMeta (render ps))) "" Hok eq_refl) as Hr.
  rewrite !append_empty in Hr. rewrite Hr; [done|]. apply placeholders_length.
Qed.

Lemma noQuestion_template ps : noQuestion (templateRegex ps +:+ "$") = true.
Proof.
  induction ps as [|[s|n] ps IH]; [done| |done]. cbn [templateRegex]. rewrite append_assoc_s. by apply noQuestion_quote.
Qed.

Lemma parse_template ps : parseRe ("^" +:+ templateRegex ps +:+ "$") = Some (templateToks ps).
Proof.
  change (parseBody (templateRegex ps +:+ "$") = Some (templateToks ps)).
  induction ps as [|[s|n] ps IH]; [done| |]; cbn [templateRegex templateToks]; rewrite append_assoc_s.
  - rewrite parse_quote, IH; [done|]. apply noQuestion_template.
  - by rewrite parse_segment, IH.
Qed.

Lemma match_template ps p : matchToks (templateToks ps) p = true <-> matchesTemplate ps p.
Proof.
  revert p. induction ps as [|[s|n] ps IH]; intros p; cbn [templateToks matchesTemplate].
  - cbn. apply String.eqb_eq.
  - rewrite match_lits. by setoid_rewrite IH.
  - cbn [matchToks]. rewrite nonSlashes_spec. by setoid_rewrite IH.
Qed.

(** Quoted text followed by a construct. *)
Lemma parse_quoted_re p rest toks : noQuestion rest = true -> parseBody rest = Some toks ->
  parseRe ("^" +:+ QuoteMeta p +:+ rest) = Some (lits p ++ toks)%list.
Proof. intros Hq Hr. change (parseBody (QuoteMeta p +:+ rest) = Some (lits p ++ toks)%list). by rewrite parse_quote, Hr. Qed.

(** ** What an operation matches *)

Section Matching.
Context `{Re2Engine}.

(** The path test of Envoy; a regular expression must match the whole path. *)
Definition pathMatches (spec : PathSpecifier) (path : string) : bool :=
  match spec with
  | PathExact p => String.eqb p path
  | PathRegex (Some r) => FullMatch r path
  | PathPrefix p => HasPrefix path p
  | PathRegex None | NoPath => false
  end.

Lemma lits_nil_r p : lits p = (lits p ++ [])%list.
Proof. by rewrite app_nil_r. Qed.

(** Text with an optional slash at the end. *)
Lemma optional_slash p path :
  FullMatch ("^" +:+ QuoteMeta p +:+ "/?$") path = true <-> path = p \/ path = (p +:+ "/")%string.
Proof.
  rewrite (FullMatch_fragment _ (lits p ++ [OptSlash])%list) by (by apply parse_quoted_re). rewrite match_lits. cbn [matchToks].
  setoid_rewrite orb_true_iff. setoid_rewrite String.eqb_eq. split.
  - intros (s'&->&[->|Hs]); [left; apply append_nil_r|right]. destruct s' as [|d s']; [done|]. cbn [afterSlash] in Hs.
    apply andb_true_iff in Hs as [->%Ascii.eqb_eq ->%String.eqb_eq]. done.
  - intros [->| ->]; [exists ""; split; [by rewrite append_nil_r|by left]|exists "/"; split; [done|by right]].
Qed.

(** Text, then nothing or a slash and anything. *)
Lemma prefix_segments p path :
  FullMatch ("^" +:+ QuoteMeta p +:+ "(?:/.*)?$") path = true <->
    path = p \/ exists rest, path = (p +:+ "/" +:+ rest)%string /\ noNewline rest = true.
Proof.
  rewrite (FullMatch_fragment _ (lits p ++ [OptRest])%list) by (by apply parse_quoted_re). rewrite match_lits. cbn [matchToks].
  setoid_rewrite orb_true_iff. setoid_rewrite String.eqb_eq. split.
  - intros (s'&->&[->|Hs]); [left; apply append_nil_r|right]. destruct s' as [|d s']; [done|]. cbn [afterSlash] in Hs.
    apply andb_true_iff in Hs as [->%Ascii.eqb_eq Hs]. exists s'. by rewrite dotStar_end in Hs.
  - intros [->|(rest&->&Hn)]; [exists ""; split; [by rewrite append_nil_r|by left]|]. exists ("/" +:+ rest)%string. split; [done|]. right.
    rewrite append_cons, append_empty. cbn [afterSlash]. by rewrite dotStar_end.
Qed.

Definition operationPaths (context : string) (op : string) (exact : bool) (path : string) : Prop :=
  if HasSuffix op "/*" then
    path = (context +:+ TrimSuffix op "/*")%string \/
    exists rest, path = (context +:+ TrimSuffix op "/*" +:+ "/" +:+ rest)%string /\ noNewline rest = true
  else if String.eqb op "/" then path = context \/ path = (context +:+ "/")%string
  else if exact then path = (context +:+ op)%string
  else path = (context +:+ op)%string \/ path = (context +:+ op +:+ "/")%string.

Lemma TrimSuffix_context (context op suffix : string) :
  HasSuffix op suffix = true -> TrimSuffix (context +:+ op) suffix = (context +:+ TrimSuffix op suffix)%string.
Proof.
  intros Hs. unfold TrimSuffix, HasSuffix in *. rewrite Hs, string_rev_app_distr.
  assert (forall a b, HasPrefix a b = true -> exists r, a = (b +:+ r)%string) as Hp.
  { clear. intros a b. revert a. induction b as [|c b IH]; intros a; [by exists a|]. destruct a as [|d a]; [done|]. cbn [HasPrefix].
    intros [->%Ascii.eqb_eq Ha]%andb_true_iff. destruct (IH a Ha) as [r ->]. by exists r. }
  destruct (Hp _ _ Hs) as [r Hr]. rewrite Hr, append_assoc_s, HasPrefix_append, <- (string_rev_length suffix), !string_drop_append.
  by rewrite string_rev_app_distr, string_rev_involutive.
Qed.

(** The path matcher of an operation accepts exactly the paths its
    definition describes, below the context of the API: a wildcard its prefix
    and everything under it but no sibling such as [/api2] for [/api/*]; the
    root and a plain path with or without a slash at the end; an exact path
    itself alone; and a path with placeholders every instance of the
    template, a placeholder standing for one non-empty segment. *)
Theorem operations_match_their_paths context op r path :
  rr_Path r = (context +:+ op)%string -> rr_OperationPath r = op ->
  let spec := setMatchPathSpecifier (rr_Path r) (rr_OperationPath r) r in
  (Contains op "{" = false ->
   (pathMatches spec path = true <-> operationPaths context op (EqualFold (rr_PathMatchType r) "Exact") path)) /\
  (forall ps, op = render ps -> Forall (fun p => pieceOk p = true) ps -> noBraces context = true ->
     Contains op "{" = true -> HasSuffix op "/*" = false ->
     (pathMatches spec path = true <-> matchesTemplate (PText context :: ps) path)).
Proof.
  intros Hp Ho. rewrite Hp, Ho. unfold setMatchPathSpecifier, operationPaths. cbn zeta. split.
  - intros Hc. rewrite Hc. destruct (HasSuffix op "/*") eqn:Hw.
    { cbn [pathMatches]. rewrite TrimSuffix_context by done. rewrite prefix_segments. by setoid_rewrite append_assoc_s. }
    destruct (String.eqb_spec op "/") as [->|Hr].
    { cbn [pathMatches]. by rewrite TrimSuffix_append, optional_slash. }
    destruct (EqualFold _ _); cbn [pathMatches].
    + rewrite String.eqb_eq. naive_solver.
    + by rewrite optional_slash, append_assoc_s.
  - intros ps Hps Hok Hctx Hc Hw. rewrite Hc, Hw. cbn [pathMatches].
    change (context +:+ op)%string with (context +:+ op)%string. rewrite Hps.
    change (context +:+ render ps)%string with (render (PText context :: ps)).
    assert (Forall (fun p => pieceOk p = true) (PText context :: ps)) as Hok' by (by constructor).
    rewrite (pathToRegex_template _ Hok'), (FullMatch_fragment _ _ _ (parse_template _)). apply match_template.
Qed.

(** ** The path the upstream sees *)

Definition upstreamBase (up : string) : string := if String.eqb up "/" || String.eqb up "" then "" else up.

Lemma optional_slash_substitute p path sub : path = p \/ path = (p +:+ "/")%string ->
  Substitute ("^" +:+ QuoteMeta p +:+ "/?$") sub path = expandSubst sub "".
Proof.
  intros Hp. eapply Substitute_fragment; [by apply (parse_quoted_re p "/?$" [OptSlash])|].
  destruct Hp as [->| ->]; [rewrite <- (append_nil_r p) at 2|]; by rewrite capture_lits.
Qed.

Lemma expandSubst_const p g : String_contains_byte backslash p = false -> expandSubst p g = p.
Proof. intros Hp. rewrite <- (append_nil_r p) at 1. rewrite (expandSubst_plain p "" g Hp). apply append_nil_r. Qed.

Lemma expandSubst_group p g : String_contains_byte backslash p = false ->
  expandSubst (p +:+ String backslash "1") g = (p +:+ g)%string.
Proof. intros Hp. rewrite (expandSubst_plain _ _ _ Hp). f_equal. cbn. apply append_nil_r. Qed.

(** The rewrite sends a request to the base path of its upstream with the
    context of the API taken off and nothing else changed: what follows the
    context is kept byte for byte; the root operation goes to the base path
    and a slash; a wildcard on a root upstream always yields a path that
    starts with a slash; and the resource of an MCP proxy goes to the base
    path itself. *)
Theorem rewrite_replaces_the_context tc key r kind clusters context up path rest :
  rr_Path r = (context +:+ rr_OperationPath r)%string ->
  up = match clusters !! ru_ClusterKey (rr_Upstream r) with Some uc => uc_BasePath uc | None => "" end ->
  String_contains_byte backslash up = false -> noNewline rest = true -> path = (context +:+ rest)%string ->
  match er_Action (createRouteFromRDC tc key r kind clusters) with
  | Forward _ _ _ _ (pattern, substitution) =>
      let op := rr_OperationPath r in
      let isMcp := String.eqb kind KindMcp && String.eqb op MCP_RESOURCE_PATH && negb (tc_AppendResourcePathToBackend tc) in
      let result := Substitute pattern substitution path in
      if isMcp then (rest = op \/ rest = (op +:+ "/")%string) -> result = (if String.eqb (upstreamBase up) "" then "/" else up)
      else if String.eqb op "/" then (rest = "" \/ rest = "/") -> result = (upstreamBase up +:+ "/")%string
      else if HasSuffix op "/*" && String.eqb (upstreamBase up) "" then
        (rest = "" -> result = "/") /\ (forall rest', rest = String "/" rest' -> result = rest)
      else result = (upstreamBase up +:+ rest)%string
  | DirectResponse _ _ => False
  end.
Proof.
  intros Hp Hup Hbs Hnl Hpath. cbn [createRouteFromRDC er_Action]. rewrite <- Hup, Hp, TrimSuffix_append. unfold regexRewriteOf.
  change (if String.eqb up "/" || String.eqb up "" then "" else up) with (upstreamBase up).
  assert (String_contains_byte backslash (upstreamBase up) = false) as Hb by (unfold upstreamBase; by destruct (_ || _)).
  assert (String.eqb up "/" || String.eqb up "" = String.eqb (upstreamBase up) "") as Hroot.
  { unfold upstreamBase. destruct (String.eqb up "/"); [done|]. cbn [orb]. by destruct (String.eqb up "") eqn:E. }
  rewrite Hroot. destruct (String.eqb kind KindMcp && _ && _).
  { intros Hrest. rewrite optional_slash_substitute by (rewrite Hpath; destruct Hrest as [->| ->]; rewrite ?append_assoc_s; auto).
    destruct (String.eqb_spec (upstreamBase up) ""); [done|]. rewrite expandSubst_const by done. unfold upstreamBase in *. by destruct (_ || _). }
  destruct (String.eqb (rr_OperationPath r) "/").
  { intros Hrest. rewrite optional_slash_substitute by (rewrite Hpath; destruct Hrest as [->| ->]; rewrite ?append_nil_r; auto).
    apply expandSubst_const. by rewrite String_contains_byte_append, Hb. }
  destruct (HasSuffix (rr_OperationPath r) "/*" && String.eqb (upstreamBase up) "").
  - assert (forall rest' g, path = (context +:+ rest')%string -> captureToks [OptSlash; AnyRest] rest' = Some g ->
      Substitute ("^" +:+ QuoteMeta context +:+ "/?(.*)$") ("/" +:+ String backslash "1") path = ("/" +:+ g)%string) as Hs.
    { intros rest' g -> Hg. rewrite (Substitute_fragment _ (lits context ++ [OptSlash; AnyRest])%list _ _ g).
      - by rewrite expandSubst_group.
      - by apply parse_quoted_re.
      - by rewrite capture_lits. }
    split; [intros ->; by apply (Hs "" "")|]. intros rest' ->. rewrite (Hs (String "/" rest') rest' Hpath); [done|].
    unfold noNewline in Hnl. cbn [String_contains_byte] in Hnl. rewrite negb_orb, andb_true_iff in Hnl. destruct Hnl as [_ Hnl].
    change (match greedy (captureToks []) rest' with Some g => Some g | None => captureToks [AnyRest] (String "/" rest') end = Some rest').
    by rewrite (greedy_end rest' Hnl).
  - rewrite (Substitute_fragment _ (lits context ++ [AnyRest])%list _ _ rest).
    + by apply expandSubst_group.
    + by apply parse_quoted_re.
    + rewrite Hpath, capture_lits. by apply greedy_end.
Qed.

End Matching.

(** ** The two translators *)

Lemma ReplaceAll_absent s old new : old <> "" -> Contains s old = false -> ReplaceAll s old new = s.
Proof.
  intros Hold. unfold ReplaceAll. generalize (String.length s). intros n. revert s. induction n as [|n IH]; intros s; [done|].
  destruct s as [|c s]; [done|]. cbn [Contains ReplaceAll_fuel]. intros [-> Hs]%orb_false_iff. f_equal. by apply IH.
Qed.

(** The operation as the transformer hands it over. *)
Definition simpleOperation (apiVersion context method path clusterName vhost : string) (manualHostRewrite : bool)
    (timeoutCfg : option RouteTimeout) (useClusterHeader : bool) (defaultCluster : string) (info : option UpstreamInfo) (order : Z) : RdcRoute :=
  mkRdcRoute method (ConstructFullPath context apiVersion path) path "" [] vhost (negb manualHostRewrite) timeoutCfg
    (mkRouteUpstream clusterName useClusterHeader defaultCluster info) order.

(** The older translation of an operation and the one through the
    runtime configuration build the same Envoy route, for an operation
    without header matches or match type and the same cluster: the same name,
    matcher, timeouts, cluster, host and path rewriting, and removed headers. *)
Theorem translators_agree tc apiVersion context method path clusterName upstreamPath vhost kind manual timeoutCfg useClusterHeader
    defaultCluster info order clusters :
  Contains (ReplaceAll context "$version" apiVersion) "$version" = false ->
  match clusters !! clusterName with Some uc => uc_BasePath uc | None => "" end = upstreamPath ->
  createRoute tc apiVersion context method path clusterName upstreamPath vhost kind manual timeoutCfg useClusterHeader =
  createRouteFromRDC tc (GenerateRouteName method context apiVersion path vhost)
    (simpleOperation apiVersion context method path clusterName vhost manual timeoutCfg useClusterHeader defaultCluster info order)
    kind clusters.
Proof.
  intros Hc Hup. unfold createRoute, createRouteFromRDC, simpleOperation, GenerateRouteName, GenerateRouteNameWithDiscriminator.
  cbn [rr_Path rr_OperationPath rr_Timeout rr_Upstream rr_Method rr_AutoHostRewrite ru_UseClusterHeader ru_ClusterKey String.eqb].
  rewrite Hup. unfold ConstructFullPath. rewrite !(ReplaceAll_absent (ReplaceAll context "$version" apiVersion)) by done.
  rewrite append_nil_r, TrimSuffix_append. unfold setMatchPathSpecifier, buildMatchHeaders. cbn [rr_PathMatchType rr_MatchHeaders fmap list_fmap].
  change (EqualFold "" "Exact") with false. cbn iota.
  replace (if String.eqb (ReplaceAll context "$version" apiVersion) "/" then path else ReplaceAll context "$version" apiVersion +:+ path)%string
    with ((if String.eqb (ReplaceAll context "$version" apiVersion) "/" then "" else ReplaceAll context "$version" apiVersion) +:+ path)%string
    by (by destruct (String.eqb _ "/")).
  done.
Qed.

(** ** Virtual hosts *)

Definition vhostOf (r : EnvoyRoute) : option string := Split "|" (er_Name r) !! 2%nat.

Lemma Split_cons sep a b : String_contains_byte sep a = false -> Split sep (a +:+ String sep b) = a :: Split sep b.
Proof.
  induction a as [|c a IH]; cbn [String_contains_byte].
  - rewrite append_empty. cbn [Split]. by rewrite Ascii.eqb_refl.
  - intros [Hc Ha]%orb_false_iff. rewrite append_cons. cbn [Split]. by rewrite Ascii.eqb_sym, Hc, (IH Ha).
Qed.

Lemma Split_last sep a : String_contains_byte sep a = false -> Split sep a = [a].
Proof.
  induction a as [|c a IH]; cbn [String_contains_byte Split]; [done|]. intros [Hc Ha]%orb_false_iff.
  by rewrite Ascii.eqb_sym, Hc, (IH Ha).
Qed.

Lemma groupByVhost_lookup routes h :
  groupByVhost routes !! h =
    (if decide (h = "*" \/ filter (fun r => vhostOf r = Some h) routes <> [])
     then Some (filter (fun r => vhostOf r = Some h) routes) else None).
Proof.
  induction routes as [|r l IH] using rev_ind.
  { unfold groupByVhost. cbn [foldl filter list_filter]. destruct (decide (h = "*")) as [->|Hne].
    - rewrite decide_True by auto. by rewrite lookup_singleton_eq.
    - rewrite decide_False by naive_solver. by rewrite lookup_singleton_ne. }
  unfold groupByVhost in *. rewrite foldl_app, filter_app. cbn [foldl]. set (m := foldl addToVhost _ l) in *.
  rewrite filter_cons, filter_nil. unfold addToVhost. fold (vhostOf r). destruct (vhostOf r) as [v|] eqn:Ev.
  2:{ rewrite (decide_False (P := None = Some h)) by done. by rewrite app_nil_r. }
  destruct (decide (v = h)) as [->|Hne].
  - rewrite lookup_insert_eq, (decide_True (P := Some h = Some h)) by done. rewrite decide_True by (right; by destruct (filter _ l)).
    rewrite IH. case_decide as Hd; [done|]. cbn [default]. f_equal.
    destruct (filter (fun r => vhostOf r = Some h) l) as [|x l'] eqn:E; [done|]. exfalso. apply Hd. by right.
  - rewrite lookup_insert_ne by done. rewrite (decide_False (P := Some v = Some h)) by congruence. by rewrite app_nil_r.
Qed.

(** A generated route name has the host in third place. *)
Lemma Split_route_name method context version path vhost d :
  String_contains_byte "|" method = false -> String_contains_byte "|" (ConstructFullPath context version path) = false ->
  String_contains_byte "|" vhost = false ->
  Split "|" (GenerateRouteNameWithDiscriminator method context version path vhost d) !! 2%nat = Some vhost.
Proof.
  intros Hm Hp Hv.
  unfold GenerateRouteNameWithDiscriminator. set (full := ConstructFullPath context version path) in *.
  destruct (String.eqb d "").
  + change (method +:+ "|" +:+ full +:+ "|" +:+ vhost)%string with (method +:+ String "|" (full +:+ String "|" vhost))%string.
    by rewrite (Split_cons _ _ _ Hm), (Split_cons _ _ _ Hp), (Split_last _ _ Hv).
  + change (method +:+ "|" +:+ full +:+ "|" +:+ vhost +:+ "|" +:+ d)%string
      with (method +:+ String "|" (full +:+ String "|" (vhost +:+ String "|" d)))%string.
    by rewrite (Split_cons _ _ _ Hm), (Split_cons _ _ _ Hp), (Split_cons _ _ _ Hv).
Qed.

(** Virtual hosts partition the routes: a host has exactly the routes
    that name it, by precedence and followed by the catch-all answer 404;
    there is one for every host named and for [*], each once; and a route
    whose name was generated for a host names that host, with or without
    header matches. *)
Theorem routes_are_served_on_their_host (R : MapRange) mainVHost sandboxVHost routes :
  let hosts := virtualHosts mainVHost sandboxVHost routes in
  NoDup (vh_Name <$> hosts) /\
  (forall h, h ∈ (vh_Name <$> hosts) <-> h = "*" \/ exists r, r ∈ routes /\ vhostOf r = Some h) /\
  (forall vh, vh ∈ hosts ->
     vh_Routes vh = (SortRoutesByPriority (filter (fun r => vhostOf r = Some (vh_Name vh)) routes) ++ [notFoundRoute])%list) /\
  (forall r method context version path vhost discriminator,
     er_Name r = GenerateRouteNameWithDiscriminator method context version path vhost discriminator ->
     String_contains_byte "|" method = false -> String_contains_byte "|" (ConstructFullPath context version path) = false ->
     String_contains_byte "|" vhost = false -> vhostOf r = Some vhost).
Proof.
  cbn zeta. unfold virtualHosts. set (g := groupByVhost routes).
  assert (forall l : list (string * list EnvoyRoute), vh_Name <$> ((fun '(vhost, routes) =>
     mkVirtualHost vhost (getVHostDomains mainVHost sandboxVHost vhost)
       (SortRoutesByPriority routes ++ [notFoundRoute])%list [envoyOriginalPathHeader]) <$> l) = l.*1) as Hn.
  { induction l as [|[v rs] l IH]; [done|]. cbn. f_equal. exact IH. }
  rewrite Hn. split_and!.
  - apply range_NoDup.
  - intros h. rewrite list_elem_of_fmap. split.
    + intros ([v rs]&->&Hin%elem_of_range). cbn [fst]. unfold g in Hin. rewrite groupByVhost_lookup in Hin.
      case_decide as Hd; [|done]. destruct Hd as [->|Hd]; [by left|right].
      destruct (filter _ routes) as [|r l] eqn:E; [done|]. exists r.
      assert (r ∈ filter (fun r => vhostOf r = Some v) routes) as Hr by (rewrite E; left). by apply list_elem_of_filter in Hr as [? ?].
    + intros Hh. exists (h, filter (fun r => vhostOf r = Some h) routes). split; [done|]. apply elem_of_range. unfold g.
      rewrite groupByVhost_lookup, decide_True; [done|]. destruct Hh as [->|(r&Hr&Hv)]; [by left|right]. intros E.
      eapply not_elem_of_nil. rewrite <- E. by apply list_elem_of_filter.
  - intros vh. rewrite list_elem_of_fmap. intros ([v rs]&->&Hin%elem_of_range). cbn [vh_Routes vh_Name]. do 2 f_equal.
    unfold g in Hin. rewrite groupByVhost_lookup in Hin. case_decide; [|done]. by injection Hin.
  - intros r method context version path vhost d Hname Hm Hp Hv. unfold vhostOf. rewrite Hname. by apply Split_route_name.
Qed.

(** ** Concrete routes *)

#[local] Existing Instance fragmentEngine.

Definition sampleTranslator : TranslatorConfig := mkTranslatorConfig 60000 300000 false.
Definition sampleClusters : gmap string UpstreamCluster := {["up" := mkUpstreamCluster "" "/api/v2" [mkEndpoint "backend" 80 None] (Some false) None]}.
Definition simpleRoute (path : string) (order : Z) : RdcRoute :=
  simpleOperation "v1.0" "/shop/$version" "GET" path "up" "*" false None false "" None order.
Definition envoyRoute (path : string) (order : Z) : EnvoyRoute :=
  createRouteFromRDC sampleTranslator (GenerateRouteName "GET" "/shop/$version" "v1.0" path "*") (simpleRoute path order) "RestApi" sampleClusters.

Lemma operations_match_their_paths_witness :
  let r := simpleRoute "/users/{id}/orders" 0 in
  let spec := setMatchPathSpecifier (rr_Path r) (rr_OperationPath r) r in
  (pathMatches spec "/shop/v1.0/users/42/orders" = true <->
     matchesTemplate [PText "/shop/v1.0"; PText "/users/"; PParam "id"; PText "/orders"] "/shop/v1.0/users/42/orders") /\
  pathMatches spec "/shop/v1x0/users/42/orders" = false.
Proof.
  split; [|vm_compute; reflexivity].
  apply (operations_match_their_paths "/shop/v1.0" "/users/{id}/orders" (simpleRoute "/users/{id}/orders" 0) "/shop/v1.0/users/42/orders"
           ltac:(vm_compute; reflexivity) eq_refl) with (ps := [PText "/users/"; PParam "id"; PText "/orders"]);
    [reflexivity|repeat constructor|reflexivity..].
Defined.

Lemma rewrite_replaces_the_context_witness :
  match er_Action (envoyRoute "/users/{id}" 0) with
  | Forward _ _ _ _ (pattern, substitution) => Substitute pattern substitution "/shop/v1.0/users/42" = "/api/v2/users/42"
  | DirectResponse _ _ => False
  end.
Proof.
  pose proof (rewrite_replaces_the_context sampleTranslator (GenerateRouteName "GET" "/shop/$version" "v1.0" "/users/{id}" "*")
    (simpleRoute "/users/{id}" 0) "RestApi" sampleClusters "/shop/v1.0" "/api/v2" "/shop/v1.0/users/42" "/users/42"
    ltac:(vm_compute; reflexivity) ltac:(vm_compute; reflexivity) ltac:(vm_compute; reflexivity) ltac:(vm_compute; reflexivity)
    ltac:(vm_compute; reflexivity)) as Hr.
  exact Hr.
Defined.

Lemma translators_agree_witness :
  createRoute sampleTranslator "v1.0" "/shop/$version" "GET" "/users/{id}" "up" "/api/v2" "*" "RestApi" false None false = envoyRoute "/users/{id}" 0.
Proof.
  apply (translators_agree sampleTranslator "v1.0" "/shop/$version" "GET" "/users/{id}" "up" "/api/v2" "*" "RestApi" false None false "" None 0 sampleClusters);
    vm_compute; reflexivity.
Defined.

(** A request as far as these routes test it: the method is the one of the
    routes, so the path decides. *)
Definition onPath (path : string) (r : EnvoyRoute) : bool :=
  match er_Match r with Some m => pathMatches (m_PathSpecifier m) path | None => false end.

(** A plain path is hidden by a pattern of the same API when its last segment
    is short: regular expressions are compared by their length, and the one
    of a placeholder or a wildcard is longer.  [GET /users/me] is served by
    [/users/{id}], and [GET /users/all] by [/users/*]. *)
Theorem short_paths_are_hidden_by_patterns :
  er_Name <$> List.find (onPath "/shop/v1.0/users/me") (SortRoutesByPriority [envoyRoute "/users/me" 0; envoyRoute "/users/{id}" 1]) =
    Some "GET|/shop/v1.0/users/{id}|*" /\
  er_Name <$> List.find (onPath "/shop/v1.0/users/all") (SortRoutesByPriority [envoyRoute "/users/all" 0; envoyRoute "/users/*" 1]) =
    Some "GET|/shop/v1.0/users/*|*".
Proof. vm_compute. split; reflexivity. Qed.
