(* ===== verification/RestTransformTheorems.v ===== *)
(** * RestTransformTheorems: what the transformer of REST APIs guarantees

    Every operation is served on each of its hosts by one route, with the
    policy chain of the same operation under the same key; routes of the main
    hosts go to the main upstream and those of the sandbox host to the
    sandbox; every cluster a route names exists; the policies of a validated
    artifact all reach the chain, after the system policies. *)

From stdpp Require Import base gmap strings list fin_maps sorting.
From Stdlib Require Import Ascii.
From S2P Require Import Prelude GoStrings GoDuration Version Values Sdk Registry ChainBuild Routes ManagementApi PolicyVersions RestTransform RouteTheorems.

#[local] Set Warnings "-register-all".

Open Scope string_scope.

(** ** Repeated assignments to a map *)

(** Of several assignments to a key, the last one stands. *)
Lemma foldl_insert_last {A B} (key : A -> string) (val : A -> B) (l : list A) (m : gmap string B) k :
  foldl (fun m x => <[key x := val x]> m) m l !! k =
    match last (filter (fun x => key x = k) l) with Some x => Some (val x) | None => m !! k end.
Proof.
  induction l as [|x l IH] using rev_ind; [done|]. rewrite foldl_app, filter_app. simpl. rewrite filter_cons, filter_nil.
  case_decide as Hk.
  - rewrite last_snoc. by rewrite Hk, lookup_insert_eq.
  - rewrite app_nil_r, lookup_insert_ne by done. exact IH.
Qed.

Lemma foldl_alter_idemp {A B} (key : A -> string) (f : B -> B) (l : list A) (m : gmap string B) k :
  (forall b, f (f b) = f b) ->
  foldl (fun m x => alter f (key x) m) m l !! k =
    if decide (Exists (fun x => key x = k) l) then f <$> m !! k else m !! k.
Proof.
  intros Hf. revert m. induction l as [|x l IH]; intros m; cbn [foldl]; [by rewrite decide_False by (rewrite Exists_nil; tauto)|].
  rewrite IH. destruct (decide (key x = k)) as [<-|Hk].
  - rewrite lookup_alter_eq, (decide_True (P := Exists _ (_ :: _))) by (by constructor).
    case_decide; [|done]. destruct (m !! key x); simpl; by rewrite ?Hf.
  - rewrite lookup_alter_ne by done. apply decide_ext. rewrite Exists_cons. naive_solver.
Qed.

Lemma concat_nil_elem {A} (ls : list (list A)) l : concat ls = [] -> l ∈ ls -> l = [].
Proof.
  induction ls as [|l' ls IH]; simpl; [intros _ []%elem_of_nil|]. intros [-> Hc]%app_nil [->|Hl]%elem_of_cons; [done|by apply IH].
Qed.

Section Lemmas.
Context `{MapRange} `{UrlParser}.
Context (t : RestAPITransformer).

(** An assignment of the loop over operations and hosts: the index of the
    operation, the operation and the host. *)
Abbreviation Assignment := (nat * Operation * string)%type.

Definition assignments (apiData : APIConfigData) (i : nat) (ops : list Operation) : list Assignment :=
  concat (imap (fun j op => pair ((i + j)%nat, op) <$> vhostsOf t apiData) ops).

Definition assignedKey (apiData : APIConfigData) (a : Assignment) : string := routeKeyOf apiData a.1.2 a.2.

(** The assignment that stands for a key. *)
Definition servedBy (apiData : APIConfigData) (key : string) : option Assignment :=
  last (filter (fun a => assignedKey apiData a = key) (assignments apiData 0 (acd_Operations apiData))).

Definition timeoutOf (apiTimeout apiIdle : option Z) (op : Operation) : option RouteTimeout :=
  match ResolveResilience (op_Resilience op) with
  | inr (opTimeout, opIdle) => buildRouteTimeout opTimeout apiTimeout opIdle apiIdle
  | inl _ => None
  end.

Lemma assignments_cons apiData i op ops :
  assignments apiData i (op :: ops) = ((pair (i, op) <$> vhostsOf t apiData) ++ assignments apiData (S i) ops)%list.
Proof.
  unfold assignments. rewrite imap_cons. simpl. rewrite Nat.add_0_r. do 2 f_equal. apply imap_ext. intros j x _. simpl.
  by rewrite Nat.add_succ_r.
Qed.

Lemma addRoutes_fold apiData up timeout i op vhosts rdc :
  let rdc' := foldl (addRoute t apiData up timeout i op) rdc vhosts in
  rdc_Routes rdc' = foldl (fun m vh => <[routeKeyOf apiData op vh := routeOf apiData up timeout i op vh]> m) (rdc_Routes rdc) vhosts /\
  rdc_PolicyChains rdc' = foldl (fun m vh => <[routeKeyOf apiData op vh := chainOf t apiData op]> m) (rdc_PolicyChains rdc) vhosts /\
  rdc_UpstreamClusters rdc' = rdc_UpstreamClusters rdc /\ rdc_Metadata rdc' = rdc_Metadata rdc /\ rdc_Context rdc' = rdc_Context rdc.
Proof. revert rdc. induction vhosts as [|vh l IH]; intros rdc; simpl; [done|]. exact (IH _). Qed.

Lemma addOperations_fold apiData up apiTimeout apiIdle ops : forall i rdc rdc',
  addOperations t apiData up apiTimeout apiIdle i ops rdc = inr rdc' ->
  rdc_Routes rdc' = foldl (fun m a => <[assignedKey apiData a := routeOf apiData up (timeoutOf apiTimeout apiIdle a.1.2) a.1.1 a.1.2 a.2]> m)
                      (rdc_Routes rdc) (assignments apiData i ops) /\
  rdc_PolicyChains rdc' = foldl (fun m a => <[assignedKey apiData a := chainOf t apiData a.1.2]> m)
                            (rdc_PolicyChains rdc) (assignments apiData i ops) /\
  rdc_UpstreamClusters rdc' = rdc_UpstreamClusters rdc /\ rdc_Metadata rdc' = rdc_Metadata rdc /\ rdc_Context rdc' = rdc_Context rdc.
Proof.
  induction ops as [|op ops IH]; intros i rdc rdc'; cbn [addOperations]; [by intros [= ->]|].
  intros ([ot oi] & Hr%orErr_inr & Ho)%sum_bind_inr. destruct (IH _ _ _ Ho) as (R & C & U & M & X).
  set (timeout := buildRouteTimeout _ _ _ _) in *.
  destruct (addRoutes_fold apiData up timeout i op (vhostsOf t apiData) rdc) as (R' & C' & U' & M' & X').
  rewrite assignments_cons, !foldl_app. rewrite R, C, U, M, X, R', C', U', M', X'.
  assert (timeoutOf apiTimeout apiIdle op = timeout) as Ht by (unfold timeoutOf; by rewrite Hr).
  split_and!; [| |done..].
  - f_equal. rewrite foldl_fmap. simpl. by rewrite Ht.
  - f_equal. by rewrite foldl_fmap.
Qed.

(** The definition whose cluster stands under a key. *)
Definition definedBy (cfg : StoredConfig) (defs : list UpstreamDefinition) (key : string) : option UpstreamDefinition :=
  last (filter (fun def => hasURL def = true /\ defClusterKeyOf cfg (ud_Name def) = key) defs).

Lemma addDefinitions_spec cfg defs : forall rdc rdc',
  addDefinitions cfg defs rdc = inr rdc' ->
  rdc_Routes rdc' = rdc_Routes rdc /\ rdc_PolicyChains rdc' = rdc_PolicyChains rdc /\ rdc_Metadata rdc' = rdc_Metadata rdc /\
  rdc_Context rdc' = rdc_Context rdc /\
  (forall def, def ∈ defs -> hasURL def = true -> exists uc, definitionCluster def = inr uc) /\
  (forall k, match definedBy cfg defs k with
             | Some def => exists uc, definitionCluster def = inr uc /\ rdc_UpstreamClusters rdc' !! k = Some uc
             | None => rdc_UpstreamClusters rdc' !! k = rdc_UpstreamClusters rdc !! k
             end).
Proof.
  unfold definedBy. induction defs as [|def defs IH]; intros rdc rdc'; cbn [addDefinitions].
  { intros [= ->]. split_and!; [done..| |done]. intros def []%elem_of_nil. }
  destruct (hasURL def) eqn:Hu; simpl negb; cbv iota; [intros (uc & Hc & Ha)%sum_bind_inr|intros Ha];
    destruct (IH _ _ Ha) as (R & C & M & X & D & K); split_and!; try done.
  - intros d [->|Hd]%elem_of_cons; [by exists uc|by apply D].
  - intros k. specialize (K k). rewrite filter_cons. simpl in K.
    destruct (last (filter _ defs)) as [d|] eqn:Hl.
    + case_decide; [|by rewrite Hl]. by rewrite last_cons, Hl.
    + destruct (decide (hasURL def = true /\ defClusterKeyOf cfg (ud_Name def) = k)) as [[_ <-]|Hn].
      * rewrite last_cons, Hl. exists uc. by rewrite K, lookup_insert_eq.
      * rewrite Hl, K, lookup_insert_ne; [done|]. intros ?; by apply Hn.
  - intros d [->|Hd]%elem_of_cons; [by rewrite Hu|by apply D].
  - intros k. specialize (K k). rewrite filter_cons_False; [done|]. by rewrite Hu; intros [].
Qed.

(** The upstream that a route of host [vhost] goes to, when it is the
    sandbox. *)
Definition sandboxRoute (apiData : APIConfigData) (key : string) : Prop :=
  Exists (fun op => routeKeyOf apiData op (sandboxVHostOf t apiData) = key) (acd_Operations apiData).

Lemma addSandbox_spec apiData rdc rdc' :
  addSandbox t apiData rdc = inr rdc' ->
  rdc_PolicyChains rdc' = rdc_PolicyChains rdc /\ rdc_Metadata rdc' = rdc_Metadata rdc /\ rdc_Context rdc' = rdc_Context rdc /\
  match sandboxOf apiData with
  | None => rdc' = rdc
  | Some sandbox =>
      exists res uc, resolveCluster "sandbox" sandbox (acd_UpstreamDefinitions apiData) = inr (res, uc) /\
        rdc_UpstreamClusters rdc' = <[ur_ClusterKey res := uc]> (rdc_UpstreamClusters rdc) /\
        (forall k, rdc_Routes rdc' !! k =
           if decide (sandboxRoute apiData k) then patchRoute apiData sandbox res <$> rdc_Routes rdc !! k else rdc_Routes rdc !! k)
  end.
Proof.
  unfold addSandbox. destruct (sandboxOf apiData) as [sandbox|]; [|by intros [= ->]].
  unfold addUpstreamCluster. intros ([rdc1 res] & Ha%orErr_inr & [= <-])%sum_bind_inr.
  apply sum_bind_inr in Ha as ([res' uc] & Hr & [= <- <-]). split_and!; [done..|].
  exists res', uc. split_and!; [done..|]. intros k. simpl.
  apply (foldl_alter_idemp (fun op => routeKeyOf apiData op (sandboxVHostOf t apiData))). by intros [].
Qed.

(** The whole transformation. *)
Lemma Transform_inv cfg rdc :
  Transform t cfg = inr rdc ->
  exists r mainRes mainUc apiTimeout apiIdle rdc1 rdc2,
    sc_Configuration cfg = CfgRestAPI r /\
    let apiData := ra_Spec r in
    resolveCluster "main" (acd_UpstreamMain apiData) (acd_UpstreamDefinitions apiData) = inr (mainRes, mainUc) /\
    vhostConflict t apiData = false /\
    addOperations t apiData mainRes apiTimeout apiIdle 0 (acd_Operations apiData)
      (set_UpstreamClusters (initialRdc cfg apiData) {[ur_ClusterKey mainRes := mainUc]}) = inr rdc1 /\
    addDefinitions cfg (default [] (acd_UpstreamDefinitions apiData)) rdc1 = inr rdc2 /\
    addSandbox t apiData rdc2 = inr rdc.
Proof.
  unfold Transform. destruct (sc_Configuration cfg) as [r| | | |]; try done. unfold addUpstreamCluster.
  intros ([rdc0 res] & Hm%orErr_inr & HT)%sum_bind_inr. apply sum_bind_inr in Hm as ([res' uc] & Hr & [= <- <-]).
  destruct (vhostConflict t (ra_Spec r)) eqn:Hv; [done|].
  apply sum_bind_inr in HT as ([at_ ai] & _ & (rdc1 & H1 & (rdc2 & H2 & H3)%sum_bind_inr)%sum_bind_inr).
  exists r, res', uc, at_, ai, rdc1, rdc2. by split_and!.
Qed.

(** The routes and the chains, by key. *)
Lemma Transform_routes cfg rdc :
  Transform t cfg = inr rdc ->
  exists r mainRes mainUc apiTimeout apiIdle,
    sc_Configuration cfg = CfgRestAPI r /\
    let apiData := ra_Spec r in
    resolveCluster "main" (acd_UpstreamMain apiData) (acd_UpstreamDefinitions apiData) = inr (mainRes, mainUc) /\
    (forall k, rdc_PolicyChains rdc !! k = (fun a => chainOf t apiData a.1.2) <$> servedBy apiData k) /\
    let built k := (fun a => routeOf apiData mainRes (timeoutOf apiTimeout apiIdle a.1.2) a.1.1 a.1.2 a.2) <$> servedBy apiData k in
    match sandboxOf apiData with
    | None => forall k, rdc_Routes rdc !! k = built k
    | Some sandbox => exists res uc, resolveCluster "sandbox" sandbox (acd_UpstreamDefinitions apiData) = inr (res, uc) /\
        forall k, rdc_Routes rdc !! k = if decide (sandboxRoute apiData k) then patchRoute apiData sandbox res <$> built k else built k
    end.
Proof.
  intros (r & res & uc & at_ & ai & rdc1 & rdc2 & Hc & Hm & Hv & Ho & Hd & Hs)%Transform_inv. exists r, res, uc, at_, ai.
  apply addOperations_fold in Ho as (R1 & C1 & U1 & _). apply addDefinitions_spec in Hd as (R2 & C2 & _).
  apply addSandbox_spec in Hs as (C3 & _ & _ & S3). cbn zeta. split_and!; [done..| |].
  - intros k. rewrite C3, C2, C1, foldl_insert_last. unfold servedBy. simpl. by destruct (last _).
  - assert (forall k, rdc_Routes rdc2 !! k =
      (fun a => routeOf (ra_Spec r) res (timeoutOf at_ ai a.1.2) a.1.1 a.1.2 a.2) <$> servedBy (ra_Spec r) k) as HR.
    { intros k. rewrite R2, R1, foldl_insert_last. unfold servedBy. simpl. by destruct (last _). }
    destruct (sandboxOf (ra_Spec r)) as [sandbox|]; [|by subst].
    destruct S3 as (sres & suc & Hr & _ & HR3). exists sres, suc. split; [done|]. intros k. rewrite HR3, !HR. done.
Qed.

End Lemmas.

(** ** Keys *)

Lemma last_filter_sorted {A} (R : A -> A -> Prop) (P : A -> Prop) `{!forall x, Decision (P x)} l a b :
  StronglySorted R l -> (forall x, R x x) -> last (filter P l) = Some a -> b ∈ l -> P b -> R b a.
Proof.
  intros Hs Hr. induction Hs as [|x l Hs IH Hx]; [done|]. rewrite filter_cons, elem_of_cons. intros Hl Hb Hp.
  assert (last (filter P l) = Some a \/ a = x /\ filter P l = []) as [Hl'|[-> E]].
  { case_decide; [|by left]. rewrite last_cons in Hl. destruct (last (filter P l)) eqn:E; [by left; simplify_eq|].
    right. apply last_None in E. by simplify_eq. }
  - destruct Hb as [->|Hb]; [|by apply IH]. rewrite Forall_forall in Hx. apply Hx.
    apply last_Some_elem_of in Hl'. by apply list_elem_of_filter in Hl' as [].
  - destruct Hb as [->|Hb]; [done|]. exfalso. eapply (not_elem_of_nil b). rewrite <- E. by apply list_elem_of_filter.
Qed.

Section Keys.
Context `{MapRange} `{UrlParser}.
Context (t : RestAPITransformer) (apiData : APIConfigData).

Lemma elem_of_assignments i ops a :
  a ∈ assignments t apiData i ops <-> exists j, (i <= a.1.1)%nat /\ j = (a.1.1 - i)%nat /\ ops !! j = Some a.1.2 /\ a.2 ∈ vhostsOf t apiData.
Proof.
  revert i. induction ops as [|op ops IH]; intros i.
  - split; [intros []%elem_of_nil|]. intros (j & _ & _ & E & _). by destruct j.
  - rewrite assignments_cons, elem_of_app, IH, list_elem_of_fmap. destruct a as [[n o] vh]. simpl. split.
    + intros [(v & [= -> -> ->] & Hv)|(j & Hi & -> & Ho & Hv)].
      * exists 0%nat. rewrite Nat.sub_diag. by repeat split.
      * exists (S (n - S i)). replace (n - i)%nat with (S (n - S i)) by lia. simpl. repeat split; auto with lia.
    + intros (j & Hi & -> & Ho & Hv). destruct (decide (n = i)) as [->|].
      * left. rewrite Nat.sub_diag in Ho. simpl in Ho. injection Ho as ->. by exists vh.
      * right. exists (n - S i)%nat. replace (n - i)%nat with (S (n - S i)) in Ho by lia. simpl in Ho. repeat split; auto with lia.
Qed.

Lemma last_filter_elem {A} (P : A -> Prop) `{!forall x, Decision (P x)} l x : last (filter P l) = Some x -> x ∈ l /\ P x.
Proof. intros Hl%last_Some_elem_of. by apply list_elem_of_filter in Hl as [? ?]. Qed.

Lemma servedBy_Some key a :
  servedBy t apiData key = Some a ->
  acd_Operations apiData !! a.1.1 = Some a.1.2 /\ a.2 ∈ vhostsOf t apiData /\ routeKeyOf apiData a.1.2 a.2 = key.
Proof.
  intros [Ha Hk]%last_filter_elem. apply elem_of_assignments in Ha as (j & _ & -> & Ho & Hv). by rewrite Nat.sub_0_r in Ho.
Qed.

Lemma servedBy_key op vhost :
  op ∈ acd_Operations apiData -> vhost ∈ vhostsOf t apiData -> is_Some (servedBy t apiData (routeKeyOf apiData op vhost)).
Proof.
  intros [i Hi]%list_elem_of_lookup Hv. unfold servedBy. apply last_is_Some. intros E. eapply (not_elem_of_nil (i, op, vhost)).
  rewrite <- E. apply list_elem_of_filter. split; [done|]. apply elem_of_assignments. exists i. simpl. rewrite Nat.sub_0_r. auto with lia.
Qed.

(** Indices grow along the assignments, so the last one has the greatest. *)
Lemma assignments_sorted i ops : StronglySorted (fun a b => (a.1.1 <= b.1.1)%nat) (assignments t apiData i ops).
Proof.
  revert i. induction ops as [|op ops IH]; intros i; [constructor|]. rewrite assignments_cons. apply StronglySorted_app_2; [| |apply IH].
  - intros a b (v & -> & _)%list_elem_of_fmap (j & Hb & _)%elem_of_assignments. simpl. lia.
  - induction (vhostsOf t apiData) as [|v l IHl]; [constructor|]. constructor; [exact IHl|]. apply Forall_forall.
    intros a (v' & -> & _)%list_elem_of_fmap. done.
Qed.

Lemma servedBy_last key a j op vhost :
  servedBy t apiData key = Some a -> acd_Operations apiData !! j = Some op -> vhost ∈ vhostsOf t apiData ->
  routeKeyOf apiData op vhost = key -> (j <= a.1.1)%nat.
Proof.
  intros Ha Ho Hv Hk. apply (last_filter_sorted (fun a b : nat * Operation * string => (a.1.1 <= b.1.1)%nat) _ _ _ (j, op, vhost)
    (assignments_sorted 0 (acd_Operations apiData)) (fun x => le_n x.1.1) Ha); [|done].
  apply elem_of_assignments. exists j. simpl. rewrite Nat.sub_0_r. auto with lia.
Qed.

(** No component of a key contains the separator. *)
Definition pipeFree : Prop :=
  Forall (fun op => String_contains_byte "|" (EffectiveMethod op) = false /\
                    String_contains_byte "|" (ConstructFullPath (acd_Context apiData) (acd_Version apiData) (EffectivePath op)) = false)
    (acd_Operations apiData) /\
  Forall (fun vhost => String_contains_byte "|" vhost = false) (sandboxVHostOf t apiData :: vhostsOf t apiData).

Lemma routeKey_vhost op vhost op' vhost' :
  pipeFree -> op ∈ acd_Operations apiData -> op' ∈ acd_Operations apiData ->
  vhost ∈ sandboxVHostOf t apiData :: vhostsOf t apiData -> vhost' ∈ sandboxVHostOf t apiData :: vhostsOf t apiData ->
  routeKeyOf apiData op vhost = routeKeyOf apiData op' vhost' -> vhost = vhost'.
Proof.
  intros [Hops Hvs] Ho Ho' Hv Hv' E. rewrite Forall_forall in Hops. rewrite Forall_forall in Hvs.
  destruct (Hops _ Ho), (Hops _ Ho'). pose proof (Hvs _ Hv). pose proof (Hvs _ Hv').
  apply (f_equal (fun k => Split "|" k !! 2%nat)) in E. unfold routeKeyOf in E. rewrite !Split_route_name in E by done. by injection E.
Qed.
End Keys.

(** ** Routes and upstreams *)

Section RouteTheorems.
Context `{MapRange} `{UrlParser}.
Context (t : RestAPITransformer).

(** C9: every operation is served on each of its hosts, main and sandbox: the
    runtime configuration has a route under the key of the operation and the
    host.  Conversely every route is that of an operation on the host in the
    route: its method, its path below the context, its header matches and its
    position; when several operations have the same key, the last one.  The
    policy chain under the key of a route is the chain of the same
    operation, and there is no other chain. *)
Theorem operations_are_served cfg rdc r :
  Transform t cfg = inr rdc -> sc_Configuration cfg = CfgRestAPI r ->
  let apiData := ra_Spec r in
  (forall op vhost, op ∈ acd_Operations apiData -> vhost ∈ vhostsOf t apiData ->
     is_Some (rdc_Routes rdc !! routeKeyOf apiData op vhost)) /\
  (forall key route, rdc_Routes rdc !! key = Some route ->
     exists i op, acd_Operations apiData !! i = Some op /\ rr_Vhost route ∈ vhostsOf t apiData /\
       key = routeKeyOf apiData op (rr_Vhost route) /\
       rr_Method route = EffectiveMethod op /\ rr_OperationPath route = EffectivePath op /\
       rr_Path route = ConstructFullPath (acd_Context apiData) (acd_Version apiData) (EffectivePath op) /\
       rr_PathMatchType route = EffectivePathMatchType op /\ rr_MatchHeaders route = routeHeaderMatches op /\
       rr_Order route = Z.of_nat i /\
       (forall j op' vhost, acd_Operations apiData !! j = Some op' -> vhost ∈ vhostsOf t apiData ->
          routeKeyOf apiData op' vhost = key -> (j <= i)%nat) /\
       rdc_PolicyChains rdc !! key = Some (chainOf t apiData op)) /\
  (forall key, is_Some (rdc_PolicyChains rdc !! key) <-> is_Some (rdc_Routes rdc !! key)).
Proof.
  intros (r' & res & uc & at_ & ai & Hc & Hm & HC & HR)%Transform_routes Hc'. rewrite Hc' in Hc. injection Hc as <-.
  cbn zeta in *. set (apiData := ra_Spec r) in *.
  assert (forall k, exists f, (forall a, let r0 := routeOf apiData res (timeoutOf at_ ai a.1.2) a.1.1 a.1.2 a.2 in
      rr_Vhost (f r0) = rr_Vhost r0 /\ rr_Method (f r0) = rr_Method r0 /\ rr_OperationPath (f r0) = rr_OperationPath r0 /\
      rr_Path (f r0) = rr_Path r0 /\ rr_PathMatchType (f r0) = rr_PathMatchType r0 /\ rr_MatchHeaders (f r0) = rr_MatchHeaders r0 /\
      rr_Order (f r0) = rr_Order r0) /\
    rdc_Routes rdc !! k = f <$> ((fun a => routeOf apiData res (timeoutOf at_ ai a.1.2) a.1.1 a.1.2 a.2) <$> servedBy t apiData k)) as HF.
  { intros k. destruct (sandboxOf apiData) as [sandbox|].
    - destruct HR as (sres & suc & _ & HR). rewrite (HR k). case_decide.
      + by exists (patchRoute apiData sandbox sres).
      + exists (fun x => x). by destruct (servedBy _ _ _).
    - exists (fun x => x). rewrite (HR k). by destruct (servedBy _ _ _). }
  clear HR. split_and!.
  - intros op vhost Ho Hv. destruct (HF (routeKeyOf apiData op vhost)) as (f & _ & ->).
    destruct (servedBy_key t apiData op vhost Ho Hv) as [a ->]. eauto.
  - intros key route Hk. destruct (HF key) as (f & Hf & HE). rewrite HE in Hk.
    destruct (servedBy t apiData key) as [[[i op] vh]|] eqn:Hs; [|done]. injection Hk as <-.
    destruct (servedBy_Some _ _ _ _ Hs) as (Ho & Hv & Hkey). destruct (Hf (i, op, vh)) as (F1 & F2 & F3 & F4 & F5 & F6 & F7).
    simpl in *. exists i, op. rewrite F1, F2, F3, F4, F5, F6, F7. simpl. split_and!; try done.
    + intros j op' vhost Hj Hvh Hk'. exact (servedBy_last _ _ _ _ _ _ _ Hs Hj Hvh Hk').
    + by rewrite HC, Hs.
  - intros key. rewrite HC. destruct (HF key) as (f & _ & ->). by rewrite !fmap_is_Some.
Qed.

(** The slot that serves a host: its name and its upstream. *)
Definition slotOf (apiData : APIConfigData) (vhost : string) : string * Upstream :=
  match sandboxOf apiData with
  | Some sandbox => if String.eqb vhost (sandboxVHostOf t apiData) then ("sandbox", sandbox) else ("main", acd_UpstreamMain apiData)
  | None => ("main", acd_UpstreamMain apiData)
  end.

(** A kind that cannot be read as the name of a slot. *)
Definition plainKind (kind : string) : bool :=
  negb (String_contains_byte "_" kind) && negb (String.eqb kind "main") && negb (String.eqb kind "sandbox").

Lemma slot_key_prefix name up defs res uc :
  resolveCluster name up defs = inr (res, uc) -> exists rest, ur_ClusterKey res = "upstream_" +:+ name +:+ String "_" rest.
Proof.
  unfold resolveCluster. intros ([raw bp] & _ & (u & _ & HE)%sum_bind_inr)%sum_bind_inr.
  destruct (_ || _); [done|]. apply sum_bind_inr in HE as (ct & _ & [= <- _]). simpl. eauto.
Qed.

Lemma slot_names_apart a b x y :
  String_contains_byte "_" a = false -> String_contains_byte "_" b = false ->
  "upstream_" +:+ a +:+ String "_" x = "upstream_" +:+ b +:+ String "_" y -> a = b.
Proof.
  intros Ha Hb E. apply (f_equal (fun s => Split "_" s !! 1%nat)) in E.
  change ("upstream_" +:+ a +:+ String "_" x) with ("upstream" +:+ String "_" (a +:+ String "_" x)) in E.
  change ("upstream_" +:+ b +:+ String "_" y) with ("upstream" +:+ String "_" (b +:+ String "_" y)) in E.
  rewrite !(Split_cons "_" "upstream"), (Split_cons _ _ _ Ha), (Split_cons _ _ _ Hb) in E by done. by injection E.
Qed.

(** The key of a slot is not that of a definition. *)
Lemma slot_not_defined cfg defs name up res uc :
  plainKind (sc_Kind cfg) = true -> name = "main" \/ name = "sandbox" -> resolveCluster name up defs = inr (res, uc) ->
  forall l, definedBy cfg l (ur_ClusterKey res) = None.
Proof.
  intros Hk Hn (rest & Hr)%slot_key_prefix l. unfold definedBy. destruct (last _) as [def|] eqn:HE; [|done]. exfalso.
  apply last_filter_elem in HE as [_ [_ HE]]. rewrite Hr in HE. unfold plainKind in Hk. rewrite !andb_true_iff, !negb_true_iff, !String.eqb_neq in Hk.
  destruct Hk as [[Hu Hm] Hs]. unfold defClusterKeyOf in HE.
  change ("_" +:+ ?x) with (String "_" x) in HE.
  apply slot_names_apart in HE; [|done|by destruct Hn as [-> | ->]]. by destruct Hn as [-> | ->].
Qed.

(** C19: the slots are kept apart.  A route of the sandbox host goes to the
    sandbox upstream and every other route to the main upstream, whichever
    operations share a method and a path: the cluster of the route is the one
    resolved from that slot, it is in the runtime configuration with that
    slot's endpoint, base path, TLS and connect timeout, it is the default of
    dynamic routing, and the rewriting of the host is the slot's own.  The
    artifact's kind has no underscore and is not named like a slot
    ([plainKind]), and no method, path or host holds the separator of route
    keys ([pipeFree]). *)
Theorem slots_are_kept_apart cfg rdc r :
  Transform t cfg = inr rdc -> sc_Configuration cfg = CfgRestAPI r -> plainKind (sc_Kind cfg) = true -> pipeFree t (ra_Spec r) ->
  let apiData := ra_Spec r in
  forall key route, rdc_Routes rdc !! key = Some route ->
  let '(slot, up) := slotOf apiData (rr_Vhost route) in
  exists res uc, resolveCluster slot up (acd_UpstreamDefinitions apiData) = inr (res, uc) /\
    rr_Upstream route = slotUpstream apiData res /\ rr_AutoHostRewrite route = autoHostRewrite up /\
    rdc_UpstreamClusters rdc !! ur_ClusterKey res = Some uc.
Proof.
  intros HT Hc Hk Hpf. cbn zeta. intros key route Hkey.
  destruct (Transform_inv t cfg rdc HT) as (r1 & mres & muc & at1 & ai1 & rdc1 & rdc2 & Hc1 & Hm & Hv & Ho & Hd & Hs).
  destruct (Transform_routes t cfg rdc HT) as (r2 & mres2 & muc2 & at2 & ai2 & Hc2 & Hm2 & _ & HR).
  rewrite Hc in Hc1, Hc2. injection Hc1 as <-. injection Hc2 as <-. cbn zeta in *. set (apiData := ra_Spec r) in *.
  rewrite Hm in Hm2. injection Hm2 as <- <-.
  apply addOperations_fold in Ho as (_ & _ & U1 & _). apply addDefinitions_spec in Hd as (_ & _ & _ & _ & _ & K).
  apply addSandbox_spec in Hs as (_ & _ & _ & S3).
  assert (rdc_UpstreamClusters rdc2 !! ur_ClusterKey mres = Some muc) as Hmain.
  { specialize (K (ur_ClusterKey mres)). rewrite (slot_not_defined cfg _ "main" _ _ _ Hk ltac:(by left) Hm) in K.
    rewrite K, U1. apply lookup_singleton_eq. }
  unfold slotOf. destruct (sandboxOf apiData) as [sandbox|] eqn:Hsb.
  - destruct HR as (sres & suc & Hsr & HR). destruct S3 as (sres' & suc' & Hsr' & U3 & _).
    rewrite Hsr in Hsr'. injection Hsr' as <- <-. rewrite (HR key) in Hkey.
    destruct (servedBy t apiData key) as [[[i op] vh]|] eqn:Hsv; [|by case_decide].
    destruct (servedBy_Some _ _ _ _ Hsv) as (Hop & Hvh & Hkv). simpl in *. apply list_elem_of_lookup_2 in Hop.
    assert (rr_Vhost route = vh) as -> by (case_decide; by simplify_eq/=).
    destruct (String.eqb_spec vh (sandboxVHostOf t apiData)) as [->|Hne].
    + rewrite decide_True in Hkey by (apply Exists_exists; eauto). injection Hkey as <-. simpl.
      exists sres, suc. split_and!; [done..|]. by rewrite U3, lookup_insert_eq.
    + rewrite decide_False in Hkey. 2: { intros (op' & Hop' & HE)%Exists_exists. apply Hne.
        apply (routeKey_vhost t apiData op vh op'); [done..|by right|by left|congruence]. }
      injection Hkey as <-. simpl. exists mres, muc. split_and!; [done..|]. rewrite U3, lookup_insert_ne; [done|].
      destruct (slot_key_prefix _ _ _ _ _ Hm) as [x ->], (slot_key_prefix _ _ _ _ _ Hsr) as [y ->].
      intros E%slot_names_apart; done.
  - subst rdc2. rewrite (HR key) in Hkey. destruct (servedBy t apiData key) as [a|]; [|done]. injection Hkey as <-. simpl.
    by exists mres, muc.
Qed.

End RouteTheorems.

(** ** Policy chains *)

Section ChainTheorems.
Context `{MapRange} `{UrlParser} `{JSONSchema}.
Context (routerConfig : RouterConfig) (systemConfig : option SystemConfig) (definitions : PolicyDefinitions).

Let t := NewRestAPITransformer routerConfig systemConfig definitions.
Let pv := NewPolicyValidator definitions.

Lemma InjectSystemPolicies_app policies cfg props :
  InjectSystemPolicies policies cfg props = (InjectSystemPolicies [] cfg props ++ policies)%list.
Proof. unfold InjectSystemPolicies. destruct cfg as [cfg|]; [|done]. destruct (_ =? 0)%nat; [done|]. by rewrite app_nil_r. Qed.

(** The entry that an attached policy of a name finally has: that of the last
    policy of the name. *)
Lemma collectAPIPolicies_lookup ps n :
  Forall (fun p => is_Some (instanceAt t LevelAPI p)) ps ->
  collectAPIPolicies t (Some ps) !! n = last (filter (fun p => ap_Name p = n) ps) ≫= instanceAt t LevelAPI.
Proof.
  simpl. induction ps as [|p ps IH] using rev_ind; [done|]. intros [Hps [Hp _]%Forall_cons]%Forall_app.
  rewrite foldl_app, filter_app. simpl. rewrite filter_cons, filter_nil. destruct Hp as [inst Hi]. rewrite Hi.
  case_decide as Hn.
  - by rewrite last_snoc, Hn, lookup_insert_eq.
  - rewrite app_nil_r, lookup_insert_ne by done. by apply IH.
Qed.

(** What the validator accepts has a version. *)
Lemma validated_resolves p path level : validatePolicy pv p path = [] -> is_Some (instanceAt t level p).
Proof.
  unfold validatePolicy, validatePolicyRef, instanceAt, resolveVersion, resolvePolicyVersion. simpl.
  destruct (ResolvePolicyVersion _ _ _ _); [done|]. eauto.
Qed.

Lemma validated_list ps field : validateList ps field (validatePolicy pv) = [] ->
  forall level, Forall (fun p => is_Some (instanceAt t level p)) (default [] ps).
Proof.
  destruct ps as [ps|]; [|constructor]. simpl. intros Hc level. apply Forall_lookup. intros i p Hi.
  eapply (validated_resolves _ (field i)). eapply (concat_nil_elem _ _ Hc). apply list_elem_of_lookup. exists i.
  by rewrite list_lookup_imap, Hi.
Qed.

Lemma omap_all {A B} (f : A -> option B) l : Forall (fun x => is_Some (f x)) l -> Forall2 (fun x y => f x = Some y) l (omap f l).
Proof. induction 1 as [|x l [y Hy] Hl IH]; simpl; [constructor|]. rewrite Hy. by constructor. Qed.

(** Every policy of a validated artifact takes effect.  The chain of an
    operation is the enabled system policies, then one instance per policy of
    the API in its order, then one per policy of the operation with its own
    parameters; none is dropped.  An API-level policy has the parameters of
    the last policy of its name, which are its own unless the artifact
    attaches the same policy twice. *)
Theorem validated_policies_all_run r op :
  ValidateRestAPIPolicies pv r = [] -> op ∈ acd_Operations (ra_Spec r) ->
  let apiPolicies := default [] (acd_Policies (ra_Spec r)) in
  exists apiInstances opInstances,
    chainOf t (ra_Spec r) op = sdkChainToModel (InjectSystemPolicies [] systemConfig ∅ ++ apiInstances ++ opInstances) /\
    Forall2 (fun p inst => pi_Name inst = ap_Name p /\ exists q,
               last (filter (fun q => ap_Name q = ap_Name p) apiPolicies) = Some q /\ instanceAt t LevelAPI q = Some inst)
      apiPolicies apiInstances /\
    Forall2 (fun p inst => instanceAt t LevelRoute p = Some inst) (default [] (op_Policies op)) opInstances.
Proof.
  unfold ValidateRestAPIPolicies. intros [Hapi Hops]%app_nil Hop. cbn zeta. set (aps := default [] (acd_Policies (ra_Spec r))).
  pose proof (validated_list _ _ Hapi LevelAPI) as Ha. fold aps in Ha.
  assert (Forall (fun p => is_Some (instanceAt t LevelRoute p)) (default [] (op_Policies op))) as Ho.
  { apply list_elem_of_lookup in Hop as [i Hi]. eapply validated_list. eapply (concat_nil_elem _ _ Hops). apply list_elem_of_lookup.
    exists i. by rewrite list_lookup_imap, Hi. }
  exists (omap (fun p => collectAPIPolicies t (acd_Policies (ra_Spec r)) !! ap_Name p) aps), (omap (instanceAt t LevelRoute) (default [] (op_Policies op))).
  split_and!; [|eapply Forall2_impl; [apply omap_all|]|by apply omap_all].
  - unfold chainOf, buildPolicyChain. fold aps. by rewrite InjectSystemPolicies_app.
  - destruct (acd_Policies (ra_Spec r)) as [ps|]; [|constructor]. simpl in aps. subst aps. apply Forall_forall. intros p Hp.
    rewrite collectAPIPolicies_lookup by done. destruct (last (filter _ ps)) as [q|] eqn:Hl.
    + simpl. apply last_filter_elem in Hl as [Hq _]. rewrite Forall_forall in Ha. by apply Ha.
    + apply last_None in Hl. by destruct (filter_nil_not_elem_of _ _ _ Hl eq_refl Hp).
  - simpl. intros p inst Hl. destruct (acd_Policies (ra_Spec r)) as [ps|]; [|done]. simpl in aps. subst aps.
    rewrite collectAPIPolicies_lookup in Hl by done. apply bind_Some in Hl as (q & Hq & Hi). split; [|eauto].
    apply last_filter_elem in Hq as [_ <-]. unfold instanceAt in Hi. destruct (resolveVersion t q); by simplify_eq/=.
Qed.

End ChainTheorems.

(** ** A concrete API *)

Module SampleApi.

(** URLs of the form [scheme://host/path]. *)
Definition plainUrls : UrlParser := {|
  url_Parse s :=
    match Index s "://" with
    | None => inl "missing protocol scheme"
    | Some i =>
        let rest := string_drop (i + 3) s in
        match Index rest "/" with
        | None => inr (mkURL (string_take i s) rest "" "" false "")
        | Some j => inr (mkURL (string_take i s) (string_take j rest) (string_drop j rest) "" false "")
        end
    end
|}.

(** A schema library that finds nothing to object to. *)
Definition anySchema : JSONSchema := {| validateSchema _ _ := inr [] |}.

Definition policy (name : string) (params : Params) : ApiPolicy := mkApiPolicy None name (Some params) "".
Definition operation (method path : string) (ps : list ApiPolicy) : Operation := mkOperation None (Some method) (Some path) (Some ps) None.

Definition blue : UpstreamDefinition :=
  mkUpstreamDefinition (Some "/v2") "blue.eu" (Some (Some "2s")) [mkUpstreamTarget "http://blue:9090" (Some 10%Z); mkUpstreamTarget "http://blue2:9090" None].

Definition spec : APIConfigData :=
  mkAPIConfigData "/books/$version" "Books"
    [operation "GET" "/list" []; operation "POST" "/list" [policy "cors" ∅]; operation "GET" "/list" [policy "cors" {["x" := VBool true]}]]
    (Some [policy "auth" {["k" := VString "1"]}]) None
    (mkUpstream None None (Some "https://api.example.com:8443/base")) (Some (mkUpstream (Some Manual) None (Some "http://sand.example.com")))
    (Some [blue]) "v1" (Some (mkVhosts "a.com; b.com;a.com" None)) None.

Definition artifact : RestAPI := mkRestAPI "v1" "RestApi" (mkApiMetadata None None "books") spec.
Definition stored : StoredConfig :=
  mkStoredConfig "0001" "RestApi" "books" "Books" "v1" (CfgRestAPI artifact) (CfgRestAPI artifact) ["s3cret"].

Definition router : RouterConfig := mkRouterConfig "*" "sandbox.local".
Definition system : option SystemConfig := Some (mkSystemConfig true false true false false false).

#[local] Existing Instance MapRange_list.
#[local] Existing Instance plainUrls.
#[local] Existing Instance anySchema.

Definition transformer : RestAPITransformer := NewRestAPITransformer router system sampleDefinitions.
Definition runtime : RuntimeDeployConfig :=
  match Transform transformer stored with inr rdc => rdc | inl _ => initialRdc stored spec end.

Lemma runtime_ok : Transform transformer stored = inr runtime.
Proof.
  unfold runtime. assert ((if Transform transformer stored then false else true) = true) as E by (by vm_compute).
  by destruct (Transform transformer stored).
Qed.

Example runtime_shape :
  size (rdc_Routes runtime) = 6%nat /\ size (rdc_UpstreamClusters runtime) = 3%nat /\
  uc_Endpoints <$> rdc_UpstreamClusters runtime !! "upstream_RestApi_0001_blue_eu" =
    Some [mkEndpoint "blue" 9090 (Some 10%Z); mkEndpoint "blue2" 9090 None] /\
  (fun r => (rr_Path r, rr_Order r, ru_ClusterKey (rr_Upstream r))) <$> rdc_Routes runtime !! "GET|/books/v1/list|sandbox.local" =
    Some ("/books/v1/list", 2%Z, "upstream_sandbox_sand.example.com_80").
Proof. by vm_compute. Qed.

Lemma pipes : pipeFree transformer spec.
Proof. split; by repeat constructor. Qed.

End SampleApi.

Import SampleApi.
#[local] Existing Instance MapRange_list.
#[local] Existing Instance plainUrls.
#[local] Existing Instance anySchema.

Lemma operations_are_served_witness :
  is_Some (rdc_Routes runtime !! routeKeyOf spec (operation "POST" "/list" [policy "cors" ∅]) "b.com").
Proof.
  destruct (operations_are_served transformer stored runtime artifact runtime_ok eq_refl) as [Hs _].
  apply Hs.
  - apply list_elem_of_lookup. by exists 1%nat.
  - apply list_elem_of_lookup. by exists 1%nat.
Defined.

Lemma slots_are_kept_apart_witness :
  exists route res uc, rdc_Routes runtime !! "GET|/books/v1/list|sandbox.local" = Some route /\
    slotOf transformer spec (rr_Vhost route) = ("sandbox", mkUpstream (Some Manual) None (Some "http://sand.example.com")) /\
    rr_Upstream route = slotUpstream spec res /\ rr_AutoHostRewrite route = false /\
    rdc_UpstreamClusters runtime !! ur_ClusterKey res = Some uc.
Proof.
  assert (rr_Vhost <$> rdc_Routes runtime !! "GET|/books/v1/list|sandbox.local" = Some "sandbox.local") as Hv by (by vm_compute).
  destruct (rdc_Routes runtime !! "GET|/books/v1/list|sandbox.local") as [route|] eqn:Hr; [|done]. injection Hv as Hv.
  pose proof (slots_are_kept_apart transformer stored runtime artifact runtime_ok eq_refl eq_refl pipes _ route Hr) as Hs.
  assert (slotOf transformer (ra_Spec artifact) (rr_Vhost route) = ("sandbox", mkUpstream (Some Manual) None (Some "http://sand.example.com"))) as E
    by (rewrite Hv; by vm_compute).
  rewrite E in Hs. destruct Hs as (res & uc & _ & H1 & H2 & H3). exists route, res, uc.
  exact (conj eq_refl (conj E (conj H1 (conj H2 H3)))).
Defined.

Lemma validated_policies_all_run_witness :
  exists apiInstances opInstances,
    chainOf transformer spec (operation "POST" "/list" [policy "cors" ∅]) =
      sdkChainToModel (InjectSystemPolicies [] system ∅ ++ apiInstances ++ opInstances) /\
    (pi_Name <$> apiInstances) = ["auth"] /\ (pi_Name <$> opInstances) = ["cors"].
Proof.
  destruct (validated_policies_all_run router system sampleDefinitions artifact
    (operation "POST" "/list" [policy "cors" ∅])) as (ai & oi & HE & Ha & Ho).
  - by vm_compute.
  - apply list_elem_of_lookup. by exists 1%nat.
  - exists ai, oi. split; [exact HE|]. simpl in Ha, Ho. split.
    + inversion Ha as [|? i ? ? [Hn _] H']; subst. inversion H'; subst. simpl. by rewrite Hn.
    + inversion Ho as [|? i ? ? Hi H']; subst. inversion H'; subst. vm_compute in Hi. by injection Hi as <-.
Defined.

(** A policy attached twice to an API: both instances have the parameters of
    the second. *)
Example repeated_policy_gets_last_parameters :
  let spec2 := mkAPIConfigData "/b" "B" [operation "GET" "/" []] (Some [policy "auth" {["k" := VString "1"]}; policy "auth" {["k" := VString "2"]}])
                 None (mkUpstream None None (Some "http://h")) None None "v1" None None in
  (fun p => (mp_Name p, mp_Params p !! "k")) <$> chainOf (H := MapRange_list) (mkRestAPITransformer router None sampleDefinitions
      (BuildLatestVersionIndex (H := MapRange_list) sampleDefinitions)) spec2 (operation "GET" "/" []) =
  [("auth", Some (VString "2")); ("auth", Some (VString "2"))].
Proof. by vm_compute. Qed.
