(* ===== verification/SnapshotTheorems.v ===== *)
(** * SnapshotTheorems: the engine receives what the controller computed

    From the runtime configurations of the controller, through the resources
    of its snapshot, to the tables of the policy engine: the route
    configuration the engine applies for a route is the controller's, and
    the cluster and base path by which the engine redirects a request to a
    named upstream are those of the cluster that the controller gave Envoy. *)

From stdpp Require Import base gmap strings list fin_maps.
From S2P Require Import Prelude GoStrings GoDuration Version Values JsonWire ApiKeys Sdk Registry QueryPath Executor ChainBuild XdsHandlers Routes ManagementApi PolicyVersions RestTransform ConfigStore RuntimeSnapshot Mutation ExecContext Translator Samples RouteTheorems RestTransformTheorems.

#[local] Set Warnings "-register-all".

Open Scope string_scope.

(** Members read as strings and as objects. *)
Lemma same_getString m m' k : same (VMap m) (VMap m') ->
  (forall v, (list_to_map m : object) !! k = Some v -> exists s, v = VString s) ->
  getStringFromMap (list_to_map m') k = getStringFromMap (list_to_map m) k.
Proof.
  intros Hs Hv. pose proof (same_lookup m m' k Hs) as Hl. unfold getStringFromMap.
  destruct ((list_to_map m : object) !! k) as [v|]; [|by rewrite Hl]. destruct Hl as (v' & -> & Hsv).
  destruct (Hv v eq_refl) as [s ->]. by rewrite (same_string _ _ Hsv).
Qed.

(** An object whose members are all strings. *)
Definition allStrings (m : list (string * Value)) : Prop := Forall (fun kv => exists s, kv.2 = VString s) m.

Lemma allStrings_lookup m k v : allStrings m -> (list_to_map m : object) !! k = Some v -> exists s, v = VString s.
Proof. intros Ha Hk%elem_of_list_to_map_2. unfold allStrings in Ha. rewrite Forall_forall in Ha. by apply (Ha (k, v)). Qed.

(** ** Reading a policy configuration

    [json.Unmarshal] into the engine's [StoredPolicyConfig]. *)

Definition decodePolicy (v : Value) : option PolicyInstance :=
  match v with
  | VMap o =>
      m ← onlyTags ["name"; "version"; "enabled"; "executionCondition"; "parameters"] o;
      name ← jsonString m "name"; version ← jsonString m "version"; enabled ← jsonBool m "enabled";
      condition ← jsonStringPtr m "executionCondition"; params ← jsonParams m "parameters";
      Some (mkPolicyInstance name version enabled condition params)
  | _ => None
  end.

Definition decodeChain (v : Value) : option ChainConfig :=
  match v with
  | VMap o => m ← onlyTags ["route_key"; "policies"] o;
              key ← jsonString m "route_key"; policies ← jsonList decodePolicy m "policies"; Some (mkChainConfig key policies)
  | _ => None
  end.

Definition decodeMetadata (o : list (string * Value)) : option XdsMetadata :=
  m ← onlyTags ["created_at"; "updated_at"; "resource_version"; "api_id"; "api_name"; "version"; "context"] o;
  created ← jsonInt m "created_at"; updated ← jsonInt m "updated_at"; rv ← jsonInt m "resource_version";
  id ← jsonString m "api_id"; name ← jsonString m "api_name"; version ← jsonString m "version"; context ← jsonString m "context";
  Some (mkXdsMetadata created updated rv id name version context).

Definition decodeTransport (m : object) : option (option (list string)) :=
  match m !! "transport_metadata" with
  | None | Some VNil => Some None
  | Some (VMap o) => t ← onlyTags ["sensitive_values"] o; Some <$> jsonList jsonElemString t "sensitive_values"
  | _ => None
  end.

Definition decodeStored (o : list (string * Value)) : option StoredPolicyConfig :=
  m ← onlyTags ["id"; "configuration"; "version"; "transport_metadata"] o;
  id ← jsonString m "id"; version ← jsonInt m "version"; sensitive ← decodeTransport m;
  configuration ← jsonObject m "configuration"; c ← onlyTags ["routes"; "metadata"] configuration;
  routes ← jsonList decodeChain c "routes"; mdo ← jsonObject c "metadata"; md ← decodeMetadata mdo;
  Some (mkStoredPolicyConfig id routes md version sensitive).

(** ** The laws of the wire *)

(** What the code relies on: a resource is delivered as it was stored; a
    struct survives its encoding; and printing a struct as JSON and reading
    it back gives the object it was made from, up to the order of members. *)
Class SnapshotWireLaws `{SnapshotWire} : Prop := {
  unmarshal_marshal_any a : unmarshalAny (marshalAny a) = inr a;
  struct_encoding m s a : newStruct m = inr s -> anyNew s = inr a -> unmarshalStruct (any_Value a) = inr s;
  struct_json m s : is_json (VMap m) = true -> NoDup m.*1 -> newStruct m = inr s ->
    exists b m', marshalStruct s = inr b /\ same (VMap m) (VMap m') /\ jsonRouteConfig b = inr (list_to_map m') /\
      (forall c, decodeStored m' = Some c -> jsonStoredConfig b = inr c)
}.

Section EndToEnd.
Context {W : Type} `{MapRange} `{SnapshotWireLaws}.

(** The delivery of the resources of a type. *)
Definition deliver (typeURL : string) (content : gmap string AnyResource) : list AnyResource :=
  (fun kv => mkAny typeURL (marshalAny kv.2)) <$> range content.

(** The configuration of a route as the engine should have it. *)
Definition engineRouteConfig (routeKey : string) (rdc : RuntimeDeployConfig) (route : RdcRoute) : RouteConfig :=
  let md := rdc_Metadata rdc in
  let up := rr_Upstream route in
  mkRouteMetadata routeKey (rdm_UUID md) (rdm_DisplayName md) (rdm_Version md) (rdc_Context rdc) (rr_OperationPath route) (rr_Vhost route)
    (rdm_Kind md)
    (match rdm_LLM md with Some llm => lm_TemplateHandle llm | None => "" end)
    (match rdm_LLM md with Some llm => lm_ProviderName llm | None => "" end)
    (rdm_ProjectID md) (if ru_UseClusterHeader up then ru_DefaultCluster up else "") (upstreamBasePathOf rdc route) (upstreamDefPathsOf rdc)
    (ru_Default up).

Lemma stringMap_strings (m : gmap string string) : allStrings ((fun kv => (kv.1, VString kv.2)) <$> map_to_list m).
Proof. unfold allStrings. rewrite Forall_fmap. apply Forall_true. intros [k v]. simpl. eauto. Qed.

Lemma is_json_strings m : allStrings m -> forallb (fun kv : string * Value => is_json kv.2) m = true.
Proof. intros Ha. induction Ha as [|[k v] m [s Hs] _ IH]; simpl in *; [done|]. by rewrite Hs, IH. Qed.

Lemma stringMap_lookup (m : gmap string string) k :
  (list_to_map ((fun kv => (kv.1, VString kv.2)) <$> map_to_list m) : object) !! k = VString <$> m !! k.
Proof.
  assert ((fun kv : string * string => (kv.1, VString kv.2)) <$> map_to_list m = prod_map id VString <$> map_to_list m) as -> by done.
  by rewrite list_to_map_fmap, list_to_map_to_list, lookup_fmap.
Qed.


Abbreviation dataOf key rdc route := (routeConfigData key rdc route (upstreamBasePathOf rdc route) (upstreamDefPathsOf rdc)).

Lemma routeConfigData_json key rdc route : is_json (VMap (dataOf key rdc route)) = true.
Proof.
  unfold routeConfigData. cbn [is_json]. rewrite !forallb_app, !andb_true_iff. split_and!.
  - cbn [forallb snd is_json stringMap]. rewrite (is_json_strings _ (stringMap_strings _)). by destruct (rdm_LLM _).
  - by destruct (_ && _).
  - by destruct (ru_Default _).
Qed.

Lemma routeConfigData_NoDup key rdc route : NoDup (dataOf key rdc route).*1.
Proof.
  unfold routeConfigData. destruct (ru_UseClusterHeader _ && _), (ru_Default _); cbn [app fmap list_fmap fst];
    refine (bool_decide_unpack _ _); by vm_compute.
Qed.

Definition metadataOf (rdc : RuntimeDeployConfig) (route : RdcRoute) : list (string * Value) :=
  match (list_to_map (dataOf "" rdc route) : object) !! "metadata" with Some (VMap o) => o | _ => [] end.

(** The members of the object. *)
Lemma data_members key rdc route :
  let d := list_to_map (dataOf key rdc route) : object in
  d !! "route_key" = Some (VString key) /\ d !! "metadata" = Some (VMap (metadataOf rdc route)) /\
  d !! "upstream_definition_paths" = Some (stringMap (upstreamDefPathsOf rdc)) /\
  d !! "upstream_base_path" = Some (VString (upstreamBasePathOf rdc route)) /\
  d !! "default_upstream" = (match ru_Default (rr_Upstream route) with Some info => Some (UpstreamInfo_ToMap info) | None => None end) /\
  d !! "default_upstream_cluster" =
    (if ru_UseClusterHeader (rr_Upstream route) && negb (String.eqb (ru_DefaultCluster (rr_Upstream route)) "")
     then Some (VString (ru_DefaultCluster (rr_Upstream route))) else None).
Proof. unfold metadataOf, routeConfigData. destruct (ru_UseClusterHeader _ && _), (ru_Default _), (rdm_LLM _); by repeat split. Qed.

Lemma metadata_members rdc route :
  allStrings (metadataOf rdc route) /\
  let g := getStringFromMap (list_to_map (metadataOf rdc route)) in
  let md := rdc_Metadata rdc in
  g "uuid" = rdm_UUID md /\ g "display_name" = rdm_DisplayName md /\ g "version" = rdm_Version md /\ g "api_context" = rdc_Context rdc /\
  g "path" = rr_OperationPath route /\ g "vhost" = rr_Vhost route /\ g "kind" = rdm_Kind md /\ g "project_id" = rdm_ProjectID md /\
  g "template_handle" = (match rdm_LLM md with Some llm => lm_TemplateHandle llm | None => "" end) /\
  g "provider_name" = (match rdm_LLM md with Some llm => lm_ProviderName llm | None => "" end).
Proof.
  assert (metadataOf rdc route =
    ([("uuid", VString (rdm_UUID (rdc_Metadata rdc))); ("kind", VString (rdm_Kind (rdc_Metadata rdc))); ("handle", VString (rdm_Handle (rdc_Metadata rdc)));
      ("version", VString (rdm_Version (rdc_Metadata rdc))); ("display_name", VString (rdm_DisplayName (rdc_Metadata rdc)));
      ("project_id", VString (rdm_ProjectID (rdc_Metadata rdc))); ("api_context", VString (rdc_Context rdc));
      ("vhost", VString (rr_Vhost route)); ("path", VString (rr_OperationPath route))]
     ++ match rdm_LLM (rdc_Metadata rdc) with
        | Some llm => [("template_handle", VString (lm_TemplateHandle llm)); ("provider_name", VString (lm_ProviderName llm))]
        | None => []
        end)%list) as ->.
  { unfold metadataOf, routeConfigData. destruct (ru_UseClusterHeader _ && _), (ru_Default _), (rdm_LLM _); reflexivity. }
  split; [destruct (rdm_LLM _); repeat constructor; simpl; eauto|]. cbn zeta. destruct (rdm_LLM _); by repeat split.
Qed.

(** Reading the object back gives the configuration. *)
Lemma routeConfigOf_data key rdc route m' :
  same (VMap (dataOf key rdc route)) (VMap m') ->
  getStringFromMap (list_to_map m') "route_key" = key /\ routeConfigOf key (list_to_map m') = engineRouteConfig key rdc route.
Proof.
  intros Hs. destruct (data_members key rdc route) as (D1 & D2 & D3 & D4 & D5 & D6).
  destruct (metadata_members rdc route) as (Ma & M1 & M2 & M3 & M4 & M5 & M6 & M7 & M8 & M9 & M10). set (d := dataOf key rdc route) in *. clearbody d.
  assert (forall k, (forall v, (list_to_map d : object) !! k = Some v -> exists s, v = VString s) ->
    getStringFromMap (list_to_map m') k = match (list_to_map d : object) !! k with Some (VString s) => s | _ => "" end) as Hstr
    by (intros k; apply same_getString, Hs).
  split; [rewrite Hstr; rewrite D1; naive_solver|]. unfold routeConfigOf, objectAt.
  destruct (same_member d m' "metadata" _ Hs D2) as (mo & -> & Hmo).
  destruct (same_member d m' "upstream_definition_paths" _ Hs D3) as (po & -> & Hpo). cbn zeta.
  rewrite !(fun k => same_getString _ _ k Hmo (fun v => allStrings_lookup _ k v Ma)).
  rewrite M1, M2, M3, M4, M5, M6, M7, M8, M9, M10.
  assert (omap (fun v => match v with VString s => Some s | _ => None end) (list_to_map po : object) = upstreamDefPathsOf rdc) as ->.
  { apply map_eq. intros k. rewrite lookup_omap. pose proof (same_lookup _ _ k Hpo) as Hl. rewrite stringMap_lookup in Hl.
    destruct (upstreamDefPathsOf rdc !! k) as [p|]; cbn in Hl; [|by rewrite Hl]. destruct Hl as (v & -> & ->%same_string). done. }
  rewrite !Hstr; rewrite ?D4, ?D6; [|naive_solver|by destruct (_ && _); naive_solver].
  unfold engineRouteConfig. f_equal.
  - destruct (ru_UseClusterHeader _); [|done]. by destruct (String.eqb_spec (ru_DefaultCluster (rr_Upstream route)) "") as [->|].
  - destruct (ru_Default (rr_Upstream route)) as [info|].
    + destruct (same_member d m' "default_upstream" _ Hs D5) as (o & -> & Ho). f_equal. unfold UpstreamInfoFromMap, value_get.
      assert (forall k, getStringFromMap (list_to_map o) k = _) as Hi
        by (intros k; apply (same_getString _ _ k Ho); intros v; apply allStrings_lookup; repeat constructor; simpl; eauto).
      unfold getStringFromMap in Hi. rewrite !Hi. by destruct info.
    + pose proof (same_lookup d m' "default_upstream" Hs) as Hl. rewrite D5 in Hl. by rewrite Hl.
Qed.

#[local] Arguments createRouteConfigResource : simpl never.
#[local] Arguments createPolicyChainResource : simpl never.

(** The resource of a route, as it is created. *)
Abbreviation routeResource key rdc route :=
  (createRouteConfigResource key rdc route (upstreamBasePathOf rdc route) (upstreamDefPathsOf rdc)).

(** A resource made from an object, delivered and decoded. *)
Lemma toAny_delivered data typeURL res : NoDup data.*1 -> toAnyResource data typeURL = inr res ->
  exists dm m' b, json_copy (VMap data) = Some (VMap dm) /\ same (VMap dm) (VMap m') /\
    (forall A (json : bytes -> string + A) T e1 e2 e3 e4, decodeWrapped e1 e2 e3 e4 json (mkAny T (marshalAny res)) = orErr e4 (json b)) /\
    jsonRouteConfig b = inr (list_to_map m') /\ (forall c, decodeStored m' = Some c -> jsonStoredConfig b = inr c).
Proof.
  unfold toAnyResource. intros Hnd. destruct (json_copy (VMap data)) as [[| | | | | |dm| |]|] eqn:Hd; try done.
  intros (st & Hst%orErr_inr & (a & Ha%orErr_inr & [= <-])%sum_bind_inr)%sum_bind_inr.
  assert (NoDup dm.*1) as Hnd'. { cbn [json_copy] in Hd. apply fmap_Some in Hd as (l & Hl & [= <-]). by rewrite (mapM_pair_Some_1 _ _ _ Hl). }
  destruct (struct_json _ _ (json_copy_is_json _ _ Hd) Hnd' Hst) as (b & m' & Hb & Hs & Hj & Hc).
  exists dm, m', b. split_and!; [done..| |done|done]. intros A json T e1 e2 e3 e4. unfold decodeWrapped. cbn [any_Value].
  rewrite unmarshal_marshal_any. cbn. rewrite (struct_encoding _ _ _ Hst Ha). cbn. by rewrite Hb.
Qed.

Lemma decode_resource key rdc route res :
  routeResource key rdc route = inr res ->
  forall e1 e2 e3 e4, exists m', decodeWrapped e1 e2 e3 e4 jsonRouteConfig (mkAny RouteConfigTypeURL (marshalAny res)) = inr (list_to_map m') /\
    same (VMap (dataOf key rdc route)) (VMap m').
Proof.
  intros (dm & m' & b & Hd & Hs & Hw & Hj & _)%(toAny_delivered _ _ _ (routeConfigData_NoDup key rdc route)) e1 e2 e3 e4.
  rewrite (is_json_copy _ (routeConfigData_json key rdc route)) in Hd. injection Hd as <-. exists m'. by rewrite Hw, Hj.
Qed.

Lemma foldl_pointwise {A B} (f g : A -> B -> A) (l : list B) a : (forall a b, f a b = g a b) -> foldl f a l = foldl g a l.
Proof. intros Hfg. revert a. induction l as [|b l IH]; intros a; simpl; [done|]. by rewrite Hfg. Qed.

Lemma collectResources_lookup {A} (create : string -> A -> string + AnyResource) (m : gmap string A) acc k :
  collectResources create m acc !! k =
    match m !! k with
    | Some a => match create k a with inr r => Some r | inl _ => acc !! k end
    | None => acc !! k
    end.
Proof.
  unfold collectResources.
  rewrite (foldl_pointwise _ (fun acc kv => partial_alter (fun o => match create kv.1 kv.2 with inr r => Some r | inl _ => o end) kv.1 acc)).
  - exact (foldl_range_lookup (fun k a o => match create k a with inr r => Some r | inl _ => o end) m acc k).
  - intros acc' [k' a']. simpl. destruct (create k' a'); [|done]. apply map_eq. intros i. destruct (decide (k' = i)) as [->|]; [by rewrite lookup_partial_alter_eq|by rewrite lookup_partial_alter_ne].
Qed.

(** The resources of all runtime configurations: where one comes from, and
    which are there. *)
Section Collect.
Context {A : Type} (table : RuntimeDeployConfig -> gmap string A) (create : RuntimeDeployConfig -> string -> A -> string + AnyResource).

Definition collectAll (rdcs : list RuntimeDeployConfig) (acc : gmap string AnyResource) : gmap string AnyResource :=
  foldl (fun acc rdc => collectResources (create rdc) (table rdc) acc) acc rdcs.

Definition resourceOf (k : string) (rdc : RuntimeDeployConfig) : option AnyResource :=
  table rdc !! k ≫= fun a => match create rdc k a with inr r => Some r | inl _ => None end.

Lemma resourceOf_Some k rdc r : resourceOf k rdc = Some r <-> exists a, table rdc !! k = Some a /\ create rdc k a = inr r.
Proof. unfold resourceOf. rewrite bind_Some. split; intros (a & Ha & Hr); exists a; (split; [done|]); destruct (create rdc k a); naive_solver. Qed.

Lemma collectAll_lookup rdcs acc k :
  collectAll rdcs acc !! k = match last (omap (resourceOf k) rdcs) with Some r => Some r | None => acc !! k end.
Proof.
  unfold collectAll. induction rdcs as [|rdc rdcs IH] using rev_ind; [done|]. rewrite foldl_app, omap_app.
  cbn [foldl omap list_omap]. rewrite collectResources_lookup, IH.
  destruct (resourceOf k rdc) as [r|] eqn:E.
  - apply resourceOf_Some in E as (a & -> & ->). by rewrite last_snoc.
  - rewrite app_nil_r. unfold resourceOf in E. destruct (table rdc !! k) as [a|]; [|done]. cbn in E. by destruct (create rdc k a).
Qed.

Lemma collectAll_source rdcs k r :
  collectAll rdcs ∅ !! k = Some r -> exists rdc a, rdc ∈ rdcs /\ table rdc !! k = Some a /\ create rdc k a = inr r.
Proof.
  rewrite collectAll_lookup, lookup_empty. destruct (last _) as [r'|] eqn:E; [intros [= <-]|done].
  apply last_Some_elem_of, list_elem_of_omap in E as (rdc & Hin & (a & Ha & Hr)%resourceOf_Some). eauto.
Qed.

Lemma collectAll_present rdcs k rdc a r :
  rdc ∈ rdcs -> table rdc !! k = Some a -> create rdc k a = inr r -> (forall rdc', rdc' ∈ rdcs -> is_Some (table rdc' !! k) -> rdc' = rdc) ->
  collectAll rdcs ∅ !! k = Some r.
Proof.
  intros Hi Ha Hc Hu. destruct (collectAll rdcs ∅ !! k) as [r'|] eqn:E.
  - destruct (collectAll_source _ _ _ E) as (rdc' & a' & Hi' & Ha' & Hc'). assert (rdc' = rdc) as -> by eauto. congruence.
  - exfalso. rewrite collectAll_lookup in E. destruct (last _) eqn:El; [done|]. apply last_None in El.
    eapply (not_elem_of_nil r). rewrite <- El. apply list_elem_of_omap. exists rdc. split; [done|]. apply resourceOf_Some. eauto.
Qed.

End Collect.

Lemma snapshot_resources rdcs :
  TranslateRuntimeConfigs rdcs =
    (collectAll rdc_PolicyChains (fun rdc k chain => createPolicyChainResource k chain (rdc_Metadata rdc) (rdc_SensitiveValues rdc)) rdcs ∅,
     collectAll rdc_Routes (fun rdc k route => routeResource k rdc route) rdcs ∅).
Proof.
  unfold TranslateRuntimeConfigs, collectAll. generalize (∅ : gmap string AnyResource) at 1 3 as a.
  generalize (∅ : gmap string AnyResource) as b. induction rdcs as [|rdc rdcs IH]; intros b a; [done|]. simpl. apply IH.
Qed.

(** A resource that the engine reads as the configuration [c] of [k]. *)
Definition readsAs (res : AnyResource) (k : string) (c : RouteConfig) : Prop :=
  forall e1 e2 e3 e4, exists data, decodeWrapped e1 e2 e3 e4 jsonRouteConfig (mkAny RouteConfigTypeURL (marshalAny res)) = inr data /\
    getStringFromMap data "route_key" = k /\ routeConfigOf k data = c.

Lemma routeResource_readsAs key rdc route res : routeResource key rdc route = inr res -> readsAs res key (engineRouteConfig key rdc route).
Proof.
  intros Hr e1 e2 e3 e4. destruct (decode_resource key rdc route res Hr e1 e2 e3 e4) as (m' & Hd & Hs).
  exists (list_to_map m'). split; [done|]. by apply routeConfigOf_data.
Qed.

Lemma parse_delivered (l : list (string * AnyResource)) : forall acc,
  Forall (fun kr => kr.1 <> "" /\ exists c, readsAs kr.2 kr.1 c) l -> NoDup l.*1 ->
  exists table, parseRouteConfigs ((fun kv => mkAny RouteConfigTypeURL (marshalAny kv.2)) <$> l) acc = inr table /\
    (forall k res c, (k, res) ∈ l -> readsAs res k c -> table !! k = Some c) /\ (forall k, k ∉ l.*1 -> table !! k = acc !! k).
Proof.
  induction l as [|[k res] l IH]; intros acc Hl Hnd.
  { exists acc. split_and!; [done|intros k res c []%elem_of_nil|done]. }
  apply Forall_cons in Hl as [[Hk (c & Hc)] Hl]. apply NoDup_cons in Hnd as [Hnin Hnd]. simpl in Hk, Hc, Hnin.
  cbn [fmap list_fmap snd parseRouteConfigs any_TypeUrl]. rewrite String.eqb_refl. cbn [negb].
  match goal with |- context [decodeWrapped ?e1 ?e2 ?e3 ?e4 _ _] => destruct (Hc e1 e2 e3 e4) as (data & -> & Hkey & HE) end.
  cbn [sum_bind]. rewrite Hkey, (proj2 (String.eqb_neq _ _) Hk).
  destruct (IH (<[k := routeConfigOf k data]> acc) Hl Hnd) as (table & HP & Hin & Hout). exists table. split_and!; [exact HP| |].
  - intros k' res' c' [[= -> ->]|Hin']%elem_of_cons Hr'; [|by eapply Hin].
    rewrite Hout by done. rewrite lookup_insert_eq. f_equal.
    destruct (Hr' "" "" "" "") as (d' & Hd' & _ & <-). destruct (Hc "" "" "" "") as (d'' & Hd'' & _ & <-). congruence.
  - intros k' [Hne Hk']%not_elem_of_cons. rewrite Hout, lookup_insert_ne by done. done.
Qed.

(** C7: the engine's route table is the controller's.  Whatever runtime
    configurations the controller holds, the engine accepts the snapshot of
    their routes; every configuration it then has is that of a route of one
    of them, field by field: identity, context, path, host, base path,
    default cluster, default upstream and the base paths of the named
    upstreams; and every route whose resource could be made, and whose key no
    other runtime configuration uses, is there.  The policy chains are not
    touched. *)
Theorem route_configs_reach_the_engine rdcs (h : ResourceHandler W) :
  Forall (fun rdc => map_Forall (fun k _ => k <> "") (rdc_Routes rdc)) rdcs ->
  exists h', HandleRouteConfigUpdate (deliver RouteConfigTypeURL (TranslateRuntimeConfigs rdcs).2) h = Ok h' tt /\
    (forall k c, RouteConfigs (xh_kernel h') !! k = Some c ->
       exists rdc route, rdc ∈ rdcs /\ rdc_Routes rdc !! k = Some route /\ c = engineRouteConfig k rdc route) /\
    (forall k rdc route res, rdc ∈ rdcs -> rdc_Routes rdc !! k = Some route -> routeResource k rdc route = inr res ->
       (forall rdc', rdc' ∈ rdcs -> is_Some (rdc_Routes rdc' !! k) -> rdc' = rdc) ->
       RouteConfigs (xh_kernel h') !! k = Some (engineRouteConfig k rdc route)) /\
    PolicyChains (xh_kernel h') = PolicyChains (xh_kernel h).
Proof.
  intros Hne. rewrite snapshot_resources. cbn [snd]. set (content := collectAll _ _ _ _).
  assert (Forall (fun kr => kr.1 <> "" /\ exists c, readsAs kr.2 kr.1 c) (range content)) as Hok.
  { apply Forall_forall. intros [k r] Hkr%elem_of_range. destruct (collectAll_source _ _ _ _ _ Hkr) as (rdc & route & Hin & Hr & Hc). split.
    - rewrite Forall_forall in Hne. by apply (Hne rdc Hin k route).
    - exists (engineRouteConfig k rdc route). by apply routeResource_readsAs. }
  destruct (parse_delivered (range content) ∅ Hok (range_NoDup content)) as (table & HP & Hin & Hout).
  unfold HandleRouteConfigUpdate, deliver. rewrite HP. eexists. split_and!; [done| | |done]; cbn.
  - intros k c Hk. destruct (content !! k) as [r|] eqn:E.
    + destruct (collectAll_source _ _ _ _ _ E) as (rdc & route & Hi & Hr & Hc). exists rdc, route. split_and!; [done..|].
      rewrite (Hin k r (engineRouteConfig k rdc route)) in Hk; [by injection Hk|by apply elem_of_range|by apply routeResource_readsAs].
    + rewrite Hout in Hk; [by rewrite lookup_empty in Hk|]. intros ([k' r'] & -> & Hr)%list_elem_of_fmap. apply elem_of_range in Hr. simpl in E. congruence.
  - intros k rdc route res Hi Hr Hc Hu. eapply Hin; [|by apply routeResource_readsAs]. apply elem_of_range. by eapply collectAll_present.
Qed.

End EndToEnd.

(** ** Dynamic routing *)

Section DynamicRouting.
Context `{MapRange} `{UrlParser}.
Context (t : RestAPITransformer).

Lemma definitionCluster_name def uc : definitionCluster def = inr uc -> uc_Name uc = ud_Name def.
Proof.
  unfold definitionCluster. intros (ct & _ & ([[eps tls] plain] & _ & HE)%sum_bind_inr)%sum_bind_inr.
  destruct (tls && plain); by simplify_eq.
Qed.

Lemma resolveCluster_name name up defs res uc : resolveCluster name up defs = inr (res, uc) -> uc_Name uc = "".
Proof.
  unfold resolveCluster. intros ([raw bp] & _ & (u & _ & HE)%sum_bind_inr)%sum_bind_inr.
  destruct (_ || _); [done|]. apply sum_bind_inr in HE as (ct & _ & [= _ <-]). done.
Qed.

(** The identity of the artifact, and the clusters of the definitions: a
    cluster with a name is that of the definition of its key. *)
Lemma Transform_clusters cfg rdc r :
  Transform t cfg = inr rdc -> sc_Configuration cfg = CfgRestAPI r -> plainKind (sc_Kind cfg) = true ->
  let defs := default [] (acd_UpstreamDefinitions (ra_Spec r)) in
  rdm_Kind (rdc_Metadata rdc) = sc_Kind cfg /\ rdm_UUID (rdc_Metadata rdc) = sc_UUID cfg /\
  (forall k def, definedBy cfg defs k = Some def -> exists uc, definitionCluster def = inr uc /\ rdc_UpstreamClusters rdc !! k = Some uc) /\
  (forall k uc, rdc_UpstreamClusters rdc !! k = Some uc -> uc_Name uc <> "" -> k = defClusterKeyOf cfg (uc_Name uc)).
Proof.
  intros (r' & mres & muc & at_ & ai & rdc1 & rdc2 & Hc & Hm & Hv & Ho & Hd & Hs)%Transform_inv Hc' Hk. rewrite Hc' in Hc. injection Hc as <-.
  cbn zeta in *. apply addOperations_fold in Ho as (_ & _ & U1 & M1 & _). apply addDefinitions_spec in Hd as (_ & _ & M2 & _ & _ & K).
  apply addSandbox_spec in Hs as (_ & M3 & _ & S3).
  assert (forall k uc, rdc_UpstreamClusters rdc2 !! k = Some uc -> uc_Name uc <> "" -> k = defClusterKeyOf cfg (uc_Name uc)) as Hnamed.
  { intros k uc Hku Hn. specialize (K k). destruct (definedBy cfg _ k) as [def|] eqn:E.
    - destruct K as (uc' & Hd' & Hk'). rewrite Hk' in Hku. injection Hku as <-. rewrite (definitionCluster_name _ _ Hd').
      by apply last_filter_elem in E as [_ [_ <-]].
    - rewrite K, U1 in Hku. cbn [rdc_UpstreamClusters set_UpstreamClusters] in Hku. apply lookup_singleton_Some in Hku as [_ <-]. by rewrite (resolveCluster_name _ _ _ _ _ Hm) in Hn. }
  split_and!; [by rewrite M3, M2, M1..| |].
  - intros k def E. specialize (K k). rewrite E in K. destruct K as (uc & Hd' & Hk'). exists uc. split; [done|].
    destruct (sandboxOf (ra_Spec r)) as [sandbox|]; [|by subst]. destruct S3 as (sres & suc & Hsr & -> & _).
    rewrite lookup_insert_ne; [done|]. intros <-. by rewrite (slot_not_defined cfg _ "sandbox" _ _ _ Hk ltac:(by right) Hsr) in E.
  - destruct (sandboxOf (ra_Spec r)) as [sandbox|]; [|by subst]. destruct S3 as (sres & suc & Hsr & -> & _).
    intros k uc [[<- <-]|[_ Hl]]%lookup_insert_Some Hn; [|by apply Hnamed]. by rewrite (resolveCluster_name _ _ _ _ _ Hsr) in Hn.
Qed.

Lemma defPaths_lookup (l : list (string * UpstreamCluster)) n : n <> "" ->
  foldl (fun paths kuc => if negb (String.eqb (uc_Name kuc.2) "") then <[uc_Name kuc.2 := uc_BasePath kuc.2]> paths else paths)
    (∅ : gmap string string) l !! n = (fun kuc => uc_BasePath kuc.2) <$> last (filter (fun kuc => uc_Name kuc.2 = n) l).
Proof.
  intros Hn. induction l as [|[k uc] l IH] using rev_ind; [done|]. rewrite foldl_app, filter_app. cbn [foldl]. rewrite filter_cons, filter_nil.
  simpl. case_decide as Hd.
  - rewrite last_snoc, (proj2 (String.eqb_neq (uc_Name uc) "")) by congruence. simpl. by rewrite Hd, lookup_insert_eq.
  - rewrite app_nil_r, <- IH. destruct (String.eqb (uc_Name uc) ""); [done|]. simpl. by rewrite lookup_insert_ne.
Qed.

(** The base paths the engine is told are those of the clusters. *)
Lemma upstreamDefPaths_spec cfg rdc r n bp :
  Transform t cfg = inr rdc -> sc_Configuration cfg = CfgRestAPI r -> plainKind (sc_Kind cfg) = true -> n <> "" ->
  upstreamDefPathsOf rdc !! n = Some bp <->
  exists uc, rdc_UpstreamClusters rdc !! defClusterKeyOf cfg n = Some uc /\ uc_Name uc = n /\ uc_BasePath uc = bp.
Proof.
  intros HT Hc Hk Hn. destruct (Transform_clusters cfg rdc r HT Hc Hk) as (_ & _ & _ & Hnamed). unfold upstreamDefPathsOf.
  rewrite defPaths_lookup by done. destruct (last _) as [[k uc]|] eqn:E; simpl.
  - apply last_filter_elem in E as [Hin%elem_of_range Hnm]. simpl in Hnm. assert (k = defClusterKeyOf cfg n) as -> by (subst n; by apply Hnamed).
    split; [intros [= <-]; eauto|]. intros (uc' & Hu & _ & <-). rewrite Hin in Hu. by injection Hu as <-.
  - split; [done|]. intros (uc & Hu & Hnm & _). apply last_None in E. exfalso.
    eapply (filter_nil_not_elem_of _ _ (defClusterKeyOf cfg n, uc) E); [done|]. by apply elem_of_range.
Qed.

(** What a request knows of its API is what the route configuration says. *)
Lemma buildRequestContexts_identity {W} `{Codecs} `{UUIDSource} (chain : PolicyChain W) key headers rm s :
  let '(s', ec) := buildRequestContexts chain key headers rm s in
  sc_APIKind (st_shared s') = rm_APIKind rm /\ sc_APIId (st_shared s') = rm_APIId rm /\
  upstreamDefinitionPaths (ec_route ec) = rm_UpstreamDefinitionPaths rm.
Proof. unfold buildRequestContexts. by destruct (String.eqb (firstNonEmpty _ _) _). Qed.

(** C8: the engine and the controller agree on named upstreams.  When a policy
    directs a request of the API to an upstream by name, the engine sends it
    to a cluster it names itself and rewrites the path with a base path it was
    told.  For a request that starts with the configuration the engine has of
    a route of the API: for every name it was told, that cluster is in the
    configuration the controller gives Envoy, with that base path; every
    definition of the API that has a URL and a name not shared, after
    sanitizing, with a later one is known to the engine under its name; and
    for any other name the engine knows no base path. *)
Theorem named_upstreams_agree {W} `{Codecs} `{UUIDSource} cfg rdc r k route (chain : PolicyChain W) headers s n :
  Transform t cfg = inr rdc -> sc_Configuration cfg = CfgRestAPI r -> plainKind (sc_Kind cfg) = true -> n <> "" ->
  let '(s', ec) := buildRequestContexts chain k headers (engineRouteConfig k rdc route) s in
  let '(info, label, known) := resolveUpstreamRedirect (st_shared s') ec n in
  label = n /\ ui_ClusterName info = defClusterKeyOf cfg n /\
  (known = true <-> exists uc, rdc_UpstreamClusters rdc !! ui_ClusterName info = Some uc /\ uc_Name uc = n /\ uc_BasePath uc = ui_BasePath info) /\
  (forall def, definedBy cfg (default [] (acd_UpstreamDefinitions (ra_Spec r))) (defClusterKeyOf cfg n) = Some def -> ud_Name def = n ->
     known = true).
Proof.
  intros HT Hc Hk Hn. destruct (Transform_clusters cfg rdc r HT Hc Hk) as (Kk & Ku & Hdef & _).
  pose proof (buildRequestContexts_identity chain k headers (engineRouteConfig k rdc route) s) as Hid.
  destruct (buildRequestContexts _ _ _ _ s) as [s' ec]. destruct Hid as (Hkind & Hid & Hp).
  unfold resolveUpstreamRedirect. rewrite Hp, Hkind, Hid. cbn [rm_UpstreamDefinitionPaths rm_APIKind rm_APIId engineRouteConfig]. rewrite Kk, Ku.
  change (UpstreamDefinitionClusterPrefix +:+ sc_Kind cfg +:+ "_" +:+ sc_UUID cfg +:+ "_" +:+ sanitizeUpstreamDefinitionName n)
    with (defClusterKeyOf cfg n).
  pose proof (fun bp => upstreamDefPaths_spec cfg rdc r n bp HT Hc Hk Hn) as Hspec.
  destruct (upstreamDefPathsOf rdc !! n) as [bp|] eqn:E; cbn [ui_ClusterName ui_BasePath]; split_and!; try done.
  - split; [intros _; by apply Hspec|done].
  - split; [done|]. intros (uc & Hu & Hnm & Hb). assert (None = Some (uc_BasePath uc)) as [=] by (apply Hspec; eauto).
  - intros def Hd Hdn. destruct (Hdef _ _ Hd) as (uc & Hdc & Hu). assert (None = Some (uc_BasePath uc)) as [=].
    apply Hspec. exists uc. split_and!; [done| |done]. by rewrite (definitionCluster_name _ _ Hdc).
Qed.

End DynamicRouting.

(** ** A wire that loses nothing

    JSON values as trees of a countable type, and a tree as the bytes of a
    message by its number. *)
Module SampleWire.

Abbreviation leaf := (bool + string + Z * Z)%type.

Fixpoint tree (v : Value) : gen_tree leaf :=
  match v with
  | VBool b => GenLeaf (inl (inl b))
  | VString s => GenLeaf (inl (inr s))
  | VFloat m e => GenLeaf (inr (m, e))
  | VList l => GenNode 1 (tree <$> l)
  | VMap m => GenNode 2 ((fun kv => GenNode 3 [GenLeaf (inl (inr kv.1)); tree kv.2]) <$> m)
  | _ => GenNode 0 []
  end.

Fixpoint value (t : gen_tree leaf) : Value :=
  match t with
  | GenLeaf (inl (inl b)) => VBool b
  | GenLeaf (inl (inr s)) => VString s
  | GenLeaf (inr (m, e)) => VFloat m e
  | GenNode 1 l => VList (value <$> l)
  | GenNode 2 l => VMap ((fun t => match t with GenNode _ [GenLeaf (inl (inr k)); u] => (k, value u) | _ => ("", VNil) end) <$> l)
  | GenNode _ _ => VNil
  end.

Lemma value_tree v : is_json v = true -> value (tree v) = v.
Proof.
  induction v as [| | | | |l IH|m IH| |] using Value_ind'; simpl; try done; intros Hj; f_equal.
  - induction IH as [|v l Hv _ IHl]; [done|]. apply andb_true_iff in Hj as [Hj1 Hj2]. cbn [fmap list_fmap]. by rewrite Hv, IHl.
  - induction IH as [|[k v] m Hv _ IHm]; [done|]. apply andb_true_iff in Hj as [Hj1 Hj2]. cbn [fmap list_fmap fst snd] in *.
    f_equal; [by rewrite Hv|]. by apply IHm.
Qed.

Definition to_bytes {A} `{Countable A} (a : A) : bytes := replicate (encode_nat a) Byte.x00.
Definition of_bytes (A : Type) `{Countable A} (b : bytes) : string + A :=
  match decode_nat (length b) with Some a => inr a | None => inl "malformed message" end.

Lemma of_to_bytes {A} `{Countable A} (a : A) : of_bytes A (to_bytes a) = inr a.
Proof. unfold of_bytes, to_bytes. by rewrite length_replicate, decode_encode_nat. Qed.

Definition object_of (t : gen_tree leaf) : list (string * Value) := match value t with VMap m => m | _ => [] end.
Definition orMalformed {A} (o : option A) : string + A := match o with Some a => inr a | None => inl "cannot unmarshal" end.
Definition any_of (p : string * string) : AnyResource := mkAny p.1 (String.list_byte_of_string p.2).

(** The object of API keys is read by a given function. *)
Section Codec.
Variable readKeys : list (string * Value) -> option (list APIKeyData).

Definition codecOf : XdsCodec := {|
  PbStruct := gen_tree leaf;
  unmarshalAny b := sum_bind (of_bytes (string * string) b) (fun p => inr (any_of p));
  unmarshalStruct := of_bytes (gen_tree leaf);
  marshalStruct t := inr (to_bytes t);
  marshalAsMap t := inr (to_bytes t);
  jsonStoredConfig b := sum_bind (of_bytes (gen_tree leaf) b) (fun t => orMalformed (decodeStored (object_of t)));
  jsonRouteConfig b := sum_bind (of_bytes (gen_tree leaf) b) (fun t => inr (list_to_map (object_of t)));
  jsonAPIKeyState b := sum_bind (of_bytes (gen_tree leaf) b) (fun t => orMalformed (readKeys (object_of t)));
  jsonSubscriptionState _ := inl "not used";
  jsonLazyResourceState _ := inl "not used";
  jsonView v := inr (v_RouteKey v)
|}.
#[local] Existing Instance codecOf.

Definition wireOf : SnapshotWire := {|
  newStruct m := inr (tree (VMap m));
  anyNew t := inr (mkAny "type.googleapis.com/google.protobuf.Struct" (to_bytes t));
  marshalAny a := to_bytes (any_TypeUrl a, String.string_of_list_byte (any_Value a))
|}.
#[local] Existing Instance wireOf.

Lemma lawsOf : SnapshotWireLaws.
Proof.
  split.
  - intros [ty b]. cbn [unmarshalAny marshalAny codecOf wireOf any_TypeUrl any_Value]. rewrite of_to_bytes. cbn [sum_bind]. unfold any_of. cbn [fst snd]. by rewrite String.list_byte_of_string_of_list_byte.
  - intros m s a [= <-] [= <-]. apply of_to_bytes.
  - intros m s Hj Hnd [= <-]. exists (to_bytes (tree (VMap m))), m. split_and!; [done|constructor| |].
    + cbn [jsonRouteConfig codecOf]. rewrite of_to_bytes. cbn [sum_bind]. unfold object_of. by rewrite (value_tree _ Hj).
    + intros c Hc. cbn [jsonStoredConfig codecOf]. rewrite of_to_bytes. cbn [sum_bind]. unfold object_of. by rewrite (value_tree _ Hj), Hc.
Qed.

End Codec.

#[export] Instance codec : XdsCodec := codecOf (fun _ => None).
#[export] Instance wire : SnapshotWire := wireOf _.
#[export] Instance laws : SnapshotWireLaws := lawsOf _.

End SampleWire.

Import SampleApi SampleWire.
#[local] Existing Instance MapRange_list.
#[local] Existing Instance plainUrls.

Lemma sampleKeys : Forall (fun rdc => map_Forall (fun k _ => k <> "") (rdc_Routes rdc)) [runtime].
Proof.
  constructor; [|constructor]. apply map_Forall_to_list. refine (bool_decide_unpack _ _). by vm_compute.
Qed.

Abbreviation sampleKey := "GET|/books/v1/list|sandbox.local".

Lemma route_configs_reach_the_engine_witness :
  exists h' : ResourceHandler unit,
    HandleRouteConfigUpdate (deliver RouteConfigTypeURL (TranslateRuntimeConfigs [runtime]).2) (NewResourceHandler NewKernel tt) = Ok h' tt /\
    exists route, rdc_Routes runtime !! sampleKey = Some route /\
      RouteConfigs (xh_kernel h') !! sampleKey = Some (engineRouteConfig sampleKey runtime route).
Proof.
  destruct (route_configs_reach_the_engine [runtime] (NewResourceHandler (W := unit) NewKernel tt) sampleKeys) as (h' & HE & _ & Hin & _).
  exists h'. split; [exact HE|].
  assert (bool_decide (is_Some (rdc_Routes runtime !! sampleKey)) = true) as Hr by (by vm_compute).
  apply bool_decide_eq_true in Hr as [route Hr]. exists route. split; [exact Hr|].
  eapply (Hin sampleKey runtime route).
  - apply list_elem_of_singleton. reflexivity.
  - exact Hr.
  - unfold createRouteConfigResource, toAnyResource. rewrite (is_json_copy _ (routeConfigData_json _ _ _)). reflexivity.
  - intros rdc' ->%list_elem_of_singleton _. reflexivity.
Defined.

#[local] Existing Instance toyCodecs.
#[local] Existing Instance toyUUID.

(** The policies of the first route direct a request to "blue.eu". *)
Lemma named_upstreams_agree_witness :
  exists route, rdc_Routes runtime !! sampleKey = Some route /\
  let '(s', ec) := buildRequestContexts redirectChain sampleKey (postHeaders []) (engineRouteConfig sampleKey runtime route) sampleStore in
  let '(info, _, known) := resolveUpstreamRedirect (st_shared s') ec "blue.eu" in
  known = true /\ ui_ClusterName info = "upstream_RestApi_0001_blue_eu" /\
  exists uc, rdc_UpstreamClusters runtime !! "upstream_RestApi_0001_blue_eu" = Some uc /\ uc_BasePath uc = ui_BasePath info.
Proof.
  assert (bool_decide (is_Some (rdc_Routes runtime !! sampleKey)) = true) as Hr by (by vm_compute).
  apply bool_decide_eq_true in Hr as [route Hr]. exists route. split; [exact Hr|].
  pose proof (named_upstreams_agree transformer stored runtime artifact sampleKey route redirectChain (postHeaders []) sampleStore "blue.eu"
    runtime_ok eq_refl eq_refl ltac:(discriminate)) as HE.
  destruct (buildRequestContexts _ _ _ _ _) as [s' ec]. destruct (resolveUpstreamRedirect _ _ _) as [[info label] known].
  destruct HE as (_ & Hn & Hiff & Hd).
  assert (defClusterKeyOf stored "blue.eu" = "upstream_RestApi_0001_blue_eu") as E by (vm_compute; reflexivity). rewrite E in Hn.
  assert (known = true) as Hk by (apply (Hd blue); vm_compute; reflexivity).
  apply proj1 in Hiff. destruct (Hiff Hk) as (uc & Hu & _ & Hb). rewrite Hn in Hu.
  exact (conj Hk (conj Hn (ex_intro _ uc (conj Hu Hb)))).
Defined.
