(* ===== verification/ChainDelivery.v ===== *)
(** * ChainDelivery: policy chains on their way to the engine

    The policy chains of the controller's runtime configurations, encoded by
    policyxds/snapshot.go and decoded by the engine's xdsclient/handler.go:
    what the engine reads for a route is the chain of that route, and what it
    redacts is what the controller declared sensitive. *)

From stdpp Require Import base gmap strings list fin_maps.
From S2P Require Import Prelude GoStrings GoDuration Version Values JsonWire Sdk Registry Executor ChainBuild XdsHandlers Routes ManagementApi PolicyVersions RestTransform ConfigStore RuntimeSnapshot Mutation ExecContext Translator Samples RouteTheorems RestTransformTheorems SnapshotTheorems.

#[local] Set Warnings "-register-all".

Open Scope string_scope.

(** ** Decoding does not depend on the order of members *)

Definition samePolicy (p p' : PolicyInstance) : Prop :=
  pi_Name p' = pi_Name p /\ pi_Version p' = pi_Version p /\ pi_Enabled p' = pi_Enabled p /\
  pi_ExecutionCondition p' = pi_ExecutionCondition p /\ forall x, option_Forall2 same (pi_Parameters p !! x) (pi_Parameters p' !! x).

Definition sameChain (c c' : ChainConfig) : Prop :=
  cc_RouteKey c' = cc_RouteKey c /\ Forall2 samePolicy (cc_Policies c) (cc_Policies c').

Lemma decodePolicy_respects : respects samePolicy decodePolicy.
Proof.
  intros v v' p Hs. destruct v; try done. destruct (same_object_inv _ _ Hs) as [m' ->]. cbn [decodePolicy]. intros HE. read_members.
  match goal with H : jsonParams _ _ = _ |- _ => destruct (same_jsonParams _ _ _ _ Hs H) as (p' & -> & Hp') end.
  injection HE as <-. eexists. by split.
Qed.

Lemma decodeChain_respects : respects sameChain decodeChain.
Proof.
  intros v v' c Hs. destruct v; try done. destruct (same_object_inv _ _ Hs) as [m' ->]. cbn [decodeChain]. intros HE. read_members.
  match goal with H : jsonList _ _ _ = _ |- _ => destruct (same_jsonList _ _ _ _ _ _ decodePolicy_respects Hs H) as (l' & -> & Hl') end.
  injection HE as <-. eexists. by split.
Qed.

Lemma decodeMetadata_same o o' md : same (VMap o) (VMap o') -> decodeMetadata o = Some md -> decodeMetadata o' = Some md.
Proof. intros Hs. unfold decodeMetadata. intros HE. by read_members. Qed.

Lemma decodeTransport_same m m' t :
  same (VMap m) (VMap m') -> decodeTransport (list_to_map m) = Some t -> decodeTransport (list_to_map m') = Some t.
Proof.
  intros Hs. unfold decodeTransport. destruct (same_option m m' "transport_metadata" Hs) as [v v' Hv|]; [|done].
  destruct v; try done; [by inversion Hv|]. destruct (same_object_inv _ _ Hv) as [o' ->]. intros HE. read_members.
  apply fmap_Some in HE as (l & HE & ->). destruct (same_jsonList _ _ _ _ _ _ jsonElemString_respects Hv HE) as (l' & -> & ->%list_eq_Forall2). done.
Qed.

Lemma decodeStored_same m m' c : same (VMap m) (VMap m') -> decodeStored m = Some c ->
  exists routes', decodeStored m' = Some (mkStoredPolicyConfig (sp_ID c) routes' (sp_Metadata c) (sp_Version c) (sp_SensitiveValues c)) /\
    Forall2 sameChain (sp_Routes c) routes'.
Proof.
  intros Hs. unfold decodeStored. intros HE. read_members.
  match goal with H : decodeTransport _ = _ |- _ => rewrite (decodeTransport_same _ _ _ Hs H) end. cbn [mbind option_bind].
  match goal with H : jsonObject (list_to_map m) _ = _ |- _ => destruct (same_jsonObject _ _ _ _ Hs H) as (co & -> & Hco) end.
  cbn [mbind option_bind]. clear Hs. read_members.
  match goal with H : jsonList _ _ _ = _ |- _ => destruct (same_jsonList _ _ _ _ _ _ decodeChain_respects Hco H) as (l' & -> & Hl') end.
  match goal with H : jsonObject _ "metadata" = _ |- _ => destruct (same_jsonObject _ _ _ _ Hco H) as (mo & -> & Hmo) end.
  cbn [mbind option_bind]. erewrite decodeMetadata_same by done. injection HE as <-. eexists. by split.
Qed.

(** ** From the controller's chain to the engine's configuration *)

Lemma json_params_copy (p : Params) l : mapM (fun kv => pair kv.1 <$> json_copy kv.2) (map_to_list p) = Some l ->
  forall k, (list_to_map l : object) !! k = p !! k ≫= json_copy.
Proof.
  intros Hl. assert (deepCopyParams p = inr (list_to_map l)) as Hd.
  { unfold deepCopyParams. case_decide as Hz; [|by rewrite Hl]. apply map_size_empty_inv in Hz as ->. rewrite map_to_list_empty in Hl. by injection Hl as <-. }
  by apply deepCopyParams_sound in Hd as [_ ?].
Qed.

(** A policy of the controller and the instance the engine reads: always
    enabled, the parameters through JSON. *)
Definition policyArrived (p : ModelPolicy) (pi : PolicyInstance) : Prop :=
  pi_Name pi = mp_Name p /\ pi_Version pi = mp_Version p /\ pi_Enabled pi = true /\ pi_ExecutionCondition pi = mp_ExecutionCondition p /\
  forall k, option_Forall2 same (mp_Params p !! k ≫= json_copy) (pi_Parameters pi !! k).

(** As decoded from the object itself, the parameters are exactly copies. *)
Definition policyDecoded (p : ModelPolicy) (pi : PolicyInstance) : Prop :=
  policyArrived p pi /\ forall k, pi_Parameters pi !! k = mp_Params p !! k ≫= json_copy.

Lemma policyDecoded_same p pi pi' : policyDecoded p pi -> samePolicy pi pi' -> policyArrived p pi'.
Proof.
  intros [(Hn & Hv & He & Hc & _) Hk] (En & Ev & Ee & Ec & Es). split_and!; [congruence..|]. intros k. by rewrite <- Hk.
Qed.

(** The metadata of a chain: the name and the version of the API only. *)
Definition arrivedMetadata (rdc : RuntimeDeployConfig) : XdsMetadata :=
  mkXdsMetadata 0 0 0 "" (rdm_DisplayName (rdc_Metadata rdc)) (rdm_Version (rdc_Metadata rdc)) "".

Definition chainArrived (rdc : RuntimeDeployConfig) (k : string) (chain : list ModelPolicy) (c : ChainConfig) (md : XdsMetadata) : Prop :=
  cc_RouteKey c = k /\ Forall2 policyArrived chain (cc_Policies c) /\
  md = arrivedMetadata rdc.

Lemma decode_policyData p v : json_copy (policyData p) = Some v -> exists pi, decodePolicy v = Some pi /\ policyDecoded p pi.
Proof.
  unfold policyData. cbn [json_copy app]. destruct (mapM (fun kv : string * Value => pair kv.1 <$> json_copy kv.2) (map_to_list (mp_Params p))) as [l|] eqn:El.
  2: { cbn. rewrite El. cbn. done. }
  destruct (mp_ExecutionCondition p) as [cond|] eqn:Ec; cbn; rewrite El; cbn; intros [= <-]; eexists; (split; [reflexivity|]);
    (split; [split_and!; [done..|]|]); intros k; simpl; rewrite (json_params_copy _ _ El); first [done|apply option_Forall2_refl; intros ?; constructor].
Qed.

Lemma decode_policies chain vs : mapM json_copy (policyData <$> chain) = Some vs ->
  exists pis, mapM decodePolicy vs = Some pis /\ Forall2 policyDecoded chain pis.
Proof.
  revert vs. induction chain as [|p chain IH]; intros vs; simpl; [intros [= <-]; eauto|].
  intros (v & Hv & (vs' & Hvs & [= <-])%bind_Some)%bind_Some. destruct (decode_policyData _ _ Hv) as (pi & Hpi & Hp).
  destruct (IH _ Hvs) as (pis & Hpis & Hf). exists (pi :: pis). simpl. rewrite Hpi. cbn. rewrite Hpis. by split; [|constructor].
Qed.

Lemma copy_strings (l : list string) : mapM json_copy (VString <$> l) = Some (VString <$> l).
Proof. apply mapM_Some_2, Forall2_fmap_2, Forall_Forall2_diag, Forall_true. done. Qed.

Lemma decode_strings (l : list string) : mapM jsonElemString (VString <$> l) = Some l.
Proof. apply mapM_Some_2, Forall2_fmap_l, Forall_Forall2_diag, Forall_true. done. Qed.

Lemma decode_chainData k chain rdc dm :
  json_copy (VMap (policyChainData k chain (rdc_Metadata rdc) (rdc_SensitiveValues rdc))) = Some (VMap dm) ->
  exists c stored, decodeStored dm = Some stored /\ sp_Routes stored = [c] /\ cc_RouteKey c = k /\ Forall2 policyDecoded chain (cc_Policies c) /\ sp_Metadata stored = arrivedMetadata rdc /\
    default [] (sp_SensitiveValues stored) = rdc_SensitiveValues rdc.
Proof.
  unfold policyChainData. cbn [json_copy app]. destruct (mapM json_copy (policyData <$> chain)) as [vs|] eqn:Ev.
  2: { cbn. rewrite Ev. cbn. done. }
  intros Hdm. destruct (decode_policies _ _ Ev) as (pis & Hp & Hf).
  set (v := VMap [("route_key", VString k); ("policies", VList vs)]).
  assert (mapM decodeChain [v] = Some [mkChainConfig k pis]) as Hc.
  { assert (decodeChain v = (l ← mapM decodePolicy vs; Some (mkChainConfig k l))) as Hv by done. cbn [mapM]. rewrite Hv, Hp. done. }
  set (md := arrivedMetadata rdc).
  exists (mkChainConfig k pis), (mkStoredPolicyConfig "" [mkChainConfig k pis] md 0 (match rdc_SensitiveValues rdc with [] => None | l => Some l end)).
  split_and!; [|done..|by destruct (rdc_SensitiveValues rdc)]. revert Hdm.
  destruct (rdc_SensitiveValues rdc) as [|s l]; cbn; rewrite Ev; cbn; [|rewrite copy_strings; cbn]; intros [= <-].
  - transitivity (routes ← mapM decodeChain [v]; Some (mkStoredPolicyConfig "" routes md 0 None)); [done|]. by rewrite Hc.
  - transitivity (t ← (Some <$> mapM jsonElemString (VString <$> s :: l)); routes ← mapM decodeChain [v];
      Some (mkStoredPolicyConfig "" routes md 0 t)); [done|]. by rewrite decode_strings, Hc.
Qed.

Section Delivery.
Context {W : Type} `{CEL} `{FmtScalar} `{MapRange} `{SnapshotWireLaws}.

(** The resource of a chain, as it is created, and what the engine decodes
    from it. *)
Definition chainResource (rdc : RuntimeDeployConfig) (k : string) (chain : list ModelPolicy) : string + AnyResource :=
  createPolicyChainResource k chain (rdc_Metadata rdc) (rdc_SensitiveValues rdc).

Definition chainReadsAs (rdc : RuntimeDeployConfig) (k : string) (chain : list ModelPolicy) (stored : StoredPolicyConfig) : Prop :=
  exists c, sp_Routes stored = [c] /\ chainArrived rdc k chain c (sp_Metadata stored) /\
    default [] (sp_SensitiveValues stored) = rdc_SensitiveValues rdc.

Lemma chainResource_reads rdc k chain res : chainResource rdc k chain = inr res ->
  exists stored, chainReadsAs rdc k chain stored /\
    forall e1 e2 e3 e4, decodeWrapped e1 e2 e3 e4 jsonStoredConfig (mkAny PolicyChainTypeURL (marshalAny res)) = inr stored.
Proof.
  unfold chainResource, createPolicyChainResource.
  assert (NoDup (policyChainData k chain (rdc_Metadata rdc) (rdc_SensitiveValues rdc)).*1) as Hnd.
  { unfold policyChainData. destruct (rdc_SensitiveValues rdc); cbn [app fmap list_fmap fst]; refine (bool_decide_unpack _ _); by vm_compute. }
  intros (dm & m' & b & Hd & Hs & Hw & _ & Hj)%(toAny_delivered _ _ _ Hnd).
  destruct (decode_chainData _ _ _ _ Hd) as (c & stored & Hst & Hr & Hk & Hp & Hm & Hv).
  destruct (decodeStored_same _ _ _ Hs Hst) as (routes' & Hst' & Hf). rewrite Hr in Hf.
  apply Forall2_cons_inv_l in Hf as (c' & rest & [Hk' Hp'] & ->%Forall2_nil_inv_l & ->).
  eexists. split; [|intros e1 e2 e3 e4; by rewrite Hw, (Hj _ Hst')]. exists c'. split_and!; [done| |done]. split_and!; [congruence| |done].
  by eapply Forall2_trans; [exact policyDecoded_same|exact Hp|].
Qed.

(** What the engine makes of the delivered resources. *)
Lemma parse_delivered_chains (reg : PolicyRegistry W) (source : string -> RuntimeDeployConfig -> list ModelPolicy -> Prop) l :
  Forall (fun kr => exists rdc chain, source kr.1 rdc chain /\ chainResource rdc kr.1 chain = inr kr.2) l ->
  exists configs sensitive, parseResources reg ((fun kv => mkAny PolicyChainTypeURL (marshalAny kv.2)) <$> l) = inr (configs, sensitive) /\
    (forall c md, (c, md) ∈ configs -> validatePolicyChainConfig reg c = None /\
       exists k rdc chain, source k rdc chain /\ chainArrived rdc k chain c md) /\
    (forall v, v ∈ sensitive -> exists k rdc chain, source k rdc chain /\ v ∈ rdc_SensitiveValues rdc) /\
    (forall k res rdc chain, (k, res) ∈ l -> chainResource rdc k chain = inr res ->
       (exists c md, chainArrived rdc k chain c md /\ (validatePolicyChainConfig reg c = None -> (c, md) ∈ configs)) /\
       rdc_SensitiveValues rdc ⊆ sensitive).
Proof.
  induction 1 as [|[k res] l (rdc & chain & Hsource & Hc) _ (configs & sensitive & HP & Hq1 & Hq2 & Hq3)].
  { exists [], []. split_and!; [done|set_solver..]. }
  destruct (chainResource_reads _ _ _ _ Hc) as (stored & (c & Hr & Ha & Hv) & Hd).
  exists (validRoutes reg stored ++ configs)%list, (default [] (sp_SensitiveValues stored) ++ sensitive)%list.
  assert (forall c' md, (c', md) ∈ validRoutes reg stored <-> c' = c /\ md = sp_Metadata stored /\ validatePolicyChainConfig reg c' = None) as Hvr.
  { intros c' md. unfold validRoutes. rewrite Hr, list_elem_of_fmap. split.
    - intros (c0 & [= -> ->] & [Hn Hin]%list_elem_of_filter). set_solver.
    - intros (-> & -> & Hn). exists c. split; [done|]. apply list_elem_of_filter. set_solver. }
  split_and!.
  - cbn [fmap list_fmap snd parseResources any_TypeUrl]. rewrite String.eqb_refl. cbn [negb]. rewrite Hd. cbn [sum_bind].
    by setoid_rewrite HP.
  - intros c' md [(-> & -> & Hn)%Hvr|Hin]%elem_of_app; [|by apply Hq1]. eauto 6.
  - intros v [Hin|Hin]%elem_of_app; [|by apply Hq2]. exists k, rdc, chain. by rewrite <- Hv.
  - intros k' res' rdc' chain' [[= -> ->]|Hin]%elem_of_cons Hc'.
    + destruct (chainResource_reads _ _ _ _ Hc') as (stored' & (c' & Hr' & Ha' & Hv') & Hd'). pose proof (Hd' "" "" "" "") as E. rewrite Hd in E.
      injection E as <-. rewrite Hr in Hr'. injection Hr' as <-. split; [|rewrite <- Hv'; set_solver].
      exists c, (sp_Metadata stored). split; [done|]. intros Hn. apply elem_of_app. left. by apply Hvr.
    + destruct (Hq3 _ _ _ _ Hin Hc') as [(c' & md & Ha' & Hn') Hs']. split; [|set_solver]. exists c', md. split; [done|]. set_solver.
Qed.

(** C6: policy chains reach the engine.  Whatever runtime configurations the
    controller holds, the engine decodes the snapshot of their chains without
    an error.  Every chain it takes over is that of a route of one of them:
    the same policies in the same order with the same conditions, all enabled,
    with the parameters the controller resolved (through JSON), under the name
    and version of the API; the identifier of the API and its context are
    empty.  Every chain whose resource could be made, whose key is used once,
    and that the engine's registry accepts is taken over, and the values the
    engine redacts are those the configurations declare. *)
Theorem policy_chains_reach_the_engine (reg : PolicyRegistry W) rdcs :
  exists configs sensitive, parseResources reg (deliver PolicyChainTypeURL (TranslateRuntimeConfigs rdcs).1) = inr (configs, sensitive) /\
    (forall c md, (c, md) ∈ configs -> validatePolicyChainConfig reg c = None /\
       exists rdc chain, rdc ∈ rdcs /\ rdc_PolicyChains rdc !! cc_RouteKey c = Some chain /\
         Forall2 policyArrived chain (cc_Policies c) /\ md = arrivedMetadata rdc) /\
    (forall k rdc chain res, rdc ∈ rdcs -> rdc_PolicyChains rdc !! k = Some chain -> chainResource rdc k chain = inr res ->
       (forall rdc', rdc' ∈ rdcs -> is_Some (rdc_PolicyChains rdc' !! k) -> rdc' = rdc) ->
       (exists c, cc_RouteKey c = k /\ Forall2 policyArrived chain (cc_Policies c) /\
          (validatePolicyChainConfig reg c = None -> (c, arrivedMetadata rdc) ∈ configs)) /\
       rdc_SensitiveValues rdc ⊆ sensitive) /\
    (forall v, v ∈ sensitive -> exists rdc, rdc ∈ rdcs /\ v ∈ rdc_SensitiveValues rdc).
Proof.
  rewrite snapshot_resources. cbn [fst]. set (content := collectAll _ _ _ _). unfold deliver.
  destruct (parse_delivered_chains reg (fun k rdc chain => rdc ∈ rdcs /\ rdc_PolicyChains rdc !! k = Some chain) (range content))
    as (configs & sensitive & HP & Hc & Hv & Hp).
  { apply Forall_forall. intros [k r] (rdc & chain & ? & ? & ?)%elem_of_range%collectAll_source. eauto 6. }
  exists configs, sensitive. split_and!; [done| | |].
  - intros c md [Hn (k & rdc & chain & [Hi Hk] & Ha)]%Hc. destruct Ha as (<- & Hf & ->). split; [done|]. by exists rdc, chain.
  - intros k rdc chain res Hi Hk Hr Hu. destruct (Hp k res rdc chain) as [(c & md & (<- & Hf & ->) & Hin) Hs]; [|done|].
    + apply elem_of_range. by eapply collectAll_present.
    + split; [|done]. by exists c.
  - intros v (k & rdc & chain & [Hi _] & Hin)%Hv. eauto.
Qed.

End Delivery.

Import SampleApi SampleWire.
#[local] Existing Instance keyCEL.
#[local] Existing Instance noFloats.
#[local] Existing Instance MapRange_list.

Abbreviation chainKey := "POST|/books/v1/list|b.com".
Definition sampleModelChain : list ModelPolicy := default [] (rdc_PolicyChains runtime !! chainKey).

Definition sampleEntry (name version : string) : PolicyEntry unit :=
  mkPolicyEntry (mkPolicyDefinition name version ∅ ∅) (fun _ _ w => (w, inr (setter "x" "1"))).
Definition sampleEngine : PolicyRegistry unit :=
  mkPolicyRegistry {["wso2_apip_sys_analytics:v1" := sampleEntry "wso2_apip_sys_analytics" "v1.0.0"; "auth:v2" := sampleEntry "auth" "v2.1.0";
                     "cors:v0" := sampleEntry "cors" "v0.9.0"]} (Some (mkConfigResolver (Some ∅) true)).

Lemma policy_chains_reach_the_engine_witness :
  exists configs sensitive,
    parseResources sampleEngine (deliver PolicyChainTypeURL (TranslateRuntimeConfigs [runtime]).1) = inr (configs, sensitive) /\
    (exists c, (c, arrivedMetadata runtime) ∈ configs /\ cc_RouteKey c = chainKey /\
       (pi_Name <$> cc_Policies c) = ["wso2_apip_sys_analytics"; "auth"; "cors"]) /\
    "s3cret" ∈ sensitive.
Proof.
  destruct (policy_chains_reach_the_engine sampleEngine [runtime]) as (configs & sensitive & HE & _ & Hin & _).
  exists configs, sensitive. split; [exact HE|].
  assert (bool_decide (is_Some (rdc_PolicyChains runtime !! chainKey)) = true) as Hk by (vm_compute; reflexivity).
  apply bool_decide_eq_true in Hk as [chain Hk].
  assert (default [] (rdc_PolicyChains runtime !! chainKey) = chain) as Hc by (rewrite Hk; reflexivity).
  assert (match json_copy (VMap (policyChainData chainKey sampleModelChain (rdc_Metadata runtime) (rdc_SensitiveValues runtime))) with
          | Some (VMap _) => true | _ => false end = true) as Hj by (vm_compute; reflexivity).
  assert ((fun p => (mp_Name p, mp_Version p)) <$> sampleModelChain = [("wso2_apip_sys_analytics", "v1"); ("auth", "v2"); ("cors", "v0")]) as Hnames
    by (vm_compute; reflexivity).
  unfold sampleModelChain in Hj, Hnames. rewrite Hc in Hj, Hnames.
  destruct (json_copy (VMap (policyChainData chainKey chain (rdc_Metadata runtime) (rdc_SensitiveValues runtime)))) as [[| | | | | |dm| |]|] eqn:Hd; try discriminate Hj.
  destruct (Hin chainKey runtime chain (mkAny PolicyChainTypeURL (to_bytes (tree (VMap dm))))) as [(c & Hck & Hf & Hv) Hs].
  - apply list_elem_of_singleton. reflexivity.
  - exact Hk.
  - unfold chainResource, createPolicyChainResource, toAnyResource. rewrite Hd. reflexivity.
  - intros rdc' ->%list_elem_of_singleton _. reflexivity.
  - split; [|apply Hs, list_elem_of_singleton; vm_compute; reflexivity].
    assert ((fun pi => (pi_Name pi, pi_Version pi)) <$> cc_Policies c = [("wso2_apip_sys_analytics", "v1"); ("auth", "v2"); ("cors", "v0")]) as Hpn.
    { rewrite <- Hnames. clear -Hf. induction Hf as [|p pi l l' (Hn & Hv & _) _ IH]; [reflexivity|]. cbn. rewrite Hn, Hv. f_equal. exact IH. }
    exists c. split; [apply Hv|split; [exact Hck|]].
    + destruct c as [ck ps]. cbn in Hck, Hpn. subst ck. do 3 (destruct ps as [|[] ps]; [discriminate Hpn|]). destruct ps; [|discriminate Hpn].
      injection Hpn as -> -> -> -> -> ->. vm_compute. reflexivity.
    + apply (f_equal (fmap fst)) in Hpn. rewrite <- list_fmap_compose in Hpn. exact Hpn.
Defined.
