(* ===== verification/StateSnapshotTheorems.v ===== *)
(** * StateSnapshotTheorems: issued API keys reach the engine

    The controller's key store against a ledger with one key per API and
    name, the state resource its manager publishes, and what the engine's
    store accepts once it has applied that resource.  The last section is
    about the entries of a subscription snapshot. *)

From stdpp Require Import base gmap strings list fin_maps.
From Stdlib Require Import Ascii.
From S2P Require Import Prelude GoStrings Version Values JsonWire NestedMap Sha256 ApiKeys ApiKeyTheorems Subscriptions LazyResources XdsHandlers Routes ManagementApi ConfigStore RestTransform RuntimeSnapshot StateSnapshots Samples XdsTheorems ConfigStoreTheorems RouteTheorems SnapshotTheorems.

#[local] Set Warnings "-register-all".

Open Scope string_scope.

(** ** The ledger *)

Abbreviation Ledger := (gmap (string * string) ControllerAPIKey).

(** What happens to the keys: one is read from the database at start, issued
    or rotated, withdrawn, all keys of an API are dropped, or the snapshot is
    only refreshed. *)
Inductive KeyEvent : Type :=
| KLoad (k : ControllerAPIKey)
| KIssue (k : ControllerAPIKey)
| KWithdraw (api name : string)
| KDrop (api : string)
| KRefresh.

Definition ledgerOf1 (L : Ledger) (ev : KeyEvent) : Ledger :=
  match ev with
  | KLoad k | KIssue k => <[(ck_ArtifactUUID k, ck_Name k) := k]> L
  | KWithdraw api name => delete (api, name) L
  | KDrop api => filter (fun kv => kv.1.1 <> api) L
  | KRefresh => L
  end.

Definition ledgerOf (evs : list KeyEvent) : Ledger := foldl ledgerOf1 ∅ evs.

Definition brings (ev : KeyEvent) : option ControllerAPIKey := match ev with KLoad k | KIssue k => Some k | _ => None end.

(** Identifiers of keys are not empty and belong to one name, identifiers of
    APIs have no colon. *)
Definition plain (api : string) : Prop := String_contains_byte ":"%char api = false.

Definition wellIdentified (evs : list KeyEvent) : Prop :=
  (forall k, k ∈ omap brings evs -> ck_UUID k <> "" /\ plain (ck_ArtifactUUID k)) /\
  (forall api name, KWithdraw api name ∈ evs -> plain api) /\
  (forall k k', k ∈ omap brings evs -> k' ∈ omap brings evs -> ck_ArtifactUUID k = ck_ArtifactUUID k' -> ck_UUID k = ck_UUID k' ->
     ck_Name k = ck_Name k').

Lemma ledger_source evs api name k : ledgerOf evs !! (api, name) = Some k ->
  k ∈ omap brings evs /\ ck_ArtifactUUID k = api /\ ck_Name k = name.
Proof.
  unfold ledgerOf. induction evs as [|ev evs IH] using rev_ind; [done|].
  rewrite foldl_app, omap_app, elem_of_app. cbn [foldl].
  assert (foldl ledgerOf1 ∅ evs !! (api, name) = Some k -> k ∈ omap brings evs /\ ck_ArtifactUUID k = api /\ ck_Name k = name) as IH' by exact IH.
  destruct ev as [k'|k'|a n|a|]; cbn [ledgerOf1 brings omap list_omap].
  1,2: rewrite lookup_insert; case_decide as Hd; [intros [= <-]; injection Hd as <- <-; split_and!; [right; by left|done..]|naive_solver].
  - rewrite lookup_delete_Some. naive_solver.
  - rewrite map_lookup_filter_Some. naive_solver.
  - naive_solver.
Qed.

(** ** The store represents the ledger *)

Lemma keyStoreKey_inj api name api' name' : plain api -> plain api' ->
  KeyStore_GetCompositeKey api name = KeyStore_GetCompositeKey api' name' -> api = api' /\ name = name'.
Proof.
  unfold KeyStore_GetCompositeKey, plain. revert api'.
  induction api as [|c api IH]; intros [|c' api']; cbn [String_contains_byte]; autorewrite with go.
  - by intros _ _ [= ->].
  - intros _ Hb [= <- _]. done.
  - intros Ha _ [= -> _]. done.
  - intros Ha Hb [= E1 E2]. autorewrite with go in IH. apply orb_false_iff in Ha as [_ Ha], Hb as [_ Hb]. destruct (IH api' Ha Hb E2) as [-> ->]. by rewrite E1.
Qed.

(** Both maps have exactly the keys of the ledger. *)
Record represents (s : APIKeyStore) (L : Ledger) : Prop := {
  rep_names c k : ks_apiKeys s !! c = Some k <->
    c = KeyStore_GetCompositeKey (ck_ArtifactUUID k) (ck_Name k) /\ L !! (ck_ArtifactUUID k, ck_Name k) = Some k;
  rep_ids api id k : nlookup (ks_apiKeysByAPI s) api id = Some k <->
    api = ck_ArtifactUUID k /\ id = ck_UUID k /\ L !! (api, ck_Name k) = Some k
}.

(** What the ledger has to satisfy. *)
Definition sound (L : Ledger) : Prop := forall api name k, L !! (api, name) = Some k ->
  ck_ArtifactUUID k = api /\ ck_Name k = name /\ ck_UUID k <> "" /\ plain api.

Lemma nlookup_default {A} (m : nmap A) a b : default ∅ (m !! a) !! b = nlookup m a b.
Proof. unfold nlookup. by destruct (m !! a). Qed.

Section Store.
Context `{MapRange}.

Lemma represents_new : represents NewAPIKeyStore ∅.
Proof. split; intros; cbn; rewrite ?nlookup_empty, !lookup_empty; naive_solver. Qed.

(** The identifier found for a name. *)
Lemma existing_id s L api name : represents s L -> sound L ->
  match L !! (api, name) with
  | Some k => existingKeyIDOf (default ∅ (ks_apiKeysByAPI s !! api)) name = ck_UUID k /\ ck_UUID k <> ""
  | None => existingKeyIDOf (default ∅ (ks_apiKeysByAPI s !! api)) name = ""
  end.
Proof.
  intros Hr HL. unfold existingKeyIDOf. pose proof (find_by_name (default ∅ (ks_apiKeysByAPI s !! api)) name) as Hf.
  destruct (List.find _ _) as [[id k]|].
  - destruct Hf as [Hk <-]. rewrite nlookup_default, (rep_ids _ _ Hr) in Hk. destruct Hk as (_ & -> & Hk). rewrite Hk. split; [done|]. by apply (HL _ _ _ Hk).
  - destruct (L !! (api, name)) as [k|] eqn:E; [|done]. destruct (HL _ _ _ E) as (<- & <- & _).
    exfalso. apply (Hf (ck_UUID k) k); [|done]. by rewrite nlookup_default, (rep_ids _ _ Hr).
Qed.

Lemma represents_store s L k : represents s L -> sound L -> ck_UUID k <> "" -> plain (ck_ArtifactUUID k) ->
  (forall n k', L !! (ck_ArtifactUUID k, n) = Some k' -> ck_UUID k' = ck_UUID k -> n = ck_Name k) ->
  represents (KeyStore_Store k s) (<[(ck_ArtifactUUID k, ck_Name k) := k]> L).
Proof.
  intros Hr HL Hid Hp Hu. split.
  - intros c k'. assert (ks_apiKeys (KeyStore_Store k s) =
      <[KeyStore_GetCompositeKey (ck_ArtifactUUID k) (ck_Name k) := k]> (ks_apiKeys s)) as ->.
    { unfold KeyStore_Store. destruct (negb _); cbn; [|done]. by rewrite insert_delete_eq. }
    rewrite !lookup_insert. destruct (decide (_ = c)) as [<-|Hc].
    + case_decide as Hk; [injection Hk as <- <-; split; [by intros [= <-]|by intros [_ [= <-]]]|].
      split; [by intros [= <-]|]. intros [Hc HLk]. destruct (HL _ _ _ HLk) as (_ & _ & _ & Hp').
      destruct (keyStoreKey_inj _ _ _ _ Hp Hp' Hc). congruence.
    + rewrite (rep_names _ _ Hr). case_decide as Hk; [|done]. injection Hk as <- <-. split; intros [-> _]; done.
  - intros api id k'. pose proof (existing_id s L (ck_ArtifactUUID k) (ck_Name k) Hr HL) as He.
    assert (nlookup (ks_apiKeysByAPI (KeyStore_Store k s)) api id =
      if decide (ck_ArtifactUUID k = api /\ ck_UUID k = id) then Some k
      else if decide (ck_ArtifactUUID k = api /\ ck_UUID <$> L !! (ck_ArtifactUUID k, ck_Name k) = Some id) then None
      else nlookup (ks_apiKeysByAPI s) api id) as ->.
    { unfold KeyStore_Store. destruct (L !! _) as [k0|] eqn:E.
      - destruct He as [-> Hne]. rewrite (proj2 (String.eqb_neq _ _) Hne). cbn. rewrite nlookup_insert, lookup_insert, lookup_delete, nlookup_default.
        repeat case_decide; naive_solver.
      - rewrite He. cbn. rewrite nlookup_ninsert. repeat case_decide; naive_solver. }
    rewrite lookup_insert. case_decide as H1; [destruct H1 as [<- <-]|].
    { split; [intros [= <-]; by rewrite decide_True|]. intros (Ha & Hi & HLk). case_decide as Hk; [done|].
      apply Hu in HLk; [congruence|done]. }
    case_decide as H2; [destruct H2 as [<- (k0 & Hk0 & Hi)%fmap_Some]|].
    { split; [done|]. intros (Ha & -> & HLk). case_decide as Hk; [naive_solver|]. exfalso.
      destruct (HL _ _ _ Hk0) as (Ha0 & Hn0 & _). rewrite <- Hn0 in Hk0. assert (k' = k0) as ->; [|congruence].
      apply (inj Some). rewrite <- (proj2 (rep_ids _ _ Hr (ck_ArtifactUUID k) (ck_UUID k') k') (conj Ha (conj eq_refl HLk))).
      by apply (rep_ids _ _ Hr). }
    rewrite (rep_ids _ _ Hr). case_decide as Hk; [|done]. injection Hk as <- Hn. split; intros (Ha & -> & HLk); [|naive_solver].
    exfalso. apply H2. by rewrite Hn, HLk.
Qed.

Lemma sound_store L k : sound L -> ck_UUID k <> "" -> plain (ck_ArtifactUUID k) -> sound (<[(ck_ArtifactUUID k, ck_Name k) := k]> L).
Proof. intros HL Hid Hp api name k'. rewrite lookup_insert. case_decide as Hk; [|apply HL]. injection Hk as <- <-. by intros [= <-]. Qed.

Lemma represents_revoke s L api name : represents s L -> sound L -> plain api ->
  represents (KeyStore_Revoke api name s).1 (delete (api, name) L).
Proof.
  intros Hr HL Hp. unfold KeyStore_Revoke.
  assert (ks_apiKeys s !! KeyStore_GetCompositeKey api name = L !! (api, name)) as ->.
  { apply option_eq. intros k. rewrite (rep_names _ _ Hr). split.
    - intros [Hc HLk]. destruct (HL _ _ _ HLk) as (_ & _ & _ & Hp'). by destruct (keyStoreKey_inj _ _ _ _ Hp Hp' Hc) as [-> ->].
    - intros HLk. by destruct (HL _ _ _ HLk) as (-> & -> & _). }
  destruct (L !! (api, name)) as [k|] eqn:E; [|by rewrite delete_id by done].
  destruct (HL _ _ _ E) as (<- & <- & _). cbn [fst]. split.
  - intros c k'. cbn. rewrite !lookup_delete_Some, (rep_names _ _ Hr). split.
    + intros (Hc & -> & HLk). split_and!; [done| |done]. congruence.
    + intros (-> & Hk & HLk). split_and!; [|done..]. intros Hc. destruct (HL _ _ _ HLk) as (_ & _ & _ & Hp').
      destruct (keyStoreKey_inj _ _ _ _ Hp Hp' Hc). congruence.
  - intros a id k'. cbn. rewrite nlookup_ndelete, lookup_delete_Some. case_decide as Hd.
    + destruct Hd as [<- <-]. split; [done|]. intros (Ha & Hi & Hk & HLk). exfalso. apply Hk. f_equal.
      assert (k = k') as ->; [|done]. apply (inj Some). symmetry.
      rewrite <- (proj2 (rep_ids _ _ Hr (ck_ArtifactUUID k) (ck_UUID k) k') (conj Ha (conj Hi HLk))). by apply (rep_ids _ _ Hr).
    + rewrite (rep_ids _ _ Hr). split; [|naive_solver]. intros (-> & -> & HLk). split_and!; [done..| |done]. intros [= Ha Hn].
      apply Hd. rewrite <- Ha, <- Hn in HLk. rewrite E in HLk. by injection HLk as <-.
Qed.

Lemma sound_delete L i : sound L -> sound (delete i L).
Proof. intros HL api name k [_ Hk]%lookup_delete_Some. by apply HL. Qed.
Lemma sound_filter L (P : string * string * ControllerAPIKey -> Prop) `{forall x, Decision (P x)} : sound L -> sound (filter P L).
Proof. intros HL api name k [Hk _]%map_lookup_filter_Some. by apply HL. Qed.

Lemma foldl_delete_lookup {A} (f : A -> string) (l : list A) (m : gmap string ControllerAPIKey) c :
  foldl (fun m x => delete (f x) m) m l !! c = if decide (c ∈ f <$> l) then None else m !! c.
Proof.
  revert m. induction l as [|x l IH]; intros m; [done|]. cbn [foldl fmap list_fmap]. rewrite IH, lookup_delete.
  repeat case_decide; set_solver.
Qed.

Lemma represents_remove s L api : represents s L -> sound L ->
  represents (KeyStore_RemoveByAPI api s).1 (filter (fun kv => kv.1.1 <> api) L).
Proof.
  intros Hr HL. unfold KeyStore_RemoveByAPI. cbn [fst]. split.
  - intros c k. cbn [ks_apiKeys].
    rewrite (foldl_delete_lookup (fun kv : string * ControllerAPIKey => KeyStore_GetCompositeKey (ck_ArtifactUUID kv.2) (ck_Name kv.2))).
    rewrite map_lookup_filter_Some. cbn [fst]. case_decide as Hin.
    + apply list_elem_of_fmap in Hin as ([id k'] & -> & Hk'%elem_of_range). rewrite nlookup_default, (rep_ids _ _ Hr) in Hk'.
      destruct Hk' as (-> & -> & HLk'). split; [done|]. intros (Hc & HLk & Hne). exfalso. apply Hne.
      destruct (HL _ _ _ HLk') as (_ & _ & _ & Hp'), (HL _ _ _ HLk) as (_ & _ & _ & Hp). by destruct (keyStoreKey_inj _ _ _ _ Hp' Hp Hc).
    + rewrite (rep_names _ _ Hr). split; [|naive_solver]. intros [-> HLk]. split_and!; [done..|]. intros <-. apply Hin.
      apply list_elem_of_fmap. exists (ck_UUID k, k). split; [done|]. apply elem_of_range. by rewrite nlookup_default, (rep_ids _ _ Hr).
  - intros a id k. cbn [ks_apiKeysByAPI]. rewrite nlookup_delete, map_lookup_filter_Some. cbn [fst].
    case_decide; [naive_solver|]. rewrite (rep_ids _ _ Hr). naive_solver.
Qed.

End Store.

(** ** The manager *)

Section Manager.
Context `{MapRange} `{SnapshotWire} `{TimeJSON}.

(** An event at the manager; loading at start publishes nothing. *)
Definition runKeyEvent (sm : APIKeySnapshotManager) (ev : KeyEvent) : APIKeySnapshotManager * option string :=
  match ev with
  | KLoad k => (set_keyStore sm (KeyStore_Store k (akm_store sm)), None)
  | KIssue k => KeyManager_StoreAPIKey k sm
  | KWithdraw api name => KeyManager_RevokeAPIKey api name sm
  | KDrop api => KeyManager_RemoveAPIKeysByAPI api sm
  | KRefresh => KeyManager_RefreshSnapshot sm
  end.

Definition NewKeyManager : APIKeySnapshotManager := mkAPIKeySnapshotManager [] NewAPIKeyStore.
Definition runKeyEvents (evs : list KeyEvent) : APIKeySnapshotManager := foldl (fun sm ev => (runKeyEvent sm ev).1) NewKeyManager evs.

(** Publishing changes the version of the store only. *)
Lemma represents_update sm L : represents (akm_store sm) L -> represents (akm_store (KeySnapshot_UpdateSnapshot sm).1) L.
Proof. unfold KeySnapshot_UpdateSnapshot. destruct (TranslateAPIKeys _); [done|]. intros [Hn Hi]. by split. Qed.

Lemma update_publishes sm L sm' : represents (akm_store sm) L -> KeySnapshot_UpdateSnapshot sm = (sm', None) ->
  exists keys res, TranslateAPIKeys keys = inr res /\ last (akm_cache sm') = Some (SetResources {["apikey-state-0" := res]}) /\
    NoDup keys /\ forall k, k ∈ keys <-> L !! (ck_ArtifactUUID k, ck_Name k) = Some k.
Proof.
  unfold KeySnapshot_UpdateSnapshot. intros Hr. destruct (TranslateAPIKeys _) as [|res] eqn:E; [done|]. intros [= <-].
  exists (KeyStore_GetAll (akm_store sm)), res. split_and!; [done|cbn [akm_cache]; by rewrite last_snoc| |].
  - apply NoDup_fmap_2_strong; [|rewrite range_perm; apply NoDup_map_to_list].
    intros [c k] [c' k'] Hk%elem_of_range Hk'%elem_of_range. simpl. intros <-.
    apply (rep_names _ _ Hr) in Hk as [-> _], Hk' as [-> _]. done.
  - intros k. unfold KeyStore_GetAll. rewrite list_elem_of_fmap. split.
    + intros ([c k'] & -> & Hk%elem_of_range). by apply (rep_names _ _ Hr) in Hk as [_ ?].
    + intros Hk. eexists (_, k). split; [done|]. apply elem_of_range, (rep_names _ _ Hr). done.
Qed.

(** What an event does to the store, before it is published. *)
Definition applyEvent (ev : KeyEvent) (s : APIKeyStore) : APIKeyStore :=
  match ev with
  | KLoad k | KIssue k => KeyStore_Store k s
  | KWithdraw api name => (KeyStore_Revoke api name s).1
  | KDrop api => (KeyStore_RemoveByAPI api s).1
  | KRefresh => s
  end.

Definition publishes (ev : KeyEvent) : Prop := match ev with KLoad _ => False | _ => True end.

Lemma runKeyEvent_update sm ev : publishes ev ->
  exists msg, runKeyEvent sm ev = wrapping msg (KeySnapshot_UpdateSnapshot (set_keyStore sm (applyEvent ev (akm_store sm)))).
Proof. destruct ev, sm; cbn; try done; eexists; reflexivity. Qed.

Lemma runKeyEvent_represents sm L ev : represents (akm_store sm) L -> sound L ->
  (forall k, brings ev = Some k -> ck_UUID k <> "" /\ plain (ck_ArtifactUUID k) /\
     forall n k', L !! (ck_ArtifactUUID k, n) = Some k' -> ck_UUID k' = ck_UUID k -> n = ck_Name k) ->
  (forall api name, ev = KWithdraw api name -> plain api) ->
  represents (applyEvent ev (akm_store sm)) (ledgerOf1 L ev) /\ represents (akm_store (runKeyEvent sm ev).1) (ledgerOf1 L ev) /\
  sound (ledgerOf1 L ev).
Proof.
  intros Hr HL Hb Hw.
  assert (represents (applyEvent ev (akm_store sm)) (ledgerOf1 L ev) /\ sound (ledgerOf1 L ev)) as [Ha Hs].
  { destruct ev as [k|k|api name|api|]; cbn [ledgerOf1 applyEvent].
    1,2: destruct (Hb k eq_refl) as (Hid & Hp & Hu); split; [by apply represents_store|by apply sound_store].
    - split; [eapply represents_revoke; eauto|by apply sound_delete].
    - split; [by apply represents_remove|by apply sound_filter].
    - done. }
  split_and!; [done| |done]. assert (publishes ev \/ exists k, ev = KLoad k) as [Hp|[k ->]] by (destruct ev; cbn; eauto); [|exact Ha].
  destruct (runKeyEvent_update sm ev Hp) as [msg ->]. by apply represents_update.
Qed.

(** The load at start is a sequence of events. *)
Lemma load_is_events keys cs s cs' s' : LoadAPIKeysFromDatabase (inr keys) (cs, s) = Ok (cs', s') tt ->
  s' = foldl (fun s ev => applyEvent ev s) s (KLoad <$> omap id keys).
Proof.
  unfold LoadAPIKeysFromDatabase, lift_err, mbind, GoM_bind, mret, GoM_ret. cbn [orErr]. generalize 0%nat as i.
  revert cs s. induction keys as [|o keys IH]; intros cs s i; cbn [for_range]; [by intros [= _ <-]|].
  unfold mbind, GoM_bind, loadKey. cbn [fst snd]. destruct (ConfigStore_StoreAPIKey o cs) as [cs1 []|cs1 e|], o as [k|]; try done.
  cbn. apply IH.
Qed.

Lemma wellIdentified_app evs evs' : wellIdentified (evs ++ evs') -> wellIdentified evs.
Proof.
  unfold wellIdentified. setoid_rewrite omap_app. setoid_rewrite elem_of_app. naive_solver.
Qed.

Lemma wellIdentified_next evs ev : wellIdentified (evs ++ [ev]) ->
  (forall k, brings ev = Some k -> ck_UUID k <> "" /\ plain (ck_ArtifactUUID k) /\
     forall n k', ledgerOf evs !! (ck_ArtifactUUID k, n) = Some k' -> ck_UUID k' = ck_UUID k -> n = ck_Name k) /\
  (forall api name, ev = KWithdraw api name -> plain api).
Proof.
  intros (H3 & H4 & H5). split; [|intros api name ->; apply (H4 api name); set_solver].
  intros k Hk. assert (k ∈ omap brings (evs ++ [ev])%list) as Hin. { rewrite omap_app, elem_of_app. right. cbn. rewrite Hk. by left. }
  destruct (H3 k Hin). split_and!; [done..|]. intros n k' (Hin' & Ha & <-)%ledger_source Hu.
  apply H5; [|done..]. rewrite omap_app, elem_of_app. by left.
Qed.

Lemma runKeyEvents_represents evs : wellIdentified evs -> represents (akm_store (runKeyEvents evs)) (ledgerOf evs) /\ sound (ledgerOf evs).
Proof.
  unfold runKeyEvents, ledgerOf. induction evs as [|ev evs IH] using rev_ind; [split; [apply represents_new|by intros ? ? ?]|].
  intros Hw. destruct (IH (wellIdentified_app _ _ Hw)) as [Hr HL]. destruct (wellIdentified_next _ _ Hw). rewrite !foldl_app.
  destruct (runKeyEvent_represents _ _ ev Hr HL) as (_ & ? & ?); done.
Qed.

End Manager.

(** ** The wire

    [json.Unmarshal] into the engine's [APIKeyStateResource]. *)

Section Wire.
Context `{TimeJSON}.

Definition decodeKey (v : Value) : option APIKeyData :=
  match v with
  | VMap o =>
      m ← onlyTags ["id"; "name"; "apiKey"; "apiId"; "applicationId"; "applicationName"; "operations"; "status"; "createdAt"; "createdBy";
                    "updatedAt"; "expiresAt"; "source"; "issuer"; "allowedTargets"] o;
      id ← jsonString m "id"; name ← jsonString m "name"; apiKey ← jsonString m "apiKey"; apiId ← jsonString m "apiId";
      appId ← jsonString m "applicationId"; appName ← jsonString m "applicationName"; operations ← jsonString m "operations";
      status ← jsonString m "status"; createdAt ← jsonTime m "createdAt"; createdBy ← jsonString m "createdBy";
      updatedAt ← jsonTime m "updatedAt"; expiresAt ← jsonTimePtr m "expiresAt"; source ← jsonString m "source";
      issuer ← jsonStringPtr m "issuer"; targets ← jsonString m "allowedTargets";
      Some (mkAPIKeyData id name apiKey apiId appId appName operations status createdAt createdBy updatedAt expiresAt source issuer targets)
  | _ => None
  end.

Definition decodeKeyState (o : list (string * Value)) : option (list APIKeyData) :=
  m ← onlyTags ["apiKeys"; "version"; "timestamp"] o;
  version ← jsonInt m "version"; timestamp ← jsonInt m "timestamp"; jsonList decodeKey m "apiKeys".

Lemma decodeKey_respects : respects eq decodeKey.
Proof.
  intros v v' d Hv. destruct v as [| | | | | |o| |]; try done. destruct (same_object_inv _ _ Hv) as [o' ->]. unfold decodeKey.
  intros Hd. read_members. eauto.
Qed.

Lemma decodeKeyState_same o o' ks : same (VMap o) (VMap o') -> decodeKeyState o = Some ks -> decodeKeyState o' = Some ks.
Proof.
  intros Hs. unfold decodeKeyState. intros Hd. read_members.
  destruct (same_jsonList eq decodeKey _ _ _ _ decodeKey_respects Hs Hd) as (l & -> & Hl%list_eq_Forall2). by rewrite Hl.
Qed.

End Wire.

(** What the code relies on: the time of the JSON is the time written, and
    the JSON of a struct's map is the object it was made from, up to the order
    of members. *)
Class StateWireLaws `{SnapshotWireLaws} `{TimeJSON} : Prop := {
  time_round t s : time_format t = Some s -> time_parse s = Some t;
  state_json m s : is_json (VMap m) = true -> NoDup m.*1 -> newStruct m = inr s ->
    exists b m', marshalAsMap s = inr b /\ same (VMap m) (VMap m') /\ (forall ks, decodeKeyState m' = Some ks -> jsonAPIKeyState b = inr ks)
}.

(** The key as the engine should have it. *)
Definition engineKeyData (k : ControllerAPIKey) : APIKeyData :=
  mkAPIKeyData (ck_UUID k) (ck_Name k) (ck_APIKey k) (ck_ArtifactUUID k) (ck_ApplicationID k) (ck_ApplicationName k) "*" (ck_Status k)
    (ck_CreatedAt k) (ck_CreatedBy k) (ck_UpdatedAt k) (ck_ExpiresAt k) (ck_Source k) (ck_Issuer k) "".

Abbreviation engineKey k := (normalKey (keyOfData (engineKeyData k))).
Abbreviation digest k := (TrimSpace (ck_APIKey k)).

Section Delivery.
Context `{MapRange} `{StateWireLaws}.

Lemma apiKeyJSON_decoded k v : apiKeyJSON k = Some v -> is_json v = true /\ decodeKey v = Some (engineKeyData k).
Proof.
  unfold apiKeyJSON. intros (c & Hc%time_round & (u & Hu%time_round & (e & He & [= <-])%bind_Some)%bind_Some)%bind_Some.
  assert ((e = VNil /\ ck_ExpiresAt k = None) \/ exists s t, e = VString s /\ time_parse s = Some t /\ ck_ExpiresAt k = Some t) as Hx.
  { destruct (ck_ExpiresAt k) as [t|]; [|injection He as <-; by left]. apply fmap_Some in He as (s & Hs%time_round & ->). right. eauto. }
  destruct k as [id name key masked art appId appName st ca cb ua ex src ref iss]. cbn [ck_ExpiresAt ck_CreatedAt ck_UpdatedAt ck_ApplicationID ck_ApplicationName ck_Issuer] in *.
  split; [unfold omitEmpty, omitNil; destruct Hx as [[-> ->]|(s & t & -> & _ & ->)], (String.eqb appId ""), (String.eqb appName ""), iss; done|].
  transitivity (ca ← time_parse c; ua ← time_parse u; ex ← match e with VString s => Some <$> time_parse s | _ => Some None end;
    Some (mkAPIKeyData id name key art appId appName "*" st ca cb ua ex src iss "")).
  - unfold omitEmpty, omitNil. destruct (String.eqb_spec appId "") as [->|_], (String.eqb_spec appName "") as [->|_], iss as [i|],
      Hx as [[-> ->]|(s & t & -> & _ & ->)]; reflexivity.
  - rewrite Hc, Hu. by destruct Hx as [[-> ->]|(s & t & -> & -> & ->)].
Qed.

Lemma apiKeys_decoded keys vs : mapM apiKeyJSON keys = Some vs ->
  forallb is_json vs = true /\ mapM decodeKey vs = Some (engineKeyData <$> keys).
Proof.
  revert vs. induction keys as [|k keys IH]; intros vs; simpl; [by intros [= <-]|].
  intros (v & [Hj Hv]%apiKeyJSON_decoded & (vs' & Hvs & [= <-])%bind_Some)%bind_Some. destruct (IH _ Hvs) as [Hj' Hd]. cbn.
  by rewrite Hj, Hj', Hv, Hd.
Qed.

(** The resource as it arrives. *)
Definition arrivedState (res : AnyResource) : AnyResource := mkAny APIKeyStateTypeURL (marshalAny res).

Lemma state_delivered keys res : TranslateAPIKeys keys = inr res ->
  DecodeAPIKeyStateResource (arrivedState res) = inr (engineKeyData <$> keys).
Proof.
  unfold TranslateAPIKeys. intros Hres%orErr_inr. destruct (mapM apiKeyJSON keys) as [vs|] eqn:Ek; [|done].
  destruct (apiKeys_decoded _ _ Ek) as [Hj Hd]. unfold structResource in Hres.
  apply sum_bind_inr in Hres as (st & Hst%orErr_inr & (a & Ha%orErr_inr & [= <-])%sum_bind_inr).
  destruct (state_json (stateObject "apiKeys" vs) st) as (b & m' & Hb & Hs & Hk); [cbn; by rewrite Hj| |done|].
  { refine (bool_decide_unpack _ _). by vm_compute. }
  unfold DecodeAPIKeyStateResource, arrivedState. cbn [any_Value]. rewrite unmarshal_marshal_any. cbn.
  rewrite (struct_encoding _ _ _ Hst Ha). cbn. rewrite Hb. cbn. rewrite (Hk (engineKeyData <$> keys)); [done|].
  apply (decodeKeyState_same _ _ _ Hs). transitivity (mapM decodeKey vs); [done|exact Hd].
Qed.

(** *** The engine's table of a snapshot *)


(** Digests are not blank, and an API has no digest twice. *)
Definition usable (keys : list ControllerAPIKey) : Prop :=
  (forall k, k ∈ keys -> digest k <> "") /\
  (forall k k', k ∈ keys -> k' ∈ keys -> ck_ArtifactUUID k = ck_ArtifactUUID k' -> digest k = digest k' -> ck_Name k = ck_Name k').

Lemma usable_mono keys keys' : (forall k, k ∈ keys -> k ∈ keys') -> usable keys' -> usable keys.
Proof. unfold usable. naive_solver. Qed.

Lemma ledger_value (L : Ledger) i k : L !! i = Some k -> k ∈ (map_to_list L).*2.
Proof. intros Hk. apply list_elem_of_fmap. exists (i, k). split; [done|]. by apply elem_of_map_to_list. Qed.

Lemma fmap_split {A B} (f : A -> B) l pre d post : f <$> l = (pre ++ d :: post)%list ->
  exists lpre x lpost, l = (lpre ++ x :: lpost)%list /\ pre = f <$> lpre /\ d = f x /\ post = f <$> lpost.
Proof. intros (lpre & l2 & -> & Hl & ->)%fmap_app_inv. symmetry in Hl. apply fmap_cons_inv in Hl as (x & lpost & -> & -> & ->). eauto 10. Qed.

Abbreviation opOf := (fun k => KOStore (ck_ArtifactUUID k) (keyOfData (engineKeyData k))).

Lemma storeOps_engine keys : storeOps (engineKeyData <$> keys) = opOf <$> keys.
Proof. unfold storeOps. by rewrite <- list_fmap_compose. Qed.

Lemma usable_accepted keys : usable keys -> allAccepted (engineKeyData <$> keys).
Proof.
  intros [Hb Hd] pre d post (kpre & k & kpost & -> & -> & -> & ->)%fmap_split. rewrite storeOps_engine. unfold tableStore.
  change (ak_APIKey (engineKey k)) with (digest k). rewrite (proj2 (String.eqb_neq _ _) (Hb k ltac:(set_solver))).
  destruct (othersOf _ _ _ !! _) as [k1|] eqn:E; [exfalso|done]. rewrite lookup_othersOf in E.
  apply bind_Some in E as (k2 & Hk2 & Hn). case_decide as Hne; [done|]. apply Hne.
  apply tableOps_lookup in Hk2 as (pre & k0 & post & Hs & -> & Hh & _).
  apply fmap_split in Hs as (l1 & kc & l2 & -> & _ & [= Ha ->] & _). cbn in Hh. symmetry. apply Hd; set_solver.
Qed.

Lemma snapshot_table keys api h a : usable keys -> NoDup keys ->
  (forall k k', k ∈ keys -> k' ∈ keys -> ck_ArtifactUUID k = ck_ArtifactUUID k' -> ck_Name k = ck_Name k' -> k = k') ->
  nlookup (tableOps (storeOps (engineKeyData <$> keys)) ∅) api h = Some a <->
    exists k, k ∈ keys /\ ck_ArtifactUUID k = api /\ h = digest k /\ a = engineKey k.
Proof.
  intros Hu Hnd Hn. rewrite storeOps_engine, tableOps_lookup. split.
  - intros (pre & k0 & post & Hs & -> & -> & _). apply fmap_split in Hs as (l1 & kc & l2 & -> & _ & [= -> ->] & _).
    exists kc. split_and!; [set_solver|done..].
  - intros (k & Hk & <- & -> & ->). apply list_elem_of_split in Hk as (l1 & l2 & ->).
    exists (opOf <$> l1), (keyOfData (engineKeyData k)), (opOf <$> l2). rewrite fmap_app, fmap_cons. split_and!; [done..| |].
    + apply usable_accepted in Hu. specialize (Hu (engineKeyData <$> l1) (engineKeyData k) (engineKeyData <$> l2)).
      rewrite fmap_app, fmap_cons, storeOps_engine in Hu. by apply Hu.
    + apply Forall_fmap, Forall_forall. intros k' Hk'. cbn.
      destruct (decide (ck_ArtifactUUID k' = ck_ArtifactUUID k)) as [Ha|]; [right; left|by left]. intros E.
      assert (k' = k) as -> by (apply Hn; set_solver). apply NoDup_app in Hnd as (_ & _ & Hnd). apply NoDup_cons in Hnd as [Hnd _]. done.
Qed.

(** C18: an issued API key is accepted where the controller says so.  Keys
    are loaded, issued, rotated and withdrawn at the controller in any order,
    and the last event published a snapshot without an error.  Whatever the
    engine had before, it applies that snapshot, and then accepts a
    presented key for an API exactly if the controller's ledger has, under
    some name of that API, a key with the digest of the presented one that is
    active, not expired and of the wanted issuer; the key it answers with is
    the controller's, field by field, except that its targets are empty.
    Identifiers of keys must belong to one name, identifiers of APIs have
    no colon, and an API has no digest twice. *)
Theorem issued_keys_are_accepted evs ev sm' ops :
  let L := ledgerOf (evs ++ [ev]) in
  wellIdentified (evs ++ [ev]) -> publishes ev -> runKeyEvent (runKeyEvents evs) ev = (sm', None) -> usable (map_to_list L).*2 ->
  exists res s', last (akm_cache sm') = Some (SetResources {["apikey-state-0" := res]}) /\
    HandleAPIKeyOperation {["apikey-state-0" := arrivedState res]} (runKeyOps ops NewAPIkeyStore) = Ok s' tt /\
    forall now api op meth plainKey issuer k,
      ResolveValidatedAPIKey now api op meth plainKey issuer s' = inr (Some k) <->
        exists name ck, L !! (api, name) = Some ck /\ k = engineKey ck /\
          TrimSpace plainKey <> "" /\ digest ck = sha256_hex (TrimSpace plainKey) /\ accepts now api issuer k.
Proof.
  intros L Hw Hp Hrun Hu. destruct (runKeyEvents_represents evs (wellIdentified_app _ _ Hw)) as [Hr HL].
  destruct (wellIdentified_next _ _ Hw) as [Hb Hpl]. destruct (runKeyEvent_represents _ _ ev Hr HL Hb Hpl) as (Hr' & _ & HL').
  assert (ledgerOf1 (ledgerOf evs) ev = L) as EL by (unfold L, ledgerOf; by rewrite foldl_app). rewrite EL in Hr', HL'.
  destruct (runKeyEvent_update (runKeyEvents evs) ev Hp) as [msg E]. rewrite E in Hrun. unfold wrapping in Hrun.
  destruct (KeySnapshot_UpdateSnapshot _) as [sm1 e] eqn:Eu. injection Hrun as <- He%fmap_None. cbn in He. subst e.
  destruct (update_publishes (set_keyStore _ _) L sm1 Hr' Eu) as (keys & res & Ht & Hlast & Hnd & Hkeys).
  assert (usable keys) as Huk. { apply (usable_mono _ (map_to_list L).*2); [|done]. intros k Hk%Hkeys. eapply ledger_value, Hk. }
  pose proof (key_snapshot_replaces_table ops _ "apikey-state-0" (arrivedState res) eq_refl (state_delivered keys res Ht)) as Hh.
  destruct (HandleAPIKeyOperation _ _) as [s' []| |] eqn:Eh; try done. exists res, s'. split_and!; [done..|].
  assert (keyTable s' = tableOps (storeOps (engineKeyData <$> keys)) ∅) as Htab.
  { destruct Hh as [[? _]|(pre & d & post & err & Hk & Hs)]; [done|]. pose proof (usable_accepted _ Huk _ _ _ Hk) as Hn. by rewrite Hs in Hn. }
  intros now api op meth plainKey issuer k. rewrite resolve_accepts, Htab, snapshot_table; [|done..|].
  - split.
    + intros (Hne & (ck & Hin%Hkeys & <- & Hh' & ->) & Ha). exists (ck_Name ck), ck. by split_and!.
    + intros (name & ck & HLk & -> & Hne & Hdig & Ha). destruct (HL' _ _ _ HLk) as (<- & <- & _). split_and!; [done| |done].
      exists ck. split_and!; [by apply Hkeys|done..].
  - intros k1 k2 Hk1%Hkeys Hk2%Hkeys Ha Hn. rewrite Ha, Hn in Hk1. congruence.
Qed.

End Delivery.

(** ** The entries of a subscription snapshot *)

Section SubscriptionEntries.
Context `{MapRange}.

Lemma subsByAPI_lookup subs api : subsByAPI subs !! api =
  match filter (fun s => sub_APIID s = api) (omap id subs) with [] => None | l => Some l end.
Proof.
  unfold subsByAPI. induction subs as [|o subs IH] using rev_ind; [done|]. rewrite foldl_app, omap_app. cbn [foldl].
  destruct o as [s|]; cbn [omap list_omap id]; [|by rewrite app_nil_r]. rewrite filter_app, lookup_insert, filter_cons, filter_nil.
  destruct (decide (sub_APIID s = api)) as [Ha|]; [|by rewrite app_nil_r]. rewrite Ha, IH.
  by destruct (filter _ (omap id subs)).
Qed.

(** The subscriptions that belong to a REST API of the gateway. *)
Definition served (configs : list (option StoredConfig)) (subs : list (option Subscription)) (s : Subscription) : Prop :=
  Some s ∈ subs /\ exists c, Some c ∈ configs /\ sc_Kind c = "RestApi" /\ sc_UUID c = sub_APIID s.

Definition plansOf (plans : list (option SubscriptionPlan)) : gmap string SubscriptionPlan :=
  foldl (fun m p => match p with Some p => <[pl_ID p := p]> m | None => m end) ∅ plans.

Lemma restApi_ids (configs : list (option StoredConfig)) id :
  id ∈ foldl (fun (ids : gset string) c => match c with Some c => if String.eqb (sc_Kind c) "RestApi" then {[sc_UUID c]} ∪ ids else ids | None => ids end)
         ∅ configs <-> exists c, Some c ∈ configs /\ sc_Kind c = "RestApi" /\ sc_UUID c = id.
Proof.
  induction configs as [|o configs IH] using rev_ind; [set_solver|]. rewrite foldl_app. cbn [foldl]. setoid_rewrite elem_of_app.
  setoid_rewrite list_elem_of_singleton. destruct o as [c|]; [|rewrite IH; naive_solver].
  destruct (String.eqb_spec (sc_Kind c) "RestApi"); rewrite ?elem_of_union, ?elem_of_singleton, IH; naive_solver.
Qed.

Lemma collectEntries_spec planMap l :
  match collectEntries planMap l with
  | inr ds => Forall2 (fun s d => subscriptionData planMap s = inr d) l ds
  | inl e => exists s, s ∈ l /\ subscriptionData planMap s = inl e
  end.
Proof.
  induction l as [|s l IH]; cbn [collectEntries]; [constructor|]. destruct (subscriptionData planMap s) as [e|d] eqn:E; cbn [sum_bind].
  { exists s. set_solver. }
  destruct (collectEntries planMap l) as [e|ds]; cbn [sum_bind]; [destruct IH as (s' & ? & ?); exists s'; set_solver|by constructor].
Qed.

(** A subscription snapshot has an entry for exactly the active
    subscriptions of the REST APIs the gateway has, each with the limits of
    its plan; it is refused exactly if one of them names a plan that is not
    there, and then for all of them. *)
Theorem subscription_entries_are_exact configs plans subs :
  match snapshotEntries configs plans subs with
  | inr ds =>
      (forall s, served configs subs s -> exists d, subscriptionData (plansOf plans) s = inr d /\ d ∈ ds) /\
      (forall d, d ∈ ds -> exists s, served configs subs s /\ subscriptionData (plansOf plans) s = inr d)
  | inl e => exists s planID, served configs subs s /\ sub_SubscriptionPlanID s = Some planID /\ plansOf plans !! planID = None
  end.
Proof.
  unfold snapshotEntries. fold (plansOf plans). set (l := concat _).
  assert (forall s, s ∈ l <-> served configs subs s) as Hl.
  { intros s. unfold l, served. rewrite list_elem_of_In, in_concat. setoid_rewrite <- list_elem_of_In. split.
    - intros (ss & ([api ss'] & -> & Hr%elem_of_range)%list_elem_of_fmap & Hs). cbn [fst snd] in Hs. case_decide as Ha; [|by apply elem_of_nil in Hs].
      apply restApi_ids in Ha as (c & ? & ? & <-). rewrite subsByAPI_lookup in Hr. destruct (filter _ _) as [|s0 fs] eqn:Ef; [done|].
      injection Hr as <-. rewrite <- Ef in Hs. apply list_elem_of_filter in Hs as [Hapi (o & Ho & Hos)%list_elem_of_omap]. cbn in Hos. subst o. eauto.
    - intros [Hs (c & Hc & Hk & Hu)]. assert (s ∈ filter (fun s' => sub_APIID s' = sub_APIID s) (omap id subs)) as Hf.
      { apply list_elem_of_filter. split; [done|]. apply list_elem_of_omap. by exists (Some s). }
      exists (filter (fun s' => sub_APIID s' = sub_APIID s) (omap id subs)). split; [|done]. apply list_elem_of_fmap.
      exists (sub_APIID s, filter (fun s' => sub_APIID s' = sub_APIID s) (omap id subs)). cbn [fst snd]. split.
      + rewrite decide_True; [done|]. apply restApi_ids. eauto.
      + apply elem_of_range. rewrite subsByAPI_lookup. by destruct (filter _ _); [apply elem_of_nil in Hf|]. }
  pose proof (collectEntries_spec (plansOf plans) l) as Hc. destruct (collectEntries _ l) as [e|ds].
  - destruct Hc as (s & Hs%Hl & He). exists s. unfold subscriptionData in He. destruct (sub_SubscriptionPlanID s) as [p|]; [|done].
    exists p. destruct (plansOf plans !! p) eqn:E; done.
  - split.
    + intros s [i Hi]%Hl%list_elem_of_lookup_1. destruct (Forall2_lookup_l _ _ _ _ _ Hc Hi) as (d & Hd%list_elem_of_lookup_2 & He). eauto.
    + intros d [i Hi]%list_elem_of_lookup_1. destruct (Forall2_lookup_r _ _ _ _ _ Hc Hi) as (s & Hs%list_elem_of_lookup_2%Hl & He). eauto.
Qed.

End SubscriptionEntries.

(** ** A concrete wire and concrete keys *)

Module SampleKeys.

(** Times in binary. *)
Fixpoint posText (p : positive) : string :=
  match p with xH => "" | xO p => String "0" (posText p) | xI p => String "1" (posText p) end.
Fixpoint textPos (s : string) : positive :=
  match s with "" => xH | String c s => if Ascii.eqb c "0" then xO (textPos s) else xI (textPos s) end.

#[export] Instance times : TimeJSON := {|
  time_format t := Some (match t with Z0 => "" | Zpos p => String "+" (posText p) | Zneg p => String "-" (posText p) end);
  time_parse s := Some (match s with "" => Z0 | String c s => if Ascii.eqb c "+" then Zpos (textPos s) else Zneg (textPos s) end)
|}.

Lemma textPos_posText p : textPos (posText p) = p.
Proof. induction p; simpl; congruence. Qed.

#[export] Instance keyCodec : XdsCodec := SampleWire.codecOf decodeKeyState.
#[export] Instance keyWire : SnapshotWire := SampleWire.wireOf _.
#[export] Instance keyWireLaws : SnapshotWireLaws := SampleWire.lawsOf _.

#[export] Instance keyLaws : StateWireLaws.
Proof.
  split.
  - intros t s [= <-]. destruct t; [done|..]; cbn; by rewrite textPos_posText.
  - intros m s Hj _ [= <-]. exists (SampleWire.to_bytes (SampleWire.tree (VMap m))), m. split_and!; [done|constructor|].
    intros ks Hk. cbn [jsonAPIKeyState keyCodec SampleWire.codecOf]. rewrite SampleWire.of_to_bytes. cbn [sum_bind].
    unfold SampleWire.object_of. by rewrite (SampleWire.value_tree _ Hj), Hk.
Qed.

Definition keyOf (id name secret : string) (expires : option Z) : ControllerAPIKey :=
  mkControllerAPIKey id name (sha256_hex secret) "****" "orders" "" "" "active" 5 "admin" 6 expires "local" None None.

Definition evs : list KeyEvent :=
  [KLoad (keyOf "1" "blue" "one" None); KIssue (keyOf "2" "red" "two" None); KWithdraw "orders" "red"; KIssue (keyOf "3" "green" "three" (Some 9%Z))].
Definition ev : KeyEvent := KIssue (keyOf "4" "blue" "four" None).

End SampleKeys.

Import SampleKeys.
#[local] Existing Instance MapRange_list.

Definition sampleLedger : list ControllerAPIKey := [keyOf "4" "blue" "four" None; keyOf "3" "green" "three" (Some 9%Z)].

Lemma sample_wellIdentified : wellIdentified (evs ++ [ev])%list.
Proof.
  assert (omap brings (evs ++ [ev])%list =
    [keyOf "1" "blue" "one" None; keyOf "2" "red" "two" None; keyOf "3" "green" "three" (Some 9%Z); keyOf "4" "blue" "four" None]) as E by reflexivity.
  unfold wellIdentified. rewrite E. split_and!.
  - intros k Hk%list_elem_of_In. destruct Hk as [<-|[<-|[<-|[<-|[]]]]]; (split; [cbn; discriminate|reflexivity]).
  - intros api name Hk%list_elem_of_In. destruct Hk as [Hk|[Hk|[Hk|[Hk|[Hk|[]]]]]]; try discriminate Hk. injection Hk as <- <-. reflexivity.
  - intros k k' Hk%list_elem_of_In Hk'%list_elem_of_In.
    destruct Hk as [<-|[<-|[<-|[<-|[]]]]], Hk' as [<-|[<-|[<-|[<-|[]]]]]; cbn; intros _ Hu; first [discriminate Hu|reflexivity].
Qed.

Lemma sample_ledger : (map_to_list (ledgerOf (evs ++ [ev])%list)).*2 ≡ₚ sampleLedger.
Proof.
  assert ((map_to_list (ledgerOf (evs ++ [ev])%list)).*2 = sampleLedger \/ (map_to_list (ledgerOf (evs ++ [ev])%list)).*2 = reverse sampleLedger) as [->| ->].
  - first [left; vm_compute; reflexivity|right; vm_compute; reflexivity].
  - done.
  - by rewrite reverse_Permutation.
Qed.

Lemma sample_usable : usable sampleLedger.
Proof.
  split.
  - intros k Hk%list_elem_of_In. destruct Hk as [<-|[<-|[]]]; by vm_compute.
  - intros k k' Hk%list_elem_of_In Hk'%list_elem_of_In.
    destruct Hk as [<-|[<-|[]]], Hk' as [<-|[<-|[]]]; intros _ Hd; first [reflexivity|vm_compute in Hd; discriminate Hd].
Qed.

Lemma issued_keys_are_accepted_witness :
  exists sm' res s', last (akm_cache sm') = Some (SetResources {["apikey-state-0" := res]}) /\
    HandleAPIKeyOperation {["apikey-state-0" := arrivedState res]} (runKeyOps sampleOps NewAPIkeyStore) = Ok s' tt /\
    (exists k, ResolveValidatedAPIKey 8 "orders" "" "GET" " three" [] s' = inr (Some k)) /\
    (forall k, ResolveValidatedAPIKey 10 "orders" "" "GET" "three" [] s' <> inr (Some k)) /\
    (forall k, ResolveValidatedAPIKey 8 "orders" "" "GET" "one" [] s' <> inr (Some k)).
Proof.
  destruct (runKeyEvent (runKeyEvents evs) ev) as [sm' e] eqn:Erun.
  assert (e = None) as -> by (change e with (sm', e).2; rewrite <- Erun; reflexivity).
  destruct (issued_keys_are_accepted evs ev sm' sampleOps sample_wellIdentified I Erun) as (res & s' & Hlast & Hok & Hacc).
  { eapply usable_mono; [|exact sample_usable]. intros k. rewrite sample_ledger. exact (fun Hk => Hk). }
  exists sm', res, s'. split; [exact Hlast|]. split; [exact Hok|].
  assert (forall now plainKey k, ResolveValidatedAPIKey now "orders" "" "GET" plainKey [] s' = inr (Some k) -> exists ck, ck ∈ sampleLedger /\
    k = engineKey ck /\ digest ck = sha256_hex (TrimSpace plainKey) /\ accepts now "orders" [] k) as Hsome.
  { intros now plainKey k Hk. apply Hacc in Hk as (name & ck & HL & -> & _ & Hd & Ha). exists ck. split_and!; [|done..].
    rewrite <- sample_ledger. eapply ledger_value, HL. }
  split_and!.
  - eexists. apply Hacc. exists "green", (keyOf "3" "green" "three" (Some 9%Z)). split_and!; [vm_compute; reflexivity|reflexivity|by vm_compute|vm_compute; reflexivity|].
    split; [reflexivity|]. split; [reflexivity|]. split; [|intros i Hi; discriminate Hi]. intros t Ht. cbn in Ht. injection Ht as <-. lia.
  - intros k (ck & Hin & -> & Hd & _ & _ & Hx & _)%Hsome.
    apply list_elem_of_In in Hin as [<-|[<-|[]]]; [vm_compute in Hd; discriminate Hd|]. specialize (Hx 9%Z eq_refl). lia.
  - intros k (ck & Hin & -> & Hd & _)%Hsome. apply list_elem_of_In in Hin as [<-|[<-|[]]]; vm_compute in Hd; discriminate Hd.
Defined.
