(* ===== verification/LlmTheorems.v ===== *)
(** * LlmTheorems: access control of LLM providers

    What the REST API derived from an LLM provider serves: in the mode that
    denies all, only what an exception allows; in the mode that allows all,
    every exception has an operation with the deny policy. *)

From stdpp Require Import base gmap strings list fin_maps sorting.
From Stdlib Require Import Ascii.
From S2P Require Import Prelude GoStrings GoSort GoDuration Version Values ApiKeys ApiKeyTheorems Routes ManagementApi PolicyVersions ConfigStore LlmTransform RouteTheorems.

#[local] Set Warnings "-register-all".

Open Scope string_scope.

(** ** Paths with wildcards *)

Lemma HasPrefix_spec s p : HasPrefix s p = true <-> exists t, s = p +:+ t.
Proof.
  revert s. induction p as [|c p IH]; intros s.
  - split; [intros _; exists s; by autorewrite with go|]. intros _. by destruct s.
  - destruct s as [|d s]; [split; [done|intros [t Ht]; by autorewrite with go in Ht]|]. cbn [HasPrefix]. rewrite andb_true_iff, IH. split.
    + intros [->%Ascii.eqb_eq [t ->]]. exists t. by autorewrite with go.
    + intros [t Ht]. autorewrite with go in Ht. injection Ht as -> ->. split; [apply Ascii.eqb_refl|eauto].
Qed.

Lemma HasPrefix_trans s p q : HasPrefix s p = true -> HasPrefix p q = true -> HasPrefix s q = true.
Proof. rewrite !HasPrefix_spec. intros [t ->] [u ->]. exists (u +:+ t). by rewrite append_assoc_s. Qed.

(** A prefix without a star ends before the first star. *)
Lemma HasPrefix_before_star r s q : String_contains_byte "*" q = false -> HasPrefix (r +:+ String "*" s) q = true -> HasPrefix r q = true.
Proof.
  revert q. induction r as [|c r IH]; intros [|d q] Hq; cbn [String_contains_byte] in Hq; autorewrite with go; cbn [HasPrefix]; try done.
  - apply orb_false_iff in Hq as [Hq _]. by rewrite Ascii.eqb_sym, Ascii.eqb_sym, Hq.
  - apply orb_false_iff in Hq as [_ Hq]. rewrite !andb_true_iff. intros [? ?]. split; [done|by apply IH].
Qed.

(** A path that has no star but at its end. *)
Definition simplePattern (path : string) : Prop := forall l r, split_last "*" path = Some (l, r) -> r = "" /\ String_contains_byte "*" l = false.

#[export] Instance simplePattern_dec path : Decision (simplePattern path).
Proof.
  destruct (split_last "*" path) as [[l r]|] eqn:E.
  - destruct (decide (r = "" /\ String_contains_byte "*" l = false)) as [Hd|Hd].
    + left. intros l' r' E'. rewrite E in E'. by injection E' as <- <-.
    + right. intros Hs. by apply Hd, Hs.
  - left. intros l r E'. by rewrite E in E'.
Defined.

Lemma covered_spec path pattern : coveredByWildcard path pattern = true <->
  exists l r, split_last "*" pattern = Some (l, r) /\ HasPrefix path l = true.
Proof. unfold coveredByWildcard, starPrefix. destruct (split_last "*" pattern) as [[l r]|]; cbn; naive_solver. Qed.

Lemma pathsMatch_spec opPath policyPath : pathsMatch opPath policyPath = true <->
  policyPath = "/*" \/ opPath = policyPath \/ coveredByWildcard opPath policyPath = true.
Proof. unfold pathsMatch. rewrite !orb_true_iff, !String.eqb_eq. tauto. Qed.

Lemma pathsMatch_refl path : pathsMatch path path = true.
Proof. apply pathsMatch_spec. auto. Qed.

(** What a path covered by a pattern covers, the pattern covers. *)
Lemma pathsMatch_trans e op x : simplePattern e -> pathsMatch op e = true -> pathsMatch x op = true -> pathsMatch x e = true.
Proof.
  rewrite !pathsMatch_spec. intros He [->|[->|Hc]] Hx; [by left|done|].
  apply covered_spec in Hc as (q & r & Es & Hq). destruct (He _ _ Es) as [-> Hn]. apply split_last_spec in Es as Ee. destruct Ee as [-> _].
  destruct Hx as [->|[->|Hx]].
  - destruct q as [|c q]; [right; right; apply covered_spec; exists "", ""; split; [done|by destruct x]|].
    left. cbn [HasPrefix] in Hq. apply andb_true_iff in Hq as [Ec%Ascii.eqb_eq Hq]. subst c. destruct q as [|c q]; [done|].
    cbn [HasPrefix] in Hq. apply andb_true_iff in Hq as [Ec%Ascii.eqb_eq Hq]. subst c. by rewrite orb_true_r in Hn || done.
  - right. right. apply covered_spec. eauto.
  - apply covered_spec in Hx as (l & r & [-> _]%split_last_spec & Hx). right. right. apply covered_spec. exists q, "". split; [done|].
    eapply HasPrefix_trans; [exact Hx|]. by eapply HasPrefix_before_star.
Qed.

Lemma hasWildcard_spec path : hasWildcard path = match split_last "*" path with Some _ => true | None => false end.
Proof.
  unfold hasWildcard. destruct (split_last "*" path) as [[l r]|] eqn:E; [|by apply split_last_None].
  apply split_last_spec in E as [-> _]. rewrite String_contains_byte_append. cbn [String_contains_byte]. by rewrite orb_true_r.
Qed.

(** ** Keys and policies of the registry *)

(** Operations are registered under their path and method. *)
Definition wellKeyed (reg : OperationRegistry) : Prop := forall k op, reg !! k = Some op ->
  op_Match op = None /\ op_Path op = Some k.1 /\ op_Method op = Some k.2 /\ op_Resilience op = None.

Lemma wellKeyed_effective reg k op : wellKeyed reg -> reg !! k = Some op -> EffectivePath op = k.1 /\ EffectiveMethod op = k.2.
Proof. intros Hw Hk. destruct (Hw _ _ Hk) as (Hm & Hp & Hn & _). unfold EffectivePath, EffectiveMethod. by rewrite Hm, Hp, Hn. Qed.

(** [reg'] has the operations of [reg], with more policies at their end, and
    new ones whose keys satisfy [Q]. *)
Definition policiesOf (op : Operation) : list ApiPolicy := default [] (op_Policies op).

Record grows (Q : pathMethodKey -> Prop) (reg reg' : OperationRegistry) : Prop := {
  grows_old k op : reg !! k = Some op -> exists op', reg' !! k = Some op' /\ policiesOf op `prefix_of` policiesOf op';
  grows_new k op' : reg' !! k = Some op' -> is_Some (reg !! k) \/ Q k;
  grows_keyed : wellKeyed reg -> wellKeyed reg'
}.

Lemma grows_refl Q reg : grows Q reg reg.
Proof. split; eauto. Qed.

Lemma grows_trans Q reg1 reg2 reg3 : grows Q reg1 reg2 -> grows Q reg2 reg3 -> grows Q reg1 reg3.
Proof.
  intros H1 H2. split.
  - intros k op Hk. destruct (grows_old _ _ _ H1 _ _ Hk) as (op2 & Hk2 & Hp2). destruct (grows_old _ _ _ H2 _ _ Hk2) as (op3 & Hk3 & Hp3).
    exists op3. split; [done|]. by etrans.
  - intros k op Hk. destruct (grows_new _ _ _ H2 _ _ Hk) as [[op2 Hk2]|]; [by apply (grows_new _ _ _ H1 k op2)|by right].
  - intros Hw. by apply (grows_keyed _ _ _ H2), (grows_keyed _ _ _ H1).
Qed.

Lemma grows_foldl {B} (Q : pathMethodKey -> Prop) (f : OperationRegistry -> B -> OperationRegistry) (l : list B) (reg : OperationRegistry) :
  (forall r b, b ∈ l -> grows Q reg r -> grows Q r (f r b)) -> grows Q reg (foldl f reg l).
Proof.
  intros Hf. assert (forall l' r, (forall b, b ∈ l' -> b ∈ l) -> grows Q reg r -> grows Q reg (foldl f r l')) as Hg.
  { induction l' as [|b l' IH]; intros r Hl Hr; [done|]. cbn [foldl]. apply IH; [set_solver|]. eapply grows_trans; [done|]. apply Hf; [set_solver|done]. }
  apply Hg; [done|apply grows_refl].
Qed.

Lemma ensure_lookup path method reg k :
  ensureOperation path method reg !! k =
    if decide (k = (path, method)) then Some (default (newOperation path method) (reg !! k)) else reg !! k.
Proof.
  unfold ensureOperation. case_decide as Hk.
  - subst k. destruct (reg !! (path, method)) as [op|] eqn:E; [done|by rewrite lookup_insert_eq].
  - destruct (reg !! (path, method)); [done|]. by rewrite lookup_insert_ne.
Qed.

Lemma grows_ensure (Q : pathMethodKey -> Prop) path method reg : is_Some (reg !! (path, method)) \/ Q (path, method) -> grows Q reg (ensureOperation path method reg).
Proof.
  intros HQ. split.
  - intros k op Hk. rewrite ensure_lookup. case_decide; rewrite Hk; eexists; (split; [reflexivity|]); done.
  - intros k op'. rewrite ensure_lookup. case_decide as Hd; [|eauto]. subst k. eauto.
  - intros Hw k op. rewrite ensure_lookup. case_decide as Hd; [|by apply Hw]. subst k. intros [= <-].
    destruct (reg !! (path, method)) as [op|] eqn:E; [by apply (Hw (path, method))|done].
Qed.

Lemma grows_append (Q : pathMethodKey -> Prop) pol k reg : grows Q reg (alter (appendOperationPolicy pol) k reg).
Proof.
  split.
  - intros k' op Hk'. rewrite lookup_alter. case_decide as Hd; [subst k'|]; rewrite Hk'; eexists; (split; [reflexivity|]); [|done].
    cbn. by apply prefix_app_r.
  - intros k' op'. rewrite lookup_alter. case_decide; [|eauto]. intros (op & Hop & _)%fmap_Some. subst. left. eauto.
  - intros Hw k' op'. rewrite lookup_alter. case_decide as Hd; [|by apply Hw]. subst k'. intros (op & Hop & ->)%fmap_Some. exact (Hw k op Hop).
Qed.

(** Where the paths of targets come from. *)
Lemma selected_resource mappings path m : selectTemplateResourceMapping mappings path = Some m -> m ∈ mappings.
Proof.
  unfold selectTemplateResourceMapping. induction mappings as [|c mappings IH] using rev_ind; [done|]. rewrite foldl_app. cbn [foldl].
  set (s := foldl _ _ _) in *. rewrite elem_of_app, list_elem_of_singleton. destruct (negb _); [eauto|].
  destruct s as [s0|]; [|intros [= ->]; by right]. destruct (shouldPreferTemplateResourceMapping _ _); [intros [= ->]; by right|]. intros H1. left. by apply IH.
Qed.

(** A target is the path itself or, for a path with a wildcard, a resource
    of the template that it covers. *)
Definition isTarget (templateSpec : LLMProviderTemplateData) (opPath x : string) : Prop :=
  x = opPath \/ hasWildcard opPath = true /\ x ∈ trm_Resource <$> resourcesOf templateSpec /\ pathsMatch x opPath = true.

Lemma expand_targets opPath templateSpec x : x ∈ expandPolicyTargetPaths opPath templateSpec -> isTarget templateSpec opPath x.
Proof.
  unfold expandPolicyTargetPaths. destruct (hasWildcard opPath) eqn:Hw; cbn [negb]; [|intros ->%list_elem_of_singleton; by left].
  set (mappings := resourcesOf templateSpec).
  assert (forall l acc, (forall y, y ∈ acc.2 -> isTarget templateSpec opPath y) ->
    forall y, y ∈ (foldl (expandStep mappings opPath) acc l).2 -> isTarget templateSpec opPath y) as Hf.
  { induction l as [|m l IH]; intros acc Ha; [done|]. cbn [foldl]. apply IH. unfold expandStep. destruct (negb _); [done|].
    destruct (selectTemplateResourceMapping _ _) as [s|] eqn:Es; [|done]. destruct (negb (pathsMatch (trm_Resource s) opPath)) eqn:Ep; [done|].
    cbn [orb]. case_bool_decide; [done|]. cbn [snd]. intros y [Hy| ->%list_elem_of_singleton]%elem_of_app; [by apply Ha|].
    right. split_and!; [done|apply list_elem_of_fmap; exists s; split; [done|by eapply selected_resource]|by apply negb_false_iff in Ep]. }
  specialize (Hf mappings ({[opPath]}, [])). destruct (foldl _ _ _).2 as [|e es] eqn:E; [intros ->%list_elem_of_singleton; by left|].
  intros [Hx| ->%list_elem_of_singleton]%elem_of_app; [|by left]. apply Hf; [by intros y ?%elem_of_nil|done].
Qed.

(** ** Attaching policies only adds *)

Section Growth.
Context `{RegistryRange}.
Variable templateSpec : LLMProviderTemplateData.
Variable denyPolicyVersion : string.
Variable deniedPathMethods : gset pathMethodKey.

(** Keys that the policies may add: closed under the targets of a path. *)
Variable Q : pathMethodKey -> Prop.
Hypothesis Q_targets : forall opPath method x, Q (opPath, method) -> isTarget templateSpec opPath x -> Q (x, method).

Definition within (reg : OperationRegistry) : Prop := forall k, is_Some (reg !! k) -> Q k.

Lemma grows_within reg reg' : grows Q reg reg' -> within reg -> within reg'.
Proof. intros Hg Hw k [op Hk]. destruct (grows_new _ _ _ Hg _ _ Hk) as [Hk'|]; [by apply Hw|done]. Qed.

Lemma attachTarget_grows att method st x : Q (x, method) ->
  grows Q st.1 (attachTarget templateSpec denyPolicyVersion att method st x).1.
Proof.
  intros HQ. destruct st as [reg A]. unfold attachTarget. case_bool_decide; [apply grows_refl|].
  destruct (moreSpecificPolicyAttachmentCovers _ _ _); [apply grows_refl|]. cbv zeta.
  destruct (denyAppliesToTarget _ _ _ _); cbn [fst]; [|eapply grows_trans; [|apply grows_append]]; apply grows_ensure; by right.
Qed.

Lemma attachTargets_grows att method l st : (forall x, x ∈ l -> Q (x, method)) ->
  grows Q st.1 (foldl (attachTarget templateSpec denyPolicyVersion att method) st l).1.
Proof.
  revert st. induction l as [|x l IH]; intros st Hl; [apply grows_refl|]. cbn [foldl].
  eapply grows_trans; [apply attachTarget_grows|apply IH]; set_solver.
Qed.

Lemma attachOperation_grows att method st opPath : within st.1 ->
  grows Q st.1 (attachOperation templateSpec denyPolicyVersion att method st opPath).1.
Proof.
  intros Hw. unfold attachOperation. destruct (st.1 !! (opPath, method)) as [op|] eqn:Eo; [|apply grows_refl].
  destruct (_ && _); [apply grows_refl|]. destruct (pathsMatch _ _); [|apply grows_refl].
  apply attachTargets_grows. intros x Hx%expand_targets. eapply Q_targets; [|done]. apply Hw. eauto.
Qed.

Lemma attachOperations_grows att method l st : within st.1 ->
  grows Q st.1 (foldl (attachOperation templateSpec denyPolicyVersion att method) st l).1.
Proof.
  revert st. induction l as [|x l IH]; intros st Hw; [apply grows_refl|]. cbn [foldl].
  pose proof (attachOperation_grows att method st x Hw) as Hg. eapply grows_trans; [exact Hg|]. apply IH. by eapply grows_within.
Qed.

Lemma attachMethod_grows att reg method : within reg ->
  grows Q reg (attachMethod templateSpec denyPolicyVersion deniedPathMethods att reg method).
Proof.
  intros Hw. unfold attachMethod. destruct (isDeniedByException _ _ _); [apply grows_refl|].
  by apply (attachOperations_grows att method _ (reg, ∅)).
Qed.

Lemma attachPolicies_grows policies shouldRegister reg : within reg ->
  (forall k, k ∈ explicitKeys policies -> shouldRegister k.1 k.2 = true -> Q k) ->
  grows Q reg (attachPolicies templateSpec denyPolicyVersion deniedPathMethods policies shouldRegister reg).
Proof.
  intros Hw Hk. unfold attachPolicies, registerExplicitLLMPolicyOperations. set (reg1 := foldl _ reg _).
  assert (grows Q reg reg1) as H1.
  { apply grows_foldl. intros r [path method] Hin _. cbn [fst snd]. destruct (shouldRegister path method) eqn:E; [|apply grows_refl].
    apply grows_ensure. right. by apply (Hk (path, method)). }
  eapply grows_trans; [exact H1|]. apply grows_foldl. intros r att _ Hr. apply grows_foldl. intros r' method _ Hr'.
  apply attachMethod_grows. eapply grows_within, grows_within, grows_within; eauto.
Qed.

End Growth.

(** ** The order of the operations *)

Lemma swapPass_perm x l : (swapPass x l).1 :: (swapPass x l).2 ≡ₚ x :: l.
Proof.
  revert x. induction l as [|y l IH]; intros x; [done|]. cbn [swapPass]. destruct (shouldSwap x y).
  - specialize (IH y). destruct (swapPass y l) as [x' r]. cbn [fst snd] in *. by rewrite Permutation_swap, IH.
  - specialize (IH x). destruct (swapPass x l) as [x' r]. cbn [fst snd] in *. rewrite Permutation_swap, IH. apply Permutation_swap.
Qed.

Lemma exchangeSort_perm n l : exchangeSort n l ≡ₚ l.
Proof.
  revert l. induction n as [|n IH]; intros [|x l]; [done..|]. cbn [exchangeSort]. pose proof (swapPass_perm x l) as Hp.
  destruct (swapPass x l) as [x' r]. cbn [fst snd] in Hp. by rewrite IH.
Qed.

Lemma sort_perm ops : sortOperationsBySpecificity ops ≡ₚ ops.
Proof. apply exchangeSort_perm. Qed.

Lemma of_nat_eqb n m : (Z.of_nat n =? Z.of_nat m)%Z = (n =? m)%nat.
Proof. apply eq_true_iff_eq. rewrite Z.eqb_eq, Nat.eqb_eq. lia. Qed.

Lemma of_nat_ltb n m : (Z.of_nat n <? Z.of_nat m)%Z = (n <? m)%nat.
Proof. apply eq_true_iff_eq. rewrite Z.ltb_lt, Nat.ltb_lt. lia. Qed.

Lemma weakOrder_lex_string {A} (f : A -> string) (less : A -> A -> bool) :
  WeakOrder less -> WeakOrder (fun a b => if negb (String.eqb (f a) (f b)) then string_less (f a) (f b) else less a b).
Proof.
  intros [Ha Hn]. split.
  - intros x y. rewrite (String.eqb_sym (f y)). destruct (String.eqb (f x) (f y)); cbn [negb]; [apply Ha|apply less_asym].
  - intros x y z. destruct (String.eqb_spec (f y) (f x)) as [E1|E1], (String.eqb_spec (f z) (f y)) as [E2|E2],
      (String.eqb_spec (f z) (f x)) as [E3|E3]; cbn [negb].
    all: first [apply Hn | intros H1 H2; first [congruence
      | exfalso; apply E1; rewrite E3 in H2; by apply string_less_total | by eapply less_negtrans]].
Qed.

(** [op1] belongs before [op2]. *)
Definition before (op1 op2 : Operation) : bool := shouldSwap op2 op1.

#[export] Instance before_weakOrder : WeakOrder before.
Proof.
  set (wild := fun op => if hasWildcard (EffectivePath op) then 1%Z else 0%Z).
  set (len := fun op => Z.of_nat (String.length (EffectivePath op))).
  assert (forall a b, before a b =
    if negb (wild a =? wild b)%Z then (wild a <? wild b)%Z
    else if negb (len a =? len b)%Z then (len b <? len a)%Z
    else if negb (String.eqb (EffectivePath a) (EffectivePath b)) then string_less (EffectivePath a) (EffectivePath b)
    else string_less (EffectiveMethod a) (EffectiveMethod b)) as Hb.
  { intros a b. unfold before, shouldSwap, wild, len. rewrite (String.eqb_sym (EffectivePath a)).
    destruct (hasWildcard (EffectivePath a)), (hasWildcard (EffectivePath b)); cbn [negb andb Z.eqb Z.ltb Z.compare Pos.eqb Pos.compare Pos.compare_cont]; try done.
    all: by rewrite of_nat_eqb, of_nat_ltb, (Nat.eqb_sym (String.length (EffectivePath a))). }
  pose proof (weakOrder_lex wild _ (weakOrder_lex_down len _ (weakOrder_lex_string EffectivePath (fun a b => string_less (EffectiveMethod a) (EffectiveMethod b))
    (Build_WeakOrder _ _ (fun x y => less_asym (EffectiveMethod x) (EffectiveMethod y))
       (fun x y z => less_negtrans (EffectiveMethod x) (EffectiveMethod y) (EffectiveMethod z)))))) as [Ha Hn].
  split; intros *; rewrite !Hb; [apply Ha|apply Hn].
Qed.

Lemma before_total a b : before a b = false -> before b a = false -> EffectivePath a = EffectivePath b /\ EffectiveMethod a = EffectiveMethod b.
Proof.
  unfold before, shouldSwap. destruct (hasWildcard (EffectivePath a)), (hasWildcard (EffectivePath b)); cbn [negb andb]; try done.
  all: rewrite (Nat.eqb_sym (String.length (EffectivePath b))), (String.eqb_sym (EffectivePath b)).
  all: destruct (Nat.eqb_spec (String.length (EffectivePath a)) (String.length (EffectivePath b))); cbn [negb];
    [|intros ?%Nat.ltb_ge ?%Nat.ltb_ge; lia].
  all: destruct (String.eqb_spec (EffectivePath a) (EffectivePath b)) as [E|E]; cbn [negb];
    [intros; split; [done|by apply string_less_total]|intros; exfalso; apply E; by apply string_less_total].
Qed.

Lemma swapPass_first x l : Forall (fun y => before y (swapPass x l).1 = false) (swapPass x l).2 /\ before x (swapPass x l).1 = false.
Proof.
  revert x. induction l as [|y l IH]; intros x; cbn [swapPass]; [split; [constructor|exact (less_irrefl before x)]|].
  destruct (shouldSwap x y) eqn:E; fold (before y x) in E.
  - specialize (IH y). destruct (swapPass y l) as [x' r]. cbn [fst snd] in *. destruct IH as [Hr Hy].
    assert (before x x' = false) as Hx by (apply (less_negtrans (less := before) x' y x); [done|exact (less_asym (less := before) _ _ E)]). split; [by constructor|done].
  - specialize (IH x). destruct (swapPass x l) as [x' r]. cbn [fst snd] in *. destruct IH as [Hr Hx].
    split; [|done]. constructor; [|done]. by apply (less_negtrans (less := before) x' x y).
Qed.

Lemma exchangeSort_sorted n l : length l <= n -> StronglySorted (fun a b => before b a = false) (exchangeSort n l).
Proof.
  revert l. induction n as [|n IH]; intros [|x l] Hn; cbn [exchangeSort]; [constructor|cbn in Hn; lia|constructor|].
  pose proof (swapPass_first x l) as [Hr _]. pose proof (swapPass_perm x l) as Hp. destruct (swapPass x l) as [x' r]. cbn [fst snd] in *.
  constructor; [|by rewrite exchangeSort_perm]. apply IH. apply Permutation_length in Hp. cbn in *. lia.
Qed.

(** Sorting does not depend on the order of operations with different keys. *)
Lemma sort_unique l l' : l ≡ₚ l' -> NoDup ((fun op => (EffectivePath op, EffectiveMethod op)) <$> l) ->
  sortOperationsBySpecificity l = sortOperationsBySpecificity l'.
Proof.
  intros Hp Hnd. unfold sortOperationsBySpecificity. eapply StronglySorted_unique_strong; [|by apply exchangeSort_sorted..|by rewrite !exchangeSort_perm].
  intros a b. rewrite !exchangeSort_perm, <- Hp. intros Ha Hb H1 H2. destruct (before_total _ _ H2 H1) as [E1 E2].
  apply list_elem_of_lookup_1 in Ha as [i Hi], Hb as [j Hj].
  assert (i = j) as ->; [|congruence]. eapply NoDup_lookup; [exact Hnd| |]; rewrite list_lookup_fmap; [rewrite Hi|rewrite Hj]; cbn; by rewrite ?E1, ?E2.
Qed.

(** ** The operations of a transformed provider *)

Section Provider.
Context `{MapRange} `{RegistryRange}.
Variable t : LLMProviderTransformer.

(** An operation of the API: one of the registry, perhaps with the upstream
    authentication and the timeouts added. *)
Definition decorates (op op' : Operation) : Prop :=
  EffectivePath op' = EffectivePath op /\ EffectiveMethod op' = EffectiveMethod op /\ policiesOf op `prefix_of` policiesOf op' /\ op_Match op' = op_Match op.

Lemma decorates_refl op : decorates op op.
Proof. by split_and!. Qed.

Lemma decorates_trans op1 op2 op3 : decorates op1 op2 -> decorates op2 op3 -> decorates op1 op3.
Proof. intros (H1 & H2 & H3 & H4) (H5 & H6 & H7 & H8). split_and!; [congruence..| |congruence]. by etrans. Qed.

(** Both lists have the same operations, up to decoration. *)
Definition decorated (ops ops' : list Operation) : Prop := exists mid, mid ≡ₚ ops /\ Forall2 decorates mid ops'.

Lemma transformProvider_ops provider s api : transformProvider t provider s = Ok tt api ->
  exists tmpl ops keys, getTemplateByHandle t (lp_Template provider) = inr tmpl /\
    providerOperations t provider (st_Spec tmpl) tt = Ok tt (ops, keys) /\ decorated ops (acd_Operations (ra_Spec api)).
Proof.
  unfold transformProvider. intros ([] & tmpl & Ht & Hk)%bind_Ok_inv. destruct s.
  destruct (getTemplateByHandle t (lp_Template provider)) as [e|tm] eqn:Etm; [done|]. injection Ht as ->.
  apply bind_Ok_inv in Hk as ([] & auth & Ha & Hk). apply bind_Ok_inv in Hk as ([] & [ops keys] & Ho & Hk).
  exists tmpl, ops, keys. split_and!; [done..|]. injection Hk as <-. cbn [ra_Spec acd_Operations].
  exists (sortOperationsBySpecificity ops). split; [apply sort_perm|]. generalize (sortOperationsBySpecificity ops) as l. intros l.
  assert (Forall2 decorates l (match auth with Some pol => appendOperationPolicy pol <$> l | None => l end)) as Hauth.
  { destruct auth as [pol|]; [apply Forall2_fmap_r|]; apply Forall_Forall2_diag, Forall_true; intros op; [|apply decorates_refl].
    split_and!; [done|done| |done]. unfold policiesOf. cbn. by apply prefix_app_r. }
  eapply Forall2_trans; [exact decorates_trans|exact Hauth|]. unfold applyResilienceToTrafficRoutes.
  destruct (lp_Resilience provider); [apply Forall2_fmap_r|]; apply Forall_Forall2_diag, Forall_true; intros op; [|apply decorates_refl].
  unfold compose. by case_bool_decide; [apply decorates_refl|split_and!].
Qed.

(** The operations are those of a registry. *)
Lemma decorated_registry reg ops' : wellKeyed reg -> decorated (operationsOf reg) ops' ->
  (forall op', op' ∈ ops' -> exists op, reg !! (EffectivePath op', EffectiveMethod op') = Some op /\ policiesOf op `prefix_of` policiesOf op') /\
  (forall k op, reg !! k = Some op -> exists op', op' ∈ ops' /\ EffectivePath op' = k.1 /\ EffectiveMethod op' = k.2 /\ policiesOf op `prefix_of` policiesOf op').
Proof.
  intros Hw (mid & Hp & Hf).
  assert (forall op, op ∈ mid <-> exists k, reg !! k = Some op) as Hmid.
  { intros op. rewrite Hp. unfold operationsOf. rewrite list_elem_of_fmap. split.
    - intros ([k op'] & -> & Hk). exists k. apply elem_of_map_to_list. by rewrite <- rangeOps_perm.
    - intros [k Hk]. exists (k, op). split; [done|]. rewrite rangeOps_perm. by apply elem_of_map_to_list. }
  split.
  - intros op' [i Hi]%list_elem_of_lookup_1. destruct (Forall2_lookup_r _ _ _ _ _ Hf Hi) as (op & Hop%list_elem_of_lookup_2 & (Hpa & Hm & Hpol & _)).
    apply Hmid in Hop as [[path method] Hk]. destruct (wellKeyed_effective _ _ _ Hw Hk) as [E1 E2]. exists op.
    rewrite Hpa, Hm, E1, E2. done.
  - intros k op Hk. pose proof (proj2 (Hmid op) (ex_intro _ k Hk)) as Hin. apply list_elem_of_lookup_1 in Hin as [i Hi].
    destruct (Forall2_lookup_l _ _ _ _ _ Hf Hi) as (op' & Hop'%list_elem_of_lookup_2 & (Hpa & Hm & Hpol & _)).
    destruct (wellKeyed_effective _ _ _ Hw Hk) as [E1 E2]. exists op'. rewrite Hpa, Hm. done.
Qed.

(** They have no match object. *)
Lemma decorated_match reg ops' op' : wellKeyed reg -> decorated (operationsOf reg) ops' -> op' ∈ ops' -> op_Match op' = None.
Proof.
  intros Hw (mid & Hp & Hf) [i Hi]%list_elem_of_lookup_1.
  destruct (Forall2_lookup_r _ _ _ _ _ Hf Hi) as (op & Hop%list_elem_of_lookup_2 & (_ & _ & _ & Hm)). rewrite Hm. rewrite Hp in Hop.
  unfold operationsOf in Hop. apply list_elem_of_fmap in Hop as ([k op1] & -> & Hk). rewrite rangeOps_perm in Hk. apply elem_of_map_to_list in Hk.
  apply (Hw _ _ Hk).
Qed.

(** *** Deny all *)

Lemma allowed_spec path method keys : isAllowedByAccessControl path method keys = true ->
  exists k, k ∈ keys /\ k.2 = method /\ pathsMatch path k.1 = true.
Proof.
  unfold isAllowedByAccessControl. rewrite existsb_exists. intros (k & Hk & [Hm%String.eqb_eq Hp]%andb_true_iff).
  exists k. split_and!; [by apply elem_of_elements, list_elem_of_In|done|]. apply pathsMatch_spec.
  apply orb_true_iff in Hp as [->%String.eqb_eq|Hp]; auto.
Qed.

Lemma exceptionKeys_elem exceptions path method : (path, method) ∈ exceptionKeys exceptions <->
  exists ex, ex ∈ exceptions /\ path = rx_Path ex /\ method ∈ expandLLMPolicyMethods (rx_Methods ex).
Proof.
  unfold exceptionKeys. rewrite list_elem_of_In, in_concat. setoid_rewrite <- list_elem_of_In. setoid_rewrite list_elem_of_fmap. split.
  - intros (l & (ex & -> & Hex) & (m & [= -> ->] & Hm)%list_elem_of_fmap). eauto.
  - intros (ex & Hex & -> & Hm). eexists. split; [exists ex; split; [reflexivity|done]|]. apply list_elem_of_fmap. eauto.
Qed.

(** The registry of a provider that denies all. *)
Lemma denyAll_registry templateSpec exceptions policies :
  let reg := denyAllRegistry templateSpec exceptions policies in
  Forall (fun ex => simplePattern (rx_Path ex)) exceptions ->
  wellKeyed reg /\ (forall k, k ∈ exceptionKeys exceptions -> is_Some (reg !! k)) /\
  (forall k, is_Some (reg !! k) -> exists e, e ∈ exceptionKeys exceptions /\ e.2 = k.2 /\ pathsMatch k.1 e.1 = true).
Proof.
  intros reg Hs. unfold reg, denyAllRegistry. set (keys := list_to_set (exceptionKeys exceptions) : gset pathMethodKey).
  set (reg0 := set_to_map _ keys).
  assert (forall k, reg0 !! k = if decide (k ∈ keys) then Some (newOperation k.1 k.2) else None) as Hreg0.
  { intros k. case_decide as Hk.
    - apply lookup_set_to_map; [by intros y y' _ _|]. by exists k.
    - apply eq_None_not_Some. intros [op Hop]. apply lookup_set_to_map in Hop as (k' & Hk' & [= <- _]); [done|]. by intros y y' _ _. }
  set (Q := fun k : pathMethodKey => exists e, e ∈ exceptionKeys exceptions /\ e.2 = k.2 /\ pathsMatch k.1 e.1 = true).
  assert (forall k, k ∈ keys -> Q k) as HQ. { intros k Hk%elem_of_list_to_set. exists k. split_and!; [done..|apply pathsMatch_refl]. }
  assert (within Q reg0) as Hw. { intros k. rewrite Hreg0. case_decide; [by intros _; apply HQ|by intros [? ?]]. }
  destruct (attachPolicies_grows templateSpec "" ∅ Q) with (policies := policies) (reg := reg0)
    (shouldRegister := fun path method => isAllowedByAccessControl path method keys) as [Hold Hnew Hkey]; [|done| |].
  - intros opPath method x (e & He & Hm & Hp) [->|(_ & _ & Hx)]; [by exists e|]. exists e. split_and!; [done..|]. cbn [fst] in *.
    eapply pathsMatch_trans; [|exact Hp|exact Hx]. destruct e as [ep em]. apply exceptionKeys_elem in He as (ex & Hex & -> & _).
    by eapply Forall_forall in Hs.
  - intros k _ (e & He & Hm & Hp)%allowed_spec. exists e. split_and!; [by apply elem_of_list_to_set in He|done..].
  - split_and!.
    + apply Hkey. intros k op. rewrite Hreg0. case_decide; [|done]. by intros [= <-].
    + intros k Hk. destruct (Hold k (newOperation k.1 k.2)) as (op & Hop & _); [|eauto]. rewrite Hreg0, decide_True; [done|]. by apply elem_of_list_to_set.
    + intros k [op Hop]. destruct (Hnew _ _ Hop) as [Hk|]; [by apply Hw|done].
Qed.

(** C10: a provider that denies all serves only its exceptions.  Every request
    that an operation of the derived API matches is allowed by an exception
    for its method and path, whatever policies are attached and whatever
    resources the template has; and every exception is an operation.  The
    paths of the exceptions have no star but at their end. *)
Theorem deny_all_serves_only_exceptions provider s api :
  let exceptions := default [] (lac_Exceptions (lp_AccessControl provider)) in
  transformProvider t provider s = Ok tt api -> lac_Mode (lp_AccessControl provider) = "deny_all" ->
  Forall (fun ex => simplePattern (rx_Path ex)) exceptions ->
  (forall op path, op ∈ acd_Operations (ra_Spec api) -> pathsMatch path (EffectivePath op) = true ->
     exists ex, ex ∈ exceptions /\ EffectiveMethod op ∈ expandLLMPolicyMethods (rx_Methods ex) /\ pathsMatch path (rx_Path ex) = true) /\
  (forall ex method, ex ∈ exceptions -> method ∈ expandLLMPolicyMethods (rx_Methods ex) ->
     exists op, op ∈ acd_Operations (ra_Spec api) /\ EffectivePath op = rx_Path ex /\ EffectiveMethod op = method).
Proof.
  intros exceptions Hok Hmode Hs. destruct (transformProvider_ops _ _ _ Hok) as (tmpl & ops & keys & Ht & Ho & Hd).
  unfold providerOperations in Ho. rewrite Hmode in Ho. cbn in Ho. injection Ho as <- <-.
  destruct (denyAll_registry (st_Spec tmpl) exceptions (collectOperationLevelLLMPolicies (lp_OperationPolicies provider) (lp_Policies provider)) Hs)
    as (Hw & Hex & Hall). destruct (decorated_registry _ _ Hw Hd) as [H1 H2]. split.
  - intros op path Hop Hp. destruct (H1 op Hop) as (op0 & Hop0 & _). destruct (Hall _ (ex_intro _ _ Hop0)) as ([ep em] & He & Hm & Hpe).
    cbn [fst snd] in *. apply exceptionKeys_elem in He as (ex & Hin & -> & Hme). exists ex. split_and!; [done|by rewrite <- Hm|].
    eapply pathsMatch_trans; [|exact Hpe|exact Hp]. by eapply Forall_forall in Hs.
  - intros ex method Hin Hm. destruct (Hex (rx_Path ex, method)) as [op0 Hop0]; [apply exceptionKeys_elem; eauto|].
    destruct (H2 _ _ Hop0) as (op & Hop & Hp & Hme & _). eauto.
Qed.

(** *** Allow all *)

(** The first policy of the operation is the deny policy. *)
Definition denies (denyPolicyVersion : string) (op : Operation) : Prop := head (policiesOf op) = Some (denyPolicy denyPolicyVersion).

Lemma denies_prefix v op op' : denies v op -> policiesOf op `prefix_of` policiesOf op' -> denies v op'.
Proof. unfold denies. intros Hd [l ->]. by destruct (policiesOf op). Qed.

Lemma baseRegistry_lookup k : baseRegistry !! k =
  if decide (k.1 = "/*" /\ k.2 ∈ WILDCARD_HTTP_METHODS) then Some (newOperation k.1 k.2) else None.
Proof.
  unfold baseRegistry. generalize WILDCARD_HTTP_METHODS as l. induction l as [|m l IH] using rev_ind.
  { cbn. rewrite decide_False; [done|]. intros [_ ?%elem_of_nil]. done. }
  rewrite foldl_app. cbn [foldl]. rewrite lookup_insert. destruct k as [path method]. destruct (decide (("/*", m) = (path, method))) as [Hk|Hk].
  - injection Hk as <- <-. rewrite decide_True; [done|]. split; [done|]. apply elem_of_app. right. by left.
  - rewrite IH. cbn [fst snd]. repeat case_decide; try done; exfalso; set_solver.
Qed.

(** After the exceptions, exactly their operations have a policy. *)
Lemma denyOperations_spec v keys :
  let reg := foldl (denyOperation v) baseRegistry keys in
  wellKeyed reg /\ (forall k, is_Some (reg !! k) <-> is_Some (baseRegistry !! k) \/ k ∈ keys) /\
  (forall k op, reg !! k = Some op -> if decide (k ∈ keys) then denies v op else policiesOf op = []).
Proof.
  induction keys as [|key keys IH] using rev_ind; cbn zeta.
  { cbn [foldl]. split_and!; [|set_solver|].
    - intros k op. rewrite baseRegistry_lookup. case_decide; [|done]. by intros [= <-].
    - intros k op. rewrite baseRegistry_lookup. case_decide; [|done]. by intros [= <-]. }
  rewrite foldl_app. cbn [foldl]. set (reg := foldl _ _ keys) in *. destruct IH as (Hw & Hk & Hp).
  assert (forall k, denyOperation v reg key !! k =
    if decide (k = key) then Some (appendOperationPolicy (denyPolicy v) (default (newOperation key.1 key.2) (reg !! key))) else reg !! k) as Hl.
  { intros k. unfold denyOperation. rewrite lookup_alter. destruct (decide (k = key)) as [->|Hne].
    - rewrite decide_True by done. rewrite ensure_lookup. rewrite decide_True by by destruct key. done.
    - rewrite decide_False by done. rewrite ensure_lookup, decide_False; [done|]. by destruct key. }
  split_and!.
  - eapply (grows_keyed (fun _ => True)); [|exact Hw]. unfold denyOperation. eapply grows_trans; [apply grows_ensure; by right|apply grows_append].
  - intros k. rewrite Hl, elem_of_app, list_elem_of_singleton. destruct (decide (k = key)) as [->|]; [naive_solver|]. rewrite Hk. naive_solver.
  - intros k op. rewrite Hl. destruct (decide (k = key)) as [->|Hne].
    + intros [= <-]. rewrite decide_True by set_solver. unfold denies, policiesOf. cbn.
      destruct (reg !! key) as [op0|] eqn:E; [|done]. specialize (Hp _ _ E). unfold denies, policiesOf in Hp. cbn. case_decide.
      * revert Hp. by destruct (default [] (op_Policies op0)).
      * by rewrite Hp.
    + intros Hop. specialize (Hp _ _ Hop). repeat case_decide; try done; exfalso; set_solver.
Qed.

Lemma denied_spec path method keys : isDeniedByException path method keys = true <->
  exists e, (e, method) ∈ keys /\ (path = e \/ coveredByWildcard path e = true).
Proof.
  unfold isDeniedByException, coversKey. rewrite orb_true_iff, bool_decide_eq_true, existsb_exists. split.
  - intros [Hk|([e m] & Hk & [<-%String.eqb_eq Hc]%andb_true_iff)]; [eauto|]. exists e. split; [|by right]. by apply elem_of_elements, list_elem_of_In.
  - intros (e & He & [->|Hc]); [by left|right]. exists (e, method). split; [by apply list_elem_of_In, elem_of_elements|].
    cbn [fst snd]. by rewrite String.eqb_refl, Hc.
Qed.

(** The paths that policies and the template may add. *)
Definition cleanPaths (templateSpec : LLMProviderTemplateData) (exceptions : list RouteException) (policies : list OperationPolicy) : Prop :=
  Forall (fun ex => simplePattern (rx_Path ex) /\ HasPrefix (rx_Path ex) "/" = true) exceptions /\
  Forall (fun k => simplePattern k.1) (explicitKeys policies) /\
  Forall (fun r => simplePattern (trm_Resource r) /\
            forall method, isDeniedByException (trm_Resource r) method (list_to_set (exceptionKeys exceptions)) = true ->
              (trm_Resource r, method) ∈ exceptionKeys exceptions) (resourcesOf templateSpec).

Lemma allowAll_registry templateSpec v exceptions policies :
  let reg := allowAllRegistry templateSpec v exceptions policies in
  let denied : gset pathMethodKey := list_to_set (exceptionKeys exceptions) in
  cleanPaths templateSpec exceptions policies ->
  wellKeyed reg /\ (forall k, k ∈ exceptionKeys exceptions -> is_Some (reg !! k)) /\
  (forall method, method ∈ WILDCARD_HTTP_METHODS -> is_Some (reg !! ("/*", method))) /\
  (forall k op, reg !! k = Some op -> simplePattern k.1 /\ (isDeniedByException k.1 k.2 denied = true -> denies v op)).
Proof.
  intros reg denied (Hex & Hpol & Hres). unfold reg, allowAllRegistry. fold denied.
  destruct (denyOperations_spec v (exceptionKeys exceptions)) as (Hw & Hk & Hp). set (reg0 := foldl _ _ _) in *.
  set (Q := fun k : pathMethodKey => simplePattern k.1 /\ (isDeniedByException k.1 k.2 denied = true -> k ∈ exceptionKeys exceptions)).
  assert (within Q reg0) as HQ.
  { intros k Hk'. apply Hk in Hk' as [[op Hb]|Hin].
    - rewrite baseRegistry_lookup in Hb. case_decide as Hd; [|done]. destruct k as [path method]. cbn [fst snd] in Hd. destruct Hd as [-> _]. split.
      { refine (bool_decide_unpack _ _). by vm_compute. }
      intros (e & He%elem_of_list_to_set & Hc)%denied_spec. apply exceptionKeys_elem in He as (ex & Hin & -> & Hm).
      eapply Forall_forall in Hex as [Hsi Hsl]; [|exact Hin].
      destruct Hc as [Hc|(q & r & Eq & Hq)%covered_spec]; [by apply exceptionKeys_elem; exists ex|].
      destruct (Hsi _ _ Eq) as [-> Hn]. apply split_last_spec in Eq as [Ee _]. apply exceptionKeys_elem. exists ex. split_and!; [done| |done].
      rewrite Ee in *. destruct q as [|c [|c' q]]; [done| |].
      + cbn [HasPrefix fst] in Hq. apply andb_true_iff in Hq as [<-%Ascii.eqb_eq _]. done.
      + cbn [HasPrefix fst] in Hq. apply andb_true_iff in Hq as [_ Hq]. apply andb_true_iff in Hq as [<-%Ascii.eqb_eq _].
        cbn [String_contains_byte] in Hn. by rewrite orb_true_r in Hn.
    - destruct k as [path method]. split; [|done]. apply exceptionKeys_elem in Hin as (ex & Hin & -> & _). cbn. by eapply Forall_forall in Hex as [? _]. }
  destruct (attachPolicies_grows templateSpec v denied Q) with (policies := policies) (reg := reg0)
    (shouldRegister := fun path method => negb (isDeniedByException path method denied)) as [Hold Hnew Hkey]; [|done| |].
  - intros opPath method x HQo [->|(_ & Hx & _)]; [done|]. apply list_elem_of_fmap in Hx as (r & -> & Hr).
    eapply Forall_forall in Hres as [Hs Hd]; [|exact Hr]. split; [done|]. apply Hd.
  - intros k Hin Hs%negb_true_iff. split; [by eapply Forall_forall in Hpol|]. by rewrite Hs.
  - split_and!; [by apply Hkey| | |].
    + intros k Hin. destruct (proj2 (Hk k) (or_intror Hin)) as [op Hop]. destruct (Hold _ _ Hop) as (op' & -> & _). eauto.
    + intros method Hm. destruct (proj2 (Hk ("/*", method))) as [op Hop].
      { left. rewrite baseRegistry_lookup, decide_True; [eauto|done]. }
      destruct (Hold _ _ Hop) as (op' & -> & _). eauto.
    + intros k op Hop. assert (Q k) as [Hs Hd]. { destruct (Hnew _ _ Hop) as [Hk'|]; [by apply HQ|done]. }
      split; [done|]. intros Hin%Hd. destruct (proj2 (Hk k) (or_intror Hin)) as [op0 Hop0]. destruct (Hold _ _ Hop0) as (op' & Hop' & Hpre).
      assert (op' = op) as -> by congruence. specialize (Hp _ _ Hop0). rewrite decide_True in Hp by done. by eapply denies_prefix.
Qed.

End Provider.

(** ** Concrete providers *)

Definition noExtraction : ExtractionFields := mkExtractionFields None None None None None None.

Definition sampleTemplate (resources : list string) : StoredLLMProviderTemplate :=
  mkStoredLLMProviderTemplate "u" "openai" None None None
    (mkLLMProviderTemplateData "OpenAI" noExtraction (Some (Some (mkTemplateResourceMapping noExtraction <$> resources)))).

Definition sampleTransformer (resources : list string) : LLMProviderTransformer :=
  mkLLMProviderTransformer (mkLLMStorage (fun _ _ => inr None) (fun _ => inr (sampleTemplate resources))) 8080
    (Some {["respond" := "v0"; "set-headers" := "v1"]}).

Definition sampleProvider (mode : string) (exceptions : list RouteException) (policies : list OperationPolicy) : LLMProviderConfiguration :=
  mkLLMProviderConfiguration "gateway.api-platform.wso2.com/v1" "LlmProvider" (mkApiMetadata None None "p") (mkLLMAccessControl (Some exceptions) mode) (Some "/openai") "OpenAI" None
    (Some policies) None None "openai" (mkLLMProviderUpstream None None None (Some "https://api.openai.com")) None "v1.0" None.

Definition samplePolicy (name path : string) (methods : list string) : OperationPolicy :=
  mkOperationPolicy None name [mkOperationPolicyPath methods ∅ path] "v1".

(** The operations of an API, each with the names of its policies. *)
Definition served (o : Outcome unit RestAPI) : list (string * string * list string) :=
  match o with
  | Ok _ api => (fun op => (EffectiveMethod op, EffectivePath op, ap_Name <$> policiesOf op)) <$> acd_Operations (ra_Spec api)
  | _ => []
  end.

#[local] Existing Instance RegistryRange_list.

(** A policy on the catch-all path creates an operation for every resource of
    the template; here one that the exception denies by its wildcard, with no
    deny policy and, since the exception's operation counts as denying it,
    without the attached policy either.  It is more specific than the denying
    operation, so requests for it pass. *)
Example resource_escapes_denied_wildcard :
  served (transformProvider (sampleTransformer ["/chat/completions"; "/models"])
    (sampleProvider "allow_all" [mkRouteException ["POST"] "/chat/*"] [samplePolicy "guard" "/*" ["POST"]]) tt) =
  [("POST", "/chat/completions", []); ("POST", "/models", ["guard"]); ("POST", "/chat/*", ["respond"]);
   ("DELETE", "/*", []); ("GET", "/*", []); ("OPTIONS", "/*", []); ("PATCH", "/*", []); ("POST", "/*", ["guard"]); ("PUT", "/*", [])].
Proof. by vm_compute. Qed.

(** With the resource named in the exception as well it is denied. *)
Example named_resource_is_denied :
  served (transformProvider (sampleTransformer ["/chat/completions"; "/models"])
    (sampleProvider "allow_all" [mkRouteException ["POST"] "/chat/*"; mkRouteException ["POST"] "/chat/completions"] [samplePolicy "guard" "/*" ["POST"]]) tt) =
  [("POST", "/chat/completions", ["respond"]); ("POST", "/models", ["guard"]); ("POST", "/chat/*", ["respond"]);
   ("DELETE", "/*", []); ("GET", "/*", []); ("OPTIONS", "/*", []); ("PATCH", "/*", []); ("POST", "/*", ["guard"]); ("PUT", "/*", [])].
Proof. by vm_compute. Qed.

Definition denyAllProvider : LLMProviderConfiguration :=
  sampleProvider "deny_all" [mkRouteException ["POST"] "/chat/*"] [samplePolicy "guard" "/*" ["*"]; samplePolicy "audit" "/chat/completions" ["POST"]].

Definition allowAllProvider : LLMProviderConfiguration :=
  sampleProvider "allow_all" [mkRouteException ["POST"] "/chat/*"; mkRouteException ["POST"] "/chat/completions"] [samplePolicy "guard" "/*" ["POST"]].

Definition sampleResources : LLMProviderTransformer := sampleTransformer ["/chat/completions"; "/models"].

Definition isOkOutcome {S A} (o : Outcome S A) : bool := match o with Ok _ _ => true | _ => false end.

(** The transformation of a sample succeeds. *)
Lemma sample_derives p : isOkOutcome (transformProvider sampleResources p tt) = true -> exists api, transformProvider sampleResources p tt = Ok tt api.
Proof. destruct (transformProvider sampleResources p tt) as [[] api| |]; [eauto|done..]. Qed.

Lemma deny_all_serves_only_exceptions_witness :
  exists api, transformProvider sampleResources denyAllProvider tt = Ok tt api /\
    forall op path, op ∈ acd_Operations (ra_Spec api) -> pathsMatch path (EffectivePath op) = true ->
      EffectiveMethod op ∈ ["POST"] /\ pathsMatch path "/chat/*" = true.
Proof.
  destruct (sample_derives denyAllProvider) as [api Hapi]; [by vm_compute|]. exists api. split; [exact Hapi|]. intros op path Hop Hp.
  pose proof (deny_all_serves_only_exceptions sampleResources denyAllProvider tt api Hapi eq_refl) as Hd.
  destruct Hd as [Hd _]; [refine (bool_decide_unpack _ _); by vm_compute|].
  destruct (Hd op path Hop Hp) as (ex & [->|Hex]%elem_of_cons & Hm & Hx); [by split|by apply not_elem_of_nil in Hex].
Defined.
