(* ===== verification/LlmRouteTheorems.v ===== *)
(** * LlmRouteTheorems: denied requests and the routes of an LLM provider

    In the mode that allows all, the API derived from an LLM provider has an
    operation with the deny policy for every exception.  Here its routes are
    followed into Envoy: which route Envoy takes for a request that an
    exception denies, and two configurations in which it takes another
    one. *)

From stdpp Require Import base gmap strings list fin_maps sorting.
From Stdlib Require Import Ascii.
From S2P Require Import Prelude GoStrings GoSort GoDuration Re2 Version Values ApiKeys ApiKeyTheorems Routes ManagementApi PolicyVersions ConfigStore RestTransform LlmTransform RouteTheorems LlmTheorems.

#[local] Set Warnings "-register-all".

Open Scope string_scope.

(** ** Plain paths

    A plain path is a stem, perhaps with [/*] at its end. *)
Definition isWild (p : string) : bool := HasSuffix p "/*".
Definition stem (p : string) : string :=
  if isWild p then TrimSuffix p "/*" else if String.eqb p "/" then "" else p.

(** It starts with a slash, its stem does not end with one, and it has
    neither path parameters nor another star. *)
Record plainPath (p : string) : Prop := {
  pp_slash : HasPrefix p "/" = true;
  pp_params : Contains p "{" = false;
  pp_star : String_contains_byte "*" (stem p) = false;
  pp_end : HasSuffix (stem p) "/" = false
}.

Definition isPlain (p : string) : bool :=
  HasPrefix p "/" && negb (Contains p "{") && negb (String_contains_byte "*" (stem p)) && negb (HasSuffix (stem p) "/").
Lemma isPlain_plain p : isPlain p = true -> plainPath p.
Proof. unfold isPlain. rewrite !andb_true_iff, !negb_true_iff. intros [[[]]]. by split. Qed.

(** [q] followed by nothing or by further segments. *)
Definition segmentPrefix (q y : string) : Prop := y = q \/ exists r, y = q +:+ "/" +:+ r.

Lemma isWild_split p : isWild p = true -> p = TrimSuffix p "/*" +:+ "/*".
Proof.
  unfold isWild, HasSuffix. intros [t Ht]%HasPrefix_spec. assert (p = string_rev t +:+ "/*") as ->; [|by rewrite TrimSuffix_append].
  rewrite <- (string_rev_involutive p), Ht, string_rev_app_distr. by rewrite string_rev_involutive.
Qed.

Lemma plain_shape p : plainPath p ->
  (isWild p = true /\ p = stem p +:+ "/*") \/ (isWild p = false /\ (p = "/" /\ stem p = "" \/ stem p = p)).
Proof.
  intros _. unfold stem. destruct (isWild p) eqn:Hw; [left; split; [done|by apply isWild_split]|right; split; [done|]].
  destruct (String.eqb_spec p "/"); auto.
Qed.

(** A plain path is its stem and whether it has the wildcard. *)
Lemma plain_inj p p' : plainPath p -> plainPath p' -> stem p = stem p' -> isWild p = isWild p' -> p = p'.
Proof.
  intros Hp Hp' Hs Hw.
  destruct (plain_shape p Hp) as [[H1 H2]|[H1 [[H2 H3]|H2]]], (plain_shape p' Hp') as [[H1' H2']|[H1' [[H2' H3']|H2']]]; try congruence.
  - rewrite H3 in Hs. rewrite <- Hs in H2'. destruct Hp' as [Hsl _ _ _]. by rewrite <- H2' in Hsl.
  - rewrite H3' in Hs. rewrite Hs in H2. destruct Hp as [Hsl _ _ _]. by rewrite <- H2 in Hsl.
Qed.

Lemma split_last_star l : split_last "*" (l +:+ "/*") = Some (l +:+ "/", "").
Proof. apply split_last_spec. by rewrite append_assoc_s. Qed.

Lemma plain_simple p : plainPath p -> simplePattern p.
Proof.
  intros Hp l r Hl. pose proof (pp_star p Hp) as Hst. destruct (plain_shape p Hp) as [[_ H2]|[_ H2]].
  - rewrite H2, split_last_star in Hl. injection Hl as <- <-. split; [done|]. by rewrite String_contains_byte_append, Hst.
  - destruct H2 as [[-> _]|H2]; [done|]. rewrite H2 in Hst. apply split_last_spec in Hl as [-> _].
    by rewrite String_contains_byte_append, (orb_comm _ (String_contains_byte _ _)) in Hst.
Qed.

(** Stems of the same path are comparable. *)
Lemma segment_compare q1 q2 y : segmentPrefix q1 y -> segmentPrefix q2 y ->
  q1 = q2 \/ (exists t, q2 = q1 +:+ "/" +:+ t) \/ (exists t, q1 = q2 +:+ "/" +:+ t).
Proof.
  revert q2 y. induction q1 as [|c q1 IH]; intros [|d q2] y H1 H2; [by left|right; left|right; right|].
  - destruct H1 as [->|[r ->]]; [by destruct H2 as [|[]]|]. rewrite append_empty in H2.
    destruct H2 as [H2|[r' H2]]; rewrite ?append_cons in H2; injection H2 as <- H2; exists q2; done.
  - destruct H2 as [->|[r ->]]; [by destruct H1 as [|[]]|]. rewrite append_empty in H1.
    destruct H1 as [H1|[r' H1]]; rewrite ?append_cons in H1; injection H1 as <- H1; exists q1; done.
  - assert (exists y', y = String c y' /\ segmentPrefix q1 y') as (y' & -> & H1').
    { destruct H1 as [->|[r ->]]; [exists q1; split; [done|by left]|]. rewrite append_cons. eexists. split; [done|]. right. by eexists. }
    assert (d = c /\ segmentPrefix q2 y') as [-> H2'].
    { destruct H2 as [H2|[r H2]]; rewrite ?append_cons in H2; injection H2 as -> ->; (split; [done|]); [by left|right; by eexists]. }
    destruct (IH q2 y' H1' H2') as [->|[[t ->]|[t ->]]]; [by left|right; left|right; right]; exists t; by rewrite ?append_cons.
Qed.

Lemma QuoteMeta_longer s : String.length s <= String.length (QuoteMeta s).
Proof. induction s as [|c s IH]; [done|]. cbn [QuoteMeta]. destruct (special c); cbn [String.length]; lia. Qed.

Lemma ends_with_slash q t : HasSuffix (q +:+ "/" +:+ t) "/" = false -> t <> "".
Proof. intros H ->. assert (HasSuffix (q +:+ "/") "/" = true) by apply HasSuffix_append. by rewrite append_nil_r in H; congruence. Qed.

(** The paths below the context that a plain path describes. *)
Definition below (p y : string) : Prop :=
  y = stem p \/ exists r, y = stem p +:+ "/" +:+ r /\ (isWild p = true \/ r = "").

Lemma below_segment p y : below p y -> segmentPrefix (stem p) y.
Proof. intros [->|(r & -> & _)]; [by left|right; eauto]. Qed.

Lemma operationPaths_below context p y : plainPath p -> operationPaths context p false (context +:+ y) -> below p y.
Proof.
  intros Hp. unfold operationPaths, below, stem. fold (isWild p). destruct (isWild p).
  - intros [H%append_inj_l|(r & H%append_inj_l & _)]; [by left|right; eauto].
  - destruct (String.eqb p "/").
    + intros [H|H%append_inj_l]; [left|right; exists ""; auto]. rewrite <- (append_nil_r context) in H at 2. by apply append_inj_l in H.
    + intros [H%append_inj_l|H%append_inj_l]; [by left|right; exists ""; auto].
Qed.

Lemma operationPaths_context context p x : operationPaths context p false x -> exists y, x = context +:+ y.
Proof.
  unfold operationPaths. destruct (HasSuffix p "/*"); [intros [->|(r & -> & _)]; eauto|]. destruct (String.eqb p "/").
  - intros [->| ->]; [exists ""; by rewrite append_nil_r|eauto].
  - intros [->| ->]; eauto.
Qed.

(** The length of the matcher of a plain path, the context apart. *)
Definition weight (p : string) : nat := String.length (QuoteMeta (stem p)) + (if isWild p then 10 else 4).

(** Of two operations that match a request the exception's has the longer
    matcher, if the other is not covered by the exception and not a wildcard
    that is hardly shorter. *)
Lemma denied_is_longer e p y : plainPath e -> plainPath p -> below e y -> below p y -> p <> e -> coveredByWildcard p e = false ->
  (isWild p = true -> isWild e = false -> segmentPrefix (stem p) e -> String.length p + 4 < String.length e) ->
  weight p < weight e.
Proof.
  intros He Hp Hey Hpy Hne Hcov Hlen. unfold weight.
  destruct (segment_compare _ _ _ (below_segment _ _ Hpy) (below_segment _ _ Hey)) as [Hq|[[t Hq]|[t Hq]]].
  - rewrite Hq. destruct (isWild p) eqn:Hwp, (isWild e) eqn:Hwe; [|exfalso|lia|].
    + exfalso. apply Hne. apply plain_inj; congruence.
    + assert (segmentPrefix (stem p) e) as Hs.
      { destruct (plain_shape e He) as [[H1 _]|[_ [[-> H3]|H3]]]; [congruence| |]; rewrite Hq.
        - rewrite H3. right. by exists "".
        - left. by rewrite H3. }
      specialize (Hlen eq_refl eq_refl Hs). destruct (plain_shape p Hp) as [[_ H2]|[H1 _]]; [|congruence].
      rewrite H2, length_append, Hq in Hlen. cbn [String.length] in Hlen.
      destruct (plain_shape e He) as [[H1 _]|[_ [[-> H3]|H3]]]; [congruence|rewrite H3 in Hlen; cbn in Hlen; lia|rewrite H3 in Hlen; lia].
    + exfalso. apply Hne. apply plain_inj; congruence.
  - pose proof (ends_with_slash _ t ltac:(rewrite <- Hq; apply (pp_end e He))) as Ht.
    assert (String.length (QuoteMeta (stem p)) + String.length ("/" +:+ t) <= String.length (QuoteMeta (stem e))) as HQ.
    { rewrite Hq, QuoteMeta_app, (length_append (QuoteMeta (stem p))). pose proof (QuoteMeta_longer ("/" +:+ t)). lia. }
    rewrite length_append in HQ. cbn [String.length] in HQ.
    destruct (isWild p) eqn:Hwp, (isWild e) eqn:Hwe; try lia.
    destruct (plain_shape e He) as [[H1 _]|[_ [[-> H3]|H3]]]; [congruence| |].
    + rewrite H3 in Hq. by destruct (stem p).
    + specialize (Hlen eq_refl eq_refl ltac:(right; exists t; by rewrite <- H3)).
      destruct (plain_shape p Hp) as [[_ H2]|[H1 _]]; [|congruence]. rewrite H2, length_append in Hlen. rewrite <- H3, Hq, !length_append in Hlen.
      cbn [String.length] in Hlen. lia.
  - pose proof (ends_with_slash _ t ltac:(rewrite <- Hq; apply (pp_end p Hp))) as Ht. exfalso. destruct (isWild e) eqn:Hwe.
    + destruct (plain_shape e He) as [[_ H2]|[H1 _]]; [|congruence]. rewrite H2 in Hcov.
      apply not_true_iff_false in Hcov. apply Hcov, covered_spec. exists (stem e +:+ "/"), "". split; [apply split_last_star|].
      apply HasPrefix_spec. destruct (plain_shape p Hp) as [[_ H3]|[_ [[-> H3]|H3]]].
      * exists (t +:+ "/*"). rewrite H3 at 1. by rewrite Hq, !append_assoc_s.
      * rewrite H3 in Hq. by destruct (stem e).
      * exists t. by rewrite <- H3, Hq, append_assoc_s at 1.
    + assert (y = stem e \/ y = stem e +:+ "/") as Hy by (destruct Hey as [|(r & ? & [?| ->])]; [by left|congruence|by right]).
      assert (exists u, y = stem e +:+ "/" +:+ t +:+ u) as [u Hu].
      { destruct Hpy as [->|(r & -> & _)]; [exists ""; by rewrite append_nil_r|]. exists ("/" +:+ r). by rewrite Hq, !append_assoc_s. }
      rewrite Hu in Hy. destruct Hy as [Hy|Hy].
      * rewrite <- (append_nil_r (stem e)) in Hy at 2. apply append_inj_l in Hy. done.
      * apply append_inj_l in Hy. injection Hy as Hy. by destruct t.
Qed.

(** ** The routes of the operations *)

Section Routes.
Context `{Re2Engine}.
Variable tc : TranslatorConfig.

(** The test of Envoy for a request of which the method and the path are
    known. *)
Definition takes (method path : string) (r : EnvoyRoute) : bool :=
  match er_Match r with
  | Some m =>
      pathMatches (m_PathSpecifier m) path &&
      forallb (fun h => match h with
                        | Some (mkHeaderMatcher n (StringMatch v)) => String.eqb n ":method" && String.eqb v method
                        | _ => false
                        end) (m_Headers m)
  | None => false
  end.

(** The route that the controller emits for the [i]-th operation of an API. *)
Definition operationRoute (kind : string) (clusters : gmap string UpstreamCluster) (apiData : APIConfigData)
    (up : upstreamClusterResult) (timeout : option RouteTimeout) (vhost : string) (i : nat) (op : Operation) : EnvoyRoute :=
  createRouteFromRDC tc (routeKeyOf apiData op vhost) (routeOf apiData up timeout i op vhost) kind clusters.

Definition contextOf (apiData : APIConfigData) : string := ConstructFullPath (acd_Context apiData) (acd_Version apiData) "".

Lemma ConstructFullPath_context apiData p : ConstructFullPath (acd_Context apiData) (acd_Version apiData) p = contextOf apiData +:+ p.
Proof. unfold contextOf, ConstructFullPath. by rewrite append_nil_r. Qed.

Section Emitted.
Variables (kind : string) (clusters : gmap string UpstreamCluster) (apiData : APIConfigData)
  (up : upstreamClusterResult) (timeout : option RouteTimeout) (vhost : string).
Abbreviation emitted := (operationRoute kind clusters apiData up timeout vhost).

(** The route of an operation on a plain path takes the requests of its method
    for the paths it describes. *)
Lemma takes_operation i op method path : op_Match op = None -> plainPath (EffectivePath op) ->
  takes method path (emitted i op) = true <->
  EffectiveMethod op = method /\ operationPaths (contextOf apiData) (EffectivePath op) false path.
Proof.
  intros Hm Hp. unfold takes, operationRoute, createRouteFromRDC. cbn [er_Match m_PathSpecifier m_Headers].
  assert (buildMatchHeaders (rr_Method (routeOf apiData up timeout i op vhost)) (routeOf apiData up timeout i op vhost) = [methodMatcher (EffectiveMethod op)]) as ->.
  { unfold buildMatchHeaders, routeOf. cbn. unfold routeHeaderMatches, EffectiveHeaders. by rewrite Hm. }
  cbn [forallb]. rewrite andb_true_r, andb_true_iff. unfold methodMatcher. cbn [String.eqb Ascii.eqb Bool.eqb andb].
  rewrite String.eqb_eq.
  pose proof (operations_match_their_paths (contextOf apiData) (EffectivePath op) (routeOf apiData up timeout i op vhost) path
    (ConstructFullPath_context apiData (EffectivePath op)) eq_refl) as [Hmatch _].
  specialize (Hmatch (pp_params _ Hp)). cbn zeta in Hmatch. rewrite Hmatch.
  assert (EqualFold (rr_PathMatchType (routeOf apiData up timeout i op vhost)) "Exact" = false) as ->; [|tauto].
  unfold routeOf. cbn [rr_PathMatchType]. unfold EffectivePathMatchType. by rewrite Hm.
Qed.

Lemma HasSuffix_slash_end q : HasSuffix q "/" = false -> q <> "/".
Proof. intros H1 ->. by vm_compute in H1. Qed.

(** Its rank: a regular expression of a length that its path decides. *)
Lemma operation_rank i op : op_Match op = None -> plainPath (EffectivePath op) ->
  shapeRank (emitted i op) = 2 /\
  String.length (pathText (emitted i op)) = String.length (QuoteMeta (contextOf apiData)) + weight (EffectivePath op).
Proof.
  intros Hm Hp. unfold shapeRank, pathText, operationRoute, createRouteFromRDC. cbn [er_Match fmap option_fmap option_map m_PathSpecifier].
  unfold routeOf. cbn [rr_Path rr_OperationPath rr_PathMatchType]. rewrite ConstructFullPath_context.
  unfold setMatchPathSpecifier. cbn [rr_PathMatchType]. unfold EffectivePathMatchType. rewrite Hm, (pp_params _ Hp).
  change (EqualFold "" "Exact") with false. set (p := EffectivePath op) in *. unfold weight, stem, isWild.
  destruct (HasSuffix p "/*") eqn:Hw; [|destruct (String.eqb_spec p "/") as [->|Hne]]; (split; [done|]); cbn [default from_option id]; unfold id.
  - rewrite TrimSuffix_context by done. rewrite QuoteMeta_app, !length_append. cbn [String.length]. lia.
  - rewrite TrimSuffix_append, !length_append. cbn [String.length QuoteMeta]. lia.
  - rewrite QuoteMeta_app, !length_append. cbn [String.length]. lia.
Qed.

Lemma heavier_outranks i op j op' : op_Match op = None -> op_Match op' = None -> plainPath (EffectivePath op) -> plainPath (EffectivePath op') ->
  weight (EffectivePath op) < weight (EffectivePath op') -> outranks (emitted j op') (emitted i op).
Proof.
  intros Hm Hm' Hp Hp' Hw. destruct (operation_rank i op Hm Hp) as [S1 L1], (operation_rank j op' Hm' Hp') as [S2 L2].
  unfold outranks, precedence. rewrite S1, S2. apply greaterLater, greaterHere. lia.
Qed.

End Emitted.
End Routes.

(** ** Requests that an exception denies *)

Section Denied.
Context `{MapRange} `{RegistryRange} `{Re2Engine}.
Variable t : LLMProviderTransformer.

(** Where the paths of operations come from, the exceptions apart. *)
Definition otherPath (templateSpec : LLMProviderTemplateData) (policies : list OperationPolicy) (w : string) : Prop :=
  w = "/*" \/ w ∈ (explicitKeys policies).*1 \/ w ∈ trm_Resource <$> resourcesOf templateSpec.

(** The configurations in which every exception is enforced: all paths are
    plain; a resource of the template that an exception with a wildcard
    covers is named by an exception for the same methods; and an exception
    without a wildcard is longer, by at least five characters, than every
    path with a wildcard that covers it, the catch-all included. *)
Record enforceable (templateSpec : LLMProviderTemplateData) (exceptions : list RouteException) (policies : list OperationPolicy) : Prop := {
  en_exceptions : Forall (fun ex => plainPath (rx_Path ex)) exceptions;
  en_policies : Forall (fun k => plainPath k.1) (explicitKeys policies);
  en_resources : Forall (fun r => plainPath (trm_Resource r) /\
    forall method, isDeniedByException (trm_Resource r) method (list_to_set (exceptionKeys exceptions)) = true ->
      (trm_Resource r, method) ∈ exceptionKeys exceptions) (resourcesOf templateSpec);
  en_longer : forall ex w, ex ∈ exceptions -> isWild (rx_Path ex) = false -> otherPath templateSpec policies w ->
    isWild w = true -> segmentPrefix (stem w) (rx_Path ex) -> String.length w + 4 < String.length (rx_Path ex)
}.

Lemma enforceable_clean templateSpec exceptions policies : enforceable templateSpec exceptions policies -> cleanPaths templateSpec exceptions policies.
Proof.
  intros [He Hp Hr _]. split_and!.
  - eapply Forall_impl; [exact He|]. intros ex Hx. split; [by apply plain_simple|apply (pp_slash _ Hx)].
  - eapply Forall_impl; [exact Hp|]. intros k Hx. by apply plain_simple.
  - eapply Forall_impl; [exact Hr|]. intros r [Hx Hd]. split; [by apply plain_simple|exact Hd].
Qed.

Lemma catch_all_plain : plainPath "/*".
Proof. apply isPlain_plain. reflexivity. Qed.

Lemma operations_origin templateSpec v exceptions policies k :
  is_Some (allowAllRegistry templateSpec v exceptions policies !! k) ->
  k ∈ exceptionKeys exceptions \/ otherPath templateSpec policies k.1.
Proof.
  set (Q := fun k : pathMethodKey => k ∈ exceptionKeys exceptions \/ otherPath templateSpec policies k.1).
  intros [op Hop]. unfold allowAllRegistry in Hop.
  destruct (denyOperations_spec v (exceptionKeys exceptions)) as (_ & Hk & _). set (reg0 := foldl _ _ _) in *.
  assert (within Q reg0) as HQ.
  { intros k' [[op' Hb]|Hin]%Hk; [|by left]. rewrite baseRegistry_lookup in Hb. case_decide as Hd; [|done]. right. left. apply Hd. }
  destruct (attachPolicies_grows templateSpec v (list_to_set (exceptionKeys exceptions)) Q) with (policies := policies) (reg := reg0)
    (shouldRegister := fun path method => negb (isDeniedByException path method (list_to_set (exceptionKeys exceptions)))) as [_ Hnew _]; [|done| |].
  - intros opPath method x HQo [->|(_ & Hx & _)]; [done|]. right. by right; right.
  - intros k' Hin _. right. right. left. apply list_elem_of_fmap. eauto.
  - destruct (Hnew _ _ Hop) as [Hk'|]; [by apply HQ|done].
Qed.

Lemma origin_plain templateSpec exceptions policies k : enforceable templateSpec exceptions policies ->
  k ∈ exceptionKeys exceptions \/ otherPath templateSpec policies k.1 -> plainPath k.1.
Proof.
  intros Hen [Hin|[->|[Hin|Hin]]].
  - destruct k as [path method]. apply exceptionKeys_elem in Hin as (ex & Hin & -> & _). pose proof (en_exceptions _ _ _ Hen) as Hf.
    by eapply Forall_forall in Hf.
  - apply catch_all_plain.
  - apply list_elem_of_fmap in Hin as (k' & -> & Hin). pose proof (en_policies _ _ _ Hen) as Hf. by eapply Forall_forall in Hf.
  - apply list_elem_of_fmap in Hin as (r & -> & Hin). pose proof (en_resources _ _ _ Hen) as Hf. by eapply Forall_forall in Hf as [? _].
Qed.

(** C11: a provider that allows all denies its exceptions.  Take the routes
    that the controller emits for the derived API on one virtual host, in
    Envoy's order.  For every request that an exception denies - the method is
    one of its methods, and the path below the context of the API is its path,
    with or without a slash at the end, or lies under its wildcard - the
    first route that matches the request is that of an operation whose first
    policy is the deny policy.  The paths have no path parameters and no star
    but a final [/*]; no resource of the template is denied by a wildcard
    only; and every exception without a wildcard is at least five characters
    longer than each path with a wildcard that covers it ([enforceable]).
    Without the last condition the statement is false
    ([short_exception_is_not_enforced]), and so it is with path parameters
    ([parameter_escapes_denied_wildcard]). *)
Theorem allow_all_denies_exceptions provider s api tmpl tc kind clusters up timeout vhost :
  let exceptions := default [] (lac_Exceptions (lp_AccessControl provider)) in
  let policies := collectOperationLevelLLMPolicies (lp_OperationPolicies provider) (lp_Policies provider) in
  let ops := acd_Operations (ra_Spec api) in
  let routeAt := operationRoute tc kind clusters (ra_Spec api) up timeout vhost in
  transformProvider t provider s = Ok tt api -> lac_Mode (lp_AccessControl provider) = "allow_all" ->
  getTemplateByHandle t (lp_Template provider) = inr tmpl -> enforceable (st_Spec tmpl) exceptions policies ->
  exists v, (exceptions <> [] -> llm_resolvePolicyVersion t ACCESS_CONTROL_DENY_POLICY_NAME = inr v) /\
    forall ex method path, ex ∈ exceptions -> method ∈ expandLLMPolicyMethods (rx_Methods ex) ->
      operationPaths (contextOf (ra_Spec api)) (rx_Path ex) false path ->
      exists i op, ops !! i = Some op /\ denies v op /\
        List.find (takes method path) (SortRoutesByPriority (imap routeAt ops)) = Some (routeAt i op).
Proof.
  intros exceptions policies ops routeAt Hok Hmode Htm Hen.
  destruct (transformProvider_ops _ _ _ _ Hok) as (tmpl' & rops & keys & Ht & Ho & Hd). rewrite Htm in Ht. injection Ht as <-.
  unfold providerOperations in Ho. rewrite Hmode in Ho. cbn [String.eqb Ascii.eqb Bool.eqb] in Ho. apply bind_Ok_inv in Ho as ([] & v & Hv & Ho). injection Ho as <- <-.
  exists v. split.
  { intros Hne. destruct exceptions as [|ex exs] eqn:Eex; [done|]. unfold exceptions in Eex. rewrite Eex in Hv.
    unfold lift_err in Hv. destruct (llm_resolvePolicyVersion t _); [done|]. by injection Hv as ->. }
  intros ex method path Hin Hm Hpath. destruct (operationPaths_context _ _ _ Hpath) as [y ->].
  destruct (allowAll_registry (st_Spec tmpl) v exceptions policies (enforceable_clean _ _ _ Hen)) as (Hw & Hex & _ & Hden).
  destruct (decorated_registry _ _ Hw Hd) as [Hfrom Hto]. fold ops in Hfrom, Hto.
  (* every operation has a plain path; it denies, or its key is none of an exception *)
  assert (forall op, op ∈ ops -> op_Match op = None /\ plainPath (EffectivePath op)) as Hplain.
  { intros op Hop. split; [by eapply decorated_match|]. destruct (Hfrom op Hop) as (op0 & Hop0 & _).
    apply (origin_plain (st_Spec tmpl) exceptions policies (EffectivePath op, EffectiveMethod op) Hen). eapply operations_origin. by rewrite Hop0. }
  (* the operation of the exception *)
  destruct (Hex (rx_Path ex, method)) as [op0 Hop0]; [apply exceptionKeys_elem; eauto|].
  destruct (Hto _ _ Hop0) as (ope & Hope & Hpe & Hme & Hpre). cbn [fst snd] in Hpe, Hme.
  assert (denies v ope) as Hdeny.
  { eapply denies_prefix; [|exact Hpre]. eapply Hden; [exact Hop0|]. apply denied_spec. exists (rx_Path ex). split; [|by left].
    apply elem_of_list_to_set, exceptionKeys_elem. eauto. }
  apply list_elem_of_lookup_1 in Hope as [ie Hie].
  destruct (Hplain ope (list_elem_of_lookup_2 _ _ _ Hie)) as [Hnone Hple].
  assert (takes method (contextOf (ra_Spec api) +:+ y) (routeAt ie ope) = true) as Htake
    by (apply takes_operation; [done..|by rewrite Hpe, Hme]).
  assert (routeAt ie ope ∈ imap routeAt ops) as Hrin.
  { apply list_elem_of_lookup. exists ie. by rewrite list_lookup_imap, Hie. }
  rewrite SortRoutes_stable. destruct (List.find _ _) as [r|] eqn:E.
  2: { rewrite (proj1 (find_stableSort_None (fun a b => Less b a) _ _) E _ Hrin) in Htake. done. }
  destruct (find_stableSort (fun a b => Less b a) _ _ r E) as (Hr & Hmr & Hmin & _).
  apply list_elem_of_lookup in Hr as [i Hr]. rewrite list_lookup_imap in Hr. destruct (ops !! i) as [op|] eqn:Hi; [|done]. injection Hr as <-.
  exists i, op. split; [done|]. split; [|done]. pose proof (list_elem_of_lookup_2 _ _ _ Hi) as Hop. destruct (Hplain op Hop) as [Hno Hpl].
  apply takes_operation in Hmr as [Hmo Hpo]; [|done..].
  destruct (Hfrom op Hop) as (op1 & Hop1 & Hpre1). destruct (Hden _ _ Hop1) as [_ Hdo]. cbn [fst snd] in Hdo.
  destruct (isDeniedByException (EffectivePath op) (EffectiveMethod op) (list_to_set (exceptionKeys exceptions))) eqn:Eden;
    [by eapply denies_prefix, Hpre1; apply Hdo|]. exfalso.
  assert (forall P : Prop, (P -> isDeniedByException (EffectivePath op) (EffectiveMethod op) (list_to_set (exceptionKeys exceptions)) = true) -> ~ P) as Hnot
    by (intros P HP HP'; apply HP in HP'; congruence).
  assert ((rx_Path ex, EffectiveMethod op) ∈ (list_to_set (exceptionKeys exceptions) : gset pathMethodKey)) as Hkey
    by (apply elem_of_list_to_set, exceptionKeys_elem; rewrite Hmo; eauto).
  specialize (Hmin _ Hrin Htake). apply not_true_iff_false in Hmin. apply Hmin, Less_outranks, heavier_outranks; [done..|]. rewrite Hpe in Hple |- *.
  eapply denied_is_longer; [done|done|by eapply operationPaths_below|by eapply operationPaths_below| | |].
  - apply Hnot. intros HE. apply denied_spec. exists (rx_Path ex). split; [done|by left].
  - apply not_true_iff_false, Hnot. intros HE. apply denied_spec. exists (rx_Path ex). split; [done|by right].
  - intros Hwp Hwe Hseg. apply (en_longer _ _ _ Hen); try done.
    destruct (operations_origin (st_Spec tmpl) v exceptions policies (EffectivePath op, EffectiveMethod op)) as [Hin'|]; [by rewrite Hop1| |done].
    exfalso. revert Hin'. apply Hnot. intros HE. apply denied_spec. exists (EffectivePath op). split; [by apply elem_of_list_to_set|by left].
Qed.

End Denied.

(** ** Concrete providers *)

#[local] Existing Instance RegistryRange_list.
#[local] Existing Instance MapRange_list.
#[local] Existing Instance fragmentEngine.

Definition sampleUp : upstreamClusterResult := mkUpstreamClusterResult "upstream_main_api.openai.com_443" "main" "/" "https://api.openai.com".
Definition sampleConfig : TranslatorConfig := mkTranslatorConfig 60000 300000 false.

(** The name of the route that Envoy takes. *)
Definition takenRoute (o : Outcome unit RestAPI) (method path : string) : option string :=
  match o with
  | Ok _ api => er_Name <$> List.find (takes method path)
      (SortRoutesByPriority (imap (operationRoute sampleConfig "RestApi" ∅ (ra_Spec api) sampleUp None "*") (acd_Operations (ra_Spec api))))
  | _ => None
  end.

Lemma enforceable_sample : enforceable (st_Spec (sampleTemplate ["/chat/completions"; "/models"]))
  [mkRouteException ["POST"] "/chat/*"; mkRouteException ["POST"] "/chat/completions"] [samplePolicy "guard" "/*" ["POST"]].
Proof.
  assert (forall l : list string, forallb isPlain l = true -> Forall plainPath l) as Hplain.
  { intros l Hl. apply Forall_forall. intros p Hp%list_elem_of_In. apply isPlain_plain. by eapply List.forallb_forall in Hl. }
  split.
  - apply (Forall_fmap rx_Path), Hplain. by vm_compute.
  - apply (Forall_fmap fst), Hplain. by vm_compute.
  - cbn [resourcesOf sampleTemplate st_Spec ltd_ResourceMappings fmap list_fmap].
    apply Forall_cons; split; [|apply Forall_cons; split; [|by apply Forall_nil]]; (split; [by apply isPlain_plain|]); cbn [trm_Resource].
    + intros method (e & He & _)%denied_spec. apply elem_of_list_to_set in He. cbn in He |- *. set_solver.
    + intros method (e & He & Hc)%denied_spec. apply elem_of_list_to_set in He. cbn in He. exfalso.
      apply elem_of_cons in He as [[= -> _]|[[= -> _]|He%not_elem_of_nil]%elem_of_cons]; [..|done]; by destruct Hc.
  - intros ex w Hex Hwe Hw Hww _. apply elem_of_cons in Hex as [->|[->|Hex%not_elem_of_nil]%elem_of_cons]; [by vm_compute in Hwe| |done].
    assert (w = "/*") as ->; [|cbn; lia]. destruct Hw as [?|[Hw|Hw]]; [done|cbn in Hw; set_solver|].
    cbn in Hw. apply elem_of_cons in Hw as [->|[->|Hw%not_elem_of_nil]%elem_of_cons]; [by vm_compute in Hww..|done].
Qed.

(** A request under the wildcard of an exception, for a resource that nobody
    named. *)
Lemma allow_all_denies_exceptions_witness :
  exists api i op, transformProvider sampleResources allowAllProvider tt = Ok tt api /\
    acd_Operations (ra_Spec api) !! i = Some op /\ denies "v0" op /\
    List.find (takes "POST" "/openai/chat/moderations")
      (SortRoutesByPriority (imap (operationRoute sampleConfig "RestApi" ∅ (ra_Spec api) sampleUp None "*") (acd_Operations (ra_Spec api))))
      = Some (operationRoute sampleConfig "RestApi" ∅ (ra_Spec api) sampleUp None "*" i op).
Proof.
  assert (match transformProvider sampleResources allowAllProvider tt with Ok _ api => String.eqb (contextOf (ra_Spec api)) "/openai" | _ => false end = true) as Hs
    by (vm_compute; reflexivity).
  destruct (transformProvider sampleResources allowAllProvider tt) as [[] api| |] eqn:Hapi; [|discriminate Hs|discriminate Hs]. apply String.eqb_eq in Hs.
  destruct (allow_all_denies_exceptions sampleResources allowAllProvider tt api _ sampleConfig "RestApi" ∅ sampleUp None "*" Hapi eq_refl eq_refl enforceable_sample)
    as (v & Hv & Hd).
  assert (v = "v0") as ->. { assert (@inr string string v = inr "v0") as [= ->]; [|done]. rewrite <- Hv; [by vm_compute|done]. }
  destruct (Hd (mkRouteException ["POST"] "/chat/*") "POST" "/openai/chat/moderations") as (i & op & Hi & Hden & Hf); [by left|by left| |].
  - rewrite Hs. right. exists "moderations". split; reflexivity.
  - exists api, i, op. split_and!; [reflexivity|exact Hi|exact Hden|exact Hf].
Defined.

(** A defect: an exception on a short path is not enforced.  Envoy's matchers
    are compared by their length, and that of the catch-all is longer. *)
Example short_exception_is_not_enforced :
  let o := transformProvider (sampleTransformer []) (sampleProvider "allow_all" [mkRouteException ["POST"] "/chat"] []) tt in
  served o = [("POST", "/chat", ["respond"]); ("DELETE", "/*", []); ("GET", "/*", []); ("OPTIONS", "/*", []); ("PATCH", "/*", []); ("POST", "/*", []); ("PUT", "/*", [])] /\
  takenRoute o "POST" "/openai/chat" = Some "POST|/openai/*|*".
Proof. vm_compute. split; reflexivity. Qed.

(** A defect: a policy on a path with a parameter creates an operation that
    takes requests an exception denies by its wildcard. *)
Example parameter_escapes_denied_wildcard :
  let o := transformProvider (sampleTransformer [])
    (sampleProvider "allow_all" [mkRouteException ["POST"] "/chat/*"] [samplePolicy "guard" "/{version}/completions" ["POST"]]) tt in
  takenRoute o "POST" "/openai/chat/completions" = Some "POST|/openai/{version}/completions|*" /\
  ("POST", "/{version}/completions", ["guard"]) ∈ served o.
Proof. split; [vm_compute; reflexivity|]. apply (bool_decide_unpack _). vm_compute. exact I. Qed.
