(* ===== verification/LlmDeterminism.v ===== *)
(** * LlmDeterminism: the derived API does not depend on map order

    The operations under construction are a map that the transformer iterates
    while it adds to it.  The policies of an attachment land on the same
    operations whatever the order, as long as no attached policy is the deny
    policy itself, and the final sort removes what is left of the order; with
    an attached deny policy the order shows. *)

From stdpp Require Import base gmap strings list fin_maps sorting.
From S2P Require Import Prelude GoStrings GoSort Values Routes ManagementApi PolicyVersions ConfigStore LlmTransform RouteTheorems LlmTheorems.

#[local] Set Warnings "-register-all".

Open Scope string_scope.

(** ** One attachment and one method *)

Section Attachment.
Variable templateSpec : LLMProviderTemplateData.
Variable v : string.
Variable att : llmPolicyAttachment.
Variable m : string.

(** Attaching the policy denies nothing. *)
Definition harmless : Prop := v = "" \/ lop_Name (at_policy att) <> ACCESS_CONTROL_DENY_POLICY_NAME.
Hypothesis Hharmless : harmless.

(** The registry before the attachment. *)
Variable reg0 : OperationRegistry.

Definition denyOf (reg : OperationRegistry) (k : pathMethodKey) : bool := match reg !! k with Some op => hasDenyPolicy op v | None => false end.

Lemma denyApplies_spec x reg : denyAppliesToTarget x m v reg = true <-> v <> "" /\ exists p, denyOf reg (p, m) = true /\ pathsMatch x p = true.
Proof.
  unfold denyAppliesToTarget. destruct (String.eqb_spec v "") as [|Hv]; [naive_solver|]. rewrite existsb_exists. split.
  - intros ([[p m'] op] & Hin & Hb). cbn [fst snd] in Hb. apply andb_true_iff in Hb as [[->%String.eqb_eq Hd]%andb_true_iff Hp].
    apply list_elem_of_In, elem_of_map_to_list in Hin. split; [done|]. exists p. unfold denyOf. by rewrite Hin.
  - intros [_ (p & Hd & Hp)]. unfold denyOf in Hd. destruct (reg !! (p, m)) as [op|] eqn:E; [|done]. exists ((p, m), op).
    split; [by apply list_elem_of_In, elem_of_map_to_list|]. cbn [fst snd]. by rewrite String.eqb_refl, Hd, Hp.
Qed.

Lemma denyApplies_ext x reg reg' : (forall k, denyOf reg k = denyOf reg' k) -> denyAppliesToTarget x m v reg = denyAppliesToTarget x m v reg'.
Proof. intros He. apply eq_true_iff_eq. rewrite !denyApplies_spec. by setoid_rewrite He. Qed.

Lemma harmless_append x op : hasDenyPolicy (appendOperationPolicy (attachedPolicy templateSpec att x) op) v = hasDenyPolicy op v.
Proof.
  unfold hasDenyPolicy. cbn. destruct (String.eqb_spec v "") as [|Hv]; [by destruct (op_Policies op)|].
  rewrite existsb_app. cbn. destruct Hharmless as [|Hn]; [done|]. apply String.eqb_neq in Hn. rewrite Hn. cbn. rewrite orb_false_r.
  by destruct (op_Policies op).
Qed.

(** The targets that get the policy unless a deny policy applies. *)
Definition active (x : string) : bool := negb (moreSpecificPolicyAttachmentCovers x m att).

(** The operation of a target, at the end. *)
Definition finalOperation (x : string) : Operation :=
  let op := default (newOperation x m) (reg0 !! (x, m)) in
  if denyAppliesToTarget x m v reg0 then op else appendOperationPolicy (attachedPolicy templateSpec att x) op.

(** The registry after the targets [X]. *)
Definition finalLookup (X : gset string) (k : pathMethodKey) : option Operation :=
  if decide (k.2 = m /\ k.1 ∈ X /\ active k.1 = true) then Some (finalOperation k.1) else reg0 !! k.

Definition settled (X : gset string) (st : OperationRegistry * gset string) : Prop :=
  (forall k, st.1 !! k = finalLookup X k) /\
  (forall x, x ∈ st.2 <-> x ∈ X /\ active x = true /\ denyAppliesToTarget x m v reg0 = false).

Lemma finalOperation_deny x : hasDenyPolicy (finalOperation x) v = denyOf reg0 (x, m).
Proof.
  unfold finalOperation, denyOf. assert (hasDenyPolicy (default (newOperation x m) (reg0 !! (x, m))) v = denyOf reg0 (x, m)) as E.
  { unfold denyOf. by destruct (reg0 !! (x, m)). }
  destruct (denyAppliesToTarget _ _ _ _); [|rewrite harmless_append]; exact E.
Qed.

Lemma settled_deny X st k : settled X st -> denyOf st.1 k = denyOf reg0 k.
Proof.
  intros [Hl _]. unfold denyOf at 1. rewrite Hl. unfold finalLookup. case_decide as Hd; [|done]. destruct k as [p m']. cbn [fst snd] in *.
  destruct Hd as (-> & _ & _). apply finalOperation_deny.
Qed.

Lemma ensure_deny x reg k : denyOf (ensureOperation x m reg) k = denyOf reg k.
Proof. unfold denyOf. rewrite ensure_lookup. case_decide as Hd; [subst k|done]. by destruct (reg !! (x, m)). Qed.

Lemma settled_empty : settled ∅ (reg0, ∅).
Proof. clear Hharmless. split; [intros k; unfold finalLookup; rewrite decide_False; [done|set_solver]|set_solver]. Qed.

(** The targets count, not how often or in what order they come. *)
Lemma settled_ext X X' st : (forall x, active x = true -> x ∈ X <-> x ∈ X') -> settled X st -> settled X' st.
Proof.
  intros HX [Hl HA]. split.
  - intros k. rewrite Hl. unfold finalLookup. repeat case_decide; try done; exfalso; naive_solver.
  - intros x. rewrite HA. naive_solver.
Qed.

Lemma attachTarget_settled X st x : settled X st -> settled ({[x]} ∪ X) (attachTarget templateSpec v att m st x).
Proof.
  intros Hs. unfold attachTarget. destruct st as [reg A]. pose proof Hs as [Hl HA]. cbn [fst snd] in *. case_bool_decide as Hx.
  { eapply settled_ext; [|exact Hs]. apply HA in Hx. set_solver. }
  destruct (moreSpecificPolicyAttachmentCovers x m att) eqn:Ec.
  { eapply settled_ext; [|exact Hs]. unfold active. intros y Hy. destruct (decide (y = x)) as [->|]; [by rewrite Ec in Hy|set_solver]. }
  assert (active x = true) as Ha by (unfold active; by rewrite Ec). cbv zeta.
  rewrite (denyApplies_ext x _ reg0) by (intros k; rewrite ensure_deny; exact (settled_deny X _ k Hs)).
  assert (forall k, k <> (x, m) -> finalLookup ({[x]} ∪ X) k = finalLookup X k) as Hother.
  { intros [p m'] Hk. unfold finalLookup. cbn [fst snd]. repeat case_decide; try done; exfalso; set_solver. }
  assert (finalLookup ({[x]} ∪ X) (x, m) = Some (finalOperation x)) as Hthis.
  { unfold finalLookup. rewrite decide_True; [done|]. set_solver. }
  destruct (denyAppliesToTarget x m v reg0) eqn:Ed; split; cbn [fst snd].
  - intros k. rewrite ensure_lookup. case_decide as Hk; [subst k|by rewrite Hl, Hother]. rewrite Hthis, Hl. unfold finalLookup.
    case_decide; [done|]. cbn [default]. unfold finalOperation. by rewrite Ed.
  - intros y. rewrite HA. destruct (decide (y = x)) as [->|]; [|set_solver]. split; [set_solver|]. intros (_ & _ & Hd). congruence.
  - assert (x ∉ X) as HxX by (intros HxX; apply Hx, HA; done).
    intros k. rewrite lookup_alter. case_decide as Hk; [subst k|rewrite ensure_lookup, decide_False by done; by rewrite Hl, Hother].
    rewrite Hthis, ensure_lookup, decide_True, Hl by done. unfold finalLookup. rewrite decide_False by (intros (_ & Hin & _); done).
    cbn [fmap option_fmap option_map]. unfold finalOperation. by rewrite Ed.
  - intros y. rewrite !elem_of_union, !elem_of_singleton, HA. destruct (decide (y = x)) as [->|Hne]; [split; auto|].
    split; [intros [|(? & ? & ?)]; [done|auto]|intros ([|] & ? & ?); [done|auto]].
Qed.

Lemma attachTargets_settled X st l : settled X st -> settled (list_to_set l ∪ X) (foldl (attachTarget templateSpec v att m) st l).
Proof.
  revert X st. induction l as [|x l IH]; intros X st Hs; cbn [foldl list_to_set]; [by cbn [list_to_set]; rewrite (left_id_L ∅ (∪))|].
  replace ({[x]} ∪ list_to_set l ∪ X) with (list_to_set l ∪ ({[x]} ∪ X)) by set_solver. by apply IH, attachTarget_settled.
Qed.

(** The targets of an operation. *)
Definition targetsOf (opPath : string) : list string :=
  if (negb (String.eqb v "") && denyOf reg0 (opPath, m)) || negb (pathsMatch opPath (opp_Path (at_pathEntry att))) then []
  else expandPolicyTargetPaths opPath templateSpec.

Lemma attachOperation_settled X st p : is_Some (reg0 !! (p, m)) -> settled X st ->
  settled (list_to_set (targetsOf p) ∪ X) (attachOperation templateSpec v att m st p).
Proof.
  intros Hp Hs. pose proof (settled_deny _ _ (p, m) Hs) as Hd. unfold attachOperation, targetsOf.
  assert (is_Some (st.1 !! (p, m))) as [op Hop].
  { destruct Hs as [Hl _]. rewrite Hl. unfold finalLookup. case_decide; [done|]. exact Hp. }
  rewrite Hop. unfold denyOf at 1 in Hd. rewrite Hop in Hd. rewrite Hd. destruct (_ && _); cbn [orb]; [by cbn [list_to_set]; rewrite (left_id_L ∅ (∪))|].
  destruct (pathsMatch _ _); cbn [negb]; [by apply attachTargets_settled|by cbn [list_to_set]; rewrite (left_id_L ∅ (∪))].
Qed.

Lemma attachOperations_settled X st ps : (forall p, p ∈ ps -> is_Some (reg0 !! (p, m))) -> settled X st ->
  settled (list_to_set (ps ≫= targetsOf) ∪ X) (foldl (attachOperation templateSpec v att m) st ps).
Proof.
  revert X st. induction ps as [|p ps IH]; intros X st Hps Hs; cbn [foldl]; [cbn; by rewrite (left_id_L ∅ (∪))|].
  rewrite bind_cons, list_to_set_app_L.
  replace (list_to_set (targetsOf p) ∪ list_to_set (ps ≫= targetsOf) ∪ X) with (list_to_set (ps ≫= targetsOf) ∪ (list_to_set (targetsOf p) ∪ X)) by set_solver.
  apply IH; [set_solver|]. apply attachOperation_settled; [apply Hps; left|done].
Qed.

End Attachment.

(** ** Two orders *)

Lemma getOperations_elem (R : RegistryRange) reg m p : p ∈ @getOperationsForMethod R reg m <-> is_Some (reg !! (p, m)).
Proof.
  unfold getOperationsForMethod. rewrite list_elem_of_fmap. setoid_rewrite list_elem_of_filter. setoid_rewrite rangeOps_perm. split.
  - intros ([[p' m'] op] & -> & Hm & Hin%elem_of_map_to_list). cbn in *. subst m'. eauto.
  - intros [op Hop]. exists ((p, m), op). split_and!; [done..|by apply elem_of_map_to_list].
Qed.

Lemma shouldAttachPathBefore_weakOrder {A} (f : A -> string) : WeakOrder (fun a b => shouldAttachPathBefore (f a) (f b)).
Proof.
  set (wild := fun a => if hasWildcard (f a) then 0%Z else 1%Z). set (len := fun a => Z.of_nat (String.length (f a))).
  assert (forall a b, shouldAttachPathBefore (f a) (f b) =
    if negb (wild a =? wild b)%Z then (wild a <? wild b)%Z
    else if negb (len a =? len b)%Z then (len a <? len b)%Z
    else if negb (String.eqb (f a) (f b)) then string_less (f a) (f b) else false) as Hb.
  { intros a b. unfold shouldAttachPathBefore, wild, len.
    destruct (hasWildcard (f a)), (hasWildcard (f b)); cbn [negb Bool.eqb Z.eqb Z.ltb Z.compare Pos.eqb Pos.compare Pos.compare_cont]; try done.
    all: rewrite of_nat_eqb, of_nat_ltb; destruct (negb (_ =? _)%nat); [done|].
    all: destruct (String.eqb_spec (f a) (f b)) as [->|]; cbn [negb]; [|done]; apply (less_irrefl string_less). }
  pose proof (weakOrder_lex wild _ (weakOrder_lex len _ (weakOrder_lex_string f (fun _ _ => false)
    (Build_WeakOrder A (fun _ _ => false) (fun _ _ _ => eq_refl) (fun _ _ _ _ _ => eq_refl))))) as [Ha Hn].
  split; intros *; rewrite !Hb; [apply Ha|apply Hn].
Qed.

Lemma orderedAttachments_perm policies :
  orderedLLMPolicyAttachments policies ≡ₚ concat ((fun llmPol => mkAttachment llmPol <$> lop_Paths llmPol) <$> policies).
Proof. apply stableSort_perm, (shouldAttachPathBefore_weakOrder (fun a => opp_Path (at_pathEntry a))). Qed.

Section Orders.
Variables R1 R2 : RegistryRange.
Variable templateSpec : LLMProviderTemplateData.
Variable v : string.
Variable denied : gset pathMethodKey.

Lemma attachMethod_order att reg m : harmless v att -> @attachMethod R1 templateSpec v denied att reg m = @attachMethod R2 templateSpec v denied att reg m.
Proof.
  intros Hh. unfold attachMethod. destruct (isDeniedByException _ _ _); [done|].
  pose proof (fun R => attachOperations_settled templateSpec v att m Hh reg ∅ (reg, ∅) (@getOperationsForMethod R reg m)
    (fun p => proj1 (getOperations_elem R reg m p)) (settled_empty templateSpec v att m reg)) as Hs.
  apply map_eq. intros k. destruct (Hs R1) as [-> _].
  assert (settled templateSpec v att m reg (list_to_set (@getOperationsForMethod R1 reg m ≫= targetsOf templateSpec v att m reg) ∪ ∅)
    (foldl (attachOperation templateSpec v att m) (reg, ∅) (@getOperationsForMethod R2 reg m))) as [-> _]; [|done].
  eapply settled_ext, (Hs R2). intros x _. rewrite !elem_of_union, !elem_of_list_to_set, !list_elem_of_bind.
  by setoid_rewrite getOperations_elem.
Qed.

Lemma attachPolicies_order policies shouldRegister reg :
  Forall (fun p => v = "" \/ lop_Name p <> ACCESS_CONTROL_DENY_POLICY_NAME) policies ->
  @attachPolicies R1 templateSpec v denied policies shouldRegister reg = @attachPolicies R2 templateSpec v denied policies shouldRegister reg.
Proof.
  intros Hp. unfold attachPolicies. generalize (registerExplicitLLMPolicyOperations policies shouldRegister reg) as r.
  assert (Forall (harmless v) (orderedLLMPolicyAttachments policies)) as Hh.
  { rewrite orderedAttachments_perm. apply Forall_forall. intros att Hin.
    apply list_elem_of_In, in_concat in Hin as (l & Hl%list_elem_of_In & Hatt%list_elem_of_In). apply list_elem_of_fmap in Hl as (p & -> & Hpol).
    apply list_elem_of_fmap in Hatt as (pe & -> & _). exact (proj1 (Forall_forall _ _) Hp p Hpol). }
  induction Hh as [|att l Ha _ IH]; intros r; [done|]. cbn [foldl]. rewrite IH. f_equal. unfold attachOne.
  generalize (expandLLMPolicyMethods (opp_Methods (at_pathEntry att))) as ms. intros ms. revert r.
  induction ms as [|m ms IHm]; intros r; [done|]. cbn [foldl]. by rewrite IHm, attachMethod_order.
Qed.

End Orders.

(** *** The sorted operations *)

Lemma operationsOf_order (R1 R2 : RegistryRange) reg : wellKeyed reg ->
  sortOperationsBySpecificity (@operationsOf R1 reg) = sortOperationsBySpecificity (@operationsOf R2 reg).
Proof.
  intros Hw. assert (forall R, @operationsOf R reg ≡ₚ (map_to_list reg).*2) as Hp by (intros R; unfold operationsOf; by rewrite rangeOps_perm).
  apply sort_unique; [by rewrite !Hp|]. rewrite Hp. rewrite <- list_fmap_compose.
  replace ((_ ∘ snd) <$> map_to_list reg) with ((map_to_list reg).*1); [apply NoDup_fst_map_to_list|].
  apply list_fmap_ext. intros i [k op] Hi%list_elem_of_lookup_2%elem_of_map_to_list. cbn.
  destruct (wellKeyed_effective _ _ _ Hw Hi) as [-> ->]. by destruct k.
Qed.

(** Every registry of the transformer is well keyed. *)
Lemma attachPolicies_keyed `{RegistryRange} templateSpec v denied policies shouldRegister reg : wellKeyed reg ->
  wellKeyed (attachPolicies templateSpec v denied policies shouldRegister reg).
Proof. intros Hw. eapply (grows_keyed (fun _ => True)), Hw. by apply attachPolicies_grows. Qed.

Lemma baseRegistry_keyed : wellKeyed baseRegistry.
Proof. intros k op. rewrite baseRegistry_lookup. case_decide; [|done]. by intros [= <-]. Qed.

Lemma exceptionRegistry_keyed (keys : gset pathMethodKey) : wellKeyed (set_to_map (fun key => (key, newOperation key.1 key.2)) keys).
Proof. intros k op Hop. apply lookup_set_to_map in Hop as (k' & _ & [= <- <-]); [done|]. by intros y y' _ _. Qed.

(** ** The transformer *)

Section Transform.
Variables R1 R2 : RegistryRange.
Variable t : LLMProviderTransformer.

(** No attached policy is the deny policy, if there are operations it would
    be told apart from. *)
Definition noDenyAttached (provider : LLMProviderConfiguration) : Prop :=
  lac_Mode (lp_AccessControl provider) = "allow_all" -> default [] (lac_Exceptions (lp_AccessControl provider)) <> [] ->
  Forall (fun p => lop_Name p <> ACCESS_CONTROL_DENY_POLICY_NAME)
    (collectOperationLevelLLMPolicies (lp_OperationPolicies provider) (lp_Policies provider)).

Lemma registry_order (reg1 reg2 : OperationRegistry) : reg1 = reg2 -> wellKeyed reg1 ->
  sortOperationsBySpecificity (@operationsOf R1 reg1) = sortOperationsBySpecificity (@operationsOf R2 reg2).
Proof. intros <-. apply operationsOf_order. Qed.

Lemma allowAll_order templateSpec v exceptions policies :
  Forall (fun p => v = "" \/ lop_Name p <> ACCESS_CONTROL_DENY_POLICY_NAME) policies ->
  sortOperationsBySpecificity (@operationsOf R1 (@allowAllRegistry R1 templateSpec v exceptions policies)) =
  sortOperationsBySpecificity (@operationsOf R2 (@allowAllRegistry R2 templateSpec v exceptions policies)).
Proof.
  intros Hp. apply registry_order; [by apply attachPolicies_order|]. apply attachPolicies_keyed. apply denyOperations_spec.
Qed.

Lemma harmless_unversioned policies : Forall (fun p => "" = "" \/ lop_Name p <> ACCESS_CONTROL_DENY_POLICY_NAME) policies.
Proof. apply Forall_true. by left. Qed.

Lemma denyAll_order templateSpec exceptions policies :
  sortOperationsBySpecificity (@operationsOf R1 (@denyAllRegistry R1 templateSpec exceptions policies)) =
  sortOperationsBySpecificity (@operationsOf R2 (@denyAllRegistry R2 templateSpec exceptions policies)).
Proof.
  apply registry_order; [apply attachPolicies_order, harmless_unversioned|]. apply attachPolicies_keyed, exceptionRegistry_keyed.
Qed.

Lemma proxy_order templateSpec policies :
  sortOperationsBySpecificity (@operationsOf R1 (@proxyRegistry R1 templateSpec policies)) =
  sortOperationsBySpecificity (@operationsOf R2 (@proxyRegistry R2 templateSpec policies)).
Proof.
  unfold proxyRegistry. pose proof baseRegistry_keyed as Hb. revert Hb. generalize baseRegistry as reg. intros reg Hb.
  apply registry_order; [apply attachPolicies_order, harmless_unversioned|by apply attachPolicies_keyed].
Qed.

(** The outcomes agree on the operations once sorted. *)
Definition sortedOutcome (o : Outcome unit (list Operation * gset pathMethodKey)) : Outcome unit (list Operation * gset pathMethodKey) :=
  match o with Ok s (ops, keys) => Ok s (sortOperationsBySpecificity ops, keys) | Err s e => Err s e | Panic => Panic end.

Lemma providerOperations_order provider templateSpec s : noDenyAttached provider ->
  sortedOutcome (@providerOperations R1 t provider templateSpec s) = sortedOutcome (@providerOperations R2 t provider templateSpec s).
Proof.
  intros Hn. unfold providerOperations, mbind, GoM_bind, mret, GoM_ret, lift_err. unfold noDenyAttached in Hn.
  destruct (String.eqb_spec (lac_Mode (lp_AccessControl provider)) "allow_all") as [Hm|_].
  - specialize (Hn Hm). set (exceptions := default [] _) in *. destruct exceptions as [|ex exs] eqn:E.
    + cbn [sortedOutcome]. by rewrite allowAll_order by apply harmless_unversioned.
    + destruct (llm_resolvePolicyVersion t _) as [e|v]; [done|]. unfold mret, GoM_ret. cbn [sortedOutcome]. rewrite allowAll_order; [done|].
      eapply Forall_impl; [by apply Hn|]. by right.
  - destruct (String.eqb _ "deny_all"); [|done]. cbn [sortedOutcome]. by rewrite denyAll_order.
Qed.

Lemma transformProvider_order provider s : noDenyAttached provider -> @transformProvider R1 t provider s = @transformProvider R2 t provider s.
Proof.
  intros Hn. unfold transformProvider, mbind, GoM_bind. destruct (lift_err _ s) as [s1 tmpl| |]; [|done..].
  destruct (providerAuthPolicy t _ s1) as [s2 auth| |]; [|done..]. pose proof (providerOperations_order provider (st_Spec tmpl) s2 Hn) as Ho.
  destruct (@providerOperations R1 _ _ _ _) as [? [ops1 k1]| |], (@providerOperations R2 _ _ _ _) as [? [ops2 k2]| |]; cbn [sortedOutcome] in Ho; try done.
  - injection Ho as -> Ho ->. by rewrite Ho.
  - by injection Ho as -> ->.
Qed.

Lemma sum_bind_ext {A B} (r : string + A) (f g : A -> string + B) : (forall a, f a = g a) -> sum_bind r f = sum_bind r g.
Proof. intros E. destruct r; [done|]. apply E. Qed.

Lemma transformProxy_order proxy : @transformProxy R1 t proxy = @transformProxy R2 t proxy.
Proof.
  unfold transformProxy. apply sum_bind_ext. intros [provider|]; [|done]. destruct (sc_SourceConfiguration provider) as [|providerConfig| | |]; try done.
  apply sum_bind_ext. intros tmpl. apply sum_bind_ext. intros ctx. apply sum_bind_ext. intros [defs prefixes]. apply sum_bind_ext. intros [pols host].
  apply sum_bind_ext. intros auths. apply sum_bind_ext. intros [more trs]. by rewrite proxy_order.
Qed.

(** C40: the REST API that an LLM provider or proxy becomes is a function of
    its configuration: any two orders in which the map of operations is
    iterated, on each of the many times it is, give the same outcome, error
    or API.  The policies that a provider which allows all with exceptions
    attaches are not the deny policy. *)
Theorem transform_ignores_map_order input s :
  match input with CfgLLMProvider provider => noDenyAttached provider | _ => True end ->
  @LLMProviderTransformer_Transform R1 t input s = @LLMProviderTransformer_Transform R2 t input s.
Proof.
  intros Hn. destruct input as [|provider|proxy| |]; [reflexivity| | |reflexivity|reflexivity]; cbn [LLMProviderTransformer_Transform].
  - by apply transformProvider_order.
  - by rewrite transformProxy_order.
Qed.

End Transform.

(** ** Concrete providers *)

(** The map iterated from its other end. *)
Lemma reversed_perm {A} (m : gmap pathMethodKey A) : reverse (map_to_list m) ≡ₚ map_to_list m.
Proof. apply reverse_Permutation. Qed.

Definition RegistryRange_reversed : RegistryRange := {|
  rangeOps A m := reverse (map_to_list m);
  rangeOps_perm A m := reversed_perm m
|}.

(** A provider that attaches the deny policy itself, to every path: once the
    catch-all has it, it applies to all other paths. *)
Definition denyingProvider : LLMProviderConfiguration :=
  sampleProvider "allow_all" [mkRouteException ["POST"] "/admin"]
    [samplePolicy "guard" "/models" ["POST"]; mkOperationPolicy None "respond" [mkOperationPolicyPath ["POST"] ∅ "/*"] "v0"].

Definition sampleAPI (R : RegistryRange) (t : LLMProviderTransformer) (p : LLMProviderConfiguration) : Outcome unit RestAPI :=
  @LLMProviderTransformer_Transform R t (CfgLLMProvider p) tt.

(** The hypothesis on the attached policies is needed: with the deny policy
    attached by the user the operations differ between the two orders. *)
Example attached_deny_policy_shows_the_order :
  served (sampleAPI RegistryRange_list (sampleTransformer []) denyingProvider) <>
  served (sampleAPI RegistryRange_reversed (sampleTransformer []) denyingProvider).
Proof. by vm_compute. Qed.

(** A provider with exceptions and a guard on every path. *)
Lemma transform_ignores_map_order_witness :
  sampleAPI RegistryRange_list sampleResources allowAllProvider = sampleAPI RegistryRange_reversed sampleResources allowAllProvider /\
  served (sampleAPI RegistryRange_reversed sampleResources allowAllProvider) <> [].
Proof.
  split; [|by vm_compute]. apply (transform_ignores_map_order RegistryRange_list RegistryRange_reversed sampleResources (CfgLLMProvider allowAllProvider) tt).
  intros _ _. apply Forall_cons. split; [done|]. apply Forall_nil. done.
Defined.
