(* ===== verification/ApiValidatorTheorems.v ===== *)
(** * ApiValidatorTheorems: what validation guarantees

    An accepted REST API can be transformed, except for three combinations
    that the validator does not look at, and every upstream definition of an
    accepted API is one the engine can be directed to by name. *)

From stdpp Require Import base gmap strings list fin_maps.
From Stdlib Require Import Ascii.
From S2P Require Import Prelude GoStrings GoDuration Version Values Registry ChainBuild Routes ManagementApi PolicyVersions RestTransform RuntimeSnapshot ApiValidator RouteTheorems RestTransformTheorems SnapshotTheorems.

#[local] Set Warnings "-register-all".

Open Scope string_scope.

(** ** Empty lists of errors *)

Lemma errorIf_nil c f m : errorIf c f m = [] <-> c = false.
Proof. by destruct c. Qed.

Lemma concat_imap_nil {A B} (f : nat -> A -> list B) l : concat (imap f l) = [] -> forall x, x ∈ l -> exists i, f i x = [].
Proof.
  intros Hc x [i Hi]%list_elem_of_lookup. exists i. eapply (concat_nil_elem _ _ Hc), list_elem_of_lookup. exists i.
  by rewrite list_lookup_imap, Hi.
Qed.

(** Splits the emptiness of a list of errors into that of its parts. *)
Ltac no_errors :=
  repeat match goal with
  | H : (_ ++ _)%list = [] |- _ => apply app_nil in H as [? ?]
  | H : errorIf _ _ _ = [] |- _ => apply errorIf_nil in H
  | H : negb _ = false |- _ => apply negb_false_iff in H
  | H : _ && _ = false |- _ => apply andb_false_iff in H
  | H : _ || _ = false |- _ => apply orb_false_iff in H as [? ?]
  | H : String.eqb _ _ = true |- _ => apply String.eqb_eq in H
  | H : String.eqb _ _ = false |- _ => apply String.eqb_neq in H
  end.

(** ** What is known of an accepted definition *)

Section Accepted.
Context `{MapRange} `{UrlParser} `{JSONSchema}.

Definition webUrl (s : string) (u : URL) : Prop :=
  url_Parse s = inr u /\ (u_Scheme u = "http" \/ u_Scheme u = "https") /\ u_Host u <> "".

(** A connect timeout, if there is one, is a duration. *)
Definition connectOf (def : UpstreamDefinition) : option string := default None (ud_Timeout def).
Definition acceptedTimeout (def : UpstreamDefinition) : Prop :=
  forall c, connectOf def = Some c -> TrimSpace c <> "" -> exists d, ParseDuration (TrimSpace c) = inr d /\ (0 <= d)%Z.

Record accepted (def : UpstreamDefinition) : Prop := mkAccepted {
  acc_name : upstreamDefinitionNameRegex (ud_Name def) = true;
  acc_some : ud_Upstreams def <> [];
  acc_urls : Forall (fun up => ut_Url up <> "" /\ exists u, webUrl (ut_Url up) u) (ud_Upstreams def);
  acc_timeout : acceptedTimeout def
}.

Lemma webUrl_valid s field u rest : url_Parse s = inr u ->
  (errorIf (negb (String.eqb (u_Scheme u) "http") && negb (String.eqb (u_Scheme u) "https")) field rest = [] /\ String.eqb (u_Host u) "" = false) ->
  webUrl s u.
Proof.
  intros Hu [He Hh]. no_errors. split_and!; [done| |done]. destruct He as [He|He]; no_errors; auto.
Qed.

Lemma validateTarget_accepts prefix up : validateTarget prefix up = [] -> ut_Url up <> "" /\ exists u, webUrl (ut_Url up) u.
Proof.
  unfold validateTarget, validateTargetUrl. destruct (String.eqb (ut_Url up) "") eqn:E; [done|]. intros [Hu _]%app_nil.
  split; [by apply String.eqb_neq|]. destruct (url_Parse (ut_Url up)) as [e|u] eqn:Hp; [done|]. exists u.
  apply app_nil in Hu as [Hs [Hh%errorIf_nil _]%app_nil]. by eapply webUrl_valid.
Qed.

Lemma duration_accepted s : ResilienceDurationRegex s = true -> forall d, ParseDuration s = inr d -> (0 <= d)%Z.
Proof. intros Hr d. by apply ParseDuration_nonneg, resilience_head. Qed.

Lemma validateConnectTimeout_accepts field def : validateConnectTimeout field (ud_Timeout def) = [] -> acceptedTimeout def.
Proof.
  unfold validateConnectTimeout, acceptedTimeout, connectOf. destruct (ud_Timeout def) as [[c|]|]; simpl; [|done..].
  intros Hv c' [= <-] Hne%String.eqb_neq. rewrite Hne in Hv. destruct (ResilienceDurationRegex _) eqn:Hr; [|done]. simpl in Hv.
  destruct (ParseDuration _) as [e|d] eqn:Hd; [done|]. exists d. split; [done|]. by eapply duration_accepted.
Qed.

Lemma validateDefinition_accepts prefix def :
  upstreamDefinitionNameRegex (ud_Name def) = true -> validateDefinition prefix def = [] -> accepted def.
Proof.
  intros Hn [_ [Hs [Ht Hc]%app_nil]%app_nil]%app_nil. split; [done|by destruct (ud_Upstreams def)| |by eapply validateConnectTimeout_accepts].
  apply Forall_forall. intros up [i Hi]%(concat_imap_nil _ _ Ht). by eapply validateTarget_accepts.
Qed.

Lemma validateDefinitions_accepts prefix defs : forall i seen, validateDefinitionsFrom prefix i seen defs = [] ->
  Forall accepted defs /\ NoDup (ud_Name <$> defs) /\ Forall (.∉ seen) (ud_Name <$> defs).
Proof.
  induction defs as [|def defs IH]; intros i seen; cbn [validateDefinitionsFrom]; [intros _; split_and!; constructor|].
  destruct (String.eqb (ud_Name def) ""); [done|]. intros [_ [Hn%errorIf_nil%negb_false_iff HE]%app_nil]%app_nil.
  case_decide as Hs; [done|]. apply app_nil in HE as [Hd HE]. apply IH in HE as (Ha & Hnd & Hseen). split_and!.
  - constructor; [|done]. by eapply validateDefinition_accepts.
  - constructor; [|done]. intros Hin. rewrite Forall_forall in Hseen. by apply (Hseen _ Hin), elem_of_union_l, elem_of_singleton.
  - constructor; [done|]. eapply Forall_impl; [exact Hseen|]. set_solver.
Qed.

(** ** What makes an accepted definition undeployable *)

(** All targets use the same scheme, and the connect timeout is not zero. *)
Definition isTls (up : UpstreamTarget) : bool := match url_Parse (ut_Url up) with inr u => String.eqb (u_Scheme u) "https" | inl _ => false end.
Definition uniform (def : UpstreamDefinition) : Prop :=
  existsb isTls (ud_Upstreams def) && existsb (fun up => negb (isTls up)) (ud_Upstreams def) = false.
Definition nonzeroTimeout (def : UpstreamDefinition) : Prop :=
  forall c, connectOf def = Some c -> TrimSpace c <> "" -> ParseDuration (TrimSpace c) <> inr 0%Z.
Definition deployable (def : UpstreamDefinition) : Prop := uniform def /\ nonzeroTimeout def.

Lemma definitionEndpoints_spec name ups : Forall (fun up => ut_Url up <> "" /\ exists u, webUrl (ut_Url up) u) ups ->
  exists eps, definitionEndpoints name ups = inr (eps, existsb isTls ups, existsb (fun up => negb (isTls up)) ups).
Proof.
  induction 1 as [|up ups [_ (u & Hu & _)] _ (eps & HE)]; [by exists []|]. cbn [definitionEndpoints existsb]. unfold isTls at 1 3. rewrite Hu, HE.
  cbn. eauto.
Qed.

Lemma connectTimeout_spec def : acceptedTimeout def ->
  (exists o, definitionConnectTimeout (Some def) = inr o) <-> nonzeroTimeout def.
Proof.
  unfold acceptedTimeout, nonzeroTimeout, definitionConnectTimeout, connectOf. intros Ha.
  destruct (default None (ud_Timeout def)) as [c|]; [|by split; [intros _ ?|eauto]].
  destruct (String.eqb_spec (TrimSpace c) "") as [E|E]; [by split; [intros _ ? [= <-]|eauto]|].
  destruct (Ha c eq_refl E) as (d & Hd & Hpos). rewrite Hd. cbn. split.
  - intros [o Ho] c' [= <-] _. rewrite Hd. intros [= ->]. done.
  - intros Hn. specialize (Hn c eq_refl E). rewrite Hd in Hn. rewrite (proj2 (Z.leb_gt d 0)); [eauto|]. assert (d <> 0%Z) by congruence. lia.
Qed.

Lemma definitionCluster_spec def : accepted def -> (exists uc, definitionCluster def = inr uc) <-> deployable def.
Proof.
  intros [_ _ Hu Ht]. destruct (definitionEndpoints_spec (ud_Name def) _ Hu) as [eps HE]. unfold definitionCluster, deployable, uniform.
  destruct (connectTimeout_spec def Ht) as [H1' H2']. split.
  - intros [uc (ct & Hct%orErr_inr & HU)%sum_bind_inr]. rewrite HE in HU. cbn in HU.
    destruct (existsb isTls _ && _); [done|]. split; [done|]. eauto.
  - intros [Hun Hnz]. destruct (H2' Hnz) as [o Ho]. rewrite Ho. cbn. rewrite HE. cbn. rewrite Hun. eauto.
Qed.

Lemma accepted_hasURL def : accepted def -> hasURL def = true.
Proof.
  intros [_ Hs Hu _]. unfold hasURL. destruct (ud_Upstreams def) as [|up ups]; [done|]. apply Forall_cons in Hu as [[Hu _] _].
  by rewrite (proj2 (String.eqb_neq _ _) Hu).
Qed.

Lemma addDefinitions_accepts cfg defs rdc : Forall accepted defs -> Forall deployable defs -> exists rdc', addDefinitions cfg defs rdc = inr rdc'.
Proof.
  intros Ha. revert rdc. induction Ha as [|def defs Hd _ IH]; intros rdc Hp; cbn [addDefinitions]; [eauto|].
  apply Forall_cons in Hp as [Hp Hps]. rewrite (accepted_hasURL _ Hd). cbn [negb]. apply definitionCluster_spec in Hp as [uc ->]; [|done].
  cbn. by apply IH.
Qed.

(** ** The other sections *)

(** A direct URL has no blanks around it (the validator parses it as it is,
    the transformer trimmed). *)
Definition trimmedUrl (up : Upstream) : Prop := forall u, up_Url up = Some u -> TrimSpace u = u.

Lemma isSet_true s : TrimSpace s <> "" -> isSet (Some s) = true.
Proof. intros Hs. unfold isSet. by rewrite (proj2 (String.eqb_neq _ _) Hs). Qed.

Lemma webUrl_scheme s u : webUrl s u ->
  String.eqb (u_Host u) "" || negb (String.eqb (u_Scheme u) "http") && negb (String.eqb (u_Scheme u) "https") = false.
Proof. intros (_ & Hs & Hh%String.eqb_neq). rewrite Hh. by destruct Hs as [-> | ->]. Qed.

Lemma validateUpstreamUrl_accepts label u : validateUpstreamUrl label u = [] -> TrimSpace u <> "" /\ exists p, webUrl u p.
Proof.
  unfold validateUpstreamUrl. destruct (String.eqb (TrimSpace u) "") eqn:E; [done|]. destruct (url_Parse u) as [e|p] eqn:Hp; [done|].
  intros [Hs Hh%errorIf_nil]%app_nil. split; [by apply String.eqb_neq|]. exists p. by eapply webUrl_valid.
Qed.

Lemma validateUpstreamRef_accepts label r defs : validateUpstreamRef label r defs = [] ->
  TrimSpace r <> "" /\ exists l def, defs = Some l /\ List.find (fun def => String.eqb (ud_Name def) (TrimSpace r)) l = Some def.
Proof.
  unfold validateUpstreamRef. destruct (String.eqb (TrimSpace r) "") eqn:E; [done|]. destruct defs as [[|d l]|]; [done| |done].
  intros HE%errorIf_nil%negb_false_iff. split; [by apply String.eqb_neq|]. exists (d :: l).
  destruct (List.find _ (d :: l)) as [def|] eqn:Hf; [eauto|]. exfalso. apply existsb_exists in HE as (x & Hx & HE).
  by rewrite (List.find_none _ _ Hf x Hx) in HE.
Qed.

Lemma find_elem {A} (f : A -> bool) l x : List.find f l = Some x -> x ∈ l.
Proof. intros [Hf _]%List.find_some. by apply list_elem_of_In. Qed.

Lemma lookup_timeout r defs : Forall accepted (default [] defs) -> Forall deployable (default [] defs) ->
  exists o, definitionConnectTimeout (lookupUpstreamDefinition r defs) = inr o.
Proof.
  intros Ha Hd. unfold lookupUpstreamDefinition. destruct defs as [l|]; [|by exists None].
  destruct (List.find _ l) as [def|] eqn:Hf; [|by exists None]. apply find_elem in Hf. rewrite Forall_forall in Ha, Hd.
  apply connectTimeout_spec; [by apply Ha|by apply Hd].
Qed.

(** An upstream that names a web server, by its URL or by a definition. *)
Inductive resolvable (up : Upstream) (defs : option (list UpstreamDefinition)) : Prop :=
| resolvable_url u p : up_Url up = Some u -> TrimSpace u <> "" -> webUrl (TrimSpace u) p -> isSet (up_Ref up) = false -> resolvable up defs
| resolvable_ref r l def : isSet (up_Url up) = false -> up_Ref up = Some r -> TrimSpace r <> "" -> defs = Some l ->
    List.find (fun def => String.eqb (ud_Name def) (TrimSpace r)) l = Some def -> resolvable up defs.

Lemma validateUpstream_accepts label up defs : validateUpstream label (Some up) defs = [] -> trimmedUrl up -> resolvable up defs.
Proof.
  intros Hv Ht. unfold validateUpstream in Hv. destruct (up_Ref up) as [r|] eqn:Hr, (up_Url up) as [u|] eqn:Hu; try done.
  - apply validateUpstreamRef_accepts in Hv as (Hne & l & def & -> & Hf). eapply resolvable_ref; try done. by rewrite Hu.
  - apply validateUpstreamUrl_accepts in Hv as (Hne & p & Hp). rewrite <- (Ht _ Hu) in Hp. eapply resolvable_url; try done. by rewrite Hr.
Qed.

Lemma resolveCluster_accepts name up defs :
  resolvable up defs -> Forall accepted (default [] defs) -> Forall deployable (default [] defs) ->
  exists r, resolveCluster name up defs = inr r.
Proof.
  intros Hv Ha Hd. unfold resolveCluster, resolveUpstreamURL. destruct Hv as [u p Hu Hne Hp Hr|r l def Hu Hr Hne -> Hf].
  - rewrite Hu, (isSet_true _ Hne), Hr. cbn [default sum_bind]. unfold id. rewrite (proj1 Hp). cbn [orErr sum_bind].
    rewrite (webUrl_scheme _ _ Hp). cbn. eauto.
  - rewrite Hu, Hr, (isSet_true _ Hne). cbn [default]. cbv iota zeta. unfold id. rewrite Hf.
    pose proof (find_elem _ _ _ Hf) as Hin. cbn [default] in Ha. rewrite Forall_forall in Ha. destruct (Ha _ Hin) as [_ Hs Hus _].
    destruct (ud_Upstreams def) as [|tg ups]; [done|]. apply Forall_cons in Hus as [[Hne' (p & Hp)] _].
    rewrite (proj2 (String.eqb_neq _ _) Hne'). cbn [sum_bind]. rewrite (proj1 Hp). cbn [orErr sum_bind]. rewrite (webUrl_scheme _ _ Hp).
    destruct (lookup_timeout r (Some l)) as [o ->]; [by apply Forall_forall|done|]. cbn. eauto.
Qed.

Lemma validateTimeout_accepts field value : validateTimeout field value = [] -> exists o, parseDurationAllowZero value = inr o.
Proof.
  unfold validateTimeout, parseDurationAllowZero. destruct value as [v|]; [|eauto]. destruct (String.eqb (TrimSpace v) ""); [eauto|].
  destruct (ResilienceDurationRegex _); [|done]. cbn. destruct (ParseDuration _); [done|eauto].
Qed.

Lemma resilience_accepts prefix r : validateResilienceTimeouts prefix r = [] -> exists ts, ResolveResilience r = inr ts.
Proof.
  destruct r as [r|]; [|eauto]. simpl. intros [[t Ht]%validateTimeout_accepts [i Hi]%validateTimeout_accepts]%app_nil.
  rewrite Ht, Hi. cbn. eauto.
Qed.

Lemma validateOperation_accepts i op : validateOperation i op = [] -> exists ts, ResolveResilience (op_Resilience op) = inr ts.
Proof.
  unfold validateOperation. destruct (match op_Match op with Some _ => _ | None => _ end) as [mf pf]. intros [_ Hp]%app_nil.
  destruct (String.eqb (EffectivePath op) ""); [done|]. apply app_nil in Hp as [_ [_ Hr]%app_nil]. by eapply resilience_accepts.
Qed.

Lemma addOperations_accepts t apiData up at_ ai ops : Forall (fun op => exists ts, ResolveResilience (op_Resilience op) = inr ts) ops ->
  forall i rdc, exists rdc', addOperations t apiData up at_ ai i ops rdc = inr rdc'.
Proof.
  induction 1 as [|op ops [[ot oi] Ht] _ IH]; intros i rdc; cbn [addOperations]; [eauto|]. rewrite Ht. cbn. apply IH.
Qed.

Lemma validateOperations_accepts ops : validateOperations ops = [] ->
  ops <> [] /\ Forall (fun op => exists ts, ResolveResilience (op_Resilience op) = inr ts) ops.
Proof.
  destruct ops as [|op ops]; [done|]. intros Hv. split; [done|]. apply Forall_forall. intros o [i Hi]%(concat_imap_nil _ _ Hv).
  by eapply validateOperation_accepts.
Qed.

(** The parts of an accepted API. *)
Lemma validated_parts pv r : validateRestAPIConfiguration pv r = [] ->
  let spec := ra_Spec r in
  Forall accepted (default [] (acd_UpstreamDefinitions spec)) /\ NoDup (ud_Name <$> default [] (acd_UpstreamDefinitions spec)) /\
  validateUpstream "main" (Some (acd_UpstreamMain spec)) (acd_UpstreamDefinitions spec) = [] /\
  validateUpstream "sandbox" (acd_UpstreamSandbox spec) (acd_UpstreamDefinitions spec) = [] /\
  (exists ts, ResolveResilience (acd_Resilience spec) = inr ts) /\
  Forall (fun op => exists ts, ResolveResilience (op_Resilience op) = inr ts) (acd_Operations spec).
Proof.
  intros [_ [_ [Hd _]%app_nil]%app_nil]%app_nil. cbn zeta. set (spec := ra_Spec r) in *.
  apply app_nil in Hd as [_ [_ [_ [Hdefs [Hm [Hs [Hr Ho]%app_nil]%app_nil]%app_nil]%app_nil]%app_nil]%app_nil].
  apply validateOperations_accepts in Ho as [_ Ho]. apply resilience_accepts in Hr.
  assert (Forall accepted (default [] (acd_UpstreamDefinitions spec)) /\ NoDup (ud_Name <$> default [] (acd_UpstreamDefinitions spec))) as [Ha Hn].
  { unfold validateUpstreamDefinitionsList in Hdefs. destruct (acd_UpstreamDefinitions spec) as [defs|]; [|split; constructor].
    by apply validateDefinitions_accepts in Hdefs as (Ha & Hn & _). }
  by split_and!.
Qed.

(** What of a REST API decides that it can be transformed: a theorem of the
    transformer, whatever validated the parts. *)
Record sound (spec : APIConfigData) : Prop := mkSound {
  so_definitions : Forall accepted (default [] (acd_UpstreamDefinitions spec));
  so_main : resolvable (acd_UpstreamMain spec) (acd_UpstreamDefinitions spec);
  so_sandbox sb : acd_UpstreamSandbox spec = Some sb -> resolvable sb (acd_UpstreamDefinitions spec);
  so_resilience : exists ts, ResolveResilience (acd_Resilience spec) = inr ts;
  so_operations : Forall (fun op => exists ts, ResolveResilience (op_Resilience op) = inr ts) (acd_Operations spec)
}.

Lemma sound_deploys t cfg r : sc_Configuration cfg = CfgRestAPI r -> sound (ra_Spec r) ->
  (exists rdc, Transform t cfg = inr rdc) <->
  vhostConflict t (ra_Spec r) = false /\ Forall deployable (default [] (acd_UpstreamDefinitions (ra_Spec r))).
Proof.
  intros Hc [Ha Hm Hs [[rt ri] Hr] Ho]. split.
  - intros [rdc (r' & mres & muc & at_ & ai & rdc1 & rdc2 & Hc' & _ & Hv & _ & Hd & _)%Transform_inv].
    rewrite Hc in Hc'. injection Hc' as <-. split; [done|]. apply addDefinitions_spec in Hd as (_ & _ & _ & _ & HD & _).
    rewrite Forall_forall in Ha |- *. intros def Hin. apply definitionCluster_spec; [by apply Ha|]. by apply HD, accepted_hasURL, Ha.
  - intros [Hv Hd]. unfold Transform. rewrite Hc. cbn zeta. unfold addUpstreamCluster.
    destruct (resolveCluster_accepts "main" _ _ Hm Ha Hd) as [[mres muc] ->]. cbn. rewrite Hv, Hr. cbn.
    match goal with |- context [addOperations t _ ?up ?a ?b 0 _ ?rdc0] =>
      destruct (addOperations_accepts t (ra_Spec r) up a b _ Ho 0 rdc0) as [rdc1 ->] end. cbn.
    destruct (addDefinitions_accepts cfg _ rdc1 Ha Hd) as [rdc2 ->]. cbn. unfold addSandbox, sandboxOf.
    destruct (acd_UpstreamSandbox (ra_Spec r)) as [sb|] eqn:Hsb; [|eauto]. destruct (_ || _); [|eauto].
    unfold addUpstreamCluster. destruct (resolveCluster_accepts "sandbox" _ _ (Hs _ eq_refl) Ha Hd) as [[sres suc] ->]. cbn. eauto.
Qed.

(** C23: accepted APIs deploy.  A REST API that the validator accepts, whose
    direct URLs have no blanks around them, is transformed into a runtime
    configuration unless its sandbox shares a host with the main upstream, or
    one of its upstream definitions mixes https with other targets or has a
    connect timeout of zero; and those three, which the validator lets pass,
    do make the transformation fail. *)
Theorem accepted_apis_deploy t pv cfg r :
  sc_Configuration cfg = CfgRestAPI r -> validateRestAPIConfiguration pv r = [] ->
  trimmedUrl (acd_UpstreamMain (ra_Spec r)) -> (forall sb, acd_UpstreamSandbox (ra_Spec r) = Some sb -> trimmedUrl sb) ->
  (exists rdc, Transform t cfg = inr rdc) <->
  vhostConflict t (ra_Spec r) = false /\ Forall deployable (default [] (acd_UpstreamDefinitions (ra_Spec r))).
Proof.
  intros Hc (Ha & _ & Hm & Hs & Hr & Ho)%validated_parts Htm Hts. apply sound_deploys; [done|]. split; try done.
  - by eapply validateUpstream_accepts.
  - intros sb Hsb. rewrite Hsb in Hs. eapply validateUpstream_accepts; [exact Hs|by apply Hts].
Qed.

(** ** Definitions by name *)

Lemma ReplaceAllByte_absent old new s : String_contains_byte old s = false -> ReplaceAllByte old new s = s.
Proof.
  unfold ReplaceAllByte. induction s as [|c s IH]; [done|]. cbn. intros [Hc Hs]%orb_false_iff.
  rewrite Ascii.eqb_sym, Hc. by rewrite IH.
Qed.

Lemma sanitize_accepted name : upstreamDefinitionNameRegex name = true -> SanitizeUpstreamDefinitionName name = name.
Proof.
  unfold upstreamDefinitionNameRegex, nonEmptyAll. intros [_ Hall]%andb_true_iff. unfold SanitizeUpstreamDefinitionName.
  rewrite (ReplaceAllByte_absent "." "_" name), ReplaceAllByte_absent; [done|by eapply string_all_not_byte; [|exact Hall]..].
Qed.

Lemma definedBy_accepted cfg defs def :
  Forall accepted defs -> NoDup (ud_Name <$> defs) -> def ∈ defs -> definedBy cfg defs (defClusterKeyOf cfg (ud_Name def)) = Some def.
Proof.
  intros Ha Hn Hin. unfold definedBy. rewrite Forall_forall in Ha.
  destruct (last (filter _ defs)) as [def'|] eqn:E.
  - apply last_filter_elem in E as [Hin' [_ Hk]]. f_equal. apply (NoDup_fmap_elem_inj ud_Name defs); [done..|].
    unfold defClusterKeyOf in Hk. do 5 apply append_inj_l in Hk.
    by rewrite !sanitize_accepted in Hk by (by apply acc_name, Ha).
  - exfalso. apply last_None in E. eapply (filter_nil_not_elem_of _ _ def E); [|done]. split; [|done]. by apply accepted_hasURL, Ha.
Qed.

(** Accepted definitions are reachable by name.  For every upstream
    definition of an accepted API, the runtime configuration has the cluster
    that the definition describes, under the name that the engine computes
    for it, and the engine is told its base path under its name: a policy can
    direct a request to any of them. *)
Theorem accepted_definitions_are_reachable t pv cfg rdc r def :
  validateRestAPIConfiguration pv r = [] -> sc_Configuration cfg = CfgRestAPI r -> plainKind (sc_Kind cfg) = true ->
  Transform t cfg = inr rdc -> def ∈ default [] (acd_UpstreamDefinitions (ra_Spec r)) ->
  exists uc, definitionCluster def = inr uc /\ rdc_UpstreamClusters rdc !! defClusterKeyOf cfg (ud_Name def) = Some uc /\
    upstreamDefPathsOf rdc !! ud_Name def = Some (uc_BasePath uc).
Proof.
  intros (Ha & Hn & _)%validated_parts Hc Hk HT Hin. destruct (Transform_clusters t cfg rdc r HT Hc Hk) as (_ & _ & Hdef & _).
  destruct (Hdef _ _ (definedBy_accepted cfg _ _ Ha Hn Hin)) as (uc & Hd & Hu). exists uc. split_and!; [done..|].
  rewrite Forall_forall in Ha. apply (upstreamDefPaths_spec t cfg rdc r); [done..| |].
  - intros E. pose proof (acc_name _ (Ha _ Hin)) as Hr. by rewrite E in Hr.
  - exists uc. split_and!; [done| |done]. by apply (definitionCluster_name def).
Qed.

End Accepted.

Import SampleApi.
#[local] Existing Instance MapRange_list.
#[local] Existing Instance plainUrls.
#[local] Existing Instance anySchema.

Definition greenOf (connect : string) : UpstreamDefinition :=
  mkUpstreamDefinition (Some "/v2") "green" (Some (Some connect)) [mkUpstreamTarget "http://green:9090" (Some 10%Z)].
Definition apiOf (connect : string) : RestAPI :=
  mkRestAPI "gateway.api-platform.wso2.com/v1" "RestApi" (mkApiMetadata None (Some {["team" := "a b"]}) "books")
    (mkAPIConfigData "/books/$version" "Books" [operation "GET" "/list/{id}" [policy "cors" ∅]] (Some [policy "auth" ∅]) None
       (mkUpstream None (Some " green ") None) (Some (mkUpstream None None (Some "http://sand.example.com"))) (Some [greenOf connect]) "v1.0" None None).
Definition storedOf (connect : string) : StoredConfig :=
  mkStoredConfig "0002" "RestApi" "books" "Books" "v1.0" (CfgRestAPI (apiOf connect)) (CfgRestAPI (apiOf connect)) [].
Definition samplePV : option PolicyValidator := Some (NewPolicyValidator sampleDefinitions).

Lemma trimmed_sandbox connect sb : acd_UpstreamSandbox (ra_Spec (apiOf connect)) = Some sb -> trimmedUrl sb.
Proof. intros [= <-] u [= <-]. reflexivity. Qed.

Lemma accepted_apis_deploy_witness : exists rdc, Transform transformer (storedOf "2s") = inr rdc.
Proof.
  assert (validateRestAPIConfiguration samplePV (apiOf "2s") = []) as Hv by (vm_compute; reflexivity).
  assert (trimmedUrl (acd_UpstreamMain (ra_Spec (apiOf "2s")))) as Hm by (intros u [=]).
  apply (proj2 (accepted_apis_deploy transformer samplePV (storedOf "2s") (apiOf "2s") eq_refl Hv Hm (trimmed_sandbox _))).
  split; [vm_compute; reflexivity|]. constructor; [|constructor]. split; [vm_compute; reflexivity|].
  intros c [= <-] _. vm_compute. discriminate.
Defined.

Lemma accepted_definitions_are_reachable_witness :
  exists rdc uc, Transform transformer (storedOf "2s") = inr rdc /\
    rdc_UpstreamClusters rdc !! "upstream_RestApi_0002_green" = Some uc /\ upstreamDefPathsOf rdc !! "green" = Some (uc_BasePath uc).
Proof.
  destruct (Transform transformer (storedOf "2s")) as [e|rdc] eqn:E.
  { assert ((if Transform transformer (storedOf "2s") then false else true) = true) as Hok by (vm_compute; reflexivity).
    rewrite E in Hok. discriminate Hok. }
  destruct (accepted_definitions_are_reachable transformer samplePV (storedOf "2s") rdc (apiOf "2s") (greenOf "2s")) as (uc & _ & Hu & Hp).
  - vm_compute. reflexivity.
  - reflexivity.
  - reflexivity.
  - exact E.
  - apply list_elem_of_singleton. reflexivity.
  - exists rdc, uc. exact (conj eq_refl (conj Hu Hp)).
Defined.

(** A connect timeout of zero is accepted and cannot be deployed. *)
Example zero_timeout_is_accepted :
  APIValidator_Validate samplePV (CfgRestAPI (apiOf "0s")) = [] /\
  Transform transformer (storedOf "0s") = inl "failed to resolve main upstream: main upstream: connect timeout must be positive, got 0s".
Proof. by vm_compute. Qed.

Example rejections :
  ve_Field <$> APIValidator_Validate samplePV (CfgRestAPI (mkRestAPI "v1" "Rest" (mkApiMetadata None None "a/b")
    (mkAPIConfigData "books/" "" [mkOperation None (Some "get") (Some "list}") None (Some (mkResilience None (Some "-1s")))] None None
       (mkUpstream None (Some "x") (Some "y")) None (Some [mkUpstreamDefinition (Some "/a/") "n" None []; mkUpstreamDefinition None "n" None []]) "1.x" None None))) =
  ["kind"; "version"; "spec.displayName"; "spec.version"; "spec.context"; "spec.context"; "spec.upstreamDefinitions[0].basePath";
   "spec.upstreamDefinitions[0].upstreams"; "spec.upstreamDefinitions[1].name"; "spec.upstream.main"; "spec.operations[0].path";
   "spec.operations[0].path"; "spec.operations[0].resilience.timeout"; "metadata.name"].
Proof. by vm_compute. Qed.
