(* ===== verification/ArtifactTheorems.v ===== *)
(** * ArtifactTheorems: accepted LLM and MCP artifacts deploy

    What the validators of providers, proxies and MCP proxies guarantee: the
    transformers turn an accepted artifact into a REST API without an error or
    a panic, and that API can be deployed unless one of its upstream
    definitions mixes https with other targets or has a connect timeout of
    zero. *)

From stdpp Require Import base gmap strings list fin_maps.
From Stdlib Require Import Ascii.
From S2P Require Import Prelude GoStrings GoDuration Version Values WebhookSecrets Routes ManagementApi PolicyVersions RestTransform ApiValidator ConfigStore LlmTransform McpTransform ArtifactValidators RestTransformTheorems ApiValidatorTheorems LlmTheorems LlmDeterminism.

#[local] Set Warnings "-register-all".

Open Scope string_scope.

Section Accepted.
Context `{MapRange} `{UrlParser} `{JSONSchema}.

(** ** Upstreams *)

Lemma isBlank_Some s : isBlank s = false -> exists v, s = Some v /\ TrimSpace v <> "".
Proof. destruct s as [v|]; [|done]. cbn. intros Hv%String.eqb_neq. eauto. Qed.

Lemma isEmpty_Some s : isEmpty s = false -> exists v, s = Some v /\ v <> "".
Proof. destruct s as [v|]; [|done]. cbn. intros Hv%String.eqb_neq. eauto. Qed.

Lemma isSet_isBlank s : isSet s = negb (isBlank s).
Proof. by destruct s. Qed.

Lemma refResolves_find ref defs : upstreamRefResolves ref defs = true ->
  exists l def, defs = Some l /\ List.find (fun def => String.eqb (ud_Name def) (TrimSpace ref)) l = Some def.
Proof.
  unfold upstreamRefResolves. destruct defs as [l|]; [|done]. intros (def & Hin & Hd)%existsb_exists. exists l.
  destruct (List.find _ l) as [d|] eqn:Hf; [eauto|]. by rewrite (List.find_none _ _ Hf _ Hin) in Hd.
Qed.

(** Exactly one of URL and reference is given, and it names a server. *)
Definition namesServer (upstream : LLMProviderUpstream) (defs : option (list UpstreamDefinition)) : Prop :=
  (isBlank (lpu_Ref upstream) = true /\ exists u p, lpu_Url upstream = Some u /\ TrimSpace u <> "" /\ webUrl (TrimSpace u) p) \/
  (isBlank (lpu_Url upstream) = true /\ exists r, lpu_Ref upstream = Some r /\ TrimSpace r <> "" /\ upstreamRefResolves r defs = true).

Lemma namesServer_resolvable upstream defs : namesServer upstream defs -> resolvable (providerUpstream upstream) defs.
Proof.
  unfold providerUpstream. intros [[Hr (u & p & Hu & Hne & Hp)]|[_ (r & Hr & Hne & (l & def & -> & Hf)%refResolves_find)]].
  - assert (match lpu_Ref upstream with
            | Some ref => if negb (String.eqb (TrimSpace ref) "") then mkUpstream None (Some ref) None else mkUpstream None None (lpu_Url upstream)
            | None => mkUpstream None None (lpu_Url upstream) end = mkUpstream None None (Some u)) as ->.
    { rewrite Hu. destruct (lpu_Ref upstream) as [ref|]; [|done]. cbn in Hr. by rewrite Hr. }
    by eapply resolvable_url.
  - rewrite Hr, (proj2 (String.eqb_neq _ _) Hne). cbn [negb]. by eapply resolvable_ref.
Qed.

Lemma definitions_accepted prefix defs : validateUpstreamDefinitionsList prefix defs = [] -> Forall accepted (default [] defs).
Proof.
  unfold validateUpstreamDefinitionsList. destruct defs as [l|]; [|constructor]. by intros (Ha & _ & _)%validateDefinitions_accepts.
Qed.

(** The scheme and host checks of both validators. *)
Lemma webUrl_checks s u : url_Parse s = inr u ->
  negb (String.eqb (u_Scheme u) "http") && negb (String.eqb (u_Scheme u) "https") = false -> String.eqb (u_Host u) "" = false -> webUrl s u.
Proof. intros Hu Hs Hh. apply (webUrl_valid s "" u ""); [done|]. split; [by apply errorIf_nil|done]. Qed.

(** The part of a check that both validators share: URL or reference. *)
Lemma llm_upstream_names prefix upstream defs : validateUpstreamWithAuth prefix upstream defs = [] -> namesServer upstream defs.
Proof.
  intros [Hu _]%app_nil. destruct (isBlank (lpu_Url upstream)) eqn:Eu, (isBlank (lpu_Ref upstream)) eqn:Er; cbn [negb] in Hu; try done.
  - right. split; [done|]. destruct (isBlank_Some _ Er) as (r & Hr & Hne). exists r. rewrite Hr in Hu. cbn in Hu. by apply errorIf_nil, negb_false_iff in Hu.
  - left. split; [done|]. destruct (isBlank_Some _ Eu) as (u & Hu' & Hne). rewrite Hu' in Hu. cbn [default] in Hu. unfold id in Hu.
    destruct (url_Parse (TrimSpace u)) as [e|p] eqn:Hp; [done|]. destruct (_ && _) eqn:Hs; [done|]. apply errorIf_nil in Hu.
    exists u, p. split_and!; [done..|]. by apply webUrl_checks.
Qed.

Lemma mcp_upstream_names prefix upstream defs : mcp_validateUpstream prefix upstream defs = [] -> namesServer upstream defs.
Proof.
  intros [Hu _]%app_nil. destruct (isBlank (lpu_Url upstream)) eqn:Eu, (isBlank (lpu_Ref upstream)) eqn:Er; cbn [negb] in Hu; try done.
  - right. split; [done|]. destruct (isBlank_Some _ Er) as (r & Hr & Hne). exists r. rewrite Hr in Hu. cbn in Hu. by apply errorIf_nil, negb_false_iff in Hu.
  - left. split; [done|]. destruct (isBlank_Some _ Eu) as (u & Hu' & Hne). rewrite Hu' in Hu. cbn [default] in Hu. unfold id in Hu.
    destruct (url_Parse (TrimSpace u)) as [e|p] eqn:Hp; [done|]. apply app_nil in Hu as [Hs%errorIf_nil Hh%errorIf_nil].
    exists u, p. split_and!; [done..|]. by apply webUrl_checks.
Qed.

(** ** LLM providers *)

Section Provider.
Context `{RegistryRange}.
Variable t : LLMProviderTransformer.

(** An accepted authentication block. *)
Lemma auth_accepted prefix a : validateLLMUpstreamAuth prefix a = [] ->
  (isApiKeyAuth (lua_Type a) = true /\ exists h v, lua_Header a = Some h /\ lua_Value a = Some v /\ h <> "" /\ v <> "") \/
  (isApiKeyAuth (lua_Type a) = false /\ isNoGatewayAuth (lua_Type a) = true).
Proof.
  unfold validateLLMUpstreamAuth. intros [Ht Hk]%app_nil. destruct (isApiKeyAuth (lua_Type a)) eqn:E.
  - left. split; [done|]. apply app_nil in Hk as [(h & -> & Hh)%errorIf_nil%isEmpty_Some (v & -> & Hv)%errorIf_nil%isEmpty_Some]. eauto 8.
  - right. split; [done|]. destruct (String.eqb (lua_Type a) ""); [done|]. apply errorIf_nil in Ht. cbn in Ht. by apply negb_false_iff in Ht.
Qed.

(** The policies the gateway adds to a provider. *)
Definition providerPolicies (provider : LLMProviderConfiguration) : list string :=
  ((match lpu_Auth (lp_Upstream provider) with
    | Some a => if isApiKeyAuth (lua_Type a) then [UPSTREAM_AUTH_APIKEY_POLICY_NAME] else []
    | None => []
    end) ++
   (if String.eqb (lac_Mode (lp_AccessControl provider)) "allow_all" then
      match default [] (lac_Exceptions (lp_AccessControl provider)) with [] => [] | _ => [ACCESS_CONTROL_DENY_POLICY_NAME] end
    else []))%list.

Definition policiesLoaded (names : list string) : Prop := forall name, name ∈ names -> exists v, llm_resolvePolicyVersion t name = inr v.

Lemma providerAuth_ok provider : validateLLMProvider provider = [] -> policiesLoaded (providerPolicies provider) ->
  exists pol, providerAuthPolicy t (lpu_Auth (lp_Upstream provider)) tt = Ok tt pol.
Proof.
  intros [_ [_ Hs]%app_nil]%app_nil Hl. do 4 apply app_nil in Hs as [_ Hs]. apply app_nil in Hs as [Hu _].
  apply app_nil in Hu as [_ Ha]. unfold policiesLoaded, providerPolicies in Hl. unfold providerAuthPolicy.
  destruct (lpu_Auth (lp_Upstream provider)) as [a|]; [|eexists; reflexivity].
  destruct (auth_accepted _ _ Ha) as [[E (h & v & -> & -> & _)]|[E E']]; rewrite E in Hl |- *; [|rewrite E'; eexists; reflexivity].
  destruct (Hl UPSTREAM_AUTH_APIKEY_POLICY_NAME) as [ver Hv]; [left|]. unfold mbind, GoM_bind, lift_err. rewrite Hv. eexists. reflexivity.
Qed.

Lemma operationsOf_resilience reg : wellKeyed reg -> Forall (fun op => op_Resilience op = None) (operationsOf reg).
Proof.
  intros Hw. apply Forall_forall. intros op ([k op'] & -> & Hk)%list_elem_of_fmap. rewrite rangeOps_perm in Hk. apply elem_of_map_to_list in Hk.
  by destruct (Hw _ _ Hk) as (_ & _ & _ & ?).
Qed.

Lemma providerOperations_ok provider templateSpec : validateLLMProvider provider = [] -> policiesLoaded (providerPolicies provider) ->
  exists ops keys, providerOperations t provider templateSpec tt = Ok tt (ops, keys) /\ Forall (fun op => op_Resilience op = None) ops.
Proof.
  intros [_ [_ Hs]%app_nil]%app_nil Hl. do 5 apply app_nil in Hs as [_ Hs]. apply app_nil in Hs as [[Hm%errorIf_nil _]%app_nil _].
  unfold policiesLoaded, providerPolicies in Hl. unfold providerOperations.
  destruct (String.eqb (lac_Mode (lp_AccessControl provider)) "allow_all") eqn:Ea.
  - set (exceptions := default [] _) in *.
    assert (exists v, (match exceptions with [] => mret "" | _ => lift_err (llm_resolvePolicyVersion t ACCESS_CONTROL_DENY_POLICY_NAME) end : GoM unit string) tt
      = Ok tt v) as [v Hv].
    { destruct exceptions as [|ex exs]; [eexists; reflexivity|]. destruct (Hl ACCESS_CONTROL_DENY_POLICY_NAME) as [v Hv]; [apply elem_of_app; right; left|].
      unfold lift_err. rewrite Hv. eexists. reflexivity. }
    unfold mbind, GoM_bind.
    rewrite Hv. eexists _, _. split; [reflexivity|]. apply operationsOf_resilience, attachPolicies_keyed. apply denyOperations_spec.
  - cbn in Hm. apply negb_false_iff in Hm. rewrite Hm. eexists _, _. split; [reflexivity|].
    apply operationsOf_resilience, attachPolicies_keyed, exceptionRegistry_keyed.
Qed.

(** The operations at the end have the timeouts of the artifact or none. *)
Lemma finished_resilience r keys ops pol : Forall (fun op => op_Resilience op = None) ops ->
  Forall (fun op => op_Resilience op = None \/ op_Resilience op = r)
    (applyResilienceToTrafficRoutes r keys (match pol with Some p => appendOperationPolicy p <$> ops | None => ops end)).
Proof.
  intros Ho. assert (Forall (fun op => op_Resilience op = None) (match pol with Some p => appendOperationPolicy p <$> ops | None => ops end)) as Ha.
  { destruct pol; [|done]. by apply Forall_fmap. }
  unfold applyResilienceToTrafficRoutes. destruct r as [r|]; [|eapply Forall_impl; [exact Ha|]; by left].
  apply Forall_fmap. eapply Forall_impl; [exact Ha|]. intros op Hop. cbn. case_bool_decide; [by left|by right].
Qed.

(** C24: accepted LLM providers deploy.  A provider that the validator accepts,
    whose template exists and whose gateway policies are loaded, becomes a
    REST API: the transformer neither fails nor panics.  The API can then be
    deployed exactly if every upstream definition has targets of one scheme
    and a connect timeout that is not zero. *)
Theorem accepted_llm_providers_deploy provider tmpl :
  validateLLMProvider provider = [] -> getTemplateByHandle t (lp_Template provider) = inr tmpl -> policiesLoaded (providerPolicies provider) ->
  exists api, LLMProviderTransformer_Transform t (CfgLLMProvider provider) tt = Ok tt api /\
    forall rt cfg, sc_Configuration cfg = CfgRestAPI api ->
      (exists rdc, RestTransform.Transform rt cfg = inr rdc) <-> Forall deployable (default [] (lp_UpstreamDefinitions provider)).
Proof.
  intros Hv Ht Hl. destruct (providerAuth_ok _ Hv Hl) as [pol Hpol]. destruct (providerOperations_ok _ (st_Spec tmpl) Hv Hl) as (ops & keys & Hops & Hnone).
  cbn [LLMProviderTransformer_Transform]. unfold transformProvider. unfold mbind, GoM_bind, lift_err. rewrite Ht. cbn [orErr]. unfold mret at 1, GoM_ret at 1.
  rewrite Hpol, Hops. eexists. split; [reflexivity|]. intros rt cfg Hc.
  apply app_nil in Hv as [_ [_ Hs]%app_nil]. do 3 apply app_nil in Hs as [_ Hs]. apply app_nil in Hs as [Hdefs [Hu [_ [_ Hres]%app_nil]%app_nil]%app_nil].
  apply definitions_accepted in Hdefs. apply llm_upstream_names, namesServer_resolvable in Hu. apply resilience_accepts in Hres.
  rewrite (sound_deploys rt cfg _ Hc); cbn [ra_Spec acd_UpstreamDefinitions].
  - split; [by intros [_ ?]|]. by intros ?.
  - split; cbn [acd_UpstreamDefinitions acd_UpstreamMain acd_UpstreamSandbox acd_Resilience acd_Operations]; try done; [by exists (None, None)|].
    eapply Forall_impl; [apply finished_resilience; by rewrite sort_perm|]. cbn. intros op [-> | ->]; [by exists (None, None)|done].
Qed.

(** ** LLM proxies *)

Lemma authPolicy_ok auth prefix valuePrefix field :
  match auth with Some a => validateLLMUpstreamAuth prefix a | None => [] end = [] -> policiesLoaded [UPSTREAM_AUTH_APIKEY_POLICY_NAME] ->
  exists pol, proxyUpstreamAuthPolicy t auth valuePrefix field = inr pol.
Proof.
  unfold proxyUpstreamAuthPolicy. destruct auth as [a|]; [|eauto]. intros Ha Hl.
  destruct (auth_accepted _ _ Ha) as [[-> (h & v & -> & -> & Hh & Hv)]|[-> ->]]; [|eauto].
  destruct h as [|hc h]; [done|]. destruct v as [|vc v]; [done|]. destruct (Hl UPSTREAM_AUTH_APIKEY_POLICY_NAME) as [ver ->]; [left|]. cbn. eauto.
Qed.

Lemma conditionalAuth_ok auth prefix valuePrefix field name includeDefault :
  match auth with Some a => validateLLMUpstreamAuth prefix a | None => [] end = [] -> policiesLoaded [UPSTREAM_AUTH_APIKEY_POLICY_NAME] ->
  exists pols, conditionalAuth t auth valuePrefix field name includeDefault = inr pols.
Proof. intros Ha Hl. unfold conditionalAuth. destruct (authPolicy_ok auth prefix valuePrefix field Ha Hl) as [pol ->]. cbn. eauto. Qed.

Lemma transformer_ok prefix tr name field : validateLLMProxyTransformer prefix tr = [] -> exists pol, proxyTransformerPolicy tr name field = inr pol.
Proof.
  unfold validateLLMProxyTransformer, proxyTransformerPolicy. intros [->%errorIf_nil Hv]%app_nil.
  destruct (String.eqb (lxt_Version tr) ""); [done|]. eauto.
Qed.

(** The providers a proxy routes to are stored, with a context. *)
Definition providerStored (id : string) : Prop :=
  exists cfg ctx, db_GetConfigByKindAndHandle (lpt_db t) "LlmProvider" id = inr (Some cfg) /\ GetContext cfg = inr ctx.

Lemma providerName_nonempty ap : lap_Id ap <> "" -> providerNameOf ap <> "".
Proof. unfold providerNameOf. destruct (lap_As ap) as [s|]; [|done]. by destruct (String.eqb_spec s ""). Qed.

Lemma additional_ok aps : forall i seen prefixes,
  validateAdditionalFrom i seen aps = [] -> Forall (fun ap => providerStored (lap_Id ap)) aps -> policiesLoaded [UPSTREAM_AUTH_APIKEY_POLICY_NAME] ->
  (exists r, additionalDefinitions t seen prefixes aps = inr r) /\ (forall ps, exists r, additionalPolicies t ps aps = inr r).
Proof.
  induction aps as [|ap aps IH]; intros i seen prefixes Hv Hst Hl; [by split; [eexists|intros ?; eexists]|].
  apply Forall_cons in Hst as [(cfg & ctx & Hdb & Hctx) Hst]. cbn [validateAdditionalFrom] in Hv.
  apply app_nil in Hv as [Hid [_ [Hdup%errorIf_nil [Ha [Htr Hrest]%app_nil]%app_nil]%app_nil]%app_nil].
  destruct (String.eqb (lap_Id ap) "") eqn:Eid; [done|]. pose proof (providerName_nonempty ap (proj1 (String.eqb_neq _ _) Eid)) as Hn%String.eqb_neq.
  rewrite Hn in Hdup, Hrest. cbn [negb andb] in Hdup.
  split.
  - cbn [additionalDefinitions]. rewrite Eid. cbn zeta. rewrite Hdup, Hdb. cbn [orErr sum_bind]. rewrite Hctx. cbn [orErr sum_bind].
    destruct (IH _ _ (match prefixOfConfig cfg with Some p => <[lap_Id ap := p]> prefixes | None => prefixes end) Hrest Hst Hl) as [[r ->] _].
    eexists. reflexivity.
  - intros ps. cbn [additionalPolicies].
    destruct (conditionalAuth_ok (lap_Auth ap) _ (default "" (ps !! lap_Id ap)) ("additionalProviders[" +:+ providerNameOf ap +:+ "].auth")
      (providerNameOf ap) false Ha Hl) as [auths ->]. cbn [sum_bind].
    destruct (IH _ _ prefixes Hrest Hst Hl) as [_ Hps]. destruct (Hps ps) as [r Hr]. destruct (lap_Transformer ap) as [tr|].
    + destruct (transformer_ok _ tr (providerNameOf ap) ("additionalProviders[" +:+ providerNameOf ap +:+ "].transformer") Htr) as [pol ->].
      cbn [sum_bind]. rewrite Hr. eexists. reflexivity.
    + cbn [sum_bind]. rewrite Hr. eexists. reflexivity.
Qed.

(** Each additional provider is a definition under its own name. *)
Lemma additionalDefinitions_names aps : forall seen prefixes r, additionalDefinitions t seen prefixes aps = inr r ->
  ud_Name <$> r.1 = providerNameOf <$> aps /\ NoDup (providerNameOf <$> aps) /\ Forall (.∉ seen) (providerNameOf <$> aps).
Proof.
  induction aps as [|ap aps IH]; intros seen prefixes r Hr; cbn [additionalDefinitions] in Hr; [injection Hr as <-; by split_and!; constructor|].
  destruct (String.eqb (lap_Id ap) ""); [done|]. case_bool_decide as Hs; [done|].
  apply sum_bind_inr in Hr as ([cfg|] & _ & Hr); [|done]. apply sum_bind_inr in Hr as (ctx & _ & Hr). apply sum_bind_inr in Hr as (r' & Hr' & [= <-]).
  apply IH in Hr' as (Hn & Hnd & Hseen). cbn [fst fmap list_fmap ud_Name]. split_and!.
  - f_equal. exact Hn.
  - constructor; [|done]. intros Hin. rewrite Forall_forall in Hseen. apply (Hseen _ Hin), elem_of_union_l, elem_of_singleton. done.
  - constructor; [done|]. eapply Forall_impl; [exact Hseen|]. set_solver.
Qed.

Lemma appendAll_resilience pols op : op_Resilience (foldl (fun op pol => appendOperationPolicy pol op) op pols) = op_Resilience op.
Proof. revert op. induction pols as [|p pols IH]; intros op; [done|]. cbn [foldl]. by rewrite IH. Qed.

(** Accepted LLM proxies are transformed.  A proxy that the validator
    accepts becomes a REST API, provided the providers it names are stored
    with a context, the first of them is an LLM provider whose template
    exists, and the policies of the gateway are loaded: unique upstream names,
    authentication blocks and translators are not refused again.  The API
    forwards to the first provider over the loopback listener, has one
    upstream definition for each additional provider, under a name of its
    own, and the timeouts of the proxy on every operation. *)
Theorem accepted_llm_proxies_transform proxy cfg ctx provider tmpl :
  validateLLMProxy proxy = [] ->
  db_GetConfigByKindAndHandle (lpt_db t) "LlmProvider" (lxp_Id (lx_Provider proxy)) = inr (Some cfg) -> GetContext cfg = inr ctx ->
  sc_SourceConfiguration cfg = CfgLLMProvider provider -> getTemplateByHandle t (lp_Template provider) = inr tmpl ->
  Forall (fun ap => providerStored (lap_Id ap)) (default [] (lx_AdditionalProviders proxy)) ->
  policiesLoaded [UPSTREAM_AUTH_APIKEY_POLICY_NAME; PROXY_HOST__HEADER_POLICY_NAME] ->
  exists api, LLMProviderTransformer_Transform t (CfgLLMProxy proxy) tt = Ok tt api /\
    up_Url (acd_UpstreamMain (ra_Spec api)) = Some (loopbackURL t ctx) /\
    ud_Name <$> default [] (acd_UpstreamDefinitions (ra_Spec api)) = providerNameOf <$> default [] (lx_AdditionalProviders proxy) /\
    NoDup (lxp_Id (lx_Provider proxy) :: (providerNameOf <$> default [] (lx_AdditionalProviders proxy))) /\
    Forall (fun op => op_Resilience op = lx_Resilience proxy) (acd_Operations (ra_Spec api)).
Proof.
  intros [_ [_ Hs]%app_nil]%app_nil Hdb Hctx Hsrc Ht Hst Hl.
  do 2 apply app_nil in Hs as [_ Hs]. destruct (String.eqb (lxp_Id (lx_Provider proxy)) ""); [done|].
  apply app_nil in Hs as [_ [Ha [Hadd _]%app_nil]%app_nil].
  assert (policiesLoaded [UPSTREAM_AUTH_APIKEY_POLICY_NAME]) as Hl1 by (intros n ->%list_elem_of_singleton; apply Hl; left).
  assert (exists hp, hostPolicies t (lp_Vhost provider) = inr hp) as [[hpols hrw] Hhost].
  { unfold hostPolicies. destruct (lp_Vhost provider) as [[|c v]|]; [eauto| |eauto].
    destruct (Hl PROXY_HOST__HEADER_POLICY_NAME) as [ver ->]; [right; left|]. cbn. eauto. }
  destruct (additional_ok _ _ _ ∅ Hadd Hst Hl1) as [[[defs prefixes] Hdefs] Hpols]. destruct (Hpols prefixes) as [[more trs] Hmore].
  destruct (conditionalAuth_ok (lxp_Auth (lx_Provider proxy)) _ (apiKeyAuthValuePrefix (lp_GlobalPolicies provider)) "provider.auth"
    (lxp_Id (lx_Provider proxy)) true Ha Hl1) as [auths Hauth].
  cbn [LLMProviderTransformer_Transform]. unfold transformProxy. rewrite Hdb. cbn [orErr sum_bind]. rewrite Hsrc, Ht. cbn [orErr sum_bind]. rewrite Hctx. cbn [orErr sum_bind].
  rewrite Hdefs. cbn [sum_bind]. rewrite Hhost. cbn [sum_bind]. rewrite Hauth. cbn [sum_bind]. rewrite Hmore. cbn [sum_bind].
  eexists. split; [reflexivity|]. cbn [ra_Spec acd_UpstreamMain up_Url acd_UpstreamDefinitions acd_Operations]. split_and!; [done| | |].
  - apply additionalDefinitions_names in Hdefs as [Hnames _]. destruct (default [] (lx_AdditionalProviders proxy)); [done|exact Hnames].
  - apply additionalDefinitions_names in Hdefs as (_ & Hnd & Hseen). constructor; [|done]. intros Hin. rewrite Forall_forall in Hseen.
    by apply (Hseen _ Hin), elem_of_singleton.
  - assert (Forall (fun op => op_Resilience op = None) (operationsOf (proxyRegistry (st_Spec tmpl)
      (collectOperationLevelLLMPolicies (lx_OperationPolicies proxy) (lx_Policies proxy))))) as Hnone
      by exact (operationsOf_resilience _ (attachPolicies_keyed _ _ _ _ _ _ baseRegistry_keyed)).
    rewrite <- sort_perm in Hnone. unfold applyResilienceToTrafficRoutes. destruct (lx_Resilience proxy) as [r|].
    + apply Forall_fmap, Forall_true. intros op. cbn. by rewrite bool_decide_eq_false_2 by set_solver.
    + rewrite !Forall_fmap. eapply Forall_impl; [exact Hnone|]. intros op Hop. cbn. by rewrite !appendAll_resilience.
Qed.

End Provider.

(** ** MCP proxies *)

Section Mcp.
Context `{YamlUnmarshal}.

Lemma mcpResilience_resolves r : (exists ts, ResolveResilience r = inr ts) -> exists ts, ResolveResilience (Some (mcpResilience r)) = inr ts.
Proof.
  destruct r as [[idle timeout]|]; cbn [mcpResilience rs_Timeout rs_IdleTimeout]; [|by eexists; vm_compute]. unfold ResolveResilience.
  cbn [rs_Timeout rs_IdleTimeout]. intros [ts Hts]. apply sum_bind_inr in Hts as (a & Ha & Hts). apply sum_bind_inr in Hts as (b & Hb & _).
  destruct timeout as [timeout|]; [rewrite Ha; cbn; rewrite Hb; eexists; reflexivity|].
  cbn [sum_bind]. replace (parseDurationAllowZero (Some "0s")) with (inr (Some 0%Z) : string + option Z) by (vm_compute; reflexivity). cbn. rewrite Hb. eexists. reflexivity.
Qed.

(** C25: accepted MCP proxies deploy.  An MCP proxy that the validator accepts,
    and whose upstream credentials the YAML library reads back, becomes a REST
    API.  It serves GET, POST and DELETE of the MCP endpoint; its policies are
    those of the proxy with the upstream authentication last; its forwarding
    operations have the timeout of the proxy, or none at all when the proxy
    has none.  It can be deployed exactly if its upstream definitions can. *)
Theorem accepted_mcp_proxies_deploy pv config :
  validateMCPConfiguration pv config = [] ->
  (forall a h v, lpu_Auth (mc_Upstream config) = Some a -> lua_Header a = Some h -> lua_Value a = Some v -> exists params, GetParamsOfSetHeaders h v = inr params) ->
  exists api auth, MCPTransformer_Transform (CfgMCPProxy config) tt = Ok tt api /\
    (forall method, method ∈ ["GET"; "POST"; "DELETE"] -> exists op, op ∈ acd_Operations (ra_Spec api) /\
       EffectiveMethod op = method /\ EffectivePath op = MCP_RESOURCE_PATH /\ op_Resilience op = Some (mcpResilience (mc_Resilience config))) /\
    acd_Policies (ra_Spec api) = Some (default [] (mc_Policies config) ++ auth)%list /\
    (lpu_Auth (mc_Upstream config) <> None <-> exists params, auth = [mkApiPolicy None SET_HEADERS_POLICY_NAME (Some params) ""]) /\
    forall rt cfg, sc_Configuration cfg = CfgRestAPI api ->
      (exists rdc, RestTransform.Transform rt cfg = inr rdc) <-> Forall deployable (default [] (mc_UpstreamDefinitions config)).
Proof.
  intros [_ [_ [_ [Hs _]%app_nil]%app_nil]%app_nil]%app_nil Hy. do 4 apply app_nil in Hs as [_ Hs].
  apply app_nil in Hs as [Hdefs [Hu Hres]%app_nil].
  assert (exists auth, mcpAuthPolicy (lpu_Auth (mc_Upstream config)) tt = Ok tt auth /\
    (lpu_Auth (mc_Upstream config) <> None <-> exists params, auth = [mkApiPolicy None SET_HEADERS_POLICY_NAME (Some params) ""])) as (auth & Hauth & Hlast).
  { apply app_nil in Hu as [_ Ha]. unfold mcpAuthPolicy. destruct (lpu_Auth (mc_Upstream config)) as [a|]; [|exists []; split; [done|]; split; [done|by intros [? ?]]].
    apply app_nil in Ha as [_ [(h & Eh & _)%errorIf_nil%isEmpty_Some [(v & Ev & _)%errorIf_nil%isEmpty_Some _]%app_nil]%app_nil].
    destruct (Hy a h v eq_refl Eh Ev) as [params Hp]. rewrite Eh, Ev. unfold mbind, GoM_bind, lift_err. rewrite Hp. eexists. split; [reflexivity|]. split; eauto. }
  apply definitions_accepted in Hdefs. apply mcp_upstream_names, namesServer_resolvable in Hu. apply resilience_accepts in Hres.
  cbn [MCPTransformer_Transform]. unfold transformMCP, mbind, GoM_bind. rewrite Hauth. eexists _, auth. split; [reflexivity|].
  cbn [ra_Spec acd_Operations acd_Policies acd_UpstreamDefinitions]. split_and!; [|done|done|].
  - intros method Hm. exists (set_Resilience (Some (mcpResilience (mc_Resilience config))) (newOperation MCP_RESOURCE_PATH method)). split; [|done].
    unfold applyMCPResilience. apply list_elem_of_fmap. exists (newOperation MCP_RESOURCE_PATH method). split.
    + unfold isMCPForwardingOperation. cbn [EffectiveMethod EffectivePath newOperation op_Match op_Method op_Path]. set_unfold. by destruct Hm as [->|[->|[->|[]]]].
    + unfold addMCPSpecificOperations. rewrite elem_of_app, list_elem_of_fmap. left. eauto.
  - intros rt cfg Hc. rewrite (sound_deploys rt cfg _ Hc); cbn [ra_Spec acd_UpstreamDefinitions].
    + split; [by intros [_ ?]|]. by intros ?.
    + split; cbn [acd_UpstreamDefinitions acd_UpstreamMain acd_UpstreamSandbox acd_Resilience acd_Operations]; try done; [by exists (None, None)|].
      unfold applyMCPResilience. apply Forall_fmap, Forall_forall. intros op Hop. cbn.
      destruct (isMCPForwardingOperation op); [by apply mcpResilience_resolves|]. exists (None, None).
      unfold addMCPSpecificOperations in Hop. destruct (optionsRequired _), (protocolVersionComparator _ _); set_unfold; naive_solver.
Qed.

End Mcp.

End Accepted.

(** ** Concrete artifacts *)

Import SampleApi.
#[local] Existing Instance MapRange_list.
#[local] Existing Instance RegistryRange_list.
#[local] Existing Instance plainUrls.
#[local] Existing Instance anySchema.

Definition headersParams (name value : string) : Params :=
  {["request" := VMap [("headers", VList [VMap [("name", VString name); ("value", VString value)]])]]}.

(** A reader of the one document the transformer writes, with the quoting
    rules of YAML for a scalar in single quotes that has no quote inside. *)
Definition plainYaml : YamlUnmarshal := {|
  yaml_Unmarshal s :=
    let pre := "request:" +:+ newline +:+ "  headers:" +:+ newline +:+ "    - name: '" in
    let mid := newline +:+ "      value: '" in
    if HasPrefix s pre then
      match cutFirst "'" (string_drop (String.length pre) s) with
      | Some (name, rest) =>
          if HasPrefix rest mid then
            match cutFirst "'" (string_drop (String.length mid) rest) with
            | Some (value, rest') => if String.eqb rest' newline then inr (headersParams name value) else inl "yaml: did not find expected key"
            | None => inl "yaml: found unexpected end of stream"
            end
          else inl "yaml: did not find expected key"
      | None => inl "yaml: found unexpected end of stream"
      end
    else inl "yaml: cannot unmarshal"
|}.
#[local] Existing Instance plainYaml.

Lemma accepted_llm_providers_deploy_witness :
  exists api rdc, LLMProviderTransformer_Transform sampleResources (CfgLLMProvider denyAllProvider) tt = Ok tt api /\
    RestTransform.Transform transformer (mkStoredConfig "0003" "LlmProvider" "p" "OpenAI" "v1.0" (CfgRestAPI api) (CfgLLMProvider denyAllProvider) []) = inr rdc.
Proof.
  destruct (accepted_llm_providers_deploy sampleResources denyAllProvider (sampleTemplate ["/chat/completions"; "/models"])) as (api & Hapi & Hd);
    [by vm_compute|reflexivity|by intros name ?%elem_of_nil|].
  destruct (proj2 (Hd transformer (mkStoredConfig "0003" "LlmProvider" "p" "OpenAI" "v1.0" (CfgRestAPI api) (CfgLLMProvider denyAllProvider) []) eq_refl)) as [rdc Hr].
  - by apply Forall_nil.
  - exists api, rdc. done.
Defined.

(** A proxy in front of two providers. *)
Definition storedProvider (ctx : string) : StoredConfig :=
  mkStoredConfig "0004" "LlmProvider" ctx "OpenAI" "v1.0" (CfgOther "nil")
    (CfgLLMProvider (mkLLMProviderConfiguration API_VERSION "LlmProvider" (mkApiMetadata None None "p") (mkLLMAccessControl None "allow_all") (Some ctx) "OpenAI" None
       None None None "openai" (mkLLMProviderUpstream None None None (Some "https://api.openai.com")) None "v1.0" None)) [].

Definition proxyTransformer : LLMProviderTransformer :=
  mkLLMProviderTransformer (mkLLMStorage (fun _ id => inr (Some (storedProvider ("/" +:+ id)))) (fun _ => inr (sampleTemplate ["/chat/completions"]))) 8080
    (Some {["host-rewrite" := "v0"; "set-headers" := "v1"]}).

Definition apiKey (value : string) : LLMUpstreamAuth := mkLLMUpstreamAuth (Some "X-Key") "api-key" (Some value).

Definition additional (id : string) (as_ : option string) : LLMProxyAdditionalProvider :=
  mkLLMProxyAdditionalProvider as_ (Some (apiKey "k2")) id (Some (mkLLMProxyTransformer None "openai-to-other" "v1")).

Definition sampleProxy (aps : list LLMProxyAdditionalProvider) : LLMProxyConfiguration :=
  mkLLMProxyConfiguration API_VERSION "LlmProxy" (mkApiMetadata None None "assistant") (Some aps) (Some "/assistant") "Assistant" None None None
    (mkLLMProxyProvider (Some (apiKey "k1")) "openai") (Some (mkResilience None (Some "30s"))) "v1.0" None.

Lemma proxy_policies_loaded : policiesLoaded proxyTransformer [UPSTREAM_AUTH_APIKEY_POLICY_NAME; PROXY_HOST__HEADER_POLICY_NAME].
Proof. intros name Hn. set_unfold. destruct Hn as [->|[->|[]]]; eexists; vm_compute; reflexivity. Qed.

Lemma accepted_llm_proxies_transform_witness :
  exists api, LLMProviderTransformer_Transform proxyTransformer (CfgLLMProxy (sampleProxy [additional "claude" (Some "other")])) tt = Ok tt api /\
    up_Url (acd_UpstreamMain (ra_Spec api)) = Some "http://127.0.0.1:8080/openai" /\
    ud_Name <$> default [] (acd_UpstreamDefinitions (ra_Spec api)) = ["other"].
Proof.
  destruct (accepted_llm_proxies_transform proxyTransformer (sampleProxy [additional "claude" (Some "other")]) (storedProvider "/openai") "/openai" _
    (sampleTemplate ["/chat/completions"]) ltac:(vm_compute; reflexivity) eq_refl ltac:(vm_compute; reflexivity) eq_refl eq_refl) as (api & Hapi & Hurl & Hnames & _).
  - apply Forall_cons. split; [|by apply Forall_nil]. exists (storedProvider "/claude"), "/claude". split; vm_compute; reflexivity.
  - exact proxy_policies_loaded.
  - exists api. split; [exact Hapi|]. split; [rewrite Hurl; vm_compute; reflexivity|exact Hnames].
Defined.

(** The cluster that a definition of an accepted proxy becomes. *)
Definition definitionOf (proxy : LLMProxyConfiguration) (name : string) : option (list string * UpstreamCluster) :=
  match LLMProviderTransformer_Transform proxyTransformer (CfgLLMProxy proxy) tt with
  | Ok _ api =>
      let cfg := mkStoredConfig "0005" "LlmProxy" "assistant" "Assistant" "v1.0" (CfgRestAPI api) (CfgLLMProxy proxy) [] in
      match RestTransform.Transform transformer cfg, List.find (fun def => String.eqb (ud_Name def) name) (default [] (acd_UpstreamDefinitions (ra_Spec api))) with
      | inr rdc, Some def => (fun uc => (ut_Url <$> ud_Upstreams def, uc)) <$> rdc_UpstreamClusters rdc !! defClusterKeyOf cfg name
      | _, _ => None
      end
  | _ => None
  end.

(** The context of an additional provider is the path of the target URL of
    its definition, but the base path of a definition is a field of its own,
    which the transformer leaves empty: the cluster points at the root of the
    loopback listener. *)
Example additional_provider_context_is_lost :
  let proxy := sampleProxy [additional "claude" (Some "other")] in
  validateLLMProxy proxy = [] /\
  definitionOf proxy "other" =
    Some (["http://127.0.0.1:8080/claude"], mkUpstreamCluster "other" "/" [mkEndpoint "127.0.0.1" 8080 None] (Some false) None).
Proof. by vm_compute. Qed.

(** The names of definitions are made into cluster names by replacing dots
    with underscores: two providers of an accepted proxy can share a cluster,
    which is then that of the second. *)
Example proxy_providers_can_share_a_cluster :
  let proxy := sampleProxy [additional "a.b" None; additional "other" (Some "a_b")] in
  validateLLMProxy proxy = [] /\
  (fun d => uc_Name d.2) <$> definitionOf proxy "a.b" = Some "a_b".
Proof. by vm_compute. Qed.

(** An MCP proxy with credentials and a cross-origin policy. *)
Definition sampleMcp (value : string) : MCPProxyConfiguration :=
  mkMCPProxyConfiguration API_VERSION "Mcp" (mkApiMetadata None None "tools") (Some "/tools") "Tools"
    (Some [mkApiPolicy None "CORS" None "v1"]) (Some (mkResilience (Some "5m") None)) None
    (mkLLMProviderUpstream (Some (mkLLMUpstreamAuth (Some "Authorization") "bearer" (Some value))) None None (Some "https://mcp.example.com")) None "v1.0" None.

Lemma accepted_mcp_proxies_deploy_witness :
  exists api, MCPTransformer_Transform (CfgMCPProxy (sampleMcp "Bearer abc")) tt = Ok tt api /\
    exists rdc, RestTransform.Transform transformer (mkStoredConfig "0006" "Mcp" "tools" "Tools" "v1.0" (CfgRestAPI api) (CfgMCPProxy (sampleMcp "Bearer abc")) []) = inr rdc.
Proof.
  destruct (accepted_mcp_proxies_deploy None (sampleMcp "Bearer abc")) as (api & auth & Hapi & _ & _ & _ & Hd).
  - by vm_compute.
  - intros a h v [= <-] [= <-] [= <-]. eexists. vm_compute. reflexivity.
  - exists api. split; [exact Hapi|]. apply Hd; [reflexivity|]. by apply Forall_nil.
Defined.

(** The operations and their timeouts. *)
Example mcp_operations :
  match MCPTransformer_Transform (CfgMCPProxy (sampleMcp "Bearer abc")) tt with
  | Ok _ api => (fun op => (EffectiveMethod op, EffectivePath op, op_Resilience op)) <$> acd_Operations (ra_Spec api)
  | _ => []
  end =
  let r := Some (mkResilience (Some "5m") (Some "0s")) in
  [("GET", "/mcp", r); ("POST", "/mcp", r); ("DELETE", "/mcp", r); ("OPTIONS", "/mcp", None);
   ("GET", "/.well-known/oauth-protected-resource", None); ("OPTIONS", "/.well-known/oauth-protected-resource", None)].
Proof. by vm_compute. Qed.

(** Percent signs of a credential are doubled, and a quote in it makes the
    transformation of an accepted proxy fail. *)
Example mcp_credentials_are_altered :
  validateMCPConfiguration None (sampleMcp "Bearer a%2Fb") = [] /\
  match MCPTransformer_Transform (CfgMCPProxy (sampleMcp "Bearer a%2Fb")) tt with
  | Ok _ api => ap_Params <$> (default [] (acd_Policies (ra_Spec api)))
  | _ => []
  end = [None; Some (headersParams "Authorization" "Bearer a%%2Fb")] /\
  validateMCPConfiguration None (sampleMcp "Bearer it's") = [] /\
  MCPTransformer_Transform (CfgMCPProxy (sampleMcp "Bearer it's")) tt = Err tt "failed to build upstream auth params: yaml: did not find expected key".
Proof. by vm_compute. Qed.
