(* ===== verification/ArtifactTableTheorems.v ===== *)
(** * ArtifactTableTheorems: what the tables of artifacts guarantee

    Whatever statements fail, the tables stay consistent and a call changes
    them as a whole or not at all; what is written is read back; and of several
    deployments of an artifact the newest wins, whatever their order. *)

From stdpp Require Import base gmap strings list fin_maps sorting.
From S2P Require Import Prelude GoStrings ManagementApi ConfigStore StateSnapshots RestTransformTheorems ArtifactTables.

#[local] Set Warnings "-register-all".

Open Scope string_scope.

Section Theorems.
Context `{KindTables} `{SourceJSON}.

(** ** Consistency *)

Definition hasResource (t : ArtifactTables) (kind u : string) : Prop := exists table, kindToResourceTable kind = inr table /\ is_Some (ts_resources t !! (table, u)).

Record linked (t : ArtifactTables) : Prop := {
  ln_keys u r : ts_artifacts t !! u = Some r -> aw_uuid r = u;
  ln_handle u r : ts_artifacts t !! u = Some r -> aw_handle r <> "";
  ln_unique u u' r r' : ts_artifacts t !! u = Some r -> ts_artifacts t !! u' = Some r' -> sameHandle r r' \/ sameName r r' -> u = u';
  ln_refers table u rr : ts_resources t !! (table, u) = Some rr -> is_Some (ts_artifacts t !! u) /\
    forall p, re_provider_uuid rr = Some p -> is_Some (ts_resources t !! ("llm_providers", p))
}.

Record consistent (t : ArtifactTables) : Prop := {
  cn_linked : linked t;
  cn_resource u r : ts_artifacts t !! u = Some r -> hasResource t (aw_kind r) u
}.

(** The tables of artifacts and resources with an artifact written. *)
Definition putArtifact (row : Row) (table : string) (rr : ResourceRow) (t : ArtifactTables) : ArtifactTables :=
  set_resources (<[(table, aw_uuid row) := rr]> (ts_resources t)) (set_artifacts (<[aw_uuid row := row]> (ts_artifacts t)) t).

Lemma linked_row t row : linked t -> aw_handle row <> "" -> ¬ duplicates row (ts_artifacts t) -> linked (set_artifacts (<[aw_uuid row := row]> (ts_artifacts t)) t).
Proof.
  intros [Hk Hh Hu Hr] Hne Hd. assert (Hno : forall u r, ts_artifacts t !! u = Some r -> sameHandle row r \/ sameName row r -> u = aw_uuid row).
  { intros u r Hl Hs. destruct (decide (u = aw_uuid row)) as [|Hneq]; [done|]. destruct Hd. exists u, r. done. }
  split; cbn.
  - intros u r [[<- <-]|[_ Hl]]%lookup_insert_Some; [done|eauto].
  - intros u r [[<- <-]|[_ Hl]]%lookup_insert_Some; [done|eauto].
  - intros u u' r r' [[<- <-]|[Hn Hl]]%lookup_insert_Some [[<- <-]|[Hn' Hl']]%lookup_insert_Some Hs; [done| | |eauto].
    + symmetry. eauto.
    + apply (Hno u r Hl). unfold sameHandle, sameName in *. naive_solver.
  - intros table u rr Hl. destruct (Hr _ _ _ Hl) as [Ha Hp]. split; [|done]. destruct (decide (aw_uuid row = u)) as [<-|Hn]; [by rewrite lookup_insert_eq|by rewrite lookup_insert_ne].
Qed.

Lemma linked_resource t table u rr : linked t -> refersWell table u rr t = true -> linked (set_resources (<[(table, u) := rr]> (ts_resources t)) t).
Proof.
  intros [Hk Hh Hu Hr] Hw. apply andb_true_iff in Hw as [Ha%bool_decide_eq_true Hp]. split; cbn; try done.
  assert (Hkeep : forall p, is_Some (ts_resources t !! ("llm_providers", p)) -> is_Some (<[(table, u) := rr]> (ts_resources t) !! ("llm_providers", p))).
  { intros p Hs. destruct (decide ((table, u) = ("llm_providers", p))) as [->|Hn]; [by rewrite lookup_insert_eq|by rewrite lookup_insert_ne]. }
  intros table' u' rr' [[[= <- <-] <-]|[_ Hl]]%lookup_insert_Some.
  - split; [done|]. intros p Hp'. rewrite Hp' in Hp. apply bool_decide_eq_true in Hp. by apply Hkeep.
  - destruct (Hr _ _ _ Hl) as [Hs Hp']. split; [done|]. intros p Hpp. by apply Hkeep, Hp'.
Qed.

(** ** Single statements *)

Lemma putRow_inr r t t' : putRow r t = inr t' -> checksHold r = true /\ ¬ duplicates r (ts_artifacts t) /\ t' = set_artifacts (<[aw_uuid r := r]> (ts_artifacts t)) t.
Proof.
  unfold putRow. destruct (checksHold r); [|done]. cbn. destruct (bool_decide _) eqn:Hd; [done|]. apply bool_decide_eq_false in Hd. by intros [= <-].
Qed.

Lemma sqlUpdate_inr u g f t b t' : sqlUpdateArtifact u g f t = inr (b, t') ->
  match b with
  | true => exists old, ts_artifacts t !! u = Some old /\ g old = true /\ ¬ duplicates (f old) (ts_artifacts t) /\
              t' = set_artifacts (<[aw_uuid (f old) := f old]> (ts_artifacts t)) t
  | false => t' = t /\ forall old, ts_artifacts t !! u = Some old -> g old = false
  end.
Proof.
  unfold sqlUpdateArtifact. destruct (ts_artifacts t !! u) as [old|]; [|by intros [= <- <-]]. destruct (g old) eqn:Hg; [|by intros [= <- <-]; split; [|intros ? [= <-]]].
  destruct (putRow (f old) t) as [|t1] eqn:Hp; [done|]. intros [= <- <-]. apply putRow_inr in Hp as (_ & Hd & ->). eauto.
Qed.

Lemma sqlInsert_inr r t t' : sqlInsertArtifact r t = inr t' -> ts_artifacts t !! aw_uuid r = None /\ ¬ duplicates r (ts_artifacts t) /\
  t' = set_artifacts (<[aw_uuid r := r]> (ts_artifacts t)) t.
Proof. unfold sqlInsertArtifact. destruct (ts_artifacts t !! _); [done|]. intros (_ & Hd & ->)%putRow_inr. done. Qed.

Lemma putResource_inr table u rr t t' : putResource table u rr t = inr t' -> refersWell table u rr t = true /\ t' = set_resources (<[(table, u) := rr]> (ts_resources t)) t.
Proof. unfold putResource. destruct (refersWell _ _ _ _); [|done]. by intros [= <-]. Qed.

Lemma sqlUpdateResource_inr table u rr t b t' : sqlUpdateResource table u rr t = inr (b, t') ->
  if b then refersWell table u rr t = true /\ t' = set_resources (<[(table, u) := rr]> (ts_resources t)) t else t' = t /\ ts_resources t !! (table, u) = None.
Proof.
  unfold sqlUpdateResource. destruct (ts_resources t !! _); [|by intros [= <- <-]]. destruct (putResource _ _ _ _) eqn:Hp; [done|]. intros [= <- <-]. by apply putResource_inr.
Qed.

Lemma sqlInsertResource_inr table u rr t t' : sqlInsertResource table u rr t = inr t' ->
  refersWell table u rr t = true /\ t' = set_resources (<[(table, u) := rr]> (ts_resources t)) t.
Proof. unfold sqlInsertResource. destruct (String.eqb _ _); [done|]. destruct (ts_resources t !! _); [done|]. apply putResource_inr. Qed.

(** The insert-or-update updates the row, finds it newer, or inserts it. *)
Lemma upsert_inr fault table update present insert t b t' : (forall t1, update t = inr (false, t1) -> t1 = t) ->
  upsert fault table update present insert t = inr (b, t') ->
  (b = true /\ update t = inr (true, t')) \/ (b = false /\ update t = inr (false, t) /\ present t = true /\ t' = t) \/
  (b = true /\ update t = inr (false, t) /\ present t = false /\ insert t = inr t').
Proof.
  intros Hsame. unfold upsert, mbind, Tx_bind, mret, Tx_ret, stmt, changes. destruct (fault (DbUpdate table)); [done|].
  destruct (update t) as [|[[] t1]] eqn:Hu; [done|intros [= <- <-]; auto|]. assert (t1 = t) as -> by (by apply Hsame). clear Hsame. cbn.
  destruct (fault (DbExists table)); [done|]. destruct (present t) eqn:Hp; [intros [= <- <-]; right; by left|].
  destruct (fault (DbInsert table)); [done|]. destruct (insert t) as [ierr|t2] eqn:Hi; [|intros [= <- <-]; by right; right].
  destruct (isUniqueViolation ierr); [|done]. cbn. by rewrite Hu, Hp.
Qed.

Lemma resolve_inr fault handle t p t' : resolveProviderUUID fault handle t = inr (p, t') -> t' = t.
Proof. unfold resolveProviderUUID, stmt. destruct (fault _); [done|]. destruct (filter _ _) as [|[u r] ?]; [done|]. by intros [= <- <-]. Qed.

Lemma resourceRow_inr fault cfg t rr t' : resourceRow fault cfg t = inr (rr, t') -> t' = t /\ marshalSource (sc_SourceConfiguration cfg) = inr (re_configuration rr).
Proof.
  unfold resourceRow. destruct (marshalSource _) as [|json]; [done|]. destruct (String.eqb _ _); [|by intros [= <- <-]].
  destruct (sc_SourceConfiguration cfg); try done. unfold mbind, Tx_bind, wrapTx.
  destruct (resolveProviderUUID _ _ t) as [|[p t1]] eqn:Hp; [done|]. intros [= <- <-]. by apply resolve_inr in Hp.
Qed.

Lemma wrapTx_inr {A} message (m : Tx A) t r : wrapTx message m t = inr r -> m t = inr r.
Proof. unfold wrapTx. by destruct (m t). Qed.

(** What a successful write of an artifact makes of the tables. *)
Definition wrote (cfg : StoredConfig) (row : Row) (t t' : ArtifactTables) : Prop :=
  exists table rr, kindToResourceTable (sc_Kind cfg) = inr table /\ marshalSource (sc_SourceConfiguration cfg) = inr (re_configuration rr) /\
    ¬ duplicates row (ts_artifacts t) /\
    refersWell table (sc_UUID cfg) rr (set_artifacts (<[aw_uuid row := row]> (ts_artifacts t)) t) = true /\ t' = putArtifact row table rr t.

(** The three ways of writing the resource of an artifact. *)
Definition writesResource (cfg : StoredConfig) (m : Tx unit) : Prop := forall t u t', m t = inr (u, t') ->
  exists table rr, kindToResourceTable (sc_Kind cfg) = inr table /\ marshalSource (sc_SourceConfiguration cfg) = inr (re_configuration rr) /\
    refersWell table (sc_UUID cfg) rr t = true /\ t' = set_resources (<[(table, sc_UUID cfg) := rr]> (ts_resources t)) t.

Lemma withTable_inr {A} kind (m : string -> Tx A) t r : withTable kind m t = inr r -> exists table, kindToResourceTable kind = inr table /\ m table t = inr r.
Proof. unfold withTable. destruct (kindToResourceTable kind) as [|table]; [done|]. eauto. Qed.

Lemma Tx_bind_inr {A B} (m : Tx A) (k : A -> Tx B) t r : (m ≫= k) t = inr r -> exists a t1, m t = inr (a, t1) /\ k a t1 = inr r.
Proof. unfold mbind, Tx_bind. destruct (m t) as [|[a t1]]; [done|]. eauto. Qed.

Lemma stmt_inr {A} fault st (m : Tx A) t r : stmt fault st m t = inr r -> m t = inr r.
Proof. unfold stmt. by destruct (fault st). Qed.

Lemma changes_inr f t r : changes f t = inr r -> f t = inr r.2.
Proof. unfold changes. destruct (f t); [done|]. by intros [= <-]. Qed.

Lemma add_writes fault cfg : writesResource cfg (addResourceConfigTx fault cfg).
Proof.
  intros t u t' (table & Ht & (rr & t1 & [-> Hj]%resourceRow_inr & Hi)%Tx_bind_inr)%withTable_inr.
  apply wrapTx_inr, stmt_inr, changes_inr, sqlInsertResource_inr in Hi as [Hw Hi]. eauto 10.
Qed.

Lemma update_writes fault cfg : writesResource cfg (updateResourceConfigTx fault cfg).
Proof.
  intros t u t' (table & Ht & (rr & t1 & [-> Hj]%resourceRow_inr & (b & t2 & Hi & Hb)%Tx_bind_inr)%Tx_bind_inr)%withTable_inr.
  apply wrapTx_inr, stmt_inr, sqlUpdateResource_inr in Hi. destruct b; [|done]. destruct Hi as [Hw ->]. injection Hb as _ <-. eauto 10.
Qed.

Lemma upsert_writes fault cfg : writesResource cfg (upsertResourceConfigTx fault cfg).
Proof.
  intros t u t' (table & Ht & (rr & t1 & [-> Hj]%resourceRow_inr & (b & t2 & Hi & Hb)%Tx_bind_inr)%Tx_bind_inr)%withTable_inr.
  injection Hb as _ <-. apply wrapTx_inr, upsert_inr in Hi; [|by intros t3 [-> _]%sqlUpdateResource_inr].
  destruct Hi as [(_ & [Hw ->]%sqlUpdateResource_inr)|[(_ & Hn & Hp & _)|(_ & _ & _ & [Hw ->]%sqlInsertResource_inr)]]; [eauto 10| |eauto 10].
  apply sqlUpdateResource_inr in Hn as [_ Hn]. apply bool_decide_eq_true in Hp as [x Hx]. congruence.
Qed.

Lemma wrote_resource cfg row t m u t' : writesResource cfg m -> aw_uuid row = sc_UUID cfg -> ¬ duplicates row (ts_artifacts t) ->
  m (set_artifacts (<[aw_uuid row := row]> (ts_artifacts t)) t) = inr (u, t') -> wrote cfg row t t'.
Proof. intros Hm Hu Hd (table & rr & Ht & Hj & Hw & ->)%Hm. exists table, rr. split_and!; [done..|]. by rewrite <- Hu. Qed.

Lemma wrote_consistent cfg row t t' : consistent t -> aw_uuid row = sc_UUID cfg -> aw_kind row = sc_Kind cfg -> aw_handle row <> "" -> wrote cfg row t t' -> consistent t'.
Proof.
  intros [Hl Hr] Hu Hk Hh (table & rr & Ht & Hj & Hd & Hw & ->). pose proof (linked_row t row Hl Hh Hd) as Hl1. rewrite <- Hu in Hw.
  split; [by apply (linked_resource _ table (aw_uuid row) rr Hl1)|]. unfold putArtifact, hasResource. cbn.
  intros u r [[<- <-]|[Hn Ha]]%lookup_insert_Some.
  - exists table. rewrite Hk, lookup_insert_eq. done.
  - destruct (Hr u r Ha) as (table' & Ht' & Hs). exists table'. split; [done|]. rewrite lookup_insert_ne; [done|]. intros [= _ Hx]; done.
Qed.

(** ** The writing operations *)

Definition insertedRow (now : Z) (deployedAt : option Z) (a : Artifact) : Row := rowFor now deployedAt (ensureDataVersion a).

Lemma ensure_config a : at_config (ensureDataVersion a) = at_config a /\ at_DeployedAt (ensureDataVersion a) = at_DeployedAt a.
Proof. unfold ensureDataVersion. by destruct (String.eqb _ _). Qed.

Lemma inserted_keys now d a : aw_uuid (insertedRow now d a) = sc_UUID (at_config a) /\ aw_kind (insertedRow now d a) = sc_Kind (at_config a) /\
  aw_handle (insertedRow now d a) = sc_Handle (at_config a).
Proof. unfold insertedRow, rowFor. cbn. by rewrite (proj1 (ensure_config a)). Qed.

Lemma transaction_cases {A} fault b m (tx : Tx A) t :
  match transaction fault b m tx t with Err t' _ => t' = t | Ok t' a => tx t = inr (a, t') | Panic => False end.
Proof. unfold transaction. destruct (fault DbBegin); [done|]. destruct (tx t) as [|[a t1]] eqn:Ht; [done|]. by destruct (fault DbCommit). Qed.

Lemma SaveConfig_cases fault now a t :
  match SaveConfig fault now a t with
  | Ok t' _ => ts_artifacts t !! sc_UUID (at_config a) = None /\ sc_Handle (at_config a) <> "" /\ wrote (at_config a) (insertedRow now (nonZero (at_DeployedAt a)) a) t t'
  | Err t' _ => t' = t
  | Panic => False
  end.
Proof.
  unfold SaveConfig. destruct (String.eqb_spec (sc_Handle (at_config a)) "") as [|Hh]; [done|]. pose proof (ensure_config a) as [Hc Hd]. rewrite Hc, Hd.
  match goal with |- context [transaction fault ?b ?m ?tx t] => pose proof (transaction_cases fault b m tx t) as Ht; destruct (transaction fault b m tx t) as [t' []|t' e|]; [|done|done] end.
  apply Tx_bind_inr in Ht as (u1 & t1 & Hp & Ht). apply stmt_inr in Hp. injection Hp as _ <-. apply Tx_bind_inr in Ht as (u2 & t2 & Hi & Ht).
  fold (insertedRow now (nonZero (at_DeployedAt a)) a) in Hi. pose proof (inserted_keys now (nonZero (at_DeployedAt a)) a) as (Hu & Hk & Hha).
  destruct (stmt _ _ _ t) as [|[u3 t3]] eqn:Hs; [by destruct (isUniqueViolation _)|]. apply stmt_inr, changes_inr in Hs. injection Hi as _ <-.
  cbn in Hs. apply sqlInsert_inr in Hs as (Hn & Hd' & ->). cbn in Ht. split_and!; [congruence|done|]. eapply wrote_resource; [apply add_writes|done|done|].
  apply wrapTx_inr in Ht. exact Ht.
Qed.

Definition updatedRow (now : Z) (a : Artifact) (old : Row) : Row :=
  let row := insertedRow now (nonZero (at_DeployedAt a)) a in overwriteRow row (aw_cp_artifact_id row) old.

Lemma UpdateConfig_cases fault now a t :
  match UpdateConfig fault now a t with
  | Ok t' _ => exists old, ts_artifacts t !! sc_UUID (at_config a) = Some old /\ sc_Handle (at_config a) <> "" /\
                 (aw_uuid old = sc_UUID (at_config a) -> wrote (at_config a) (updatedRow now a old) t t')
  | Err t' _ => t' = t
  | Panic => False
  end.
Proof.
  unfold UpdateConfig. destruct (GetConfig _ _ _); [done|]. destruct (String.eqb_spec (sc_Handle (at_config a)) "") as [|Hh]; [done|].
  pose proof (ensure_config a) as [Hc Hd]. rewrite Hc, Hd.
  match goal with |- context [transaction fault ?b ?m ?tx t] => pose proof (transaction_cases fault b m tx t) as Ht; destruct (transaction fault b m tx t) as [t' []|t' e|]; [|done|done] end.
  apply Tx_bind_inr in Ht as (u1 & t1 & Hp & Ht). apply stmt_inr in Hp. injection Hp as _ <-. apply Tx_bind_inr in Ht as (b & t2 & Hi & Ht).
  apply wrapTx_inr, stmt_inr, sqlUpdate_inr in Hi. destruct b; [|done]. destruct Hi as (old & Ho & _ & Hdup & ->). exists old. split_and!; [done..|]. intros Hu.
  eapply wrote_resource; [apply update_writes|done|exact Hdup|]. apply wrapTx_inr in Ht. exact Ht.
Qed.

Definition upsertedRow (now : Z) (a : Artifact) (t : ArtifactTables) : Row :=
  let row := insertedRow now (at_DeployedAt a) a in
  match ts_artifacts t !! sc_UUID (at_config a) with Some old => overwriteRow row (aw_cp_artifact_id old) old | None => row end.

Lemma UpsertConfig_cases fault now a t : linked t ->
  match UpsertConfig fault now a t with
  | Ok t' true => sc_Handle (at_config a) <> "" /\ wrote (at_config a) (upsertedRow now a t) t t' /\
                  (forall old, ts_artifacts t !! sc_UUID (at_config a) = Some old -> isNewer (at_DeployedAt a) old = true)
  | Ok t' false => t' = t /\ exists old, ts_artifacts t !! sc_UUID (at_config a) = Some old /\ isNewer (at_DeployedAt a) old = false
  | Err t' _ => t' = t
  | Panic => False
  end.
Proof.
  intros Hl. unfold UpsertConfig. destruct (String.eqb_spec (sc_Handle (at_config a)) "") as [|Hh]; [done|]. pose proof (ensure_config a) as [Hc Hd]. rewrite Hc, Hd.
  destruct (fault DbBegin); [done|]. fold (insertedRow now (at_DeployedAt a) a). destruct (wrapTx _ _ t) as [|[b t1]] eqn:Hu; [done|].
  apply wrapTx_inr, upsert_inr in Hu; [|by intros t2 [-> _]%sqlUpdate_inr]. pose proof (inserted_keys now (at_DeployedAt a) a) as (Hku & Hkk & Hkh).
  assert (Hcase : match b with
    | true => ¬ duplicates (upsertedRow now a t) (ts_artifacts t) /\ t1 = set_artifacts (<[aw_uuid (upsertedRow now a t) := upsertedRow now a t]> (ts_artifacts t)) t /\
              aw_uuid (upsertedRow now a t) = sc_UUID (at_config a) /\ (forall old, ts_artifacts t !! sc_UUID (at_config a) = Some old -> isNewer (at_DeployedAt a) old = true)
    | false => t1 = t /\ exists old, ts_artifacts t !! sc_UUID (at_config a) = Some old /\ isNewer (at_DeployedAt a) old = false
    end).
  { unfold upsertedRow. destruct Hu as [(-> & (old & Ho & Hg & Hdup & ->)%sqlUpdate_inr)|[(-> & [_ Hn]%sqlUpdate_inr & [old Ho]%bool_decide_eq_true & ->)|
      (-> & [_ Hn]%sqlUpdate_inr & Hp%bool_decide_eq_false & (Ha & Hdup & ->)%sqlInsert_inr)]].
    - rewrite Ho. split_and!; [done..|exact (ln_keys _ Hl _ _ Ho)|]. by intros ? [= <-].
    - split; [done|]. exists old. auto.
    - rewrite Hku in Ha. rewrite Ha. by split_and!. }
  clear Hu. destruct b; [|destruct Hcase as [-> ?]; done]. destruct Hcase as (Hdup & -> & Huu & Hnew).
  destruct (wrapTx _ _ _) as [|[u2 t2]] eqn:Hr; [done|]. destruct (fault DbCommit); [done|]. apply wrapTx_inr in Hr. split_and!; [done| |done].
  by eapply wrote_resource; [apply upsert_writes|..].
Qed.

Definition removeArtifact (id : string) (t : ArtifactTables) : ArtifactTables :=
  mkArtifactTables (delete id (ts_artifacts t)) (filter (fun kv => kv.1.2 <> id) (ts_resources t))
    (filter (fun s => sub_APIID s <> id) (ts_subscriptions t)) (filter (fun k => ck_ArtifactUUID k <> id) (ts_apiKeys t)).

Lemma DeleteConfig_cases fault id t :
  match DeleteConfig fault id t with
  | Ok t' _ => is_Some (ts_artifacts t !! id) /\ ¬ providerOf id t /\ t' = removeArtifact id t
  | Err t' _ => t' = t
  | Panic => False
  end.
Proof.
  unfold DeleteConfig.
  match goal with |- context [transaction fault ?b ?m ?tx t] => pose proof (transaction_cases fault b m tx t) as Ht; destruct (transaction fault b m tx t) as [t' []|t' e|]; [|done|done] end.
  apply Tx_bind_inr in Ht as (u1 & t1 & Hp & Ht). apply wrapTx_inr, stmt_inr in Hp. injection Hp as _ <-.
  apply Tx_bind_inr in Ht as (u2 & t2 & Hp & Ht). apply wrapTx_inr, stmt_inr in Hp. injection Hp as _ <-.
  apply Tx_bind_inr in Ht as (b & t3 & Hp & Ht). apply wrapTx_inr, stmt_inr in Hp. destruct b; [|done]. injection Ht as <-.
  unfold sqlDeleteArtifact in Hp. cbn in Hp. destruct (ts_artifacts t !! id) as [r|]; [|done].
  destruct (bool_decide _) eqn:Hd; [done|]. apply bool_decide_eq_false in Hd. injection Hp as <-. by split_and!.
Qed.

Lemma removeArtifact_consistent id t : consistent t -> ¬ providerOf id t -> consistent (removeArtifact id t).
Proof.
  intros [[Hk Hh Hu Hr] Hc] Hp. split; [split|]; cbn.
  - intros u r [_ Hl]%lookup_delete_Some. eauto.
  - intros u r [_ Hl]%lookup_delete_Some. eauto.
  - intros u u' r r' [_ Hl]%lookup_delete_Some [_ Hl']%lookup_delete_Some. eauto.
  - intros table u rr [Hl Hn]%map_lookup_filter_Some. cbn in Hn. destruct (Hr _ _ _ Hl) as [Ha Hpr]. split; [by rewrite lookup_delete_ne|].
    intros p Hpp. destruct (Hpr p Hpp) as [x Hx]. exists x. apply map_lookup_filter_Some. split; [done|]. cbn. intros ->. apply Hp. split; [by exists x|]. by exists (table, u), rr.
  - intros u r [Hn Hl]%lookup_delete_Some. destruct (Hc u r Hl) as (table & Ht & [x Hx]). exists table. split; [done|]. exists x.
    apply map_lookup_filter_Some. split; [done|]. cbn. congruence.
Qed.

Lemma UpdateCPSyncStatus_cases fault now uuid cp status reason t :
  match UpdateCPSyncStatus fault now uuid cp status reason t with
  | Ok t' _ => exists old new, ts_artifacts t !! uuid = Some old /\ t' = set_artifacts (<[uuid := new]> (ts_artifacts t)) t /\
      aw_uuid new = aw_uuid old /\ aw_handle new = aw_handle old /\ aw_kind new = aw_kind old /\ aw_display_name new = aw_display_name old /\ aw_version new = aw_version old /\
      ¬ duplicates new (ts_artifacts t)
  | Err t' _ => t' = t
  | Panic => False
  end \/ ~ linked t.
Proof.
  unfold UpdateCPSyncStatus. destruct (stmt _ _ _ t) as [|[[] t1]] eqn:Hs; [by left| |by left]. apply stmt_inr, sqlUpdate_inr in Hs as (old & Ho & _ & Hd & ->).
  destruct (decide (aw_uuid old = uuid)) as [Hu|Hu]; [left|right; intros Hl; by apply Hu, (ln_keys _ Hl)]. exists old. eexists. split_and!; [done| |..|exact Hd]; try done. by cbn; rewrite Hu.
Qed.

(** ** Any sequence of calls *)

Inductive TableOp : Type :=
| OpSave (a : Artifact) | OpUpdate (a : Artifact) | OpUpsert (a : Artifact) | OpDelete (id : string)
| OpSyncStatus (uuid cp status reason : string) | OpRemoveKeys (id : string) | OpDeleteSubscriptions (id : string) (ids : list string).

Definition performTable (fault : DbStmt -> option string) (now : Z) (op : TableOp) : GoM ArtifactTables unit :=
  match op with
  | OpSave a => SaveConfig fault now a
  | OpUpdate a => UpdateConfig fault now a
  | OpUpsert a => UpsertConfig fault now a;; mret tt
  | OpDelete id => DeleteConfig fault id
  | OpSyncStatus uuid cp status reason => UpdateCPSyncStatus fault now uuid cp status reason
  | OpRemoveKeys id => RemoveAPIKeysAPI fault id
  | OpDeleteSubscriptions id ids => DeleteSubscriptionsForAPINotIn fault id ids
  end.

Inductive reachableTables : ArtifactTables -> Prop :=
| tables_new : reachableTables (mkArtifactTables ∅ ∅ [] [])
| tables_step t fault now op t' : reachableTables t -> leads (performTable fault now op) t t' -> reachableTables t'.

Lemma consistent_new : consistent (mkArtifactTables ∅ ∅ [] []).
Proof.
  split; [split|]; cbn.
  - intros u r. by rewrite lookup_empty.
  - intros u r. by rewrite lookup_empty.
  - intros u u' r r'. by rewrite lookup_empty.
  - intros table u rr. by rewrite lookup_empty.
  - intros u r. by rewrite lookup_empty.
Qed.

(** The tables that say nothing about artifacts do not matter. *)
Lemma consistent_ext t t' : ts_artifacts t' = ts_artifacts t -> ts_resources t' = ts_resources t -> consistent t -> consistent t'.
Proof. intros Ha Hr [[Hk Hh Hu Hf] Hc]. split; [split|]; unfold hasResource; rewrite ?Ha, ?Hr; done. Qed.

Lemma updated_keys now a old : aw_uuid (updatedRow now a old) = aw_uuid old /\ aw_kind (updatedRow now a old) = sc_Kind (at_config a) /\
  aw_handle (updatedRow now a old) = sc_Handle (at_config a).
Proof. unfold updatedRow. cbn. pose proof (inserted_keys now (nonZero (at_DeployedAt a)) a) as (_ & Hk & Hh). done. Qed.

Lemma upserted_keys now a t : linked t -> aw_uuid (upsertedRow now a t) = sc_UUID (at_config a) /\ aw_kind (upsertedRow now a t) = sc_Kind (at_config a) /\
  aw_handle (upsertedRow now a t) = sc_Handle (at_config a).
Proof.
  intros Hl. pose proof (inserted_keys now (at_DeployedAt a) a) as (Hu & Hk & Hh). unfold upsertedRow. destruct (ts_artifacts t !! _) as [old|] eqn:Ho; [|done].
  cbn. split_and!; [exact (ln_keys _ Hl _ _ Ho)|done..].
Qed.

Lemma sync_consistent uuid old new t : consistent t -> ts_artifacts t !! uuid = Some old -> aw_uuid new = aw_uuid old -> aw_handle new = aw_handle old ->
  aw_kind new = aw_kind old -> ¬ duplicates new (ts_artifacts t) -> consistent (set_artifacts (<[uuid := new]> (ts_artifacts t)) t).
Proof.
  intros [Hl Hc] Ho Hu Hh Hk Hd. assert (aw_uuid new = uuid) as Hn by (rewrite Hu; by apply (ln_keys _ Hl)). split.
  - rewrite <- Hn. apply linked_row; [done| |done]. rewrite Hh. by eapply ln_handle.
  - cbn. unfold hasResource. cbn. intros u r [[<- <-]|[_ Ha]]%lookup_insert_Some; [|by apply Hc]. rewrite Hk. by apply Hc.
Qed.

Lemma step_consistent t fault now op t' : consistent t -> leads (performTable fault now op) t t' -> consistent t'.
Proof.
  intros Hc Hle. pose proof (cn_linked _ Hc) as Hl. destruct op; cbn in Hle.
  - pose proof (SaveConfig_cases fault now a t) as Hs. destruct Hle as [[? Hm]|[? Hm]]; rewrite Hm in Hs; [|by subst]. destruct Hs as (_ & Hh & Hw).
    pose proof (inserted_keys now (nonZero (at_DeployedAt a)) a) as (Hu & Hk & Hha). eapply wrote_consistent; [done|exact Hu|exact Hk| |exact Hw]. by rewrite Hha.
  - pose proof (UpdateConfig_cases fault now a t) as Hs. destruct Hle as [[? Hm]|[? Hm]]; rewrite Hm in Hs; [|by subst]. destruct Hs as (old & Ho & Hh & Hw).
    pose proof (updated_keys now a old) as (Hu & Hk & Hha). pose proof (ln_keys _ Hl _ _ Ho) as Hou.
    eapply wrote_consistent; [done| |exact Hk| |by apply Hw]; [congruence|by rewrite Hha].
  - pose proof (UpsertConfig_cases fault now a t Hl) as Hs. unfold leads, mbind, GoM_bind in Hle.
    destruct (UpsertConfig fault now a t) as [t1 b|t1 e|]; [|destruct Hle as [[? [=]]|[? [= <- _]]]; by subst|by destruct Hle as [[? [=]]|[? [=]]]].
    destruct Hle as [[? [= <-]]|[? [=]]]. destruct b; [|destruct Hs as [-> _]; done]. destruct Hs as (Hh & Hw & _).
    pose proof (upserted_keys now a t Hl) as (Hu & Hk & Hha). eapply wrote_consistent; [done|exact Hu|exact Hk| |exact Hw]. by rewrite Hha.
  - pose proof (DeleteConfig_cases fault id t) as Hs. destruct Hle as [[? Hm]|[? Hm]]; rewrite Hm in Hs; [|by subst]. destruct Hs as (_ & Hp & ->).
    by apply removeArtifact_consistent.
  - destruct (UpdateCPSyncStatus_cases fault now uuid cp status reason t) as [Hs|]; [|done]. destruct Hle as [[? Hm]|[? Hm]]; rewrite Hm in Hs; [|by subst].
    destruct Hs as (old & new & Ho & -> & Hu & Hh & Hk & _ & _ & Hd). by eapply sync_consistent.
  - unfold RemoveAPIKeysAPI, leads in Hle. destruct (fault _); destruct Hle as [[? [= <-]]|[? [= <- _]]]; try done. by apply (consistent_ext t).
  - unfold DeleteSubscriptionsForAPINotIn, leads in Hle. destruct (String.eqb _ _); [|destruct (fault _)]; destruct Hle as [[? Hm]|[? Hm]]; simplify_eq; try done.
    by apply (consistent_ext t).
Qed.

Lemma reachable_consistent t : reachableTables t -> consistent t.
Proof. induction 1 as [|t fault now op t' _ IH Hs]; [apply consistent_new|by eapply step_consistent]. Qed.

(** ** Reading back *)

(** No statement fails. *)
Definition noDbFault (st : DbStmt) : option string := None.

Lemma selectOne_found (P : Row -> Prop) `{!forall r, Decision (P r)} missing t u r : ts_artifacts t !! u = Some r -> P r ->
  (forall u' r', ts_artifacts t !! u' = Some r' -> P r' -> r' = r) -> selectOne noDbFault P missing t = loadResourceConfig noDbFault (scanRow r) t.
Proof.
  intros Hl HP Hu. unfold selectOne. cbn. destruct (filter P (map_to_list (ts_artifacts t)).*2) as [|r' l] eqn:Hf.
  - exfalso. eapply (filter_nil_not_elem_of P); [exact Hf|exact HP|]. apply list_elem_of_fmap. exists (u, r). split; [done|]. by apply elem_of_map_to_list.
  - assert (r' ∈ filter P (map_to_list (ts_artifacts t)).*2) as [HP' ([u' r''] & -> & Hin%elem_of_map_to_list)%list_elem_of_fmap]%list_elem_of_filter by (rewrite Hf; left).
    by rewrite (Hu u' r'' Hin HP').
Qed.

Lemma selectOne_missing (P : Row -> Prop) `{!forall r, Decision (P r)} missing t : (forall u r, ts_artifacts t !! u = Some r -> ¬ P r) ->
  selectOne noDbFault P missing t = inl (ErrNotFound +:+ ": " +:+ missing).
Proof.
  intros Hn. unfold selectOne. cbn. destruct (filter P (map_to_list (ts_artifacts t)).*2) as [|r l] eqn:Hf; [done|].
  assert (r ∈ filter P (map_to_list (ts_artifacts t)).*2) as [HP ([u r'] & -> & Hin%elem_of_map_to_list)%list_elem_of_fmap]%list_elem_of_filter by (rewrite Hf; left).
  by destruct (Hn u r' Hin).
Qed.

(** The artifact of an identifier. *)
Definition artifactAt (t : ArtifactTables) (u : string) : option Artifact :=
  r ← ts_artifacts t !! u; match loadResourceConfig noDbFault (scanRow r) t with inr a => Some a | inl _ => None end.

Lemma GetConfig_spec t u : linked t -> match ts_artifacts t !! u with
  | Some r => GetConfig noDbFault t u = loadResourceConfig noDbFault (scanRow r) t
  | None => GetConfig noDbFault t u = inl (ErrNotFound +:+ ": id=" +:+ u)
  end.
Proof.
  intros Hl. destruct (ts_artifacts t !! u) as [r|] eqn:Hu.
  - eapply selectOne_found; [exact Hu|by apply (ln_keys _ Hl)|]. intros u' r' Hu' Hr'. pose proof (ln_keys _ Hl _ _ Hu'). naive_solver.
  - apply selectOne_missing. intros u' r' Hu' Hr'. pose proof (ln_keys _ Hl _ _ Hu'). naive_solver.
Qed.

Lemma GetByHandle_spec t u r : linked t -> ts_artifacts t !! u = Some r ->
  GetConfigByKindAndHandle noDbFault t (aw_kind r) (aw_handle r) = GetConfig noDbFault t u.
Proof.
  intros Hl Hu. pose proof (GetConfig_spec t u Hl) as Hg. rewrite Hu in Hg. rewrite Hg. eapply selectOne_found; [exact Hu|done|]. intros u' r' Hu' [Hk Hh].
  assert (u' = u) as -> by (eapply (ln_unique _ Hl); [exact Hu'|exact Hu|by left]). naive_solver.
Qed.

Lemma GetByName_spec t u r : linked t -> ts_artifacts t !! u = Some r ->
  GetConfigByKindNameAndVersion noDbFault t (aw_kind r) (aw_display_name r) (aw_version r) = GetConfig noDbFault t u.
Proof.
  intros Hl Hu. pose proof (GetConfig_spec t u Hl) as Hg. rewrite Hu in Hg. rewrite Hg. eapply selectOne_found; [exact Hu|done|]. intros u' r' Hu' (Hk & Hn & Hv).
  assert (u' = u) as -> by (eapply (ln_unique _ Hl); [exact Hu'|exact Hu|by right]). naive_solver.
Qed.

(** What is read of an artifact that was written: the source is the
    configuration, too, except of an MCP proxy. *)
Definition readBack (cfg : StoredConfig) : StoredConfig :=
  mkStoredConfig (sc_UUID cfg) (sc_Kind cfg) (sc_Handle cfg) (sc_DisplayName cfg) (sc_Version cfg)
    (if String.eqb (sc_Kind cfg) "Mcp" then nilConfiguration else sc_SourceConfiguration cfg) (sc_SourceConfiguration cfg) [].

Definition coreKinds : list string := ["RestApi"; "LlmProvider"; "LlmProxy"; "Mcp"].

(** The JSON of the source is not empty and gives the source back. *)
Definition travels (cfg : StoredConfig) : Prop :=
  forall json, marshalSource (sc_SourceConfiguration cfg) = inr json -> json <> "" /\ unmarshalKind (sc_Kind cfg) json = inr (sc_SourceConfiguration cfg).

(** The row carries the identity of the artifact. *)
Definition rowOfConfig (cfg : StoredConfig) (row : Row) : Prop :=
  aw_uuid row = sc_UUID cfg /\ aw_kind row = sc_Kind cfg /\ aw_handle row = sc_Handle cfg /\ aw_display_name row = sc_DisplayName cfg /\ aw_version row = sc_Version cfg.

Lemma unmarshal_readBack cfg row json : rowOfConfig cfg row -> sc_Kind cfg ∈ coreKinds -> unmarshalKind (sc_Kind cfg) json = inr (sc_SourceConfiguration cfg) ->
  unmarshalSourceConfig (at_config (scanRow row)) json = inr (readBack cfg).
Proof.
  intros (Hu & Hk & Hh & Hn & Hv) Hc Hj. unfold unmarshalSourceConfig, readBack, set_Both, set_Source. cbn. rewrite Hk, Hu, Hh, Hn, Hv, Hj.
  unfold coreKinds in Hc. rewrite !elem_of_cons in Hc. destruct Hc as [->|[->|[->|[->|Hc]]]]; [done..|by apply not_elem_of_nil in Hc].
Qed.

Lemma wrote_reads cfg row t t' : wrote cfg row t t' -> rowOfConfig cfg row -> sc_Kind cfg ∈ coreKinds -> travels cfg ->
  artifactAt t' (sc_UUID cfg) = Some (with_config (scanRow row) (readBack cfg)).
Proof.
  intros (table & rr & Ht & Hj & _ & _ & ->) Hr Hc Htr. destruct (Htr _ Hj) as [Hne Hun]. pose proof Hr as (Hu & Hk & _). unfold artifactAt. cbn.
  rewrite Hu, lookup_insert_eq. cbn. unfold loadResourceConfig. cbn. rewrite Hk, Ht, Hu, lookup_insert_eq. unfold loadText.
  destruct (String.eqb_spec (re_configuration rr) ""); [done|]. by rewrite (unmarshal_readBack cfg).
Qed.

(** Other artifacts are not touched. *)
Lemma load_ext t t' r : (forall table, ts_resources t' !! (table, aw_uuid r) = ts_resources t !! (table, aw_uuid r)) ->
  loadResourceConfig noDbFault (scanRow r) t' = loadResourceConfig noDbFault (scanRow r) t.
Proof. intros Hr. unfold loadResourceConfig. cbn. destruct (kindToResourceTable _); [done|]. by rewrite Hr. Qed.

Lemma wrote_others cfg row t t' v : linked t -> wrote cfg row t t' -> aw_uuid row = sc_UUID cfg -> v <> sc_UUID cfg -> artifactAt t' v = artifactAt t v.
Proof.
  intros Hl (table & rr & _ & _ & _ & _ & ->) Hu Hv. unfold artifactAt. cbn. rewrite lookup_insert_ne by congruence.
  destruct (ts_artifacts t !! v) as [r|] eqn:Hr; [|done]. cbn. rewrite (load_ext t); [done|]. intros table'. cbn. rewrite lookup_insert_ne; [done|].
  intros [= _ Hx]. apply (ln_keys _ Hl) in Hr. congruence.
Qed.

Lemma removed_artifacts id t v : linked t -> artifactAt (removeArtifact id t) v = if decide (v = id) then None else artifactAt t v.
Proof.
  intros Hl. unfold artifactAt. cbn. destruct (decide (v = id)) as [->|Hv]; [by rewrite lookup_delete_eq|]. rewrite lookup_delete_ne by done.
  destruct (ts_artifacts t !! v) as [r|] eqn:Hr; [|done]. cbn. rewrite (load_ext t); [done|]. intros table. cbn. apply (ln_keys _ Hl) in Hr.
  rewrite map_lookup_filter. destruct (ts_resources t !! (table, aw_uuid r)); [|done]. cbn. by rewrite option_guard_True by (cbn; congruence).
Qed.

Lemma inserted_row now d a : rowOfConfig (at_config a) (insertedRow now d a).
Proof. unfold rowOfConfig, insertedRow, rowFor. cbn. by rewrite (proj1 (ensure_config a)). Qed.

Lemma updated_row now a old : aw_uuid old = sc_UUID (at_config a) -> rowOfConfig (at_config a) (updatedRow now a old).
Proof. intros Hu. destruct (inserted_row now (nonZero (at_DeployedAt a)) a) as (_ & Hk & Hh & Hn & Hv). by repeat split. Qed.

Lemma upserted_row now a t : linked t -> rowOfConfig (at_config a) (upsertedRow now a t).
Proof.
  intros Hl. destruct (inserted_row now (at_DeployedAt a) a) as (Hu & Hk & Hh & Hn & Hv). unfold upsertedRow.
  destruct (ts_artifacts t !! _) as [old|] eqn:Ho; [|done]. repeat split; try done. exact (ln_keys _ Hl _ _ Ho).
Qed.

(** ** Deployments of one artifact *)

Record Deployment : Type := mkDeployment { dp_fault : DbStmt -> option string; dp_now : Z; dp_artifact : Artifact }.

(** All calls succeed. *)
Fixpoint upsertAll (ds : list Deployment) (t : ArtifactTables) : option ArtifactTables :=
  match ds with
  | [] => Some t
  | d :: ds' => match UpsertConfig (dp_fault d) (dp_now d) (dp_artifact d) t with Ok t' _ => upsertAll ds' t' | _ => None end
  end.

Definition deploymentOf (u : string) (time : Z) (d : Deployment) : Prop := sc_UUID (at_config (dp_artifact d)) = u /\ at_DeployedAt (dp_artifact d) = Some time.

(** The time of the deployment the tables have is before another. *)
Definition before (t : ArtifactTables) (u : string) (T : Z) : Prop := forall r z, ts_artifacts t !! u = Some r -> aw_deployed_at r = Some z -> (z < T)%Z.

Definition timeBefore (u : string) (T : Z) (d : Deployment) : Prop := exists z, deploymentOf u z d /\ (z < T)%Z.

Lemma upsert_before d t t' b u T : consistent t -> UpsertConfig (dp_fault d) (dp_now d) (dp_artifact d) t = Ok t' b -> timeBefore u T d -> before t u T ->
  consistent t' /\ before t' u T.
Proof.
  intros Hc Hok (z & [Hu Hz] & HT) Hb. split.
  { eapply (step_consistent t (dp_fault d) (dp_now d) (OpUpsert (dp_artifact d))); [done|]. left. cbn. exists tt. unfold mbind, GoM_bind. by rewrite Hok. }
  pose proof (UpsertConfig_cases (dp_fault d) (dp_now d) (dp_artifact d) t (cn_linked _ Hc)) as Hs. rewrite Hok in Hs. destruct b; [|by destruct Hs as [-> _]].
  destruct Hs as (_ & (table & rr & _ & _ & _ & _ & ->) & _). destruct (upserted_row (dp_now d) (dp_artifact d) t (cn_linked _ Hc)) as (Hru & _).
  intros r z' Hl Hd. cbn in Hl. rewrite Hru, Hu, lookup_insert_eq in Hl. injection Hl as <-. assert (z' = z) as ->; [|done].
  unfold upsertedRow in Hd. destruct (ts_artifacts t !! _); cbn in Hd; congruence.
Qed.

Lemma upsertAll_before ds t t' u T : consistent t -> upsertAll ds t = Some t' -> Forall (timeBefore u T) ds -> before t u T -> consistent t' /\ before t' u T.
Proof.
  intros Hc Hok Hf. revert t Hc Hok. induction Hf as [|d ds Hd Hf IH]; intros t Hc Hok Hb; cbn in Hok; [by simplify_eq|].
  destruct (UpsertConfig _ _ _ t) as [t1 b|?|] eqn:Hu; [|done..]. destruct (upsert_before d t t1 b u T Hc Hu Hd Hb) as [Hc1 Hb1]. by eapply IH.
Qed.

(** Older deployments come too late. *)
Lemma upsertAll_late ds t t' u T r : consistent t -> ts_artifacts t !! u = Some r -> aw_deployed_at r = Some T -> upsertAll ds t = Some t' ->
  Forall (timeBefore u T) ds -> t' = t.
Proof.
  intros Hc Hr HT Hok Hf. induction Hf as [|d ds (z & [Hu Hz] & Hlt) Hf IH]; cbn in Hok; [by simplify_eq|].
  destruct (UpsertConfig _ _ _ t) as [t1 b|?|] eqn:Hup; [|done..]. pose proof (UpsertConfig_cases (dp_fault d) (dp_now d) (dp_artifact d) t (cn_linked _ Hc)) as Hs.
  rewrite Hup, Hu in Hs. destruct b; [|destruct Hs as [-> _]; auto]. destruct Hs as (_ & _ & Hn). specialize (Hn _ Hr). unfold isNewer in Hn. rewrite HT, Hz in Hn. lia.
Qed.

Lemma upsertAll_app ds1 ds2 t : upsertAll (ds1 ++ ds2) t = t' ← upsertAll ds1 t; upsertAll ds2 t'.
Proof. revert t. induction ds1 as [|d ds1 IH]; intros t; [done|]. cbn. by destruct (UpsertConfig _ _ _ t). Qed.

Lemma newest_wins ds1 d ds2 t t' u T : consistent t -> upsertAll (ds1 ++ d :: ds2) t = Some t' -> deploymentOf u T d ->
  Forall (timeBefore u T) ds1 -> Forall (timeBefore u T) ds2 -> before t u T ->
  exists t1, consistent t1 /\ wrote (at_config (dp_artifact d)) (upsertedRow (dp_now d) (dp_artifact d) t1) t1 t'.
Proof.
  intros Hc Hok [Hu HT] H1 H2 Hb. rewrite upsertAll_app in Hok. destruct (upsertAll ds1 t) as [t1|] eqn:Ht1; [|done]. cbn in Hok.
  destruct (upsertAll_before ds1 t t1 u T Hc Ht1 H1 Hb) as [Hc1 Hb1]. exists t1. split; [done|].
  destruct (UpsertConfig _ _ _ t1) as [t2 b|?|] eqn:Hup; [|done..]. pose proof (UpsertConfig_cases (dp_fault d) (dp_now d) (dp_artifact d) t1 (cn_linked _ Hc1)) as Hs.
  rewrite Hup in Hs. destruct b; cycle 1.
  { destruct Hs as (_ & old & Ho & Hn). rewrite Hu in Ho. unfold isNewer in Hn. rewrite HT in Hn. destruct (aw_deployed_at old) as [z|] eqn:Hz; [|done].
    specialize (Hb1 old z Ho Hz). lia. }
  destruct Hs as (_ & Hw & _). assert (t' = t2) as ->; [|done].
  assert (consistent t2) as Hc2.
  { eapply (step_consistent t1 (dp_fault d) (dp_now d) (OpUpsert (dp_artifact d))); [done|]. left. cbn. exists tt. unfold mbind, GoM_bind. by rewrite Hup. }
  pose proof Hw as (table & rr & _ & _ & _ & _ & Ht2). pose proof (upserted_row (dp_now d) (dp_artifact d) t1 (cn_linked _ Hc1)) as (Hru & _).
  eapply (upsertAll_late ds2 t2 t' u T (upsertedRow (dp_now d) (dp_artifact d) t1)); [done| | |done|done].
  - rewrite Ht2. cbn. by rewrite Hru, Hu, lookup_insert_eq.
  - unfold upsertedRow. destruct (ts_artifacts t1 !! _); cbn; by rewrite (proj2 (ensure_config (dp_artifact d))) || done.
Qed.

Lemma get_same t t' v : linked t -> linked t' -> ts_artifacts t' !! v = ts_artifacts t !! v ->
  (forall table, ts_resources t' !! (table, v) = ts_resources t !! (table, v)) -> GetConfig noDbFault t' v = GetConfig noDbFault t v.
Proof.
  intros Hl Hl' Ha Hr. pose proof (GetConfig_spec t v Hl) as Hg. pose proof (GetConfig_spec t' v Hl') as Hg'. rewrite Ha in Hg'.
  destruct (ts_artifacts t !! v) as [r|] eqn:Hv; [|by rewrite Hg, Hg']. rewrite Hg, Hg'. apply load_ext. intros table. by rewrite (ln_keys _ Hl _ _ Hv).
Qed.

Lemma get_artifactAt t u a : linked t -> artifactAt t u = Some a -> GetConfig noDbFault t u = inr a.
Proof.
  intros Hl Ha. pose proof (GetConfig_spec t u Hl) as Hg. unfold artifactAt in Ha. destruct (ts_artifacts t !! u) as [r|]; [|done]. cbn in Ha. rewrite Hg.
  by destruct (loadResourceConfig _ _ _); simplify_eq.
Qed.

(** The three writing calls in one form. *)
Definition storedBy (fault : DbStmt -> option string) (now : Z) (a : Artifact) (t t' : ArtifactTables) : Prop :=
  SaveConfig fault now a t = Ok t' tt \/ UpdateConfig fault now a t = Ok t' tt \/ UpsertConfig fault now a t = Ok t' true.

Definition keptFields (a b : Artifact) : Prop :=
  at_DesiredState b = at_DesiredState a /\ at_Origin b = at_Origin a /\ at_DeploymentID b = at_DeploymentID a /\
  at_CPSyncStatus b = at_CPSyncStatus a /\ at_CPSyncInfo b = at_CPSyncInfo a.

Lemma default_nullable s : default "" (nullable s) = s.
Proof. unfold nullable. by destruct (String.eqb_spec s "") as [->|]. Qed.

Definition rowKeeps (a : Artifact) (r : Row) : Prop :=
  aw_desired_state r = at_DesiredState a /\ aw_origin r = at_Origin a /\ aw_deployment_id r = nullable (at_DeploymentID a) /\
  aw_cp_sync_status r = nullable (at_CPSyncStatus a) /\ aw_cp_sync_info r = nullable (at_CPSyncInfo a).

Lemma inserted_keeps now d a : rowKeeps a (insertedRow now d a).
Proof. unfold rowKeeps, insertedRow, rowFor, ensureDataVersion. by destruct (String.eqb _ _). Qed.

Lemma stored_wrote fault now a t t' : consistent t -> storedBy fault now a t t' ->
  exists row, rowOfConfig (at_config a) row /\ rowKeeps a row /\ sc_Handle (at_config a) <> "" /\ wrote (at_config a) row t t'.
Proof.
  intros Hc Hs. pose proof (cn_linked _ Hc) as Hl. destruct Hs as [Hs|[Hs|Hs]].
  - pose proof (SaveConfig_cases fault now a t) as Hk. rewrite Hs in Hk. destruct Hk as (_ & Hh & Hw).
    eexists. split_and!; [|apply (inserted_keeps now (nonZero (at_DeployedAt a)))|done|exact Hw]. apply inserted_row.
  - pose proof (UpdateConfig_cases fault now a t) as Hk. rewrite Hs in Hk. destruct Hk as (old & Ho & Hh & Hw). pose proof (ln_keys _ Hl _ _ Ho) as Hu.
    exists (updatedRow now a old). split_and!; [by apply updated_row|apply (inserted_keeps now (nonZero (at_DeployedAt a)))|done|by apply Hw].
  - pose proof (UpsertConfig_cases fault now a t Hl) as Hk. rewrite Hs in Hk. destruct Hk as (Hh & Hw & _). exists (upsertedRow now a t).
    split_and!; [by apply upserted_row| |done..]. pose proof (inserted_keeps now (at_DeployedAt a) a) as Hr. unfold upsertedRow. by destruct (ts_artifacts t !! _).
Qed.

Lemma stored_reads fault now a t t' : consistent t -> sc_Kind (at_config a) ∈ coreKinds -> travels (at_config a) -> storedBy fault now a t t' ->
  consistent t' /\ exists b, at_config b = readBack (at_config a) /\ keptFields a b /\
    GetConfig noDbFault t' (sc_UUID (at_config a)) = inr b /\
    GetConfigByKindAndHandle noDbFault t' (sc_Kind (at_config a)) (sc_Handle (at_config a)) = inr b /\
    GetConfigByKindNameAndVersion noDbFault t' (sc_Kind (at_config a)) (sc_DisplayName (at_config a)) (sc_Version (at_config a)) = inr b /\
    forall v, v <> sc_UUID (at_config a) -> GetConfig noDbFault t' v = GetConfig noDbFault t v.
Proof.
  intros Hc Hk Htr (row & Hr & Hkeep & Hh & Hw)%(stored_wrote _ _ _ _ _ Hc). pose proof Hr as (Hu & Hrk & Hrh & Hrn & Hrv).
  assert (consistent t') as Hc' by (eapply wrote_consistent; [done|exact Hu|exact Hrk|congruence|exact Hw]).
  pose proof (cn_linked _ Hc') as Hl'. split; [done|]. exists (with_config (scanRow row) (readBack (at_config a))).
  pose proof (get_artifactAt _ _ _ Hl' (wrote_reads _ _ _ _ Hw Hr Hk Htr)) as Hget. pose proof Hw as (table & rr & _ & _ & _ & _ & Ht').
  assert (ts_artifacts t' !! sc_UUID (at_config a) = Some row) as Hrow by (rewrite Ht'; cbn; by rewrite Hu, lookup_insert_eq). split_and!; [done| |done|..].
  - destruct Hkeep as (H1 & H2 & H3 & H4 & H5). unfold keptFields. cbn. by rewrite H1, H2, H3, H4, H5, !default_nullable.
  - by rewrite <- Hrk, <- Hrh, (GetByHandle_spec t' _ row Hl' Hrow).
  - by rewrite <- Hrk, <- Hrn, <- Hrv, (GetByName_spec t' _ row Hl' Hrow).
  - intros v Hv. apply get_same; [apply Hc|done|rewrite Ht'; cbn; rewrite lookup_insert_ne; congruence|]. intros table'. rewrite Ht'. cbn.
    rewrite lookup_insert_ne; [done|]. intros [= _ Hx]. congruence.
Qed.

(** ** Listing *)

Lemma scan_spec rows : match scanConfigRows rows with
  | inr l => Forall2 (fun r a => loadText (scanRow r.1) (re_configuration r.2) = inr a) rows l
  | inl e => exists r, r ∈ rows /\ loadText (scanRow r.1) (re_configuration r.2) = inl e
  end.
Proof.
  induction rows as [|r rows IH]; cbn; [done|]. destruct (loadText _ _) as [e|a] eqn:Hr; cbn; [exists r; by split; [left|]|].
  unfold scanConfigRows in IH. destruct (foldr _ _ rows) as [e|l]; cbn.
  - destruct IH as (r' & Hin & He). exists r'. by split; [right|].
  - by constructor.
Qed.

Lemma load_created a json b : loadText a json = inr b -> at_CreatedAt b = at_CreatedAt a.
Proof. unfold loadText. destruct (String.eqb _ _); [by intros [= <-]|]. destruct (unmarshalSourceConfig _ _); [done|]. by intros [= <-]. Qed.

Lemma sorted_through {A B} (R : A -> A -> Prop) (S : B -> B -> Prop) (Q : A -> B -> Prop) l l' :
  (forall x y x' y', Q x x' -> Q y y' -> R x y -> S x' y') -> Forall2 Q l l' -> StronglySorted R l -> StronglySorted S l'.
Proof.
  intros HS. induction 1 as [|x x' l l' Hx Hl IH]; intros Hs; [constructor|]. apply StronglySorted_inv in Hs as [Hs Hf]. constructor; [by apply IH|].
  clear IH Hs. induction Hl as [|y y' l l' Hy Hl IH]; constructor; apply Forall_cons in Hf as [? ?]; eauto.
Qed.

(** The rows of a kind with their resources, and the keys they have. *)
Lemma joined_kind t kind table : consistent t -> kindToResourceTable kind = inr table ->
  let rows := filter (fun r => aw_kind r.1 = kind) (joined table t) in
  (fun r => aw_uuid r.1) <$> rows = (filter (fun kv => aw_kind kv.2 = kind) (map_to_list (ts_artifacts t))).*1 /\
  forall r, r ∈ rows -> aw_kind r.1 = kind /\ ts_artifacts t !! aw_uuid r.1 = Some r.1 /\ ts_resources t !! (table, aw_uuid r.1) = Some r.2.
Proof.
  intros Hc Hk. assert (forall u r, (u, r) ∈ map_to_list (ts_artifacts t) -> aw_uuid r = u /\ ts_artifacts t !! u = Some r) as Hin.
  { intros u r Hl%elem_of_map_to_list. split; [by eapply ln_keys, Hl; apply Hc|done]. }
  unfold joined. induction (map_to_list (ts_artifacts t)) as [|[u r] L IH]; [split; [done|intros r Hr; by apply elem_of_nil in Hr]|].
  destruct IH as [IHk IHr]; [intros; apply Hin; by right|]. destruct (Hin u r) as [Hu Hl]; [by left|].
  rewrite filter_cons. csimpl. destruct (ts_resources t !! (table, u)) as [rr|] eqn:Hrr; cbn.
  - destruct (decide (aw_kind r = kind)) as [He|]; [|by split]. cbn. rewrite Hu. split; [by f_equal|].
    intros r' [->|Hr']%elem_of_cons; [|by apply IHr]. cbn. by rewrite Hu.
  - destruct (decide (aw_kind r = kind)) as [He|]; [|by split]. destruct (cn_resource _ Hc u r Hl) as (table' & Ht' & [rr Hrr']). congruence.
Qed.

Definition idsOfKind (t : ArtifactTables) (kind : string) : list string := (filter (fun kv => aw_kind kv.2 = kind) (map_to_list (ts_artifacts t))).*1.

Lemma get_row t kind table (r : Row * ResourceRow) : linked t -> kindToResourceTable kind = inr table -> aw_kind r.1 = kind -> ts_artifacts t !! aw_uuid r.1 = Some r.1 ->
  ts_resources t !! (table, aw_uuid r.1) = Some r.2 -> GetConfig noDbFault t (aw_uuid r.1) = loadText (scanRow r.1) (re_configuration r.2).
Proof.
  intros Hl Hk He Ha Hr. pose proof (GetConfig_spec t (aw_uuid r.1) Hl) as Hg. rewrite Ha in Hg. rewrite Hg.
  unfold loadResourceConfig. cbn. by rewrite He, Hk, Hr.
Qed.

End Theorems.

(** C22: the tables stay consistent: whatever sequence of calls saves, updates,
    upserts and deletes artifacts and changes their synchronisation status,
    whatever statements fail in them, every artifact has a handle, its
    identifier, its kind and handle and its kind, name and version are its
    alone, the table of its kind has its resource, every resource belongs to an
    artifact and every proxy to a provider that is there. *)
Theorem tables_stay_consistent `{KindTables, SourceJSON} (t : ArtifactTables) : reachableTables t -> consistent t.
Proof. apply reachable_consistent. Qed.

(** C16: artifacts are read back: an artifact of one of the four core kinds,
    with a source that its JSON text gives back ([travels]), that SaveConfig,
    UpdateConfig or UpsertConfig stored in consistent tables is what GetConfig then returns for
    its identifier, GetConfigByKindAndHandle for its kind and handle and
    GetConfigByKindNameAndVersion for its name and version, with its source, its
    state and its origin, and no other artifact has changed; DeleteConfig
    removes an artifact with its API keys and subscriptions and no other; and a
    call that fails or finds a newer deployment leaves all tables as they are,
    whichever of its statements fails. *)
Theorem artifacts_are_read_back `{KindTables, SourceJSON} (fault : DbStmt -> option string) (now : Z) (a : Artifact) (id : string) (t : ArtifactTables) :
  consistent t -> sc_Kind (at_config a) ∈ coreKinds -> travels (at_config a) ->
  (forall t', storedBy fault now a t t' ->
    exists b, at_config b = readBack (at_config a) /\ keptFields a b /\
      GetConfig noDbFault t' (sc_UUID (at_config a)) = inr b /\
      GetConfigByKindAndHandle noDbFault t' (sc_Kind (at_config a)) (sc_Handle (at_config a)) = inr b /\
      GetConfigByKindNameAndVersion noDbFault t' (sc_Kind (at_config a)) (sc_DisplayName (at_config a)) (sc_Version (at_config a)) = inr b /\
      forall v, v <> sc_UUID (at_config a) -> GetConfig noDbFault t' v = GetConfig noDbFault t v) /\
  (forall t', DeleteConfig fault id t = Ok t' tt ->
    GetConfig noDbFault t' id = inl (ErrNotFound +:+ ": id=" +:+ id) /\ (forall v, v <> id -> GetConfig noDbFault t' v = GetConfig noDbFault t v) /\
    (forall s, s ∈ ts_subscriptions t' <-> s ∈ ts_subscriptions t /\ sub_APIID s <> id) /\
    (forall k, k ∈ ts_apiKeys t' <-> k ∈ ts_apiKeys t /\ ck_ArtifactUUID k <> id)) /\
  (forall t' e, SaveConfig fault now a t = Err t' e \/ UpdateConfig fault now a t = Err t' e \/ UpsertConfig fault now a t = Err t' e \/
    UpsertConfig fault now a t = Ok t' false \/ DeleteConfig fault id t = Err t' e -> t' = t).
Proof.
  intros Hc Hk Htr. pose proof (cn_linked _ Hc) as Hl. split_and!.
  - intros t' Hs. by destruct (stored_reads fault now a t t' Hc Hk Htr Hs) as [_ Hr].
  - intros t' Hd. pose proof (DeleteConfig_cases fault id t) as Hs. rewrite Hd in Hs. destruct Hs as (_ & Hp & ->).
    pose proof (cn_linked _ (removeArtifact_consistent id t Hc Hp)) as Hl'. split_and!.
    + pose proof (GetConfig_spec (removeArtifact id t) id Hl') as Hg. cbn in Hg. by rewrite lookup_delete_eq in Hg.
    + intros v Hv. apply get_same; [done|done|cbn; by rewrite lookup_delete_ne|]. intros table. cbn. rewrite map_lookup_filter.
      destruct (ts_resources t !! (table, v)); [|done]. cbn. by rewrite option_guard_True.
    + intros s. cbn. rewrite list_elem_of_filter. naive_solver.
    + intros k. cbn. rewrite list_elem_of_filter. naive_solver.
  - intros t' e Hs. pose proof (SaveConfig_cases fault now a t) as H1. pose proof (UpdateConfig_cases fault now a t) as H2.
    pose proof (UpsertConfig_cases fault now a t Hl) as H3. pose proof (DeleteConfig_cases fault id t) as H4.
    destruct Hs as [Hs|[Hs|[Hs|[Hs|Hs]]]]; [rewrite Hs in H1|rewrite Hs in H2|rewrite Hs in H3|rewrite Hs in H3|rewrite Hs in H4]; naive_solver.
Qed.

(** C17: the newest deployment wins: let successful upserts of one artifact
    follow each other in any order, one of them with a later deployment time
    than all others and than the one in the tables, its artifact of one of
    the four core kinds and with a source that survives its JSON text.  Then
    the tables have the artifact as that deployment has it, by its
    identifier, by its kind and handle and by its kind, display name and
    version: events that arrive late or twice change nothing. *)
Theorem newest_deployment_wins `{KindTables, SourceJSON} (ds1 ds2 : list Deployment) (d : Deployment) (u : string) (T : Z) (t t' : ArtifactTables) :
  consistent t -> upsertAll (ds1 ++ d :: ds2) t = Some t' -> deploymentOf u T d -> Forall (timeBefore u T) (ds1 ++ ds2) -> before t u T ->
  sc_Kind (at_config (dp_artifact d)) ∈ coreKinds -> travels (at_config (dp_artifact d)) ->
  exists b, GetConfig noDbFault t' u = inr b /\ at_config b = readBack (at_config (dp_artifact d)) /\ keptFields (dp_artifact d) b /\ at_DeployedAt b = Some T /\
    GetConfigByKindAndHandle noDbFault t' (sc_Kind (at_config (dp_artifact d))) (sc_Handle (at_config (dp_artifact d))) = inr b /\
    GetConfigByKindNameAndVersion noDbFault t' (sc_Kind (at_config (dp_artifact d))) (sc_DisplayName (at_config (dp_artifact d)))
      (sc_Version (at_config (dp_artifact d))) = inr b.
Proof.
  intros Hc Hok Hd Hf Hb Hk Htr. apply Forall_app in Hf as [H1 H2]. pose proof Hd as [Hu HT].
  destruct (newest_wins ds1 d ds2 t t' u T Hc Hok Hd H1 H2 Hb) as (t1 & Hc1 & Hw). set (a := dp_artifact d) in *. set (row := upsertedRow (dp_now d) a t1) in *.
  pose proof (upserted_row (dp_now d) a t1 (cn_linked _ Hc1)) as Hr. pose proof Hr as (Hru & Hrk & Hrh & Hrn & Hrv).
  assert (rowKeeps a row) as (K1 & K2 & K3 & K4 & K5) by (pose proof (inserted_keeps (dp_now d) (at_DeployedAt a) a); unfold row, upsertedRow; by destruct (ts_artifacts t1 !! _)).
  assert (aw_deployed_at row = Some T) as HdT.
  { pose proof (proj2 (ensure_config a)) as He. unfold row, upsertedRow, insertedRow, rowFor. by destruct (ts_artifacts t1 !! _). }
  pose proof Hw as (table & rr & _ & _ & _ & _ & Ht'). assert (ts_artifacts t' !! sc_UUID (at_config a) = Some row) as Hrow by (rewrite Ht', <- Hru; apply lookup_insert_eq).
  assert (sc_Handle (at_config a) <> "") as Hh.
  { destruct (ds1 ++ d :: ds2)%list eqn:E; [by destruct ds1|]. rewrite <- E in Hok. clear E. rewrite upsertAll_app in Hok. destruct (upsertAll ds1 t); [|done]. cbn in Hok.
    unfold UpsertConfig in Hok. fold a in Hok. by destruct (String.eqb_spec (sc_Handle (at_config a)) ""). }
  assert (consistent t') as Hc' by (eapply wrote_consistent; [exact Hc1|exact Hru|exact Hrk|by rewrite Hrh|exact Hw]).
  pose proof (get_artifactAt _ _ _ (cn_linked _ Hc') (wrote_reads _ _ _ _ Hw Hr Hk Htr)) as Hget.
  exists (with_config (scanRow row) (readBack (at_config a))). split_and!; [by rewrite <- Hu|done|unfold keptFields; cbn; by rewrite K1, K2, K3, K4, K5, !default_nullable|done| |].
  - by rewrite <- Hrk, <- Hrh, (GetByHandle_spec t' _ row (cn_linked _ Hc') Hrow).
  - by rewrite <- Hrk, <- Hrn, <- Hrv, (GetByName_spec t' _ row (cn_linked _ Hc') Hrow).
Qed.

(** C38: listing a kind and getting one by one agree: in consistent tables
    GetAllConfigsByKind lists every artifact of the kind exactly once, each as
    GetConfig returns it, newest first; and when it fails, it fails with the
    error GetConfig has for one of them. *)
Theorem listings_are_exact `{KindTables, SourceJSON, NewestFirst} (t : ArtifactTables) (kind table : string) :
  consistent t -> kindToResourceTable kind = inr table ->
  match GetAllConfigsByKind noDbFault t kind with
  | inr l => StronglySorted (fun a b => (at_CreatedAt b <= at_CreatedAt a)%Z) l /\
             exists ids, ids ≡ₚ idsOfKind t kind /\ Forall2 (fun u a => GetConfig noDbFault t u = inr a) ids l
  | inl e => exists u, u ∈ idsOfKind t kind /\ GetConfig noDbFault t u = inl e
  end.
Proof.
  intros Hc Hk. destruct (joined_kind t kind table Hc Hk) as [Hids Hrows]. unfold GetAllConfigsByKind. rewrite Hk. cbn [noDbFault]. fold (idsOfKind t kind) in Hids.
  set (rows := filter _ (joined table t)) in *. pose proof (newestFirst_perm rows) as Hp.
  assert (forall r, r ∈ newestFirst rows -> GetConfig noDbFault t (aw_uuid r.1) = loadText (scanRow r.1) (re_configuration r.2)) as Hget.
  { intros r Hin. rewrite Hp in Hin. destruct (Hrows r Hin) as (He & Ha & Hr). eapply get_row; [apply Hc|done..]. }
  pose proof (scan_spec (newestFirst rows)) as Hs. destruct (scanConfigRows _) as [e|l].
  - destruct Hs as (r & Hin & He). exists (aw_uuid r.1). rewrite <- Hids, Hget; [|done]. split; [|done]. apply list_elem_of_fmap. exists r. by rewrite <- Hp.
  - split.
    + eapply sorted_through; [|exact Hs|apply newestFirst_sorted]. cbn. intros x y x' y' Hx Hy. by rewrite (load_created _ _ _ Hx), (load_created _ _ _ Hy).
    + exists ((fun r => aw_uuid r.1) <$> newestFirst rows). split; [by rewrite <- Hids, Hp|]. apply Forall2_fmap_l.
      clear Hp Hrows Hids. revert Hget. induction Hs as [|r a rs l Hr Hs IH]; intros Hget; [constructor|]. constructor; [change (GetConfig noDbFault t (aw_uuid r.1) = inr a); rewrite Hget; [done|by left]|apply IH; intros; apply Hget; by right].
Qed.

(** ** At a concrete store *)

Section Samples.

#[local] Instance coreTables : KindTables := {| extraResourceTables := ∅; kindUnmarshalers _ := None |}.

(** Configurations whose JSON is the handle. *)
#[local] Instance handleJSON : SourceJSON := {|
  marshalSource c := match c with CfgRestAPI api => inr (am_Name (ra_Metadata api)) | _ => inl "unsupported type" end;
  unmarshalKind _ json := inr (CfgRestAPI (mkRestAPI "gateway.api-platform.wso2.com/v1" "RestApi" (mkApiMetadata None None json) SampleApi.spec))
|}.

Definition sampleArtifact (uuid handle state : string) (deployedAt : option Z) : Artifact :=
  let source := CfgRestAPI (mkRestAPI "gateway.api-platform.wso2.com/v1" "RestApi" (mkApiMetadata None None handle) SampleApi.spec) in
  mkArtifact (mkStoredConfig uuid "RestApi" handle handle "v1" source source []) "" state "" OriginGatewayAPI 0 0 deployedAt "" "" "".

Definition tablesOf {A} (m : GoM ArtifactTables A) (t : ArtifactTables) : ArtifactTables := match m t with Ok t' _ | Err t' _ => t' | Panic => t end.

Definition newTables : ArtifactTables := mkArtifactTables ∅ ∅ [] [].
Definition books : Artifact := sampleArtifact "b" "books" StateDeployed (Some 5%Z).
Definition booksTables : ArtifactTables := tablesOf (SaveConfig noDbFault 1 books) newTables.

Lemma sample_travels uuid handle state deployedAt : handle <> "" -> travels (at_config (sampleArtifact uuid handle state deployedAt)).
Proof. intros Hne json [= <-]. done. Qed.

(** A second artifact with the same name is refused, and a commit that fails
    keeps the artifact that is being deleted. *)
Lemma tables_stay_consistent_witness :
  let t1 := tablesOf (performTable noDbFault 2 (OpSave (sampleArtifact "c" "books" StateDeployed None))) booksTables in
  let t2 := tablesOf (performTable (fun st => match st with DbCommit => Some "disk full" | _ => None end) 3 (OpDelete "b")) t1 in
  ts_artifacts t2 = ts_artifacts booksTables /\ size (ts_artifacts t2) = 1%nat /\ consistent t2.
Proof.
  intros t1 t2. split_and!; [by vm_compute..|]. apply tables_stay_consistent.
  eapply (tables_step t1 (fun st => match st with DbCommit => Some "disk full" | _ => None end) 3 (OpDelete "b")); [|right; eexists; vm_compute; reflexivity].
  eapply (tables_step booksTables noDbFault 2 (OpSave (sampleArtifact "c" "books" StateDeployed None))); [|right; eexists; vm_compute; reflexivity].
  apply (tables_step newTables noDbFault 1 (OpSave books)); [apply tables_new|left; exists tt; vm_compute; reflexivity].
Defined.

Lemma booksTables_consistent : consistent booksTables.
Proof.
  apply (step_consistent newTables noDbFault 1 (OpSave books)); [apply consistent_new|]. left. exists tt. vm_compute. reflexivity.
Qed.

(** A second artifact is stored, and the first is deleted. *)
Lemma artifacts_are_read_back_witness :
  let films := sampleArtifact "f" "films" StateUndeployed None in
  let t' := tablesOf (SaveConfig noDbFault 2 films) booksTables in
  SaveConfig noDbFault 2 films booksTables = Ok t' tt /\
  (exists b, at_config b = at_config films /\ at_DesiredState b = StateUndeployed /\ GetConfig noDbFault t' "f" = inr b /\
     GetConfigByKindAndHandle noDbFault t' "RestApi" "films" = inr b) /\
  GetConfig noDbFault t' "b" = GetConfig noDbFault booksTables "b" /\
  GetConfig noDbFault (tablesOf (DeleteConfig noDbFault "b") booksTables) "b" = inl (ErrNotFound +:+ ": id=b").
Proof.
  intros films t'. assert (SaveConfig noDbFault 2 films booksTables = Ok t' tt) as Hs by (vm_compute; reflexivity).
  destruct (artifacts_are_read_back noDbFault 2 films "b" booksTables booksTables_consistent) as (Hw & Hd & _); [by left|by apply sample_travels|].
  destruct (Hw t') as (b & Hb & (Hst & _) & Hg & Hh & _ & Hv); [by left|].
  split_and!; [exact Hs| |by apply Hv|apply (Hd (tablesOf (DeleteConfig noDbFault "b") booksTables)); vm_compute; reflexivity].
  exists b. split_and!; [exact Hb|exact Hst|exact Hg|exact Hh].
Defined.

(** An event of the past arrives after the newest one. *)
Lemma newest_deployment_wins_witness :
  let at_time T state := mkDeployment noDbFault 9 (sampleArtifact "b" "books" state (Some T)) in
  let ds1 := [at_time 7%Z StateUndeployed] in let d := at_time 20%Z StateUndeployed in let ds2 := [at_time 12%Z StateDeployed; at_time 7%Z StateUndeployed] in
  exists t' b, upsertAll (ds1 ++ d :: ds2) booksTables = Some t' /\ GetConfig noDbFault t' "b" = inr b /\
    at_DesiredState b = StateUndeployed /\ at_DeployedAt b = Some 20%Z.
Proof.
  intros at_time ds1 d ds2. set (t' := default newTables (upsertAll (ds1 ++ d :: ds2) booksTables)).
  assert (upsertAll (ds1 ++ d :: ds2) booksTables = Some t') as Hu by (vm_compute; reflexivity).
  destruct (newest_deployment_wins ds1 ds2 d "b" 20 booksTables t' booksTables_consistent Hu) as (b & Hg & _ & (Hst & _) & HT & _);
    [by split| | |by left|by apply sample_travels|exists t', b; split_and!; [exact Hu|exact Hg|exact Hst|exact HT]].
  - apply Forall_app. split; repeat constructor; (eexists; split; [by split|lia]).
  - intros r z Hr Hz. vm_compute in Hr. injection Hr as <-. injection Hz as <-. lia.
Defined.

#[local] Definition newer (a b : Row * ResourceRow) : Prop := (aw_created_at b.1 <= aw_created_at a.1)%Z.
#[local] Instance newer_dec : RelDecision newer := fun a b => Z.le_dec _ _.
#[local] Instance newer_trans : Transitive newer.
Proof. unfold newer. intros ???. lia. Qed.
#[local] Instance newer_total : Total newer.
Proof. unfold newer. intros ??. lia. Qed.
#[local] Instance mergeNewest : NewestFirst := {|
  newestFirst := merge_sort newer;
  newestFirst_perm := merge_sort_Permutation newer;
  newestFirst_sorted l := StronglySorted_merge_sort newer l
|}.

(** Two APIs are listed, the newer first. *)
Lemma listings_are_exact_witness :
  let t := tablesOf (SaveConfig noDbFault 2 (sampleArtifact "f" "films" StateUndeployed None)) booksTables in
  exists l ids, GetAllConfigsByKind noDbFault t "RestApi" = inr l /\ at_CreatedAt <$> l = [2%Z; 1%Z] /\
    ids ≡ₚ ["b"; "f"] /\ Forall2 (fun u a => GetConfig noDbFault t u = inr a) ids l.
Proof.
  intros t. assert (consistent t) as Hc.
  { apply (step_consistent booksTables noDbFault 2 (OpSave (sampleArtifact "f" "films" StateUndeployed None))); [apply booksTables_consistent|].
    left. exists tt. vm_compute. reflexivity. }
  pose proof (listings_are_exact t "RestApi" "rest_apis" Hc eq_refl) as Hl.
  assert (exists l, GetAllConfigsByKind noDbFault t "RestApi" = inr l /\ at_CreatedAt <$> l = [2%Z; 1%Z]) as (l & He & Hat) by (eexists; split; vm_compute; reflexivity).
  rewrite He in Hl. destruct Hl as (_ & ids & Hp & Hf). exists l, ids. split_and!; [exact He|exact Hat| |exact Hf].
  rewrite Hp. assert (idsOfKind t "RestApi" ≡ₚ ["b"; "f"]) as Hi; [|exact Hi]. apply (bool_decide_unpack _). vm_compute. exact I.
Defined.

(** A defect: an upsert that changes the kind leaves the resource of the old
    kind, and the artifact is listed twice. *)
Example changed_kind_is_listed_twice :
  let cfg := at_config books in
  let moved := mkArtifact (mkStoredConfig (sc_UUID cfg) "Mcp" (sc_Handle cfg) (sc_DisplayName cfg) (sc_Version cfg) (sc_Configuration cfg) (sc_SourceConfiguration cfg) [])
    "" StateDeployed "" OriginGatewayAPI 0 0 (Some 6%Z) "" "" "" in
  let t := tablesOf (UpsertConfig noDbFault 2 moved) booksTables in
  size (ts_artifacts t) = 1%nat /\
  match GetAllConfigs noDbFault t with inr l => (fun a => sc_UUID (at_config a)) <$> l = ["b"; "b"] | inl _ => False end.
Proof. vm_compute. split; reflexivity. Qed.

End Samples.
