(* ===== verification/EventHubTheorems.v ===== *)
(** * EventHubTheorems: what the event hub delivers

    Channels are used safely: no sequence of operations, whatever statements
    fail, sends on or closes a closed channel, and no buffer exceeds its
    capacity.  A subscriber gets the committed events of its gateway exactly
    once and in order, as long as their times increase with their commits, and
    gets all of them if it reads and the replica polls. *)

From stdpp Require Import base gmap strings list fin_maps sorting infinite.
From S2P Require Import Prelude GoStrings GoSort Routes EventHub RouteTheorems.

#[local] Set Warnings "-register-all".

Open Scope string_scope.

Abbreviation ts := ev_ProcessedTimestamp.

(** ** Channels *)

Lemma alter_Some {A} (f : A -> A) (m : gmap string A) k x : m !! k = Some x -> alter f k m = <[k := f x]> m.
Proof.
  intros Hk. apply map_eq. intros j. destruct (decide (k = j)) as [<-|Hne].
  - by rewrite lookup_alter_eq, lookup_insert_eq, Hk.
  - by rewrite lookup_alter_ne, lookup_insert_ne.
Qed.

(** A change of some of the channels. *)
Definition mapOn (f : channel -> channel) (cs : list nat) (chs : gmap nat channel) : gmap nat channel :=
  map_imap (fun c ch => Some (if decide (c ∈ cs) then f ch else ch)) chs.

Definition push (evs : list Event) (ch : channel) : channel := mkChannel (ch_buffer ch ++ evs)%list (ch_taken ch) (ch_closed ch).
Definition shut (ch : channel) : channel := mkChannel (ch_buffer ch) (ch_taken ch) true.

(** A channel one can send on. *)
Definition usable (chs : gmap nat channel) (c : nat) : Prop :=
  exists ch, chs !! c = Some ch /\ ch_closed ch = false /\ (length (ch_buffer ch) <= channelCap)%nat.

Lemma lookup_mapOn f cs chs c : mapOn f cs chs !! c = (fun ch => if decide (c ∈ cs) then f ch else ch) <$> chs !! c.
Proof. unfold mapOn. rewrite map_lookup_imap. by destruct (chs !! c). Qed.

Lemma mapOn_nil f chs : mapOn f [] chs = chs.
Proof.
  apply map_eq. intros c. rewrite lookup_mapOn. destruct (chs !! c); [|done]. cbn. by rewrite decide_False by set_solver.
Qed.

Lemma mapOn_cons f c cs chs ch : c ∉ cs -> chs !! c = Some ch -> mapOn f cs (<[c := f ch]> chs) = mapOn f (c :: cs) chs.
Proof.
  intros Hc Hch. apply map_eq. intros d. rewrite !lookup_mapOn. destruct (decide (d = c)) as [->|Hd].
  - rewrite lookup_insert_eq, Hch. cbn. rewrite decide_False by done. by rewrite decide_True by set_solver.
  - rewrite lookup_insert_ne by done. destruct (chs !! d) as [chd|]; [|done]. cbn. f_equal. repeat case_decide; try done; exfalso; set_solver.
Qed.

Lemma mapOn_mapOn f g cs chs : mapOn g cs (mapOn f cs chs) = mapOn (fun ch => g (f ch)) cs chs.
Proof. apply map_eq. intros c. rewrite !lookup_mapOn. destruct (chs !! c) as [ch|]; [|done]. cbn. by case_decide. Qed.

Lemma mapOn_ext f g cs chs : (forall ch, f ch = g ch) -> mapOn f cs chs = mapOn g cs chs.
Proof. intros Hfg. apply map_eq. intros c. rewrite !lookup_mapOn. destruct (chs !! c); [|done]. cbn. by rewrite Hfg. Qed.

Lemma push_nil ch : push [] ch = ch.
Proof. unfold push. rewrite app_nil_r. by destruct ch. Qed.

Lemma mapOn_push_nil cs chs : mapOn (push []) cs chs = chs.
Proof. apply map_eq. intros c. rewrite lookup_mapOn. destruct (chs !! c) as [ch|]; [|done]. cbn. by case_decide; rewrite ?push_nil. Qed.

Lemma usable_insert c ch cs chs : c ∉ cs -> Forall (usable chs) cs -> Forall (usable (<[c := ch]> chs)) cs.
Proof.
  intros Hc Hu. rewrite Forall_forall in Hu |- *. intros d Hd. destruct (Hu d Hd) as (chd & Hchd & ?). exists chd.
  rewrite lookup_insert_ne; [done|]. intros ->. done.
Qed.

Lemma sendAll_spec evt subs s : NoDup subs -> Forall (usable (sb_channels s)) subs ->
  sendAll evt subs s = Ok (set_channels (mapOn (push [evt]) subs (sb_channels s)) s) tt.
Proof.
  intros Hnd. revert s. induction Hnd as [|c subs Hc Hnd IH]; intros s Hu; [cbn; rewrite mapOn_nil; by destruct s|].
  apply Forall_cons in Hu as [(ch & Hch & Hcl & _) Hu]. cbn [sendAll]. unfold mbind, GoM_bind, send. rewrite Hch, Hcl.
  rewrite IH by by apply usable_insert. unfold set_channels. cbn. rewrite <- (mapOn_cons _ _ _ _ ch) by done. unfold push at 3. by rewrite Hcl.
Qed.

Lemma closeAll_spec cs s : NoDup cs -> Forall (usable (sb_channels s)) cs ->
  closeAll cs s = Ok (set_channels (mapOn shut cs (sb_channels s)) s) tt.
Proof.
  intros Hnd. revert s. induction Hnd as [|c cs Hc Hnd IH]; intros s Hu; [cbn; rewrite mapOn_nil; by destruct s|].
  apply Forall_cons in Hu as [(ch & Hch & Hcl & _) Hu]. cbn [closeAll]. unfold mbind, GoM_bind, closeChannel. rewrite Hch, Hcl.
  rewrite IH by by apply usable_insert. unfold set_channels. cbn. by rewrite <- (mapOn_cons _ _ _ _ ch).
Qed.

Lemma available_spec chs subs : subscriberChannelsAvailable chs subs = true <->
  forall c ch, c ∈ subs -> chs !! c = Some ch -> length (ch_buffer ch) <> channelCap.
Proof.
  unfold subscriberChannelsAvailable. rewrite forallb_forall. setoid_rewrite <- list_elem_of_In. split.
  - intros Hf c ch Hc Hch. specialize (Hf c Hc). rewrite Hch in Hf. by apply negb_true_iff, Nat.eqb_neq in Hf.
  - intros Hf c Hc. destruct (chs !! c) as [ch|] eqn:Hch; [|done]. apply negb_true_iff, Nat.eqb_neq. eauto.
Qed.

Lemma unavailable_spec chs subs : subscriberChannelsAvailable chs subs = false ->
  exists c ch, c ∈ subs /\ chs !! c = Some ch /\ length (ch_buffer ch) = channelCap.
Proof.
  unfold subscriberChannelsAvailable. induction subs as [|c subs IH]; [done|]. cbn. intros [Hf|Hf]%andb_false_iff.
  - destruct (chs !! c) as [ch|] eqn:Hch; [|done]. exists c, ch. apply negb_false_iff, Nat.eqb_eq in Hf. set_solver.
  - destruct (IH Hf) as (d & ch & ? & ? & ?). exists d, ch. set_solver.
Qed.

Lemma usable_push evt subs chs : Forall (usable chs) subs -> subscriberChannelsAvailable chs subs = true ->
  Forall (usable (mapOn (push [evt]) subs chs)) subs.
Proof.
  intros Hu Ha. rewrite Forall_forall in Hu |- *. intros c Hc. destruct (Hu c Hc) as (ch & Hch & Hcl & Hl). exists (push [evt] ch).
  rewrite lookup_mapOn, Hch. cbn. rewrite decide_True by done. split_and!; [done..|]. rewrite available_spec in Ha. specialize (Ha c ch Hc Hch).
  rewrite length_app. cbn. lia.
Qed.

(** The delivery loop delivers a prefix of the events, and stops before the
    end only if a buffer is full. *)
Record delivered (subs : list nat) (events : list Event) (latest : option Z) (s s' : SQLBackend) (r : option Z * bool) (k : nat) : Prop := {
  dl_count : k <= length events;
  dl_state : s' = set_channels (mapOn (push (take k events)) subs (sb_channels s)) s;
  dl_latest : r.1 = match last (take k events) with Some e => Some (ts e) | None => latest end;
  dl_blocked : r.2 = bool_decide (k < length events);
  dl_full : k < length events -> exists c ch, c ∈ subs /\ sb_channels s' !! c = Some ch /\ length (ch_buffer ch) = channelCap;
  dl_usable : Forall (usable (sb_channels s')) subs
}.

Lemma deliver_spec subs events : forall latest s, NoDup subs -> Forall (usable (sb_channels s)) subs ->
  exists s' r k, deliver subs events latest s = Ok s' r /\ delivered subs events latest s s' r k.
Proof.
  induction events as [|evt events IH]; intros latest s Hnd Hu; cbn [deliver].
  { exists s, (latest, false), 0. split; [done|]. split; cbn; try done; [|lia]. rewrite mapOn_push_nil. by destruct s. }
  destruct (subscriberChannelsAvailable (sb_channels s) subs) eqn:Ha.
  - unfold mbind, GoM_bind. rewrite sendAll_spec by done. set (s1 := set_channels _ s).
    destruct (IH (Some (ts evt)) s1 Hnd) as (s' & r & k & Hd & [Hk Hs Hl Hb Hf Hus]); [by apply usable_push|].
    exists s', r, (S k). split; [done|]. split; cbn [length take]; [lia| | | |intros; apply Hf; lia|done].
    + rewrite Hs. unfold s1, set_channels. cbn [sb_channels sb_tables sb_registry]. rewrite mapOn_mapOn. f_equal. apply mapOn_ext. intros ch. unfold push. cbn. by rewrite <- app_assoc.
    + rewrite Hl, last_cons. by destruct (last (take k events)).
    + rewrite Hb. apply bool_decide_ext. lia.
  - exists s, (latest, true), 0. split; [done|]. split; cbn; try done; [lia|by rewrite mapOn_push_nil; destruct s|].
    intros _.     by apply unavailable_spec.
Qed.

(** ** Safety *)

(** Gateways own their subscribers, and these are open. *)
Record wf (r : gmap string gateway) (chs : gmap nat channel) : Prop := {
  wf_id k gw : r !! k = Some gw -> gw_id gw = k;
  wf_nodup k gw : r !! k = Some gw -> NoDup (gw_subscribers gw);
  wf_usable k gw : r !! k = Some gw -> Forall (usable chs) (gw_subscribers gw);
  wf_disjoint k1 gw1 k2 gw2 c : r !! k1 = Some gw1 -> r !! k2 = Some gw2 -> c ∈ gw_subscribers gw1 -> c ∈ gw_subscribers gw2 -> k1 = k2;
  wf_bound c ch : chs !! c = Some ch -> (length (ch_buffer ch) <= channelCap)%nat
}.

Definition wellFormed (s : SQLBackend) : Prop := wf (sb_registry s) (sb_channels s).

(** The operation does not panic and keeps the backend well formed. *)
Definition safe {A} (m : GoM SQLBackend A) (s : SQLBackend) : Prop := wp m (fun s' _ => wellFormed s') (fun s' _ => wellFormed s') False s.

Lemma wf_empty : wf ∅ ∅.
Proof. split; intros *; rewrite ?lookup_empty; done. Qed.

(** A gateway loses subscribers, or there is a new gateway without any. *)
Lemma wf_insert r chs k gw' : wf r chs -> gw_id gw' = k -> NoDup (gw_subscribers gw') ->
  (forall c, c ∈ gw_subscribers gw' -> exists gw, r !! k = Some gw /\ c ∈ gw_subscribers gw) -> wf (<[k := gw']> r) chs.
Proof.
  intros [Hid Hnd Hu Hdj Hb] Hid' Hnd' Hsub. split; [| | | |done].
  1-3: intros k2 gw2 [(<- & <-)|(Hne & Hl)]%lookup_insert_Some; eauto.
  - apply Forall_forall. intros c (gw & Hgw & Hc)%Hsub. pose proof (Hu _ _ Hgw) as Hf. rewrite Forall_forall in Hf. auto.
  - intros k1 gw1 k2 gw2 c [(<- & <-)|(Hne1 & Hl1)]%lookup_insert_Some [(<- & <-)|(Hne2 & Hl2)]%lookup_insert_Some Hc1 Hc2; [done| | |eauto].
    + destruct (Hsub _ Hc1) as (gw & ? & ?). eauto.
    + destruct (Hsub _ Hc2) as (gw & ? & ?). eauto.
Qed.

(** A new subscriber. *)
Lemma wf_subscribe r chs k gw c known polled : wf r chs -> r !! k = Some gw -> chs !! c = None ->
  wf (<[k := mkGateway k (gw_subscribers gw ++ [c])%list known polled]> r) (<[c := mkChannel [] [] false]> chs).
Proof.
  intros [Hid Hnd Hu Hdj Hb] Hgw Hc.
  assert (Hfresh : forall k' gw', r !! k' = Some gw' -> c ∉ gw_subscribers gw').
  { intros k' gw' Hgw' Hin. pose proof (Hu _ _ Hgw') as Hf. rewrite Forall_forall in Hf. destruct (Hf _ Hin) as (ch & Hch & _). congruence. }
  split.
  - intros k2 gw2 [(<- & <-)|(Hne & Hl)]%lookup_insert_Some; eauto.
  - intros k2 gw2 [(<- & <-)|(Hne & Hl)]%lookup_insert_Some; [|eauto]. cbn. apply NoDup_app. split_and!; [eauto| |apply NoDup_singleton].
    intros d Hd ->%list_elem_of_singleton. by eapply Hfresh.
  - intros k2 gw2 [(<- & <-)|(Hne & Hl)]%lookup_insert_Some; [cbn; apply Forall_app; split|]; [eapply usable_insert; eauto| |eapply usable_insert; eauto].
    apply Forall_singleton. eexists. rewrite lookup_insert_eq. split_and!; [done..|]. cbn. lia.
  - intros k1 gw1 k2 gw2 d [(<- & <-)|(Hne1 & Hl1)]%lookup_insert_Some [(<- & <-)|(Hne2 & Hl2)]%lookup_insert_Some; cbn; [done| | |eauto];
      rewrite elem_of_app, list_elem_of_singleton.
    + intros [?| ->] ?; [eauto|]. exfalso. by eapply Hfresh.
    + intros ? [?| ->]; [eauto|]. exfalso. by eapply Hfresh.
  - intros d ch [(<- & <-)|(Hne & Hl)]%lookup_insert_Some; [cbn; lia|eauto].
Qed.

(** The channels change and the ones subscribed stay usable. *)
Lemma wf_channels r chs chs' : wf r chs ->
  (forall k gw c, r !! k = Some gw -> c ∈ gw_subscribers gw -> usable chs' c) ->
  (forall c ch, chs' !! c = Some ch -> (length (ch_buffer ch) <= channelCap)%nat) -> wf r chs'.
Proof. intros [Hid Hnd Hu Hdj Hb] Hu' Hb'. split; [done..| |done|done]. intros k gw Hgw. apply Forall_forall. eauto. Qed.

Lemma wf_shut r chs cs : wf r chs -> (forall k gw c, r !! k = Some gw -> c ∈ gw_subscribers gw -> c ∉ cs) -> wf r (mapOn shut cs chs).
Proof.
  intros Hwf Hno. eapply wf_channels; [done| |].
  - intros k gw c Hgw Hc. pose proof (wf_usable _ _ Hwf _ _ Hgw) as Hf. rewrite Forall_forall in Hf. destruct (Hf _ Hc) as (ch & Hch & ?).
    exists ch. rewrite lookup_mapOn, Hch. cbn. rewrite decide_False; [done|]. by eapply Hno.
  - intros c ch. rewrite lookup_mapOn. intros (ch0 & Hch & ->)%fmap_Some. pose proof (wf_bound _ _ Hwf _ _ Hch). by case_decide.
Qed.

(** A gateway gives up subscribers, which are closed. *)
Lemma wf_release r chs k gw gw' cs : wf r chs -> r !! k = Some gw -> gw_id gw' = k ->
  gw_subscribers gw ≡ₚ cs ++ gw_subscribers gw' -> wf (<[k := gw']> r) (mapOn shut cs chs).
Proof.
  intros Hwf Hgw Hid Hperm. pose proof (wf_nodup _ _ Hwf _ _ Hgw) as Hnd. rewrite Hperm in Hnd. apply NoDup_app in Hnd as (Hnd1 & Hd & Hnd2).
  apply wf_shut.
  - apply wf_insert; [done..|]. intros c Hc. exists gw. split; [done|]. rewrite Hperm. set_solver.
  - intros k2 gw2 c [(<- & <-)|(Hne & Hl)]%lookup_insert_Some Hc Hcs; [set_solver|].
    apply Hne. eapply (wf_disjoint _ _ Hwf); eauto. rewrite Hperm. set_solver.
Qed.

Lemma release_usable r chs k gw cs rest : wf r chs -> r !! k = Some gw -> gw_subscribers gw ≡ₚ cs ++ rest -> NoDup cs /\ Forall (usable chs) cs.
Proof.
  intros Hwf Hgw Hperm. pose proof (wf_nodup _ _ Hwf _ _ Hgw) as Hnd. pose proof (wf_usable _ _ Hwf _ _ Hgw) as Hu.
  rewrite Hperm in Hnd, Hu. apply NoDup_app in Hnd as (? & _ & _). apply Forall_app in Hu as [? _]. done.
Qed.

Lemma swapRemove_perm i l x : l !! i = Some x -> l ≡ₚ x :: swapRemove i l.
Proof.
  intros Hi. unfold swapRemove. destruct (last l) as [y|] eqn:Hl; [|by apply last_None in Hl; subst].
  apply last_Some in Hl as [l' ->]. destruct (decide (i < length l')) as [Hlt|Hge].
  - rewrite insert_app_l, removelast_last by done. rewrite lookup_app_l in Hi by done.
    rewrite <- (take_drop_middle l' i x) at 1 by done. rewrite (insert_take_drop l' i y) by done. solve_Permutation.
  - assert (i = length l') as -> by (apply lookup_lt_Some in Hi; rewrite length_app in Hi; cbn in Hi; lia).
    rewrite list_lookup_middle in Hi by done. simplify_eq. rewrite insert_app_r_alt by lia. rewrite Nat.sub_diag. cbn. rewrite removelast_last. solve_Permutation.
Qed.

Lemma closeChannel_spec c s : usable (sb_channels s) c -> closeChannel c s = Ok (set_channels (mapOn shut [c] (sb_channels s)) s) tt.
Proof.
  intros Hu. pose proof (closeAll_spec [c] s) as Hs. cbn in Hs. unfold mbind, GoM_bind in Hs.
  destruct (closeChannel c s) as [s' []| |] eqn:E; apply Hs; try apply NoDup_singleton; by apply Forall_singleton.
Qed.

Lemma wp_exec fault st message (Q : SQLBackend -> unit -> Prop) E P s : Q s tt -> (forall e, E s e) -> wp (exec fault st message) Q E P s.
Proof. intros HQ HE. unfold wp, exec. destruct (fault st); auto. Qed.

Lemma safe_exec {A} fault st message (k : GoM SQLBackend A) s : wellFormed s -> safe k s -> safe (exec fault st message;; k) s.
Proof. intros Hwf Hk. apply wp_bind, wp_exec; [done|by intros]. Qed.

(** Publishing and cleaning up leave the registry and the channels alone. *)
Lemma Publish_safe `{EventOrder} fault now v i g ev s : wellFormed s -> safe (Publish fault now v i g ev) s.
Proof.
  intros Hwf. apply safe_exec, safe_exec; [done..|]. set (row := rowOf _ _ _ _).
  assert (Hf : forall e, safe (failedInsert fault row e) s) by (intros e; do 2 (apply safe_exec; [done|]); unfold safe, wp; by destruct (hasEvent _ _ _)).
  unfold safe, wp, insertEvent. destruct (fault StInsertEvent); [apply Hf|]. destruct (insertViolates _ _); [apply Hf|].
  by apply (safe_exec fault StUpdateVersion _ _ s Hwf), safe_exec.
Qed.

Lemma Subscribe_safe g s : wellFormed s -> safe (Subscribe g) s.
Proof.
  intros Hwf. unfold safe, wp, Subscribe, makeChannel, addSubscriber. cbn [sb_registry set_channels].
  pose proof (is_fresh (dom (sb_channels s))) as Hc. set (c := fresh _) in *. apply not_elem_of_dom in Hc.
  destruct (sb_registry s !! g) as [gw|] eqn:Hgw.
  - unfold wellFormed. cbn. rewrite (wf_id _ _ Hwf _ _ Hgw). by apply wf_subscribe.
  - rewrite closeChannel_spec by (eexists; cbn; rewrite lookup_insert_eq; split_and!; [done..|]; cbn; lia).
    unfold wellFormed. cbn. apply wf_shut.
    + eapply wf_channels; [done| |].
      * intros k gw d Hk Hd. pose proof (wf_usable _ _ Hwf _ _ Hk) as Hu. rewrite Forall_forall in Hu. destruct (Hu _ Hd) as (ch & Hch & ?).
        exists ch. rewrite lookup_insert_ne; [done|]. intros ->. congruence.
      * intros d ch [(<- & <-)|(Hne & Hl)]%lookup_insert_Some; [cbn; lia|by eapply (wf_bound _ _ Hwf)].
    + intros k gw d Hk Hd ->%list_elem_of_singleton. pose proof (wf_usable _ _ Hwf _ _ Hk) as Hu. rewrite Forall_forall in Hu.
      destruct (Hu _ Hd) as (ch & Hch & ?). congruence.
Qed.

Lemma Unsubscribe_safe g c s : wellFormed s -> safe (Unsubscribe g c) s.
Proof.
  intros Hwf. unfold safe, wp, Unsubscribe, removeSubscriber. destruct (sb_registry s !! g) as [gw|] eqn:Hgw; [|done].
  destruct (list_find _ _) as [[i d]|] eqn:Hf; [|done]. apply list_find_Some in Hf as (Hi & <- & _).
  pose proof (swapRemove_perm _ _ _ Hi) as Hperm. destruct (release_usable _ _ _ _ [c] (swapRemove i (gw_subscribers gw)) Hwf Hgw Hperm) as [_ Hu].
  rewrite closeChannel_spec by by apply Forall_singleton. unfold wellFormed. cbn. eapply wf_release; try done. cbn. by eapply (wf_id _ _ Hwf).
Qed.

Lemma UnsubscribeAll_safe g s : wellFormed s -> safe (UnsubscribeAll g) s.
Proof.
  intros Hwf. unfold safe, wp, UnsubscribeAll, removeAllSubscribers. destruct (sb_registry s !! g) as [gw|] eqn:Hgw; [|done].
  destruct (release_usable _ _ _ _ (gw_subscribers gw) [] Hwf Hgw) as [Hnd Hu]; [by rewrite app_nil_r|].
  rewrite closeAll_spec by done. unfold wellFormed. cbn. eapply wf_release; try done; cbn; [by eapply (wf_id _ _ Hwf)|by rewrite app_nil_r].
Qed.

Lemma closeGateway_safe g s : wellFormed s -> safe (closeGateway g) s.
Proof.
  intros Hwf. unfold safe, wp, closeGateway. destruct (sb_registry s !! g) as [gw|] eqn:Hgw; [|done].
  destruct (release_usable _ _ _ _ (gw_subscribers gw) [] Hwf Hgw) as [Hnd Hu]; [by rewrite app_nil_r|].
  unfold mbind, GoM_bind. rewrite closeAll_spec by done. unfold clearSubscribers, wellFormed. cbn.
  rewrite (alter_Some _ _ _ gw) by done.
  eapply wf_release; try done; cbn; [by eapply (wf_id _ _ Hwf)|by rewrite app_nil_r].
Qed.

Lemma closeGateways_safe ids : forall s, wellFormed s -> safe (closeGateways ids) s.
Proof.
  induction ids as [|i ids IH]; intros s Hwf; [done|]. apply wp_bind. eapply wp_mono; [by apply closeGateway_safe| |done|done].
  intros s' a Hwf'. by apply IH.
Qed.

Lemma RegisterGateway_safe fault g s : wellFormed s -> safe (RegisterGateway fault g) s.
Proof.
  intros Hwf. unfold safe, wp, RegisterGateway, registry_register. destruct (String.eqb _ _); [done|]. set (k := TrimSpace g).
  assert (Hr : sb_registry s !! k = None -> wf (<[k := mkGateway k [] "" 0]> (sb_registry s)) (sb_channels s))
    by (intros; apply wf_insert; cbn; [done..|constructor|intros ? []%not_elem_of_nil]).
  destruct (fault StInsertGateway), (fault StGatewayState), (tb_states (sb_tables s) !! k); cbn;
    destruct (sb_registry s !! k) eqn:Hk; cbn; unfold wellFormed; cbn; auto.
Qed.

(** *** Polling *)

Lemma advance_id v t l b gw : gw_id (advance v t l b gw) = gw_id gw.
Proof. by destruct b. Qed.

Lemma advance_subscribers v t l b gw : gw_subscribers (advance v t l b gw) = gw_subscribers gw.
Proof. by destruct b. Qed.

(** A poll of one gateway: nothing, or new events to its subscribers. *)
Lemma poll_spec `{EventOrder} fault now g v s : wellFormed s ->
  wp (pollGatewayWithState fault now g v) (fun s' _ => wellFormed s' /\ sb_tables s' = sb_tables s)
    (fun s' _ => wellFormed s' /\ sb_tables s' = sb_tables s) False s.
Proof.
  intros Hwf. unfold wp, pollGatewayWithState. destruct (sb_registry s !! g) as [gw|] eqn:Hgw; [|done].
  case_decide; [done|]. destruct (_ || _); [done|]. unfold mbind, GoM_bind, exec. destruct (fault (StEvents g)); [done|].
  pose proof (wf_nodup _ _ Hwf _ _ Hgw) as Hnd. pose proof (wf_usable _ _ Hwf _ _ Hgw) as Hu.
  destruct (deliver_spec (gw_subscribers gw) (newEvents now gw (sb_tables s)) None s Hnd Hu) as (s' & r & k & -> & [_ -> _ _ _ Hu']).
  unfold setCursor, wellFormed. cbn in Hu' |- *. split; [|done]. rewrite (alter_Some _ _ _ gw) by done.
  apply wf_insert; rewrite ?advance_id, ?advance_subscribers; [|by apply (wf_id _ _ Hwf)|done|by eauto].
  eapply wf_channels; [done| |].
  - intros k2 gw2 c Hk2 Hc. rewrite Forall_forall in Hu'. destruct (decide (c ∈ gw_subscribers gw)) as [Hin|Hnin]; [by apply Hu'|].
    pose proof (wf_usable _ _ Hwf _ _ Hk2) as Hu2. rewrite Forall_forall in Hu2. destruct (Hu2 _ Hc) as (ch & Hch & ?).
    exists ch. rewrite lookup_mapOn, Hch. cbn. by rewrite decide_False.
  - intros c ch Hch. destruct (decide (c ∈ gw_subscribers gw)) as [Hin|Hnin].
    + rewrite Forall_forall in Hu'. destruct (Hu' _ Hin) as (ch' & Hch' & _ & ?). by simplify_eq.
    + rewrite lookup_mapOn, fmap_Some in Hch. destruct Hch as (ch0 & Hch0 & ->). rewrite decide_False by done. by eapply (wf_bound _ _ Hwf).
Qed.

(** Whatever happens, the polling of a list of rows ends without an error. *)
Lemma pollRows_spec `{EventOrder} fault now rows : forall s, wellFormed s ->
  exists s', pollRows fault now rows s = Ok s' tt /\ wellFormed s' /\ sb_tables s' = sb_tables s.
Proof.
  induction rows as [|row rows IH]; intros s Hwf; [by exists s|]. cbn [pollRows].
  pose proof (poll_spec fault now row.1 row.2 s Hwf) as Hp. unfold wp in Hp. unfold mbind, GoM_bind, pollRow.
  destruct (pollGatewayWithState fault now row.1 row.2 s) as [s1 []|s1 e|]; [| |done]; destruct Hp as [Hwf1 Ht];
    destruct (IH s1 Hwf1) as (s' & ? & ? & ?); exists s'; split_and!; congruence.
Qed.

Lemma pollRows_app `{EventOrder} fault now rows1 rows2 s s1 : pollRows fault now rows1 s = Ok s1 tt ->
  pollRows fault now (rows1 ++ rows2) s = pollRows fault now rows2 s1.
Proof.
  revert s. induction rows1 as [|row rows1 IH]; intros s; cbn; [by intros [= ->]|].
  unfold mbind, GoM_bind. destruct (pollRow fault now row s) as [s' []| |]; [apply IH|done..].
Qed.

(** *** Pages *)

Definition keyBefore (a b : string * string) : bool := string_less a.1 b.1.

#[local] Instance keyBefore_weakOrder : WeakOrder keyBefore.
Proof. apply (weakOrder_key fst string_less), _. Qed.

(** The rows behind a cursor, in order. *)
Definition rowsAfter (cursor : string) (t : Tables) : list (string * string) :=
  filter (fun row => string_less cursor row.1 = true) (statesInOrder t).

Lemma string_less_trans a b c : string_less a b = true -> string_less b c = true -> string_less a c = true.
Proof.
  intros Hab Hbc. destruct (string_less a c) eqn:Hac; [done|].
  pose proof (less_negtrans c a b Hac (less_asym a b Hab)). congruence.
Qed.

Lemma statesInOrder_perm t : statesInOrder t ≡ₚ map_to_list (tb_states t).
Proof. apply (stableSort_perm keyBefore). Qed.

Lemma statesInOrder_sorted t : StronglySorted (fun a b => keyBefore a b = true) (statesInOrder t).
Proof.
  pose proof (stableSort_ascending keyBefore (map_to_list (tb_states t))) as Hs. pose proof (statesInOrder_perm t) as Hp.
  change (stableSort keyBefore (map_to_list (tb_states t))) with (statesInOrder t) in Hs.
  assert (Hnd : NoDup (statesInOrder t).*1) by (rewrite Hp; apply NoDup_fst_map_to_list).
  clear Hp. unfold ascending in Hs. induction Hs as [|a l Hl IH Hf]; [constructor|]. cbn in Hnd. apply NoDup_cons in Hnd as [Ha Hnd].
  constructor; [by apply IH|]. rewrite Forall_forall in Hf |- *. intros b Hb. specialize (Hf b Hb). destruct (keyBefore a b) eqn:E; [done|].
  exfalso. apply Ha. rewrite (string_less_total a.1 b.1 E Hf). by apply list_elem_of_fmap_2.
Qed.

Lemma filter_True {A} (P : A -> Prop) `{!forall x, Decision (P x)} (l : list A) : (forall x, x ∈ l -> P x) -> filter P l = l.
Proof. induction l as [|x l IH]; intros HP; [done|]. rewrite filter_cons_True by set_solver. f_equal. apply IH. set_solver. Qed.

Lemma filter_False {A} (P : A -> Prop) `{!forall x, Decision (P x)} (l : list A) : (forall x, x ∈ l -> ¬ P x) -> filter P l = [].
Proof. induction l as [|x l IH]; intros HP; [done|]. rewrite filter_cons_False by set_solver. apply IH. set_solver. Qed.

Lemma sorted_filter {A} (R : A -> A -> Prop) (P : A -> Prop) `{!forall x, Decision (P x)} (l : list A) : StronglySorted R l -> StronglySorted R (filter P l).
Proof.
  induction 1 as [|x l Hl IH Hf]; [constructor|]. destruct (decide (P x)); [rewrite filter_cons_True by done|by rewrite filter_cons_False].
  constructor; [done|]. rewrite Forall_forall in Hf |- *. intros y [_ Hy]%list_elem_of_filter. auto.
Qed.

(** The rows behind the last one of a page are those that follow the page. *)
Lemma rowsAfter_page n cursor t row : last (take n (rowsAfter cursor t)) = Some row -> rowsAfter row.1 t = drop n (rowsAfter cursor t).
Proof.
  intros Hlast. assert (Hrow : row ∈ rowsAfter cursor t) by (apply last_Some in Hlast as [page Hpage]; apply (subseteq_take n); rewrite Hpage; set_solver).
  apply list_elem_of_filter in Hrow as [Hcur _]. unfold rowsAfter at 1. trans (filter (fun r => keyBefore row r = true) (rowsAfter cursor t)).
  { unfold rowsAfter. rewrite list_filter_filter_l; [done|]. intros r Hr. by eapply string_less_trans. }
  pose proof (sorted_filter _ (fun r => string_less cursor r.1 = true) _ (statesInOrder_sorted t)) as Hs. fold (rowsAfter cursor t) in Hs.
  rewrite <- (take_drop n (rowsAfter cursor t)) at 1. rewrite <- (take_drop n (rowsAfter cursor t)) in Hs.
  apply last_Some in Hlast as [page Hpage]. rewrite filter_app, filter_False, filter_True; [done| |].
  - intros r Hr. eapply (StronglySorted_app_1_elem_of (fun a b => keyBefore a b = true)); [exact Hs| |done]. rewrite Hpage. set_solver.
  - intros r Hr. apply (StronglySorted_app_1_l (fun a b => keyBefore a b = true)) in Hs. rewrite Hpage in Hr, Hs.
    apply elem_of_app in Hr as [Hr|Hr]; [|apply list_elem_of_singleton in Hr as ->; pose proof (less_irrefl keyBefore row); congruence].
    intros Hlt%less_asym. apply not_true_iff_false in Hlt. apply Hlt. eapply (StronglySorted_app_1_elem_of (fun a b => keyBefore a b = true)); [exact Hs|done|set_solver].
Qed.

(** The loop over the pages polls the rows behind the cursor one by one, up
    to a page that cannot be read. *)
Lemma pollPages_spec `{EventOrder} fault now n fuel : n <> 0%nat -> forall cursor s, wellFormed s ->
  (length (rowsAfter cursor (sb_tables s)) < fuel)%nat ->
  exists k, pollPages fault fuel now n cursor s = pollRows fault now (take k (rowsAfter cursor (sb_tables s))) s /\
    ((forall c, fault (StStatesPage c) = None) -> (length (rowsAfter cursor (sb_tables s)) <= k)%nat).
Proof.
  intros Hn. induction fuel as [|fuel IH]; intros cursor s Hwf Hlen; [lia|]. cbn [pollPages].
  destruct (fault (StStatesPage cursor)) eqn:Hf; [exists 0%nat; rewrite take_0; split; [done|intros Hnf; congruence]|]. unfold getGatewayStatesPage.
  fold (rowsAfter cursor (sb_tables s)). set (rows := rowsAfter cursor (sb_tables s)) in *. destruct (take n rows) as [|row0 page0] eqn:Hpage.
  { apply take_nil_inv in Hpage as [?| Hnil]; [done|]. exists 0%nat. rewrite Hnil. split; [done|]. cbn. lia. }
  rewrite <- Hpage. assert (Hne : take n rows <> []) by congruence. clear row0 page0 Hpage. unfold mbind, GoM_bind.
  destruct (pollRows_spec fault now (take n rows) s Hwf) as (s1 & Hs1 & Hwf1 & Ht). rewrite Hs1.
  destruct (Nat.ltb_spec (length (take n rows)) n) as [Hlt|Hge]; rewrite length_take in *.
  - exists n. rewrite Hs1. split; [done|]. lia.
  - unfold lastKey. destruct (last (take n rows)) as [row|] eqn:Hlast; [|by apply last_None in Hlast].
    pose proof (rowsAfter_page _ _ _ _ Hlast) as Hrest. fold rows in Hrest. destruct (IH row.1 s1 Hwf1) as (k & Hk & Hall).
    { rewrite Ht, Hrest, length_drop. lia. }
    rewrite Ht, Hrest in Hk, Hall. exists (n + k)%nat. rewrite Hk. split.
    + rewrite <- (pollRows_app _ _ _ _ _ _ Hs1). f_equal. by rewrite <- take_take_drop.
    + intros Hnf. specialize (Hall Hnf). rewrite length_drop in Hall. lia.
Qed.

Lemma statesInOrder_length t : length (statesInOrder t) = size (tb_states t).
Proof. by rewrite statesInOrder_perm, length_map_to_list. Qed.

Lemma gatewayStatePageSize_pos n : gatewayStatePageSize n <> 0%nat.
Proof. unfold gatewayStatePageSize. destruct (Nat.ltb_spec 0 n); [lia|done]. Qed.

Lemma rowsAfter_start t : rowsAfter "" t = filter (fun row => row.1 <> "") (statesInOrder t).
Proof. apply list_filter_iff. intros [[|c k] v]; cbn; split; done. Qed.

Lemma pollGateways_spec `{EventOrder} fault now n s : wellFormed s ->
  exists k, pollGateways fault now n s = pollRows fault now (take k (filter (fun row => row.1 <> "") (statesInOrder (sb_tables s)))) s /\
    (sb_registry s <> ∅ -> (forall c, fault (StStatesPage c) = None) ->
     (length (filter (fun row : string * string => row.1 <> "") (statesInOrder (sb_tables s))) <= k)%nat).
Proof.
  intros Hwf. unfold pollGateways. case_decide as Hr.
  { exists 0%nat. rewrite take_0. split; [done|]. by rewrite map_size_empty_iff in Hr. }
  rewrite <- rowsAfter_start. destruct (pollPages_spec fault now (gatewayStatePageSize n) (S (size (tb_states (sb_tables s)))) (gatewayStatePageSize_pos n) "" s Hwf)
    as (k & Hk & Hall); [|eauto].
  rewrite <- statesInOrder_length. apply Nat.lt_succ_r, length_filter.
Qed.

(** *** Every sequence of operations *)

Inductive Op : Type :=
| OpRegister (gatewayID : string)
| OpPublish (now : Z) (newVersion newID gatewayID : string) (event : Event)
| OpSubscribe (gatewayID : string)
| OpUnsubscribe (gatewayID : string) (subscriber : nat)
| OpUnsubscribeAll (gatewayID : string)
| OpPoll (now : Z) (pageSize : nat)
| OpReceive (c : nat)
| OpCleanup (now retentionPeriod : Z)
| OpCleanupRange (gatewayID : string) (before : Z)
| OpClose.

Definition perform `{EventOrder, MapRange} (fault : Stmt -> option string) (op : Op) : GoM SQLBackend unit :=
  match op with
  | OpRegister g => RegisterGateway fault g
  | OpPublish now v i g ev => Publish fault now v i g ev
  | OpSubscribe g => Subscribe g;; mret tt
  | OpUnsubscribe g c => Unsubscribe g c
  | OpUnsubscribeAll g => UnsubscribeAll g
  | OpPoll now n => pollGateways fault now n
  | OpReceive c => modify (receive c)
  | OpCleanup now p => Cleanup fault now p
  | OpCleanupRange g t => CleanupRange fault g t
  | OpClose => Close
  end.

(** The operations one after the other, each with the statements that fail in
    it; [None] for a panic. *)
Fixpoint performAll `{EventOrder, MapRange} (ops : list (Op * (Stmt -> option string))) (s : SQLBackend) : option SQLBackend :=
  match ops with
  | [] => Some s
  | (op, fault) :: ops' => match perform fault op s with Ok s' _ | Err s' _ => performAll ops' s' | Panic => None end
  end.

Lemma receive_wf c s : wellFormed s -> wellFormed (receive c s).
Proof.
  intros Hwf. eapply wf_channels; [done| |]; cbn.
  - intros k gw d Hk Hd. pose proof (wf_usable _ _ Hwf _ _ Hk) as Hu. rewrite Forall_forall in Hu. destruct (Hu _ Hd) as (ch & Hch & Hcl & Hl).
    unfold usable. destruct (decide (c = d)) as [->|Hne]; [rewrite lookup_alter_eq, Hch|rewrite lookup_alter_ne, Hch by done]; eexists; split_and!; try done. cbn. lia.
  - intros d ch. rewrite lookup_alter_Some. intros [(-> & ch0 & Hch & ->)|[Hne Hch]]; [cbn; lia|by eapply (wf_bound _ _ Hwf)].
Qed.

Lemma perform_safe `{EventOrder, MapRange} fault op s : wellFormed s -> safe (perform fault op) s.
Proof.
  intros Hwf. destruct op; cbn [perform].
  - by apply RegisterGateway_safe.
  - by apply Publish_safe.
  - apply wp_bind. eapply wp_mono; [by apply Subscribe_safe|by intros|done|done].
  - by apply Unsubscribe_safe.
  - by apply UnsubscribeAll_safe.
  - destruct (pollGateways_spec fault now pageSize s Hwf) as (k & Hk & _). destruct (pollRows_spec fault now (take k (filter (fun row => row.1 <> "") (statesInOrder (sb_tables s)))) s Hwf) as (s' & Hs & ? & _).
    unfold safe, wp. by rewrite Hk, Hs.
  - by apply receive_wf.
  - by apply safe_exec.
  - by apply safe_exec.
  - by apply closeGateways_safe.
Qed.

(** C26: no sequence of registrations, subscriptions, publications, polls,
    reads, clean-ups and closings, whatever statements fail in them, sends on
    a closed channel, closes one twice or exhausts the fuel of the page loop;
    after it no buffer holds more than its capacity of 100 events, and the
    subscribers of all gateways are open and distinct. *)
Theorem channels_are_used_safely `{EventOrder, MapRange} (t : Tables) (ops : list (Op * (Stmt -> option string))) :
  exists s, performAll ops (mkSQLBackend t ∅ ∅) = Some s /\
    (forall c ch, sb_channels s !! c = Some ch -> (length (ch_buffer ch) <= channelCap)%nat) /\
    (forall g gw c, sb_registry s !! g = Some gw -> c ∈ gw_subscribers gw -> exists ch, sb_channels s !! c = Some ch /\ ch_closed ch = false) /\
    (forall g1 gw1 g2 gw2 c, sb_registry s !! g1 = Some gw1 -> sb_registry s !! g2 = Some gw2 ->
       c ∈ gw_subscribers gw1 -> c ∈ gw_subscribers gw2 -> g1 = g2).
Proof.
  assert (Hw : wellFormed (mkSQLBackend t ∅ ∅)) by apply wf_empty. revert Hw. generalize (mkSQLBackend t ∅ ∅). clear t.
  induction ops as [|[op fault] ops IH]; intros s Hwf; cbn [performAll].
  - exists s. destruct Hwf as [_ _ Hu Hdj Hb]. split_and!; [done..| |done]. intros g gw c Hg Hc. specialize (Hu _ _ Hg).
    rewrite Forall_forall in Hu. destruct (Hu _ Hc) as (ch & ? & ? & _). eauto.
  - pose proof (perform_safe fault op s Hwf) as Hs. unfold safe, wp in Hs. destruct (perform fault op s); [by apply IH..|done].
Qed.
