(* ===== verification/EventDelivery.v ===== *)
(** * EventDelivery: what the subscribers of a gateway get

    The history of a gateway is the list of the events committed for it.
    While the times of the events increase with their commits, versions are
    fresh and rows are not cleaned up before they are delivered, every
    subscriber gets a contiguous part of the history, in order and without
    duplicates, whatever statements fail and whatever else the hub does; and
    when its replica polls and the subscribers read, it gets all of it. *)

From stdpp Require Import base gmap strings list fin_maps sorting infinite pretty.
From S2P Require Import Prelude GoStrings GoSort Routes EventHub RouteTheorems EventHubTheorems.

#[local] Set Warnings "-register-all".

Open Scope string_scope.

Abbreviation ts := ev_ProcessedTimestamp.

(** ** Histories *)

Definition increasing : list Event -> Prop := StronglySorted (fun a b => (ts a < ts b)%Z).

(** The events after a time, and those up to another. *)
Definition after (L : Z) (l : list Event) : list Event := filter (fun e => (L < ts e)%Z) l.
Definition upto (P : Z) (l : list Event) : list Event := filter (fun e => (ts e <= P)%Z) l.
Definition between (L P : Z) (l : list Event) : list Event := upto P (after L l).

Lemma upto_after P l : increasing l -> (upto P l ++ after P l)%list = l.
Proof.
  unfold upto, after. induction 1 as [|e l Hl IH Hf]; [done|]. rewrite Forall_forall in Hf. rewrite !filter_cons.
  destruct (decide (ts e <= P)%Z) as [Hle|Hgt]; [rewrite (decide_False (P := (P < ts e)%Z)) by lia; cbn; by f_equal|].
  rewrite (decide_True (P := (P < ts e)%Z)) by lia. rewrite filter_False, filter_True; [done| |]; intros d Hd; specialize (Hf d Hd); lia.
Qed.

Lemma after_after L P l : (L <= P)%Z -> after P (after L l) = after P l.
Proof. intros HL. apply list_filter_filter_l. lia. Qed.

Lemma increasing_after L l : increasing l -> increasing (after L l).
Proof. apply sorted_filter. Qed.

Lemma upto_upto L P l : (L <= P)%Z -> upto L (upto P l) = upto L l.
Proof. intros HL. apply list_filter_filter_l. lia. Qed.

Lemma upto_after_comm L P l : upto P (after L l) = after L (upto P l).
Proof. unfold upto, after. rewrite !list_filter_filter. apply list_filter_iff. naive_solver. Qed.

(** A longer part of the history is the shorter one and the rest. *)
Lemma between_extend L P P' l : increasing l -> (L <= P <= P')%Z -> between L P' l = (between L P l ++ between P P' l)%list.
Proof.
  intros Hl HP. unfold between. rewrite <- (upto_after P (upto P' (after L l))) at 1 by by apply sorted_filter, increasing_after.
  rewrite upto_upto by lia. by rewrite <- upto_after_comm, after_after by lia.
Qed.

Lemma between_empty L l : between L L l = [].
Proof. unfold between, upto, after. rewrite list_filter_filter. apply filter_False. lia. Qed.

(** A prefix of an increasing list is the part up to its last event. *)
Lemma take_upto k l e : increasing l -> last (take k l) = Some e -> take k l = upto (ts e) l /\ drop k l = after (ts e) l.
Proof.
  intros Hl [p Hp]%last_Some. unfold increasing in Hl. rewrite <- (take_drop k l), Hp in Hl.
  assert (Hp1 : forall d, d ∈ p -> (ts d < ts e)%Z).
  { intros d Hd. apply (StronglySorted_app_1_l (fun a b => (ts a < ts b)%Z)) in Hl.
    eapply (StronglySorted_app_1_elem_of (fun a b => (ts a < ts b)%Z)); [exact Hl|done|set_solver]. }
  assert (Hp2 : forall d, d ∈ drop k l -> (ts e < ts d)%Z).
  { intros d Hd. eapply (StronglySorted_app_1_elem_of (fun a b => (ts a < ts b)%Z)); [exact Hl|set_solver|done]. }
  rewrite <- (take_drop k l) at 2 4. unfold upto, after. rewrite !filter_app, Hp.
  assert (Hle : forall d, d ∈ (p ++ [e])%list -> (ts d <= ts e)%Z).
  { intros d [Hd|Hd]%elem_of_app; [specialize (Hp1 d Hd); lia|]. apply list_elem_of_singleton in Hd as ->. lia. }
  split.
  - rewrite (filter_True _ (p ++ [e])), (filter_False _ (drop k l)), app_nil_r; [done| |done]. intros d Hd. specialize (Hp2 d Hd). lia.
  - rewrite (filter_False _ (p ++ [e])), (filter_True _ (drop k l)); [done|done|]. intros d Hd. specialize (Hle d Hd). lia.
Qed.

(** Delivering [k] of the events after [B] moves the cursor. *)
Lemma deliver_moves L B k l : increasing l -> (L <= B)%Z ->
  let P := match last (take k (after B l)) with Some e => ts e | None => B end in
  (B <= P)%Z /\ between L P l = (between L B l ++ take k (after B l))%list /\ after P l = drop k (after B l).
Proof.
  intros Hl HL. destruct (last (take k (after B l))) as [e|] eqn:Hlast; cbn.
  - destruct (take_upto k (after B l) e) as [Ht Hd]; [by apply increasing_after|done|].
    assert (HB : (B < ts e)%Z). { apply last_Some in Hlast as [p Hp]. assert (He : e ∈ after B l) by (apply (subseteq_take k); rewrite Hp; set_solver).
      by apply list_elem_of_filter in He as [? _]. }
    split; [lia|]. split; [|by rewrite Hd, after_after by lia]. rewrite (between_extend L B) by (done || lia). by rewrite Ht.
  - apply last_None in Hlast. rewrite Hlast, app_nil_r. split; [lia|]. split; [done|].
    destruct (take_nil_inv _ _ Hlast) as [->|Hn]; [done|]. rewrite Hn. by rewrite drop_nil.
Qed.

Lemma increasing_inj l a b : increasing l -> a ∈ l -> b ∈ l -> ts a = ts b -> a = b.
Proof.
  induction 1 as [|e l Hl IH Hf]; [by intros ?%not_elem_of_nil|]. rewrite Forall_forall in Hf.
  intros [->|Ha]%elem_of_cons [->|Hb]%elem_of_cons Heq; [done| | |by apply IH].
  - specialize (Hf b Hb). lia.
  - specialize (Hf a Ha). lia.
Qed.

Lemma increasing_NoDup l : increasing l -> NoDup l.
Proof. induction 1 as [|e l Hl IH Hf]; constructor; [|done]. rewrite Forall_forall in Hf. intros He. specialize (Hf e He). lia. Qed.

(** Rows in the order of their times come as they are. *)
Lemma orderByTime_increasing `{EventOrder} l : increasing l -> orderByTime l = l.
Proof.
  intros Hl. apply (StronglySorted_unique_strong (fun a b => (ts a <= ts b)%Z)); [|apply orderByTime_sorted| |apply orderByTime_perm].
  - intros a b Ha Hb Hab Hba. rewrite orderByTime_perm in Ha. apply (increasing_inj l); [done..|lia].
  - clear H. induction Hl as [|e l Hl IH Hf]; constructor; [done|]. eapply Forall_impl; [exact Hf|]. cbn. lia.
Qed.

(** At most one row has the time of the last poll: the query from that time
    on and the trimming give the rows after it. *)
Lemma trim_after P l : increasing l -> (forall e, e ∈ l -> (P <= ts e)%Z) -> trimSingleBoundaryReplay l P true = after P l.
Proof.
  intros Hl HP. destruct Hl as [|e0 l Hl Hf]; [done|]. rewrite Forall_forall in Hf. cbn [trimSingleBoundaryReplay negb]. unfold after. rewrite filter_cons.
  assert (Hrest : (P <= ts e0)%Z -> filter (fun e => (P < ts e)%Z) l = l) by (intros ?; apply filter_True; intros d Hd; specialize (Hf d Hd); lia).
  assert (H0 : (P <= ts e0)%Z) by (apply HP; set_solver). rewrite (Hrest H0).
  destruct (Z.eqb_spec (ts e0) P) as [HeP|Hne]; [|by rewrite decide_True by lia]. rewrite decide_False by lia. cbn [negb].
  destruct l as [|e1 l]; [done|]. destruct (Z.eqb_spec (ts e1) P) as [He1|]; [|done]. specialize (Hf e1 ltac:(set_solver)). lia.
Qed.

Section Gateway.
Context `{EventOrder} (g : string).

Definition rowsOf (t : Tables) : list Event := filter (fun e => ev_GatewayID e = g) (tb_events t).

(** Where a poll starts: after the last delivered event, or two minutes ago. *)
Definition base (now : Z) (gw : gateway) : Z :=
  if decide (gw_lastPolled gw = 0%Z) then (now - initialPollSkewWindow - 1)%Z else gw_lastPolled gw.

(** The rows of the gateway are the history without what was cleaned up. *)
Lemma newEvents_after now gw t hist cut : increasing hist -> gw_id gw = g ->
  rowsOf t = filter (fun e => (cut <= ts e)%Z) hist -> (cut <= base now gw + 1)%Z ->
  (gw_lastPolled gw = 0 \/ unixNanosThreshold <= gw_lastPolled gw)%Z -> newEvents now gw t = after (base now gw) hist.
Proof.
  intros Hh Hid Hr Hcut HP. unfold newEvents, getEvents.
  assert (Hrows : forall B, filter (fun e => ev_GatewayID e = gw_id gw /\ (B <= ts e)%Z) (tb_events t) = filter (fun e => (Z.max B cut <= ts e)%Z) hist).
  { intros B. trans (filter (fun e => (B <= ts e)%Z) (rowsOf t)).
    - unfold rowsOf. rewrite list_filter_filter, Hid. apply list_filter_iff. naive_solver.
    - rewrite Hr, list_filter_filter. apply list_filter_iff. lia. }
  assert (Hi : forall B, increasing (filter (fun e => (B <= ts e)%Z) hist)) by (intros; by apply sorted_filter).
  unfold pollFrom, resuming, base in *. case_decide as H0.
  - rewrite H0. cbn. rewrite Hrows, orderByTime_increasing by done. apply list_filter_iff. lia.
  - destruct HP as [?|HP]; [done|]. assert (Hpos : (0 < gw_lastPolled gw)%Z) by (unfold unixNanosThreshold in HP; lia).
    rewrite (proj2 (Z.ltb_lt _ _) Hpos). assert (unixTimestampToTime (gw_lastPolled gw) = gw_lastPolled gw) as ->
      by (unfold unixTimestampToTime; by rewrite (proj2 (Z.leb_le _ _) HP)).
    rewrite Hrows, orderByTime_increasing, trim_after; [|done|intros e [He _]%list_elem_of_filter; lia|done].
    unfold after. rewrite list_filter_filter. apply list_filter_iff. lia.
Qed.

(** ** Runs of the hub

    What is remembered beside the state: the history, the time before which
    rows may have been cleaned up, and for each subscriber the time after which
    it gets the events. *)
Record Ghost : Type := mkGhost { gh_hist : list Event; gh_cut : Z; gh_start : gmap nat Z }.

Definition performs (m : GoM SQLBackend unit) (s s' : SQLBackend) : Prop := m s = Ok s' tt \/ exists e, m s = Err s' e.

(** The conditions: times increase with the commits and versions are fresh,
    the first poll of a gateway and its clean-ups leave no gap, and the hub is
    not closed. *)
Definition admissible (op : Op) (s : SQLBackend) (x : Ghost) : Prop :=
  match op with
  | OpPublish now v _ g' _ => g' = g ->
      (forall e, e ∈ gh_hist x -> ts e < now)%Z /\ (unixNanosThreshold <= now)%Z /\ (gh_cut x <= now)%Z /\ v <> "" /\
      forall gw, sb_registry s !! g = Some gw -> v <> gw_knownVersion gw
  | OpPoll now _ => forall gw, sb_registry s !! g = Some gw -> gw_lastPolled gw = 0%Z -> (gh_cut x <= now - initialPollSkewWindow)%Z
  | OpCleanup now p => forall gw, sb_registry s !! g = Some gw -> gw_lastPolled gw <> 0%Z -> (now - p <= gw_lastPolled gw + 1)%Z
  | OpCleanupRange g' before => g' = g -> forall gw, sb_registry s !! g = Some gw -> gw_lastPolled gw <> 0%Z -> (before <= gw_lastPolled gw + 1)%Z
  | OpClose => False
  | _ => True
  end.

Definition startAll (B : Z) (cs : list nat) (m : gmap nat Z) : gmap nat Z := foldr (fun c m => <[c := B]> m) m cs.

(** A poll that delivers the first events of a gateway. *)
Definition noteFirst (now : Z) (s s' : SQLBackend) (x : Ghost) : Ghost :=
  match sb_registry s !! g, sb_registry s' !! g with
  | Some gw, Some gw' =>
      if decide (gw_lastPolled gw = 0%Z /\ gw_lastPolled gw' <> 0%Z)
      then mkGhost (gh_hist x) (gh_cut x) (startAll (now - initialPollSkewWindow - 1) (gw_subscribers gw) (gh_start x)) else x
  | _, _ => x
  end.

Definition noteSubscriber (c : nat) (s : SQLBackend) (x : Ghost) : Ghost :=
  match sb_registry s !! g with
  | Some gw => mkGhost (gh_hist x) (gh_cut x)
                 (if decide (gw_lastPolled gw = 0%Z) then delete c (gh_start x) else <[c := gw_lastPolled gw]> (gh_start x))
  | None => x
  end.

Definition noteCut (fault : Stmt -> option string) (t : Z) (x : Ghost) : Ghost :=
  match fault StCleanup with Some _ => x | None => mkGhost (gh_hist x) (Z.max (gh_cut x) t) (gh_start x) end.

Definition note (fault : Stmt -> option string) (op : Op) (s s' : SQLBackend) (x : Ghost) : Ghost :=
  match op with
  | OpPublish _ _ _ _ _ =>
      mkGhost (gh_hist x ++ filter (fun e => ev_GatewayID e = g) (drop (length (tb_events (sb_tables s))) (tb_events (sb_tables s')))) (gh_cut x) (gh_start x)
  | OpSubscribe g' => if decide (g' = g) then noteSubscriber (fresh (dom (sb_channels s))) s x else x
  | OpPoll now _ => noteFirst now s s' x
  | OpCleanup now p => noteCut fault (now - p) x
  | OpCleanupRange g' before => if decide (g' = g) then noteCut fault before x else x
  | _ => x
  end.

(** Runs, from tables that were filled before.  A poll of the gateway may
    also act on a version read earlier; polls follow each other, so that it
    is not older than the known one. *)
Definition notOlder (v : string) (s : SQLBackend) : Prop :=
  forall gw, sb_registry s !! g = Some gw -> tb_states (sb_tables s) !! g = Some (gw_knownVersion gw) -> v = gw_knownVersion gw.

Inductive run `{MapRange} : SQLBackend -> Ghost -> Prop :=
| run_init t : increasing (rowsOf t) -> Forall (fun e => (unixNanosThreshold <= ts e)%Z) (rowsOf t) ->
    (rowsOf t <> [] -> exists v, tb_states t !! g = Some v /\ v <> "") ->
    run (mkSQLBackend t ∅ ∅) (mkGhost (rowsOf t) 0 ∅)
| run_op fault op s s' x : run s x -> admissible op s x -> performs (perform fault op) s s' -> run s' (note fault op s s' x)
| run_stale fault now n v s s' x : run s x -> admissible (OpPoll now n) s x -> notOlder v s -> performs (pollGatewayWithState fault now g v) s s' ->
    run s' (noteFirst now s s' x).

(** *** The invariant *)

Definition received (ch : channel) : list Event := (ch_taken ch ++ ch_buffer ch)%list.

(** What a subscriber got when the cursor is at [P]. *)
Definition gets (hist : list Event) (start : option Z) (P : Z) (got : list Event) : Prop :=
  match start with
  | Some L => (L <= P)%Z /\ P <> 0%Z /\ got = between L P hist
  | None => P = 0%Z /\ got = []
  end.

Record cursorOk (s : SQLBackend) (x : Ghost) (gw : gateway) : Prop := {
  co_gets c : c ∈ gw_subscribers gw -> exists ch, sb_channels s !! c = Some ch /\ gets (gh_hist x) (gh_start x !! c) (gw_lastPolled gw) (received ch);
  co_polled : gw_lastPolled gw = 0%Z \/ ((unixNanosThreshold <= gw_lastPolled gw)%Z /\ (gh_cut x <= gw_lastPolled gw + 1)%Z /\
                exists e, e ∈ gh_hist x /\ ts e = gw_lastPolled gw);
  co_known : gw_lastPolled gw <> 0%Z -> tb_states (sb_tables s) !! g = Some (gw_knownVersion gw) -> after (gw_lastPolled gw) (gh_hist x) = []
}.

Record inv (s : SQLBackend) (x : Ghost) : Prop := {
  in_wf : wellFormed s;
  in_increasing : increasing (gh_hist x);
  in_recent : Forall (fun e => (unixNanosThreshold <= ts e)%Z) (gh_hist x);
  in_rows : rowsOf (sb_tables s) = filter (fun e => (gh_cut x <= ts e)%Z) (gh_hist x);
  in_version : gh_hist x <> [] -> exists v, tb_states (sb_tables s) !! g = Some v /\ v <> "";
  in_cursor gw : sb_registry s !! g = Some gw -> cursorOk s x gw
}.

(** Steps that do not touch the gateway, register it or take subscribers from
    it. *)
Lemma inv_frame s s' x : inv s x -> wellFormed s' -> rowsOf (sb_tables s') = rowsOf (sb_tables s) ->
  tb_states (sb_tables s') !! g = tb_states (sb_tables s) !! g \/ tb_states (sb_tables s) !! g = None ->
  (forall gw', sb_registry s' !! g = Some gw' -> (gw_lastPolled gw' = 0%Z /\ gw_subscribers gw' = []) \/
     exists gw, sb_registry s !! g = Some gw /\ gw_lastPolled gw' = gw_lastPolled gw /\
       (gw_knownVersion gw' = gw_knownVersion gw \/ gw_knownVersion gw' = "") /\
       forall c, c ∈ gw_subscribers gw' -> c ∈ gw_subscribers gw /\ received <$> sb_channels s' !! c = received <$> sb_channels s !! c) ->
  inv s' x.
Proof.
  intros [Hwf Hi Hrec Hrows Hver Hcur] Hwf' Hrows' Hstates Hreg.
  assert (Hst : gh_hist x <> [] -> tb_states (sb_tables s') !! g = tb_states (sb_tables s) !! g).
  { intros Hh. destruct Hstates as [|Hn]; [done|]. destruct (Hver Hh) as (v & ? & _). congruence. }
  split; [done..|congruence|intros Hh; by rewrite (Hst Hh); auto|].
  intros gw' Hgw'. destruct (Hreg _ Hgw') as [[HP Hs]|(gw & Hgw & HP & Hk & Hsub)].
  { split; [rewrite Hs; by intros ? ?%not_elem_of_nil|by left|done]. }
  destruct (Hcur _ Hgw) as [Hgets Hpol Hknown]. split; rewrite HP; [|done|].
  - intros c Hc. destruct (Hsub _ Hc) as [Hc0 Hch]. destruct (Hgets _ Hc0) as (ch & Hch0 & Hg). rewrite Hch0 in Hch. cbn in Hch.
    apply fmap_Some in Hch as (ch' & Hch' & Hrcv). exists ch'. by rewrite <- Hrcv.
  - intros Hne Hv. destruct (decide (gh_hist x = [])) as [Hh|Hh]; [by rewrite Hh|]. rewrite (Hst Hh) in Hv. destruct (Hver Hh) as (v & Hv' & ?).
    destruct Hk as [Hk|Hk]; rewrite Hk in Hv; [auto|congruence].
Qed.

Lemma performs_wf fault op s s' `{MapRange} : wellFormed s -> performs (perform fault op) s s' -> wellFormed s'.
Proof. intros Hwf. pose proof (perform_safe fault op s Hwf) as Hs. unfold safe, wp in Hs. intros [Hp|(e & Hp)]; by rewrite Hp in Hs. Qed.

Lemma register_inv `{MapRange} fault g' s s' x : inv s x -> performs (perform fault (OpRegister g')) s s' -> inv s' x.
Proof.
  intros Hinv Hp. pose proof (performs_wf _ _ _ _ (in_wf _ _ Hinv) Hp) as Hwf'. cbn in Hp. unfold performs, RegisterGateway, registry_register in Hp.
  set (k := TrimSpace g') in Hp.
  assert (Hs : exists t r, s' = mkSQLBackend t r (sb_channels s) /\ rowsOf t = rowsOf (sb_tables s) /\
    (tb_states t !! g = tb_states (sb_tables s) !! g \/ tb_states (sb_tables s) !! g = None) /\
    (r = sb_registry s \/ r = <[k := mkGateway k [] "" 0]> (sb_registry s) /\ sb_registry s !! k = None)).
  { destruct s as [t r chs]. cbn in *. destruct (String.eqb k ""); [destruct Hp as [?|[? ?]]; [done|]; simplify_eq; eauto 10|].
    assert (Hins : forall v, tb_states t !! k = None -> <[k := v]> (tb_states t) !! g = tb_states t !! g \/ tb_states t !! g = None).
    { intros v Hn. destruct (decide (k = g)) as [->|Hne]; [by right|left; by rewrite lookup_insert_ne]. }
    destruct (fault StInsertGateway), (fault StGatewayState), (tb_states t !! k) eqn:Ht; destruct (r !! k) eqn:Hr; cbn in Hp;
      destruct Hp as [?|[? ?]]; simplify_eq; cbn; eexists _, _; split_and!; try done; cbn; eauto. }
  destruct Hs as (t & r & -> & Hrows & Hst & Hr). eapply inv_frame; [done..|]. cbn. intros gw' Hgw'. destruct Hr as [-> |[-> Hn]].
  - right. exists gw'. split_and!; eauto.
  - apply lookup_insert_Some in Hgw' as [(? & <-)|(? & Hgw')]; [by left|]. right. exists gw'. split_and!; eauto.
Qed.

Lemma received_shut cs chs c : received <$> mapOn shut cs chs !! c = received <$> chs !! c.
Proof. rewrite lookup_mapOn. destruct (chs !! c) as [ch|]; [|done]. cbn. by case_decide. Qed.

(** Some subscribers of a gateway are closed. *)
Lemma release_inv s x k gw gw' cs : inv s x -> sb_registry s !! k = Some gw -> gw_id gw' = k -> gw_lastPolled gw' = gw_lastPolled gw ->
  (gw_knownVersion gw' = gw_knownVersion gw \/ gw_knownVersion gw' = "") -> gw_subscribers gw ≡ₚ (cs ++ gw_subscribers gw')%list ->
  inv (mkSQLBackend (sb_tables s) (<[k := gw']> (sb_registry s)) (mapOn shut cs (sb_channels s))) x.
Proof.
  intros Hinv Hgw Hid HP Hk Hperm. eapply inv_frame; [done| |by cbn; auto..|].
  - eapply wf_release; [apply Hinv|done..].
  - cbn. intros gw2 [(<- & <-)|(? & Hgw2)]%lookup_insert_Some; right; [exists gw|exists gw2]; split_and!; eauto.
    + intros c Hc. split; [rewrite Hperm; set_solver|apply received_shut].
    + intros c Hc. split; [done|apply received_shut].
Qed.

Lemma unsubscribe_inv g' c s s' x : inv s x -> performs (Unsubscribe g' c) s s' -> inv s' x.
Proof.
  intros Hinv. unfold performs, Unsubscribe, removeSubscriber. destruct (sb_registry s !! g') as [gw|] eqn:Hgw; [|by intros [?|[e ?]]; simplify_eq].
  destruct (list_find _ _) as [[i d]|] eqn:Hf; [|by intros [?|[e ?]]; simplify_eq]. apply list_find_Some in Hf as (Hi & <- & _).
  pose proof (swapRemove_perm _ _ _ Hi) as Hperm.
  destruct (release_usable _ _ _ _ [c] (swapRemove i (gw_subscribers gw)) (in_wf _ _ Hinv) Hgw Hperm) as [_ Hu].
  rewrite closeChannel_spec by by apply Forall_singleton. intros [?|[e ?]]; simplify_eq. eapply (release_inv s x g' gw); try done; cbn.
  - by eapply (wf_id _ _ (in_wf _ _ Hinv)).
  - case_decide; auto.
Qed.

Lemma unsubscribeAll_inv g' s s' x : inv s x -> performs (UnsubscribeAll g') s s' -> inv s' x.
Proof.
  intros Hinv. unfold performs, UnsubscribeAll, removeAllSubscribers. destruct (sb_registry s !! g') as [gw|] eqn:Hgw; [|by intros [?|[e ?]]; simplify_eq].
  destruct (release_usable _ _ _ _ (gw_subscribers gw) [] (in_wf _ _ Hinv) Hgw) as [Hnd Hu]; [by rewrite app_nil_r|].
  rewrite closeAll_spec by done. intros [?|[e ?]]; simplify_eq. eapply (release_inv s x g' gw); try done; cbn; [|by right|by rewrite app_nil_r].
  by eapply (wf_id _ _ (in_wf _ _ Hinv)).
Qed.

Lemma receive_inv c s x : inv s x -> inv (receive c s) x.
Proof.
  intros Hinv. eapply inv_frame; [done|apply receive_wf, Hinv|by cbn; auto..|]. cbn. intros gw Hgw. right. exists gw. split_and!; [done..|by left|].
  intros d Hd. split; [done|]. destruct (decide (c = d)) as [->|Hne]; [rewrite lookup_alter_eq|by rewrite lookup_alter_ne].
  destruct (sb_channels s !! d) as [ch|]; [|done]. cbn. unfold received. cbn. by rewrite app_nil_r.
Qed.

(** A new subscriber starts at the cursor. *)
Lemma subscribe_inv g' s s' x `{MapRange} fault : inv s x -> performs (perform fault (OpSubscribe g')) s s' -> inv s' (note fault (OpSubscribe g') s s' x).
Proof.
  intros Hinv Hp. pose proof (performs_wf _ _ _ _ (in_wf _ _ Hinv) Hp) as Hwf'. cbn [note].
  unfold performs in Hp. cbn in Hp. unfold mbind, GoM_bind, mret, GoM_ret, Subscribe, makeChannel, addSubscriber in Hp. cbn in Hp.
  pose proof (is_fresh (dom (sb_channels s))) as Hc. set (c := fresh _) in *. apply not_elem_of_dom in Hc.
  assert (Hold : forall k gw d, sb_registry s !! k = Some gw -> d ∈ gw_subscribers gw -> d <> c).
  { intros k gw d Hk Hd ->. pose proof (wf_usable _ _ (in_wf _ _ Hinv) _ _ Hk) as Hu. rewrite Forall_forall in Hu. destruct (Hu _ Hd) as (ch & ? & _). congruence. }
  destruct (sb_registry s !! g') as [gw|] eqn:Hgw.
  2: { rewrite closeChannel_spec in Hp by (eexists; cbn; rewrite lookup_insert_eq; split_and!; [done..|]; cbn; lia). cbn in Hp.
       destruct Hp as [?|[e ?]]; simplify_eq.
       assert (Hi : inv (mkSQLBackend (sb_tables s) (sb_registry s) (mapOn shut [c] (<[c := mkChannel [] [] false]> (sb_channels s)))) x).
       { eapply inv_frame; [done|done|by auto..|]. cbn. intros gw Hgw'. right. exists gw. split_and!; auto. intros d Hd. split; [done|].
         rewrite received_shut, lookup_insert_ne; [done|]. intros ->. by eapply Hold. }
       case_decide; [|done]. subst. unfold noteSubscriber. by rewrite Hgw. }
  destruct Hp as [?|[e ?]]; simplify_eq. case_decide as Hg.
  - subst g'. unfold noteSubscriber. rewrite Hgw. destruct Hinv as [Hwf Hi Hrec Hrows Hver Hcur]. destruct (Hcur _ Hgw) as [Hgets Hpol Hknown].
    split; [done..|]. cbn. intros gw' Hgw'. rewrite lookup_insert_eq in Hgw'. simplify_eq. split; cbn; [|done|done].
    intros d [Hd|Hd]%elem_of_app.
    + pose proof (Hold _ _ _ Hgw Hd) as Hne. destruct (Hgets _ Hd) as (ch & Hch & Hg). exists ch. rewrite lookup_insert_ne by done. split; [done|].
      case_decide; [by rewrite lookup_delete_ne|by rewrite lookup_insert_ne].
    + apply list_elem_of_singleton in Hd as ->. eexists. rewrite lookup_insert_eq. split; [done|].
      case_decide; [by rewrite lookup_delete_eq|rewrite lookup_insert_eq]. unfold gets. split_and!; [lia|done|]. by rewrite between_empty.
  - eapply inv_frame; [done|done|by auto..|]. cbn. intros gw2. rewrite lookup_insert_ne by done. intros Hgw2. right. exists gw2.
    split_and!; auto. intros d Hd. split; [done|]. rewrite lookup_insert_ne; [done|]. intros ->. by eapply Hold.
Qed.

(** Publishing commits a row with a new version, or changes nothing. *)
Lemma Publish_cases fault now v i g' ev s s' : performs (Publish fault now v i g' ev) s s' -> s' = s \/
  s' = set_tables (mkTables (tb_events (sb_tables s) ++ [rowOf now i g' ev]) (<[g' := v]> (ensureGateway g' (tb_states (sb_tables s))))) s.
Proof.
  unfold performs, Publish, mbind, GoM_bind, exec. destruct (fault StBegin); [intros [?|[? ?]]; simplify_eq; by left|].
  destruct (fault StEnsureGateway); [intros [?|[? ?]]; simplify_eq; by left|]. set (row := rowOf now i g' ev).
  assert (Hf : forall e, failedInsert fault row e s = Ok s' tt \/ (exists e', failedInsert fault row e s = Err s' e') -> s' = s).
  { intros e. unfold failedInsert, mbind, GoM_bind, exec. destruct (fault StRollback), (fault StEventByID), (hasEvent (ev_GatewayID row) (ev_EventID row) (sb_tables s)); intros [?|[? ?]]; by simplify_eq. }
  unfold insertEvent. destruct (fault StInsertEvent); [intros Hp; left; by eapply Hf|]. destruct (insertViolates _ _); [intros Hp; left; by eapply Hf|].
  unfold mbind, GoM_bind, exec. destruct (fault StUpdateVersion), (fault StCommit); unfold commitEvent; intros [?|[? ?]]; simplify_eq; auto.
Qed.

Lemma gets_app hist row start P got : (P <> 0 -> P < ts row)%Z -> gets hist start P got -> gets (hist ++ [row]) start P got.
Proof.
  intros HP. destruct start as [L|]; [|done]. intros (HL & H0 & ->). split_and!; [done..|]. unfold between, upto, after.
  rewrite !filter_app. rewrite (filter_False (fun e => ts e <= P)%Z (filter _ [row])), app_nil_r; [done|].
  intros e [_ ->%list_elem_of_singleton]%list_elem_of_filter. specialize (HP H0). lia.
Qed.

Lemma commit_inv now v row s x : inv s x -> ev_GatewayID row = g -> ts row = now -> admissible (OpPublish now v "" g row) s x ->
  inv (set_tables (mkTables (tb_events (sb_tables s) ++ [row]) (<[g := v]> (ensureGateway g (tb_states (sb_tables s))))) s)
      (mkGhost (gh_hist x ++ [row]) (gh_cut x) (gh_start x)).
Proof.
  intros [Hwf Hi Hrec Hrows Hver Hcur] Hg Hts (Hnow & Hrecent & Hcut & Hv & Hfresh); [done|]. split; cbn.
  - done.
  - apply (StronglySorted_app_2 (fun a b => (ts a < ts b)%Z)); [|done|by repeat constructor]. intros a b Ha ->%list_elem_of_singleton. specialize (Hnow a Ha). lia.
  - apply Forall_app. split; [done|]. apply Forall_singleton. lia.
  - unfold rowsOf in *. cbn. rewrite !filter_app, Hrows. f_equal. rewrite !filter_True; [done|..]; intros e ->%list_elem_of_singleton; [lia|done].
  - intros _. exists v. by rewrite lookup_insert_eq.
  - intros gw Hgw. destruct (Hcur _ Hgw) as [Hgets Hpol Hknown]. split; cbn.
    + intros c Hc. destruct (Hgets _ Hc) as (ch & Hch & Hgot). exists ch. split; [done|]. apply gets_app; [|done].
      intros HP. destruct Hpol as [?|(_ & _ & e & He & <-)]; [done|]. specialize (Hnow e He). lia.
    + destruct Hpol as [?|(? & ? & e & ? & ?)]; [by left|]. right. split_and!; [done..|]. exists e. set_solver.
    + intros _. rewrite lookup_insert_eq. intros [= Hv']. by destruct (Hfresh _ Hgw).
Qed.

Lemma publish_inv `{MapRange} fault now v i g' ev s s' x : inv s x -> admissible (OpPublish now v i g' ev) s x ->
  performs (perform fault (OpPublish now v i g' ev)) s s' -> inv s' (note fault (OpPublish now v i g' ev) s s' x).
Proof.
  intros Hinv Ha [-> | ->]%Publish_cases; cbn [note].
  { rewrite drop_all, app_nil_r. by destruct x. }
  cbn. rewrite drop_app_length, filter_cons. cbn. case_decide as Hg.
  - subst g'. by apply (commit_inv now).
  - rewrite app_nil_r. assert (inv (set_tables (mkTables (tb_events (sb_tables s) ++ [rowOf now i g' ev]) (<[g' := v]> (ensureGateway g' (tb_states (sb_tables s))))) s) x); [|by destruct x].
    eapply inv_frame; [done|apply Hinv|..].
    + unfold rowsOf. cbn. rewrite filter_app, filter_cons_False by done. by rewrite app_nil_r.
    + left. cbn. rewrite lookup_insert_ne by done. unfold ensureGateway. destruct (_ !! g'); [done|]. by rewrite lookup_insert_ne.
    + cbn. intros gw Hgw. right. exists gw. split_and!; auto.
Qed.

(** A clean-up takes rows that were delivered. *)
Lemma cleanup_inv (P : Event -> Prop) `{!forall e, Decision (P e)} t s x : inv s x ->
  (forall e, ev_GatewayID e = g -> P e <-> (ts e < t)%Z) ->
  (forall gw, sb_registry s !! g = Some gw -> gw_lastPolled gw <> 0%Z -> (t <= gw_lastPolled gw + 1)%Z) ->
  inv (set_tables (mkTables (filter (fun e => ¬ P e) (tb_events (sb_tables s))) (tb_states (sb_tables s))) s) (mkGhost (gh_hist x) (Z.max (gh_cut x) t) (gh_start x)).
Proof.
  intros [Hwf Hi Hrec Hrows Hver Hcur] HP Ht. split; cbn; [done..| |done|].
  - trans (filter (fun e => ¬ (ts e < t)%Z) (rowsOf (sb_tables s))).
    + unfold rowsOf. cbn. rewrite !list_filter_filter. apply list_filter_iff. intros e. pose proof (HP e). tauto.
    + rewrite Hrows, list_filter_filter. apply list_filter_iff. lia.
  - intros gw Hgw. destruct (Hcur _ Hgw) as [Hgets Hpol Hknown]. split; cbn; [done| |done].
    destruct (decide (gw_lastPolled gw = 0%Z)) as [Hz|Hz]; [by left|]. destruct Hpol as [?|(? & ? & ?)]; [done|]. right. specialize (Ht _ Hgw Hz). split_and!; [done|lia|done].
Qed.

(** *** Polls *)

Lemma lookup_startAll B cs m c : startAll B cs m !! c = if decide (c ∈ cs) then Some B else m !! c.
Proof.
  unfold startAll. induction cs as [|d cs IH]; cbn; [by rewrite decide_False by set_solver|].
  destruct (decide (d = c)) as [->|Hne]; [by rewrite lookup_insert_eq, decide_True by set_solver|]. rewrite lookup_insert_ne, IH by done.
  apply decide_ext. set_solver.
Qed.

(** A poll of a gateway either does nothing, or delivers some of its new
    events and moves the cursor. *)
Lemma poll_cases fault now g' v s s' : wellFormed s -> performs (pollGatewayWithState fault now g' v) s s' ->
  s' = s /\ (fault (StEvents g') = None -> forall gw, sb_registry s !! g' = Some gw -> gw_subscribers gw = [] \/ v = gw_knownVersion gw \/ v = "") \/
  exists gw r k, sb_registry s !! g' = Some gw /\ v <> gw_knownVersion gw /\
    delivered (gw_subscribers gw) (newEvents now gw (sb_tables s)) None s (mkSQLBackend (sb_tables s) (sb_registry s) (sb_channels s')) r k /\
    sb_tables s' = sb_tables s /\ sb_registry s' = <[g' := advance v (pollFrom now gw) r.1 r.2 gw]> (sb_registry s).
Proof.
  intros Hwf. unfold performs, pollGatewayWithState. destruct (sb_registry s !! g') as [gw|] eqn:Hgw; [|intros [?|[? ?]]; simplify_eq; by left].
  case_decide as Hs; [intros [?|[? ?]]; simplify_eq; left; split; [done|]; intros _ ? [= <-]; left; by apply nil_length_inv|].
  destruct (_ || _) eqn:Hv.
  { apply orb_true_iff in Hv as Hv'. rewrite !String.eqb_eq in Hv'. intros [?|[? ?]]; simplify_eq. left. split; [done|]. intros _ ? [= <-]. by right. }
  apply orb_false_iff in Hv as [Hv%String.eqb_neq _]. unfold mbind, GoM_bind, exec. destruct (fault (StEvents g')); [intros [?|[? ?]]; simplify_eq; by left|].
  destruct (deliver_spec (gw_subscribers gw) (newEvents now gw (sb_tables s)) None s) as (s1 & r & k & -> & Hd);
    [by eapply (wf_nodup _ _ Hwf)|by eapply (wf_usable _ _ Hwf)|].
  unfold setCursor. intros [?|[? ?]]; simplify_eq. right. exists gw, r, k. pose proof (dl_state _ _ _ _ _ _ _ Hd) as Hst. rewrite Hst in *. cbn in *.
  split_and!; [done..|by destruct s|done|by apply alter_Some].
Qed.

(** Before the first delivery the buffers are empty. *)
Lemma fresh_delivers s x gw events r k s' : inv s x -> sb_registry s !! g = Some gw -> gw_lastPolled gw = 0%Z ->
  delivered (gw_subscribers gw) events None s s' r k -> k = 0%nat -> events = [].
Proof.
  intros Hinv Hgw H0 [Hk Hst _ _ Hf _] ->. destruct events as [|e events]; [done|]. destruct Hf as (c & ch & Hc & Hch & Hl); [cbn; lia|].
  destruct (co_gets _ _ _ (in_cursor _ _ Hinv _ Hgw) c Hc) as (ch0 & Hch0 & Hg). rewrite Hst in Hch. cbn in Hch.
  rewrite mapOn_push_nil, Hch0 in Hch. simplify_eq. rewrite H0 in Hg. unfold gets, received in Hg. destruct (gh_start x !! c); [by destruct Hg as (? & ? & _)|].
  destruct Hg as [_ [_ Hb]%app_eq_nil]. rewrite Hb in Hl. done.
Qed.

(** Where the cursor is after a poll. *)
Lemma advance_cursor now v s x gw r k s' : inv s x -> sb_registry s !! g = Some gw ->
  delivered (gw_subscribers gw) (newEvents now gw (sb_tables s)) None s s' r k ->
  gw_lastPolled (advance v (pollFrom now gw) r.1 r.2 gw) =
    match last (take k (newEvents now gw (sb_tables s))) with Some e => ts e | None => gw_lastPolled gw end.
Proof.
  intros Hinv Hgw Hd.  destruct (in_cursor _ _ Hinv _ Hgw) as [_ Hpol _].
  pose proof (dl_latest _ _ _ _ _ _ _ Hd) as Hl. pose proof (dl_blocked _ _ _ _ _ _ _ Hd) as Hb. unfold advance. rewrite Hl.
  destruct (last (take k _)) as [e|] eqn:Hlast; [by destruct r.2|]. destruct r.2 eqn:Hr; [|done]. cbn. symmetry in Hb. apply bool_decide_eq_true in Hb.
  assert (k = 0%nat) as Hk. { apply last_None in Hlast. destruct (take_nil_inv _ _ Hlast) as [?|Hn]; [done|]. rewrite Hn in Hb. cbn in Hb. lia. }
  unfold pollFrom, resuming. destruct Hpol as [H0|(Ht & _)].
  - rewrite (fresh_delivers _ _ _ _ _ _ _ Hinv Hgw H0 Hd Hk) in Hb. cbn in Hb. lia.
  - rewrite (proj2 (Z.ltb_lt _ _)) by (unfold unixNanosThreshold in Ht; lia). unfold unixTimestampToTime. by rewrite (proj2 (Z.leb_le _ _) Ht).
Qed.

Lemma advance_known v t l b gw : gw_knownVersion (advance v t l b gw) = if b then gw_knownVersion gw else v.
Proof. by destruct b. Qed.

Lemma received_push evs ch : received (push evs ch) = (received ch ++ evs)%list.
Proof. unfold received, push. cbn. by rewrite app_assoc. Qed.

(** The subscribers before a poll, seen from where it starts. *)
Lemma gets_base now s x gw c : inv s x -> sb_registry s !! g = Some gw -> c ∈ gw_subscribers gw ->
  exists ch L, sb_channels s !! c = Some ch /\ (L <= base now gw)%Z /\ received ch = between L (base now gw) (gh_hist x) /\
    (if decide (gw_lastPolled gw = 0%Z) then L = base now gw else gh_start x !! c = Some L).
Proof.
  intros Hinv Hgw Hc. destruct (co_gets _ _ _ (in_cursor _ _ Hinv _ Hgw) _ Hc) as (ch & Hch & Hg). exists ch. unfold gets in Hg. unfold base.
  destruct (gh_start x !! c) as [L|]; destruct Hg as [HL Hg].
  - destruct Hg as [H0 Hg]. exists L. by rewrite !decide_False by done.
  - exists (now - initialPollSkewWindow - 1)%Z. rewrite !decide_True by done. by rewrite between_empty.
Qed.

Lemma newEvents_pending now s x gw : inv s x -> sb_registry s !! g = Some gw -> admissible (OpPoll now 0) s x ->
  newEvents now gw (sb_tables s) = after (base now gw) (gh_hist x) /\ (gh_cut x <= base now gw + 1)%Z.
Proof.
  intros Hinv Hgw Ha. destruct (in_cursor _ _ Hinv _ Hgw) as [_ Hpol _].
  assert (Hcut : (gh_cut x <= base now gw + 1)%Z).
  { unfold base. case_decide as H0; [specialize (Ha _ Hgw H0); lia|]. by destruct Hpol as [?|(_ & ? & _)]. }
  split; [|done]. eapply newEvents_after; [apply Hinv|by eapply (wf_id _ _ (in_wf _ _ Hinv))|apply Hinv|done|]. destruct Hpol as [?|(? & _)]; auto.
Qed.

(** A poll that delivers events. *)
Lemma delivery_inv now v s s' x gw r k e : inv s x -> sb_registry s !! g = Some gw -> admissible (OpPoll now 0) s x -> notOlder v s ->
  v <> gw_knownVersion gw -> wellFormed s' ->
  delivered (gw_subscribers gw) (newEvents now gw (sb_tables s)) None s (mkSQLBackend (sb_tables s) (sb_registry s) (sb_channels s')) r k ->
  sb_tables s' = sb_tables s -> sb_registry s' = <[g := advance v (pollFrom now gw) r.1 r.2 gw]> (sb_registry s) ->
  last (take k (newEvents now gw (sb_tables s))) = Some e -> inv s' (noteFirst now s s' x).
Proof.
  intros Hinv Hgw Ha Hold Hv Hwf' Hd Ht Hr Hlast. destruct (newEvents_pending now _ _ _ Hinv Hgw Ha) as [Hnew Hcut].
  pose proof (advance_cursor now v _ _ _ _ _ _ Hinv Hgw Hd) as HP. pose proof Hlast as Hlast'. rewrite Hnew in Hlast'. rewrite Hlast in HP.
  assert (He : e ∈ after (base now gw) (gh_hist x)) by (apply last_Some in Hlast' as [p Hp]; apply (subseteq_take k); rewrite Hp; set_solver).
  apply list_elem_of_filter in He as [HBe He]. pose proof (in_recent _ _ Hinv) as Hrec. rewrite Forall_forall in Hrec. specialize (Hrec e He). cbn in Hrec.
  assert (Hz : ts e <> 0%Z) by (unfold unixNanosThreshold in Hrec; lia). set (gw' := advance _ _ _ _ _) in *.
  assert (Hnote : gh_hist (noteFirst now s s' x) = gh_hist x /\ gh_cut (noteFirst now s s' x) = gh_cut x /\
    forall c L, c ∈ gw_subscribers gw -> (if decide (gw_lastPolled gw = 0%Z) then L = base now gw else gh_start x !! c = Some L) -> gh_start (noteFirst now s s' x) !! c = Some L).
  { unfold noteFirst. rewrite Hgw, Hr, lookup_insert_eq, HP. unfold base. destruct (decide (gw_lastPolled gw = 0%Z)) as [H0|H0].
    - rewrite decide_True by done. cbn. split_and!; [done..|]. intros c L Hc ->. by rewrite lookup_startAll, decide_True by done.
    - rewrite decide_False by by intros [? _]. done. }
  destruct Hnote as (Hh & Hc' & Hstart). pose proof Hinv as [Hwf Hi Hrecent Hrows Hver Hcur].
  split; rewrite ?Hh, ?Hc', ?Ht; [done..|]. rewrite Hr, lookup_insert_eq. intros ? [= <-]. split; rewrite ?HP, ?Hh, ?Hc', ?Ht.
  - intros c Hc. unfold gw' in Hc. rewrite advance_subscribers in Hc. destruct (gets_base now _ _ _ _ Hinv Hgw Hc) as (ch & L & Hch & HL & Hrcv & HLs).
    exists (push (take k (newEvents now gw (sb_tables s))) ch). split.
    + pose proof (dl_state _ _ _ _ _ _ _ Hd) as Hst. apply (f_equal sb_channels) in Hst. cbn in Hst. rewrite Hst, lookup_mapOn, Hch. cbn. by rewrite decide_True.
    + rewrite (Hstart _ _ Hc HLs). unfold gets. rewrite received_push, Hrcv, Hnew.
      destruct (deliver_moves L (base now gw) k (gh_hist x)) as (HB & Hbt & _); [done..|]. rewrite Hlast' in HB, Hbt. split_and!; [lia|done|done].
  - right. split_and!; [done|lia|eauto].
  - intros _ Hk. unfold gw' in Hk. rewrite advance_known in Hk. destruct r.2 eqn:Hb.
    + exfalso. apply Hv. by apply Hold.
    + destruct (deliver_moves (base now gw) (base now gw) k (gh_hist x)) as (_ & _ & Haf); [done..|]. rewrite Hlast' in Haf. rewrite Haf.
      apply drop_ge. pose proof (dl_blocked _ _ _ _ _ _ _ Hd) as Hbl. rewrite Hb in Hbl. symmetry in Hbl. apply bool_decide_eq_false in Hbl. rewrite Hnew in Hbl. lia.
Qed.

(** A poll that delivers nothing. *)
Lemma idle_inv now v s s' x gw r k : inv s x -> sb_registry s !! g = Some gw -> admissible (OpPoll now 0) s x -> notOlder v s ->
  v <> gw_knownVersion gw -> wellFormed s' ->
  delivered (gw_subscribers gw) (newEvents now gw (sb_tables s)) None s (mkSQLBackend (sb_tables s) (sb_registry s) (sb_channels s')) r k ->
  sb_tables s' = sb_tables s -> sb_registry s' = <[g := advance v (pollFrom now gw) r.1 r.2 gw]> (sb_registry s) ->
  last (take k (newEvents now gw (sb_tables s))) = None -> inv s' (noteFirst now s s' x).
Proof.
  intros Hinv Hgw Ha Hold Hv Hwf' Hd Ht Hr Hlast. destruct (newEvents_pending now _ _ _ Hinv Hgw Ha) as [Hnew Hcut].
  pose proof (advance_cursor now v _ _ _ _ _ _ Hinv Hgw Hd) as HP. rewrite Hlast in HP. set (gw' := advance _ _ _ _ _) in *.
  assert (Hnote : noteFirst now s s' x = x).
  { unfold noteFirst. rewrite Hgw, Hr, lookup_insert_eq, HP. rewrite decide_False; [done|]. by intros [? ?]. }
  assert (Hch : sb_channels s' = sb_channels s).
  { pose proof (dl_state _ _ _ _ _ _ _ Hd) as Hst. apply (f_equal sb_channels) in Hst. cbn in Hst. apply last_None in Hlast. rewrite Hst, Hlast. apply mapOn_push_nil. }
  pose proof Hinv as [Hwf Hi Hrecent Hrows Hver Hcur]. destruct (Hcur _ Hgw) as [Hgets Hpol Hknown].
  rewrite Hnote. split; rewrite ?Ht; [done..|]. rewrite Hr, lookup_insert_eq. intros ? [= <-]. split; rewrite ?HP, ?Ht, ?Hch; [|done|].
  - unfold gw'. rewrite advance_subscribers. done.
  - intros H0 Hk. unfold gw' in Hk. rewrite advance_known in Hk. destruct r.2 eqn:Hb; [exfalso; apply Hv; by apply Hold|].
    pose proof (dl_blocked _ _ _ _ _ _ _ Hd) as Hbl. rewrite Hb in Hbl. symmetry in Hbl. apply bool_decide_eq_false in Hbl.
    apply last_None in Hlast. assert (Hn : newEvents now gw (sb_tables s) = []) by (destruct (take_nil_inv _ _ Hlast) as [->|?]; [|done]; apply nil_length_inv; lia).
    rewrite Hnew in Hn. unfold base in Hn. by rewrite decide_False in Hn by done.
Qed.

Lemma poll_inv fault now v s s' x : inv s x -> admissible (OpPoll now 0) s x -> notOlder v s -> performs (pollGatewayWithState fault now g v) s s' ->
  inv s' (noteFirst now s s' x).
Proof.
  intros Hinv Ha Hold Hp. assert (Hwf' : wellFormed s').
  { pose proof (poll_spec fault now g v s (in_wf _ _ Hinv)) as Hs. unfold wp in Hs. by destruct Hp as [Hp|(e & Hp)]; rewrite Hp in Hs; destruct Hs. }
  apply poll_cases in Hp as [[-> _]|(gw & r & k & Hgw & Hv & Hd & Ht & Hr)]; [|destruct (last (take k (newEvents now gw (sb_tables s)))) as [e|] eqn:Hlast|apply Hinv].
  - unfold noteFirst. destruct (sb_registry s !! g); [|done]. rewrite decide_False; [done|]. by intros [? ?].
  - by eapply delivery_inv.
  - by eapply idle_inv.
Qed.

(** A poll of another gateway. *)
Lemma poll_other fault now g' v s s' x : inv s x -> g' <> g -> performs (pollGatewayWithState fault now g' v) s s' ->
  inv s' x /\ sb_registry s' !! g = sb_registry s !! g /\ sb_tables s' = sb_tables s /\
  forall gw c, sb_registry s !! g = Some gw -> c ∈ gw_subscribers gw -> sb_channels s' !! c = sb_channels s !! c.
Proof.
  intros Hinv Hne Hp. assert (Hwf' : wellFormed s').
  { pose proof (poll_spec fault now g' v s (in_wf _ _ Hinv)) as Hs. unfold wp in Hs. by destruct Hp as [Hp|(e & Hp)]; rewrite Hp in Hs; destruct Hs. }
  apply poll_cases in Hp as [[-> _]|(gw' & r & k & Hgw' & _ & Hd & Ht & Hr)]; [done| |apply Hinv].
  assert (Hch : forall gw c, sb_registry s !! g = Some gw -> c ∈ gw_subscribers gw -> sb_channels s' !! c = sb_channels s !! c).
  { intros gw c Hgw Hc. pose proof (dl_state _ _ _ _ _ _ _ Hd) as Hst. apply (f_equal sb_channels) in Hst. cbn in Hst. rewrite Hst, lookup_mapOn.
    destruct (sb_channels s !! c) as [ch|]; [|done]. cbn. rewrite decide_False; [done|]. intros Hc'.
    apply Hne. by eapply (wf_disjoint _ _ (in_wf _ _ Hinv)). }
  assert (Hreg : sb_registry s' !! g = sb_registry s !! g) by by rewrite Hr, lookup_insert_ne.
  split_and!; [|done..]. eapply inv_frame; [done|done|by rewrite Ht|by rewrite Ht; left|]. rewrite Hreg. intros gw Hgw. right. exists gw. split_and!; auto.
  intros c Hc. by rewrite (Hch gw).
Qed.

Lemma pollRow_performs fault now row s s' : pollRow fault now row s = Ok s' tt -> performs (pollGatewayWithState fault now row.1 row.2) s s'.
Proof. unfold pollRow, performs. destruct (pollGatewayWithState fault now row.1 row.2 s) as [? []| |]; intros [= <-]; eauto. Qed.

Lemma pollRows_other fault now rows : forall s s' x, inv s x -> g ∉ rows.*1 -> pollRows fault now rows s = Ok s' tt ->
  inv s' x /\ sb_registry s' !! g = sb_registry s !! g /\ sb_tables s' = sb_tables s /\
  forall gw c, sb_registry s !! g = Some gw -> c ∈ gw_subscribers gw -> sb_channels s' !! c = sb_channels s !! c.
Proof.
  induction rows as [|row rows IH]; intros s s' x Hinv Hg; cbn [pollRows]; [intros [= <-]; done|].
  cbn in Hg. apply not_elem_of_cons in Hg as [Hne Hg]. intros (s1 & [] & Hp%pollRow_performs & Hps)%bind_Ok_inv.
  destruct (poll_other _ _ _ _ _ _ _ Hinv (not_eq_sym Hne) Hp) as (Hinv1 & Hr1 & Ht1 & Hc1).
  destruct (IH _ _ _ Hinv1 Hg Hps) as (Hinv' & Hr' & Ht' & Hc'). split_and!; [done|congruence..|].
  intros gw c Hgw Hc. rewrite (Hc' gw c), (Hc1 gw c); congruence.
Qed.

(** A sequence of polls of different gateways, among them perhaps this one. *)
Lemma pollRows_split fault now rows s s' : NoDup rows.*1 -> pollRows fault now rows s = Ok s' tt ->
  g ∉ rows.*1 \/ exists rows1 v rows2 s1 s2, rows = (rows1 ++ (g, v) :: rows2)%list /\ g ∉ rows1.*1 /\ g ∉ rows2.*1 /\
    pollRows fault now rows1 s = Ok s1 tt /\ performs (pollGatewayWithState fault now g v) s1 s2 /\ pollRows fault now rows2 s2 = Ok s' tt.
Proof.
  intros Hnd Hp. destruct (decide (g ∈ rows.*1)) as [Hin|]; [right|by left]. apply list_elem_of_fmap in Hin as ([g' v] & Hg & Hin). cbn in Hg. subst g'.
  apply list_elem_of_split in Hin as (rows1 & rows2 & ->). exists rows1, v, rows2. rewrite fmap_app in Hnd. cbn in Hnd.
  apply NoDup_app in Hnd as (_ & Hd & Hnd2). apply NoDup_cons in Hnd2 as [Hn2 _].
  assert (Hsplit : forall l s0, pollRows fault now (l ++ (g, v) :: rows2) s0 = Ok s' tt -> exists s1, pollRows fault now l s0 = Ok s1 tt /\ pollRows fault now ((g, v) :: rows2) s1 = Ok s' tt).
  { induction l as [|row l IH]; intros s0; cbn [pollRows app]; [eauto|]. intros (s1 & [] & Hs1 & Hs)%bind_Ok_inv.
    destruct (IH _ Hs) as (s2 & ? & ?). exists s2. split; [|done]. by rewrite (bind_Ok _ _ _ _ _ Hs1). }
  destruct (Hsplit _ _ Hp) as (s1 & Hs1 & (s2 & [] & Hs2%pollRow_performs & Hs')%bind_Ok_inv). exists s1, s2. split_and!; auto. set_solver.
Qed.

Lemma statesInOrder_rows t v l : l ⊆+ statesInOrder t -> (g, v) ∈ l -> tb_states t !! g = Some v.
Proof.
  intros Hl Hin. apply (elem_of_submseteq _ _ _ Hin) in Hl. rewrite statesInOrder_perm in Hl. by apply elem_of_map_to_list.
Qed.

Lemma statesInOrder_NoDup t l : l ⊆+ statesInOrder t -> NoDup l.*1.
Proof.
  intros [rest Hl]%submseteq_Permutation. pose proof (NoDup_fst_map_to_list (tb_states t)) as Hnd.
  rewrite <- statesInOrder_perm, Hl, fmap_app in Hnd. by apply NoDup_app in Hnd as (? & _).
Qed.

Lemma pollGateways_inv fault now n s s' x : inv s x -> admissible (OpPoll now 0) s x -> performs (pollGateways fault now n) s s' -> inv s' (noteFirst now s s' x).
Proof.
  intros Hinv Ha Hp. destruct (pollGateways_spec fault now n s (in_wf _ _ Hinv)) as (k & Hk & _). set (rows := take k _) in Hk.
  assert (Hrows : rows ⊆+ statesInOrder (sb_tables s)) by (unfold rows; trans (filter (fun row : string * string => row.1 <> "") (statesInOrder (sb_tables s))); [apply submseteq_take|apply sublist_submseteq, sublist_filter]).
  destruct (pollRows_spec fault now rows s (in_wf _ _ Hinv)) as (s0 & Hs0 & _). unfold performs in Hp. rewrite Hk, Hs0 in Hp. destruct Hp as [[= ->]|[? ?]]; [|done].
  destruct (pollRows_split _ _ _ _ _ (statesInOrder_NoDup _ _ Hrows) Hs0) as [Hno|(rows1 & v & rows2 & s1 & s2 & Hr & Hn1 & Hn2 & Hp1 & Hp & Hp2)].
  - destruct (pollRows_other _ _ _ _ _ _ Hinv Hno Hs0) as (Hinv' & Hr & _). unfold noteFirst. rewrite Hr. destruct (sb_registry s !! g); [|done].
    rewrite decide_False; [done|]. by intros [? ?].
  - destruct (pollRows_other _ _ _ _ _ _ Hinv Hn1 Hp1) as (Hinv1 & Hr1 & Ht1 & _).
    assert (Hinv2 : inv s2 (noteFirst now s1 s2 x)).
    { eapply poll_inv; [done| | |done].
      - intros gw. rewrite Hr1. apply Ha.
      - intros gw Hgw. rewrite Ht1. rewrite (statesInOrder_rows _ v _ Hrows) by (rewrite Hr; set_solver). by intros [= ->]. }
    destruct (pollRows_other _ _ _ _ _ _ Hinv2 Hn2 Hp2) as (Hinv3 & Hr3 & _). unfold noteFirst in *. by rewrite Hr3, <- Hr1.
Qed.

(** *** Every run keeps it *)

Lemma run_inv `{MapRange} s x : run s x -> inv s x.
Proof.
  induction 1 as [t Hi Hrec Hver|fault op s s' x _ Hinv Ha Hp|fault now n v s s' x _ Hinv Ha Hold Hp].
  - split; cbn; [apply wf_empty|done|done| |done|by intros gw; rewrite lookup_empty].
    rewrite filter_True; [done|]. rewrite Forall_forall in Hrec. intros e He. specialize (Hrec e He). unfold unixNanosThreshold in Hrec. lia.
  - destruct op; [| | |cbn [note]..].
    + by apply (register_inv fault gatewayID s).
    + by apply publish_inv.
    + by eapply subscribe_inv.
    + by eapply unsubscribe_inv.
    + by eapply unsubscribeAll_inv.
    + by eapply pollGateways_inv.
    + destruct Hp as [[= <-]|[? ?]]; [|done]. by apply receive_inv.
    + cbn in Hp. unfold performs, Cleanup, mbind, GoM_bind, exec in Hp. unfold noteCut. destruct (fault StCleanup); [by destruct Hp as [?|[? ?]]; simplify_eq|].
      destruct Hp as [[= <-]|[? ?]]; [|done]. by apply cleanup_inv.
    + cbn in Hp. unfold performs, CleanupRange, mbind, GoM_bind, exec in Hp. unfold noteCut. destruct (fault StCleanup).
      { case_decide; by destruct Hp as [?|[? ?]]; simplify_eq. }
      destruct Hp as [[= <-]|[? ?]]; [|done]. case_decide as Hg; [apply cleanup_inv; [done|naive_solver|by apply Ha]|].
      eapply inv_frame; [done|apply Hinv| |by left|].
      * unfold rowsOf. cbn. apply list_filter_filter_l. naive_solver.
      * cbn. intros gw Hgw. right. exists gw. split_and!; auto.
    + done.
  - by eapply poll_inv.
Qed.

(** *** Progress *)

Definition subscribersOf (s : SQLBackend) : list nat := match sb_registry s !! g with Some gw => gw_subscribers gw | None => [] end.

(** All subscribers of the gateway read. *)
Definition readAll (s : SQLBackend) : SQLBackend := foldr receive s (subscribersOf s).

(** Rounds of reading and polling, and a last reading. *)
Fixpoint rounds (polls : list ((Stmt -> option string) * Z * nat)) : GoM SQLBackend unit :=
  match polls with
  | [] => modify readAll
  | (fault, now, n) :: polls' => modify readAll;; pollGateways fault now n;; rounds polls'
  end.

Lemma foldr_receive cs s x : inv s x -> let s' := foldr receive s cs in
  inv s' x /\ sb_registry s' = sb_registry s /\ sb_tables s' = sb_tables s /\
  forall c ch, sb_channels s !! c = Some ch -> sb_channels s' !! c = Some (if decide (c ∈ cs) then mkChannel [] (received ch) (ch_closed ch) else ch).
Proof.
  intros Hinv. induction cs as [|d cs IH]; cbn; [split_and!; [done..|]; intros c ch Hch; by rewrite decide_False by set_solver|].
  destruct IH as (Hi & Hr & Ht & Hc). split_and!; [by apply receive_inv|done..|]. intros c ch Hch. specialize (Hc _ _ Hch).
  destruct (decide (d = c)) as [->|Hne].
  - rewrite lookup_alter_eq, Hc. cbn. rewrite (decide_True (P := c ∈ c :: cs)) by set_solver. f_equal. unfold received. case_decide; cbn; by rewrite ?app_nil_r.
  - rewrite lookup_alter_ne, Hc by done. f_equal. apply decide_ext. set_solver.
Qed.

(** Effective polls deliver as much as the buffers hold. *)
Lemma delivered_count s x gw events r k s' c : inv s x -> sb_registry s !! g = Some gw -> c ∈ gw_subscribers gw ->
  (forall d, d ∈ gw_subscribers gw -> exists ch, sb_channels s !! d = Some ch /\ ch_buffer ch = []) ->
  delivered (gw_subscribers gw) events None s s' r k -> drop k events = drop channelCap events.
Proof.
  intros Hinv Hgw Hc Hempty [Hk Hst _ _ Hfull Hu].
  assert (Hlen : forall d ch, d ∈ gw_subscribers gw -> sb_channels s' !! d = Some ch -> length (ch_buffer ch) = k).
  { intros d ch Hd. rewrite Hst. cbn. rewrite lookup_mapOn. destruct (Hempty _ Hd) as (ch0 & -> & Hb). cbn. rewrite decide_True by done.
    intros [= <-]. cbn. rewrite Hb, length_app, length_take. cbn. lia. }
  assert (k <= channelCap)%nat. { rewrite Forall_forall in Hu. destruct (Hu _ Hc) as (ch & Hch & _ & Hl). rewrite (Hlen _ _ Hc Hch) in Hl. done. }
  destruct (decide (k = channelCap)) as [->|Hne]; [done|]. assert (k = length events) as ->.
  { destruct (decide (k < length events)) as [Hlt|]; [|lia]. destruct (Hfull Hlt) as (d & ch & Hd & Hch & Hl). rewrite (Hlen _ _ Hd Hch) in Hl. done. }
  rewrite !drop_ge by lia. done.
Qed.

Lemma poll_progress fault now v s s' x gw c : inv s x -> sb_registry s !! g = Some gw -> gw_lastPolled gw <> 0%Z -> c ∈ gw_subscribers gw ->
  (forall d, d ∈ gw_subscribers gw -> exists ch, sb_channels s !! d = Some ch /\ ch_buffer ch = []) ->
  tb_states (sb_tables s) !! g = Some v -> fault (StEvents g) = None -> performs (pollGatewayWithState fault now g v) s s' ->
  exists gw', sb_registry s' !! g = Some gw' /\ gw_subscribers gw' = gw_subscribers gw /\ gw_lastPolled gw' <> 0%Z /\
    after (gw_lastPolled gw') (gh_hist x) = drop channelCap (after (gw_lastPolled gw) (gh_hist x)).
Proof.
  intros Hinv Hgw H0 Hc Hempty Hv Hf Hp. pose proof Hinv as [Hwf Hi Hrec Hrows Hver Hcur]. destruct (Hcur _ Hgw) as [Hgets Hpol Hknown].
  apply poll_cases in Hp as [[-> Hidle]|(gw0 & r & k & Hgw0 & Hne & Hd & Ht & Hr)]; [| |done].
  - exists gw. split_and!; [done..|]. assert (Hn : after (gw_lastPolled gw) (gh_hist x) = []); [|by rewrite Hn].
    destruct (Hidle Hf _ Hgw) as [Hs|[Hk|Hk]]; [by rewrite Hs in Hc; apply not_elem_of_nil in Hc|by apply Hknown; [done|congruence]|].
    destruct (decide (gh_hist x = [])) as [Hh|Hh]; [by rewrite Hh|]. destruct (Hver Hh) as (? & ? & ?). congruence.
  - simplify_eq. rewrite Hr, lookup_insert_eq. eexists. split; [done|]. rewrite advance_subscribers. split; [done|].
    destruct (newEvents_pending now _ _ _ Hinv Hgw) as [Hnew _]; [by intros gw1 Hgw1; simplify_eq|].
    pose proof (advance_cursor now v _ _ _ _ _ _ Hinv Hgw Hd) as ->.
    pose proof (delivered_count _ _ _ _ _ _ _ _ Hinv Hgw Hc Hempty Hd) as Hcount. rewrite Hnew in *. unfold base in *. rewrite decide_False in * by done.
    destruct (deliver_moves (gw_lastPolled gw) (gw_lastPolled gw) k (gh_hist x)) as (HB & _ & Haf); [done..|]. rewrite Haf. split; [|done].
    destruct Hpol as [?|(Hth & _)]; [done|]. unfold unixNanosThreshold in Hth. lia.
Qed.

Lemma poll_round fault now n s s' x gw c : inv s x -> g <> "" -> sb_registry s !! g = Some gw -> gw_lastPolled gw <> 0%Z -> c ∈ gw_subscribers gw ->
  (forall d, d ∈ gw_subscribers gw -> exists ch, sb_channels s !! d = Some ch /\ ch_buffer ch = []) ->
  (forall cursor, fault (StStatesPage cursor) = None) -> fault (StEvents g) = None -> performs (pollGateways fault now n) s s' ->
  inv s' x /\ exists gw', sb_registry s' !! g = Some gw' /\ gw_subscribers gw' = gw_subscribers gw /\ gw_lastPolled gw' <> 0%Z /\
    after (gw_lastPolled gw') (gh_hist x) = drop channelCap (after (gw_lastPolled gw) (gh_hist x)).
Proof.
  intros Hinv Hg Hgw H0 Hc Hempty Hpages Hf Hp. assert (Ha : admissible (OpPoll now 0) s x) by (intros gw1 Hgw1; by simplify_eq).
  assert (Hnote : noteFirst now s s' x = x) by (unfold noteFirst; rewrite Hgw; destruct (sb_registry s' !! g); [|done]; rewrite decide_False; [done|by intros [? ?]]).
  split; [rewrite <- Hnote; by eapply pollGateways_inv|]. clear Hnote.
  destruct (pollGateways_spec fault now n s (in_wf _ _ Hinv)) as (k & Hk & Hall). rewrite take_ge in Hk by (apply Hall; [|done]; intros Hn; by rewrite Hn, lookup_empty in Hgw).
  set (rows := filter _ _) in Hk. assert (Hrows : rows ⊆+ statesInOrder (sb_tables s)) by apply sublist_submseteq, sublist_filter.
  destruct (pollRows_spec fault now rows s (in_wf _ _ Hinv)) as (s0 & Hs0 & _). unfold performs in Hp. rewrite Hk, Hs0 in Hp. destruct Hp as [[= ->]|[? ?]]; [|done].
  destruct (pollRows_split _ _ _ _ _ (statesInOrder_NoDup _ _ Hrows) Hs0) as [Hno|(rows1 & v & rows2 & s1 & s2 & Hr & Hn1 & Hn2 & Hp1 & Hp & Hp2)].
  - destruct (pollRows_other _ _ _ _ _ _ Hinv Hno Hs0) as (_ & Hr & _). exists gw. rewrite Hr. split_and!; [done..|].
    assert (Hh : gh_hist x = []); [|by rewrite Hh]. destruct (decide (gh_hist x = [])) as [|Hh]; [done|]. destruct (in_version _ _ Hinv Hh) as (v & Hv & _).
    exfalso. apply Hno. apply (list_elem_of_fmap_2 fst _ (g, v)). apply list_elem_of_filter. split; [done|]. rewrite statesInOrder_perm. by apply elem_of_map_to_list.
  - destruct (pollRows_other _ _ _ _ _ _ Hinv Hn1 Hp1) as (Hinv1 & Hr1 & Ht1 & Hc1).
    destruct (poll_progress fault now v s1 s2 x gw c) as (gw' & Hgw' & Hrest); [done|congruence|done|done| | |done|done|].
    + intros d Hd. rewrite (Hc1 gw) by done. auto.
    + rewrite Ht1. apply (statesInOrder_rows _ v _ Hrows). rewrite Hr. set_solver.
    + assert (Hinv2 : inv s2 (noteFirst now s1 s2 x)).
      { eapply poll_inv; [done|by intros gw1; rewrite Hr1; apply Ha| |done]. intros gw1 Hgw1. rewrite Ht1, (statesInOrder_rows _ v _ Hrows) by (rewrite Hr; set_solver). by intros [= ->]. }
      destruct (pollRows_other _ _ _ _ _ _ Hinv2 Hn2 Hp2) as (_ & Hr3 & _). exists gw'. by rewrite Hr3.
Qed.

Lemma readAll_spec s x gw : inv s x -> sb_registry s !! g = Some gw -> inv (readAll s) x /\ sb_registry (readAll s) = sb_registry s /\
  forall d, d ∈ gw_subscribers gw -> exists ch, sb_channels s !! d = Some ch /\ sb_channels (readAll s) !! d = Some (mkChannel [] (received ch) (ch_closed ch)).
Proof.
  intros Hinv Hgw. unfold readAll, subscribersOf. rewrite Hgw. destruct (foldr_receive (gw_subscribers gw) s x Hinv) as (Hi & Hr & _ & Hc).
  split_and!; [done..|]. intros d Hd. destruct (co_gets _ _ _ (in_cursor _ _ Hinv _ Hgw) _ Hd) as (ch & Hch & _). exists ch. split; [done|].
  rewrite (Hc _ _ Hch). by rewrite decide_True.
Qed.

Lemma rounds_progress polls c : g <> "" -> Forall (fun p => (forall cursor, p.1.1 (StStatesPage cursor) = None) /\ p.1.1 (StEvents g) = None) polls ->
  forall s x gw, inv s x -> sb_registry s !! g = Some gw -> gw_lastPolled gw <> 0%Z -> c ∈ gw_subscribers gw ->
  (length (after (gw_lastPolled gw) (gh_hist x)) <= channelCap * length polls)%nat ->
  exists s' gw' ch, rounds polls s = Ok s' tt /\ inv s' x /\ sb_registry s' !! g = Some gw' /\ c ∈ gw_subscribers gw' /\
    sb_channels s' !! c = Some ch /\ ch_buffer ch = [] /\ after (gw_lastPolled gw') (gh_hist x) = [].
Proof.
  intros Hg. induction polls as [|[[fault now] n] polls IH]; intros Hf s x gw Hinv Hgw H0 Hc Hlen; cbn [rounds].
  - destruct (readAll_spec _ _ _ Hinv Hgw) as (Hi & Hr & Hch). destruct (Hch _ Hc) as (ch & _ & Hch'). eexists (readAll s), gw, _.
    split_and!; [done|done|by rewrite Hr|done|exact Hch'|done|]. apply nil_length_inv. cbn in Hlen. lia.
  - apply Forall_cons in Hf as [[Hpages Hev] Hf]. cbn in Hpages, Hev. destruct (readAll_spec _ _ _ Hinv Hgw) as (Hi & Hr & Hch).
    destruct (pollGateways_spec fault now n (readAll s) (in_wf _ _ Hi)) as (k & Hk & _).
    destruct (pollRows_spec fault now (take k (filter (fun row => row.1 <> "") (statesInOrder (sb_tables (readAll s))))) (readAll s) (in_wf _ _ Hi)) as (s1 & Hs1 & _).
    assert (Hp : pollGateways fault now n (readAll s) = Ok s1 tt) by congruence.
    destruct (poll_round fault now n (readAll s) s1 x gw c) as (Hi1 & gw1 & Hgw1 & Hs & HP & Haf); try done; [congruence|by intros d Hd; destruct (Hch _ Hd) as (? & _ & ?); eauto|by left|].
    destruct (IH Hf s1 x gw1 Hi1 Hgw1 HP) as (s' & gw' & ch & Hrun & Hrest); [congruence|rewrite Haf, length_drop; cbn [length] in Hlen; lia|].
    exists s', gw', ch. split; [|done]. unfold modify, mbind, GoM_bind. by rewrite Hp.
Qed.

End Gateway.

(** ** The theorems *)

Lemma between_all L P hist : increasing hist -> (L <= P)%Z -> after P hist = [] -> between L P hist = after L hist.
Proof.
  intros Hi HL Hn. unfold between. rewrite <- (upto_after P (after L hist)) at 2 by by apply increasing_after.
  by rewrite after_after, Hn, app_nil_r by done.
Qed.

(** C12: in every admissible run of the hub (defined by [run] and
    [admissible]), whatever statements fail and whatever it does for other
    gateways and subscribers, a subscriber of a gateway has got (read or
    buffered) exactly the events committed between the point where it
    started and the time of the gateway's cursor, each of them once and in the
    order of their commits; before the gateway's first delivery, nothing.
    A run is admissible for the gateway when every event committed for it has
    a time strictly later than all events committed before (and not before
    the hub's threshold for nanosecond times nor a past clean-up) and a
    non-empty version that the hub does not know yet; no clean-up deletes an
    event the gateway's cursor has not passed; the first poll of the gateway
    comes before a clean-up has deleted an event it would look at; a poll that
    acts on a version it read earlier does not go back behind the known
    version; and the hub is not closed. Without the first condition the
    statement is false: [late_commit_is_lost] (an event that commits after a
    later one was delivered), [same_time_is_delivered_twice] and
    [burst_blocks_the_gateway] (events of equal times). *)
Theorem subscribers_get_the_history_in_order `{EventOrder, MapRange} (g : string) (s : SQLBackend) (x : Ghost) (gw : gateway) (c : nat) :
  run g s x -> sb_registry s !! g = Some gw -> c ∈ gw_subscribers gw ->
  exists ch, sb_channels s !! c = Some ch /\ NoDup (ch_taken ch ++ ch_buffer ch) /\
    (ch_taken ch ++ ch_buffer ch)%list =
      match gh_start x !! c with
      | Some L => filter (fun e => (L < ts e /\ ts e <= gw_lastPolled gw)%Z) (gh_hist x)
      | None => []
      end.
Proof.
  intros Hinv%run_inv Hgw Hc. destruct (co_gets _ _ _ _ (in_cursor _ _ _ Hinv _ Hgw) c Hc) as (ch & Hch & Hg). exists ch. split; [done|].
  fold (received ch). unfold gets in Hg. destruct (gh_start x !! c) as [L|].
  - destruct Hg as (_ & _ & ->). unfold between, upto, after. rewrite list_filter_filter. split.
    + apply NoDup_filter. eapply increasing_NoDup, Hinv.
    + apply list_filter_iff. naive_solver.
  - destruct Hg as [_ ->]. split; [constructor|done].
Qed.

(** All events arrive; those already read come first. *)
Lemma catch_up `{EventOrder, MapRange} g s x gw c L polls :
  run g s x -> g <> "" -> sb_registry s !! g = Some gw -> c ∈ gw_subscribers gw -> gh_start x !! c = Some L ->
  Forall (fun p => (forall cursor, p.1.1 (StStatesPage cursor) = None) /\ p.1.1 (StEvents g) = None) polls ->
  (length (after (gw_lastPolled gw) (gh_hist x)) <= channelCap * length polls)%nat ->
  exists s' ch0 ch, rounds g polls s = Ok s' tt /\ sb_channels s !! c = Some ch0 /\ sb_channels s' !! c = Some ch /\ ch_buffer ch = [] /\
    ch_taken ch = after L (gh_hist x) /\ ch_taken ch0 `prefix_of` ch_taken ch.
Proof.
  intros Hinv%run_inv Hg Hgw Hc HL Hf Hlen. destruct (co_gets _ _ _ _ (in_cursor _ _ _ Hinv _ Hgw) c Hc) as (ch0 & Hch0 & Hg0). rewrite HL in Hg0.
  destruct Hg0 as (HLP0 & Hz & Hrcv0). destruct (rounds_progress g polls c Hg Hf s x gw) as (s' & gw' & ch & Hr & Hinv' & Hgw' & Hc' & Hch & Hb & Haf); [done..|].
  destruct (co_gets _ _ _ _ (in_cursor _ _ _ Hinv' _ Hgw') c Hc') as (ch1 & Hch1 & Hg1). simplify_eq.
  rewrite HL in Hg1. destruct Hg1 as (HLP & _ & Hrcv). unfold received in Hrcv. rewrite Hb, app_nil_r in Hrcv.
  assert (Ht : ch_taken ch = after L (gh_hist x)) by (rewrite Hrcv; apply between_all; [apply Hinv'|done..]).
  exists s', ch0, ch. split_and!; [done..|]. rewrite Ht. trans (received ch0); [by eexists|]. rewrite Hrcv0. unfold between.
  exists (after (gw_lastPolled gw) (after L (gh_hist x))). symmetry. apply upto_after, increasing_after, Hinv.
Qed.

(** C13: a subscriber gets all events: from any state of any admissible run
    (event times strictly increasing with the commits, fresh versions, no
    event deleted before it is delivered, the hub not closed: [admissible])
    in which the gateway has delivered, as many rounds of reading and polling
    as there are hundreds of events left, in which the tables can be read for
    this gateway and nothing else is committed, leave the subscriber with
    exactly the events committed since it started, all of them read.  Runs
    with equal or decreasing event times are excluded, and the statement fails
    for them: [late_commit_is_lost], [burst_blocks_the_gateway]. *)
Theorem subscribers_catch_up `{EventOrder, MapRange} (g : string) (s : SQLBackend) (x : Ghost) (gw : gateway) (c : nat) (L : Z)
    (polls : list ((Stmt -> option string) * Z * nat)) :
  run g s x -> g <> "" -> sb_registry s !! g = Some gw -> c ∈ gw_subscribers gw -> gh_start x !! c = Some L ->
  Forall (fun p => (forall cursor, p.1.1 (StStatesPage cursor) = None) /\ p.1.1 (StEvents g) = None) polls ->
  (length (after (gw_lastPolled gw) (gh_hist x)) <= channelCap * length polls)%nat ->
  exists s' ch, rounds g polls s = Ok s' tt /\ sb_channels s' !! c = Some ch /\ ch_buffer ch = [] /\ ch_taken ch = after L (gh_hist x).
Proof.
  intros Hrun Hg Hgw Hc HL Hf Hlen. destruct (catch_up g s x gw c L polls Hrun Hg Hgw Hc HL Hf Hlen) as (s' & ch0 & ch & Hr & _ & Hch & Hb & Ht & _).
  by exists s', ch.
Qed.

(** ** Concrete runs *)

Section Samples.
#[local] Existing Instance EventOrder_stable.
#[local] Existing Instance MapRange_list.

Definition noFault (st : Stmt) : option string := None.
Definition sampleEvent (entity : string) : Event := mkEvent "" 0 0 "API" "CREATE" entity "" "".
Definition day : Z := 1800000000000000000.

(** A gateway with one subscriber that has got an event; a second one is
    committed. *)
Definition sampleOps : list Op :=
  [OpRegister "gw"; OpSubscribe "gw"; OpPublish day "v1" "e1" "gw" (sampleEvent "a"); OpPoll (day + 10) 0;
   OpPublish (day + 20) "v2" "e2" "gw" (sampleEvent "b")].

(** The state and the ghost after some operations. *)
Fixpoint follow (ops : list Op) (s : SQLBackend) (x : Ghost) : SQLBackend * Ghost :=
  match ops with
  | [] => (s, x)
  | op :: ops' => match perform noFault op s with Ok s' _ | Err s' _ => follow ops' s' (note "gw" noFault op s s' x) | Panic => (s, x) end
  end.

Definition start : SQLBackend := mkSQLBackend (mkTables [] ∅) ∅ ∅.
Definition sample (n : nat) : SQLBackend * Ghost := follow (take n sampleOps) start (mkGhost [] 0 ∅).

Lemma sample_step n op : run "gw" (sample n).1 (sample n).2 -> admissible "gw" op (sample n).1 (sample n).2 ->
  (let s' := (sample (S n)).1 in performs (perform noFault op) (sample n).1 s' /\ (sample (S n)).2 = note "gw" noFault op (sample n).1 s' (sample n).2) ->
  run "gw" (sample (S n)).1 (sample (S n)).2.
Proof. intros Hrun Ha [Hp Hn]. rewrite Hn. by eapply run_op. Qed.

Lemma sample_run : run "gw" (sample 5).1 (sample 5).2.
Proof.
  apply (sample_step 4 (OpPublish (day + 20) "v2" "e2" "gw" (sampleEvent "b"))); [|intros _; split_and!|split; [left|]; vm_compute; reflexivity].
  2: { assert (Hh : Forall (fun e => ts e < day + 20)%Z (gh_hist (sample 4).2)) by (apply (bool_decide_unpack _); vm_compute; exact I). by rewrite Forall_forall in Hh. }
  2-4: by vm_compute.
  2: { intros gw. vm_compute. by intros [= <-]. }
  apply (sample_step 3 (OpPoll (day + 10) 0)); [|intros gw _ _; by vm_compute|split; [left|]; vm_compute; reflexivity].
  apply (sample_step 2 (OpPublish day "v1" "e1" "gw" (sampleEvent "a"))); [|intros _; split_and!|split; [left|]; vm_compute; reflexivity].
  2: { assert (Hh : Forall (fun e => ts e < day)%Z (gh_hist (sample 2).2)) by (apply (bool_decide_unpack _); vm_compute; exact I). by rewrite Forall_forall in Hh. }
  2-4: by vm_compute.
  2: { intros gw. vm_compute. by intros [= <-]. }
  apply (sample_step 1 (OpSubscribe "gw")); [|done|split; [left|]; vm_compute; reflexivity].
  apply (sample_step 0 (OpRegister "gw")); [|done|split; [left|]; vm_compute; reflexivity].
  by apply (run_init "gw" (mkTables [] ∅)); [constructor..|].
Qed.

Definition sampleGateway : gateway := default (mkGateway "" [] "" 0) (sb_registry (sample 5).1 !! "gw").

Lemma subscribers_get_the_history_in_order_witness :
  exists ch, sb_channels (sample 5).1 !! 0%nat = Some ch /\ ev_EventID <$> (ch_taken ch ++ ch_buffer ch)%list = ["e1"].
Proof.
  destruct (subscribers_get_the_history_in_order "gw" (sample 5).1 (sample 5).2 sampleGateway 0 sample_run) as (ch & Hch & _ & Hgot).
  - vm_compute. reflexivity.
  - apply (bool_decide_unpack _). vm_compute. exact I.
  - exists ch. split; [exact Hch|]. rewrite Hgot. vm_compute. reflexivity.
Defined.

Lemma subscribers_catch_up_witness :
  exists s' ch, rounds "gw" [(noFault, (day + 30)%Z, 0%nat)] (sample 5).1 = Ok s' tt /\ sb_channels s' !! 0%nat = Some ch /\ ch_buffer ch = [] /\
    ev_EventID <$> ch_taken ch = ["e1"; "e2"].
Proof.
  destruct (subscribers_catch_up "gw" (sample 5).1 (sample 5).2 sampleGateway 0 (day + 10 - initialPollSkewWindow - 1) [(noFault, (day + 30)%Z, 0%nat)] sample_run)
    as (s' & ch & Hr & Hch & Hb & Ht).
  - done.
  - vm_compute. reflexivity.
  - apply (bool_decide_unpack _). vm_compute. exact I.
  - vm_compute. reflexivity.
  - repeat constructor.
  - apply Nat.leb_le. vm_compute. reflexivity.
  - exists s', ch. split; [exact Hr|]. split; [exact Hch|]. split; [exact Hb|]. rewrite Ht. vm_compute. reflexivity.
Defined.

(** What channel 0 has got after some operations. *)
Definition got (ops : list Op) : option (list string) :=
  s ← performAll ((fun op => (op, noFault)) <$> ops) start; ch ← sb_channels s !! 0%nat; Some (ev_EventID <$> received ch).

Definition publish (t : Z) (eventID : string) : Op := OpPublish t ("v" +:+ eventID) eventID "gw" (sampleEvent "a").

(** Publish takes the time of an event before its transaction commits: an
    event that commits after a later one was delivered never arrives. *)
Example late_commit_is_lost :
  got [OpRegister "gw"; OpSubscribe "gw"; publish (day + 20) "e2"; OpPoll (day + 30) 0; publish (day + 10) "e1"; OpPoll (day + 40) 0;
       publish (day + 50) "e3"; OpPoll (day + 60) 0] = Some ["e2"; "e3"].
Proof. by vm_compute. Qed.

(** Two events of the same time are delivered again with the next one. *)
Example same_time_is_delivered_twice :
  got [OpRegister "gw"; OpSubscribe "gw"; publish day "e1"; publish day "e2"; OpPoll (day + 30) 0; publish (day + 40) "e3"; OpPoll (day + 60) 0]
  = Some ["e1"; "e2"; "e1"; "e2"; "e3"].
Proof. by vm_compute. Qed.

(** More events of the same time than a buffer holds: each poll delivers the
    first hundred again, and the last one and all later events never arrive. *)
Definition burst (n : nat) : list Op := (fun i => publish day ("e" +:+ pretty (N.of_nat i))) <$> seq 0 n.

Example burst_blocks_the_gateway :
  let ops := ([OpRegister "gw"; OpSubscribe "gw"] ++ burst 101 ++ [publish (day + 5) "later"])%list in
  let reads := [OpReceive 0; OpPoll (day + 20) 0; OpReceive 0; OpPoll (day + 30) 0; OpReceive 0; OpPoll (day + 40) 0]%list in
  let first := (fun i => "e" +:+ pretty (N.of_nat i)) <$> seq 0 100 in
  got (ops ++ [OpPoll (day + 10) 0] ++ reads) = Some (first ++ first ++ first ++ first)%list.
Proof. vm_compute. reflexivity. Qed.

(** A gateway that reconnects continues at its cursor and gets what it missed,
    however long ago. *)
Example reconnecting_replays_from_the_cursor :
  let ops := [OpRegister "gw"; OpSubscribe "gw"; publish day "e1"; OpPoll (day + 10) 0; OpUnsubscribe "gw" 0; publish (day + 20) "e2"; OpPoll (day + 30) 0;
              OpSubscribe "gw"; OpPoll (day + 1000 * initialPollSkewWindow) 0] in
  (s ← performAll ((fun op => (op, noFault)) <$> ops) start; ch ← sb_channels s !! 1%nat; Some (ev_EventID <$> received ch)) = Some ["e2"].
Proof. by vm_compute. Qed.

End Samples.
