(* ===== verification/EventListenerTheorems.v ===== *)
(** * EventListenerTheorems: replicas converge

    Once the database rests, a replica that has processed the events of an
    artifact has it in its store, and its runtime configuration among those
    for the engine, as the database has it, whatever other events come before,
    between and after them.  The theorem about the event hub adds that the
    events arrive.  Where identities move from one artifact to another the
    replicas can diverge; examples show how. *)

From stdpp Require Import base gmap strings list fin_maps.
From S2P Require Import Prelude GoStrings GoSort Values JsonWire XdsHandlers Routes ManagementApi ApiKeys LazyResources ConfigStore PolicyVersions RestTransform LlmTransform McpTransform RuntimeSnapshot StateSnapshots TemplateEngine EventHub EventListener.
From S2P Require Import RestTransformTheorems SnapshotTheorems StateSnapshotTheorems ArtifactTheorems ConfigStoreTheorems EventHubTheorems EventDelivery.

#[local] Set Warnings "-register-all".

Open Scope string_scope.

(** The storage does not lose artifacts when it deletes subscriptions. *)
Definition sameArtifacts {DB} `{Storage DB} (db db' : DB) : Prop := (forall u, db_GetConfig db' u = db_GetConfig db u) /\ db_llm db' = db_llm db.

Class StorageLaws (DB : Type) `{Storage DB} : Prop :=
  delete_subscriptions_keeps : forall db u db', db_DeleteSubscriptionsForAPINotIn db u = inr db' -> sameArtifacts db db'.

Section Converge.
Context {DB : Type} `{StorageLaws DB} `{MapRange} `{RegistryRange} `{SnapshotWire} `{TimeJSON} `{YamlUnmarshal} `{ConfigJSON} `{TextTemplate}
  `{EnvoySnapshots} `{ListenerJSON}.
Context (secretResolver : string -> string + string) (listenerPort : Z) (policyDefinitions : PolicyDefinitions) (now : Z).

(** The database at rest, and to whom handles and names belong. *)
Context (D : DB) (ownerH ownerN : string -> string).

Definition owned (cfg : StoredConfig) : Prop := ownerH (handleKeyOf cfg) = sc_UUID cfg /\ ownerN (GetCompositeKey cfg) = sc_UUID cfg.

Definition identified : Prop := forall u cfg, db_GetConfig D u = inr cfg -> sc_UUID cfg = u /\ owned cfg.

(** ** The state of a replica *)

Record good (l : Listener DB) : Prop := {
  gd_indexed : indexed (el_store l);
  gd_hook : cs_webSubTopicUpdater (el_store l) = None;
  gd_owned u cfg : cs_configs (el_store l) !! u = Some cfg -> owned cfg;
  gd_db : sameArtifacts D (el_db l)
}.

Definition artifact (l : Listener DB) (u : string) : option StoredConfig := cs_configs (el_store l) !! u.
Definition runtimeStore (l : Listener DB) : option RuntimeConfigStore := pm ← el_policyManager l; sm_runtimeStore (pm_snapshotManager pm).
Definition runtime (l : Listener DB) (key : string) : option RuntimeDeployConfig := s ← runtimeStore l; rs_configs s !! key.
Definition transformer (l : Listener DB) : option (StoredConfig -> GoM unit RuntimeDeployConfig) := pm ← el_policyManager l; pm_transformers pm.

(** What a step that does not concern the artifact leaves as it is. *)
Record keeps (u : string) (l l' : Listener DB) : Prop := {
  kp_good : good l';
  kp_some cfg : artifact l u = Some cfg -> artifact l' u = Some cfg;
  kp_none e : artifact l u = None -> db_GetConfig D u = inl e -> artifact l' u = None;
  kp_runtime key : ownerH key = u -> runtime l' key = runtime l key;
  kp_transformer : transformer l' = transformer l;
  kp_hasRuntime : is_Some (runtimeStore l) -> is_Some (runtimeStore l')
}.

Definition Keeps {A} (u : string) (m : LM DB A) : Prop := forall l, good l -> keeps u l (m l).1.

Lemma keeps_refl u l : good l -> keeps u l l.
Proof. by split. Qed.

Lemma keeps_trans u l1 l2 l3 : keeps u l1 l2 -> keeps u l2 l3 -> keeps u l1 l3.
Proof. intros [G1 S1 N1 R1 T1 H1'] [G2 S2 N2 R2 T2 H2']. split; eauto; [intros key Hk; by rewrite R2, R1|congruence]. Qed.

Lemma Keeps_ret {A} u (a : A) : Keeps u (mret a).
Proof. intros l Hl. by apply keeps_refl. Qed.

Lemma Keeps_bind {A B} u (m : LM DB A) (k : A -> LM DB B) : Keeps u m -> (forall a, Keeps u (k a)) -> Keeps u (m ≫= k).
Proof.
  intros Hm Hk l Hl. pose proof (Hm l Hl) as Hkeep. unfold mbind, LM_bind. destruct (m l) as [l' [a|]]; cbn in *; [|done].
  eapply keeps_trans; [exact Hkeep|]. apply Hk, Hkeep.
Qed.

Lemma Keeps_reads {A} u (f : Listener DB -> A) : Keeps u (reads f).
Proof. intros l Hl. by apply keeps_refl. Qed.

(** Steps on parts that are not looked at. *)
Lemma keeps_other u l l' : good l -> el_store l' = el_store l -> sameArtifacts (el_db l) (el_db l') -> el_policyManager l' = el_policyManager l -> keeps u l l'.
Proof.
  intros [Hi Hh Ho [Hd1 Hd2]] Hs [Hb1 Hb2] Hp. unfold sameArtifacts in *. split; unfold artifact, runtime, runtimeStore, transformer; rewrite ?Hs, ?Hp; try done.
  split; rewrite ?Hs; try done. split; [intros; by rewrite Hb1|by rewrite Hb2].
Qed.

Lemma same_refl (db : DB) : sameArtifacts db db.
Proof. done. Qed.

Lemma Keeps_onKeys u op : Keeps u (onKeys op).
Proof. intros l Hl. unfold onKeys. destruct (el_apiKeyXDSManager l) as [sm|]; [|by apply keeps_refl]. destruct (op sm). by apply keeps_other. Qed.

Lemma Keeps_onLazy u op : Keeps u (onLazy op).
Proof. intros l Hl. unfold onLazy. destruct (el_lazyResourceManager l) as [sm|]; [|by apply keeps_refl]. destruct (op sm). by apply keeps_other. Qed.

Lemma Keeps_refreshSubscriptions u : Keeps u (refreshSubscriptions now).
Proof.
  intros l Hl. unfold refreshSubscriptions. destruct (el_subscriptionManager l) as [sm|]; [|by apply keeps_refl].
  destruct (Subscription_UpdateSnapshot _ _ _ _ _). by apply keeps_other.
Qed.

Lemma Keeps_deleteSubscriptions u e : Keeps u (deleteSubscriptions now e).
Proof.
  intros l Hl. unfold deleteSubscriptions. destruct (db_DeleteSubscriptionsForAPINotIn _ _) as [?|db] eqn:Hd; [by apply keeps_refl|].
  assert (Hk : keeps u l (set_db db l)) by (apply keeps_other; try done; by eapply delete_subscriptions_keeps).
  eapply keeps_trans; [exact Hk|]. apply Keeps_refreshSubscriptions, Hk.
Qed.

(** *** Operations of the store *)

Lemma keeps_store u l cs : good l -> indexed cs -> cs_webSubTopicUpdater cs = None -> (forall v cfg, cs_configs cs !! v = Some cfg -> owned cfg) ->
  (forall cfg, artifact l u = Some cfg -> cs_configs cs !! u = Some cfg) ->
  (forall e, artifact l u = None -> db_GetConfig D u = inl e -> cs_configs cs !! u = None) -> keeps u l (set_store cs l).
Proof. intros [_ _ _ Hd] Hi Hh Ho Hs Hn. by split. Qed.

Definition sameParts (cs cs' : ConfigStore) : Prop := sameIndexes cs cs' /\ cs_webSubTopicUpdater cs' = cs_webSubTopicUpdater cs.

Lemma keeps_sameParts u l cs : good l -> sameParts (el_store l) cs -> keeps u l (set_store cs l).
Proof.
  intros Hg [(Hc & Hh & Hn) Hu]. pose proof Hg as [Hi Hk Ho Hd]. apply keeps_store; [done| |congruence|rewrite Hc; done..].
  by eapply indexed_ext.
Qed.

Lemma Keeps_onStore_parts u op : (forall cs cs', leads op cs cs' -> sameParts cs cs') -> Keeps u (onStore op).
Proof.
  intros Hop l Hl. unfold onStore. destruct (op (el_store l)) as [cs []|cs e|] eqn:Ho; [| |by apply keeps_refl];
    apply keeps_sameParts; try done; apply Hop; [left|right]; eauto.
Qed.

Ltac parts := intros cs cs' [[? Hm]|[? Hm]]; revert Hm;
  unfold AddTemplate, UpdateTemplate, DeleteTemplate, ConfigStore_StoreAPIKey, RemoveAPIKeyByID, modify, ConfigStore_RemoveAPIKeysByAPI;
  repeat case_match; intros; simplify_eq; done.

Lemma Keeps_StoreAPIKey u k : Keeps u (onStore (ConfigStore_StoreAPIKey k)).
Proof. apply Keeps_onStore_parts. parts. Qed.
Lemma Keeps_RemoveAPIKeyByID u api k : Keeps u (onStore (RemoveAPIKeyByID api k)).
Proof. apply Keeps_onStore_parts. parts. Qed.
Lemma Keeps_RemoveAPIKeysByAPI u api : Keeps u (onStore (modify (ConfigStore_RemoveAPIKeysByAPI api))).
Proof. apply Keeps_onStore_parts. parts. Qed.
Lemma Keeps_AddTemplate u t : Keeps u (onStore (AddTemplate t)).
Proof. apply Keeps_onStore_parts. parts. Qed.
Lemma Keeps_UpdateTemplate u t : Keeps u (onStore (UpdateTemplate t)).
Proof. apply Keeps_onStore_parts. parts. Qed.
Lemma Keeps_DeleteTemplate u t : Keeps u (onStore (DeleteTemplate t)).
Proof. apply Keeps_onStore_parts. parts. Qed.

Lemma Keeps_updateSnapshot u : Keeps u updateSnapshot.
Proof.
  intros l Hl. unfold updateSnapshot. destruct (el_envoy l); [|by apply keeps_refl]. destruct (envoySnapshot _); [by apply keeps_refl|by apply keeps_sameParts|].
  eapply keeps_trans; [by apply (keeps_sameParts u l (set_snapVersion (el_store l) (int64_incr (cs_snapVersion (el_store l)))))|].
  apply keeps_other; try done. by apply keeps_sameParts.
Qed.

(** Where identities are stable no artifact is refused. *)
Lemma no_clash cs cfg : indexed cs -> (forall v c, cs_configs cs !! v = Some c -> owned c) -> owned cfg ->
  ¬ map_Exists (fun id c => id <> sc_UUID cfg /\ clash c cfg) (cs_configs cs).
Proof.
  intros Hi Ho [Hh Hn] (id & c & Hc & Hne & Hcl). apply Hne. rewrite <- (indexed_uuid _ Hi _ _ Hc). destruct (Ho _ _ Hc) as [Hh' Hn'].
  destruct Hcl as [Hk|Hk]; congruence.
Qed.

Lemma Update_hook cfg cs cs' : cs_webSubTopicUpdater cs = None -> ConfigStore_Update cfg cs = Ok cs' tt -> cs_webSubTopicUpdater cs' = None.
Proof.
  intros Hh. unfold ConfigStore_Update. destruct (cs_configs cs !! sc_UUID cfg) as [existing|]; [|done].
  intros (s1 & [] & [_ ->]%reindexHandle_Ok & (s2 & [] & [_ ->]%reindexName_Ok & (s3 & [] & Ht & Hl)%bind_Ok_inv)%bind_Ok_inv)%bind_Ok_inv.
  rewrite updateTopics_noHook in Ht by by right. injection Ht as <-. injection Hl as <-. unfold updateLabels. by destruct (negb _), (GetLabels cfg).
Qed.

Lemma Add_hook cfg cs cs' : cs_webSubTopicUpdater cs = None -> ConfigStore_Add cfg cs = Ok cs' tt -> cs_webSubTopicUpdater cs' = None.
Proof.
  intros Hh. unfold ConfigStore_Add. destruct (cs_handle cs !! _); [done|]. destruct (cs_nameVersion cs !! _); [done|].
  rewrite updateTopics_noHook by (right; by destruct (GetLabels cfg)). intros [= <-]. by destruct (GetLabels cfg).
Qed.

(** The store takes the artifact. *)
Lemma storeOne cs cfg : indexed cs -> cs_webSubTopicUpdater cs = None -> (forall v c, cs_configs cs !! v = Some c -> owned c) -> owned cfg ->
  exists cs', (match cs_configs cs !! sc_UUID cfg with Some _ => ConfigStore_Update cfg | None => ConfigStore_Add cfg end) cs = Ok cs' tt /\
    cs_configs cs' = <[sc_UUID cfg := cfg]> (cs_configs cs) /\ indexed cs' /\ cs_webSubTopicUpdater cs' = None.
Proof.
  intros Hi Hh Ho Hc. pose proof (no_clash _ _ Hi Ho Hc) as Hno. destruct (cs_configs cs !! sc_UUID cfg) as [existing|] eqn:He.
  - pose proof (Update_implements cfg cs Hi (or_intror Hh)) as Hu. unfold tableUpdate in Hu. rewrite He, decide_False in Hu by done.
    destruct (ConfigStore_Update cfg cs) as [cs' []|cs' e|] eqn:HU; [|by destruct Hu|done]. injection Hu as Hcs. exists cs'. split_and!; [done..| |].
    + by eapply Update_indexed.
    + by eapply Update_hook.
  - pose proof (Add_implements cfg cs Hi (or_intror Hh)) as Hu. unfold tableAdd in Hu. rewrite decide_False in Hu.
    2: { intros (id & c & Hid & Hcl). apply Hno. exists id, c. split; [done|]. split; [|done]. intros ->. congruence. }
    destruct (ConfigStore_Add cfg cs) as [cs' []|cs' e|] eqn:HU; [|by destruct Hu|done]. injection Hu as Hcs. exists cs'. split_and!; [done..| |].
    + pose proof (Add_indexed cfg cs Hi He) as Hx. unfold wp in Hx. by rewrite HU in Hx.
    + by eapply Add_hook.
Qed.

Lemma owned_insert (m : gmap string StoredConfig) cfg : (forall v c, m !! v = Some c -> owned c) -> owned cfg ->
  forall v c, <[sc_UUID cfg := cfg]> m !! v = Some c -> owned c.
Proof. intros Hm Hc v c [(_ & <-)|(_ & Hl)]%lookup_insert_Some; eauto. Qed.

(** Storing an artifact, for it and for the others. *)
Lemma storeArtifact_spec l cfg : good l -> owned cfg -> exists cs, storeArtifact (sc_UUID cfg) cfg l = (set_store cs l, Some true) /\
  cs_configs cs = <[sc_UUID cfg := cfg]> (cs_configs (el_store l)) /\ good (set_store cs l).
Proof.
  intros [Hi Hh Ho Hd] Hc. destruct (storeOne _ _ Hi Hh Ho Hc) as (cs & Hs & Hcs & Hi' & Hh'). exists cs.
  split_and!; [|done|split; try done; cbn; rewrite Hcs; by apply owned_insert]. unfold storeArtifact, mbind, LM_bind, reads, onStore, ConfigStore_Get. cbn.
  destruct (cs_configs (el_store l) !! sc_UUID cfg); by rewrite Hs.
Qed.

Lemma Keeps_storeArtifact u cfg : sc_UUID cfg <> u -> owned cfg -> Keeps u (storeArtifact (sc_UUID cfg) cfg).
Proof.
  intros Hne Hc l Hl. destruct (storeArtifact_spec l cfg Hl Hc) as (cs & -> & Hcs & [Hi Hh Ho _]). cbn in *.
  apply keeps_store; try done; rewrite Hcs; unfold artifact; intros; rewrite lookup_insert_ne; done.
Qed.

Lemma ConfigDelete_spec cs u : indexed cs -> cs_webSubTopicUpdater cs = None -> exists cs', leads (ConfigStore_Delete u) cs cs' /\
  cs_configs cs' = delete u (cs_configs cs) /\ indexed cs' /\ cs_webSubTopicUpdater cs' = None.
Proof.
  intros Hi Hh. pose proof (Delete_indexed u cs Hi) as Hw. unfold wp, ConfigStore_Delete in *. destruct (cs_configs cs !! u) as [cfg|] eqn:Hu.
  - eexists. split_and!; [left; eexists; unfold ConfigStore_Delete; rewrite Hu; done| |done|]; by destruct (String.eqb _ _).
  - exists cs. split_and!; [right; eexists; unfold ConfigStore_Delete; rewrite Hu; done|by rewrite delete_id|done..].
Qed.

Lemma onStore_Delete_spec l u : good l -> exists cs e, onStore (ConfigStore_Delete u) l = (set_store cs l, Some e) /\
  cs_configs cs = delete u (cs_configs (el_store l)) /\ good (set_store cs l).
Proof.
  intros [Hi Hh Ho Hd]. destruct (ConfigDelete_spec (el_store l) u Hi Hh) as (cs & Hle & Hc & Hi' & Hh'). exists cs. unfold onStore.
  assert (Hg : good (set_store cs l)) by (split; try done; cbn; rewrite Hc; intros v c [_ Hv]%lookup_delete_Some; eauto).
  destruct Hle as [[[] ->]|[e ->]]; eauto.
Qed.

Lemma Keeps_Delete u v : v <> u -> Keeps u (onStore (ConfigStore_Delete v)).
Proof.
  intros Hne l Hl. destruct (onStore_Delete_spec l v Hl) as (cs & e & -> & Hc & [Hi Hh Ho _]). cbn in *.
  apply keeps_store; try done; rewrite Hc; unfold artifact; intros; rewrite lookup_delete_ne; done.
Qed.

(** *** Runtime configurations *)

Definition rt (pm : PolicyManager) (key : string) : option RuntimeDeployConfig := s ← sm_runtimeStore (pm_snapshotManager pm); rs_configs s !! key.

(** The manager after a step that concerns one key at most. *)
Record touches (k : string) (pm pm' : PolicyManager) : Prop := {
  tc_transformers : pm_transformers pm' = pm_transformers pm;
  tc_store : is_Some (sm_runtimeStore (pm_snapshotManager pm)) -> is_Some (sm_runtimeStore (pm_snapshotManager pm'));
  tc_other key : key <> k -> rt pm' key = rt pm key
}.

Lemma touches_refl k pm : touches k pm pm.
Proof. by split. Qed.

(** Publishing a snapshot changes no runtime configuration. *)
Lemma UpdateSnapshot_runtime sm : sm_runtimeStore (UpdateSnapshot sm) = RuntimeStore_IncrementResourceVersion <$> sm_runtimeStore sm.
Proof. unfold UpdateSnapshot. destruct (sm_runtimeStore sm) as [s|] eqn:Hs; [|by rewrite Hs]. by destruct (TranslateRuntimeConfigs _). Qed.

Lemma publish_touches k pm store store' : sm_runtimeStore (pm_snapshotManager pm) = Some store -> (forall key, key <> k -> rs_configs store' !! key = rs_configs store !! key) ->
  touches k pm (set_snapshotManager pm (UpdateSnapshot (set_runtimeStore (pm_snapshotManager pm) store'))) /\
  forall key, rt (set_snapshotManager pm (UpdateSnapshot (set_runtimeStore (pm_snapshotManager pm) store'))) key = rs_configs store' !! key.
Proof.
  intros Hs Ho. assert (Hrt : forall key, rt (set_snapshotManager pm (UpdateSnapshot (set_runtimeStore (pm_snapshotManager pm) store'))) key = rs_configs store' !! key)
    by (intros key; unfold rt, set_snapshotManager; cbn [pm_snapshotManager]; rewrite UpdateSnapshot_runtime; done).
  split; [|done]. split; [done| |].
  - intros _. unfold set_snapshotManager. cbn [pm_snapshotManager]. rewrite UpdateSnapshot_runtime. by eexists.
  - intros key Hk. rewrite Hrt, Ho by done. unfold rt. by rewrite Hs.
Qed.

Lemma Upsert_touches cfg pm pm' e : UpsertAPIConfig cfg pm = Some (pm', e) -> touches (handleKeyOf cfg) pm pm'.
Proof.
  unfold UpsertAPIConfig, AddRuntimeConfig. destruct (sm_runtimeStore (pm_snapshotManager pm)) as [store|] eqn:Hs; [|intros [= <- _]; apply touches_refl].
  destruct (pm_transformers pm) as [f|]; [|intros [= <- _]; apply touches_refl]. destruct (f cfg tt) as [[] rdc| |]; [|intros [= <- _]; apply touches_refl|done].
  intros [= <- _]. eapply publish_touches; [done|]. intros key Hk. cbn. by rewrite lookup_insert_ne.
Qed.

Lemma Upsert_spec cfg pm f rdc : pm_transformers pm = Some f -> f cfg tt = Ok tt rdc -> is_Some (sm_runtimeStore (pm_snapshotManager pm)) ->
  exists pm', UpsertAPIConfig cfg pm = Some (pm', None) /\ rt pm' (handleKeyOf cfg) = Some rdc.
Proof.
  intros Hf Hr [store Hs]. unfold UpsertAPIConfig, AddRuntimeConfig. rewrite Hs, Hf, Hr. eexists. split; [done|].
  edestruct (publish_touches (handleKeyOf cfg) pm store (RuntimeStore_Set (RuntimeStore_Key (sc_Kind cfg) (sc_Handle cfg)) rdc store)) as [_ Hrt]; [done| |].
  - intros key Hk. cbn. by rewrite lookup_insert_ne.
  - rewrite Hrt. cbn. by rewrite lookup_insert_eq.
Qed.

Lemma DeleteAPIConfig_touches kind handle pm : touches (RuntimeStore_Key kind handle) pm (DeleteAPIConfig kind handle pm).1.
Proof.
  unfold DeleteAPIConfig, RemoveRuntimeConfig. destruct (sm_runtimeStore (pm_snapshotManager pm)) as [store|] eqn:Hs; [|apply touches_refl].
  unfold RuntimeStore_Delete. destruct (rs_configs store !! _) eqn:Hk; cbn; [|apply touches_refl].
  eapply publish_touches; [done|]. intros key Hne. cbn. by rewrite lookup_delete_ne.
Qed.

Lemma EventChannel_touches k pm : touches k pm (UpdateEventChannelSnapshot pm).
Proof.
  unfold UpdateEventChannelSnapshot, set_snapshotManager. split; [done| |]; unfold rt; cbn [pm_snapshotManager]; rewrite UpdateSnapshot_runtime;
    [by intros [s ->]; eexists|]. intros key _.
  by destruct (sm_runtimeStore (pm_snapshotManager pm)).
Qed.

Lemma onPolicies_keeps u k op l : good l -> ownerH k <> u -> (forall pm pm', op pm = Some pm' -> touches k pm pm') -> keeps u l (onPolicies op l).1.
Proof.
  intros Hl Hk Hop. unfold onPolicies. destruct (el_policyManager l) as [pm|] eqn:Hpm; [|by apply keeps_refl].
  destruct (op (sharing (el_store l) pm)) as [pm'|] eqn:Ho; [|by apply keeps_refl]. apply Hop in Ho as [Ht Hs Hr]. destruct Hl as [Hi Hh Hw Hd].
  split; try done; unfold runtime, runtimeStore, transformer; cbn; rewrite Hpm; cbn; [|done|done].
  intros key Hkey. apply (Hr key). intros ->. done.
Qed.

(** A step on the runtime configurations alone leaves the artifacts. *)
Lemma onPolicies_artifacts op l : good l -> good (onPolicies op l).1 /\ el_store (onPolicies op l).1 = el_store l.
Proof.
  intros [Hi Hh Hw Hd]. unfold onPolicies. destruct (el_policyManager l) as [pm|]; [|by split]. destruct (op _); [|by split]. split; [by split|done].
Qed.

(** *** Events of other things *)

Lemma db_artifact l u cfg : identified -> good l -> db_GetConfig (el_db l) u = inr cfg -> db_GetConfig D u = inr cfg /\ sc_UUID cfg = u /\ owned cfg.
Proof. intros Hid Hl Hc. destruct (gd_db _ Hl) as [Hd _]. rewrite Hd in Hc. destruct (Hid _ _ Hc). done. Qed.

(** An artifact fetched for a key is stored if it was missing. *)
Lemma Keeps_syncAPIConfig u v : identified -> Keeps u (syncAPIConfigForAPIKeyEvent v).
Proof.
  intros Hid l Hl. unfold syncAPIConfigForAPIKeyEvent, mbind, LM_bind, reads, ConfigStore_Get. cbn.
  destruct (cs_configs (el_store l) !! v) as [c|] eqn:Hv; [by apply keeps_refl|]. destruct (db_GetConfig (el_db l) v) as [e|cfg] eqn:Hc; [by apply keeps_refl|].
  apply db_artifact in Hc as (HD & Hu & Ho); [|done..]. pose proof Hl as [Hi Hh Hw Hd]. destruct (storeOne _ _ Hi Hh Hw Ho) as (cs & Hs & Hcs & Hi' & Hh').
  rewrite Hu, Hv in Hs. unfold onStore. rewrite Hs. cbn. subst v. apply keeps_store; try done; rewrite Hcs.
  - by apply owned_insert.
  - unfold artifact. intros c Hc. rewrite lookup_insert_ne; [done|]. intros <-. congruence.
  - unfold artifact. intros e Hn He. rewrite lookup_insert_ne; [done|]. intros <-. congruence.
Qed.

Create HintDb listener.
#[local] Hint Resolve Keeps_ret Keeps_reads Keeps_onKeys Keeps_onLazy Keeps_refreshSubscriptions Keeps_deleteSubscriptions Keeps_StoreAPIKey Keeps_RemoveAPIKeyByID
  Keeps_RemoveAPIKeysByAPI Keeps_AddTemplate Keeps_UpdateTemplate Keeps_DeleteTemplate Keeps_updateSnapshot Keeps_syncAPIConfig Keeps_storeArtifact Keeps_Delete : listener.

(** Handlers are sequences and choices of steps. *)
Ltac keep := repeat first
  [ solve [eauto with listener]
  | apply Keeps_bind; [|intros ?]
  | match goal with
    | |- Keeps _ (match ?x with _ => _ end) => destruct x
    | |- Keeps _ (onStore (match ?x with _ => _ end)) => destruct x
    end ].

Lemma Keeps_storeKeys u keys : Keeps u (storeKeys keys).
Proof. induction keys as [|[k|] keys IH]; cbn [storeKeys]; keep. Qed.

Lemma Keeps_syncAPIKeys u cfg : Keeps u (syncAPIKeysForAPI cfg).
Proof. unfold syncAPIKeysForAPI. keep. apply Keeps_storeKeys. Qed.

Lemma Keeps_syncMapping u cfg : Keeps u (syncProviderTemplateMapping cfg).
Proof. unfold syncProviderTemplateMapping, removeProviderTemplateMapping. keep. Qed.

Lemma Keeps_removeMapping u h : Keeps u (removeProviderTemplateMapping h).
Proof. unfold removeProviderTemplateMapping. keep. Qed.

Lemma Keeps_template u ev : Keeps u (handleLLMTemplateCreateOrUpdate ev) /\ Keeps u (handleLLMTemplateDelete ev).
Proof. split; unfold handleLLMTemplateCreateOrUpdate, handleLLMTemplateDelete, syncLLMTemplate; keep. Qed.

Lemma Keeps_keyEvents u ev : identified -> Keeps u (handleAPIKeyUpsert ev) /\ Keeps u (handleAPIKeyRevoke ev).
Proof. intros Hid. split; unfold handleAPIKeyUpsert, handleAPIKeyRevoke; keep. Qed.

Lemma Keeps_storeAffected u keys : identified -> Keeps u (storeAffected keys).
Proof. intros Hid. induction keys as [|k keys IH]; cbn [storeAffected]; keep. Qed.

Lemma Keeps_application u ev : identified -> Keeps u (handleApplication ev).
Proof. intros Hid. pose proof (Keeps_storeAffected u) as Hs. unfold handleApplication. keep. Qed.

Lemma Keeps_byAction u (f g : Event -> LM DB unit) ev : Keeps u (f ev) -> Keeps u (g ev) -> Keeps u (byAction f g ev).
Proof. intros Hf Hg. unfold byAction. keep. Qed.

(** *** Events of artifacts *)

Definition sameIdentity (cfg cfg' : StoredConfig) : Prop := sc_UUID cfg' = sc_UUID cfg /\ handleKeyOf cfg' = handleKeyOf cfg /\ GetCompositeKey cfg' = GetCompositeKey cfg.

Lemma sameIdentity_owned cfg cfg' : sameIdentity cfg cfg' -> owned cfg -> owned cfg'.
Proof. intros (H1' & H2' & H3') [Ha Hb]. split; congruence. Qed.

Lemma RenderSpec_identity cfg cfg' : RenderSpec secretResolver cfg = inr cfg' -> sameIdentity cfg cfg'.
Proof. unfold RenderSpec. destruct (renderSpec _ _) as [|[c tr]]; [done|]. by intros [= <-]. Qed.

Lemma HydrateLLM_identity db cfg cfg' : HydrateLLMConfig db listenerPort policyDefinitions cfg = Ok cfg' tt -> sameIdentity cfg cfg'.
Proof. unfold HydrateLLMConfig. repeat case_match; intros; simplify_eq; done. Qed.

Lemma HydrateMCP_identity cfg cfg' : HydrateStoredMCPConfig cfg = Ok cfg' tt -> sameIdentity cfg cfg'.
Proof. unfold HydrateStoredMCPConfig. repeat case_match; intros; simplify_eq; done. Qed.

Definition identityKept (hydrate : DB -> GoM StoredConfig unit) : Prop := forall db cfg cfg', hydrate db cfg = Ok cfg' tt -> sameIdentity cfg cfg'.

Lemma Keeps_policies u cfg : owned cfg -> sc_UUID cfg <> u -> Keeps u (updatePoliciesForAPI cfg).
Proof.
  intros [Ho _] Hne l Hl. unfold updatePoliciesForAPI. destruct (isEventAPI _).
  - apply (onPolicies_keeps u (handleKeyOf cfg)); [done|congruence|]. intros pm pm' [= <-]. apply EventChannel_touches.
  - apply (onPolicies_keeps u (handleKeyOf cfg)); [done|congruence|]. intros pm pm' ([pm1 e] & Hu & ->)%fmap_Some. by eapply Upsert_touches.
Qed.

Lemma Keeps_deleteRuntime u cfg : owned cfg -> sc_UUID cfg <> u -> Keeps u (deleteRuntime (inr cfg)).
Proof.
  intros [Ho _] Hne l Hl. apply (onPolicies_keeps u (handleKeyOf cfg)); [done|congruence|]. intros pm pm' [= <-]. apply DeleteAPIConfig_touches.
Qed.

#[local] Hint Resolve Keeps_policies Keeps_deleteRuntime Keeps_syncAPIKeys Keeps_syncMapping Keeps_removeMapping : listener.

(** The steps of a handler after a read, in a state. *)
Lemma bind_reads {A B} (f : Listener DB -> A) (k : A -> LM DB B) l : (reads f ≫= k) l = k (f l) l.
Proof. done. Qed.

Lemma keeps_bind_reads {A B} u (f : Listener DB -> A) (k : A -> LM DB B) l : keeps u l (k (f l) l).1 -> keeps u l ((reads f ≫= k) l).1.
Proof. done. Qed.

Lemma Keeps_APIUpsert_other u ev : identified -> ev_EntityID ev <> u -> Keeps u (handleAPICreateOrUpdate secretResolver ev).
Proof.
  intros Hid Hne l Hl. unfold handleAPICreateOrUpdate. apply keeps_bind_reads. destruct (db_GetConfig _ _) as [e|cfg] eqn:Hc; [by apply keeps_refl|].
  apply db_artifact in Hc as (_ & Hu & Ho); [|done..]. destruct (RenderSpec _ _) as [e|cfg'] eqn:Hr; [by apply keeps_refl|].
  apply RenderSpec_identity in Hr. pose proof (sameIdentity_owned _ _ Hr Ho) as Ho'. destruct Hr as (Hu' & _). rewrite <- Hu, <- Hu' in *.
  revert l Hl. change (Keeps u (accepted ← storeArtifact (sc_UUID cfg') cfg'; if negb accepted then mret tt
    else (if isEventAPI (sc_Kind cfg') then mret tt else updateSnapshot);; updatePoliciesForAPI cfg';; syncAPIKeysForAPI cfg')). keep.
Qed.

Lemma Keeps_derived_other u kind hydrate mapping ev : identified -> identityKept hydrate -> (forall cfg, Keeps u (mapping cfg)) -> ev_EntityID ev <> u ->
  Keeps u (handleDerivedCreateOrUpdate secretResolver kind hydrate mapping ev).
Proof.
  intros Hid Hk Hm Hne l Hl. unfold handleDerivedCreateOrUpdate. apply keeps_bind_reads. destruct (db_GetConfig _ _) as [e|cfg] eqn:Hc; [by apply keeps_refl|].
  apply db_artifact in Hc as (_ & Hu & Ho); [|done..]. destruct (negb _); [by apply keeps_refl|]. apply keeps_bind_reads.
  destruct (hydrate (el_db l) cfg) as [cfg1 []|cfg1 e|] eqn:Hh; [|by apply keeps_refl|by apply keeps_refl]. apply Hk in Hh.
  destruct (RenderSpec _ cfg1) as [e|cfg2] eqn:Hr; [by apply keeps_refl|]. apply RenderSpec_identity in Hr.
  pose proof (sameIdentity_owned _ _ Hr (sameIdentity_owned _ _ Hh Ho)) as Ho'. destruct Hr as (Hu' & _), Hh as (Hu1 & _). rewrite <- Hu, <- Hu1, <- Hu' in *.
  revert l Hl. change (Keeps u (accepted ← storeArtifact (sc_UUID cfg2) cfg2; if negb accepted then mret tt
    else mapping cfg2;; updateSnapshot;; updatePoliciesForAPI cfg2)). keep.
Qed.

Lemma Keeps_removeKeysOf u existing v : Keeps u (removeKeysOf existing v).
Proof. unfold removeKeysOf. keep. Qed.
#[local] Hint Resolve Keeps_removeKeysOf : listener.

(** What is in the store under an identifier belongs to it. *)
Lemma stored_owned l v : good l -> match ConfigStore_Get (el_store l) v with inr cfg => owned cfg /\ sc_UUID cfg = v | inl _ => True end.
Proof.
  intros Hl. unfold ConfigStore_Get. destruct (cs_configs (el_store l) !! v) as [cfg|] eqn:Hc; [|done]. split; [by eapply (gd_owned _ Hl)|].
  by apply (indexed_uuid _ (gd_indexed _ Hl)).
Qed.

Lemma Keeps_APIDelete_other u ev : ev_EntityID ev <> u -> Keeps u (handleAPIDelete now ev).
Proof.
  intros Hne l Hl. unfold handleAPIDelete. apply keeps_bind_reads. pose proof (stored_owned l (ev_EntityID ev) Hl) as Hs. revert Hs.
  generalize (ConfigStore_Get (el_store l) (ev_EntityID ev)). intros existing Hs. revert l Hl.
  match goal with |- forall l, good l -> keeps u l (?m l).1 => change (Keeps u m) end.
  destruct existing as [e|cfg]; [keep|]. destruct Hs as [Ho Hu]. assert (Hne' : sc_UUID cfg <> u) by congruence. pose proof (Keeps_deleteRuntime u cfg Ho Hne').
  repeat (apply Keeps_bind; [|intros ?]); try (solve [keep]). destruct (isEventAPI _); [|done].
  intros l Hl. apply (onPolicies_keeps u (handleKeyOf cfg)); [done|destruct Ho; congruence|]. intros pm pm' [= <-]. apply EventChannel_touches.
Qed.

Lemma Keeps_LLMDelete_other u mapping ev : (forall cfg, Keeps u (mapping cfg)) -> ev_EntityID ev <> u -> Keeps u (handleLLMDelete mapping ev).
Proof.
  intros Hm Hne l Hl. unfold handleLLMDelete. apply keeps_bind_reads. pose proof (stored_owned l (ev_EntityID ev) Hl) as Hs. revert Hs.
  generalize (ConfigStore_Get (el_store l) (ev_EntityID ev)). intros existing Hs. revert l Hl.
  match goal with |- forall l, good l -> keeps u l (?m l).1 => change (Keeps u m) end.
  destruct existing as [e|cfg]; [unfold deleteRuntime; keep|]. destruct Hs as [Ho Hu]. assert (Hne' : sc_UUID cfg <> u) by congruence. keep.
Qed.

Lemma Keeps_MCPDelete_other u ev : ev_EntityID ev <> u -> Keeps u (handleMCPProxyDelete ev).
Proof.
  intros Hne l Hl. unfold handleMCPProxyDelete. apply keeps_bind_reads. pose proof (stored_owned l (ev_EntityID ev) Hl) as Hs. revert Hs.
  generalize (ConfigStore_Get (el_store l) (ev_EntityID ev)). intros existing Hs. revert l Hl.
  match goal with |- forall l, good l -> keeps u l (?m l).1 => change (Keeps u m) end.
  destruct existing as [e|cfg]; [unfold deleteRuntime; keep|]. destruct Hs as [Ho Hu]. assert (Hne' : sc_UUID cfg <> u) by congruence. keep.
Qed.

(** *** Any event *)

Definition artifactTypes : list string := ["API"; "LLM_PROVIDER"; "LLM_PROXY"; "MCP_PROXY"].
Definition about (u : string) (ev : Event) : Prop := ev_EntityID ev = u /\ ev_EventType ev ∈ artifactTypes.

#[export] Instance about_dec u ev : Decision (about u ev).
Proof. unfold about. apply _. Defined.

Definition process (ev : Event) (l : Listener DB) : Listener DB := processEventSafely secretResolver listenerPort policyDefinitions now ev l.

Lemma artifactEvent_other u ev type : ev_EventType ev = type -> ¬ about u ev -> type ∈ artifactTypes -> ev_EntityID ev <> u.
Proof. intros Ht Ha Hin He. apply Ha. split; [done|]. by rewrite Ht. Qed.

Lemma other_event u ev l : identified -> good l -> ¬ about u ev -> keeps u l (process ev l).
Proof.
  intros Hid Hl Ha. unfold process, processEventSafely. revert l Hl. change (Keeps u (handleEvent secretResolver listenerPort policyDefinitions now ev)). unfold handleEvent.
  pose proof (Keeps_keyEvents u ev Hid) as [Hk1 Hk2]. pose proof (Keeps_template u ev) as [Ht1 Ht2]. pose proof (Keeps_application u ev Hid) as Happ.
  pose proof (Keeps_refreshSubscriptions u) as Hsub.
  destruct (String.eqb_spec (ev_EventType ev) "API") as [Ht|_].
  { apply artifactEvent_other with (u := u) in Ht; [|done|set_solver]. apply Keeps_byAction; [by apply Keeps_APIUpsert_other|by apply Keeps_APIDelete_other]. }
  destruct (String.eqb _ "API_KEY"); [by apply Keeps_byAction|]. destruct (String.eqb _ "SUBSCRIPTION"); [by apply Keeps_byAction|].
  destruct (String.eqb _ "SUBSCRIPTION_PLAN"); [by apply Keeps_byAction|]. destruct (String.eqb _ "APPLICATION"); [by apply Keeps_byAction|].
  pose proof HydrateLLM_identity as Hhl. pose proof HydrateMCP_identity as Hhm. pose proof (Keeps_syncMapping u) as Hsm. pose proof (Keeps_ret u tt) as Hret.
  destruct (String.eqb_spec (ev_EventType ev) "LLM_PROVIDER") as [Ht|_].
  { apply artifactEvent_other with (u := u) in Ht; [|done|set_solver]. apply Keeps_byAction; [by apply Keeps_derived_other; unfold identityKept; eauto|].
    apply Keeps_LLMDelete_other; [|done]. intros cfg. apply Keeps_removeMapping. }
  destruct (String.eqb_spec (ev_EventType ev) "LLM_PROXY") as [Ht|_].
  { apply artifactEvent_other with (u := u) in Ht; [|done|set_solver]. apply Keeps_byAction; [by apply Keeps_derived_other; unfold identityKept; eauto|].
    by apply Keeps_LLMDelete_other. }
  destruct (String.eqb _ "LLM_TEMPLATE"); [by apply Keeps_byAction|].
  destruct (String.eqb_spec (ev_EventType ev) "MCP_PROXY") as [Ht|_]; [|done].
  apply artifactEvent_other with (u := u) in Ht; [|done|set_solver]. apply Keeps_byAction; [by apply Keeps_derived_other; unfold identityKept; eauto|by apply Keeps_MCPDelete_other].
Qed.

(** Every event keeps the replica in order. *)
Lemma any_event ev l : identified -> good l -> good (process ev l) /\ transformer (process ev l) = transformer l /\ (is_Some (runtimeStore l) -> is_Some (runtimeStore (process ev l))).
Proof.
  intros Hid Hl. destruct (other_event ("x" +:+ ev_EntityID ev) ev l Hid Hl) as [Hg _ _ _ Ht Hr]; [|done].
  intros [He _]. apply (f_equal String.length) in He. change (String.length (ev_EntityID ev) = S (String.length (ev_EntityID ev))) in He. lia.
Qed.

(** ** The last event of an artifact *)

Definition derived (kind : string) (hydrate : GoM StoredConfig unit) (cfg : StoredConfig) : option StoredConfig :=
  if negb (String.eqb (sc_Kind cfg) kind) then None else match hydrate cfg with Ok cfg' _ => Some cfg' | _ => None end.

(** The artifact as the replicas are to have it. *)
Definition hydrated (type : string) (cfg : StoredConfig) : option StoredConfig :=
  if String.eqb type "API" then Some cfg
  else if String.eqb type "LLM_PROVIDER" then derived "LlmProvider" (hydrateLLMConfig listenerPort policyDefinitions D) cfg
  else if String.eqb type "LLM_PROXY" then derived "LlmProxy" (hydrateLLMConfig listenerPort policyDefinitions D) cfg
  else if String.eqb type "MCP_PROXY" then derived "Mcp" HydrateStoredMCPConfig cfg
  else None.

Definition expected (type u : string) : option StoredConfig :=
  match db_GetConfig D u with
  | inl _ => None
  | inr cfg => cfg' ← hydrated type cfg; match RenderSpec secretResolver cfg' with inr c => Some c | inl _ => None end
  end.

(** The replica has the artifact, and serves it. *)
Record ended (l0 : Listener DB) (cfg : StoredConfig) (l : Listener DB) : Prop := {
  en_good : good l;
  en_artifact : artifact l (sc_UUID cfg) = Some cfg;
  en_runtime f rdc : transformer l0 = Some f -> f cfg tt = Ok tt rdc -> isEventAPI (sc_Kind cfg) = false -> is_Some (runtimeStore l0) ->
    runtime l (handleKeyOf cfg) = Some rdc
}.

Lemma ended_keeps l0 cfg l l' : owned cfg -> ended l0 cfg l -> keeps (sc_UUID cfg) l l' -> ended l0 cfg l'.
Proof.
  intros [Ho _] [Hg Ha Hr] [Hg' Hs _ Hrt _ _]. split; [done|by apply Hs|]. intros f rdc Hf Hrdc He Hst. rewrite Hrt by done. eauto.
Qed.

Lemma ended_before u cfg l0 l1 l : keeps u l0 l1 -> ended l1 cfg l -> ended l0 cfg l.
Proof. intros [_ _ _ _ Ht Hr] [Hg Ha Hrt]. split; [done..|]. intros f rdc Hf Hrdc He Hst. apply (Hrt f); try done; [congruence|auto]. Qed.

Lemma policies_end l cfg : good l -> artifact l (sc_UUID cfg) = Some cfg -> ended l cfg (updatePoliciesForAPI cfg l).1.
Proof.
  intros Hl Ha. unfold updatePoliciesForAPI. destruct (isEventAPI (sc_Kind cfg)) eqn:Hk.
  - destruct (onPolicies_artifacts (fun pm => Some (UpdateEventChannelSnapshot pm)) l Hl) as [Hg Hs]. split; [done|unfold artifact; by rewrite Hs|congruence].
  - destruct (onPolicies_artifacts (fun pm => fst <$> UpsertAPIConfig cfg pm) l Hl) as [Hg Hs]. split; [done|unfold artifact; by rewrite Hs|].
    intros f rdc Hf Hr _ Hst. unfold onPolicies. unfold transformer in Hf. unfold runtimeStore in Hst. destruct (el_policyManager l) as [pm|]; [|done]. cbn in Hf, Hst.
    destruct (Upsert_spec cfg (sharing (el_store l) pm) f rdc) as (pm' & Hu & Hrt); [done..|]. rewrite Hu. cbn. exact Hrt.
Qed.

Lemma ended_after u l' cfg : good l' -> owned cfg -> sc_UUID cfg = u -> artifact l' u = Some cfg -> forall m : LM DB unit, Keeps u m -> (forall s, (m s).2 = Some tt) ->
  forall k : LM DB unit, (forall l1, good l1 -> artifact l1 u = Some cfg -> ended l1 cfg (k l1).1) -> ended l' cfg ((m ≫= fun _ => k) l').1.
Proof.
  intros Hl Ho Hu Ha m Hm Hret k Hk. pose proof (Hm l' Hl) as Hkeep. unfold mbind, LM_bind. pose proof (Hret l') as Hs.
  destruct (m l') as [l1 [[]|]]; [|done]. cbn in *. eapply ended_before; [exact Hkeep|]. apply Hk; [apply Hkeep|by apply Hkeep].
Qed.

Lemma ended_store cs l cfg l' : ended (set_store cs l) cfg l' -> ended l cfg l'.
Proof. intros [Hg Ha Hr]. by split. Qed.

Lemma updateSnapshot_returns (s : Listener DB) : (updateSnapshot s).2 = Some tt.
Proof. unfold updateSnapshot. destruct (el_envoy s); [|done]. by destruct (envoySnapshot _). Qed.

Lemma syncMapping_returns cfg (s : Listener DB) : (syncProviderTemplateMapping cfg s).2 = Some tt.
Proof.
  unfold syncProviderTemplateMapping, removeProviderTemplateMapping, mbind, LM_bind, onLazy. repeat case_match; simplify_eq; done.
Qed.

Lemma API_upsert_end ev l cfg : identified -> good l -> expected "API" (ev_EntityID ev) = Some cfg ->
  sc_UUID cfg = ev_EntityID ev /\ owned cfg /\ ended l cfg (handleAPICreateOrUpdate secretResolver ev l).1.
Proof.
  intros Hid Hl He. unfold expected in He. destruct (db_GetConfig D (ev_EntityID ev)) as [e|cfg0] eqn:Hc; [done|]. destruct (Hid _ _ Hc) as [Hu Ho]. cbn in He.
  destruct (RenderSpec secretResolver cfg0) as [e|cfg1] eqn:Hr; [done|]. injection He as ->. pose proof (RenderSpec_identity _ _ Hr) as Hsi.
  pose proof (sameIdentity_owned _ _ Hsi Ho) as Ho'. assert (Hu' : sc_UUID cfg = ev_EntityID ev) by (destruct Hsi as (? & _); congruence). split_and!; [done..|].
  unfold handleAPICreateOrUpdate. rewrite bind_reads, (proj1 (gd_db _ Hl)), Hc, Hr, <- Hu'.
  destruct (storeArtifact_spec l cfg Hl Ho') as (cs & Hst & Hcs & Hg). unfold mbind at 1, LM_bind at 1. rewrite Hst. cbn [negb].
  assert (Ha : artifact (set_store cs l) (sc_UUID cfg) = Some cfg) by (unfold artifact; cbn; rewrite Hcs; by rewrite lookup_insert_eq).
  apply (ended_store cs). eapply (ended_after (sc_UUID cfg)); [done|done|done|done| | |].
  - destruct (isEventAPI _); [apply Keeps_ret|apply Keeps_updateSnapshot].
  - intros s. destruct (isEventAPI _); [done|apply updateSnapshot_returns].
  - intros l1 Hg1 Ha1. pose proof (policies_end l1 cfg Hg1 Ha1) as Hend. unfold mbind, LM_bind. destruct (updatePoliciesForAPI cfg l1) as [l2 [[]|]]; [|done].
    eapply ended_keeps; [done|exact Hend|]. apply Keeps_syncAPIKeys, Hend.
Qed.

Lemma derived_upsert_end kind (hydrate : DB -> GoM StoredConfig unit) mapping ev l cfg0 cfg : identified -> good l -> identityKept hydrate ->
  hydrate (el_db l) = hydrate D -> (forall u c, Keeps u (mapping c)) -> (forall c s, (mapping c s).2 = Some tt) ->
  db_GetConfig D (ev_EntityID ev) = inr cfg0 -> (cfg' ← derived kind (hydrate D) cfg0; match RenderSpec secretResolver cfg' with inr c => Some c | inl _ => None end) = Some cfg ->
  sc_UUID cfg = ev_EntityID ev /\ owned cfg /\ ended l cfg (handleDerivedCreateOrUpdate secretResolver kind hydrate mapping ev l).1.
Proof.
  intros Hid Hl Hik Hdb Hm Hmr Hc He. destruct (Hid _ _ Hc) as [Hu Ho]. unfold derived in He. destruct (negb (String.eqb (sc_Kind cfg0) kind)) eqn:Hk; [done|].
  destruct (hydrate D cfg0) as [cfg1 []| |] eqn:Hh; [|done..]. cbn in He. destruct (RenderSpec secretResolver cfg1) as [e|cfg2] eqn:Hr; [done|]. injection He as ->.
  pose proof (RenderSpec_identity _ _ Hr) as Hs2. pose proof (Hik _ _ _ Hh) as Hs1.
  pose proof (sameIdentity_owned _ _ Hs2 (sameIdentity_owned _ _ Hs1 Ho)) as Ho'.
  assert (Hu' : sc_UUID cfg = ev_EntityID ev) by (destruct Hs1 as (? & _), Hs2 as (? & _); congruence). split_and!; [done..|].
  unfold handleDerivedCreateOrUpdate. rewrite bind_reads, (proj1 (gd_db _ Hl)), Hc, Hk.
  rewrite bind_reads, Hdb, Hh, Hr, <- Hu'.
  destruct (storeArtifact_spec l cfg Hl Ho') as (cs & Hst & Hcs & Hg). unfold mbind at 1, LM_bind at 1. rewrite Hst. cbn [negb].
  assert (Ha : artifact (set_store cs l) (sc_UUID cfg) = Some cfg) by (unfold artifact; cbn; rewrite Hcs; by rewrite lookup_insert_eq).
  apply (ended_store cs). eapply (ended_after (sc_UUID cfg)); [done|done|done|done|apply Hm|apply Hmr|]. intros l1 Hg1 Ha1.
  eapply (ended_after (sc_UUID cfg)); [done|done|done|done|apply Keeps_updateSnapshot|apply updateSnapshot_returns|]. intros l2 Hg2 Ha2. by apply policies_end.
Qed.

Definition upserts (ev : Event) : Prop := ev_Action ev = "CREATE" \/ ev_Action ev = "UPDATE".

#[export] Instance upserts_dec ev : Decision (upserts ev).
Proof. unfold upserts. apply _. Defined.

Lemma byAction_upsert (f g : Event -> LM DB unit) ev l : upserts ev -> byAction f g ev l = f ev l.
Proof. unfold byAction. by intros [-> | ->]. Qed.

Lemma byAction_delete (f g : Event -> LM DB unit) ev l : ev_Action ev = "DELETE" -> byAction f g ev l = g ev l.
Proof. unfold byAction. by intros ->. Qed.

(** An event that creates or updates the artifact. *)
Lemma upsert_end ev l cfg : identified -> good l -> upserts ev -> expected (ev_EventType ev) (ev_EntityID ev) = Some cfg ->
  sc_UUID cfg = ev_EntityID ev /\ owned cfg /\ ended l cfg (process ev l).
Proof.
  intros Hid Hl Hup He. unfold process, processEventSafely, handleEvent. assert (Hllm : hydrateLLMConfig listenerPort policyDefinitions (el_db l) = hydrateLLMConfig listenerPort policyDefinitions D)
    by (unfold hydrateLLMConfig; by rewrite (proj2 (gd_db _ Hl))).
  pose proof HydrateLLM_identity as Hhl. pose proof HydrateMCP_identity as Hhm. pose proof (fun u => Keeps_syncMapping u) as Hsm. pose proof (fun u => Keeps_ret u tt) as Hret.
  unfold expected in He. destruct (db_GetConfig D (ev_EntityID ev)) as [e|cfg0] eqn:Hc; [done|]. unfold hydrated in He.
  destruct (String.eqb_spec (ev_EventType ev) "API") as [Ht|Hn].
  { unfold processAPIEvent. rewrite byAction_upsert by done. apply API_upsert_end; [done..|]. unfold expected. rewrite Hc. exact He. }
  destruct (String.eqb_spec (ev_EventType ev) "LLM_PROVIDER") as [Ht|Hn1].
  { rewrite Ht. unfold processLLMProviderEvent. cbn [String.eqb Ascii.eqb Bool.eqb]. rewrite byAction_upsert by done.
    eapply derived_upsert_end; try done; unfold identityKept; eauto using syncMapping_returns. }
  destruct (String.eqb_spec (ev_EventType ev) "LLM_PROXY") as [Ht|Hn2].
  { rewrite Ht. unfold processLLMProxyEvent. cbn [String.eqb Ascii.eqb Bool.eqb]. rewrite byAction_upsert by done.
    eapply derived_upsert_end; try done; unfold identityKept; eauto. }
  destruct (String.eqb_spec (ev_EventType ev) "MCP_PROXY") as [Ht|Hn3]; [|done].
  rewrite Ht. unfold processMCPProxyEvent. cbn [String.eqb Ascii.eqb Bool.eqb]. rewrite byAction_upsert by done.
  eapply (derived_upsert_end "Mcp" (fun _ => HydrateStoredMCPConfig)); try done; unfold identityKept; eauto.
Qed.

(** *** Deletions *)

Definition gone (u : string) (l : Listener DB) : Prop := good l /\ artifact l u = None.
Definition Gone {A} (u : string) (m : LM DB A) : Prop := forall l, gone u l -> gone u (m l).1.

Section Deleted.
Context (u e : string) (Hd : db_GetConfig D u = inl e).

Lemma Gone_Keeps {A} (m : LM DB A) : Keeps u m -> Gone u m.
Proof. intros Hm l [Hg Ha]. pose proof (Hm l Hg) as Hk. split; [apply Hk|]. by eapply (kp_none _ _ _ Hk). Qed.

Lemma Gone_bind {A B} (m : LM DB A) (k : A -> LM DB B) : Gone u m -> (forall a, Gone u (k a)) -> Gone u (m ≫= k).
Proof. intros Hm Hk l Hl. specialize (Hm l Hl). unfold mbind, LM_bind. destruct (m l) as [l' [a|]]; [by apply Hk|done]. Qed.

Lemma Gone_onPolicies op : Gone u (onPolicies op).
Proof. intros l [Hg Ha]. destruct (onPolicies_artifacts op l Hg) as [Hg' Hs]. split; [done|]. unfold artifact. by rewrite Hs. Qed.

Lemma Gone_deleteRuntime existing : Gone u (deleteRuntime existing).
Proof. destruct existing; [apply Gone_Keeps, Keeps_ret|apply Gone_onPolicies]. Qed.

Ltac gone_steps := repeat (apply Gone_bind; [|intros ?]);
  try (solve [apply Gone_deleteRuntime | apply Gone_onPolicies
             | apply Gone_Keeps; repeat match goal with |- Keeps _ (match ?x with _ => _ end) => destruct x end; eauto with listener]).

(** After the deletion itself the rest of a handler brings nothing back. *)
Lemma deletion_end {A} (k : option string -> LM DB A) l : good l -> (forall a, Gone u (k a)) -> gone u ((onStore (ConfigStore_Delete u) ≫= k) l).1.
Proof.
  intros Hl Hk. unfold mbind, LM_bind. destruct (onStore_Delete_spec l u Hl) as (cs & er & -> & Hcs & Hg). apply Hk. split; [done|].
  unfold artifact. cbn. rewrite Hcs. by rewrite lookup_delete_eq.
Qed.

Lemma delete_end ev l : good l -> ev_EntityID ev = u -> ev_EventType ev ∈ artifactTypes -> ev_Action ev = "DELETE" -> gone u (process ev l).
Proof.
  intros Hl Hu Hty Hact. unfold process, processEventSafely, handleEvent.
  assert (Hllm : forall mapping, (forall cfg, Keeps u (mapping cfg)) -> gone u (handleLLMDelete mapping ev l).1).
  { intros mapping Hm. unfold handleLLMDelete. rewrite bind_reads, Hu. apply deletion_end; [done|]. intros a. destruct (failed a); [apply Gone_Keeps, Keeps_ret|]. gone_steps. }
  unfold artifactTypes in Hty. rewrite !elem_of_cons in Hty. destruct Hty as [Ht|[Ht|[Ht|[Ht|Ht]]]]; [..|by apply not_elem_of_nil in Ht]; rewrite Ht; cbn [String.eqb Ascii.eqb Bool.eqb].
  - unfold processAPIEvent. rewrite byAction_delete by done. unfold handleAPIDelete. rewrite bind_reads, Hu. apply deletion_end; [done|]. intros a.
    destruct (ConfigStore_Get (el_store l) u) as [er|cfg]; gone_steps. destruct (isEventAPI _); [apply Gone_onPolicies|apply Gone_deleteRuntime].
  - unfold processLLMProviderEvent. rewrite byAction_delete by done. apply Hllm. intros cfg. apply Keeps_removeMapping.
  - unfold processLLMProxyEvent. rewrite byAction_delete by done. apply Hllm. intros cfg. apply Keeps_ret.
  - unfold processMCPProxyEvent. rewrite byAction_delete by done. unfold handleMCPProxyDelete. rewrite bind_reads, Hu. apply deletion_end; [done|]. intros a.
    destruct (failed a); [apply Gone_Keeps, Keeps_ret|]. gone_steps.
Qed.

End Deleted.

(** ** All events *)

Definition processAll (evs : list Event) (l : Listener DB) : Listener DB := processEvents secretResolver listenerPort policyDefinitions now evs l.

Lemma processAll_app evs1 evs2 l : processAll (evs1 ++ evs2) l = processAll evs2 (processAll evs1 l).
Proof. unfold processAll, processEvents. by rewrite foldl_app. Qed.

Lemma processAll_good evs l : identified -> good l ->
  good (processAll evs l) /\ transformer (processAll evs l) = transformer l /\ (is_Some (runtimeStore l) -> is_Some (runtimeStore (processAll evs l))).
Proof.
  intros Hid. revert l. induction evs as [|ev evs IH]; intros l Hl; [done|]. destruct (any_event ev l Hid Hl) as (Hg & Ht & Hr).
  destruct (IH _ Hg) as (Hg' & Ht' & Hr'). change (processAll (ev :: evs) l) with (processAll evs (process ev l)). split_and!; [done|congruence|auto].
Qed.

Lemma processAll_keeps u evs l : identified -> good l -> Forall (fun ev => ¬ about u ev) evs -> keeps u l (processAll evs l).
Proof.
  intros Hid Hl Hf. revert l Hl. induction Hf as [|ev evs Hev Hf IH]; intros l Hl; [by apply keeps_refl|].
  pose proof (other_event u ev l Hid Hl Hev) as Hk. eapply keeps_trans; [exact Hk|]. apply IH, Hk.
Qed.

Lemma last_filter_split {A} (P : A -> Prop) `{!forall x, Decision (P x)} (l : list A) x : last (filter P l) = Some x ->
  exists l1 l2, l = (l1 ++ x :: l2)%list /\ P x /\ Forall (fun y => ¬ P y) l2.
Proof.
  intros Hl. destruct (last_filter_Some P l x Hl) as (l1 & l2 & -> & Hf). exists l1, l2. split_and!; [done| |done].
  by apply last_Some_elem_of, list_elem_of_filter in Hl as [Hx _].
Qed.

Lemma none_filtered {A} (P : A -> Prop) `{!forall x, Decision (P x)} (l : list A) : Forall (fun x => ¬ P x) l -> filter P l = [].
Proof. induction 1 as [|x l Hx _ IH]; [done|]. by rewrite filter_cons, decide_False. Qed.

(** The last element with a property among those that remain. *)
Lemma last_filter_after (P : Event -> Prop) `{!forall e, Decision (P e)} L hist ev : last (filter P hist) = Some ev -> (L < ts ev)%Z ->
  last (filter P (after L hist)) = Some ev.
Proof.
  intros (h1 & h2 & -> & Hev & Hf)%last_filter_split Hts. unfold after. rewrite filter_app, filter_cons, decide_True by done. rewrite filter_app, filter_cons, decide_True by done.
  rewrite last_app, last_cons. replace (filter P (filter _ h2)) with (@nil Event); [done|]. symmetry. apply none_filtered. rewrite Forall_forall in *.
  intros e [_ He]%list_elem_of_filter. by apply Hf.
Qed.

Lemma last_pending {A} (P : A -> Prop) `{!forall e, Decision (P e)} (l1 l2 : list A) x : last (filter P (l1 ++ l2)%list) = Some x -> x ∉ l1 -> last (filter P l2) = Some x.
Proof.
  rewrite filter_app, last_app. destruct (last (filter P l2)) eqn:Hl; [done|]. intros Hx Hn. exfalso. apply Hn.
  apply last_Some_elem_of in Hx. by apply list_elem_of_filter in Hx as [_ Hx].
Qed.

Lemma converges evs l u ev : identified -> good l -> last (filter (about u) evs) = Some ev ->
  (upserts ev -> forall cfg, expected (ev_EventType ev) u = Some cfg -> sc_UUID cfg = u /\ ended l cfg (processAll evs l)) /\
  (ev_Action ev = "DELETE" -> forall e, db_GetConfig D u = inl e -> gone u (processAll evs l)).
Proof.
  intros Hid Hl (evs1 & evs2 & -> & [Hu Hty] & Hf)%last_filter_split. rewrite processAll_app. destruct (processAll_good evs1 l Hid Hl) as (Hg & Ht & Hr).
  set (l1 := processAll evs1 l) in *. change (processAll (ev :: evs2) l1) with (processAll evs2 (process ev l1)). destruct (any_event ev l1 Hid Hg) as (Hg1 & _).
  pose proof (processAll_keeps u evs2 (process ev l1) Hid Hg1 Hf) as Hk. split.
  - intros Hup cfg He. rewrite <- Hu in He. destruct (upsert_end ev l1 cfg Hid Hg Hup He) as (Huc & Ho & Hend). split; [congruence|].
    assert (ended l1 cfg (processAll evs2 (process ev l1))) as [Hg' Ha' Hrt]; [eapply ended_keeps; [done|exact Hend|]; by rewrite Huc, Hu|].
    split; [done..|]. intros f rdc Hf' Hrdc Hev Hst. apply (Hrt f); try done; [congruence|auto].
  - intros Hact e He. destruct (delete_end u e He ev l1 Hg Hu Hty Hact) as [_ Hn]. split; [apply Hk|]. by eapply (kp_none _ _ _ Hk).
Qed.

(** What the last event [ev] of artifact [u] makes of a replica [l] by the time
    it is [l']: the artifact is there as the database has it, and served, or it
    is gone. *)
Record settled (ev : Event) (u : string) (l l' : Listener DB) : Prop := {
  se_stored cfg : upserts ev -> expected (ev_EventType ev) u = Some cfg -> artifact l' u = Some cfg;
  se_served cfg f rdc : upserts ev -> expected (ev_EventType ev) u = Some cfg -> transformer l = Some f -> f cfg tt = Ok tt rdc ->
    isEventAPI (sc_Kind cfg) = false -> is_Some (runtimeStore l) -> runtime l' (handleKeyOf cfg) = Some rdc;
  se_deleted e : ev_Action ev = "DELETE" -> db_GetConfig D u = inl e -> artifact l' u = None
}.

Lemma converges_settled evs l u ev : identified -> good l -> last (filter (about u) evs) = Some ev -> settled ev u l (processAll evs l).
Proof.
  intros Hid Hl Hlast. destruct (converges evs l u ev Hid Hl Hlast) as [Hup Hde]. split.
  - intros cfg Hu He. destruct (Hup Hu cfg He) as [<- Hend]. apply Hend.
  - intros cfg f rdc Hu He. destruct (Hup Hu cfg He) as [_ Hend]. by apply (en_runtime _ _ _ Hend).
  - intros e Ha He. by destruct (Hde Ha e He).
Qed.

End Converge.

(** C14: replicas converge: let the database rest, with every kind and handle
    and every name and version belonging to one artifact.  However a replica in
    order starts, once it has processed a sequence of events the last of which
    for an artifact is [ev], its store has the artifact exactly as the database
    has it, derived from its source where it is an LLM provider, LLM proxy or
    MCP proxy and with its templates rendered, and the runtime configuration
    made of it is the one under its kind and handle; after a deletion the store
    no longer has it.  This holds whatever the other events are, of other
    artifacts, keys, templates, subscriptions or applications, before, between
    and after, and although errors end handlers and panics are recovered. *)
Theorem replicas_converge `{StorageLaws DB, MapRange, RegistryRange, SnapshotWire, TimeJSON, YamlUnmarshal, ConfigJSON, TextTemplate, EnvoySnapshots, ListenerJSON}
    (secretResolver : string -> string + string) (listenerPort : Z) (policyDefinitions : PolicyDefinitions) (now : Z) (D : DB) (ownerH ownerN : string -> string)
    (l : Listener DB) (evs : list Event) (u : string) (ev : Event) :
  identified D ownerH ownerN -> good D ownerH ownerN l -> last (filter (about u) evs) = Some ev ->
  settled secretResolver listenerPort policyDefinitions D ev u l (processEvents secretResolver listenerPort policyDefinitions now evs l).
Proof. apply converges_settled. Qed.

(** C15: a change of the database arrives: in any admissible run of the event
    hub (event times strictly increasing with the commits, fresh versions, no
    event deleted before it is delivered, the hub not closed:
    [EventDelivery.admissible]) in which the gateway has delivered, when the
    last event committed for an artifact is one that a listener has not yet
    read, then as many rounds of reading and polling as there are hundreds of
    events left, in which the tables can be read for the gateway, succeed, and
    the listener that processes what it reads in them ends with the artifact
    as the database has it (the database and the listener in order: [good],
    [identified]).  Runs with equal or decreasing event times are excluded;
    in them a change can be lost: [EventDelivery.late_commit_is_lost],
    [EventDelivery.burst_blocks_the_gateway]. *)
Theorem changes_reach_replicas `{EventOrder, StorageLaws DB, MapRange, RegistryRange, SnapshotWire, TimeJSON, YamlUnmarshal, ConfigJSON, TextTemplate, EnvoySnapshots, ListenerJSON}
    (secretResolver : string -> string + string) (listenerPort : Z) (policyDefinitions : PolicyDefinitions) (now : Z) (D : DB) (ownerH ownerN : string -> string)
    (g : string) (s : SQLBackend) (x : Ghost) (gw : gateway) (c : nat) (L : Z) (polls : list ((Stmt -> option string) * Z * nat)) (ch : channel)
    (l : Listener DB) (u : string) (ev : Event) :
  run g s x -> g <> "" -> sb_registry s !! g = Some gw -> c ∈ gw_subscribers gw -> gh_start x !! c = Some L -> sb_channels s !! c = Some ch ->
  Forall (fun p => (forall cursor, p.1.1 (StStatesPage cursor) = None) /\ p.1.1 (StEvents g) = None) polls ->
  (length (after (gw_lastPolled gw) (gh_hist x)) <= channelCap * length polls)%nat ->
  identified D ownerH ownerN -> good D ownerH ownerN l ->
  last (filter (about u) (gh_hist x)) = Some ev -> (L < ts ev)%Z -> ev ∉ ch_taken ch ->
  exists s' ch' new, rounds g polls s = Ok s' tt /\ sb_channels s' !! c = Some ch' /\ ch_taken ch' = (ch_taken ch ++ new)%list /\
    settled secretResolver listenerPort policyDefinitions D ev u l (processEvents secretResolver listenerPort policyDefinitions now new l).
Proof.
  intros Hrun Hg Hgw Hc HL Hch Hf Hlen Hid Hl Hlast Hts Hnew.
  destruct (catch_up g s x gw c L polls Hrun Hg Hgw Hc HL Hf Hlen) as (s' & ch0 & ch' & Hr & Hch0 & Hch' & _ & Ht & [new Hpre]).
  assert (ch0 = ch) as -> by congruence. exists s', ch', new. split_and!; [done..|]. eapply converges_settled; [done..|].
  eapply last_pending; [|exact Hnew]. rewrite <- Hpre, Ht. by apply last_filter_after.
Qed.

(** ** A replica *)

Section Samples.
#[local] Existing Instance MapRange_list.
#[local] Existing Instance RegistryRange_list.
#[local] Existing Instance EventOrder_stable.
#[local] Existing Instance plainYaml.
#[local] Existing Instance SampleKeys.times.
#[local] Existing Instance SampleWire.codec.
#[local] Existing Instance SampleWire.wire.
#[local] Existing Instance SampleApi.plainUrls.

(** A database of artifacts; nothing else is in it. *)
#[local] Instance artifactsOnly : Storage (gmap string StoredConfig) := {|
  db_GetConfig m u := match m !! u with Some cfg => inr cfg | None => inl (ErrNotFound +:+ ": id=" +:+ u) end;
  db_GetAPIKeyByID _ _ := inl ErrNotFound;
  db_GetAPIKeysByAPI _ _ := inr [];
  db_GetAPIKeysByApplicationUUID _ _ := inr [];
  db_GetLLMProviderTemplate _ _ := inl ErrNotFound;
  db_DeleteSubscriptionsForAPINotIn m _ := inr m;
  db_llm _ := mkLLMStorage (fun _ _ => inr None) (fun _ => inl ErrNotFound);
  db_ListConfigs m := inr (Some <$> (range m).*2);
  db_ListSubscriptionPlans _ := inr [];
  db_ListActiveSubscriptions _ := inr []
|}.

#[local] Instance artifactsOnly_laws : StorageLaws (gmap string StoredConfig).
Proof. intros m u m' [= <-]. by split. Qed.

(** Configurations without templates in them. *)
#[local] Instance noSpecs : ConfigJSON := {| marshal _ := inr []; unmarshal c _ := inr c |}.
#[local] Instance plainText : TextTemplate := {| render _ text := inr (text, []) |}.
#[local] Instance anyEnvoy : EnvoySnapshots := {| envoySnapshot _ := EnvoyPublished |}.
#[local] Instance noJSON : ListenerJSON := {| templateJSON _ := inl "none"; removedAPIKeyIDs _ := inr [] |}.

Definition noSecrets (name : string) : string + string := inl "no secrets".

Definition restOnly (cfg : StoredConfig) : GoM unit RuntimeDeployConfig := fun _ =>
  match RestTransform.Transform SampleApi.transformer cfg with inr rdc => Ok tt rdc | inl e => Err tt e end.

Definition replicaOf (m : gmap string StoredConfig) (cs : ConfigStore) : Listener (gmap string StoredConfig) :=
  mkListener m cs (Some []) None None None (Some (mkPolicyManager (mkSnapshotManager [] [] [] (Some cs) (Some NewRuntimeConfigStore) None) (Some restOnly))).

Definition follows (m : gmap string StoredConfig) (evs : list Event) (l : Listener (gmap string StoredConfig)) : Listener (gmap string StoredConfig) :=
  processEvents noSecrets 8080 sampleDefinitions 0 evs (set_db m l).

Definition eventOf (type action entity : string) : Event := mkEvent "gw" 0 0 type action entity "" "".

(** One API is left in the database. *)
Definition storedAPI : StoredConfig :=
  mkStoredConfig "b" "RestApi" "books" "Books" "v1" (CfgRestAPI SampleApi.artifact) (CfgRestAPI SampleApi.artifact) [].
Definition oneAPI : gmap string StoredConfig := {["b" := storedAPI]}.
Definition owner (key : string) : string := "b".

Lemma oneAPI_identified : identified oneAPI owner owner.
Proof.
  intros u cfg Hc. cbn in Hc. unfold oneAPI in Hc. destruct (decide (u = "b")) as [->|Hu].
  - rewrite lookup_singleton_eq in Hc. by injection Hc as <-.
  - by rewrite lookup_singleton_ne in Hc.
Qed.

Lemma empty_good : good oneAPI owner owner (replicaOf oneAPI NewConfigStore).
Proof. split; [apply new_store_indexed|done..]. Qed.

(** The API was deployed again after its deletion; other things happen. *)
Definition sampleEvents : list Event :=
  [eventOf "API" "DELETE" "b"; eventOf "LLM_PROVIDER" "CREATE" "0007"; eventOf "API" "CREATE" "b"; eventOf "API_KEY" "CREATE" "b_k"; eventOf "API" "DELETE" "0008"].

Lemma rest_of_stored : exists cfg rdc, expected noSecrets 8080 sampleDefinitions oneAPI "API" "b" = Some cfg /\ restOnly cfg tt = Ok tt rdc /\
  isEventAPI (sc_Kind cfg) = false /\ handleKeyOf cfg = "RestApi:books".
Proof.
  assert (match expected noSecrets 8080 sampleDefinitions oneAPI "API" "b" with
          | Some cfg => match restOnly cfg tt with Ok _ _ => true | _ => false end && negb (isEventAPI (sc_Kind cfg)) && String.eqb (handleKeyOf cfg) "RestApi:books"
          | None => false end = true) as E by (by vm_compute).
  destruct (expected _ _ _ _ _ _) as [cfg|]; [|done]. exists cfg. destruct (restOnly cfg tt) as [[] rdc| |]; [|done..]. exists rdc.
  destruct (isEventAPI (sc_Kind cfg)); [done|]. destruct (String.eqb_spec (handleKeyOf cfg) "RestApi:books"); [|done]. done.
Qed.

Lemma replicas_converge_witness :
  exists cfg rdc, artifact (follows oneAPI sampleEvents (replicaOf oneAPI NewConfigStore)) "b" = Some cfg /\
    runtime (follows oneAPI sampleEvents (replicaOf oneAPI NewConfigStore)) "RestApi:books" = Some rdc.
Proof.
  destruct rest_of_stored as (cfg & rdc & He & Hr & Hk & <-). exists cfg, rdc.
  destruct (replicas_converge noSecrets 8080 sampleDefinitions 0 oneAPI owner owner (replicaOf oneAPI NewConfigStore) sampleEvents "b" (eventOf "API" "CREATE" "b")
    oneAPI_identified empty_good) as [Hst Hsv _].
  - vm_compute. reflexivity.
  - split.
    + apply Hst; [left; reflexivity|exact He].
    + apply (Hsv cfg restOnly rdc); [left; reflexivity|exact He|reflexivity|exact Hr|exact Hk|eexists; reflexivity].
Defined.

#[local] Instance Event_eq_dec : EqDecision Event.
Proof. solve_decision. Defined.

Lemma sample_pending : exists ch ev, sb_channels (sample 5).1 !! 0%nat = Some ch /\ last (filter (about "b") (gh_hist (sample 5).2)) = Some ev /\
  (day + 10 - initialPollSkewWindow - 1 < ts ev)%Z /\ ev ∉ ch_taken ch /\ ev_EventType ev = "API" /\ upserts ev.
Proof.
  assert (match sb_channels (sample 5).1 !! 0%nat, last (filter (about "b") (gh_hist (sample 5).2)) with
          | Some ch, Some ev => bool_decide ((day + 10 - initialPollSkewWindow - 1 < ts ev)%Z /\ ev ∉ ch_taken ch /\ ev_EventType ev = "API" /\ upserts ev)
          | _, _ => false end = true) as E by (by vm_compute).
  destruct (sb_channels _ !! _) as [ch|]; [|done]. destruct (last _) as [ev|]; [|done]. apply bool_decide_eq_true in E. by exists ch, ev.
Qed.

(** The gateway of the event hub has delivered an event of another API; that
    of this one is on its way. *)
Lemma changes_reach_replicas_witness :
  exists s' ch' ch new cfg rdc, rounds "gw" [(noFault, (day + 30)%Z, 0%nat)] (sample 5).1 = Ok s' tt /\ sb_channels s' !! 0%nat = Some ch' /\
    ch_taken ch' = (ch_taken ch ++ new)%list /\ artifact (follows oneAPI new (replicaOf oneAPI NewConfigStore)) "b" = Some cfg /\
    runtime (follows oneAPI new (replicaOf oneAPI NewConfigStore)) "RestApi:books" = Some rdc.
Proof.
  destruct rest_of_stored as (cfg & rdc & He & Hr & Hk & <-). destruct sample_pending as (ch & ev & Hch & Hlast & Hts & Hnew & Hty & Hup).
  destruct (changes_reach_replicas noSecrets 8080 sampleDefinitions 0 oneAPI owner owner "gw" (sample 5).1 (sample 5).2 sampleGateway 0
    (day + 10 - initialPollSkewWindow - 1) [(noFault, (day + 30)%Z, 0%nat)] ch (replicaOf oneAPI NewConfigStore) "b" ev sample_run) as (s' & ch' & new & Hro & Hch' & Ht & [Hst Hsv _]).
  - done.
  - vm_compute. reflexivity.
  - apply (bool_decide_unpack _). vm_compute. exact I.
  - vm_compute. reflexivity.
  - exact Hch.
  - repeat constructor.
  - apply Nat.leb_le. vm_compute. reflexivity.
  - exact oneAPI_identified.
  - exact empty_good.
  - exact Hlast.
  - exact Hts.
  - exact Hnew.
  - rewrite Hty in *. exists s', ch', ch, new, cfg, rdc. split_and!; [done..|by apply Hst|by apply (Hsv cfg restOnly rdc)].
Defined.

(** Names can move: here two artifacts exchange theirs, which takes an update
    of the one, of the other and of the first again.  A replica that processes
    the three events once all are done finds the name of either taken by the
    other each time, refuses it and keeps the old names. *)
Definition named (u name : string) : StoredConfig :=
  mkStoredConfig u "RestApi" u name "v1" (CfgRestAPI SampleApi.artifact) (CfgRestAPI SampleApi.artifact) [].
Definition renamed : gmap string StoredConfig := <["a" := named "a" "Pets"]> {["b" := named "b" "Books"]}.
Definition beforeRenaming : gmap string StoredConfig := <["a" := named "a" "Books"]> {["b" := named "b" "Pets"]}.

Example exchanged_names_never_arrive :
  let l := follows beforeRenaming [eventOf "API" "CREATE" "a"; eventOf "API" "CREATE" "b"]
             (mkListener beforeRenaming NewConfigStore None None None None None) in
  let l' := follows renamed [eventOf "API" "UPDATE" "a"; eventOf "API" "UPDATE" "b"; eventOf "API" "UPDATE" "a"] l in
  sc_DisplayName <$> artifact l' "a" = Some "Books" /\ sc_DisplayName <$> artifact l' "b" = Some "Pets".
Proof. by vm_compute. Qed.

(** The error of deleting an artifact that is not there does not count as one
    that says so, and ends the handlers for LLM and MCP artifacts. *)
Example missing_artifact_ends_deletion :
  match ConfigStore_Delete "x" NewConfigStore with Err _ e => failed (Some e) = true | _ => False end.
Proof. by vm_compute. Qed.

End Samples.
