(* ===== verification/StreamTheorems.v ===== *)
(** * StreamTheorems: one external-processing stream, from its first message
    to its end

    The flight invariant of [HandlerProps] is established by the
    request-headers message and kept by everything that follows, whatever the
    kernel tables have become in the meantime. *)

From stdpp Require Import base gmap strings list fin_maps.
From S2P Require Import Prelude GoStrings Values Sdk Registry QueryPath Executor ExecutorProps ChainBuild Mutation ExecContext Translator Handlers ExtProc HandlerProps Samples MutationTheorems ChainTheorems.

#[local] Set Warnings "-register-all".

Open Scope string_scope.

Section Stream.
Context {W : Type} `{MapRange} `{NetURL} `{Codecs} `{StructPB} `{UUIDSource}.
Implicit Types (c : ChainExecutor W) (k : Kernel W) (s : StreamState W).

(** The client's headers as the policies see them in [Downstream]. *)
Definition clientHeaders (h : HttpHeaders) : Headers :=
  cloneHeaders (Some (NewHeaders (Some (collectHeaders (hh_Headers h))))).

(** Envoy's order of messages after the request headers: no second
    request-headers message, and no response body before response headers. *)
Fixpoint inOrder (started : bool) (events : list (StreamEvent (W := W))) : bool :=
  match events with
  | Recv _ req _ :: events' =>
      match req_Request req with
      | ProcessingRequest_RequestHeaders _ => false
      | ProcessingRequest_ResponseHeaders _ => inOrder true events'
      | ProcessingRequest_ResponseBody _ => started && inOrder started events'
      | _ => inOrder started events'
      end
  | _ => true
  end.

(** The stream carries a request in flight. *)
Definition inFlight (started : bool) (rt : RoutePart W) (snap : Headers) s : Prop :=
  exists ec, ss_execCtx s = Some ec /\ flight started rt snap (mkKState (ss_store s) ec).

Lemma wp_onExecCtx started rt snap m ec s :
  wp m (fun ks _ => flight started rt snap ks) (fun ks _ => flight started rt snap ks) False (mkKState (ss_store s) ec) ->
  wp (onExecCtx m ec) (fun s' _ => inFlight started rt snap s') (fun s' _ => inFlight started rt snap s') False s.
Proof.
  unfold wp, onExecCtx. destruct (m _) as [ks r|ks e|]; [| |done]; intros Hf; exists (k_ec ks); by destruct ks.
Qed.

Lemma flight_init chain key h rm (st : Store W) :
  length (pc_Policies chain) <= length (pc_PolicySpecs chain) ->
  let '(st', ec) := buildRequestContexts chain key h rm st in
  flight false (ec_route ec) (clientHeaders h) (mkKState st' ec) /\ policyChain (ec_route ec) = chain.
Proof.
  intros Hal. unfold buildRequestContexts.
  set (id := if String.eqb _ "" then _ else _). destruct id as [id n].
  match goal with |- context [allocHeaders (NewHeaders ?x) ?y] =>
    pose proof (alloc_fresh (NewHeaders x) y) as H1'; destruct (allocHeaders (NewHeaders x) y) as [st1 l] end.
  destruct H1' as (Hn1&Hl1&Ho1).
  match goal with |- context [allocHeaders (cloneHeaders ?x) ?y] =>
    pose proof (alloc_fresh (cloneHeaders x) y) as H2'; destruct (allocHeaders (cloneHeaders x) y) as [st2 d] end.
  destruct H2' as (Hn2&Hl2&Ho2).
  assert (headers_at st2 l = headers_at st1 l /\ l <> d) as [Hl Hne] by (apply Ho2; by rewrite Hl1).
  split; [|done]. split; simpl; try done. eexists. rewrite Hl. exact Hl1.
Qed.

(** The four later messages. *)
Lemma handle_keeps started rt snap c k req s :
  noNilActions (policyChain rt) -> inFlight started rt snap s ->
  inOrder started [Recv k req None] = true ->
  wp (handleProcessingPhase c k req)
    (fun s' _ => inFlight (started || match req_Request req with ProcessingRequest_ResponseHeaders _ => true | _ => false end) rt snap s')
    (fun s' _ => exists b, inFlight b rt snap s') False s.
Proof.
  intros Hn (ec&Hec&Hf) Ho. unfold handleProcessingPhase. simpl in Ho.
  destruct (req_Request req) as [h|b|h|b|]; [done| | | |]; rewrite ?orb_false_r, ?orb_true_r;
    [apply wp_bind, wp_get; rewrite Hec..|].
  - eapply wp_mono; [apply wp_onExecCtx, keeps_processRequestBody; exact Hf|done| |done]. intros ? ? Hx; eexists; exact Hx.
  - eapply wp_mono; [apply wp_onExecCtx; by eapply keeps_processResponseHeaders|done| |done]. intros ? ? Hx; eexists; exact Hx.
  - destruct started; [|done].
    eapply wp_mono; [apply wp_onExecCtx; by apply keeps_processResponseBody|done| |done]. intros ? ? Hx; eexists; exact Hx.
  - apply wp_ret. by exists ec.
Qed.

Lemma inOrder_step started k req e e' events :
  inOrder started (Recv k req e :: events) = true ->
  inOrder started [Recv k req e'] = true /\
  inOrder (started || match req_Request req with ProcessingRequest_ResponseHeaders _ => true | _ => false end) events = true.
Proof.
  simpl. destruct (req_Request req); rewrite ?orb_false_r, ?orb_true_r; try done.
  intros [-> ->]%andb_true_iff. done.
Qed.

Lemma process_keeps rt snap c events : noNilActions (policyChain rt) -> forall started s,
  inFlight started rt snap s -> inOrder started events = true ->
  wp (Process c events) (fun s' _ => exists b, inFlight b rt snap s') (fun s' _ => exists b, inFlight b rt snap s') False s.
Proof.
  intros Hn. induction events as [|ev events IH]; intros started s Hf Ho; [apply wp_ret; eexists; eassumption|].
  destruct ev as [k req serr| | |e]; [|apply wp_ret; eexists; eassumption..|apply wp_fail; eexists; eassumption].
  apply (inOrder_step _ _ _ _ None) in Ho as [Ho1 Ho2]. apply wp_bind.
  eapply wp_mono; [by apply handle_keeps| |done|done]. intros s1 resp Hf1. cbn beta in Hf1.
  destruct serr; [apply wp_fail; eexists; eassumption|]. apply wp_bind.
  eapply wp_mono; [by eapply IH| |done|done]. intros. by apply wp_ret.
Qed.

Lemma initialize_wp k req h rc chain s :
  GetRouteConfig (extractRouteKey req) k = Some rc -> GetPolicyChain (extractRouteKey req) k = Some chain ->
  length (pc_Policies chain) <= length (pc_PolicySpecs chain) ->
  wp (initializeExecutionContext k req h)
    (fun s' _ => exists rt, policyChain rt = chain /\ inFlight false rt (clientHeaders h) s') (fun _ _ => False) False s.
Proof.
  intros Hrc Hch Hal. unfold wp, initializeExecutionContext. rewrite Hrc, Hch.
  pose proof (flight_init chain (extractRouteKey req) h (withRouteName rc (extractRouteKey req)) (ss_store s) Hal) as Hi.
  destruct (buildRequestContexts _ _ _ _ _) as [st ec]. destruct Hi as [Hf Hc].
  exists (ec_route ec). split; [done|]. by exists ec.
Qed.

(** What a finished or broken-off stream guarantees. *)
Definition streamSafe (chain : PolicyChain W) (h : HttpHeaders) s : Prop :=
  exists ec, ss_execCtx s = Some ec /\ chainOf ec = chain /\
    headers_at (ss_store s) (downstreamHeaders (ec_route ec)) = Some (clientHeaders h) /\
    (Z.of_nat (length (requestStreamAccumulator (ec_req ec))) < maxStreamAccumulatorSize)%Z /\
    (Z.of_nat (length (streamAccumulator (ec_resp ec))) < maxStreamAccumulatorSize)%Z.

Lemma inFlight_safe b rt h s : inFlight b rt (clientHeaders h) s -> streamSafe (policyChain rt) h s.
Proof. intros (ec&Hec&[]). exists ec. simpl in *. subst rt. unfold chainOf. split_and!; done. Qed.

(** C1: A stream whose first message names a known route runs to its end
    without a panic, for any policies, any condition evaluator and any
    message contents, as long as Envoy sends the messages in order and no
    streaming response policy returns a nil action.  Whether it ends normally
    or with an error, the request still uses the chain it was routed to, even
    if every later message was handled under different kernel tables; the
    snapshot of the client's headers is what the client sent; and neither
    stream accumulator has reached the 10 MB bound. *)
Theorem stream_is_safe c k req h rc chain events st :
  req_Request req = ProcessingRequest_RequestHeaders h ->
  GetRouteConfig (extractRouteKey req) k = Some rc ->
  GetPolicyChain (extractRouteKey req) k = Some chain ->
  length (pc_Policies chain) <= length (pc_PolicySpecs chain) ->
  noNilActions chain ->
  inOrder false events = true ->
  match Process c (Recv k req None :: events) (mkStreamState st None) with
  | Ok s' _ | Err s' _ => streamSafe chain h s'
  | Panic => False
  end.
Proof.
  intros Hreq Hrc Hch Hal Hn Ho.
  assert (wp (Process c (Recv k req None :: events)) (fun s' _ => streamSafe chain h s')
    (fun s' _ => streamSafe chain h s') False (mkStreamState st None)) as Hwp.
  2: { unfold wp in Hwp. by destruct (Process _ _ _). }
  assert (forall s rt b, policyChain rt = chain -> inFlight b rt (clientHeaders h) s -> streamSafe chain h s) as Hsafe
    by (intros s rt b <-; apply inFlight_safe).
  apply wp_bind. unfold handleProcessingPhase. rewrite Hreq. apply wp_bind.
  eapply wp_mono; [by eapply initialize_wp| |done|done].
  intros s1 _ (rt&Hrt&ec&Hec&Hf). apply wp_bind, wp_get. rewrite Hec.
  eapply wp_mono; [eapply wp_onExecCtx, keeps_processRequestHeaders; exact Hf| | |done].
  2: { intros s2 e Hf2. cbn beta in Hf2. by eapply Hsafe. }
  intros s2 resp Hf2. cbn beta in Hf2. apply wp_bind. rewrite <-Hrt in Hn.
  eapply wp_mono; [by eapply process_keeps| | |done].
  - intros s3 rest [b Hf3]. apply wp_ret. by eapply Hsafe.
  - intros s3 e [b Hf3]. by eapply Hsafe.
Qed.

(** ** Answers *)

(** Envoy accepts an answer of the kind of the message, or an immediate
    response. *)
Definition isImmediate (r : ProcessingResponse) : Prop :=
  match resp_Response r with Response_Immediate _ _ _ => True | _ => False end.

Definition inKind (q : ProcessingRequestKind) (r : ProcessingResponse) : Prop :=
  match resp_Response r, q with
  | Response_Immediate _ _ _, _ => True
  | Response_RequestHeaders _, ProcessingRequest_RequestHeaders _ => True
  | Response_RequestBody _, ProcessingRequest_RequestBody _ => True
  | Response_ResponseHeaders _, ProcessingRequest_ResponseHeaders _ => True
  | Response_ResponseBody _, ProcessingRequest_ResponseBody _ => True
  | _, _ => False
  end.

(** The messages received before the stream ends. *)
Fixpoint received (events : list (StreamEvent (W := W))) : list ProcessingRequestKind :=
  match events with
  | Recv _ req _ :: events' => req_Request req :: received events'
  | _ => []
  end.

End Stream.

Create HintDb answers discriminated.
#[export] Hint Resolve returns_ret returns_fail : answers.

(** Steps to the value a handler returns. *)
Ltac answer_step :=
  match goal with
  | |- returns (_ ≫= _) _ => eapply returns_bind; [apply returns_any|intros ? _]
  | |- returns (match ?x with _ => _ end) _ => destruct x
  | |- returns (mret _) _ => by apply returns_ret
  | |- returns (fail _) _ => apply returns_fail
  | |- returns _ _ => by eauto 2 with answers
  end.

Section Answers.
Context {W : Type} `{MapRange} `{NetURL} `{Codecs} `{StructPB} `{UUIDSource}.
Implicit Types (c : ChainExecutor W) (k : Kernel W).

Lemma immediate_inKind q r : isImmediate r -> inKind q r.
Proof. unfold isImmediate, inKind. by destruct (resp_Response r). Qed.

Lemma answer_finishImmediate r a : returns (S := KState W) (finishImmediate r a) isImmediate.
Proof. unfold finishImmediate. repeat answer_step. Qed.

Lemma answer_handlePolicyError : returns (S := KState W) handlePolicyError isImmediate.
Proof. unfold handlePolicyError. repeat answer_step. Qed.

Lemma answer_finishRequest q wrap hm bm a mu d :
  (forall x m d, inKind q (mkProcessingResponse (wrap (Some x)) m d)) ->
  returns (S := KState W) (finishRequest wrap hm bm a mu d) (inKind q).
Proof. intros Hw. unfold finishRequest. repeat answer_step. Qed.

Lemma answer_finishWithMetadata q resp a d :
  (forall m d, inKind q (mkProcessingResponse resp m d)) ->
  returns (S := KState W) (finishWithMetadata resp a d) (inKind q).
Proof. intros Hw. unfold finishWithMetadata. repeat answer_step. Qed.

Lemma answer_finishResponseHeaders h hm bm a d :
  returns (S := KState W) (finishResponseHeaders hm bm a d) (inKind (ProcessingRequest_ResponseHeaders h)).
Proof. unfold finishResponseHeaders. repeat answer_step. Qed.

End Answers.

#[export] Hint Resolve answer_finishImmediate answer_handlePolicyError answer_finishResponseHeaders : answers.
#[export] Hint Extern 1 (returns (finishRequest _ _ _ _ _ _) _) => apply answer_finishRequest; done : answers.
#[export] Hint Extern 1 (returns (finishWithMetadata _ _ _) _) => apply answer_finishWithMetadata; done : answers.

Section Kinds.
Context {W : Type} `{MapRange} `{NetURL} `{Codecs} `{StructPB} `{UUIDSource}.
Implicit Types (c : ChainExecutor W) (k : Kernel W).

Lemma answer_finishImmediate_kind q r a : returns (S := KState W) (finishImmediate r a) (inKind q).
Proof. eapply returns_mono; [apply answer_finishImmediate|]. intros; by apply immediate_inKind. Qed.
Lemma answer_policyError_kind q : returns (S := KState W) handlePolicyError (inKind q).
Proof. eapply returns_mono; [apply answer_handlePolicyError|]. intros; by apply immediate_inKind. Qed.
Hint Resolve answer_finishImmediate_kind answer_policyError_kind : answers.

Lemma answer_TranslateRequestBodyActions r b :
  returns (S := KState W) (TranslateRequestBodyActions r) (inKind (ProcessingRequest_RequestBody b)).
Proof.
  eapply (returns_bind _ _ (fun x => match x with inl resp => isImmediate resp | inr _ => True end)).
  - unfold translateRequestActionsCore. do 2 answer_step.
    assert (forall imm an, returns (S := KState W) (response ← finishImmediate imm an; mret (inl response))
      (fun x : ProcessingResponse + RequestTranslationResult => match x with inl resp => isImmediate resp | inr _ => True end)) as Hi.
    { intros. eapply returns_bind; [apply answer_finishImmediate|]. intros ? ?. by apply returns_ret. }
    repeat first [apply Hi | answer_step].
  - intros [resp|t] Hx; [apply returns_ret; by apply immediate_inKind|by apply answer_finishRequest].
Qed.

Lemma answer_TranslateResponseBodyActions r b :
  returns (S := KState W) (TranslateResponseBodyActions r) (inKind (ProcessingRequest_ResponseBody b)).
Proof.
  eapply (returns_bind _ _ (fun x => match x with inl resp => isImmediate resp | inr _ => True end)).
  - unfold translateResponseActionsCore. do 2 answer_step.
    assert (forall imm an, returns (S := KState W) (response ← finishImmediate imm an; mret (inl response))
      (fun x : ProcessingResponse + ResponseTranslationResult => match x with inl resp => isImmediate resp | inr _ => True end)) as Hi.
    { intros. eapply returns_bind; [apply answer_finishImmediate|]. intros ? ?. by apply returns_ret. }
    repeat first [apply Hi | answer_step].
  - intros [resp|t] Hx; [apply returns_ret; by apply immediate_inKind|by apply answer_finishWithMetadata].
Qed.
Hint Resolve answer_TranslateRequestBodyActions answer_TranslateResponseBodyActions : answers.

Lemma answer_processRequestHeaders c h :
  returns (processRequestHeaders c) (inKind (ProcessingRequest_RequestHeaders h)).
Proof.
  unfold processRequestHeaders, processRequestBodyForEmptyRequest, TranslateRequestHeaderActionsWithBodyMerge,
    TranslateRequestHeaderActions. repeat answer_step.
Qed.

Lemma answer_processRequestBody c b :
  returns (processRequestBody c b) (inKind (ProcessingRequest_RequestBody b)).
Proof.
  unfold processRequestBody, processStreamingRequestBody, runRequestChunk, TranslateStreamingRequestChunkAction.
  repeat answer_step.
Qed.

Lemma answer_processResponseHeaders c h :
  returns (processResponseHeaders c h) (inKind (ProcessingRequest_ResponseHeaders h)).
Proof.
  unfold processResponseHeaders, processResponseBodyForEmptyResponse, TranslateResponseHeaderActionsWithBodyMerge,
    TranslateResponseHeaderActions. repeat answer_step.
Qed.

Lemma answer_processResponseBody c b :
  returns (processResponseBody c b) (inKind (ProcessingRequest_ResponseBody b)).
Proof.
  unfold processResponseBody, processStreamingResponseBody, runResponseChunk, TranslateStreamingResponseChunkAction.
  repeat answer_step.
Qed.

Lemma answer_onExecCtx m ec q :
  returns m (inKind q) -> returns (S := StreamState W) (onExecCtx m ec) (inKind q).
Proof.
  intros Hm s s' a. unfold onExecCtx. destruct (m _) eqn:E; [|done|done]. intros [= _ <-]. by eapply Hm.
Qed.

Lemma answer_handleProcessingPhase c k req : returns (handleProcessingPhase c k req) (inKind (req_Request req)).
Proof.
  unfold handleProcessingPhase. destruct (req_Request req); repeat answer_step; apply answer_onExecCtx.
  - apply answer_processRequestHeaders.
  - apply answer_processRequestBody.
  - apply answer_processResponseHeaders.
  - apply answer_processResponseBody.
Qed.

(** C2: Every message of a stream is answered exactly once, in order, and
    each answer is of the kind of its message or an immediate response, as
    the external-processing protocol requires. *)
Theorem every_message_is_answered_in_kind c events s s' resps :
  Process c events s = Ok s' resps -> Forall2 inKind (received events) resps.
Proof.
  revert s s' resps. induction events as [|ev events IH]; intros s s' resps; simpl; [intros [= _ <-]; constructor|].
  destruct ev as [k req serr| | |e]; simpl; [|intros [= _ <-]; constructor..|done].
  unfold mbind, GoM_bind. destruct (handleProcessingPhase c k req s) as [s1 r| |] eqn:E1; [|done|done].
  destruct serr; [done|]. destruct (Process c events s1) as [s2 rest| |] eqn:E2; [|done|done].
  intros [= _ <-]. constructor; [by eapply answer_handleProcessingPhase|by eapply IH].
Qed.

End Kinds.

(** ** The client's headers *)

Section Client.
Context `{MapRange}.

Lemma collect_lookup l k : forall (m : HeaderMap),
  foldl (fun m kv => <[kv.1 := (default [] (m !! kv.1) ++ [kv.2])%list]> m) m l !! k =
    match filter (fun kv => kv.1 = k) l with
    | [] => m !! k
    | vs => Some (default [] (m !! k) ++ map snd vs)%list
    end.
Proof.
  induction l as [|[k' v] l IH]; intros m; [done|]. cbn [foldl]. rewrite IH, filter_cons. simpl.
  destruct (decide (k' = k)) as [->|Hne].
  - rewrite lookup_insert_eq. destruct (filter _ l); simpl; [done|]. by rewrite <- (assoc_L (++)).
  - by rewrite lookup_insert_ne.
Qed.

Lemma collect_lower l : Forall (fun kv : string * string => ToLower kv.1 = kv.1) l -> lower_map (collectHeaders l).
Proof.
  intros Hl k vs Hk. unfold collectHeaders in Hk. rewrite collect_lookup in Hk.
  destruct (filter _ l) as [|[k' v] fl] eqn:Hf; [by rewrite lookup_empty in Hk|].
  assert ((k', v) ∈ filter (fun kv => kv.1 = k) l) as Hin by (rewrite Hf; by left).
  apply list_elem_of_filter in Hin as [Hkk Hin]. simpl in Hkk. subst k'.
  rewrite Forall_forall in Hl. exact (Hl _ Hin).
Qed.

(** Policies see what the client sent: for a message with lower-case
    header names (Envoy sends no others), looking a name up in the snapshot
    of the client's headers, in any spelling, gives all the values the client
    sent for it, in the order of the message. *)
Theorem policies_see_the_clients_headers h name :
  Forall (fun kv => ToLower kv.1 = kv.1) (hh_Headers h) ->
  Headers_Get (Some (clientHeaders h)) name
    = map snd (filter (fun kv => kv.1 = ToLower name) (hh_Headers h)).
Proof.
  intros Hl. unfold clientHeaders, cloneHeaders, NewHeaders. simpl.
  rewrite !lower_keys_id by (rewrite ?lower_keys_id; by apply collect_lower).
  unfold collectHeaders. rewrite collect_lookup, lookup_empty. by destruct (filter _ _).
Qed.

End Client.

(** ** Unknown routes *)

Section Unknown.
Context {W : Type} `{MapRange} `{NetURL} `{Codecs} `{StructPB} `{UUIDSource}.
Implicit Types (c : ChainExecutor W) (k : Kernel W).

(** The answer to a message of a stream without execution context. *)
Definition passThrough (q : ProcessingRequestKind) : ProcessingResponse :=
  match q with
  | ProcessingRequest_RequestBody _ => mkProcessingResponse (Response_RequestBody None) None None
  | ProcessingRequest_ResponseHeaders _ => mkProcessingResponse (Response_ResponseHeaders None) None None
  | ProcessingRequest_ResponseBody _ => mkProcessingResponse (Response_ResponseBody None) None None
  | _ => mkProcessingResponse (Response_Immediate 500 None None) None None
  end.

(** A later message, delivered and answered. *)
Definition laterMessage (ev : StreamEvent (W := W)) : Prop :=
  match ev with
  | Recv _ req None => match req_Request req with ProcessingRequest_RequestHeaders _ => False | _ => True end
  | _ => False
  end.

Lemma process_unknown c events st : Forall laterMessage events ->
  Process c events (mkStreamState st None) = Ok (mkStreamState st None) (map passThrough (received events)).
Proof.
  induction 1 as [|ev events Hev _ IH]; [done|]. destruct ev as [k req [e|]| | |]; try done.
  cbn [Process received map]. simpl in Hev.
  assert (handleProcessingPhase c k req (mkStreamState st None) = Ok (mkStreamState st None) (passThrough (req_Request req))) as Hh.
  { unfold handleProcessingPhase. by destruct (req_Request req). }
  unfold mbind, GoM_bind. by rewrite Hh, IH.
Qed.

(** C36: A request for a route the kernel has no configuration or no chain for
    fails closed: its headers are answered with a 500, no policy runs, no
    context is created (the store is untouched), and the messages that may
    still follow are passed through unchanged even if the route is added in
    the meantime. *)
Theorem unknown_route_fails_closed c k req h events st :
  req_Request req = ProcessingRequest_RequestHeaders h ->
  GetRouteConfig (extractRouteKey req) k = None \/ GetPolicyChain (extractRouteKey req) k = None ->
  Forall laterMessage events ->
  Process c (Recv k req None :: events) (mkStreamState st None) =
    Ok (mkStreamState st None)
       (internalError {["content-type" := "application/json"]} (Some notFoundBody) :: map passThrough (received events)).
Proof.
  intros Hreq Hno Hlater. cbn [Process].
  assert (handleProcessingPhase c k req (mkStreamState st None) =
    Ok (mkStreamState st None) (internalError {["content-type" := "application/json"]} (Some notFoundBody))) as Hh.
  { unfold handleProcessingPhase. rewrite Hreq. unfold mbind, GoM_bind, initializeExecutionContext.
    destruct (GetRouteConfig (extractRouteKey req) k) as [rc|]; [|done].
    destruct Hno as [Hno|Hno]; [done|]. by rewrite Hno. }
  unfold mbind, GoM_bind. by rewrite Hh, process_unknown.
Qed.

Context `{CEL} `{FmtScalar}.

(** A gateway configured from a file serves no route: loading the file
    fills the table of policy chains but not the table of route
    configurations, which the request path consults first, so the headers of
    every request are answered with a 500. *)
Theorem file_configuration_serves_no_route (reg : PolicyRegistry W) file w k w' c req h st :
  LoadFromFile reg file (NewKernel, w) = Ok (k, w') tt ->
  req_Request req = ProcessingRequest_RequestHeaders h ->
  handleProcessingPhase c k req (mkStreamState st None)
    = Ok (mkStreamState st None) (internalError {["content-type" := "application/json"]} (Some notFoundBody)).
Proof.
  intros Hload Hreq.
  assert (RouteConfigs k = ∅) as Hk.
  { destruct file as [e|configs]; [done|]. unfold LoadFromFile, mbind, GoM_bind in Hload. simpl in Hload.
    destruct (validateAll reg configs); [done|].
    pose proof (buildAll_wp reg configs (NewKernel, w)) as Hb. unfold wp in Hb.
    destruct (buildAll reg configs (NewKernel, w)) as [s' chains|s' e|]; [|done|done].
    destruct Hb as [Hs _]. injection Hload as <- _. simpl. by rewrite Hs. }
  unfold handleProcessingPhase. rewrite Hreq. unfold mbind, GoM_bind, initializeExecutionContext, GetRouteConfig.
  by rewrite Hk, lookup_empty.
Qed.

End Unknown.

(** ** Witnesses *)

#[local] Existing Instance MapRange_list.
#[local] Existing Instance plainPB.
#[local] Existing Instance toyCodecs.
#[local] Existing Instance toyUUID.

Definition routed (name : string) (q : ProcessingRequestKind) : ProcessingRequest :=
  mkProcessingRequest q (Some {[ExtProcFilter := Some {["xds.route_name" := VString name]}]}).

Definition streamChain : PolicyChain unit :=
  chainOfList [(setter "X-A" "1", specOf "a" true None);
               (streamer (Some (ForwardRequestChunk (chunkFields None))) (Some (ForwardResponseChunk (chunkFields None))) false,
                specOf "s" true None)] true true false false.

Definition sampleKernel : Kernel unit := mkKernel {["r" := sampleRoute]} {["r" := streamChain]} [].
(** The tables after the API has been undeployed. *)
Definition emptyKernel : Kernel unit := mkKernel ∅ ∅ [].

Definition sampleEvents : list (StreamEvent (W := unit)) :=
  [Recv emptyKernel (routed "r" (ProcessingRequest_RequestBody (mkHttpBody (Some (bytes_of "hi")) true))) None;
   Recv emptyKernel (routed "r" (ProcessingRequest_ResponseHeaders (mkHttpHeaders [(":status", "200"); ("content-length", "3")] false))) None;
   Recv emptyKernel (routed "r" (ProcessingRequest_ResponseBody (mkHttpBody (Some (bytes_of "bye")) true))) None;
   RecvEOF].

Definition firstRequest : ProcessingRequest := routed "r" (ProcessingRequest_RequestHeaders (postHeaders [("x-a", "0")])).

Lemma stream_is_safe_witness :
  exists s' resps, Process sampleExecutor (Recv sampleKernel firstRequest None :: sampleEvents) (mkStreamState sampleStore None) = Ok s' resps /\
    length resps = 4 /\ streamSafe streamChain (postHeaders [("x-a", "0")]) s'.
Proof.
  assert (succeeds (Process sampleExecutor (Recv sampleKernel firstRequest None :: sampleEvents) (mkStreamState sampleStore None))
    (fun _ resps => Nat.eqb (length resps) 4) = true) as Hs by (vm_compute; reflexivity).
  apply succeeds_inv in Hs as (s'&resps&E&Hl). exists s', resps. split; [exact E|].
  split; [apply Nat.eqb_eq; exact Hl|].
  pose proof (stream_is_safe sampleExecutor sampleKernel firstRequest (postHeaders [("x-a", "0")]) sampleRoute streamChain
    sampleEvents sampleStore eq_refl eq_refl eq_refl (le_n _)) as Hsafe.
  rewrite E in Hsafe. apply Hsafe; [|reflexivity].
  intros pol cb need st ctx ch p Hin. apply list_elem_of_In in Hin. destruct Hin as [<-|[<-|[]]]; [discriminate|].
  intros [= <- _]. discriminate.
Defined.

Lemma every_message_is_answered_in_kind_witness :
  exists s' resps, Process sampleExecutor (Recv sampleKernel firstRequest None :: sampleEvents) (mkStreamState sampleStore None) = Ok s' resps /\
    Forall2 inKind (received (Recv sampleKernel firstRequest None :: sampleEvents)) resps.
Proof.
  assert (succeeds (Process sampleExecutor (Recv sampleKernel firstRequest None :: sampleEvents) (mkStreamState sampleStore None))
    (fun _ resps => Nat.eqb (length resps) 4) = true) as Hs by (vm_compute; reflexivity).
  apply succeeds_inv in Hs as (s'&resps&E&_). exists s', resps. split; [exact E|].
  exact (every_message_is_answered_in_kind _ _ _ _ _ E).
Defined.

Lemma unknown_route_fails_closed_witness :
  exists resps, Process sampleExecutor
    [Recv emptyKernel firstRequest None;
     Recv sampleKernel (routed "r" (ProcessingRequest_RequestBody (mkHttpBody (Some (bytes_of "hi")) true))) None]
    (mkStreamState sampleStore None) = Ok (mkStreamState sampleStore None) resps /\
    map resp_Response resps = [Response_Immediate 500 (buildHeaderValueOptions {["content-type" := "application/json"]}) (Some notFoundBody);
                               Response_RequestBody None].
Proof.
  eexists. split.
  - apply (unknown_route_fails_closed sampleExecutor emptyKernel firstRequest (postHeaders [("x-a", "0")])).
    + reflexivity.
    + left. reflexivity.
    + constructor; [exact I|constructor].
  - reflexivity.
Defined.

#[local] Existing Instance keyCEL.
#[local] Existing Instance noFloats.

Lemma file_configuration_serves_no_route_witness :
  exists k, LoadFromFile chainRegistry (inr [mkChainConfig "r" [mkPolicyInstance "set" "v1" true None ∅]]) (NewKernel, tt) = Ok (k, tt) tt /\
    is_Some (PolicyChains k !! "r") /\
    handleProcessingPhase sampleExecutor k firstRequest (mkStreamState sampleStore None)
      = Ok (mkStreamState sampleStore None) (internalError {["content-type" := "application/json"]} (Some notFoundBody)).
Proof.
  assert (succeeds (LoadFromFile chainRegistry (inr [mkChainConfig "r" [mkPolicyInstance "set" "v1" true None ∅]]) (NewKernel, tt))
    (fun s _ => match PolicyChains s.1 !! "r" with Some _ => true | None => false end) = true) as Hs by (vm_compute; reflexivity).
  apply succeeds_inv in Hs as ([k []]&[]&E&Ht). exists k. split; [exact E|]. split.
  - simpl in Ht. destruct (PolicyChains k !! "r"); [eexists; reflexivity|discriminate Ht].
  - exact (file_configuration_serves_no_route _ _ _ _ _ sampleExecutor firstRequest _ sampleStore E eq_refl).
Defined.

Lemma policies_see_the_clients_headers_witness :
  Headers_Get (Some (clientHeaders (postHeaders [("x-a", "1"); ("x-b", "2"); ("x-a", "3")]))) "X-A" = ["1"; "3"].
Proof. rewrite policies_see_the_clients_headers; [reflexivity|repeat constructor]. Defined.

(** ** Body policies of a GET *)

(** A body policy that counts its calls. *)
Definition counting : Policy nat :=
  mkPolicy (mkMode "SKIP" "BUFFER" "SKIP" "SKIP") None None
    (IsRequestPolicy (fun st _ _ => (S (st_world st), st_shared st, None))) NoResponsePolicy.
Definition countingChain : PolicyChain nat :=
  mkPolicyChain [counting] [specOf "count" true None] true false false false false false false.
Definition countingKernel : Kernel nat := mkKernel {["r" := sampleRoute]} {["r" := countingChain]} [].
Definition getRequest : ProcessingRequest :=
  routed "r" (ProcessingRequest_RequestHeaders (mkHttpHeaders [(":path", "/petstore/pets"); (":method", "GET")] false)).
Definition getBody : ProcessingRequest :=
  routed "r" (ProcessingRequest_RequestBody (mkHttpBody (Some (bytes_of "query")) true)).

(** The request-body mode of an answer. *)
Definition bodyModeOf (r : ProcessingResponse) : option BodySendMode := mo_RequestBodyMode <$> resp_ModeOverride r.

(** A GET is taken to have no body whatever the client announces: the
    body policies run on an empty body with the headers, the answer still
    asks Envoy for the buffered body, and if the client did send one the
    policies run a second time on it. *)
Theorem get_with_a_body_runs_body_policies_twice :
  exists s1 r1 s2 r2,
    handleProcessingPhase (mkChainExecutor None) countingKernel getRequest
      (mkStreamState (mkStore ∅ sampleShared 0 0) None) = Ok s1 r1 /\
    st_world (ss_store s1) = 1 /\ bodyModeOf r1 = Some BUFFERED /\
    handleProcessingPhase (mkChainExecutor None) countingKernel getBody s1 = Ok s2 r2 /\
    st_world (ss_store s2) = 2.
Proof.
  assert (succeeds (handleProcessingPhase (mkChainExecutor None) countingKernel getRequest
      (mkStreamState (mkStore ∅ sampleShared 0 0) None))
    (fun s1 r1 => Nat.eqb (st_world (ss_store s1)) 1 &&
      match bodyModeOf r1 with Some BUFFERED => true | _ => false end &&
      succeeds (handleProcessingPhase (mkChainExecutor None) countingKernel getBody s1)
        (fun s2 _ => Nat.eqb (st_world (ss_store s2)) 2)) = true) as Hs by (vm_compute; reflexivity).
  apply succeeds_inv in Hs as (s1&r1&E1&Ht). apply andb_true_iff in Ht as [Ht Hs2].
  apply andb_true_iff in Ht as [Hw%Nat.eqb_eq Hm].
  apply succeeds_inv in Hs2 as (s2&r2&E2&Hw2%Nat.eqb_eq). exists s1, r1, s2, r2.
  split_and!; [exact E1|exact Hw| |exact E2|exact Hw2].
  destruct (bodyModeOf r1) as [[]|]; [discriminate Hm|reflexivity|discriminate Hm..].
Qed.
