(* ===== verification/BodyTheorems.v ===== *)
(** * BodyTheorems: streamed bodies and processing modes

    No byte of a streamed request body is lost or duplicated by the
    accumulation; a terminated response stream stays terminated; the
    processing mode Envoy is told fits the chain; re-applying header
    modifications is harmless. *)

From stdpp Require Import base gmap strings list fin_maps.
From S2P Require Import Prelude GoStrings Values Sdk Registry QueryPath Executor ExecutorProps ChainBuild Mutation ExecContext Translator Handlers HandlerProps Samples MutationTheorems.

#[local] Set Warnings "-register-all".

Open Scope string_scope.

(** The bytes and the end-of-stream mark of a streamed answer. *)
Definition streamedPart (r : ProcessingResponse) : option (option bytes * bool) :=
  match resp_Response r with
  | Response_RequestBody (Some cm) | Response_ResponseBody (Some cm) =>
      match cmn_BodyMutation cm with
      | Some (BodyMutation_StreamedResponse b eos) => Some (b, eos)
      | _ => None
      end
  | _ => None
  end.
Definition emitted (r : ProcessingResponse) : bytes := default [] (streamedPart r ≫= fst).
Definition endsStream (r : ProcessingResponse) : bool := default false (snd <$> streamedPart r).


Section Conservation.
Context {W : Type} `{MapRange} `{NetURL} `{Codecs} `{StructPB} `{UUIDSource}.
Implicit Types (c : ChainExecutor W) (s : KState W).











End Conservation.

(** ** Terminated response streams *)

Section Termination.
Context {W : Type} `{MapRange} `{NetURL} `{Codecs} `{StructPB} `{UUIDSource}.
Implicit Types (c : ChainExecutor W) (s : KState W).

Definition respStreaming s : bool := isStreamingResponse (ec_resp (k_ec s)).
Definition terminated s : bool := streamTerminated (ec_resp (k_ec s)).

(** [m] keeps the streaming flag, and marks the stream terminated only with
    an answer that ends it. *)
Definition terminatesVisibly (m : GoM (KState W) ProcessingResponse) s : Prop :=
  wp m (fun s' r => respStreaming s' = respStreaming s /\ (terminated s' = true -> endsStream r = true))
    (fun _ _ => True) True s.

Lemma visibly_error s : terminated s = false -> terminatesVisibly handlePolicyError s.
Proof. intros Ht. unfold terminatesVisibly, wp, handlePolicyError. simpl. unfold terminated in *. simpl. by rewrite Ht. Qed.

Lemma visibly_translate res ch s :
  (terminated s = true -> sr_StreamTerminated res = true) ->
  terminatesVisibly (TranslateStreamingResponseChunkAction res ch) s.
Proof.
  intros Ht. unfold TranslateStreamingResponseChunkAction. apply wp_bind, wp_getEC. cbn zeta beta.
  destruct (recompressChunk _ _) as [out enc].
  destruct (foldl _ _ _) as [[[an dyn] ca] cd]. apply wp_bind, wp_putEC, wp_bind, wp_getStore. cbn [k_ec k_store].
  assert (forall md, terminated s = true -> endsStream (mkProcessingResponse
    (streamedBody Response_ResponseBody out (sb_EndOfStream ch || sr_StreamTerminated res)) None md) = true) as He.
  { intros md Hs. unfold endsStream. simpl. rewrite Ht by done. apply orb_true_r. }
  case_decide; [apply wp_ret; split; [done|apply He]|].
  destruct (buildAnalyticsStruct _ _); [by apply wp_fail|apply wp_ret; split; [done|apply He]].
Qed.

Lemma visibly_chunk c ch s : terminated s = false -> terminatesVisibly (runResponseChunk c ch) s.
Proof.
  intros Ht. apply wp_bind, wp_getEC, wp_bind. unfold wp, deref.
  destruct (responseStreamContext _) as [ctx|]; [|done]. apply wp_bind, wp_try, wp_onStore. unfold wp at 1.
  destruct (ExecuteStreamingResponsePolicies _ _ _ _ _ _ _) as [st res|st e|]; [| |done].
  2: { eapply wp_mono; [by apply (visibly_error (mkKState st (k_ec s)))|done|done|done]. }
  apply wp_bind, wp_getEC, wp_bind, wp_putEC. cbn [k_ec k_store]. unfold terminated in Ht.
  destruct (sr_StreamTerminated res) eqn:Hr.
  - eapply wp_mono; [apply (visibly_translate res ch (mkKState st (set_streamTerminated (k_ec s) true)))|done|done|done]. done.
  - eapply wp_mono; [apply (visibly_translate res ch (mkKState st (k_ec s)))|done|done|done].
    unfold terminated. simpl. by rewrite Ht.
Qed.

Lemma visibly_decompress ch s :
  wp (decompressResponseChunk ch) (fun s' _ => respStreaming s' = respStreaming s /\ terminated s' = terminated s)
    (fun _ _ => True) True s.
Proof.
  apply wp_bind, wp_getEC. cbn zeta beta.
  match goal with |- context [FeedChunk ?d ?b ?e] => destruct (FeedChunk d b e) as [sd' [err|out]] end;
    by apply wp_bind, wp_putEC, wp_ret.
Qed.

Lemma visibly_streaming c b s : terminated s = false -> terminatesVisibly (processStreamingResponseBody c b) s.
Proof.
  intros Ht. apply wp_bind, wp_getEC. fold (terminated s). rewrite Ht. cbn zeta beta.
  assert (forall s', respStreaming s' = respStreaming s -> terminated s' = false ->
    wp (mret (suppressed Response_ResponseBody)) (fun s' r => respStreaming s' = respStreaming s /\
      (terminated s' = true -> endsStream r = true)) (fun _ _ => True) True s') as Hsup.
  { intros s' Hs1 Hs2. apply wp_ret. by rewrite Hs2. }
  assert (forall s' ch, respStreaming s' = respStreaming s -> terminated s' = false ->
    wp (runResponseChunk c ch) (fun s' r => respStreaming s' = respStreaming s /\
      (terminated s' = true -> endsStream r = true)) (fun _ _ => True) True s') as Hrun.
  { intros s' ch Hs1 Hs2. eapply wp_mono; [by apply visibly_chunk| |done|done]. intros s2 r [Hx Hy].
    by rewrite Hx, Hs1. }
  destruct (negb (String.eqb _ _)).
  { apply wp_bind. eapply wp_mono; [apply visibly_decompress| |done|done]. intros s' ch [Hs1 Hs2]. rewrite Ht in Hs2.
    destruct (_ && _); [by apply Hsup|by apply Hrun]. }
  apply wp_bind, wp_putEC, wp_bind. cbn [k_ec k_store].
  apply wp_mono with (Q := fun s' (_ : bool) => respStreaming s' = respStreaming s /\ terminated s' = false)
    (E := fun _ _ => True) (P := True); [| |done|done].
  - destruct (_ && _); [|by apply wp_ret]. apply wp_bind, wp_getEC, wp_bind. unfold wp, deref.
    destruct (responseStreamContext _); [|done]. apply wp_onStore. unfold wp. by destruct (anyPolicyNeedsMore _ _ _ _ _ _ _).
  - intros s1 [] [Hs1 Hs2]; [by apply Hsup|]. apply wp_bind, wp_getEC, wp_bind, wp_putEC. by apply Hrun.
Qed.

(** *** Observing termination from outside

    The policies note in their world when one of them asks to terminate the
    response stream, and nothing else changes the note. *)
Definition asksToEnd (a : option StreamingResponseAction) : bool :=
  match a with Some (TerminateResponseChunk _) => true | _ => false end.

Record notesTermination (mark : W -> bool) (chain : PolicyChain W) : Prop := {
  nt_aligned : length (pc_Policies chain) <= length (pc_PolicySpecs chain);
  nt_chunk : forall pol cb need st ctx ch p,
    pol ∈ pc_Policies chain -> asStreamingResponsePolicy pol = Some (cb, need) ->
    mark (cb st ctx ch p).1.1 = mark (st_world st) || asksToEnd (cb st ctx ch p).2;
  nt_need : forall pol cb need w acc,
    pol ∈ pc_Policies chain -> asStreamingResponsePolicy pol = Some (cb, need) -> mark (need w acc).1 = mark w
}.

Definition noted (mark : W -> bool) s : bool := mark (st_world (k_store s)).

Lemma response_noted mark chain c ctx ch has st :
  notesTermination mark chain -> mark (st_world st) = false ->
  wp (ExecuteStreamingResponsePolicies c (pc_Policies chain) ctx ch (pc_PolicySpecs chain) has)
     (fun st' res => mark (st_world st') = sr_StreamTerminated res) (fun st' _ => mark (st_world st') = false) True st.
Proof.
  intros [Hal Hc _] Hm. apply wp_bind, wp_runReverse; [done|].
  apply wp_mono with (Q := fun st' r => mark (st_world st') = srl_terminated r)
    (E := fun st' _ => mark (st_world st') = false) (P := True); [|by intros; apply wp_ret|done|done].
  apply loop_wp with (I := fun l st' r => l.*1 ⊆ pc_Policies chain /\ mark (st_world st') = false /\ srl_terminated r = false).
  2: { by intros ?? (?&->&->). }
  2: { split_and!; try done. intros x. rewrite list_elem_of_fmap. intros (p&->&Hp). rewrite elem_of_reverse in Hp.
       destruct p. by apply elem_of_zip_l in Hp. }
  intros [pol spec] l r s1 (Hsub&Hm1&Ht). simpl in Hsub. assert (l.*1 ⊆ pc_Policies chain) as Hl by set_solver.
  apply wp_policyBlock; [by intros _|by intros f _|done|]. simpl.
  intros f params Hf _ _. unfold streamingResponseCallback in Hf.
  destruct (asStreamingResponsePolicy pol) as [[cb need]|] eqn:Hpol; [|done]. destruct (String.eqb _ _); [|done]. injection Hf as ->.
  apply wp_bind, wp_invokeChunk. intros w sh a Ha.
  pose proof (Hc pol f need s1 ctx (srl_chunk r) params ltac:(set_solver) Hpol) as Hmark. rewrite Ha, Hm1 in Hmark. cbn in Hmark.
  destruct a as [[a|a]|]; [| |done]; by apply wp_ret.
Qed.

Lemma translate_keeps res ch s :
  wp (TranslateStreamingResponseChunkAction res ch) (fun s' _ => k_store s' = k_store s /\ terminated s' = terminated s)
    (fun _ _ => True) True s.
Proof.
  unfold TranslateStreamingResponseChunkAction. apply wp_bind, wp_getEC. cbn zeta beta.
  destruct (recompressChunk _ _) as [out enc]. destruct (foldl _ _ _) as [[[an dyn] ca] cd].
  apply wp_bind, wp_putEC, wp_bind, wp_getStore. case_decide; [by apply wp_ret|].
  destruct (buildAnalyticsStruct _ _); [by apply wp_fail|by apply wp_ret].
Qed.

Lemma needsMore_noted mark chain c ctx acc st :
  notesTermination mark chain ->
  wp (anyPolicyNeedsMore c EvaluateStreamingResponseCondition (fun p => snd <$> asStreamingResponsePolicy p) chain ctx acc)
     (fun st' _ => mark (st_world st') = mark (st_world st)) (fun _ _ => True) True st.
Proof.
  intros [Hal _ Hn]. unfold anyPolicyNeedsMore, wp.
  rewrite (for_range_loop (fun pol spec (_ : bool) => needsMoreStep c _ _ (pc_HasExecutionConditions chain) ctx acc pol spec)
    (pc_Policies chain) (pc_PolicySpecs chain) Hal false st).
  apply (loop_wp (fun (p : Policy W * PolicySpec) (_ : bool) =>
      needsMoreStep c _ _ (pc_HasExecutionConditions chain) ctx acc p.1 p.2)
    (fun l st' _ => l.*1 ⊆ pc_Policies chain /\ mark (st_world st') = mark (st_world st))
    (fun st' _ => mark (st_world st') = mark (st_world st)) (fun _ _ => True) True).
  2: { by intros ?? [_ ->]. }
  2: { split; [|done]. intros x. rewrite list_elem_of_fmap. intros (p&->&Hp). destruct p. by apply elem_of_zip_l in Hp. }
  intros [pol spec] l r s1 [Hsub Hm]. assert (l.*1 ⊆ pc_Policies chain) as Hl by set_solver.
  unfold wp, needsMoreStep. cbn [fst snd]. destruct (negb (ps_Enabled spec)); [done|].
  match goal with |- context [if negb ?b then _ else _] => destruct (negb b); [done|] end.
  destruct (asStreamingResponsePolicy pol) as [[cb need]|] eqn:Hpol; [|done]. cbn [fmap option_fmap option_map snd].
  pose proof (Hn pol cb need (st_world s1) acc ltac:(set_solver) Hpol) as Hw. rewrite Hm in Hw.
  destruct (need (st_world s1) acc) as [w []]; by rewrite <- Hw.
Qed.

(** What a message leaves: the engine's flag holds when termination was noted. *)
Definition flagFollows mark s : Prop := noted mark s = true -> terminated s = true.

Lemma chunk_follows mark chain c ch s :
  notesTermination mark chain -> chainOf (k_ec s) = chain -> noted mark s = false ->
  wp (runResponseChunk c ch) (fun s' _ => flagFollows mark s') (fun _ _ => True) True s.
Proof.
  intros Hn Hch Hm. apply wp_bind, wp_getEC, wp_bind. unfold wp, deref.
  destruct (responseStreamContext _) as [ctx|]; [|done]. apply wp_bind, wp_try, wp_onStore. rewrite Hch.
  eapply wp_mono; [exact (response_noted mark chain c ctx ch _ (k_store s) Hn Hm)| | |done].
  - intros st res Hr. apply wp_bind, wp_getEC, wp_bind, wp_putEC. cbn [k_ec k_store].
    eapply wp_mono; [apply translate_keeps| |done|done]. unfold flagFollows, noted.
    intros s2 _ [-> ->]. cbn [k_store]. rewrite Hr. unfold terminated. by destruct (sr_StreamTerminated res).
  - intros st e Hr. unfold flagFollows, noted, wp, handlePolicyError. simpl. by rewrite Hr.
Qed.

Lemma decompress_keeps ch s :
  wp (decompressResponseChunk ch) (fun s' _ => k_store s' = k_store s /\ chainOf (k_ec s') = chainOf (k_ec s))
    (fun _ _ => True) True s.
Proof.
  apply wp_bind, wp_getEC. cbn zeta beta.
  match goal with |- context [FeedChunk ?d ?b ?e] => destruct (FeedChunk d b e) as [sd' [err|out]] end;
    by apply wp_bind, wp_putEC, wp_ret.
Qed.

Lemma streaming_follows mark chain c b s :
  notesTermination mark chain -> chainOf (k_ec s) = chain -> noted mark s = false ->
  wp (processStreamingResponseBody c b) (fun s' _ => flagFollows mark s') (fun _ _ => True) True s.
Proof.
  intros Hn Hch Hm. apply wp_bind, wp_getEC.
  assert (forall s' : KState W, noted mark s' = false -> wp (mret (suppressed Response_ResponseBody)) (fun s' _ => flagFollows mark s') (fun _ _ => True) True s') as Hsup
    by (intros s' Hs'; apply wp_ret; unfold flagFollows; by rewrite Hs').
  destruct (streamTerminated _); [by apply Hsup|]. cbn zeta beta. destruct (negb (String.eqb _ _)).
  { apply wp_bind. eapply wp_mono; [apply decompress_keeps| |done|done]. intros s' ch [Hs1 Hs2].
    assert (noted mark s' = false) as Hm' by (unfold noted; by rewrite Hs1).
    destruct (_ && _); [by apply Hsup|apply (chunk_follows mark chain); [done|congruence|done]]. }
  apply wp_bind, wp_putEC, wp_bind. cbn [k_ec k_store].
  apply wp_mono with (Q := fun s' (_ : bool) => chainOf (k_ec s') = chain /\ noted mark s' = false)
    (E := fun _ _ => True) (P := True); [| |done|done].
  - destruct (_ && _); [|by apply wp_ret]. apply wp_bind, wp_getEC, wp_bind. unfold wp, deref.
    destruct (responseStreamContext _); [|done]. apply wp_onStore. cbn [k_ec k_store].
    change (chainOf (set_streamAccumulator (k_ec s) _)) with (chainOf (k_ec s)). rewrite Hch.
    eapply wp_mono; [by apply (needsMore_noted mark chain)| |done|done]. intros st w Hst. split; [done|]. unfold noted. simpl. by rewrite Hst.
  - intros s1 [] [Hs1 Hs2]; [by apply Hsup|]. apply wp_bind, wp_getEC, wp_bind, wp_putEC. by apply (chunk_follows mark chain).
Qed.

(** C34: Termination of a response stream is visible and final.  Let the
    policies of the chain note in their own state when one of them answers a
    chunk with the terminating action.  When the note is made while a message
    of a streamed response body is processed, the answer to that message
    carries the end-of-stream mark, and every later message of the body is
    answered with an empty chunk, without calling a policy and without
    changing the store. *)
Theorem termination_is_visible_and_final mark c b bodies s s1 r :
  notesTermination mark (chainOf (k_ec s)) -> respStreaming s = true -> noted mark s = false ->
  processResponseBody c b s = Ok s1 r -> noted mark s1 = true ->
  endsStream r = true /\
  exists s2, mapM (processResponseBody c) bodies s1
               = Ok s2 (replicate (length bodies) (suppressed Response_ResponseBody)) /\
    k_store s2 = k_store s1.
Proof.
  intros Hn Hstr Hm Hrun Hm1.
  set (s0 := mkKState (k_store s) (with_phase (k_ec s) phaseResponseBody)).
  assert (processStreamingResponseBody c b s0 = Ok s1 r) as Hrun0.
  { rewrite <- Hrun. unfold processResponseBody, mbind, GoM_bind, getEC, putEC. simpl. unfold respStreaming in Hstr. by rewrite Hstr. }
  assert (terminated s0 = false) as Hnt.
  { destruct (terminated s0) eqn:Ht; [|done]. unfold processStreamingResponseBody, mbind, GoM_bind, getEC in Hrun0. simpl in Hrun0.
    unfold terminated in Ht. simpl in Ht. rewrite Ht in Hrun0. injection Hrun0 as <- _. unfold noted in *. simpl in Hm1. congruence. }
  pose proof (wp_Ok _ _ _ _ _ _ _ (streaming_follows mark (chainOf (k_ec s)) c b s0 Hn eq_refl Hm) Hrun0 Hm1) as Ht.
  destruct (wp_Ok _ _ _ _ _ _ _ (visibly_streaming c b s0 Hnt) Hrun0) as [Hstr1 Hend].
  change (respStreaming s0) with (respStreaming s) in Hstr1. rewrite Hstr in Hstr1.
  split; [by apply Hend|]. clear - Ht Hstr1. revert s1 Ht Hstr1.
  induction bodies as [|b bodies IH]; intros s1 Ht Hstr; [by exists s1|].
  assert (processResponseBody c b s1 = Ok (mkKState (k_store s1) (with_phase (k_ec s1) phaseResponseBody))
    (suppressed Response_ResponseBody)) as Hb.
  { unfold processResponseBody, processStreamingResponseBody, mbind, GoM_bind, getEC, putEC. simpl.
    unfold respStreaming, terminated in *. rewrite Hstr. simpl. by rewrite Ht. }
  destruct (IH (mkKState (k_store s1) (with_phase (k_ec s1) phaseResponseBody)) Ht Hstr) as (s2&Hs2&Hst).
  exists s2. change (mapM (processResponseBody c) (b :: bodies)) with
    (x ← processResponseBody c b; xs ← mapM (processResponseBody c) bodies; mret (x :: xs)).
  by rewrite (bind_Ok _ _ _ _ _ Hb), (bind_Ok _ _ _ _ _ Hs2).
Qed.

End Termination.

(** ** Processing modes *)

Section Modes.
Context {W : Type} `{MapRange} `{NetURL} `{Codecs} `{StructPB} `{UUIDSource}.
Implicit Types (c : ChainExecutor W) (s : KState W).

(** The mode Envoy has to use for the request body: none, if no policy wants
    it; chunk by chunk, if all that want it can work on chunks and the client
    streams; the whole body otherwise.  The response mode, before the
    response headers are known. *)
Definition requestModeOf (chain : PolicyChain W) (clientStreams : bool) : BodySendMode :=
  match determineRequestBodyMode chain with
  | KBodyModeSkip => NONE
  | KBodyModeBuffered => BUFFERED
  | KBodyModeStreamed => if clientStreams then FULL_DUPLEX_STREAMED else BUFFERED
  end.
Definition responseModeOf (chain : PolicyChain W) : BodySendMode :=
  match determineResponseBodyMode chain with KBodyModeSkip => NONE | _ => BUFFERED end.

(** What the request-headers phase knows about modes. *)
Record modeInv (chain : PolicyChain W) (streams : bool) s : Prop := {
  mi_chain : chainOf (k_ec s) = chain;
  mi_request : isStreamingRequest (ec_req (k_ec s)) = pc_SupportsRequestStreaming chain && streams;
  mi_response : isStreamingResponse (ec_resp (k_ec s)) = false;
  mi_phase : ec_phase (k_ec s) = phaseRequestHeaders
}.

Definition modesFit (chain : PolicyChain W) (streams : bool) (m : GoM (KState W) ProcessingResponse) s : Prop :=
  wp m (fun _ r => forall mo, resp_ModeOverride r = Some mo ->
          mo_RequestBodyMode mo = requestModeOf chain streams /\ mo_ResponseBodyMode mo = responseModeOf chain)
    (fun _ _ => True) True s.

Lemma modes_finish chain streams wrap hm bm a mu d s :
  modeInv chain streams s -> modesFit chain streams (finishRequest wrap hm bm a mu d) s.
Proof.
  intros [Hc Hq Hr Hp]. apply wp_bind. unfold wp at 1, getModeOverride. rewrite Hp, Hc, Hq, Hr.
  apply wp_bind, wp_getStore. destruct (buildAnalyticsStruct _ _); [by apply wp_fail|]. apply wp_ret.
  intros mo [= <-]. simpl. unfold requestModeOf, responseModeOf, determineRequestBodyMode, determineResponseBodyMode.
  destruct (pc_RequiresRequestBody chain), (pc_RequiresResponseBody chain), (pc_SupportsRequestStreaming chain),
    (pc_SupportsResponseStreaming chain), streams; done.
Qed.

Lemma modes_immediate chain streams r a s : modesFit chain streams (finishImmediate r a) s.
Proof.
  apply wp_bind, wp_getStore. destruct (buildAnalyticsStruct _ _); [by apply wp_fail|]. by apply wp_ret.
Qed.

Lemma modes_error chain streams s : modesFit chain streams handlePolicyError s.
Proof. done. Qed.

Lemma modes_store chain streams a d (k : unit -> GoM (KState W) ProcessingResponse) s :
  modeInv chain streams s ->
  (forall s', modeInv chain streams s' -> modesFit chain streams (k tt) s') ->
  modesFit chain streams (storeMetadata a d ≫= k) s.
Proof. intros [] Hk. unfold modesFit, storeMetadata. apply wp_bind, wp_bind, wp_getEC, wp_putEC. by apply Hk. Qed.

Lemma modes_translate chain streams r s :
  modeInv chain streams s -> modesFit chain streams (TranslateRequestHeaderActions r) s.
Proof.
  intros Hs. unfold TranslateRequestHeaderActions. apply wp_bind, wp_getEC, wp_bind, wp_getStore.
  destruct (er_ShortCircuited r), (er_FinalAction r) as [[m|imm]|]; try apply modes_immediate;
    (apply modes_store; [done|]; intros; by apply modes_finish).
Qed.

Lemma modes_translateMerge chain streams r r' s :
  modeInv chain streams s -> modesFit chain streams (TranslateRequestHeaderActionsWithBodyMerge r r') s.
Proof.
  intros Hs. unfold TranslateRequestHeaderActionsWithBodyMerge. apply wp_bind, wp_getEC, wp_bind, wp_getStore.
  destruct (er_ShortCircuited (re_Result r')), (er_FinalAction (re_Result r')) as [[m|imm]|]; try apply modes_immediate;
    (apply modes_store; [done|]; intros; by apply modes_finish).
Qed.

Lemma modes_empty chain streams c r s :
  modeInv chain streams s -> modesFit chain streams (processRequestBodyForEmptyRequest c r) s.
Proof.
  intros [Hc Hq Hr Hp]. apply wp_bind, wp_getEC, wp_bind, wp_putEC, wp_bind, wp_getEC. cbn [k_ec k_store].
  set (ec1 := match rc_Body _ with Some _ => _ | None => _ end).
  assert (modeInv chain streams (mkKState (k_store s) ec1)) as Hs1
    by (unfold ec1; destruct (rc_Body _); by split).
  clearbody ec1. apply wp_bind, wp_getStore, wp_bind, wp_try, wp_onStore. unfold wp at 1.
  destruct (ExecuteRequestPolicies _ _ _ _ _ _) as [st [ctx res]|st e|]; [|by apply wp_bind, wp_putEC, modes_error|done].
  apply wp_bind, wp_getEC, wp_bind, wp_putEC. apply modes_translateMerge. destruct Hs1. by split.
Qed.

Lemma modes_processRequestHeaders chain streams c s :
  modeInv chain streams s -> modesFit chain streams (processRequestHeaders c) s.
Proof.
  intros [Hc Hq Hr Hp]. apply wp_bind, wp_getEC, wp_bind, wp_putEC, wp_bind, wp_getEC. cbn [k_ec k_store].
  apply wp_bind, wp_getStore, wp_bind, wp_try, wp_onStore. unfold wp at 1. cbn [k_store].
  destruct (ExecuteRequestHeaderPolicies _ _ _ _ _ _) as [st [ctx res]|st e|]; [|by apply wp_bind, wp_putEC, modes_error|done].
  apply wp_bind, wp_getEC, wp_bind, wp_putEC, wp_bind. cbn [k_ec k_store].
  apply wp_mono with (Q := fun s' _ => modeInv chain streams s') (E := fun _ _ => True) (P := True); [| |done|done].
  - destruct (er_ShortCircuited res); [by apply wp_ret|]. apply wp_bind. unfold wp at 1, mutateHeadersAt.
    destruct (Headers_UnsafeInternalValues _); [by split|]. destruct (requestResultsSet _); [done|by split].
  - intros s1 _ Hs1. clear Hq. apply wp_bind, wp_get. destruct (_ && _); [by apply modes_empty|by apply modes_translate].
Qed.

(** The processing mode the engine asks Envoy for fits the chain: when
    the answer to the request headers overrides the mode, the request body
    is not sent exactly when no policy wants it, streamed only when every
    policy that wants it works on chunks and the client streams, and
    buffered otherwise; the response body is requested, buffered until its
    headers are known, exactly when a policy wants it. *)
Theorem processing_mode_fits_the_chain chain key h rm c st :
  let '(st1, ec) := buildRequestContexts chain key h rm st in
  match processRequestHeaders c (mkKState st1 ec) with
  | Ok _ resp => forall mo, resp_ModeOverride resp = Some mo ->
      mo_RequestBodyMode mo =
        requestModeOf chain (isStreamingClientRequest (Some (NewHeaders (Some (collectHeaders (hh_Headers h)))))) /\
      mo_ResponseBodyMode mo = responseModeOf chain
  | _ => True
  end.
Proof.
  destruct (buildRequestContexts chain key h rm st) as [st1 ec] eqn:E.
  assert (modeInv chain (isStreamingClientRequest (Some (NewHeaders (Some (collectHeaders (hh_Headers h))))))
    (mkKState st1 ec)) as Hs.
  { unfold buildRequestContexts in E. revert E. destruct (if String.eqb _ "" then _ else _) as [id n].
    destruct (allocHeaders _ _) as [st2 l]. destruct (allocHeaders (cloneHeaders _) _) as [st3 d].
    intros [= <- <-]. by split. }
  pose proof (modes_processRequestHeaders _ _ c _ Hs) as Hm. unfold modesFit, wp in Hm.
  by destruct (processRequestHeaders c _).
Qed.

End Modes.

(** ** Header modifications are applied once *)

(** A header update that, per header, either assigns a fixed value or leaves
    the header alone: doing it again changes nothing. *)
Definition settles (F : HeaderMap -> HeaderMap) : Prop :=
  forall k, (exists v, forall m, F m !! k = v) \/ (forall m, F m !! k = m !! k).

Lemma settles_id : settles (fun m => m).
Proof. right. done. Qed.
Lemma settles_compose F G : settles F -> settles G -> settles (fun m => G (F m)).
Proof.
  intros HF HG k. destruct (HG k) as [[v Hv]|Hid]; [left; exists v; intros; apply Hv|].
  destruct (HF k) as [[v Hv]|HidF]; [left; exists v; intros; by rewrite Hid|].
  right. intros m. by rewrite Hid.
Qed.
Lemma settles_foldl {A} (f : HeaderMap -> A -> HeaderMap) l : (forall a, settles (fun m => f m a)) -> settles (fun m => foldl f m l).
Proof.
  intros Hf. induction l as [|a l IH]; [apply settles_id|]. simpl. exact (settles_compose _ _ (Hf a) IH).
Qed.
Lemma settles_insert k v : settles (fun m => <[k := v]> m).
Proof.
  intros k'. destruct (decide (k = k')) as [->|Hne].
  - left. exists (Some v). intros. apply lookup_insert_eq.
  - right. intros. by apply lookup_insert_ne.
Qed.
Lemma settles_delete k : settles (fun m => delete k m).
Proof.
  intros k'. destruct (decide (k = k')) as [->|Hne].
  - left. exists None. intros. apply lookup_delete_eq.
  - right. intros. by apply lookup_delete_ne.
Qed.
Lemma settles_idem F m : settles F -> F (F m) = F m.
Proof. intros HF. apply map_eq. intros k. destruct (HF k) as [[v Hv]|Hid]; [by rewrite !Hv|by rewrite Hid]. Qed.

Section Reapply.
Context {W : Type} `{MapRange} `{NetURL} `{Codecs}.
Implicit Types (c : ChainExecutor W) (s : Store W).

Lemma settles_update norm toSet toRemove : settles (update_headers norm toSet toRemove).
Proof.
  apply (settles_compose (set_headers norm toSet) (remove_headers norm toRemove)); unfold set_headers, remove_headers;
    apply settles_foldl; intros; [apply settles_insert|apply settles_delete].
Qed.

Lemma settles_replay results : settles (replayRequestHeaders results).
Proof.
  apply settles_foldl. intros r. destruct (pr_Action r) as [[m|i]|]; [apply settles_update|apply settles_id..].
Qed.

(** Skipped policies have no action. *)
Definition skipsAreEmpty {Act} (r : PolicyResult Act) : Prop := pr_Skipped r = true -> pr_Action r = None.

Lemma apply_replay results m :
  Forall skipsAreEmpty results -> applyRequestHeaderMutations results m = replayRequestHeaders results m.
Proof.
  intros Hall. revert m. induction Hall as [|r l Hr _ IH]; intros m; [done|]. cbn [applyRequestHeaderMutations replayRequestHeaders foldl].
  unfold applyRequestHeaderMutations, replayRequestHeaders in IH. rewrite IH. f_equal.
  destruct (pr_Skipped r) eqn:Hs; [by rewrite Hr|done].
Qed.

Lemma requestHeader_skips c pols ctx specs has s :
  length pols <= length specs ->
  wp (ExecuteRequestHeaderPolicies c pols ctx specs has) (fun _ st => Forall skipsAreEmpty (er_Results st.2))
     (fun _ _ => True) True s.
Proof.
  intros Hlen. apply wp_runForward; [done|].
  apply loop_preserves with (J := fun _ st => Forall skipsAreEmpty (er_Results st.2)); [| |done].
  - intros f spec params pol st s1 _ _ Hst. unfold requestHeaderRun. apply wp_bind, wp_invoke. intros w sh a _.
    apply wp_bind, wp_any. intros s2 ctx2.
    assert (Forall skipsAreEmpty (er_Results st.2 ++ [executedResult spec a])%list) as Hnew
      by (apply Forall_app_2; [done|by repeat constructor]).
    destruct a as [[m|i]|]; by apply wp_ret.
  - intros spec st s1 Hst. simpl. apply Forall_app_2; [done|by repeat constructor].
Qed.

(** The executor applies header modifications as the policies run, and
    the request-headers handler applies those of the results once more; the
    second application changes nothing, so the policies' modifications take
    effect exactly once. *)
Theorem header_modifications_take_effect_once c pols ctx specs has s s' ctx' res m (ec : PolicyExecutionContext W) :
  length pols <= length specs ->
  headers_at s (rh_Headers ctx) = Some (mkHeaders (Some m)) ->
  ExecuteRequestHeaderPolicies c pols ctx specs has s = Ok s' (ctx', res) ->
  headers_at s' (rh_Headers ctx') = Some (mkHeaders (Some (replayRequestHeaders (er_Results res) m))) /\
  mutateHeadersAt (rh_Headers ctx') (requestResultsSet (er_Results res))
    (applyRequestHeaderMutations (er_Results res)) (mkKState s' ec) = Ok (mkKState s' ec) tt.
Proof.
  intros Hlen Hm Hrun.
  destruct (wp_Ok _ _ _ _ _ _ _ (requestHeader_wp c pols ctx specs has s m Hlen Hm) Hrun) as [Hh Hc].
  pose proof (wp_Ok _ _ _ _ _ _ _ (requestHeader_skips c pols ctx specs has s Hlen) Hrun) as Hskip.
  simpl in Hc, Hh, Hskip. subst ctx'. simpl.
  assert (headers_at s' (rh_Headers ctx) = Some (mkHeaders (Some (replayRequestHeaders (er_Results res) m)))) as Hat
    by (unfold headers_at; rewrite Hh; apply lookup_insert_eq).
  split; [done|]. unfold mutateHeadersAt. cbn [k_store k_ec]. rewrite Hat.
  simpl (Headers_UnsafeInternalValues _). cbv iota.
  rewrite apply_replay by done. rewrite (settles_idem _ _ (settles_replay _)). simpl.
  rewrite insert_id by done. by destruct s'.
Qed.

End Reapply.

(** ** Witnesses *)

#[local] Existing Instance MapRange_list.
#[local] Existing Instance plainPB.
#[local] Existing Instance toyCodecs.
#[local] Existing Instance toyUUID.

(** A chain that holds chunks back as long as it may. *)
Definition holdingChain : PolicyChain unit :=
  chainOfList [(streamer (Some (ForwardRequestChunk (chunkFields None))) None true, specOf "hold" true None)]
    true false true false.
Definition chunked : HttpHeaders := postHeaders [("transfer-encoding", "chunked")].
Definition chunks : list HttpBody := [mkHttpBody (Some (bytes_of "ab")) false; mkHttpBody (Some (bytes_of "cd")) true].


(** A policy that ends the response stream with its first chunk and notes it,
    before one that lets chunks pass. *)
Definition endingPolicy : Policy bool :=
  mkPolicy streamModes None None NoRequestPolicy
    (IsStreamingResponsePolicy (fun st _ _ => (st_world st, st_shared st, None))
      (fun st _ _ _ => (true, st_shared st, Some (TerminateResponseChunk (chunkFields (Some (bytes_of "bye"))))))
      (fun w _ => (w, false))).
Definition passingPolicy : Policy bool :=
  mkPolicy streamModes None None NoRequestPolicy
    (IsStreamingResponsePolicy (fun st _ _ => (st_world st, st_shared st, None))
      (fun st _ _ _ => (st_world st, st_shared st, Some (ForwardResponseChunk (chunkFields None)))) (fun w _ => (w, false))).
Definition terminatingChain : PolicyChain bool :=
  mkPolicyChain [passingPolicy; endingPolicy] [specOf "pass" true None; specOf "end" true None] false true false true false true true.
Definition notingExecutor : ChainExecutor bool := mkChainExecutor None.
Definition respondingState : KState bool :=
  let '(st, ec) := buildRequestContexts terminatingChain "r" chunked sampleRoute (mkStore (st_heap sampleStore) sampleShared false 0) in
  match processResponseHeaders notingExecutor (mkHttpHeaders [(":status", "200"); ("transfer-encoding", "chunked")] false) (mkKState st ec) with
  | Ok s _ => s
  | _ => mkKState st ec
  end.

Lemma terminatingChain_notes : notesTermination (fun w => w) terminatingChain.
Proof.
  split; [apply le_n| |]; intros pol cb need; intros; match goal with H : pol ∈ _ |- _ => apply list_elem_of_In in H; destruct H as [<-|[<-|[]]] end;
    match goal with H : asStreamingResponsePolicy _ = _ |- _ => injection H as <- <- end; cbn; by rewrite ?orb_true_r, ?orb_false_r.
Qed.

Lemma termination_is_visible_and_final_witness :
  exists s1 r, processResponseBody notingExecutor (mkHttpBody (Some (bytes_of "xyz")) false) respondingState = Ok s1 r /\
    String.string_of_list_byte (emitted r) = "bye" /\ endsStream r = true /\
    exists s2, mapM (processResponseBody notingExecutor) chunks s1
                 = Ok s2 [suppressed Response_ResponseBody; suppressed Response_ResponseBody] /\ k_store s2 = k_store s1.
Proof.
  assert (succeeds (processResponseBody notingExecutor (mkHttpBody (Some (bytes_of "xyz")) false) respondingState)
    (fun s r => st_world (k_store s) && String.eqb (String.string_of_list_byte (emitted r)) "bye") = true) as Hs by (vm_compute; reflexivity).
  apply succeeds_inv in Hs as (s1&r&E&Ht). apply andb_true_iff in Ht as [Ht Hr]. apply String.eqb_eq in Hr.
  exists s1, r. split; [exact E|]. split; [exact Hr|].
  apply (termination_is_visible_and_final (fun w => w) notingExecutor (mkHttpBody (Some (bytes_of "xyz")) false) chunks respondingState s1 r);
    [exact terminatingChain_notes|vm_compute; reflexivity|vm_compute; reflexivity|exact E|exact Ht].
Defined.

Lemma processing_mode_fits_the_chain_witness :
  exists s resp mo, processRequestHeaders sampleExecutor (kstateOf holdingChain chunked) = Ok s resp /\
    resp_ModeOverride resp = Some mo /\ mo_RequestBodyMode mo = FULL_DUPLEX_STREAMED /\ mo_ResponseBodyMode mo = NONE.
Proof.
  assert (succeeds (processRequestHeaders sampleExecutor (kstateOf holdingChain chunked))
    (fun _ r => match resp_ModeOverride r with Some _ => true | None => false end) = true) as Hs by (vm_compute; reflexivity).
  apply succeeds_inv in Hs as (s&resp&E&Ht). destruct (resp_ModeOverride resp) as [mo|] eqn:Hmo; [|discriminate Ht].
  pose proof (processing_mode_fits_the_chain holdingChain "r" chunked sampleRoute sampleExecutor sampleStore) as Hm.
  unfold kstateOf in E. destruct (buildRequestContexts holdingChain "r" chunked sampleRoute sampleStore) as [st ec] eqn:Eb.
  rewrite E in Hm. exists s, resp, mo. unfold kstateOf. rewrite Eb. split; [exact E|]. split; [exact Hmo|]. exact (Hm mo Hmo).
Defined.

Lemma header_modifications_take_effect_once_witness :
  exists s' ctx' res, ExecuteRequestHeaderPolicies sampleExecutor (map fst sampleChain) sampleRHC (map snd sampleChain) true sampleStore
      = Ok s' (ctx', res) /\
    mutateHeadersAt (rh_Headers ctx') (requestResultsSet (er_Results res)) (applyRequestHeaderMutations (er_Results res))
      (mkKState s' (k_ec (kstateOf holdingChain chunked))) = Ok (mkKState s' (k_ec (kstateOf holdingChain chunked))) tt.
Proof.
  assert (succeeds (ExecuteRequestHeaderPolicies sampleExecutor (map fst sampleChain) sampleRHC (map snd sampleChain) true sampleStore)
    (fun _ _ => true) = true) as Hs by (vm_compute; reflexivity).
  apply succeeds_inv in Hs as (s'&[ctx' res]&E&_). exists s', ctx', res. split; [exact E|].
  apply (header_modifications_take_effect_once sampleExecutor (map fst sampleChain) sampleRHC (map snd sampleChain) true
    sampleStore s' ctx' res sampleRequestHeaders (k_ec (kstateOf holdingChain chunked))); [apply le_n|reflexivity|exact E].
Defined.
